(* ===== verification/_CoqProject ===== *)
-Q . S2P
Prelude.v
Text.v
Baseline.v
ModuleText.v
Config.v
Decisions.v
Resolve.v
InprocCache.v
Effects.v
Trust.v
World.v
Loader.v
Collect.v
Identity.v
Evaluator.v
EvaluatorProps.v
Enforcement.v
OpaModules.v
EvalCache.v
OwnerFence.v
AdminTrust.v
EngineClient.v
Interceptor.v
RemoteEvaluator.v
Json.v
Pins.v
Revocation.v
Auth.v
JsonParse.v
IpAddress.v
Ssrf.v
Sidecar.v
RateLimit.v
Protocol.v
McpPins.v
McpServers.v
Masking.v
Correlate.v
McpSchema.v
Scanner.v
FirewallGates.v
Firewall.v
ParamPaths.v
Regex.v
Destinations.v
Confusables.v
Capability.v
Sources.v
Base64.v
Content.v
Derived.v
Promotions.v
Wrapping.v
Adapters.v
DeclaredSchema.v
Fleet.v
FleetLoader.v
FleetEnroll.v
FleetRollup.v
RegoGate.v
Remediation.v
