(* ===== verification/Prelude.v ===== *)
(** * Norviq: a verification library for the policy enforcement engine

    Norviq decides, for every tool call of an AI agent, whether the call may run.  An enforcement point
    (SDK, sidecar or MCP proxy) sends the call to the engine; the engine validates the agent's identity,
    scores its trust, evaluates the Rego policies that apply to it in OPA, resolves them to one verdict
    (allow, audit, escalate or block), applies the freeze, the rate limit and the namespace's monitor
    mode, and records the outcome.  Policies live in PostgreSQL, are held in memory by every replica,
    mirrored to OPA, and their decisions are cached in Redis and in the process.

    An administrator may freeze an agent or cap its trust; such a control is written to the registry in
    PostgreSQL and to the live keys in Redis, by any replica, under a lock and a fence token.  The API in
    front of the engine authenticates callers, binds the identity of a call to the credential, refuses
    logged-out sessions and limits request rates.  An MCP proxy pins the tool definitions of the servers
    it fronts and reports them to the console, where operators approve definitions and decide on servers;
    its firewall scans what a server says before the model reads it, puts each call to the engine before
    the server sees it, and lets a server speak only in answer to a request.

    This library models these paths, from [src/norviq], and proves what they promise.

    ** The parts, and where they are modelled

    Foundations
    - [Prelude]: notation, tactics, hint databases; lemmas on lists, stable sorting, strings, JSON
      values, rationals and rounding, printing of numbers.
    - [Text]: Python text as code points: strip, split, join, search, order, and their lemmas.
    - [Json], [JsonParse]: JSON values over code points, [json.dumps] and [json.loads].
    - [IpAddress]: what the code uses of [ipaddress] and [socket.inet_aton].
    - [Config]: the settings the modelled code reads ([config.py]), with the shipped defaults.
    - [Effects]: the state-and-exception monad of the engine, relations kept by a computation, and
      weakest preconditions.
    - [World]: the stores as one state (PostgreSQL rows, Redis, OPA's modules, the loader's and the
      evaluator's fields, queued tasks, published messages), and the class [Externals].

    The engine
    - [Decisions]: verdicts, decisions, identities, events and their validators, and the fold of an
      enforcement point's own refusal ([sdk/core/decisions.py], [sdk/core/events.py]).
    - [Resolve]: precedence resolution ([evaluator.py]: [_resolve_with_packs], [_resolve_precedence],
      [_resolve_overlay], [_resolve_pack_family], [_resolve_hard_overlay], [_apply_policy_mode]), with an
      order-free specification in the module [Spec] that it refines.
    - [Baseline]: the controls compiler and the coverage test ([api/baseline.py]).
    - [ModuleText]: identifiers and package headers of pushed modules ([opa_client.py]) and the rewriting
      of empty literals ([empty_literals.py]).
    - [InprocCache]: the in-process TTL cache ([inproc_cache.py]).
    - [Trust]: the seven signals, score, cap, tiers and recommendation ([engine/trust]).
    - [Loader]: [policy_loader.py] and the evaluator's index: save, apply, roll back, delete, peer
      events, reload and warm start, and the invalidation of cached decisions ([cache.py]).
    - [Collect]: which policies apply to a call ([_collect_candidates], [_collect_candidates_union],
      [_controls_supersede_baseline], [namespaces_for_class]).
    - [Identity]: the identity rule and the SPIFFE resolver ([identity.py]).
    - [Evaluator]: [OPAEvaluator.evaluate] and everything it calls, handlers included.
    - [EvaluatorProps]: what evaluation leaves unchanged, and one rule for each of its phases.
    - [Enforcement], [OpaModules], [EvalCache]: the theorems about a call, about OPA's module store, and
      about the eval caches.
    - [OwnerFence]: the Lua scripts of [cache.py] that fence admin writes ([_CLAIM_LUA],
      [_FENCED_CONTROL_LUA], [_FENCED_WARM_LUA]), over digit strings as they are, with an abstract fence
      (module [Fence]) that they implement.
    - [AdminTrust]: an admin change of an agent's controls ([api/routers/agents.py]: [update_trust],
      [_tighten], [_loosen], [_fenced_write], [_persist_trust_control]) and the fenced adds of the boot
      warm ([warm_admin_trust_controls]).

    The derived view of a call
    - [Regex]: regular expressions as Python's [re] runs them; [Base64]: [a2b_base64] and strict UTF-8.
    - [ParamPaths]: the arguments as paths and the paths in doubt ([evaluator.py]: [_walk_paths]).
    - [Destinations]: addresses, URLs, hosts and recipients ([_destinations], [_recipient_domains]).
    - [Confusables]: look-alike letters ([engine/confusables.py]).
    - [Capability]: the verb and the risk of a call ([engine/capability/source_registry.py]:
      [classify_tool]); [Sources]: the registry of data sources, findings and defences of that file.
    - [Content]: the views of a value ([engine/content_norm.py]), the test for bare secrets
      ([engine/entropy.py]) and the classes of data of a request ([_data_classes]).
    - [Derived]: [_compute_derived_input] and [_normalize_for_match], composed of the above.
    - [Promotions]: promotion of a tool to a verb ([api/routers/threats.py]: [promote_tool_verb],
      [demote_tool_verb], [warm_verb_overrides]) over the table and the copies of the processes.

    Enforcement points
    - [EngineClient]: the SDK's client ([sdk/client/engine.py]): retries, circuit breaker, fallback, and
      the walk over the caller's arguments (module [NonFinite]).
    - [Interceptor]: [sdk/core/interceptor.py] and [sdk/core/recorder.py], proved against the interface
      [SupportsEvaluate], of which the evaluator, the client and the thin proxy are instances.
    - [RemoteEvaluator]: the thin-proxy evaluator ([sidecar/remote_evaluator.py]).
    - [Wrapping]: the payload of a wrapped tool's call ([sdk/core/wrapping.py]), with Python's
      [Signature.bind].
    - [Adapters]: the wrappers of the frameworks, LangGraph's guarded node, Semantic Kernel's filter and
      [protect] ([sdk/crewai], [sdk/langchain], [sdk/autogen], [sdk/langgraph], [sdk/semantic_kernel]).
    - [DeclaredSchema]: the argument names a framework declares, and their registry
      ([sdk/langchain/adapter.py]: [_collect], [ingest_declared_schema]).
    - [Sidecar]: the socket and HTTP handlers ([sidecar/proxy.py], [sidecar/http_fallback.py]) and the
      waits at start ([startup_retry.py], module [Startup]).

    The API
    - [Revocation]: logout ([api/session_revocation.py]) over Redis, PostgreSQL and the process.
    - [Auth]: credentials, scopes and identity binding ([api/auth.py], [api/api_keys.py]).
    - [RateLimit]: the HTTP rate limit ([api/rate_limit.py]).
    - [Masking]: card numbers, sensitive keys and URLs ([engine/masking.py]).
    - [RegoGate]: the checks on a submitted policy text ([api/routers/policies.py]: [validate_rego_source]).
    - [Remediation]: the drafts and overlays of compliance controls ([api/threat_intent.py]), and how they
      are applied and reverted ([create_policy], [delete_policy]).
    - [Ssrf]: the classification of destinations ([engine/ssrf.py]) and the guard of the fleet's outbound
      requests ([fleet/ssrf_guard.py], [fleet/pinned_transport.py]).

    The fleet
    - [Fleet]: distribution of policies: the hub's policies and bundles ([fleet/routers/fleet_policy.py],
      [fleet/bundle.py]) and the puller of a spoke ([fleet_puller.py]), with a step relation over both.
    - [FleetLoader]: the loader of [Loader] as an instance of the interface [Fleet] is proved against.
    - [FleetEnroll]: join tokens ([fleet/join_token.py]), their claim at the hub ([fleet/routers/fleet.py]),
      joining and leaving ([api/routers/fleet_enroll.py]).
    - [FleetRollup]: heartbeats and rollups ([fleet/routers/ingest.py]), the relay ([fleet_relay.py]), the
      console's reads and the drill-down.

    MCP
    - [Protocol]: the wire protocol ([mcp/protocol.py]).
    - [Pins]: the pin registry of a proxy over its stores ([mcp/pins.py]).
    - [McpPins]: the console's side of pins ([api/routers/mcp.py]), and a proxy that loads and reports.
    - [McpServers]: server decisions, the compiled registry module ([api/mcp_controls.py]), the
      inventory, and the proxies' copy ([mcp/servers.py]).
    - [Correlate]: which request a response answers ([mcp/firewall.py]: [_PendingMap], [Correlation],
      [_response_defect] and the bookkeeping of the two handlers), with a ledger it refines.
    - [McpSchema]: the guards on a call's arguments ([_sets_transport_headers], [_schema_violations],
      [_schema_enforceability]).
    - [Scanner]: the scan of definitions, listings, prompts and results ([mcp/scanner.py]), behind the
      interface [Scanner] the gates are proved against.
    - [FirewallGates]: the gates that read only the message ([mcp/firewall.py]): handshake, elicitation,
      notifications, prompts, demands for input, listings, and the guard on results.
    - [Firewall]: the state of [McpFirewall] and its handlers: the catalogue, the decision on each call,
      the proxy's own listing, reports of refusals, [on_client_message] and [on_server_message], and the
      pumps of the stdio driver around them ([mcp/stdio.py]: the reader, the queue, the server's side)
      as a step relation; the engine is behind the interface [PolicyGate].

    ** How the model relates to the code

    Python's coroutines are computations of the monad [M World]: state passing, a value or an exception
    at the end, the state being kept in both cases.  Every awaited external call ([io]) consumes one
    outcome of the list [faults] of the state, so a theorem for all worlds holds for every pattern of
    failures; every reading of the clock consumes one step of [ticks], so it holds for every timing.  A
    run is that of one process handling one call after another; interleavings with other processes
    appear as arbitrary initial worlds and, for the loader, as peer events.  [asyncio.wait_for] may time
    out, in which case the effects of the inner computation stay and its result is dropped.  A push to
    OPA may fail before OPA applies it or after.  In [AdminTrust] and [Revocation] each call to a store
    succeeds, fails without effect, or takes effect and loses its answer; in [Revocation] other processes
    act during every call.  The clients of [EngineClient] and [RemoteEvaluator] consume a list of replies.

    Floating-point numbers are exact rationals [Q], rounded where the code rounds; in [Json] they are
    doubles as sign, mantissa and exponent.  Text whose characters matter (policy sources, SPIFFE ids,
    tokens, addresses, MCP messages) is a list of code points; elsewhere it is the library's [string].
    Redis and PostgreSQL hold decoded values.  Dictionaries that are searched are [gmap]s, those whose
    order matters are association lists.

    The class [Externals] holds what is not modelled: hash functions, the logarithm, OPA's answer to a
    module, and, for the evaluation of a call, its derived view and the tool classifier, which have their
    own files; signature checks and key fetching are the class [JwtLibrary].  Unicode data is the classes
    [Unicode] and [Chars], of which the theorems use what [UnicodeLaws] and [CharsLaws] say of ASCII.  Theorems hold for every instance; where one needs a
    property of them (digests that tell texts apart) it is a hypothesis, and a concrete instance
    ([demo_with]) is used in its witness.

    Recursion is structural, on lists, on numerals or on the code's own retry counts, with four
    exceptions that take fuel: the walk over the arguments of a call (the length of the stack plus the
    sizes of the containers not yet visited; [walk_fuel] shows that this is enough for every heap), the
    JSON parser (twice the length of the text plus one; [parse_fuel] shows that more changes nothing), and
    the wait for the database schema (36 attempts; [schema_ends] shows that it ends before), and the walk
    over the arguments of a classified call (one step per node and one more; [signal_exact]).

    ** What the theorems show

    - Resolution ([Resolve]): it returns a candidate and agrees with the specification; an enforcing
      floor that blocks wins; sector packs only tighten; audit-mode policies never loosen; the order of
      candidates does not matter.
    - Collection ([Collect], [Baseline]): floors and baselines of the namespace cannot be authored away,
      and a controls module supersedes the baseline only if it drops nothing nobody switched off; a save
      leaves no cached decision of its namespace in which the policy could have been a candidate.
    - A call ([Enforcement]): it always gets an answer; failures block; a frozen agent is blocked; a
      refusal of the enforcement point stands; a block names its rule; what is recorded is what is
      returned; monitor mode interrupts nothing but the exempt rules.
    - OPA ([OpaModules], [ModuleText]): in any history of a process that starts with an empty mirror and
      loses no answer of a push, the answer is the one of the policy's current text; dry runs are bounded; modules of different policies do not merge; the rewriting touches code only.
    - Caches ([EvalCache], [InprocCache]): keys separate decision inputs, non-cacheable rules are never
      stored, the in-process cache is bounded and its hits are fresh.
    - Loader ([Loader]): a save takes effect in every layer and reaches peers, a deletion is final, a
      rollback restores, a reload is all or nothing.
    - Trust ([Trust]): scores are in the unit interval, sustained violations escalate, the category is
      frozen exactly for the admin flag, retries of a refused call cost nothing further.
    - Identity ([Identity]): accepted ids can be stored and so frozen; minted ids parse back.
    - Admin controls ([OwnerFence], [AdminTrust]): the claim script implements the order on fence states
      and an overtaken writer never writes; an answer of 200 means that registry and live keys agree; the
      live keys are never looser than the registry unless the answer says so; a freeze lands whatever the
      database does; the boot warm only adds.
    - The derived view ([ParamPaths], [Destinations], [Capability], [Sources], [Content], [Derived],
      [Promotions]): a path that is not in doubt is the value the tool finds there; an allowlist of
      recipients or hosts holds for what the call names, within stated bounds; the classifier computes its
      closed form, a read through a tool that runs something is a proved read, arguments only raise a verb
      and look-alike letters do not change it; spelling, separators and base64 do not hide a number; a
      promotion fills in only what a name leaves open, and stays in force in every process that re-reads
      the table; findings on a source are complete and its severity is that of its gravest gap.
    - Enforcement points ([EngineClient], [RemoteEvaluator], [Interceptor], [Sidecar]): refusals of the
      engine are never taken for an outage, the breaker opens on silence only, retries follow their
      reference, arguments JSON cannot carry are found; a tool runs only on an allow or an audit, a frozen
      agent's pod gets nothing forwarded, and a caller outside the pod is evaluated as itself.
    - Adapters ([Wrapping], [Adapters], [DeclaredSchema]): in any tree of wrapped tools whose calls carry
      none of the wrapper's own keywords the bodies that run are the recorded allows, at their depth;
      LangGraph's node runs when every call of the message was allowed; the payload of an ordinary call is
      exactly its arguments, each under the name of its parameter; no positional name is made up; [protect] leaves no tool bare; declared names that are not
      marked incomplete are the declaration, and their registry is bounded.
    - Callers ([Auth], [Revocation], [RateLimit]): credentials decide the tenant and the agent; a logout
      holds on the process that served it, through failures and respellings; of the requests of a window
      exactly the first ones pass while the store answers, and forged forwarding headers change nothing.
    - Submitted policies ([RegoGate], [Remediation]): an accepted text is within the bounds, declares
      a default decision and a refusal where the gate reads them, and as the gate reads it names no
      forbidden builtin and no foreign data; the overlay of a class does what the list of controls does
      under any drafts the gate accepts and any reverts, so that no application loses a control.
    - Destinations ([Ssrf]): every spelling of an address has its class; a dialled address is public.
    - The fleet ([Fleet], [FleetEnroll], [FleetRollup]): only a verified, current and newer bundle changes a
      cluster, never in a scope it manages itself; after any history a pull without faults puts in force what
      the hub resolves, deletes what the last manifest had besides and leaves every other key, also after
      joining again, and the modelled loader keeps the interface this is proved against; a join token verifies where it was signed and is claimed
      once; leaving sheds what the manifests record; counters hold what the relay counted; reads of a caller
      bound to a cluster are of that cluster; the drill-down's token goes to a checked address.
    - MCP ([Protocol], [Pins], [McpPins], [McpServers]): a message reads one way and is read back; a pin
      binds content, approvals are human and reach the proxies; decisions on servers that report a
      count are in force, and reach the proxies.
    - The MCP firewall ([Correlate], [McpSchema], [Scanner], [FirewallGates], [Firewall]): a forwarded
      call was decided on exactly its tool and arguments, passes the check of the declared schema (a subset:
      exactly three statements, and a valid call is never refused) and sets no headers; only tools vetted
      against the proxy's own pins, seen names and budgets are shown, and only shown tools can be called; withheld tools are refused
      even with the engine down; a blocked server shows nothing; a response reaches the client only as
      the one answer to a forwarded request, under the reading of its id a client has, in any interleaving
      of the pumps; one text of each block of a result is scanned within what is left of the budget and
      masked; a definition that is not reported incomplete was read in full.
    - Masking ([Masking]): a masked card shows four digits, structures are masked whole within the
      bounds of the walk, redacted URLs do not depend on their password or path.

    Some theorems state behaviour that differs from what the code's comments promise: the eval-cache key
    leaves the session out, a frozen agent passes on an engine fault in monitor mode, a push whose answer
    is lost leaves OPA with a rolled-back text, an engine error is cached, a write to the cluster
    baseline leaves other namespaces' cached decisions, the all-namespaces view omits the MCP floor, a
    re-applied priority is not persisted, the client's outage fallback answers redirects too, a failed
    catalogue report is never repeated, one odd server id stops the registry of its namespace, an infinite
    call depth raises, a lost expiry locks a caller out, the fleet's guard dials shared address space, an
    answer to a server's question is decided under a doubled prefix, some schemas make the check raise, a
    server's forged annotation is carried, the second text of a block and the text of an error are not
    guarded, refusals under made-up names are all reported, an [@] in a path is published, padding evicts
    destinations from the derived view, a long recipient is not seen, a bracketed placeholder leaves a
    call without a derived view, an assignment or four decoys hide base64, a promotion reaches only the
    process that serves it, a keyword hides the positional arguments of a call that does not fit its
    signature, a keyword [_name] has a tool evaluated under another name, the names inside a list of
    lists are not missed, every reported pull makes the next one a new version, a policy of a bundle that was
    not recorded survives its retraction, leaving deletes managed scopes a manifest names, the relay
    overwrites the count of an hour with that of its end, quotes in raw strings and trailing comments hide
    code from the gate on Rego, a default in a trailing comment counts as declared, constraints the schema
    check does not read may go without a note, and an id with a line separator forges the manifest of an overlay.

    ** What is not modelled

    Queued background work (history, profile and graph writes, audit emission) is recorded, not run.
    The patterns of the scanner's rules and Unicode folding are parameters of [Scanner], the wording of
    refusals a parameter of [Firewall]; counters and log lines are left out.  What happens on other
    streams while the proxy waits for its own listing is an argument of [Firewall]; in its step relation
    a handler runs whole or is interrupted where it waits.  The entropy of a
    value is a parameter of [Content], since its threshold is compared in doubles.  The intent compiler
    writes Rego, whose meaning is OPA's; the batching of the boot warm is not covered.  Of the fleet the
    timers of the puller and the relay and the fetching of OIDC tokens are left out.  In [Adapters] the frameworks are arguments, and the background event loop on which the
    synchronous wrappers ask is not modelled.  The other guards of the policy routes,
    the intent templates, other routers, persistence declarations, transports,
    telemetry, the command line and the red-team corpora are input and output around this core. *)

From stdpp Require Export base tactics list strings gmap.
From stdpp Require Import pretty.
From Stdlib Require Export QArith Qminmax Lqa.
From Stdlib Require Export Sorting.Sorted Sorting.Permutation.

(** ** Scopes and notation *)

Declare Scope norviq_scope.
Delimit Scope norviq_scope with nrvq.
Open Scope string_scope.
Open Scope list_scope.
Open Scope Z_scope.

(** ** Automation *)

Create HintDb norviq.

(** Split every boolean connective of the context and reflect the comparisons. *)
Ltac bool_prop :=
  repeat match goal with
  | H : _ && _ = true |- _ => apply andb_true_iff in H; destruct H
  | H : _ || _ = false |- _ => apply orb_false_iff in H; destruct H
  | H : negb _ = true |- _ => apply negb_true_iff in H
  | H : negb _ = false |- _ => apply negb_false_iff in H
  | H : bool_decide _ = true |- _ => apply bool_decide_eq_true in H
  | H : bool_decide _ = false |- _ => apply bool_decide_eq_false in H
  | H : (_ <=? _) = true |- _ => apply Z.leb_le in H
  | H : (_ <=? _) = false |- _ => apply Z.leb_gt in H
  | H : (_ <? _) = true |- _ => apply Z.ltb_lt in H
  | H : (_ <? _) = false |- _ => apply Z.ltb_ge in H
  | H : (_ =? _) = true |- _ => apply Z.eqb_eq in H
  | H : (_ =? _) = false |- _ => apply Z.eqb_neq in H
  end.

(** Case on the next [match] or [if] of the goal, keeping the equation. *)
Ltac case_on :=
  match goal with
  | |- context [match ?x with _ => _ end] => destruct x eqn:?
  end.

(** Case on every [match] of the goal and discharge what is then immediate. *)
Ltac crush_cases :=
  repeat (case_on; simplify_eq/=); try done; auto with norviq.

(** ** Python's stable [list.sort(key=...)] and [items[0]] after it

    The resolvers of the evaluator all have the shape
    [items.sort(key=k); return items[0]] with [k] a pair of integers.  [sort_by] is the stable
    sort by such a key ([list.sort] is stable: equal keys keep their order) and [first_by] is its
    head, [None] where Python would raise [IndexError]. *)

Section SortBy.
Context {A : Type} (key : A -> Z * Z).

(** Lexicographic comparison of two keys, as Python compares tuples. *)
Definition key_leb (a b : Z * Z) : bool :=
  (a.1 <? b.1) || ((a.1 =? b.1) && (a.2 <=? b.2)).

Fixpoint insert_by (x : A) (l : list A) : list A :=
  match l with
  | [] => [x]
  | y :: l' => if key_leb (key x) (key y) then x :: l else y :: insert_by x l'
  end.

Fixpoint sort_by (l : list A) : list A :=
  match l with
  | [] => []
  | x :: l' => insert_by x (sort_by l')
  end.

Definition first_by (l : list A) : option A := head (sort_by l).

Definition key_le (x y : A) : Prop := key_leb (key x) (key y) = true.

Lemma key_leb_spec a b :
  key_leb a b = true <-> a.1 < b.1 \/ (a.1 = b.1 /\ a.2 <= b.2).
Proof.
  unfold key_leb. rewrite orb_true_iff, andb_true_iff, Z.ltb_lt, Z.eqb_eq, Z.leb_le. done.
Qed.

Lemma key_leb_total a b : key_leb a b = false -> key_leb b a = true.
Proof.
  intros H. apply key_leb_spec.
  destruct (decide (b.1 < a.1 \/ (b.1 = a.1 /\ b.2 <= a.2))) as [|Hn]; [done|].
  exfalso. assert (key_leb a b = true) by (apply key_leb_spec; lia). congruence.
Qed.

Lemma key_leb_trans a b c : key_leb a b = true -> key_leb b c = true -> key_leb a c = true.
Proof. rewrite !key_leb_spec. lia. Qed.

Lemma key_leb_refl a : key_leb a a = true.
Proof. apply key_leb_spec. lia. Qed.

Lemma insert_by_perm x l : insert_by x l ≡ₚ x :: l.
Proof.
  induction l as [|y l IH]; simpl; [done|].
  destruct (key_leb _ _); [done|]. rewrite IH. apply Permutation_swap.
Qed.

Lemma sort_by_perm l : sort_by l ≡ₚ l.
Proof. induction l as [|x l IH]; simpl; [done|]. by rewrite insert_by_perm, IH. Qed.

Lemma insert_by_sorted x l : StronglySorted key_le l -> StronglySorted key_le (insert_by x l).
Proof.
  induction 1 as [|y l Hl IH Hy]; simpl; [repeat constructor|].
  destruct (key_leb (key x) (key y)) eqn:E.
  - constructor; [by constructor|]. constructor; [done|].
    eapply Forall_impl; [exact Hy|]. intros z Hz. eapply key_leb_trans; eauto.
  - constructor; [done|]. rewrite insert_by_perm. constructor; [|done].
    by apply key_leb_total.
Qed.

Lemma sort_by_sorted l : StronglySorted key_le (sort_by l).
Proof. induction l; simpl; [constructor|]. by apply insert_by_sorted. Qed.

Lemma first_by_None l : first_by l = None <-> l = [].
Proof.
  unfold first_by. split; [|by intros ->].
  pose proof (sort_by_perm l) as P. destruct (sort_by l); [|done].
  intros _. by apply Permutation_nil_l in P.
Qed.

Lemma first_by_elem l x : first_by l = Some x -> x ∈ l.
Proof.
  unfold first_by. intros H. rewrite <- (sort_by_perm l).
  destruct (sort_by l); simplify_eq/=. left.
Qed.

(** The element returned has the least key of the list. *)
Lemma first_by_least l x y : first_by l = Some x -> y ∈ l -> key_le x y.
Proof.
  unfold first_by. pose proof (sort_by_sorted l) as S. intros H Hy.
  rewrite <- (sort_by_perm l) in Hy.
  destruct (sort_by l) as [|z l']; simplify_eq/=.
  apply elem_of_cons in Hy as [->|Hy]; [apply key_leb_refl|].
  inversion_clear S as [|? ? ? F]. rewrite Forall_forall in F.
  by apply F.
Qed.

Lemma first_by_is_Some l : l <> [] -> is_Some (first_by l).
Proof.
  intros H. destruct (first_by l) eqn:E; [eauto|]. by apply first_by_None in E.
Qed.

(** The least key does not depend on the order of the list. *)
Lemma first_by_perm_key l1 l2 x1 x2 :
  l1 ≡ₚ l2 -> first_by l1 = Some x1 -> first_by l2 = Some x2 -> key x1 = key x2.
Proof.
  intros P H1 H2.
  assert (L1 : key_le x1 x2) by (eapply first_by_least; [done|]; rewrite P; by apply first_by_elem).
  assert (L2 : key_le x2 x1) by (eapply first_by_least; [done|]; rewrite <- P; by apply first_by_elem).
  unfold key_le in *. rewrite key_leb_spec in L1, L2.
  destruct (key x1), (key x2); simpl in *. f_equal; lia.
Qed.

(** The sort is stable: an element whose key is not smaller than any other stays last. *)
Lemma insert_by_snoc x l e : key_le x e -> insert_by x (l ++ [e]) = insert_by x l ++ [e].
Proof.
  intros H. induction l as [|y l IH]; simpl; [by rewrite H|].
  destruct (key_leb (key x) (key y)); [done|]. by rewrite IH.
Qed.

Lemma sort_by_snoc l e : (forall x, x ∈ l -> key_le x e) -> sort_by (l ++ [e]) = sort_by l ++ [e].
Proof.
  induction l as [|x l IH]; intros H; [done|]. simpl.
  rewrite IH by (intros; apply H; by right). apply insert_by_snoc, H. left.
Qed.

End SortBy.

(** ** Strings

    A Python [str] is a sequence of code points.  The identifiers the modelled code handles are
    compared, concatenated and tested for a prefix or suffix; they are [string]s, one [ascii] per
    code point below 256.  The SPIFFE identifier, whose validation reads code points (surrogates),
    is a list of code points instead, see [Identity]. *)

(** [s.startswith(p)]. *)
Definition starts_with (p s : string) : bool := String.prefix p s.

(** The characters [str.strip()] removes, among the code points below 256. *)
Definition is_space (c : Ascii.ascii) : bool :=
  let n := Z.of_nat (Ascii.nat_of_ascii c) in
  ((9 <=? n) && (n <=? 13)) || ((28 <=? n) && (n <=? 32)) || (n =? 133) || (n =? 160).

Fixpoint string_rev_onto (acc s : string) : string :=
  match s with
  | EmptyString => acc
  | String c s' => string_rev_onto (String c acc) s'
  end.

Definition string_rev (s : string) : string := string_rev_onto EmptyString s.

(** [s.endswith(p)]. *)
Definition ends_with (p s : string) : bool := String.prefix (string_rev p) (string_rev s).

Fixpoint lstrip (s : string) : string :=
  match s with
  | EmptyString => EmptyString
  | String c s' => if is_space c then lstrip s' else s
  end.

(** [s.strip()]. *)
Definition strip (s : string) : string := string_rev (lstrip (string_rev (lstrip s))).

(** [s[:n]]. *)
Fixpoint string_take (n : nat) (s : string) : string :=
  match n, s with
  | O, _ | _, EmptyString => EmptyString
  | S n', String c s' => String c (string_take n' s')
  end.

(** A truthiness test on a string: [bool(s)]. *)
Definition nonempty (s : string) : bool := negb (bool_decide (s = EmptyString)).

(** [a or b] on strings. *)
Definition or_else (a b : string) : string := if nonempty a then a else b.

Lemma or_else_nonempty a b : nonempty b = true -> nonempty (or_else a b) = true.
Proof. unfold or_else. intros Hb. destruct (nonempty a) eqn:E; auto. Qed.

Lemma append_nonempty a b : nonempty a = true -> nonempty (a +:+ b) = true.
Proof. by destruct a. Qed.

Lemma string_app_cons x a b : String x a +:+ b = String x (a +:+ b).
Proof. done. Qed.

Lemma string_app_assoc a b c : (a +:+ b) +:+ c = a +:+ (b +:+ c).
Proof.
  induction a as [|x a IH]; [done|]. by rewrite !string_app_cons, IH.
Qed.

Lemma string_app_nil_r a : a +:+ "" = a.
Proof. induction a as [|x a IH]; [done|]. by rewrite string_app_cons, IH. Qed.

Lemma string_app_length a b : String.length (a +:+ b) = (String.length a + String.length b)%nat.
Proof.
  induction a as [|x a IH]; [done|]. rewrite string_app_cons. simpl. by rewrite IH.
Qed.

Lemma prefix_app p s : String.prefix p (p +:+ s) = true.
Proof.
  induction p as [|c p IH]; [by destruct s|]. rewrite string_app_cons. simpl.
  destruct (Ascii.ascii_dec c c); [done|congruence].
Qed.

Lemma prefix_split p s : String.prefix p s = true -> exists t, s = p +:+ t.
Proof.
  revert s. induction p as [|c p IH]; intros s; [by exists s|].
  destruct s as [|d s]; simpl; [done|].
  destruct (Ascii.ascii_dec c d); [|done]. intros [t ->]%IH. subst. by exists t.
Qed.

Lemma string_rev_onto_app acc s : string_rev_onto acc s = string_rev s +:+ acc.
Proof.
  unfold string_rev. revert acc.
  induction s as [|c s IH]; intros acc; [done|]. simpl.
  rewrite IH, (IH (String c EmptyString)). by rewrite string_app_assoc, string_app_cons.
Qed.

Lemma string_rev_app a b : string_rev (a +:+ b) = string_rev b +:+ string_rev a.
Proof.
  induction a as [|c a IH]; [by rewrite string_app_nil_r|].
  rewrite string_app_cons. unfold string_rev at 1 3. simpl. rewrite !string_rev_onto_app, IH.
    by rewrite string_app_assoc.
Qed.

Lemma ends_with_app p s : ends_with p (s +:+ p) = true.
Proof. unfold ends_with. rewrite string_rev_app. apply prefix_app. Qed.

Lemma string_rev_involutive s : string_rev (string_rev s) = s.
Proof.
  induction s as [|c s IH]; [done|].
  unfold string_rev at 2. simpl. rewrite string_rev_onto_app, string_rev_app, IH. done.
Qed.

Lemma ends_with_split p s : ends_with p s = true -> exists t, s = t +:+ p.
Proof.
  unfold ends_with. intros [t Ht]%prefix_split.
  exists (string_rev t). rewrite <- (string_rev_involutive s), Ht, string_rev_app.
  by rewrite string_rev_involutive.
Qed.

(** ** JSON-like values: the tool parameters and the MCP context of a call

    An object is an association list because Python dicts keep insertion order. *)
Inductive json : Type :=
  | JNull
  | JBool (b : bool)
  | JInt (n : Z)
  | JFloat (q : Q)
  | JStr (s : string)
  | JArr (l : list json)
  | JObj (fields : list (string * json)).

(** [d.get(k)] on an object's fields. *)
Fixpoint assoc {B : Type} (k : string) (l : list (string * B)) : option B :=
  match l with
  | [] => None
  | (k', v) :: l' => if bool_decide (k = k') then Some v else assoc k l'
  end.

(** ** Rationals

    Scores and thresholds are Python floats; they are modelled exactly, by [Q].  [round4] is
    [round(x, 4)]: to the nearest multiple of 1/10000, ties to even. *)

Definition Qltb (a b : Q) : bool := negb (Qle_bool b a).

(** Nearest integer, ties to even. *)
Definition round_half_even (q : Q) : Z :=
  let n := Qnum q in let d := Zpos (Qden q) in
  let f := n / d in
  let r := n - f * d in
  if 2 * r <? d then f
  else if d <? 2 * r then f + 1
  else if Z.even f then f else f + 1.

Definition round4 (q : Q) : Q := (round_half_even (q * 10000) # 10000).

Lemma Qle_bool_false a b : Qle_bool a b = false -> (b < a)%Q.
Proof.
  intros H. apply Qnot_le_lt. intros L. apply Qle_bool_iff in L. congruence.
Qed.

Lemma Qltb_lt a b : Qltb a b = true <-> (a < b)%Q.
Proof.
  unfold Qltb. rewrite negb_true_iff. split; [apply Qle_bool_false|].
  intros L. destruct (Qle_bool b a) eqn:E; [|done].
  apply Qle_bool_iff in E. exfalso. lra.
Qed.

Lemma Qltb_ge a b : Qltb a b = false <-> (b <= a)%Q.
Proof. unfold Qltb. rewrite negb_false_iff. apply Qle_bool_iff. Qed.

(** The rounding is to a nearest integer, and a tie goes to an even one. *)
Lemma round_half_even_spec q :
  let n := round_half_even q in let d := Zpos (Qden q) in
  (2 * n - 1) * d <= 2 * Qnum q <= (2 * n + 1) * d /\
  (2 * Qnum q = (2 * n - 1) * d \/ 2 * Qnum q = (2 * n + 1) * d -> Z.even n = true).
Proof.
  destruct q as [num den]. unfold round_half_even. cbn [Qnum Qden].
  set (d := Zpos den). assert (0 < d) by (unfold d; lia). set (f := num / d).
  assert (Hf : f * d <= num < f * d + d).
  { pose proof (Z.div_mod num d) as E. pose proof (Z.mod_pos_bound num d). fold f in E. lia. }
  destruct (2 * (num - f * d) <? d) eqn:E1; bool_prop; [nia|].
  destruct (d <? 2 * (num - f * d)) eqn:E2; bool_prop; [nia|].
  destruct (Z.even f) eqn:E3; split; [nia|done|nia|]. intros _.
  rewrite Z.even_add, E3. done.
Qed.

Lemma round_half_even_mono a b : (a <= b)%Q -> round_half_even a <= round_half_even b.
Proof.
  intros L. unfold Qle in L.
  destruct (round_half_even_spec a) as [[A1 A2] A3], (round_half_even_spec b) as [[B1 B2] B3].
  set (n := round_half_even a) in *. set (m := round_half_even b) in *.
  set (da := Zpos (Qden a)) in *. set (db := Zpos (Qden b)) in *.
  assert (0 < da /\ 0 < db) as [Pa Pb] by (unfold da, db; lia).
  destruct (Z_le_gt_dec n m) as [|G]; [done|]. exfalso.
  assert (C1 : (2 * n - 1) * da * db <= 2 * Qnum a * db) by (apply Z.mul_le_mono_nonneg_r; lia).
  assert (C2 : 2 * Qnum b * da <= (2 * m + 1) * db * da) by (apply Z.mul_le_mono_nonneg_r; lia).
  assert (P : 0 < da * db) by nia.
  assert (C3 : (2 * n - 1) * (da * db) <= (2 * m + 1) * (da * db)) by nia.
  apply Z.mul_le_mono_pos_r in C3; [|done].
  assert (N : n = m + 1) by lia.
  assert (2 * Qnum a = (2 * n - 1) * da) by (rewrite N in *; nia).
  assert (2 * Qnum b = (2 * m + 1) * db) by (rewrite N in *; nia).
  specialize (A3 ltac:(auto)). specialize (B3 ltac:(auto)).
  rewrite N, Z.even_add, B3 in A3. done.
Qed.

Lemma round_half_even_Z q k : (q == inject_Z k)%Q -> round_half_even q = k.
Proof.
  intros E. unfold Qeq in E. simpl in E. destruct (round_half_even_spec q) as [[A1 A2] _].
  set (n := round_half_even q) in *. set (d := Zpos (Qden q)) in *.
  assert (0 < d) by (unfold d; lia). nia.
Qed.

Lemma round4_mono a b : (a <= b)%Q -> (round4 a <= round4 b)%Q.
Proof.
  intros L. unfold round4, Qle. simpl.
  assert (round_half_even (a * 10000) <= round_half_even (b * 10000)).
  { apply round_half_even_mono. lra. }
  lia.
Qed.

(** Rounding is the identity on multiples of 1/10000. *)
Lemma round4_fixed k q : (q == k # 10000)%Q -> (round4 q == q)%Q.
Proof.
  intros E. unfold round4. rewrite (round_half_even_Z _ k); [by rewrite E|].
  rewrite E. unfold Qeq. simpl. lia.
Qed.

Lemma round4_idem q : (round4 (round4 q) == round4 q)%Q.
Proof. by apply (round4_fixed (round_half_even (q * 10000))). Qed.

#[global] Instance round4_proper : Proper (Qeq ==> Qeq) round4.
Proof.
  intros a b E. apply Qle_antisym; apply round4_mono; rewrite E; apply Qle_refl.
Qed.

Lemma round4_le_fixed k a q : (q == k # 10000)%Q -> (a <= q)%Q -> (round4 a <= q)%Q.
Proof. intros E L. rewrite <- (round4_fixed k q E). by apply round4_mono. Qed.

Lemma round4_ge_fixed k a q : (q == k # 10000)%Q -> (q <= a)%Q -> (q <= round4 a)%Q.
Proof. intros E L. rewrite <- (round4_fixed k q E). by apply round4_mono. Qed.

Lemma Qmin_cases a b : (a <= b /\ Qmin a b == a)%Q \/ (b < a /\ Qmin a b == b)%Q.
Proof.
  destruct (Qlt_le_dec b a) as [L|L].
  - right. split; [done|]. apply Q.min_r. by apply Qlt_le_weak.
  - left. split; [done|]. by apply Q.min_l.
Qed.

Lemma clamp_bounds q : (0 <= Qmax 0 (Qmin 1 q) <= 1)%Q.
Proof.
  split; [apply Q.le_max_l|]. apply Q.max_lub; [lra|]. apply Q.le_min_l.
Qed.

(** ** Least element of a list of integers *)

Fixpoint lmin (l : list Z) : option Z :=
  match l with
  | [] => None
  | x :: l' => Some (match lmin l' with None => x | Some m => Z.min x m end)
  end.

(** Minimum of two optional integers, where [None] is the absence of a bound. *)
Definition omin (a b : option Z) : option Z :=
  match a, b with
  | None, c | c, None => c
  | Some x, Some y => Some (Z.min x y)
  end.

Lemma lmin_Some l m : lmin l = Some m <-> m ∈ l /\ forall x, x ∈ l -> m <= x.
Proof.
  revert m. induction l as [|a l IH]; intros m; simpl.
  - split; [done|]. intros [H _]. by apply elem_of_nil in H.
  - destruct (lmin l) as [n|] eqn:E.
    + destruct (IH n) as [[Hn Hmin] _]; [done|].
      split.
      * intros [= <-]. split.
        -- destruct (Z.min_spec a n) as [[_ ->]|[_ ->]]; [left|by right].
        -- intros x [->|Hx]%elem_of_cons; [lia|]. specialize (Hmin x Hx). lia.
      * intros [Hm Hl]. f_equal.
        assert (m <= a) by (apply Hl; left). assert (m <= n) by (apply Hl; by right).
        apply elem_of_cons in Hm as [->|Hm]; [lia|]. specialize (Hmin m Hm). lia.
    + assert (l = []) as ->.
      { destruct l as [|b l]; [done|]. by simpl in E. }
      split.
      * intros [= <-]. split; [left|]. intros x [->|H]%elem_of_cons; [lia|].
        by apply elem_of_nil in H.
      * intros [[->|H]%elem_of_cons _]; [done|]. by apply elem_of_nil in H.
Qed.

Lemma lmin_None l : lmin l = None <-> l = [].
Proof. destruct l; simpl; split; done. Qed.

Lemma lmin_perm l1 l2 : l1 ≡ₚ l2 -> lmin l1 = lmin l2.
Proof.
  intros P. destruct (lmin l1) as [m|] eqn:E.
  - symmetry. apply lmin_Some in E as [Hin Hle]. apply lmin_Some. split; [by rewrite <- P|].
    intros x Hx. apply Hle. by rewrite P.
  - apply lmin_None in E as ->. apply Permutation_nil_l in P as <-. done.
Qed.

Lemma filter_perm {A} (P : A -> Prop) `{!forall x, Decision (P x)} (l1 l2 : list A) :
  l1 ≡ₚ l2 -> filter P l1 ≡ₚ filter P l2.
Proof. intros HP. by rewrite HP. Qed.

Lemma filter_ext_in {A} (p q : A -> Prop) `{Dp : !forall y, Decision (p y)} `{Dq : !forall y, Decision (q y)}
    (l : list A) :
  (forall x, x ∈ l -> (p x <-> q x)) -> filter p l = filter q l.
Proof.
  induction l as [|x l IH]; intros Hpq; [done|]. rewrite !filter_cons.
  rewrite IH by (intros y Hy; apply Hpq; by right).
  assert (p x <-> q x) by (apply Hpq; left).
  destruct (decide (p x)), (decide (q x)); tauto || done.
Qed.

Lemma elem_of_snoc {A} (x : A) (l : list A) : x ∈ l ++ [x].
Proof. apply elem_of_app. right. left. Qed.

(** A literal is in a literal list, by computation. *)
Ltac in_list := refine (bool_decide_unpack _ _); vm_compute; exact I.

(** ** Printing numbers *)

(** [str(n)]. *)
Definition fmt_int (n : Z) : string := pretty n.

(** [f"{q:.2f}"]: correctly rounded, two decimals. *)
Definition fmt2 (q : Q) : string :=
  let n := Z.abs (round_half_even (q * 100)) in
  (if (Qnum q <? 0) then "-" else "")
  +:+ fmt_int (n / 100) +:+ "." +:+ fmt_int (n mod 100 / 10) +:+ fmt_int (n mod 10).

Lemma fmt_int_inj a b : fmt_int a = fmt_int b -> a = b.
Proof. apply (inj pretty). Qed.

(** No colon in a text. *)
Fixpoint colon_free (s : string) : bool :=
  match s with
  | EmptyString => true
  | String c s' => negb (Ascii.eqb c (Ascii.ascii_of_nat 58)) && colon_free s'
  end.

Lemma colon_free_app a b : colon_free (a +:+ ":" +:+ b) = false.
Proof. induction a as [|c a IH]; [done|]. simpl. rewrite IH. apply andb_false_r. Qed.

Lemma pretty_N_go_colon_free x s : colon_free s = true -> colon_free (pretty_N_go x s) = true.
Proof.
  revert s. induction (N.lt_wf_0 x) as [x _ IH]; intros s Hs.
  destruct (decide (0 < x)%N) as [P|P]; [|by replace x with 0%N by lia].
  rewrite pretty_N_go_step by done. apply IH; [by apply N.div_lt|]. simpl. rewrite Hs, andb_true_r.
  unfold pretty_N_char. by repeat case_match.
Qed.

(** Decimal numerals hold no colon. *)
Lemma fmt_int_colon_free n : colon_free (fmt_int n) = true.
Proof.
  destruct n as [|p|p]; [done| |]; unfold fmt_int, pretty, pretty_Z, pretty, pretty_positive, pretty, pretty_N;
    simpl; by apply pretty_N_go_colon_free.
Qed.

(** The last segment of a colon-separated text can be read back. *)
Lemma last_segment x y a b :
  colon_free a = true -> colon_free b = true -> x +:+ ":" +:+ a = y +:+ ":" +:+ b -> x = y /\ a = b.
Proof.
  intros Ha Hb. revert y. induction x as [|c x IH]; intros [|c' y] E.
  - injection E as E. split; [done|exact E].
  - injection E as <- E. change (a = y +:+ ":" +:+ b) in E. by rewrite E, colon_free_app in Ha.
  - injection E as -> E. change (x +:+ ":" +:+ a = b) in E. by rewrite <- E, colon_free_app in Hb.
  - injection E as -> E. destruct (IH _ E) as [-> ->]. done.
Qed.
