(* ===== verification/Text.v ===== *)
(** * Python text as code points

    A [str] whose characters matter (policy sources, SPIFFE ids) is the list of its code points.  This
    file has the operations the modelled code uses on it ([strip], [splitlines], [split], [join], [index],
    slices) and the lemmas on occurrences that the text components share. *)

From S2P Require Import Prelude.

Notation text := (list Z).

(** The code points of an ASCII literal. *)
Fixpoint points (s : string) : text :=
  match s with
  | EmptyString => []
  | String c s' => Z.of_nat (Ascii.nat_of_ascii c) :: points s'
  end.

(** Back to the library's strings, one [ascii] per code point below 256. *)
Fixpoint unpoints (t : text) : string :=
  match t with
  | [] => EmptyString
  | c :: t' => String (Ascii.ascii_of_nat (Z.to_nat c)) (unpoints t')
  end.

(** [str.isspace] per code point: what [strip] removes and what [\s] matches. *)
Definition is_white (c : Z) : bool :=
  ((9 <=? c) && (c <=? 13)) || ((28 <=? c) && (c <=? 32)) || (c =? 133) || (c =? 160) || (c =? 5760)
  || ((8192 <=? c) && (c <=? 8202)) || (c =? 8232) || (c =? 8233) || (c =? 8239) || (c =? 8287) || (c =? 12288).

(** The line boundaries of [str.splitlines]. *)
Definition is_break (c : Z) : bool :=
  ((10 <=? c) && (c <=? 13)) || ((28 <=? c) && (c <=? 30)) || (c =? 133) || (c =? 8232) || (c =? 8233).

Definition is_lower (c : Z) : bool := (97 <=? c) && (c <=? 122).
Definition is_upper (c : Z) : bool := (65 <=? c) && (c <=? 90).
Definition is_num (c : Z) : bool := (48 <=? c) && (c <=? 57).
Definition is_alnum (c : Z) : bool := is_upper c || is_lower c || is_num c.
(** [[A-Za-z0-9_]]. *)
Definition is_word (c : Z) : bool := is_alnum c || (c =? 95).

(** The longest prefix that satisfies a test, and what follows it. *)
Fixpoint take_while (p : Z -> bool) (t : text) : text :=
  match t with
  | c :: t' => if p c then c :: take_while p t' else []
  | [] => []
  end.
Fixpoint drop_while (p : Z -> bool) (t : text) : text :=
  match t with
  | c :: t' => if p c then drop_while p t' else t
  | [] => []
  end.

(** [t.strip(chars)], [t.rstrip()] and [t.strip()]. *)
Definition strip_of (p : Z -> bool) (t : text) : text := reverse (drop_while p (reverse (drop_while p t))).
Definition rstrip (t : text) : text := reverse (drop_while is_white (reverse t)).
Definition tstrip : text -> text := strip_of is_white.

(** [t.startswith(p)]. *)
Fixpoint tstarts (p t : text) : bool :=
  match p, t with
  | [], _ => true
  | a :: p', b :: t' => (a =? b) && tstarts p' t'
  | _ :: _, [] => false
  end.

(** [t.endswith(s)]. *)
Definition tends (s t : text) : bool := tstarts (reverse s) (reverse t).

(** [str.lower], exact where the result is ASCII: A-Z, the Kelvin sign, and the dotted capital I. *)
Definition lower1 (c : Z) : text :=
  if is_upper c then [c + 32] else if c =? 8490 then [107] else if c =? 304 then [105; 775] else [c].
Definition lower (t : text) : text := flat_map lower1 t.

(** [t.index(sub)]; [None]: it raises [ValueError]. *)
Fixpoint tindex (sub t : text) : option nat :=
  if tstarts sub t then Some O
  else match t with [] => None | _ :: t' => S <$> tindex sub t' end.

(** [sub in t]. *)
Definition tcontains (sub t : text) : bool := bool_decide (is_Some (tindex sub t)).

(** [t.splitlines()]; [cur] is the current line, backwards. *)
Fixpoint splitlines_from (cur t : text) : list text :=
  match t with
  | [] => match cur with [] => [] | _ => [reverse cur] end
  | c :: t' =>
      if is_break c then
        match t' with
        | d :: t'' => if (c =? 13) && (d =? 10) then reverse cur :: splitlines_from [] t''
                      else reverse cur :: splitlines_from [] t'
        | [] => reverse cur :: splitlines_from [] t'
        end
      else splitlines_from (c :: cur) t'
  end.
Definition splitlines (t : text) : list text := splitlines_from [] t.

(** [t.split(sep)] for a one-character separator; never empty. *)
Fixpoint split_on (sep : Z) (t : text) : list text :=
  match t with
  | [] => [[]]
  | c :: t' =>
      if c =? sep then [] :: split_on sep t'
      else match split_on sep t' with
           | w :: ws => (c :: w) :: ws
           | [] => [[c]]
           end
  end.

(** [t.partition(sep)] as what is before and, if the separator is there, what is after it. *)
Fixpoint partition (sep : Z) (t : text) : text * option text :=
  match t with
  | [] => ([], None)
  | c :: t' => if c =? sep then ([], Some t') else let '(a, b) := partition sep t' in (c :: a, b)
  end.

(** [t.split()]: the words between white space. *)
Fixpoint words_from (cur t : text) : list text :=
  match t with
  | [] => match cur with [] => [] | _ => [reverse cur] end
  | c :: t' =>
      if is_white c then
        match cur with [] => words_from [] t' | _ => reverse cur :: words_from [] t' end
      else words_from (c :: cur) t'
  end.
Definition words (t : text) : list text := words_from [] t.

(** [sep.join(ts)]. *)
Fixpoint join (sep : text) (ts : list text) : text :=
  match ts with
  | [] => []
  | [t] => t
  | t :: ts' => t ++ sep ++ join sep ts'
  end.

(** The order of [sorted] on strings. *)
Fixpoint text_leb (a b : text) : bool :=
  match a, b with
  | [], _ => true
  | _ :: _, [] => false
  | x :: a', y :: b' => (x <? y) || ((x =? y) && text_leb a' b')
  end.

Definition text_le (a b : text) : Prop := text_leb a b = true.
#[global] Instance text_le_dec : RelDecision text_le.
Proof. intros a b. unfold text_le. apply _. Defined.

#[global] Instance text_le_antisymm : AntiSymm (=) text_le.
Proof.
  intros a. induction a as [|x a IH]; intros [|y b]; unfold text_le; csimpl; try done.
  rewrite !orb_true_iff, !andb_true_iff, !Z.ltb_lt, !Z.eqb_eq. intros [?|[-> H1]] [?|[? H2]]; try lia. f_equal. by apply IH.
Qed.
#[global] Instance text_le_trans : Transitive text_le.
Proof.
  intros a. induction a as [|x a IH]; intros [|y b] [|z c]; unfold text_le; csimpl; try done.
  rewrite !orb_true_iff, !andb_true_iff, !Z.ltb_lt, !Z.eqb_eq. intros [?|[-> H1]] [?|[-> H2]]; try (left; lia).
  right. split; [done|]. by apply (IH b c).
Qed.
#[global] Instance text_le_total : Total text_le.
Proof.
  intros a. induction a as [|x a IH]; intros [|y b]; unfold text_le; csimpl; auto.
  rewrite !orb_true_iff, !andb_true_iff, !Z.ltb_lt, !Z.eqb_eq.
  destruct (Z.lt_trichotomy x y) as [?|[->|?]]; auto. destruct (IH b); unfold text_le in *; auto.
Qed.

(** ** Prefixes and occurrences *)

Lemma tstarts_iff p t : tstarts p t = true <-> exists r, t = p ++ r.
Proof.
  revert t. induction p as [|a p IH]; intros t; simpl; [split; eauto|].
  destruct t as [|b t]; [split; [done|intros [r E]; done]|].
  rewrite andb_true_iff, Z.eqb_eq, IH. split.
  - intros [-> [r ->]]. by exists r.
  - intros [r E]. injection E as <- ->. eauto.
Qed.

Lemma tstarts_app p r : tstarts p (p ++ r) = true.
Proof. apply tstarts_iff. eauto. Qed.

(** [sub] occurs in [t]. *)
Definition occurs (sub t : text) : Prop := exists a b, t = a ++ sub ++ b.

Lemma occurs_trans s t u : occurs s t -> occurs t u -> occurs s u.
Proof. intros (a & b & ->) (c & d & ->). exists (c ++ a), (b ++ d). by rewrite <- !app_assoc. Qed.

Lemma occurs_refl t : occurs t t.
Proof. exists [], []. by rewrite app_nil_r. Qed.

Lemma occurs_app_l sub s t : occurs sub s -> occurs sub (s ++ t).
Proof. intros H. eapply occurs_trans; [exact H|]. by exists [], t. Qed.

Lemma occurs_app_r sub s t : occurs sub t -> occurs sub (s ++ t).
Proof. intros H. eapply occurs_trans; [exact H|]. exists s, []. by rewrite app_nil_r. Qed.

Lemma occurs_elem sub t c : occurs sub t -> c ∈ sub -> c ∈ t.
Proof. intros (a & b & ->) H. rewrite !elem_of_app. auto. Qed.

Lemma occurs_take_drop n t : occurs (take n t) t /\ occurs (drop n t) t.
Proof.
  split; [exists [], (drop n t)|exists (take n t), []]; rewrite ?app_nil_r; simpl; by rewrite take_drop.
Qed.

(** An occurrence that starts in [s] but is not inside it reaches into [t]. *)
Lemma occurs_app_inv sub s t :
  occurs sub (s ++ t) ->
  occurs sub s \/ occurs sub t \/ exists x y, x <> [] /\ y <> [] /\ sub = x ++ y /\ (exists a, s = a ++ x) /\ (exists b, t = y ++ b).
Proof.
  intros (a & b & E). symmetry in E. apply app_eq_app in E as (l & [[-> ->]|[-> E]]).
  - right; left. exists l, b. done.
  - apply app_eq_app in E as (m & [[-> ->]|[-> ->]]).
    + destruct m as [|c m].
      * left. exists a, []. by rewrite !app_nil_r.
      * destruct l as [|d l].
        { right; left. exists [], b. done. }
        right; right. exists (d :: l), (c :: m). split_and!; eauto.
    + left. exists a, m. done.
Qed.

(** An occurrence whose last character is not in [t] ends before [t]. *)
Lemma occurs_app_last sub z s t : z ∉ t -> occurs (sub ++ [z]) (s ++ t) -> occurs (sub ++ [z]) s.
Proof.
  intros Nz H. apply occurs_app_inv in H as [H|[H|(x & y & _ & Ny & E & _ & [b ->])]]; [done|..]; exfalso; apply Nz.
  - eapply occurs_elem; [done|]. apply elem_of_app. right. by left.
  - destruct (exists_last Ny) as (y' & z' & ->). rewrite app_assoc in E. apply app_inj_2 in E as [_ E]; [|done].
    injection E as ->. rewrite !elem_of_app. left. right. by left.
Qed.

(** An occurrence whose first character is not in [s] starts after [s]. *)
Lemma occurs_app_first sub c s t : c ∉ s -> occurs (c :: sub) (s ++ t) -> occurs (c :: sub) t.
Proof.
  intros Nc H. apply occurs_app_inv in H as [H|[H|(x & y & Nx & _ & E & [a ->] & _)]]; [|done|]; exfalso; apply Nc.
  - eapply occurs_elem; [done|]. by left.
  - destruct x as [|d x]; [done|]. injection E as <- _. rewrite elem_of_app. right. by left.
Qed.

(** [index] finds the first occurrence. *)
Lemma tindex_None sub t : tindex sub t = None <-> ~ occurs sub t.
Proof.
  induction t as [|c t IH]; simpl.
  - destruct (tstarts sub []) eqn:E.
    + split; [done|]. intros H. exfalso. apply H. apply tstarts_iff in E as [r E]. exists [], r. done.
    + split; [|done]. intros _ (a & b & X). destruct a; [|done]. simpl in X. rewrite X, tstarts_app in E. done.
  - destruct (tstarts sub (c :: t)) eqn:E.
    + split; [done|]. intros H. exfalso. apply H. apply tstarts_iff in E as [r E]. exists [], r. done.
    + rewrite fmap_None, IH. split; intros H (a & b & X); apply H.
      * destruct a as [|d a]; [simpl in X; rewrite X, tstarts_app in E; done|].
        injection X as -> ->. by exists a, b.
      * subst t. by exists (c :: a), b.
Qed.

Lemma tindex_Some sub t i : tindex sub t = Some i -> exists r, t = take i t ++ sub ++ r /\ (i <= length t)%nat.
Proof.
  revert i. induction t as [|c t IH]; intros i; simpl.
  - destruct (tstarts sub []) eqn:E; [|done]. intros [= <-]. apply tstarts_iff in E as [r E]. by exists r.
  - destruct (tstarts sub (c :: t)) eqn:E.
    + intros [= <-]. apply tstarts_iff in E as [r E]. exists r. split; [done|lia].
    + intros H. apply fmap_Some in H as (j & H & ->). destruct (IH j H) as (r & E' & L). exists r. simpl.
      split; [by rewrite <- E'|lia].
Qed.

(** No occurrence lies before the first one. *)
Lemma tindex_first sub t i : sub <> [] -> tindex sub t = Some i -> ~ occurs sub (take i t).
Proof.
  intros Ne. revert i. induction t as [|c t IH]; intros i; simpl.
  - intros _ (a & b & E). rewrite take_nil in E. destruct a, sub; done.
  - destruct (tstarts sub (c :: t)) eqn:E.
    + intros [= <-] (a & b & X). destruct a, sub; done.
    + intros H. apply fmap_Some in H as (j & H & ->). simpl. intros (a & b & X). destruct a as [|d a].
      * simpl in X. assert (T : tstarts sub (c :: t) = true); [|congruence]. apply tstarts_iff.
        exists (b ++ drop j t). rewrite app_assoc, <- X. simpl. by rewrite take_drop.
      * injection X as -> X. apply (IH j H). by exists a, b.
Qed.

Lemma tstarts_window p s r : (length p <= length s)%nat -> tstarts p (s ++ r) = tstarts p s.
Proof.
  revert s. induction p as [|a p IH]; intros s L; [done|]. destruct s as [|b s]; simpl in *; [lia|].
  by rewrite IH by lia.
Qed.

(** Where the first occurrence is does not depend on what follows it. *)
Lemma tindex_ext sub a r r' : tindex sub (a ++ sub ++ r) = tindex sub (a ++ sub ++ r').
Proof.
  induction a as [|c a IH].
  - simpl. assert (F : forall r, tindex sub (sub ++ r) = Some O).
    { intros r0. destruct sub as [|x sub]; [by destruct r0|]. simpl. by rewrite Z.eqb_refl, tstarts_app. }
    by rewrite !F.
  - cbn [app tindex]. rewrite IH.
    assert (T : forall r, tstarts sub (c :: a ++ sub ++ r) = tstarts sub (c :: a ++ sub)).
    { intros r0. rewrite app_assoc. apply (tstarts_window sub (c :: a ++ sub)). simpl. rewrite length_app. lia. }
    by rewrite !T.
Qed.

(** A text without an occurrence is skipped, up to a separator that the pattern does not hold. *)
Lemma tindex_skip sub nl s t :
  sub <> [] -> nl ∉ sub -> ~ occurs sub s -> tindex sub (s ++ nl :: t) = (fun i => length s + S i)%nat <$> tindex sub t.
Proof.
  intros Ne Nl. induction s as [|c s IH]; intros No.
  - simpl. destruct sub as [|x sub]; [done|]. simpl. destruct (Z.eqb_spec x nl) as [->|]; [|done].
    exfalso. apply Nl. by left.
  - cbn [app tindex]. rewrite IH by (intros (a & b & ->); apply No; by exists (c :: a), b).
    destruct (tstarts sub (c :: s ++ nl :: t)) eqn:E.
    + exfalso. apply tstarts_iff in E as [r E]. change (c :: s ++ nl :: t) with ((c :: s) ++ nl :: t) in E.
      apply app_eq_app in E as (l & [[E ->]|[-> E]]).
      * apply No. rewrite E. by exists [], l.
      * destruct l as [|d l]; [apply No; rewrite app_nil_r; apply occurs_refl|]. injection E as <- ->.
        apply Nl. rewrite elem_of_app. right. by left.
    + by destruct (tindex sub t).
Qed.

(** ** Splitting and joining *)

Lemma take_drop_while p t : take_while p t ++ drop_while p t = t.
Proof. induction t as [|c t IH]; simpl; [done|]. destruct (p c); simpl; by rewrite ?IH. Qed.

Lemma take_while_all p t c : c ∈ take_while p t -> p c = true.
Proof.
  induction t as [|d t IH]; simpl; [by intros H%elem_of_nil|]. destruct (p d) eqn:E; [|by intros H%elem_of_nil].
  intros H. apply elem_of_cons in H as [->|]; auto.
Qed.

(** The text goes on after a run of characters that pass the test. *)
Lemma while_app p s t :
  Forall (fun c => p c = true) s -> take_while p (s ++ t) = s ++ take_while p t /\ drop_while p (s ++ t) = drop_while p t.
Proof. induction 1 as [|c s Hc _ [IH1 IH2]]; simpl; [done|]. by rewrite Hc, IH1, IH2. Qed.

Lemma drop_while_stop p t : match t with [] => True | c :: _ => p c = false end -> drop_while p t = t.
Proof. destruct t as [|c t]; simpl; [done|]. by intros ->. Qed.

Lemma drop_while_head p t : match drop_while p t with [] => True | c :: _ => p c = false end.
Proof. induction t as [|c t IH]; simpl; [done|]. destruct (p c) eqn:E; [done|]. by rewrite E. Qed.

Lemma drop_while_suffix p t : exists a, t = a ++ drop_while p t /\ Forall (fun c => p c = true) a.
Proof.
  exists (take_while p t). split; [by rewrite take_drop_while|]. apply Forall_forall. intros c Hc.
  by apply take_while_all in Hc.
Qed.

(** What [strip] does: it removes tested characters at both ends, and only those. *)
Lemma strip_of_split p t :
  exists a b, t = a ++ strip_of p t ++ b /\ Forall (fun c => p c = true) a /\ Forall (fun c => p c = true) b.
Proof.
  unfold strip_of. destruct (drop_while_suffix p t) as (a & E & Ha).
  destruct (drop_while_suffix p (reverse (drop_while p t))) as (b & F & Hb).
  exists a, (reverse b). split; [|split; [done|by apply Forall_reverse]].
  rewrite <- reverse_app, <- F, reverse_involutive. done.
Qed.

Lemma strip_occurs p t : occurs (strip_of p t) t.
Proof. destruct (strip_of_split p t) as (a & b & E & _). by exists a, b. Qed.

(** A text that neither starts nor ends with a tested character is its own [strip]. *)
Lemma strip_of_id p t :
  match t with [] => True | c :: _ => p c = false end -> match last t with None => True | Some c => p c = false end ->
  strip_of p t = t.
Proof.
  intros H L. unfold strip_of. rewrite (drop_while_stop p t H), drop_while_stop; [apply reverse_involutive|].
  destruct t as [|x t _] using rev_ind; [done|]. rewrite reverse_snoc. by rewrite last_snoc in L.
Qed.

Lemma strip_ends p t :
  match strip_of p t with [] => True | c :: _ => p c = false end /\
  match last (strip_of p t) with None => True | Some c => p c = false end.
Proof.
  unfold strip_of. set (u := drop_while p t). pose proof (drop_while_head p t) as Hu. fold u in Hu.
  pose proof (drop_while_head p (reverse u)) as Hr. destruct (drop_while_suffix p (reverse u)) as (a & E & _).
  destruct (drop_while p (reverse u)) as [|c v] eqn:D; [done|]. split.
  - assert (U : u = reverse (c :: v) ++ reverse a) by (by rewrite <- reverse_app, <- E, reverse_involutive).
    rewrite U in Hu. by destruct (reverse (c :: v)) as [|d w] eqn:R; [apply (f_equal length) in R; rewrite length_reverse in R|].
  - rewrite reverse_cons, last_snoc. done.
Qed.

Lemma strip_idem p t : strip_of p (strip_of p t) = strip_of p t.
Proof. destruct (strip_ends p t). by apply strip_of_id. Qed.

(** White space around a text whose ends are not white is what [strip] removes. *)
Lemma strip_pad p a t b :
  Forall (fun c => p c = true) a -> Forall (fun c => p c = true) b -> strip_of p t = t -> strip_of p (a ++ t ++ b) = t.
Proof.
  intros Ha Hb Ht. destruct (strip_ends p t) as [H1 H2]. rewrite Ht in H1, H2. unfold strip_of in *.
  rewrite (proj2 (while_app p a _ Ha)). destruct t as [|c t].
  - simpl. rewrite <- (app_nil_r b) at 1. by rewrite (proj2 (while_app p b [] Hb)).
  - simpl in H1. rewrite (drop_while_stop p ((c :: t) ++ b)) by done.
    rewrite reverse_app, (proj2 (while_app p (reverse b) _ (proj2 (Forall_reverse _ _) Hb))).
    destruct (exists_last (l := c :: t)) as (u & z & E); [done|]. rewrite E in *. rewrite last_snoc in H2.
    rewrite reverse_snoc. rewrite drop_while_stop by done. by rewrite <- reverse_snoc, reverse_involutive.
Qed.

Definition unbroken (t : text) : Prop := Forall (fun c => is_break c = false) t.

Lemma splitlines_unbroken cur t : unbroken cur -> Forall unbroken (splitlines_from cur t).
Proof.
  assert (G : forall n t cur, (length t < n)%nat -> unbroken cur -> Forall unbroken (splitlines_from cur t)).
  { intros n. induction n as [|n IH]; intros t0 cur0 L C; [lia|]. destruct t0 as [|c t0]; simpl in *.
    - destruct cur0 as [|c cur0]; [constructor|]. constructor; [by apply Forall_reverse|constructor].
    - destruct (is_break c) eqn:B.
      + assert (R : unbroken (reverse cur0)) by (by apply Forall_reverse).
        destruct t0 as [|d t0]; [constructor; [done|constructor]|].
        destruct (_ && _); (constructor; [done|]); apply IH; simpl in *; try lia; by constructor.
      + apply IH; [lia|]. by constructor. }
  intros C. apply (G (S (length t))); [lia|done].
Qed.

Lemma splitlines_occurs cur t l : l ∈ splitlines_from cur t -> occurs l (reverse cur ++ t).
Proof.
  assert (G : forall n t cur, (length t < n)%nat -> l ∈ splitlines_from cur t -> occurs l (reverse cur ++ t)).
  { intros n. induction n as [|n IH]; intros t0 cur0 L H; [lia|]. destruct t0 as [|c t0]; simpl in *.
    - destruct cur0; [by apply elem_of_nil in H|]. apply list_elem_of_singleton in H as ->. apply occurs_app_l, occurs_refl.
    - destruct (is_break c) eqn:B.
      + assert (Hd : l = reverse cur0 -> occurs l (reverse cur0 ++ c :: t0)) by (intros ->; apply occurs_app_l, occurs_refl).
        assert (Tl : forall u, (length u < n)%nat -> (exists p, c :: t0 = p ++ u) -> l ∈ splitlines_from [] u ->
          occurs l (reverse cur0 ++ c :: t0)).
        { intros u Lu [p E] Hu. rewrite E. apply occurs_app_r, occurs_app_r. by apply (IH u []). }
        destruct t0 as [|d t0]; [apply elem_of_cons in H as [H|H]; [auto|by apply elem_of_nil in H]|].
        destruct (_ && _); apply elem_of_cons in H as [H|H]; auto.
        * eapply Tl; [|by exists [c; d]|exact H]. simpl in *. lia.
        * eapply Tl; [|by exists [c]|exact H]. simpl in *. lia.
      + apply IH in H; [|lia]. by rewrite reverse_cons, <- app_assoc in H. }
  apply (G (S (length t))). lia.
Qed.

Lemma splitlines_step l t cur : unbroken l -> splitlines_from cur (l ++ 10 :: t) = (reverse cur ++ l) :: splitlines_from [] t.
Proof.
  revert cur. induction l as [|c l IH]; intros cur U; simpl.
  - rewrite app_nil_r. by destruct t.
  - inversion_clear U as [|? ? Hc Hl]. rewrite Hc. rewrite IH by done. by rewrite reverse_cons, <- app_assoc.
Qed.

(** Lines without a boundary inside, each ended by a newline, are read back. *)
Lemma splitlines_lines ls : Forall unbroken ls -> splitlines (concat (map (fun l => l ++ [10]) ls)) = ls.
Proof.
  unfold splitlines. induction 1 as [|l ls U _ IH]; [done|]. simpl. rewrite <- app_assoc. simpl.
  rewrite splitlines_step by done. by rewrite IH.
Qed.

Lemma join_lines ls : ls <> [] -> join [10] ls ++ [10] = concat (map (fun l => l ++ [10]) ls).
Proof.
  induction ls as [|l ls IH]; [done|]. intros _. destruct ls as [|m ls]; [simpl; by rewrite app_nil_r|].
  change (join [10] (l :: m :: ls)) with (l ++ [10] ++ join [10] (m :: ls)).
  change (concat (map (fun l => l ++ [10]) (l :: m :: ls)))
    with ((l ++ [10]) ++ concat (map (fun l => l ++ [10]) (m :: ls))).
  rewrite <- IH by done. by rewrite <- !app_assoc.
Qed.

Lemma words_step w t cur :
  Forall (fun c => is_white c = false) w -> w <> [] \/ cur <> [] ->
  words_from cur (w ++ 32 :: t) = (reverse cur ++ w) :: words_from [] t.
Proof.
  revert cur. induction w as [|c w IH]; intros cur F N; simpl.
  - rewrite app_nil_r. destruct cur; [destruct N; done|done].
  - inversion_clear F as [|? ? Hc Hw]. rewrite Hc, IH by (done || by right). by rewrite reverse_cons, <- app_assoc.
Qed.

(** Words without white space are read back. *)
Lemma words_join ws :
  Forall (fun w => w <> [] /\ Forall (fun c => is_white c = false) w) ws -> words (join [32] ws) = ws.
Proof.
  unfold words. induction 1 as [|w ws [Ne F] Hws IH]; [done|]. destruct ws as [|v ws].
  - simpl. clear -Ne F. enough (G : forall cur, words_from cur w = match reverse cur ++ w with [] => [] | l => [l] end).
    { rewrite G. simpl. by destruct w. }
    clear Ne. induction F as [|c w Hc _ IH]; intros cur; simpl.
    + rewrite app_nil_r. destruct cur as [|d cur]; [done|]. rewrite reverse_cons. by destruct (reverse cur).
    + rewrite Hc, IH, reverse_cons, <- app_assoc. done.
  - change (join [32] (w :: v :: ws)) with (w ++ 32 :: join [32] (v :: ws)).
    rewrite words_step by auto. by rewrite IH.
Qed.

Lemma split_join nl t : join [nl] (split_on nl t) = t.
Proof.
  induction t as [|c t IH]; [done|]. simpl. destruct (Z.eqb_spec c nl) as [->|N].
  - destruct (split_on nl t) as [|w ws] eqn:E; [destruct t; simpl in E; [done|]; repeat case_match; done|].
    change (join [nl] ([] :: w :: ws)) with (nl :: join [nl] (w :: ws)). by rewrite IH.
  - destruct (split_on nl t) as [|w ws] eqn:E; [simpl in IH; by subst|]. destruct ws; simpl in *; by rewrite IH.
Qed.

Lemma split_on_fresh sep t : sep ∉ t -> split_on sep t = [t].
Proof.
  induction t as [|c t IH]; [done|]. rewrite not_elem_of_cons. intros [N I]. cbn.
  rewrite (proj2 (Z.eqb_neq c sep)) by done. by rewrite IH.
Qed.

Lemma split_on_app sep w t : sep ∉ w -> split_on sep (w ++ sep :: t) = w :: split_on sep t.
Proof.
  induction w as [|c w IH]; cbn; [by rewrite Z.eqb_refl|]. rewrite not_elem_of_cons. intros [N I].
  rewrite (proj2 (Z.eqb_neq c sep)) by done. by rewrite IH.
Qed.

Lemma split_on_cons sep t : exists w ws, split_on sep t = w :: ws.
Proof. destruct t as [|c t]; cbn; [eauto|]. destruct (c =? sep); [eauto|]. destruct (split_on sep t); eauto. Qed.

Lemma split_on_app_any sep a b : split_on sep (a ++ sep :: b) = split_on sep a ++ split_on sep b.
Proof.
  induction a as [|c a IH]; cbn; [by rewrite Z.eqb_refl|]. rewrite IH. destruct (c =? sep); [done|].
  by destruct (split_on_cons sep a) as (w & ws & ->).
Qed.
