(* ===== verification/Baseline.v ===== *)
(** * The baseline compiler ([norviq/api/baseline.py])

    A preset registers each control as a one-line head between two markers.  The compiler rewrites only
    that region, so that each control blocks, is recorded or is not evaluated, and [covers] decides
    whether a stored module is the compiler's own output for a chart: the engine lets such a module
    supersede the chart's baseline (see [Collect]). *)

From stdpp Require Import sorting.
From S2P Require Import Prelude Text.

(** ** Data *)

Inductive Effect : Type := Off | Monitor | Deny.
#[global] Instance effect_eq_dec : EqDecision Effect.
Proof. solve_decision. Defined.

(** The three decision sets a head may register into. *)
Inductive HeadSet : Type := Blocks | Escalates | Audits.
#[global] Instance head_set_eq_dec : EqDecision HeadSet.
Proof. solve_decision. Defined.

Definition set_text (s : HeadSet) : text :=
  match s with Blocks => points "blocks" | Escalates => points "escalates" | Audits => points "audits" end.

Record ControlHead := mkHead { set_name : HeadSet; control_id : text; head_guard : text }.

(** A Python dict of effects, in insertion order. *)
Notation Effects := (list (text * Effect)).

Fixpoint dget (d : Effects) (k : text) : option Effect :=
  match d with
  | [] => None
  | (k', v) :: d' => if bool_decide (k' = k) then Some v else dget d' k
  end.

(** [d[k] = v]: an existing key keeps its place. *)
Fixpoint dset (d : Effects) (k : text) (v : Effect) : Effects :=
  match d with
  | [] => [(k, v)]
  | (k', v') :: d' => if bool_decide (k' = k) then (k', v) :: d' else (k', v') :: dset d' k v
  end.

Definition CONTROLS_BEGIN : text := points "# >>> CONTROLS-BEGIN".
Definition CONTROLS_END : text := points "# >>> CONTROLS-END".
Definition CONTROLS_OFF : text := points "# >>> CONTROLS-OFF:".

(** The placeholder of a set without heads, [_NEVER_FIRES]; 34 is the double quote. *)
Definition never_fires (s : HeadSet) : text :=
  set_text s ++ points "[id] { false; id := " ++ [34] ++ points "__never__" ++ [34] ++ points " }".

(** ** Reading a module *)

(** [_split_region]; [None]: it raises [ValueError]. *)
Definition split_region (src : text) : option (text * text * text) :=
  bi ← tindex CONTROLS_BEGIN src;
  ei ← tindex CONTROLS_END src;
  nl ← tindex [10] (drop bi src);
  let body_start := (bi + nl + 1)%nat in
  Some (take bi src, take (ei - body_start) (drop body_start src), drop (ei + length CONTROLS_END) src).

(** The text after a prefix. *)
Definition after (p t : text) : option text := if tstarts p t then Some (drop (length p) t) else None.

(** [(blocks|escalates|audits)]. *)
Definition match_set (t : text) : option (HeadSet * text) :=
  match after (set_text Blocks) t, after (set_text Escalates) t, after (set_text Audits) t with
  | Some r, _, _ => Some (Blocks, r)
  | _, Some r, _ => Some (Escalates, r)
  | _, _, Some r => Some (Audits, r)
  | _, _, _ => None
  end.

(** [_HEAD_RE] on a stripped line: the set, the control id and the text between the first brace after
    the id and the closing one at the end of the line. *)
Definition match_head (t : text) : option (HeadSet * text * text) :=
  '(s, r) ← match_set t;
  r ← after [91; 34] r;
  let id := take_while is_word r in
  r ← after [34; 93] (drop_while is_word r);
  r ← after [123] (drop_while is_white r);
  match id, reverse r with
  | _ :: _, 125 :: c :: g => Some (s, id, reverse (c :: g))
  | _, _ => None
  end.

(** [_one_body]: the braces of the guard close at its end, outside strings, and nothing is commented out;
    [quote] is 0 outside a string. *)
Fixpoint one_body_from (depth quote : Z) (escaped : bool) (g : text) : bool :=
  match g with
  | [] => (depth =? 0) && (quote =? 0)
  | c :: g' =>
      if negb (quote =? 0) then
        if escaped then one_body_from depth quote false g'
        else if (c =? 92) && (quote =? 34) then one_body_from depth quote true g'
        else if c =? quote then one_body_from depth 0 false g'
        else one_body_from depth quote false g'
      else if (c =? 34) || (c =? 96) then one_body_from depth c escaped g'
      else if c =? 35 then false
      else if c =? 123 then one_body_from (depth + 1) quote escaped g'
      else if c =? 125 then if depth - 1 <? 0 then false else one_body_from (depth - 1) quote escaped g'
      else one_body_from depth quote escaped g'
  end.
Definition one_body (g : text) : bool := one_body_from 0 0 false g.

(** The lines [parse_heads] skips: empty ones, comments and the exact placeholders. *)
Definition skipped (stripped : text) : bool :=
  bool_decide (stripped = []) || tstarts [35] stripped
  || bool_decide (stripped ∈ [never_fires Blocks; never_fires Escalates; never_fires Audits]).

(** [parse_heads] on the lines of a region; [None]: a line it cannot read raises. *)
Fixpoint heads_of (lines : list text) : option (list ControlHead) :=
  match lines with
  | [] => Some []
  | line :: rest =>
      let stripped := tstrip line in
      if skipped stripped then heads_of rest
      else
        '(s, id, g) ← match_head stripped;
        if one_body g then cons (mkHead s id (tstrip g)) <$> heads_of rest else None
  end.
Definition parse_heads (region : text) : option (list ControlHead) := heads_of (splitlines region).

(** ** Effects *)

Definition controls_for (src : text) : option (list ControlHead) :=
  '(_, region, _) ← split_region src; parse_heads region.

(** [control_ids]: distinct, in the order of the preset. *)
Fixpoint ids_from (seen : list text) (heads : list ControlHead) : list text :=
  match heads with
  | [] => seen
  | h :: hs => ids_from (if bool_decide (control_id h ∈ seen) then seen else seen ++ [control_id h]) hs
  end.
Definition control_ids (heads : list ControlHead) : list text := ids_from [] heads.

Definition enforcing (s : HeadSet) : bool := match s with Audits => false | _ => true end.

(** [shipped_default]: deny when some head of the control blocks or escalates, else monitor (also for an
    unknown id). *)
Definition shipped_default (heads : list ControlHead) (id : text) : Effect :=
  if existsb (fun h => bool_decide (control_id h = id) && enforcing (set_name h)) heads then Deny else Monitor.

Definition default_effects (heads : list ControlHead) : Effects :=
  map (fun id => (id, shipped_default heads id)) (control_ids heads).

Definition parse_effect (e : string) : option Effect :=
  if bool_decide (e = "off") then Some Off
  else if bool_decide (e = "monitor") then Some Monitor
  else if bool_decide (e = "deny") then Some Deny
  else None.

(** The loop of [normalize_effects]: an unknown control or effect raises. *)
Fixpoint override (resolved : Effects) (effects : list (text * string)) : option Effects :=
  match effects with
  | [] => Some resolved
  | (cid, effect) :: rest =>
      match dget resolved cid, parse_effect effect with
      | Some _, Some e => override (dset resolved cid e) rest
      | _, _ => None
      end
  end.
Definition normalize_effects (heads : list ControlHead) (effects : list (text * string)) : option Effects :=
  override (default_effects heads) effects.

(** ** Rendering *)

(** The set a head registers into under an effect that is not off. *)
Definition target (e : Effect) (s : HeadSet) : HeadSet :=
  match e with
  | Monitor => Audits
  | _ => match s with Audits => Blocks | _ => s end
  end.

Definition rule_line (s : HeadSet) (id g : text) : text :=
  set_text s ++ [91; 34] ++ id ++ [34; 93] ++ points " { " ++ g ++ points " }".

(** The loop over the heads; an id without an effect raises [KeyError]. *)
Fixpoint emitted (resolved : Effects) (heads : list ControlHead) : option (list ControlHead) :=
  match heads with
  | [] => Some []
  | h :: hs =>
      e ← dget resolved (control_id h);
      rest ← emitted resolved hs;
      Some (match e with
            | Off => rest
            | _ => mkHead (target e (set_name h)) (control_id h) (head_guard h) :: rest
            end)
  end.

Definition of_set (s : HeadSet) (hs : list ControlHead) : list ControlHead :=
  filter (fun h => set_name h = s) hs.

(** [sorted(cid for cid, eff in resolved.items() if eff == "off")]. *)
Definition off_of (d : Effects) : list text := (filter (fun p => p.2 = Off) d).*1.
Definition sorted_off (d : Effects) : list text := merge_sort text_le (off_of d).

Definition set_lines (s : HeadSet) (hs : list ControlHead) : list text :=
  [] :: match of_set s hs with
        | [] => [never_fires s]
        | rules => map (fun h => rule_line (set_name h) (control_id h) (head_guard h)) rules
        end.

Definition GENERATED : text :=
  points "# GENERATED by norviq/api/baseline.py " ++ [8212] ++ points " edit the control effects, not this region.".

Definition region_lines (d : Effects) (hs : list ControlHead) : list text :=
  [GENERATED; rstrip (CONTROLS_OFF ++ [32] ++ join [32] (sorted_off d))]
  ++ set_lines Blocks hs ++ set_lines Escalates hs ++ set_lines Audits hs.

(** [_render]; [None]: [ValueError] or [KeyError]. *)
Definition render (src : text) (resolved : Effects) : option text :=
  '(before, region, rest) ← split_region src;
  heads ← parse_heads region;
  hs ← emitted resolved heads;
  Some (before ++ CONTROLS_BEGIN ++ [10] ++ join [10] (region_lines resolved hs) ++ [10] ++ CONTROLS_END ++ rest).

(** [compile], on the preset's text. *)
Definition compile (src : text) (effects : list (text * string)) : option text :=
  heads ← controls_for src;
  resolved ← normalize_effects heads effects;
  render src resolved.

(** ** Reading effects back *)

(** [_off_ids]. *)
Fixpoint off_ids (lines : list text) : option (list text) :=
  match lines with
  | [] => None
  | line :: rest =>
      let stripped := tstrip line in
      if tstarts CONTROLS_OFF stripped then Some (words (drop (length CONTROLS_OFF) stripped)) else off_ids rest
  end.

(** The effect a module gives one control; [None]: it does not say. *)
Definition effect_in (off : list text) (present : list ControlHead) (id : text) : option Effect :=
  let sets := map set_name (filter (fun h => control_id h = id) present) in
  if bool_decide (id ∈ off) then Some Off
  else if existsb enforcing sets then Some Deny
  else match sets with [] => None | _ => Some Monitor end.

Fixpoint read_effects (off : list text) (present chart : list ControlHead) (d : Effects) : option Effects :=
  match chart with
  | [] => Some d
  | h :: hs =>
      e ← effect_in off present (control_id h);
      read_effects off present hs (dset d (control_id h) e)
  end.

(** [effects_of]: the outer [None] is [ValueError], the inner one is the returned [None]. *)
Definition effects_of (compiled chart : text) : option (option Effects) :=
  '(_, region, _) ← split_region compiled;
  match off_ids (splitlines region) with
  | None => Some None
  | Some off =>
      present ← parse_heads region;
      heads ← controls_for chart;
      Some (read_effects off present heads [])
  end.

(** [covers]. *)
Definition covers (compiled chart : text) : bool :=
  match effects_of compiled chart with
  | Some (Some d) =>
      if bool_decide (d = []) then false
      else bool_decide (render chart d = Some compiled)
  | _ => false
  end.

(** ** Heads and their lines *)

(** What [parse_heads] guarantees of a head. *)
Record head_ok (h : ControlHead) : Prop := {
  ho_id : control_id h <> [];
  ho_word : Forall (fun c => is_word c = true) (control_id h);
  ho_strip : tstrip (head_guard h) = head_guard h;
  ho_body : one_body (head_guard h) = true;
  ho_line : unbroken (head_guard h);
}.

Lemma word_range c : is_word c = true -> 48 <= c <= 57 \/ 65 <= c <= 90 \/ c = 95 \/ 97 <= c <= 122.
Proof.
  unfold is_word, is_alnum, is_upper, is_lower, is_num. rewrite !orb_true_iff, !andb_true_iff, !Z.leb_le, Z.eqb_eq. lia.
Qed.

Lemma word_not_white c : is_word c = true -> is_white c = false /\ is_break c = false.
Proof.
  intros H%word_range. unfold is_white, is_break.
  rewrite !orb_false_iff, !andb_false_iff, !Z.leb_gt, !Z.eqb_neq. lia.
Qed.

(** White space does not change what [one_body] sees. *)
Lemma white_neutral c :
  is_white c = true -> c <> 34 /\ c <> 96 /\ c <> 35 /\ c <> 123 /\ c <> 125 /\ c <> 92.
Proof. intros W. repeat split; intros ->; done. Qed.

Lemma one_body_lead a d g : Forall (fun c => is_white c = true) a -> one_body_from d 0 false (a ++ g) = one_body_from d 0 false g.
Proof.
  induction 1 as [|c a W _ IH]; [done|]. destruct (white_neutral c W) as (?&?&?&?&?&?). simpl.
  by rewrite !(proj2 (Z.eqb_neq c _)) by done.
Qed.

Lemma one_body_white b d q e :
  Forall (fun c => is_white c = true) b -> is_white q = false -> one_body_from d q e b = (d =? 0) && (q =? 0).
Proof.
  intros Wb Wq. revert e. induction Wb as [|c b W _ IH]; intros e; [done|].
  destruct (white_neutral c W) as (?&?&?&?&?&?). simpl. rewrite !(proj2 (Z.eqb_neq c _)) by (done || congruence).
  destruct (Z.eqb_spec q 0) as [->|Nq]; simpl; [by rewrite IH|]. rewrite !IH. by destruct e.
Qed.

Lemma one_body_trail b d q e g :
  Forall (fun c => is_white c = true) b -> is_white q = false -> one_body_from d q e (g ++ b) = one_body_from d q e g.
Proof.
  intros Wb. revert d q e. induction g as [|c g IH]; intros d q e Wq; simpl; [by apply one_body_white|].
  rewrite !IH by done. destruct (Z.eqb_spec c 34) as [->|]; [by rewrite IH|]. destruct (Z.eqb_spec c 96) as [->|]; [by rewrite IH|].
  simpl. by rewrite !IH by done.
Qed.

Lemma one_body_strip g : one_body (tstrip g) = one_body g.
Proof.
  destruct (strip_of_split is_white g) as (a & b & E & Wa & Wb). unfold one_body, tstrip.
  rewrite E at 2. by rewrite one_body_lead, one_body_trail.
Qed.

Lemma one_body_pad g : one_body (points " " ++ g ++ points " ") = one_body g.
Proof. unfold one_body. by rewrite one_body_lead, one_body_trail by (by repeat constructor). Qed.

Lemma after_Some p t r : after p t = Some r -> t = p ++ r.
Proof.
  unfold after. destruct (tstarts p t) eqn:E; [|done]. intros [= <-]. apply tstarts_iff in E as [r ->].
  by rewrite drop_app_length.
Qed.

Lemma after_app p r : after p (p ++ r) = Some r.
Proof. unfold after. by rewrite tstarts_app, drop_app_length. Qed.

(** What a head line is made of. *)
Lemma match_head_Some t s id g :
  match_head t = Some (s, id, g) -> id <> [] /\ Forall (fun c => is_word c = true) id /\ occurs g t.
Proof.
  unfold match_head. destruct (match_set t) as [[s0 r]|] eqn:S; [|done]. simpl.
  assert (O : occurs r t).
  { unfold match_set in S. assert (A : forall s r, after (set_text s) t = Some r -> occurs r t).
    { intros s1 r1 ->%after_Some. exists (set_text s1), []. by rewrite app_nil_r. }
    repeat (destruct (after _ t) eqn:? in S; [injection S as <- <-; by eapply A|]). done. }
  destruct (after [91; 34] r) as [r1|] eqn:A1; [|done]. simpl. apply after_Some in A1 as ->.
  destruct (after [34; 93] _) as [r2|] eqn:A2; [|done]. simpl. apply after_Some in A2.
  destruct (after [123] _) as [r3|] eqn:A3; [|done]. simpl. apply after_Some in A3.
  destruct (take_while is_word r1) as [|i0 id0] eqn:I; [done|].
  destruct (reverse r3) as [|x [|y g0]] eqn:R; [done|by repeat case_match|].
  destruct (decide (x = 125)) as [->|N]; [|by repeat case_match]. intros [= <- <- <-]. split_and!; [done|..].
  - apply Forall_forall. intros c Hc. rewrite <- I in Hc. by apply take_while_all in Hc.
  - eapply occurs_trans; [|exact O]. apply (f_equal reverse) in R. rewrite reverse_involutive, reverse_cons in R.
    apply (occurs_trans _ r3); [by exists [], [125]|].
    assert (D : forall p u, occurs (drop_while p u) u).
    { intros p u. destruct (drop_while_suffix p u) as (a & E & _). exists a, []. by rewrite app_nil_r. }
    apply (occurs_app_r _ [91; 34]). eapply occurs_trans; [|apply (D is_word)]. rewrite A2. apply occurs_app_r.
    eapply occurs_trans; [|apply (D is_white)]. rewrite A3. apply (occurs_app_r _ [123]), occurs_refl.
Qed.

(** Every parsed head is well formed, and its guard is in the region. *)
Lemma heads_of_ok lines hs :
  heads_of lines = Some hs -> Forall unbroken lines ->
  Forall (fun h => head_ok h /\ exists l, l ∈ lines /\ occurs (head_guard h) l) hs.
Proof.
  revert hs. induction lines as [|l ls IH]; intros hs; simpl; [intros [= <-]; constructor|]. intros E U.
  inversion_clear U as [|? ? Ul Uls].
  assert (Mono : forall hs, Forall (fun h => head_ok h /\ exists l, l ∈ ls /\ occurs (head_guard h) l) hs ->
    Forall (fun h => head_ok h /\ exists l', l' ∈ l :: ls /\ occurs (head_guard h) l') hs).
  { intros hs0 F. eapply Forall_impl; [exact F|]. intros h (Ok & l0 & Hl & O). split; [done|]. exists l0. split; [by right|done]. }
  destruct (skipped (tstrip l)); [by apply Mono, IH|].
  destruct (match_head (tstrip l)) as [[[s id] g]|] eqn:M; [|done]. simpl in E. destruct (one_body g) eqn:B; [|done].
  apply fmap_Some in E as (hs' & E & ->). apply match_head_Some in M as (Ni & W & O).
  assert (Og : occurs (tstrip g) l).
  { eapply occurs_trans; [apply strip_occurs|]. eapply occurs_trans; [exact O|apply strip_occurs]. }
  constructor; [|by apply Mono, IH]. split; [|exists l; split; [by left|done]].
  split; simpl; [done|done|apply strip_idem|by rewrite one_body_strip|].
  apply Forall_forall. intros c Hc. unfold unbroken in Ul. rewrite Forall_forall in Ul. apply Ul. eapply occurs_elem; eauto.
Qed.

Lemma strip_head c t : is_white c = false -> exists u, tstrip (c :: t) = c :: u.
Proof.
  intros W. destruct (strip_of_split is_white (c :: t)) as (a & b & E & Wa & Wb).
  destruct a as [|x a]; [|injection E as <- _; inversion Wa; congruence]. unfold tstrip.
  destruct (strip_of is_white (c :: t)) as [|x u]; [|injection E as <- _; eauto].
  simpl in E. rewrite <- E in Wb. inversion Wb. congruence.
Qed.

(** A rendered head line is its own [strip] and reads back as the head it was made from. *)
Lemma rule_line_strip s id g : tstrip (rule_line s id g) = rule_line s id g.
Proof.
  apply strip_of_id; [by destruct s|]. unfold rule_line. rewrite !app_assoc.
  change (points " }") with ([32] ++ [125]). by rewrite app_assoc, last_snoc.
Qed.

Lemma rule_line_head h :
  head_ok h ->
  match_head (rule_line (set_name h) (control_id h) (head_guard h))
    = Some (set_name h, control_id h, points " " ++ head_guard h ++ points " ").
Proof.
  destruct h as [s id g]. intros [Ni W _ _ _]. simpl in *. unfold match_head, rule_line.
  assert (S : match_set (set_text s ++ [91; 34] ++ id ++ [34; 93] ++ points " { " ++ g ++ points " }")
              = Some (s, [91; 34] ++ id ++ [34; 93] ++ points " { " ++ g ++ points " }")).
  { unfold match_set. destruct s; rewrite after_app; try done.
    all: by destruct (after _ _) eqn:A; [apply after_Some in A|]. }
  rewrite S. cbn [mbind option_bind]. rewrite after_app. cbn [mbind option_bind].
  destruct (while_app is_word id ([34; 93] ++ points " { " ++ g ++ points " }") W) as [-> ->].
  change (take_while is_word ([34; 93] ++ points " { " ++ g ++ points " }")) with (@nil Z).
  change (drop_while is_word ([34; 93] ++ points " { " ++ g ++ points " }")) with ([34; 93] ++ points " { " ++ g ++ points " }").
  rewrite app_nil_r, after_app. cbn [mbind option_bind].
  change (drop_while is_white (points " { " ++ g ++ points " }")) with ([123] ++ [32] ++ g ++ [32] ++ [125]).
  rewrite after_app. cbn [mbind option_bind]. rewrite !app_assoc, reverse_snoc.
  destruct id as [|c id]; [done|]. rewrite reverse_snoc. by rewrite <- reverse_snoc, reverse_involutive, <- app_assoc.
Qed.

Lemma heads_of_rule h ls :
  head_ok h ->
  heads_of (rule_line (set_name h) (control_id h) (head_guard h) :: ls) = cons h <$> heads_of ls.
Proof.
  intros Ok. cbn [heads_of]. rewrite rule_line_strip.
  assert (K : skipped (rule_line (set_name h) (control_id h) (head_guard h)) = false).
  { unfold skipped. rewrite !orb_false_iff, !bool_decide_eq_false. destruct h as [[] id g]; simpl; (split; [split; done|]);
      set_unfold; naive_solver. }
  rewrite K, rule_line_head by done. cbn [mbind option_bind]. rewrite one_body_pad, (ho_body _ Ok).
  unfold tstrip. rewrite strip_pad; [by destruct h|by repeat constructor|by repeat constructor|apply (ho_strip _ Ok)].
Qed.

Lemma heads_of_comment t ls : heads_of ((35 :: t) :: ls) = heads_of ls.
Proof.
  cbn [heads_of]. destruct (strip_head 35 t eq_refl) as [u ->].
  assert (K : skipped (35 :: u) = true).
  { unfold skipped. change (35 :: u) with ([35] ++ u). by rewrite tstarts_app, orb_true_r. }
  by rewrite K.
Qed.

Lemma of_set_Forall (P : ControlHead -> Prop) s hs : Forall P hs -> Forall P (of_set s hs).
Proof. rewrite !Forall_forall. intros F h Hh. apply list_elem_of_filter in Hh as [_ Hh]. auto. Qed.

Lemma heads_of_set s hs ls :
  Forall head_ok hs -> heads_of (set_lines s hs ++ ls) = app (of_set s hs) <$> heads_of ls.
Proof.
  intros Ok. unfold set_lines. cbn [app heads_of].
  change (skipped (tstrip [])) with true. cbv iota.
  assert (Ok' : Forall head_ok (of_set s hs)) by (by apply of_set_Forall).
  destruct (of_set s hs) as [|h0 hs0].
  - assert (K : skipped (tstrip (never_fires s)) = true) by (destruct s; vm_compute; reflexivity).
    cbn [app heads_of]. rewrite K. by destruct (heads_of ls).
  - generalize dependent (h0 :: hs0). intros rs. induction 1 as [|h rs Oh _ IH]; [simpl; by destruct (heads_of ls)|].
    cbn [map app]. rewrite heads_of_rule by done. rewrite IH. by destruct (heads_of ls).
Qed.

(** ** The record of the controls that are off *)

Definition is_id (id : text) : Prop := id <> [] /\ Forall (fun c => is_word c = true) id.

Lemma id_word id : is_id id -> id <> [] /\ Forall (fun c => is_white c = false) id.
Proof. intros [N W]. split; [done|]. eapply Forall_impl; [exact W|]. intros c H. by apply word_not_white. Qed.

Lemma join_last ws :
  ws <> [] -> Forall (fun w => w <> [] /\ Forall (fun c => is_white c = false) w) ws ->
  exists u c, join [32] ws = u ++ [c] /\ is_white c = false.
Proof.
  intros N F. induction F as [|w ws [Nw Fw] Fws IH]; [done|]. destruct ws as [|v ws].
  - destruct (exists_last Nw) as (u & c & ->). exists u, c. split; [done|]. rewrite Forall_app in Fw. destruct Fw as [_ Fc].
    by inversion Fc.
  - destruct IH as (u & c & E & Wc); [done|]. exists (w ++ [32] ++ u), c. split; [|done].
    change (join [32] (w :: v :: ws)) with (w ++ [32] ++ join [32] (v :: ws)). by rewrite E, <- !app_assoc.
Qed.

Definition off_line (off : list text) : text :=
  CONTROLS_OFF ++ match off with [] => [] | _ => [32] ++ join [32] off end.

Lemma rstrip_off off : Forall is_id off -> rstrip (CONTROLS_OFF ++ [32] ++ join [32] off) = off_line off.
Proof.
  intros F. unfold off_line. destruct off as [|o off]; [by vm_compute|].
  assert (F' : Forall (fun w => w <> [] /\ Forall (fun c => is_white c = false) w) (o :: off)).
  { eapply Forall_impl; [exact F|]. apply id_word. }
  destruct (join_last (o :: off) ltac:(done) F') as (u & c & -> & W). unfold rstrip. rewrite !app_assoc, reverse_snoc.
  rewrite drop_while_stop by done. by rewrite <- reverse_snoc, reverse_involutive.
Qed.

Lemma off_line_strip off : Forall is_id off -> tstrip (off_line off) = off_line off.
Proof.
  intros F. apply strip_of_id; [done|]. unfold off_line. destruct off as [|o off]; [by vm_compute|].
  destruct (join_last (o :: off) ltac:(done)) as (u & c & -> & W).
  - eapply Forall_impl; [exact F|]. apply id_word.
  - by rewrite !app_assoc, last_snoc.
Qed.

(** The record is read back from the rendered lines. *)
Lemma off_ids_lines off ls : Forall is_id off -> off_ids (GENERATED :: off_line off :: ls) = Some off.
Proof.
  intros F. cbn [off_ids]. replace (tstarts CONTROLS_OFF (tstrip GENERATED)) with false by (by vm_compute).
  rewrite off_line_strip by done. unfold off_line. rewrite tstarts_app, drop_app_length. f_equal.
  destruct off as [|o off]; [done|].
  change (words ([32] ++ join [32] (o :: off))) with (words (join [32] (o :: off))).
  apply words_join. eapply Forall_impl; [exact F|]. apply id_word.
Qed.

Lemma region_lines_split d hs :
  Forall is_id (off_of d) ->
  region_lines d hs = GENERATED :: off_line (sorted_off d) :: set_lines Blocks hs ++ set_lines Escalates hs ++ set_lines Audits hs.
Proof.
  intros F. unfold region_lines. rewrite rstrip_off; [done|]. unfold sorted_off. by rewrite merge_sort_Permutation.
Qed.

(** What the rendered region says. *)
Lemma region_reads d hs :
  Forall is_id (off_of d) -> Forall head_ok hs ->
  off_ids (region_lines d hs) = Some (sorted_off d) /\
  heads_of (region_lines d hs) = Some (of_set Blocks hs ++ of_set Escalates hs ++ of_set Audits hs).
Proof.
  intros F Ok. rewrite region_lines_split by done. split.
  - apply off_ids_lines. unfold sorted_off. by rewrite merge_sort_Permutation.
  - unfold GENERATED. rewrite (heads_of_comment (tail GENERATED)). unfold off_line, CONTROLS_OFF. cbn [points app].
    rewrite heads_of_comment. rewrite !heads_of_set by done.
    rewrite <- (app_nil_r (set_lines Audits hs)), heads_of_set by done. simpl. by rewrite app_nil_r.
Qed.

(** ** The rendered module around the region *)

(** A character is not in a closed text, by computation. *)
Ltac closed_not_in :=
  lazymatch goal with
  | |- ?c ∈ ?t -> False => apply (bool_decide_unpack (c ∉ t)); vm_compute; exact I
  | |- ?c ∉ ?t => apply (bool_decide_unpack (c ∉ t)); vm_compute; exact I
  end.

Lemma END_parts : CONTROLS_END = 35 :: tail CONTROLS_END /\ CONTROLS_END = removelast CONTROLS_END ++ [68].
Proof. done. Qed.

Lemma no_end_closed t : tindex CONTROLS_END t = None -> ~ occurs CONTROLS_END t.
Proof. apply tindex_None. Qed.

Lemma join_elem ws c : c ∈ join [32] ws -> c = 32 \/ exists w, w ∈ ws /\ c ∈ w.
Proof.
  induction ws as [|w ws IH]; [by intros ?%elem_of_nil|]. destruct ws as [|v ws].
  - simpl. intros H. right. exists w. split; [by left|done].
  - change (join [32] (w :: v :: ws)) with (w ++ [32] ++ join [32] (v :: ws)). rewrite !elem_of_app.
    intros [H|[H|H]]; [right; exists w; split; [by left|done]|left; by apply list_elem_of_singleton in H|].
    destruct (IH H) as [->|(u & Hu & Hc)]; [by left|]. right. exists u. split; [by right|done].
Qed.

Lemma off_line_unbroken off : Forall is_id off -> unbroken (off_line off) /\ 35 ∉ tail (off_line off).
Proof.
  intros F. assert (J : forall c, c ∈ join [32] off -> is_break c = false /\ c <> 35).
  { intros c H. apply join_elem in H as [->|(w & Hw & Hc)]; [done|]. rewrite Forall_forall in F.
    destruct (F w Hw) as [_ W]. rewrite Forall_forall in W. specialize (W c Hc). split; [by apply word_not_white|].
    apply word_range in W. lia. }
  unfold off_line. split.
  - apply Forall_app. split; [by repeat constructor|]. destruct off; [constructor|].
    constructor; [done|]. apply Forall_forall. intros c Hc. by apply J.
  - intros H. change (tail (CONTROLS_OFF ++ match off with [] => [] | _ => [32] ++ join [32] off end))
      with (tail CONTROLS_OFF ++ match off with [] => [] | _ => [32] ++ join [32] off end) in H.
    apply elem_of_app in H as [H|H].
    + revert H. closed_not_in.
    + destruct off; [by apply elem_of_nil in H|]. apply elem_of_cons in H as [H|H]; [done|]. by apply J in H as [_ H].
Qed.

Lemma off_line_no_end off : Forall is_id off -> ~ occurs CONTROLS_END (off_line off).
Proof.
  intros F (a & b & E). destruct (off_line_unbroken off F) as [_ N]. destruct a as [|x a].
  - unfold off_line in E. by vm_compute in E.
  - apply N. rewrite E. simpl. rewrite elem_of_app. right. by left.
Qed.

Lemma rule_line_clean h :
  head_ok h -> ~ occurs CONTROLS_END (head_guard h) ->
  unbroken (rule_line (set_name h) (control_id h) (head_guard h)) /\
  ~ occurs CONTROLS_END (rule_line (set_name h) (control_id h) (head_guard h)).
Proof.
  intros [_ W _ _ L] No. destruct h as [s id g]. simpl in *. split.
  - unfold unbroken, rule_line. rewrite !Forall_app. split_and!; try by repeat constructor.
    + by destruct s; repeat constructor.
    + eapply Forall_impl; [exact W|]. intros c Hc. by apply word_not_white.
  - unfold rule_line. intros H. apply No. rewrite (proj1 END_parts) in H. rewrite !app_assoc in H.
    rewrite <- app_assoc in H. apply occurs_app_first in H.
    + rewrite <- (proj1 END_parts), (proj2 END_parts) in H. apply occurs_app_last in H; [by rewrite (proj2 END_parts)|].
      closed_not_in.
    + assert (Ni : 35 ∉ id).
      { intros Hi. rewrite Forall_forall in W. apply W, word_range in Hi. lia. }
      rewrite !elem_of_app. intros [[[[X|X]|X]|X]|X]; [destruct s| |done| |]; revert X; closed_not_in.
Qed.

Lemma set_lines_clean s hs :
  Forall head_ok hs -> Forall (fun h => ~ occurs CONTROLS_END (head_guard h)) hs ->
  Forall (fun l => unbroken l /\ ~ occurs CONTROLS_END l) (set_lines s hs).
Proof.
  intros Ok No. unfold set_lines. constructor; [split; [constructor|by apply no_end_closed]|].
  apply (of_set_Forall _ s) in Ok, No. destruct (of_set s hs) as [|h0 rs].
  - constructor; [|constructor]. split; [by destruct s; repeat constructor|]. apply no_end_closed. by destruct s; vm_compute.
  - generalize dependent (h0 :: rs). intros l Ok No. apply Forall_map. rewrite Forall_forall in Ok, No |- *.
    intros h Hh. apply rule_line_clean; auto.
Qed.

Lemma region_lines_clean d hs :
  Forall is_id (off_of d) -> Forall head_ok hs -> Forall (fun h => ~ occurs CONTROLS_END (head_guard h)) hs ->
  Forall (fun l => unbroken l /\ ~ occurs CONTROLS_END l) (region_lines d hs).
Proof.
  intros F Ok No. rewrite region_lines_split by done.
  assert (F' : Forall is_id (sorted_off d)) by (unfold sorted_off; by rewrite merge_sort_Permutation).
  constructor; [split; [by repeat constructor|apply no_end_closed; by vm_compute]|].
  constructor; [split; [by apply off_line_unbroken|by apply off_line_no_end]|].
  rewrite !Forall_app. split_and!; by apply set_lines_clean.
Qed.

(** What a chart with a non-empty region looks like. *)
Lemma split_region_parts src b r a :
  split_region src = Some (b, r, a) -> r <> [] ->
  (exists x, src = b ++ CONTROLS_BEGIN ++ x) /\ tindex CONTROLS_BEGIN src = Some (length b) /\
  ~ occurs CONTROLS_END (b ++ CONTROLS_BEGIN) /\ ~ occurs CONTROLS_END r.
Proof.
  unfold split_region. destruct (tindex CONTROLS_BEGIN src) as [bi|] eqn:B; [|done]. simpl.
  destruct (tindex CONTROLS_END src) as [ei|] eqn:E; [|done]. simpl.
  destruct (tindex [10] (drop bi src)) as [nl|] eqn:N; [|done]. simpl. intros [= <- <- <-] Ne.
  destruct (tindex_Some _ _ _ B) as (x & Ex & Lb).
  assert (Len : length (take bi src) = bi) by (rewrite length_take; lia).
  assert (Nl : (length CONTROLS_BEGIN <= nl)%nat).
  { rewrite Ex, drop_app_length' in N by done. destruct (tindex_Some _ _ _ N) as (y & Ey & _).
    destruct (decide (length CONTROLS_BEGIN <= nl)%nat); [done|]. exfalso.
    assert (X : 10 ∈ CONTROLS_BEGIN); [|revert X; closed_not_in].
    apply (f_equal (lookup nl)) in Ey. rewrite lookup_app_l in Ey by lia. rewrite lookup_app_r in Ey
      by (rewrite length_take; lia). rewrite length_take, Nat.min_l in Ey by (rewrite length_app; lia).
    rewrite Nat.sub_diag in Ey. by apply list_elem_of_lookup_2 in Ey. }
  assert (Gt : (bi + nl + 1 < ei)%nat).
  { destruct (decide (bi + nl + 1 < ei)%nat); [done|]. exfalso. apply Ne. by replace (ei - (bi + nl + 1))%nat with O by lia. }
  assert (First : ~ occurs CONTROLS_END (take ei src)) by (by apply tindex_first).
  split_and!; [by exists x|by rewrite Len|..]; intros O; apply First; (eapply occurs_trans; [exact O|]).
  - assert (T : take ei src = (take bi src ++ CONTROLS_BEGIN) ++ take (ei - length (take bi src ++ CONTROLS_BEGIN)) x).
    { rewrite Ex at 1. rewrite app_assoc, take_app_ge; [done|]. rewrite length_app, Len. simpl in *. lia. }
    rewrite T. apply occurs_app_l, occurs_refl.
  - rewrite take_drop_commute. replace (bi + nl + 1 + (ei - (bi + nl + 1)))%nat with ei by lia. apply occurs_take_drop.
Qed.

Lemma tindex_lines ls rest :
  Forall (fun l => unbroken l /\ ~ occurs CONTROLS_END l) ls ->
  tindex CONTROLS_END (concat (map (fun l => l ++ [10]) ls) ++ CONTROLS_END ++ rest)
    = Some (length (concat (map (fun l => l ++ [10]) ls))).
Proof.
  induction 1 as [|l ls [_ No] _ IH].
  - cbn [map concat app length]. rewrite <- (app_nil_l (CONTROLS_END ++ rest)), (tindex_ext _ _ _ []). done.
  - cbn [map concat]. rewrite <- !app_assoc. cbn [app]. rewrite tindex_skip; [|done|closed_not_in|done].
    rewrite IH. simpl. f_equal. rewrite !length_app. simpl. lia.
Qed.

(** The rendered module splits into the same surroundings and the rendered region. *)
Lemma split_region_rendered b a ls :
  tindex CONTROLS_BEGIN (b ++ CONTROLS_BEGIN) = Some (length b) -> ~ occurs CONTROLS_END (b ++ CONTROLS_BEGIN) ->
  Forall (fun l => unbroken l /\ ~ occurs CONTROLS_END l) ls ->
  let region := concat (map (fun l => l ++ [10]) ls) in
  split_region (b ++ CONTROLS_BEGIN ++ [10] ++ region ++ CONTROLS_END ++ a) = Some (b, region, a).
Proof.
  intros B No Cl region. unfold split_region.
  assert (I1 : tindex CONTROLS_BEGIN (b ++ CONTROLS_BEGIN ++ [10] ++ region ++ CONTROLS_END ++ a) = Some (length b)).
  { rewrite (tindex_ext _ _ _ []). by rewrite app_nil_r. }
  rewrite I1. cbn [mbind option_bind].
  assert (I2 : tindex CONTROLS_END (b ++ CONTROLS_BEGIN ++ [10] ++ region ++ CONTROLS_END ++ a)
               = Some (length b + length CONTROLS_BEGIN + 1 + length region)%nat).
  { rewrite app_assoc. cbn [app]. rewrite tindex_skip; [|done|closed_not_in|done]. unfold region.
    rewrite tindex_lines by done. simpl. f_equal. rewrite length_app. simpl. lia. }
  rewrite I2. cbn [mbind option_bind]. rewrite drop_app_length.
  assert (I3 : tindex [10] (CONTROLS_BEGIN ++ [10] ++ region ++ CONTROLS_END ++ a) = Some (length CONTROLS_BEGIN)).
  { by rewrite (tindex_ext _ _ _ []). }
  rewrite I3. cbn [mbind option_bind]. cbv zeta. do 2 f_equal; [f_equal|].
  - by rewrite take_app_length.
  - replace (b ++ CONTROLS_BEGIN ++ [10] ++ region ++ CONTROLS_END ++ a)
      with ((b ++ CONTROLS_BEGIN ++ [10]) ++ region ++ CONTROLS_END ++ a) by (by rewrite <- !app_assoc).
    rewrite drop_app_length' by (rewrite !length_app; simpl; lia).
    apply take_app_length'. simpl. lia.
  - replace (b ++ CONTROLS_BEGIN ++ [10] ++ region ++ CONTROLS_END ++ a)
      with ((b ++ CONTROLS_BEGIN ++ [10] ++ region ++ CONTROLS_END) ++ a) by (by rewrite <- !app_assoc).
    apply drop_app_length'. rewrite !length_app. simpl. lia.
Qed.

(** ** Dictionaries of effects *)

Lemma dget_dset d k v k' : dget (dset d k v) k' = if bool_decide (k = k') then Some v else dget d k'.
Proof.
  induction d as [|[x y] d IH]; csimpl; [done|]. destruct (bool_decide_reflect (x = k)) as [->|N]; simpl.
  - by destruct (bool_decide_reflect (k = k')) as [->|].
  - rewrite IH. destruct (bool_decide_reflect (x = k')) as [->|]; [|done]. by rewrite bool_decide_eq_false_2.
Qed.

Lemma dget_elem d k v : NoDup d.*1 -> dget d k = Some v <-> (k, v) ∈ d.
Proof.
  induction d as [|[x y] d IH]; csimpl; intros N; [split; [done|by intros ?%elem_of_nil]|].
  apply NoDup_cons in N as [Nx N]. rewrite elem_of_cons. destruct (bool_decide_reflect (x = k)) as [->|Ne].
  - split; [intros [= ->]; by left|]. intros [[= ->]|H]; [done|]. exfalso. apply Nx. apply list_elem_of_fmap. by exists (k, v).
  - rewrite IH by done. split; [by right|]. intros [[= -> ->]|]; done.
Qed.

Lemma dget_key d k : is_Some (dget d k) <-> k ∈ d.*1.
Proof.
  induction d as [|[x y] d IH]; csimpl; [split; [by intros []|by intros ?%elem_of_nil]|]. rewrite elem_of_cons, <- IH.
  destruct (bool_decide_reflect (x = k)) as [->|Ne]; [split; eauto|]. split; [auto|]. by intros [->|].
Qed.

Lemma dset_keys d k v : (dset d k v).*1 = if bool_decide (k ∈ d.*1) then d.*1 else d.*1 ++ [k].
Proof.
  induction d as [|[x y] d IH]; [done|]. cbn [dset].
  destruct (bool_decide_reflect (x = k)) as [->|N]; rewrite !fmap_cons; cbn [fst].
  - by rewrite bool_decide_eq_true_2 by (by left).
  - rewrite IH. destruct (bool_decide_reflect (k ∈ d.*1)) as [I|I].
    + by rewrite bool_decide_eq_true_2 by (by right).
    + rewrite bool_decide_eq_false_2; [done|]. intros [->|]%elem_of_cons; done.
Qed.

Lemma dset_NoDup d k v : NoDup d.*1 -> NoDup (dset d k v).*1.
Proof.
  intros N. rewrite dset_keys. case_bool_decide as I; [done|]. apply NoDup_app. split_and!; [done| |by apply NoDup_singleton].
  intros x Hx ->%list_elem_of_singleton. done.
Qed.

Lemma off_of_elem d k : NoDup d.*1 -> k ∈ off_of d <-> dget d k = Some Off.
Proof.
  intros N. unfold off_of. rewrite dget_elem by done. rewrite list_elem_of_fmap. split.
  - intros ([k' v] & -> & H). apply list_elem_of_filter in H as [H1 H2]. csimpl in *. by subst.
  - intros H. exists (k, Off). split; [done|]. by apply list_elem_of_filter.
Qed.

Lemma off_of_NoDup d : NoDup d.*1 -> NoDup (off_of d).
Proof.
  unfold off_of. induction d as [|[x y] d IH]; csimpl; [constructor|]. intros [Nx N]%NoDup_cons.
  rewrite filter_cons. case_decide; csimpl; [|by apply IH]. apply NoDup_cons. split; [|by apply IH].
  intros H1. apply Nx. apply list_elem_of_fmap in H1 as ([k v] & -> & H1). apply list_elem_of_filter in H1 as [_ H1].
  apply list_elem_of_fmap. by exists (k, v).
Qed.

(** [sorted] depends on the members only. *)
Lemma sorted_off_ext d d' :
  NoDup d.*1 -> NoDup d'.*1 -> (forall k, dget d k = dget d' k) -> sorted_off d = sorted_off d'.
Proof.
  intros N N' E. unfold sorted_off. apply (StronglySorted_unique text_le); [apply StronglySorted_merge_sort; apply _..|].
  rewrite !merge_sort_Permutation. apply list.NoDup_Permutation; [by apply off_of_NoDup..|]. intros k.
  rewrite !off_of_elem by done. by rewrite E.
Qed.

(** ** Rendering and reading back *)

(** A head as the compiler registers it under an effect. *)
Definition retarget (e : Effect) (h : ControlHead) : ControlHead :=
  mkHead (target e (set_name h)) (control_id h) (head_guard h).

Lemma emitted_spec d heads hs :
  emitted d heads = Some hs ->
  (forall h, h ∈ heads -> is_Some (dget d (control_id h))) /\
  (forall h', h' ∈ hs <-> exists h e, h ∈ heads /\ dget d (control_id h) = Some e /\ e <> Off /\ h' = retarget e h).
Proof.
  revert hs. induction heads as [|h heads IH]; intros hs; simpl.
  - intros [= <-]. split; [by intros ? ?%elem_of_nil|]. intros h'. split; [by intros ?%elem_of_nil|].
    by intros (h & e & ?%elem_of_nil & _).
  - destruct (dget d (control_id h)) as [e|] eqn:De; [|done]. simpl. destruct (emitted d heads) as [rest|]; [|done]. simpl.
    destruct (IH rest eq_refl) as [K1 K2]. intros [= <-]. split.
    + intros h' [->|Hh]%elem_of_cons; [by eexists|auto].
    + intros h'. assert (T : h' ∈ rest <-> exists h0 e0, h0 ∈ heads /\ dget d (control_id h0) = Some e0 /\ e0 <> Off /\ h' = retarget e0 h0) by apply K2.
      transitivity (h' ∈ (match e with Off => [] | _ => [retarget e h] end) ++ rest); [by destruct e|].
      rewrite elem_of_app, T. split.
      * intros [H|(h0 & e0 & ? & ?)]; [|exists h0, e0; split; [by right|done]].
        exists h, e. destruct e; [by apply elem_of_nil in H|..]; apply list_elem_of_singleton in H; (split; [by left|done]).
      * intros (h0 & e0 & [->|Hh]%elem_of_cons & D & Ne & ->); [|right; by exists h0, e0].
        rewrite De in D. injection D as <-. left. destruct e; [done|by left|by left].
Qed.

Lemma emitted_ext d d' heads :
  (forall h, h ∈ heads -> dget d (control_id h) = dget d' (control_id h)) -> emitted d heads = emitted d' heads.
Proof.
  induction heads as [|h heads IH]; intros E; [done|]. cbn [emitted]. rewrite (E h) by (by left).
  by rewrite IH by (intros; apply E; by right).
Qed.

Lemma emitted_total d heads : (forall h, h ∈ heads -> is_Some (dget d (control_id h))) -> is_Some (emitted d heads).
Proof.
  induction heads as [|h heads IH]; intros E; [by eexists|]. cbn [emitted].
  destruct (E h) as [e ->]; [by left|]. destruct IH as [rest ->]; [intros; apply E; by right|]. by eexists.
Qed.

Definition by_set (hs : list ControlHead) : list ControlHead := of_set Blocks hs ++ of_set Escalates hs ++ of_set Audits hs.

Lemma by_set_elem h hs : h ∈ by_set hs <-> h ∈ hs.
Proof.
  unfold by_set, of_set. rewrite !elem_of_app, !list_elem_of_filter. destruct h as [[] i g]; simpl; naive_solver.
Qed.

(** A chart the compiler can read. *)
Record readable (chart b r a : text) (heads : list ControlHead) : Prop := {
  rd_split : split_region chart = Some (b, r, a);
  rd_heads : parse_heads r = Some heads;
  rd_some : heads <> [];
}.

Lemma readable_heads chart b r a heads :
  readable chart b r a heads -> Forall (fun h => head_ok h /\ ~ occurs CONTROLS_END (head_guard h)) heads.
Proof.
  intros [S P N]. assert (Nr : r <> []) by (intros ->; by injection P as <-).
  destruct (split_region_parts chart b r a S Nr) as (_ & _ & _ & No).
  assert (U : Forall unbroken (splitlines r)) by (apply splitlines_unbroken; constructor).
  eapply Forall_impl; [exact (heads_of_ok _ _ P U)|]. intros h (Ok & l & Hl & O). split; [done|]. intros X. apply No.
  eapply occurs_trans; [exact X|]. eapply occurs_trans; [exact O|]. by apply (splitlines_occurs [] r).
Qed.

Lemma readable_ids chart b r a heads h : readable chart b r a heads -> h ∈ heads -> is_id (control_id h).
Proof.
  intros R Hh. apply readable_heads in R. rewrite Forall_forall in R. destruct (R h Hh) as [[] _]. done.
Qed.

(** The rendered module is the chart around a region that records what is off and registers exactly the
    other heads. *)
Lemma render_reads chart b r a heads d hs :
  readable chart b r a heads -> Forall is_id (off_of d) -> emitted d heads = Some hs ->
  exists R region, render chart d = Some R /\ split_region R = Some (b, region, a) /\
    off_ids (splitlines region) = Some (sorted_off d) /\ parse_heads region = Some (by_set hs).
Proof.
  intros Rd F Em. pose proof (readable_heads _ _ _ _ _ Rd) as G. destruct Rd as [S P N].
  assert (Nr : r <> []) by (intros ->; by injection P as <-).
  destruct (split_region_parts chart b r a S Nr) as ([x Ex] & Bi & NoB & _).
  destruct (emitted_spec d heads hs Em) as [_ Sp].
  assert (Ok : Forall head_ok hs /\ Forall (fun h => ~ occurs CONTROLS_END (head_guard h)) hs).
  { rewrite !Forall_forall in *. split; intros h' (h & e & Hh & _ & _ & ->)%Sp; destruct (G h Hh) as [[] ?]; [by split|done]. }
  destruct Ok as [Ok No]. set (ls := region_lines d hs).
  pose proof (region_lines_clean d hs F Ok No) as Cl. destruct (region_reads d hs F Ok) as [Ro Rh]. fold ls in Cl, Ro, Rh.
  assert (Sl : splitlines (concat (map (fun l => l ++ [10]) ls)) = ls).
  { apply splitlines_lines. eapply Forall_impl; [exact Cl|]. by intros l []. }
  exists (b ++ CONTROLS_BEGIN ++ [10] ++ concat (map (fun l => l ++ [10]) ls) ++ CONTROLS_END ++ a),
    (concat (map (fun l => l ++ [10]) ls)). split_and!.
  - unfold render. rewrite S. cbn [mbind option_bind]. rewrite P. cbn [mbind option_bind]. rewrite Em.
    cbn [mbind option_bind]. fold ls. rewrite <- join_lines by done. by rewrite <- !app_assoc.
  - apply split_region_rendered; [|done|done]. rewrite <- Bi, Ex. rewrite (tindex_ext _ b x []). by rewrite app_nil_r.
  - by rewrite Sl.
  - unfold parse_heads. by rewrite Sl.
Qed.

(** The effect a rendered region gives a control is the one it was rendered with. *)
Lemma effect_in_rendered d heads hs h :
  NoDup d.*1 -> emitted d heads = Some hs -> h ∈ heads ->
  effect_in (sorted_off d) (by_set hs) (control_id h) = dget d (control_id h).
Proof.
  intros N Em Hh. destruct (emitted_spec d heads hs Em) as [Tot Sp]. destruct (Tot h Hh) as [e De].
  assert (Off' : control_id h ∈ sorted_off d <-> e = Off).
  { unfold sorted_off. rewrite merge_sort_Permutation, off_of_elem, De by done. split; [by intros [= ->]|by intros ->]. }
  unfold effect_in. rewrite De. set (sets := map set_name (filter _ (by_set hs))).
  assert (In : forall x, x ∈ sets -> exists s, x = target e s).
  { intros x Hx. apply list_elem_of_fmap in Hx as (h' & -> & Hx). apply list_elem_of_filter in Hx as [Ei Hx].
    apply by_set_elem, Sp in Hx as (h0 & e0 & _ & D0 & _ & ->). simpl in *. rewrite Ei, De in D0. injection D0 as ->. eauto. }
  assert (Mem : e <> Off -> target e (set_name h) ∈ sets).
  { intros Ne. apply list_elem_of_fmap. exists (retarget e h). split; [done|]. apply list_elem_of_filter. split; [done|].
    apply by_set_elem, Sp. by exists h, e. }
  destruct (bool_decide_reflect (control_id h ∈ sorted_off d)) as [X|X]; [by apply Off' in X as ->|].
  assert (Ne : e <> Off) by (intros E; by apply X, Off'). specialize (Mem Ne). destruct e; [done|..].
  - assert (Ex : existsb enforcing sets = false).
    { apply not_true_iff_false. intros (x & Hx & Ex)%existsb_exists. apply list_elem_of_In, In in Hx as [s ->]. done. }
    rewrite Ex. by destruct sets; [apply elem_of_nil in Mem|].
  - assert (Ex : existsb enforcing sets = true).
    { apply existsb_exists. exists (target Deny (set_name h)). split; [by apply list_elem_of_In|]. by destruct (set_name h). }
    by rewrite Ex.
Qed.

Lemma read_effects_spec off present chart acc d :
  read_effects off present chart acc = Some d -> NoDup acc.*1 ->
  NoDup d.*1 /\
  (forall k, dget d k = if bool_decide (k ∈ map control_id chart) then effect_in off present k else dget acc k) /\
  (forall h, h ∈ chart -> is_Some (effect_in off present (control_id h))).
Proof.
  revert acc. induction chart as [|h hs IH]; intros acc; simpl.
  - intros [= ->] N. split_and!; [done|done|by intros ? ?%elem_of_nil].
  - destruct (effect_in off present (control_id h)) as [e|] eqn:E; [|done]. simpl. intros R N.
    destruct (IH _ R (dset_NoDup _ _ _ N)) as (N' & G & T). split_and!; [done| |].
    + intros k. rewrite G, dget_dset. destruct (bool_decide_reflect (k ∈ map control_id hs)) as [I|I].
      * by rewrite bool_decide_eq_true_2 by (by right).
      * destruct (bool_decide_reflect (control_id h = k)) as [<-|Nk].
        -- by rewrite bool_decide_eq_true_2 by (by left).
        -- rewrite bool_decide_eq_false_2; [done|]. intros [->|]%elem_of_cons; done.
    + intros h' [->|Hh]%elem_of_cons; [by rewrite E|auto].
Qed.

Lemma read_effects_total off present chart acc :
  (forall h, h ∈ chart -> is_Some (effect_in off present (control_id h))) -> is_Some (read_effects off present chart acc).
Proof.
  revert acc. induction chart as [|h hs IH]; intros acc T; simpl; [by eexists|].
  destruct (T h) as [e ->]; [by left|]. simpl. apply IH. intros. apply T. by right.
Qed.

(** An effect for every control of the chart, and for nothing else. *)
Definition settles (d : Effects) (heads : list ControlHead) : Prop :=
  NoDup d.*1 /\ forall k, is_Some (dget d k) <-> k ∈ map control_id heads.

Lemma settles_ids chart b r a heads d : readable chart b r a heads -> settles d heads -> Forall is_id (off_of d).
Proof.
  intros Rd [N K]. apply Forall_forall. intros k Hk. apply off_of_elem in Hk; [|done].
  assert (I : k ∈ map control_id heads) by (apply K; by eexists).
  apply list_elem_of_fmap in I as (h & -> & Hh). by eapply readable_ids.
Qed.

Lemma settles_emitted heads d : settles d heads -> is_Some (emitted d heads).
Proof.
  intros [_ K]. apply emitted_total. intros h Hh. apply K. apply list_elem_of_fmap. eauto.
Qed.

(** Reading a rendered module back gives its effects, so it renders the same again. *)
Lemma render_covered chart b r a heads d R :
  readable chart b r a heads -> settles d heads -> render chart d = Some R -> covers R chart = true.
Proof.
  intros Rd St Re. pose proof (settles_ids _ _ _ _ _ _ Rd St) as F. destruct (settles_emitted _ _ St) as [hs Em].
  destruct (render_reads chart b r a heads d hs Rd F Em) as (R' & region & Re' & Sr & Or & Pr).
  rewrite Re in Re'. injection Re' as <-. destruct St as [N K].
  assert (Ef : forall h, h ∈ heads -> effect_in (sorted_off d) (by_set hs) (control_id h) = dget d (control_id h)).
  { intros h Hh. by apply (effect_in_rendered d heads). }
  assert (Tot : forall h, h ∈ heads -> is_Some (effect_in (sorted_off d) (by_set hs) (control_id h))).
  { intros h Hh. rewrite Ef by done. apply K. apply list_elem_of_fmap. eauto. }
  destruct (read_effects_total (sorted_off d) (by_set hs) heads [] Tot) as [d' Rd'].
  destruct (read_effects_spec _ _ _ _ _ Rd' ltac:(constructor)) as (N' & G & _).
  assert (Same : forall k, dget d' k = dget d k).
  { intros k. rewrite G. case_bool_decide as I.
    - apply list_elem_of_fmap in I as (h & -> & Hh). by apply Ef.
    - destruct (dget d k) eqn:Dk; [|done]. exfalso. apply I, K. by rewrite Dk. }
  unfold covers, effects_of. rewrite Sr. cbn [mbind option_bind]. rewrite Or, Pr. cbn [mbind option_bind].
  unfold controls_for. destruct Rd as [S P Ns]. rewrite S. cbn [mbind option_bind]. rewrite P. cbn [mbind option_bind].
  rewrite Rd'. rewrite bool_decide_eq_false_2.
  - apply bool_decide_eq_true. rewrite <- Re. unfold render. rewrite S. cbn [mbind option_bind]. rewrite P. cbn [mbind option_bind].
    rewrite (emitted_ext d' d) by (intros; apply Same). unfold region_lines. by rewrite (sorted_off_ext d' d).
  - intros ->. destruct heads as [|h heads]; [done|]. destruct (K (control_id h)) as [_ [e He]]; [by left|].
    rewrite <- Same in He. done.
Qed.

Lemma ids_from_spec seen heads :
  NoDup seen -> NoDup (ids_from seen heads) /\ forall k, k ∈ ids_from seen heads <-> k ∈ seen \/ k ∈ map control_id heads.
Proof.
  revert seen. induction heads as [|h hs IH]; intros seen N; simpl.
  - split; [done|]. intros k. split; [by left|]. by intros [|?%elem_of_nil].
  - assert (N' : NoDup (if bool_decide (control_id h ∈ seen) then seen else seen ++ [control_id h])).
    { case_bool_decide; [done|]. apply NoDup_app. split_and!; [done| |by apply NoDup_singleton].
      intros x Hx ->%list_elem_of_singleton. done. }
    destruct (IH _ N') as [N2 K]. split; [done|]. intros k. rewrite K, elem_of_cons. case_bool_decide as I.
    + split; [by intros [|]; auto|]. intros [|[->|]]; auto.
    + rewrite elem_of_app, list_elem_of_singleton. tauto.
Qed.

Lemma default_effects_get heads k :
  dget (default_effects heads) k = if bool_decide (k ∈ map control_id heads) then Some (shipped_default heads k) else None.
Proof.
  unfold default_effects. destruct (ids_from_spec [] heads) as [_ K]; [constructor|].
  assert (G : forall ids, dget (map (fun id => (id, shipped_default heads id)) ids) k
                = if bool_decide (k ∈ ids) then Some (shipped_default heads k) else None).
  { intros ids. induction ids as [|i ids IH]; simpl; [done|]. rewrite IH. destruct (bool_decide_reflect (i = k)) as [->|N].
    - by rewrite bool_decide_eq_true_2 by (by left).
    - destruct (bool_decide_reflect (k ∈ ids)) as [I|I].
      + by rewrite bool_decide_eq_true_2 by (by right).
      + rewrite bool_decide_eq_false_2; [done|]. intros [->|]%elem_of_cons; done. }
  rewrite G. unfold control_ids. rewrite (bool_decide_ext _ (k ∈ map control_id heads)); [done|].
  rewrite K. split; [by intros [?%elem_of_nil|]|by right].
Qed.

Lemma default_settles heads : settles (default_effects heads) heads.
Proof.
  split.
  - unfold default_effects. rewrite <- list_fmap_compose. destruct (ids_from_spec [] heads) as [N _]; [constructor|].
    unfold control_ids. by rewrite list_fmap_id.
  - intros k. rewrite default_effects_get. case_bool_decide; [by split; eauto|]. split; [by intros []|done].
Qed.

Lemma override_settles d effects d' heads : settles d heads -> override d effects = Some d' -> settles d' heads.
Proof.
  revert d. induction effects as [|[cid eff] effects IH]; intros d St; simpl; [by intros [= <-]|].
  destruct (dget d cid) as [e0|] eqn:D; [|done]. destruct (parse_effect eff) as [e|]; [|done]. apply IH.
  destruct St as [N K]. split; [by apply dset_NoDup|]. intros k. rewrite dget_dset. case_bool_decide as E; [|apply K].
  subst k. rewrite <- K, D. split; eauto.
Qed.

Lemma controls_for_readable chart heads :
  controls_for chart = Some heads -> heads <> [] -> exists b r a, readable chart b r a heads.
Proof.
  unfold controls_for. destruct (split_region chart) as [[[b r] a]|] eqn:S; [|done]. simpl. intros P N. by exists b, r, a.
Qed.

(** ** The theorems *)

(** saved controls are honoured.  Whatever effects an operator saves over a chart that registers a control,
    the module the compiler writes is recognised by [covers], so it supersedes the chart's baseline. *)
Theorem compile_covered chart effects heads R :
  controls_for chart = Some heads -> heads <> [] -> compile chart effects = Some R -> covers R chart = true.
Proof.
  intros C N. destruct (controls_for_readable _ _ C N) as (b & r & a & Rd). unfold compile. rewrite C.
  cbn [mbind option_bind]. unfold normalize_effects. destruct (override _ effects) as [d|] eqn:O; [|done]. simpl.
  eapply render_covered; [done|]. eapply override_settles; [|done]. apply default_settles.
Qed.

(** superseding drops no control that nobody switched off.  A module that [covers] accepts for a chart is the
    chart outside the region; every head of the chart is registered in it with its guard, in its own set,
    promoted to a block or demoted to a record, unless its control is recorded as off; and it registers
    nothing that is not a head of the chart. *)
Theorem covers_sound compiled chart :
  covers compiled chart = true ->
  exists b r a heads r' off present,
    split_region chart = Some (b, r, a) /\ parse_heads r = Some heads /\
    split_region compiled = Some (b, r', a) /\ off_ids (splitlines r') = Some off /\ parse_heads r' = Some present /\
    (forall h, h ∈ heads -> control_id h ∈ off \/ exists e, e <> Off /\ retarget e h ∈ present) /\
    (forall h', h' ∈ present -> exists h e, h ∈ heads /\ h' = retarget e h /\ control_id h ∉ off).
Proof.
  unfold covers, effects_of. destruct (split_region compiled) as [[[b0 r0] a0]|] eqn:S0; [|done]. simpl.
  destruct (off_ids _) as [off|] eqn:O0; [|done]. destruct (parse_heads r0) as [present|] eqn:P0; [|done]. simpl.
  destruct (controls_for chart) as [heads|] eqn:C; [|done]. simpl.
  destruct (read_effects off present heads []) as [d|] eqn:Rd; [|done]. case_bool_decide as Nd; [done|].
  intros Re. apply bool_decide_eq_true in Re.
  assert (Nh : heads <> []) by (intros ->; simpl in Rd; by injection Rd as <-).
  destruct (controls_for_readable _ _ C Nh) as (b & r & a & Rc).
  destruct (read_effects_spec _ _ _ _ _ Rd ltac:(constructor)) as (N & G & T).
  assert (St : settles d heads).
  { split; [done|]. intros k. rewrite G. case_bool_decide as I; [|by split; [intros []|]]. split; [done|]. intros _.
    apply list_elem_of_fmap in I as (h & -> & Hh). auto. }
  pose proof (settles_ids _ _ _ _ _ _ Rc St) as F. destruct (settles_emitted _ _ St) as [hs Em].
  destruct (render_reads chart b r a heads d hs Rc F Em) as (R' & r' & Re' & S' & O' & P').
  rewrite Re in Re'. injection Re' as <-. rewrite S0 in S'. injection S' as -> -> ->. rewrite O0 in O'. injection O' as ->.
  rewrite P0 in P'. injection P' as ->. destruct (emitted_spec _ _ _ Em) as [Tot Sp]. destruct Rc as [S P _].
  exists b, r, a, heads, r', (sorted_off d), (by_set hs). split_and!; try done.
  - intros h Hh. destruct (Tot h Hh) as [e De]. destruct (decide (e = Off)) as [->|Ne].
    + left. unfold sorted_off. by rewrite merge_sort_Permutation, off_of_elem.
    + right. exists e. split; [done|]. apply by_set_elem, Sp. by exists h, e.
  - intros h' (h & e & Hh & De & Ne & ->)%by_set_elem%Sp. exists h, e. split_and!; [done|done|].
    unfold sorted_off. rewrite merge_sort_Permutation, off_of_elem, De by done. congruence.
Qed.

(** an untouched save changes nothing that was enforced.  With no effect set, every head of the preset is
    registered with its guard in the set the preset authors it in, except a record of a control that also
    blocks or escalates, which becomes a block; nothing is recorded as off. *)
Theorem untouched_save chart heads R :
  controls_for chart = Some heads -> heads <> [] -> compile chart [] = Some R ->
  exists b region a present,
    split_region R = Some (b, region, a) /\ off_ids (splitlines region) = Some [] /\ parse_heads region = Some present /\
    forall h, h ∈ heads ->
      if enforcing (set_name h) then h ∈ present
      else if existsb (fun o => bool_decide (control_id o = control_id h) && enforcing (set_name o)) heads
      then mkHead Blocks (control_id h) (head_guard h) ∈ present
      else h ∈ present.
Proof.
  intros C N. destruct (controls_for_readable _ _ C N) as (b & r & a & Rd). unfold compile. rewrite C.
  cbn [mbind option_bind normalize_effects override]. intros Re. pose proof (default_settles heads) as St.
  pose proof (settles_ids _ _ _ _ _ _ Rd St) as F. destruct (settles_emitted _ _ St) as [hs Em].
  destruct (render_reads chart b r a heads _ hs Rd F Em) as (R' & region & Re' & S' & O' & P').
  rewrite Re in Re'. injection Re' as <-. exists b, region, a, (by_set hs).
  assert (NoOff : off_of (default_effects heads) = []).
  { destruct (off_of (default_effects heads)) as [|k l] eqn:E; [done|]. exfalso.
    assert (I : k ∈ off_of (default_effects heads)) by (rewrite E; by left). apply off_of_elem in I; [|apply St].
    rewrite default_effects_get in I. case_bool_decide; [|done]. unfold shipped_default in I. by destruct (existsb _ _). }
  unfold sorted_off in O'. rewrite NoOff in O'. split_and!; [done|done|done|]. intros h Hh.
  destruct (emitted_spec _ _ _ Em) as [_ Sp].
  assert (I : control_id h ∈ map control_id heads) by (apply list_elem_of_fmap; eauto).
  assert (In : retarget (shipped_default heads (control_id h)) h ∈ by_set hs).
  { apply by_set_elem, Sp. exists h, (shipped_default heads (control_id h)). split_and!; [done| |
      unfold shipped_default; by destruct (existsb _ _)|done]. rewrite default_effects_get. by rewrite bool_decide_eq_true_2. }
  assert (Sd : shipped_default heads (control_id h) =
     if existsb (fun o => bool_decide (control_id o = control_id h) && enforcing (set_name o)) heads then Deny else Monitor) by done.
  destruct h as [s id g]. simpl in *. destruct (enforcing s) eqn:Es.
  - assert (X : existsb (fun o => bool_decide (control_id o = id) && enforcing (set_name o)) heads = true).
    { apply existsb_exists. exists (mkHead s id g). split; [by apply list_elem_of_In|]. simpl. by rewrite bool_decide_eq_true_2, Es. }
    rewrite X in Sd. rewrite Sd in In. by destruct s.
  - destruct s; try done. rewrite Sd in In. by destruct (existsb _ heads).
Qed.

(** ** Witnesses *)

(** A literal in which the apostrophe stands for the double quote. *)
Definition quoted (s : string) : text := map (fun c => if c =? 39 then 34 else c) (points s).

Definition sample_chart : text := quoted "package norviq.strict
# >>> CONTROLS-BEGIN
# one line per head
blocks['deny_shell'] { shell == 'a}b' }
  escalates['drift'] {drifted}

audits['scope'] { out_of_scope }
# >>> CONTROLS-END
shell = input.tool_name
".
Definition sample_heads : list ControlHead :=
  [mkHead Blocks (points "deny_shell") (quoted "shell == 'a}b'"); mkHead Escalates (points "drift") (points "drifted");
   mkHead Audits (points "scope") (points "out_of_scope")].
Definition sample_module (effects : list (text * string)) : text := default [] (compile sample_chart effects).

Lemma compile_covered_witness : covers (sample_module [(points "drift", "off"); (points "scope", "deny")]) sample_chart = true.
Proof.
  apply (compile_covered sample_chart [(points "drift", "off"); (points "scope", "deny")] sample_heads);
    [vm_compute; reflexivity|discriminate|vm_compute; reflexivity].
Defined.

Lemma covers_sound_witness :
  covers (sample_module [(points "drift", "off")]) sample_chart = true /\
  exists b r a heads r' off present,
    split_region sample_chart = Some (b, r, a) /\ parse_heads r = Some heads /\
    split_region (sample_module [(points "drift", "off")]) = Some (b, r', a) /\ off_ids (splitlines r') = Some off /\
    parse_heads r' = Some present /\
    (forall h, h ∈ heads -> control_id h ∈ off \/ exists e, e <> Off /\ retarget e h ∈ present) /\
    (forall h', h' ∈ present -> exists h e, h ∈ heads /\ h' = retarget e h /\ control_id h ∉ off).
Proof.
  assert (C : covers (sample_module [(points "drift", "off")]) sample_chart = true) by (vm_compute; reflexivity).
  split; [exact C|]. exact (covers_sound _ _ C).
Defined.

Lemma untouched_save_witness :
  exists b region a present,
    split_region (sample_module []) = Some (b, region, a) /\ off_ids (splitlines region) = Some [] /\
    parse_heads region = Some present /\
    forall h, h ∈ sample_heads ->
      if enforcing (set_name h) then h ∈ present
      else if existsb (fun o => bool_decide (control_id o = control_id h) && enforcing (set_name o)) sample_heads
      then mkHead Blocks (control_id h) (head_guard h) ∈ present
      else h ∈ present.
Proof.
  apply (untouched_save sample_chart sample_heads); [vm_compute; reflexivity|discriminate|vm_compute; reflexivity].
Defined.
