(* ===== verification/ModuleText.v ===== *)
(** * The text of a module ([norviq/engine/opa_client.py], [norviq/engine/empty_literals.py])

    A stored policy enters OPA under an identifier made from its key, with its [package] header replaced
    by one of its own, and with the empty literals that older generators wrote replaced by typed ones. *)

From S2P Require Import Prelude Text.

(** ** Identifiers of modules *)

(** [re.compile("[^A-Za-z0-9]+").sub("_", key)]. *)
Fixpoint sanitize (in_run : bool) (t : text) : text :=
  match t with
  | [] => []
  | c :: t' =>
      if is_alnum c then c :: sanitize false t'
      else if in_run then sanitize true t'
      else 95 :: sanitize true t'
  end.

Section Key.
(** [hashlib.sha1(key.encode("utf-8")).hexdigest()[:8]]. *)
Context (digest8 : text -> text).

Definition cleaned (key : text) : text :=
  match strip_of (fun c => c =? 95) (sanitize false key) with
  | [] => points "default"
  | t => t
  end.

(** [sanitize_key]. *)
Definition sanitize_key (key : text) : text := cleaned key ++ [95] ++ digest8 key.

(** [managed_package]. *)
Definition managed_package (key : text) : text := points "norviq.managed." ++ sanitize_key key.

End Key.

(** ** The package header *)

(** [[A-Za-z0-9_.]]. *)
Definition is_pkg (c : Z) : bool := is_word c || (c =? 46).

(** The text from the last newline of a run of white space, if it has one. *)
Definition from_last_newline (w : text) : option text :=
  let r := reverse w in
  match drop_while (fun c => negb (c =? 10)) r with
  | [] => None
  | _ => Some (10 :: reverse (take_while (fun c => negb (c =? 10)) r))
  end.

(** [_PACKAGE_RE], [^\s*package\s+([A-Za-z0-9_.]+)\s*$], at the start of a line: the name and what follows the
    match.  White space, the name and the word are disjoint, so only the trailing white space backtracks,
    to the last place before a newline. *)
Definition match_name (r : text) : option (text * text) :=
  match take_while is_white r with
  | [] => None
  | _ :: _ =>
      let t := drop_while is_white r in
      let name := take_while is_pkg t in
      let t := drop_while is_pkg t in
      match name with
      | [] => None
      | _ :: _ =>
          match drop_while is_white t with
          | [] => Some (name, [])
          | c :: u => rest ← from_last_newline (take_while is_white t); Some (name, rest ++ c :: u)
          end
      end
  end.
Definition match_header (t : text) : option (text * text) :=
  let t := drop_while is_white t in
  if tstarts (points "package") t then match_name (drop 7 t) else None.

(** [_PACKAGE_RE.search]: what precedes the first match, the name, what follows. *)
Fixpoint search_header (at_line_start : bool) (t : text) : option (text * text * text) :=
  match (if at_line_start then match_header t else None) with
  | Some (name, rest) => Some ([], name, rest)
  | None =>
      match t with
      | [] => None
      | c :: t' => '(a, name, rest) ← search_header (c =? 10) t'; Some (c :: a, name, rest)
      end
  end.

(** [_extract_package_name]. *)
Definition extract_package_name (rego : text) : option text :=
  '(_, name, _) ← search_header true rego; Some (tstrip name).

(** [rewrite_package]. *)
Definition rewrite_package (rego name : text) : text :=
  match search_header true rego with
  | Some (a, _, rest) => a ++ points "package " ++ name ++ rest
  | None => points "package " ++ name ++ [10] ++ rego
  end.

(** ** Literals of older generators *)

Definition EMPTY_OBJECT : text := points "{k: k | k := " ++ [34; 34] ++ points "; false}".
Definition EMPTY_SET : text := points "{s | s := " ++ [34; 34] ++ points "; false}".
Definition EMPTY_ARRAY : text := points "[s | s := " ++ [34; 34] ++ points "; false]".

(** A whole line, with or without a carriage return at its end. *)
Fixpoint whole_line (pairs : list (text * text)) (line : text) : option text :=
  match pairs with
  | [] => None
  | (old, new) :: ps =>
      if bool_decide (line = old) then Some new
      else if bool_decide (line = old ++ [13]) then Some (new ++ [13])
      else whole_line ps line
  end.

Definition in_empty_old : text := points "count([x | x := [][_]; x == ".
Definition in_empty_new : text := points "count([x | x := " ++ EMPTY_ARRAY ++ points "[_]; x == ".

(** The shape [intent_compiler_in_empty]: a labelled entry whose label ends in " in []"; the first such
    comprehension after the label is rewritten. *)
Definition in_empty (line : text) : option text :=
  if negb (tstarts [9; 9; 34] line) then None
  else
    let r := drop 3 line in
    let label := take_while (fun c => negb (c =? 34)) r in
    let r := drop_while (fun c => negb (c =? 34)) r in
    if negb (tstarts (reverse (points " in []")) (reverse label)) || negb (tstarts [34; 58; 32] r) then None
    else
      i ← tindex in_empty_old (drop 3 r);
      Some ([9; 9; 34] ++ label ++ [34; 58; 32] ++ take i (drop 3 r) ++ in_empty_new
            ++ drop (i + length in_empty_old) (drop 3 r)).

(** What a shape does to one line: replace it as a whole, or the comprehension inside it. *)
Inductive LineRule : Type := Whole (pairs : list (text * text)) | InEmpty.

Definition line_rewrite (r : LineRule) (line : text) : option text :=
  match r with Whole pairs => whole_line pairs line | InEmpty => in_empty line end.

(** A shape: its name, the header of its generator, and its line. *)
Record LegacyShape := mkShape { shape_name : string; marker : text; shape_line : LineRule }.

Definition never (s : string) : text := points s ++ points "[id] { false; id := " ++ [34] ++ points "__never__" ++ [34] ++ points " }".
Definition unused (s : string) : text * text := (points s ++ points "[id] { id := [][_] }", never s).
Definition braces (s : string) : text * text := (points s ++ points "{}", points s ++ EMPTY_OBJECT).

Definition LEGACY_SHAPES : list LegacyShape :=
  [ mkShape "builder_unused_decision_set" (points "# nrvq-builder-graph/v1: ")
      (Whole [unused "blocks"; unused "escalates"; unused "audits"]);
    mkShape "intent_allowlist_empty" (points "package norviq.intent.")
      (Whole [braces "allow_names := "; braces "allow_skeletons := "]);
    mkShape "capability_tools_empty" (points "package norviq.remediation.capability.")
      (Whole [braces "cap_tools := "]);
    mkShape "mcp_registry_empty" (points "# nrvq-mcp-registry/v1: ")
      (Whole [braces "registered_servers = "; braces "writable_servers = "]);
    mkShape "egress_exact_empty" (points "# nrvq-egress-allowlist/v1: ")
      (Whole [braces "allowed_exact = "]);
    mkShape "egress_suffix_empty" (points "# nrvq-egress-allowlist/v1: ")
      (Whole [(points "allowed_suffix = []", points "allowed_suffix = " ++ EMPTY_ARRAY)]);
    mkShape "intent_compiler_in_empty" (points "# nrvq:intent-tools ") InEmpty;
    mkShape "composer_keywords_empty" (points "# GENERATED by the New Policy composer ")
      (Whole [(points "composer_keywords := set()", points "composer_keywords := " ++ EMPTY_SET)]) ].

(** [_code_lines]: the scan of one line as an automaton.  [Comment] is the [break] at a [#], [Escaped] the
    character skipped after a backslash. *)
Inductive Lex : Type := Code | Comment | Quoted | Escaped | Raw.

(** The state after a character, and whether a raw string was opened. *)
Definition lex_step (s : Lex * bool) (c : Z) : Lex * bool :=
  let '(st, opened) := s in
  match st with
  | Code => if c =? 35 then (Comment, opened) else if c =? 34 then (Quoted, opened)
            else if c =? 96 then (Raw, true) else s
  | Comment => s
  | Quoted => if c =? 92 then (Escaped, opened) else if c =? 34 then (Code, opened) else s
  | Escaped => (Quoted, opened)
  | Raw => if c =? 96 then (Code, opened) else s
  end.

Definition scan_line (raw : bool) (line : text) : Lex * bool := foldl lex_step (if raw then Raw else Code, raw) line.
(** Only an open raw string reaches the next line. *)
Definition still_raw (st : Lex) : bool := match st with Raw => true | _ => false end.

Fixpoint code_from (raw : bool) (lines : list text) : list bool :=
  match lines with
  | [] => []
  | l :: ls => let '(st, not_code) := scan_line raw l in negb not_code :: code_from (still_raw st) ls
  end.
Definition code_lines (lines : list text) : list bool := code_from false lines.

(** [shape.line.subn] on the code lines, with whether something was rewritten. *)
Fixpoint rewrite_lines (f : text -> option text) (lines : list text) (code : list bool) : list text * bool :=
  match lines, code with
  | l :: ls, is_code :: cs =>
      let '(ls', n) := rewrite_lines f ls cs in
      match (if is_code then f l else None) with
      | Some l' => (l' :: ls', true)
      | None => (l :: ls', n)
      end
  | _, _ => (lines, false)
  end.

Definition has_marker (m : text) (lines : list text) (code : list bool) : bool :=
  existsb (fun p => p.2 && tstarts m p.1) (zip lines code).

Fixpoint apply_shapes (shapes : list LegacyShape) (lines : list text) (code : list bool) : list text * list string :=
  match shapes with
  | [] => (lines, [])
  | s :: ss =>
      if has_marker (marker s) lines code then
        let '(lines', n) := rewrite_lines (line_rewrite (shape_line s)) lines code in
        let '(lines'', names) := apply_shapes ss lines' code in
        (lines'', (if n : bool then [shape_name s] else []) ++ names)
      else apply_shapes ss lines code
  end.

(** [upgrade_legacy]. *)
Definition upgrade_legacy (rego : text) : text * list string :=
  let lines := split_on 10 rego in
  let '(lines', applied) := apply_shapes LEGACY_SHAPES lines (code_lines lines) in
  match applied with
  | [] => (rego, [])
  | _ => (join [10] lines', applied)
  end.

(** What OPA is given for a key: [rewrite_package(self._opa_source(key, rego), managed_package(key))]. *)
Definition compile_source (digest8 : text -> text) (key rego : text) : text :=
  rewrite_package (upgrade_legacy rego).1 (managed_package digest8 key).

(** ** Identifiers *)

Lemma sanitize_word b t : Forall (fun c => is_word c = true) (sanitize b t).
Proof.
  revert b. induction t as [|c t IH]; intros b; simpl; [constructor|].
  destruct (is_alnum c) eqn:A; [|destruct b; [apply IH|]]; constructor; auto. unfold is_word. by rewrite A.
Qed.

Lemma cleaned_word key : Forall (fun c => is_word c = true) (cleaned key) /\ cleaned key <> [].
Proof.
  unfold cleaned. pose proof (strip_occurs (fun c => c =? 95) (sanitize false key)) as O.
  destruct (strip_of _ _) as [|c t]; [split; [by repeat constructor|done]|]. split; [|done].
  pose proof (sanitize_word false key) as F. rewrite Forall_forall in F |- *. intros x Hx. apply F. by eapply occurs_elem.
Qed.

(** identifiers of modules.  Whatever a policy's key is, its identifier has only letters, digits and
    underscores; and two keys share one only if their digests agree, so distinct policies never merge in
    OPA unless the digest collides. *)
Theorem sanitize_key_separates digest8 k1 k2 :
  (forall k, length (digest8 k) = 8%nat /\ Forall (fun c => is_word c = true) (digest8 k)) ->
  Forall (fun c => is_word c = true) (sanitize_key digest8 k1) /\
  (sanitize_key digest8 k1 = sanitize_key digest8 k2 -> digest8 k1 = digest8 k2 /\ cleaned k1 = cleaned k2).
Proof.
  intros D. unfold sanitize_key. split.
  - rewrite !Forall_app. split_and!; [apply cleaned_word|by repeat constructor|apply D].
  - intros E. rewrite !app_assoc in E. apply app_inj_2 in E as [E ->]; [|by rewrite !(proj1 (D _))].
    apply app_inj_2 in E as [-> _]; done.
Qed.

Lemma sanitize_key_separates_witness :
  let digest8 := fun k : text => take 8 (filter (fun c => is_word c = true) k ++ points "00000000") in
  sanitize_key digest8 (points "a:b_c") <> sanitize_key digest8 (points "a_b:c").
Proof.
  intros digest8 E.
  destruct (sanitize_key_separates digest8 (points "a:b_c") (points "a_b:c")) as [_ S].
  - intros k. split.
    + unfold digest8. rewrite length_take, length_app. change (length (points "00000000")) with 8%nat. lia.
    + unfold digest8. apply Forall_take, Forall_app. split; [|by repeat constructor].
      apply Forall_forall. intros c Hc. by apply list_elem_of_filter in Hc as [Hc _].
  - destruct (S E) as [X _]. vm_compute in X. congruence.
Defined.

(** a key that starts with a digit.  Its identifier, and so a segment of its package path, starts with
    that digit, which is no Rego identifier. *)
Theorem sanitize_digit_start digest8 c key :
  is_num c = true -> exists u, sanitize_key digest8 (c :: key) = c :: u.
Proof.
  intros D. unfold sanitize_key, cleaned. assert (A : is_alnum c = true) by (unfold is_alnum; by rewrite D, orb_true_r).
  cbn [sanitize]. rewrite A. destruct (strip_of_split (fun c => c =? 95) (c :: sanitize false key)) as (a & b & E & Fa & Fb).
  assert (Nc : (c =? 95) = false).
  { unfold is_num in D. bool_prop. apply Z.eqb_neq. lia. }
  destruct a as [|x a]; [|injection E as <- _; inversion Fa; simpl in *; congruence].
  destruct (strip_of _ _) as [|x u]; [|injection E as <- _; by eexists].
  simpl in E. rewrite <- E in Fb. inversion Fb. simpl in *. congruence.
Qed.

Lemma sanitize_digit_start_witness : exists u, sanitize_key (fun _ => points "00000000") (points "9lives:bot") = 57 :: u.
Proof. apply (sanitize_digit_start (fun _ => points "00000000") 57 (points "lives:bot")). reflexivity. Defined.

(** ** The package header *)

(** The scan stops inside a text that has a character that fails the test. *)
Lemma while_stop p s t :
  Exists (fun c => p c = false) s -> take_while p (s ++ t) = take_while p s /\ drop_while p (s ++ t) = drop_while p s ++ t.
Proof.
  induction s as [|c s IH]; intros E; [by apply Exists_nil in E|]. simpl. destruct (p c) eqn:Pc; [|done].
  apply Exists_cons in E as [E|E]; [congruence|]. by destruct (IH E) as [-> ->].
Qed.

Lemma all_or_stop p (s : text) : Forall (fun c => p c = true) s \/ Exists (fun c => p c = false) s.
Proof.
  induction s as [|c s [IH|IH]]; [by left; constructor|..]; destruct (p c) eqn:Pc;
    [left; by constructor|right; by left|right; by right|right; by left].
Qed.

Lemma from_last_newline_elem w : 10 ∈ w -> is_Some (from_last_newline w).
Proof.
  intros H. unfold from_last_newline. destruct (drop_while _ (reverse w)) eqn:D; [|by eexists]. exfalso.
  destruct (drop_while_suffix (fun c => negb (c =? 10)) (reverse w)) as (a & E & F). rewrite D, app_nil_r in E.
  rewrite <- E, Forall_reverse, Forall_forall in F. by specialize (F 10 H).
Qed.

Lemma from_last_newline_head w r : from_last_newline w = Some r -> exists u, r = 10 :: u.
Proof. unfold from_last_newline. destruct (drop_while _ _); [done|]. intros [= <-]. eauto. Qed.

(** What follows a match is nothing, or starts with a newline. *)
Lemma match_header_rest t name rest : match_header t = Some (name, rest) -> rest = [] \/ exists u, rest = 10 :: u.
Proof.
  unfold match_header, match_name. destruct (tstarts _ _); [|done]. destruct (take_while _ _); [done|].
  destruct (take_while is_pkg _); [done|]. destruct (drop_while is_white _) as [|c u]; [intros [= _ <-]; by left|].
  destruct (from_last_newline _) as [r|] eqn:F; [|done]. intros [= _ <-]. right.
  apply from_last_newline_head in F as [v ->]. by exists (v ++ c :: u).
Qed.

Lemma pkg_not_white c : is_pkg c = true -> is_white c = false.
Proof.
  unfold is_pkg, is_word, is_alnum, is_upper, is_lower, is_num, is_white.
  rewrite !orb_true_iff, !andb_true_iff, !Z.leb_le, !Z.eqb_eq, !orb_false_iff, !andb_false_iff, !Z.leb_gt, !Z.eqb_neq. lia.
Qed.

(** A header the rewrite wrote is matched, with its name. *)
Lemma match_fresh name rest :
  name <> [] -> Forall (fun c => is_pkg c = true) name -> rest = [] \/ (exists u, rest = 10 :: u) ->
  exists rest', match_header (points "package " ++ name ++ rest) = Some (name, rest').
Proof.
  intros N F R. unfold match_header. cbv zeta.
  change (drop_while is_white (points "package " ++ name ++ rest)) with (points "package" ++ [32] ++ name ++ rest).
  rewrite tstarts_app, (drop_app_length' (points "package")) by done. unfold match_name.
  destruct name as [|c name]; [done|]. inversion_clear F as [|? ? Hc Hn].
  change (take_while is_white ([32] ++ (c :: name) ++ rest)) with (32 :: take_while is_white (c :: name ++ rest)).
  change (drop_while is_white ([32] ++ (c :: name) ++ rest)) with (drop_while is_white (c :: name ++ rest)).
  rewrite drop_while_stop by (by apply pkg_not_white). change (c :: name ++ rest) with ((c :: name) ++ rest).
  destruct (while_app is_pkg (c :: name) rest) as [-> ->]; [by constructor|].
  assert (T : take_while is_pkg rest = [] /\ drop_while is_pkg rest = rest) by (by destruct R as [->|[u ->]]).
  destruct T as [-> ->]. rewrite app_nil_r. destruct R as [->|[u ->]]; [by eexists|].
  destruct (drop_while is_white (10 :: u)) eqn:D; [by eexists|].
  destruct (from_last_newline_elem (take_while is_white (10 :: u))) as [r ->]; [by left|]. by eexists.
Qed.

Lemma ends_newline (v : text) p : v <> [] -> p 10 = false -> last v = Some 10 -> Exists (fun c => p c = false) v.
Proof.
  intros N P L. destruct (exists_last N) as (u & z & ->). rewrite last_snoc in L. injection L as ->.
  apply Exists_app. right. by left.
Qed.

Lemma drop_while_last p v : Exists (fun c => p c = false) v -> drop_while p v <> [] /\ last (drop_while p v) = last v.
Proof.
  intros E. destruct (drop_while_suffix p v) as (a & Ev & F). destruct (drop_while p v) as [|c u] eqn:D.
  - exfalso. rewrite app_nil_r in Ev. subst a. rewrite Forall_forall in F. apply Exists_exists in E as (x & Hx & Px).
    rewrite F in Px by done. done.
  - split; [done|]. rewrite Ev. by rewrite last_app_cons.
Qed.

(** A header that fails to match before another one still fails when the other is replaced. *)
Lemma match_name_replaced y m name rest :
  y <> [] -> last y = Some 10 -> tstarts (points "package") (drop_while is_white m) = true -> name <> [] ->
  Forall (fun c => is_pkg c = true) name ->
  match_name (y ++ m) = None -> match_name (y ++ points "package " ++ name ++ rest) = None.
Proof.
  intros Ny Ly Hm Nn Fn. unfold match_name.
  destruct y as [|y0 y]; [done|]. destruct (is_white y0) eqn:W0.
  2:{ cbn [app take_while]. rewrite W0. done. }
  assert (T : forall x, exists k, take_while is_white ((y0 :: y) ++ x) = y0 :: k) by (intros x; simpl; rewrite W0; eauto).
  destruct (T m) as [k1 ->], (T (points "package " ++ name ++ rest)) as [k2 ->].
  destruct (all_or_stop is_white (y0 :: y)) as [A|E].
  - intros _. rewrite (proj2 (while_app is_white _ (points "package " ++ name ++ rest) A)).
    change (drop_while is_white (points "package " ++ name ++ rest)) with (points "package" ++ [32] ++ name ++ rest).
    destruct (while_app is_pkg (points "package") ([32] ++ name ++ rest)) as [-> ->]; [by repeat constructor|].
    change (take_while is_pkg ([32] ++ name ++ rest)) with (@nil Z).
    change (drop_while is_pkg ([32] ++ name ++ rest)) with ([32] ++ name ++ rest).
    cbn [points app]. cbn [drop_while take_while]. change (is_white 32) with true. cbv iota.
    destruct name as [|c name]; [done|]. inversion_clear Fn as [|? ? Hc _]. apply pkg_not_white in Hc.
    cbn [app drop_while take_while]. by rewrite Hc.
  - destruct (while_stop is_white _ m E) as [_ ->], (while_stop is_white _ (points "package " ++ name ++ rest) E) as [_ ->].
    destruct (drop_while_last is_white _ E) as [Nz Lz]. rewrite Ly in Lz.
    set (z := drop_while is_white (y0 :: y)) in *.
    assert (Ez : Exists (fun c => is_pkg c = false) z) by (by apply ends_newline).
    destruct (while_stop is_pkg _ m Ez) as [-> ->], (while_stop is_pkg _ (points "package " ++ name ++ rest) Ez) as [-> ->].
    destruct (take_while is_pkg z); [done|]. destruct (drop_while_last is_pkg _ Ez) as [Nv Lv]. rewrite Lz in Lv.
    set (v := drop_while is_pkg z) in *. destruct (all_or_stop is_white v) as [Av|Ev].
    + intros X. exfalso. destruct (while_app is_white v m Av) as [Tv Dv]. rewrite Tv, Dv in X.
      destruct (drop_while is_white m); [done|].
      destruct (from_last_newline_elem (v ++ take_while is_white m)) as [r Hr]; [|by rewrite Hr in X].
      apply elem_of_app. left. destruct (exists_last Nv) as (u & x & ->). rewrite last_snoc in Lv. injection Lv as ->.
      apply elem_of_app. right. by left.
    + destruct (while_stop is_white v m Ev) as [-> ->], (while_stop is_white v (points "package " ++ name ++ rest) Ev) as [-> ->].
      destruct (drop_while_last is_white _ Ev) as [Nu _]. destruct (drop_while is_white v) as [|c u]; [done|]. cbn [app].
      by destruct (from_last_newline _).
Qed.

Lemma match_header_replaced u m name rest n0 r0 :
  u <> [] -> last u = Some 10 -> match_header m = Some (n0, r0) -> name <> [] -> Forall (fun c => is_pkg c = true) name ->
  match_header (u ++ m) = None -> match_header (u ++ points "package " ++ name ++ rest) = None.
Proof.
  intros Nu Lu Hm Nn Fn. unfold match_header in *. cbv zeta in *.
  assert (Pm : tstarts (points "package") (drop_while is_white m) = true) by (by destruct (tstarts _ _)).
  destruct (all_or_stop is_white u) as [A|E].
  { rewrite (proj2 (while_app is_white u m A)), Hm. done. }
  destruct (while_stop is_white u m E) as [_ ->], (while_stop is_white u (points "package " ++ name ++ rest) E) as [_ ->].
  destruct (drop_while_last is_white u E) as [Nv Lv]. rewrite Lu in Lv. set (v := drop_while is_white u) in *.
  assert (V : forall x, tstarts (points "package") (v ++ x) = true -> exists y, v = points "package" ++ y /\ y <> [] /\ last y = Some 10).
  { intros x (r & Er)%tstarts_iff. apply app_eq_app in Er as (l & [[-> _]|[El _]]).
    - exists l. split; [done|]. destruct l as [|c l]; [by rewrite app_nil_r in Lv|]. split; [done|]. by rewrite last_app_cons in Lv.
    - exfalso. assert (In : 10 ∈ points "package").
      { rewrite El. apply elem_of_app. left. destruct (exists_last Nv) as (w & z & E'). rewrite E' in Lv |- *.
        rewrite last_snoc in Lv. injection Lv as ->. apply elem_of_app. right. by left. }
      revert In. apply (bool_decide_unpack (10 ∉ points "package")). by vm_compute. }
  destruct (tstarts (points "package") (v ++ points "package " ++ name ++ rest)) eqn:P; [|done].
  destruct (V _ P) as (y & -> & Ny & Ly). rewrite <- !app_assoc in *. rewrite tstarts_app.
  rewrite !(drop_app_length' (points "package")) by done. by apply match_name_replaced.
Qed.

Lemma search_header_hit t name rest : match_header t = Some (name, rest) -> search_header true t = Some ([], name, rest).
Proof. intros M. destruct t; cbn [search_header]; by rewrite M. Qed.

(** The text that was found, and what stands before it. *)
Lemma search_header_split b t a name rest :
  search_header b t = Some (a, name, rest) ->
  exists m, t = a ++ m /\ match_header m = Some (name, rest) /\ (a = [] -> b = true) /\ (a <> [] -> last a = Some 10).
Proof.
  revert b a. induction t as [|c t IH]; intros b a; cbn [search_header].
  - destruct b; [|done]. destruct (match_header []) as [[n r]|] eqn:M; [|done]. intros [= <- <- <-]. by exists [].
  - destruct (if b then match_header (c :: t) else None) as [[n r]|] eqn:M.
    + intros [= <- <- <-]. destruct b; [|done]. by exists (c :: t).
    + destruct (search_header (c =? 10) t) as [[[a' n'] r']|] eqn:S; [|done]. simpl. intros [= <- -> ->].
      destruct (IH _ _ S) as (m & -> & Hm & H1 & H2). exists m. split_and!; [done|done|done|]. intros _.
      destruct a' as [|x a']; [by apply Z.eqb_eq in H1 as ->|]. by apply H2.
Qed.

Lemma search_header_replaced b t a name rest new :
  search_header b t = Some (a, name, rest) -> new <> [] -> Forall (fun c => is_pkg c = true) new ->
  exists rest', search_header b (a ++ points "package " ++ new ++ rest) = Some (a, new, rest').
Proof.
  intros S Nn Fn. destruct (search_header_split _ _ _ _ _ S) as (m & -> & Hm & _ & _).
  pose proof (match_header_rest _ _ _ Hm) as Hr. revert b S. induction a as [|c a IH]; intros b S.
  - destruct (search_header_split _ _ _ _ _ S) as (_ & _ & _ & Hb & _). rewrite (Hb eq_refl).
    destruct (match_fresh new rest Nn Fn Hr) as [rest' R]. exists rest'. by apply search_header_hit.
  - destruct (search_header_split _ _ _ _ _ S) as (m' & Em & _ & _ & L).
    cbn [app search_header] in S |- *.
    destruct (if b then match_header (c :: a ++ m) else None) as [[n r]|] eqn:M; [by injection S|].
    destruct (search_header (c =? 10) (a ++ m)) as [[[a' n'] r']|] eqn:S'; [|done]. simpl in S. injection S as -> -> ->.
    destruct (IH _ S') as [rest' R]. exists rest'.
    assert (M' : (if b then match_header (c :: a ++ points "package " ++ new ++ rest) else None) = None).
    { destruct b; [|done]. apply (match_header_replaced (c :: a) m new rest name rest); [done|by apply L|done..]. }
    rewrite M', R. done.
Qed.

(** a pushed module lives in its own package.  Whatever text a policy has, the header that [_PACKAGE_RE]
    finds in what is pushed for a key names the managed package of that key. *)
Theorem pushed_package_is_managed digest8 key rego :
  (forall k, Forall (fun c => is_word c = true) (digest8 k)) ->
  extract_package_name (compile_source digest8 key rego) = Some (managed_package digest8 key).
Proof.
  intros D. unfold compile_source. generalize (upgrade_legacy rego).1. intros src. set (name := managed_package digest8 key).
  assert (Nn : name <> []) by done.
  assert (Fn : Forall (fun c => is_pkg c = true) name).
  { unfold name, managed_package, sanitize_key. rewrite !Forall_app. split_and!; [by repeat constructor|..];
      try (by repeat constructor); eapply Forall_impl; [apply cleaned_word| |apply D|]; intros c Hc; unfold is_pkg; by rewrite Hc. }
  assert (St : tstrip name = name).
  { rewrite Forall_forall in Fn. apply strip_of_id; [done|]. destruct (last name) as [c|] eqn:L; [|done].
    apply pkg_not_white, Fn, last_Some_elem_of, L. }
  unfold extract_package_name, rewrite_package. destruct (search_header true src) as [[[a n] rest]|] eqn:S.
  - destruct (search_header_replaced _ _ _ _ _ name S Nn Fn) as [rest' ->]. cbn [mbind option_bind]. by rewrite St.
  - destruct (match_fresh name (10 :: src)) as [rest' R]; [done|done|by right; eexists|].
    cbn [app]. rewrite (search_header_hit _ _ _ R). cbn [mbind option_bind]. by rewrite St.
Qed.

Lemma pushed_package_is_managed_witness :
  extract_package_name (compile_source (fun _ => points "00000000") (points "prod:bot") (points "package a.b
decision = 1"))
  = Some (points "norviq.managed.prod_bot_00000000").
Proof.
  apply (pushed_package_is_managed (fun _ => points "00000000") (points "prod:bot") (points "package a.b
decision = 1")). intros k. by repeat constructor.
Defined.

(** a header the pattern does not read is not replaced.  With a comment behind its package, a policy keeps
    that package when a later line, here inside a raw string, looks like a header: the module is pushed
    into the package its author chose. *)
Theorem commented_header_survives digest8 key :
  exists rest, compile_source digest8 key (points "package norviq.managed.other # mine
x := `
package y
`
") = points "package norviq.managed.other # mine" ++ 10 :: rest.
Proof. unfold compile_source. eexists. vm_compute (upgrade_legacy _). unfold rewrite_package. vm_compute (search_header _ _). reflexivity. Qed.

(** ** Upgrading *)

(** What is checked by computation of the whole-line shapes. *)
Definition pair_ok (p : text * text) : Prop :=
  forall cr, cr = [] \/ cr = [13] ->
    scan_line false (p.1 ++ cr) = scan_line false (p.2 ++ cr) /\
    Forall (fun s => tstarts (marker s) (p.1 ++ cr) = false /\ tstarts (marker s) (p.2 ++ cr) = false /\
                     line_rewrite (shape_line s) (p.2 ++ cr) = None) LEGACY_SHAPES /\
    10 ∉ p.2 ++ cr.

Definition pairs_of (s : LegacyShape) : list (text * text) := match shape_line s with Whole ps => ps | InEmpty => [] end.

Lemma shapes_ok : Forall (fun s => Forall pair_ok (pairs_of s) /\ Forall (fun p => head p.1 <> Some 9) (pairs_of s)) LEGACY_SHAPES.
Proof.
  unfold LEGACY_SHAPES at 1.
  repeat (apply List.Forall_cons || apply List.Forall_nil);
    (split; unfold pairs_of; cbn [shape_line]; repeat (apply List.Forall_cons || apply List.Forall_nil));
    lazymatch goal with
    | |- pair_ok _ =>
        intros cr [->| ->]; (split; [vm_compute; reflexivity|]);
          (split; [repeat constructor; vm_compute; reflexivity|apply (bool_decide_unpack (10 ∉ _)); vm_compute; exact I])
    | |- _ => done
    end.
Qed.

Lemma whole_line_Some pairs line line' :
  whole_line pairs line = Some line' ->
  exists p cr, p ∈ pairs /\ (cr = [] \/ cr = [13]) /\ line = p.1 ++ cr /\ line' = p.2 ++ cr.
Proof.
  induction pairs as [|[old new] ps IH]; [done|]. cbn [whole_line]. case_bool_decide as E1.
  { intros [= <-]. exists (old, new), []. rewrite !app_nil_r. split_and!; [by left|by left|done|done]. }
  case_bool_decide as E2.
  { intros [= <-]. exists (old, new), [13]. split_and!; [by left|by right|done|done]. }
  intros H. destruct (IH H) as (p & cr & Hp & R). exists p, cr. split; [by right|done].
Qed.

Lemma whole_line_tab pairs t : Forall (fun p : text * text => head p.1 <> Some 9) pairs -> whole_line pairs (9 :: t) = None.
Proof.
  induction 1 as [|[old new] ps H _ IH]; [done|]. cbn [whole_line]. simpl in H.
  rewrite !bool_decide_eq_false_2; [done|..]; intros E; destruct old; simplify_eq/=; done.
Qed.

(** What the rewrite inside a line does. *)
Lemma in_empty_Some line line' :
  in_empty line = Some line' ->
  exists a b, line = 9 :: a ++ in_empty_old ++ b /\ line' = 9 :: a ++ in_empty_new ++ b.
Proof.
  unfold in_empty. destruct (tstarts [9; 9; 34] line) eqn:T1; [|done]. cbn [negb].
  apply tstarts_iff in T1 as [r ->]. change (drop 3 ([9; 9; 34] ++ r)) with r. cbv zeta.
  set (label := take_while (fun c => negb (c =? 34)) r). set (r' := drop_while (fun c => negb (c =? 34)) r).
  assert (Er : r = label ++ r') by (symmetry; apply take_drop_while). clearbody label r'. subst r.
  destruct (_ || _) eqn:T2; [done|]. apply orb_false_iff in T2 as [_ T2]. apply negb_false_iff, tstarts_iff in T2 as [r2 ->].
  change (drop 3 ([34; 58; 32] ++ r2)) with r2. destruct (tindex in_empty_old r2) as [i|] eqn:I; [|done]. simpl.
  intros [= <-]. destruct (tindex_Some _ _ _ I) as (b & E & L).
  assert (D : drop (i + length in_empty_old) r2 = b).
  { rewrite E at 1. rewrite app_assoc. apply drop_app_length'. rewrite length_app, length_take. lia. }
  change (drop (i + 28) r2) with (drop (i + length in_empty_old) r2). rewrite D.
  exists ([9; 34] ++ label ++ [34; 58; 32] ++ take i r2), b. split.
  - rewrite E at 1. simpl. by rewrite <- !app_assoc.
  - simpl. by rewrite <- !app_assoc.
Qed.

(** The typed literal leaves the lexical state as it was. *)
Lemma in_empty_scan a b raw : scan_line raw (9 :: a ++ in_empty_new ++ b) = scan_line raw (9 :: a ++ in_empty_old ++ b).
Proof.
  unfold scan_line. change (9 :: a ++ in_empty_new ++ b) with ((9 :: a) ++ in_empty_new ++ b).
  change (9 :: a ++ in_empty_old ++ b) with ((9 :: a) ++ in_empty_old ++ b). rewrite !foldl_app.
  destruct (foldl lex_step (if raw then Raw else Code, raw) (9 :: a)) as [st op]. f_equal. by destruct st; vm_compute.
Qed.

(** A text holds a pattern at most once. *)
Definition at_most_once (sub t : text) : Prop := forall a b, t = a ++ sub ++ b -> ~ occurs sub b.

Lemma old_parts : in_empty_old = 99 :: tail in_empty_old /\ 99 ∉ tail in_empty_old /\
  in_empty_new = 99 :: tail in_empty_new /\ 99 ∉ tail in_empty_new /\ ~ occurs in_empty_old in_empty_new.
Proof.
  split_and!; [done| |done| |apply tindex_None; by vm_compute].
  - apply (bool_decide_unpack (99 ∉ tail in_empty_old)). by vm_compute.
  - apply (bool_decide_unpack (99 ∉ tail in_empty_new)). by vm_compute.
Qed.

(** The pattern starts with its only "c", so no occurrence of it crosses into or out of the typed form. *)
Lemma old_gone a b :
  ~ occurs in_empty_old a -> ~ occurs in_empty_old b -> ~ occurs in_empty_old (a ++ in_empty_new ++ b).
Proof.
  destruct old_parts as (Eo & No & En & Nn & Nx). intros Na Nb H.
  apply occurs_app_inv in H as [H|[H|(x & y & Nx' & Ny & E & _ & [r Er])]]; [done| |].
  - apply occurs_app_inv in H as [H|[H|(x & y & Nx' & Ny & E & [r Er] & _)]]; [done|done|].
    assert (Hd : exists x', x = 99 :: x') by (destruct x as [|c x]; [done|]; rewrite Eo in E; injection E as <- _; eauto).
    destruct Hd as [x' ->]. destruct r as [|d r].
    + simpl in Er. rewrite <- Er in E. apply (f_equal length) in E. rewrite length_app in E.
      change (length in_empty_old) with 28%nat in E. change (length in_empty_new) with 46%nat in E. lia.
    + apply Nn. rewrite Er. simpl. rewrite elem_of_app. right. by left.
  - apply No. assert (Hd : exists y', y = 99 :: y').
    { destruct y as [|d y]; [done|]. rewrite En in Er. injection Er as <- _. eauto. }
    destruct Hd as [y' ->]. rewrite E. destruct x as [|c x]; [done|]. simpl. rewrite elem_of_app. right. by left.
Qed.

(** Once rewritten, a line that held the comprehension once is not rewritten again. *)
Lemma in_empty_done line line' : at_most_once in_empty_old line -> in_empty line = Some line' -> in_empty line' = None.
Proof.
  intros Once H. unfold in_empty in H.
  destruct (tstarts [9; 9; 34] line) eqn:T1; [|done]. cbn [negb] in H.
  apply tstarts_iff in T1 as [r ->]. change (drop 3 ([9; 9; 34] ++ r)) with r in H. cbv zeta in H.
  destruct (drop_while_suffix (fun c => negb (c =? 34)) r) as (lb & Er & Fl).
  destruct (_ || _) eqn:T2 in H; [done|]. apply orb_false_iff in T2 as [T2 T3]. apply negb_false_iff, tstarts_iff in T3 as [r2 E2].
  assert (El : take_while (fun c => negb (c =? 34)) r = lb).
  { rewrite Er. rewrite E2. destruct (while_app (fun c => negb (c =? 34)) lb ([34; 58; 32] ++ r2) Fl) as [-> _].
    simpl. by rewrite app_nil_r. }
  rewrite El, E2 in H. change (drop 3 ([34; 58; 32] ++ r2)) with r2 in H.
  destruct (tindex in_empty_old r2) as [i|] eqn:I; [|done]. cbn [mbind option_bind] in H.
  assert (H' : [9; 9; 34] ++ lb ++ [34; 58; 32] ++ take i r2 ++ in_empty_new ++ drop (i + length in_empty_old) r2 = line')
    by (by injection H). clear H. subst line'.
  destruct (tindex_Some _ _ _ I) as (b & E & L).
  assert (D : drop (i + length in_empty_old) r2 = b).
  { rewrite E at 1. rewrite app_assoc. apply drop_app_length'. rewrite length_app, length_take. lia. }
  rewrite D. assert (Nb : ~ occurs in_empty_old b).
  { apply (Once ([9; 9; 34] ++ lb ++ [34; 58; 32] ++ take i r2)). rewrite Er, E2. rewrite E at 1. by rewrite <- !app_assoc. }
  assert (Na : ~ occurs in_empty_old (take i r2)) by (by apply tindex_first).
  cbn [app]. unfold in_empty. change (tstarts [9; 9; 34] (9 :: 9 :: 34 :: lb ++ 34 :: 58 :: 32 :: take i r2 ++ in_empty_new ++ b)) with true.
  cbn [negb]. cbv zeta.
  destruct (while_app (fun c => negb (c =? 34)) lb (34 :: 58 :: 32 :: take i r2 ++ in_empty_new ++ b) Fl) as [T4 D4].
  change (drop 3 (9 :: 9 :: 34 :: lb ++ 34 :: 58 :: 32 :: take i r2 ++ in_empty_new ++ b))
    with (lb ++ 34 :: 58 :: 32 :: take i r2 ++ in_empty_new ++ b).
  rewrite T4, D4. cbn [take_while drop_while negb Z.eqb Pos.eqb]. rewrite app_nil_r.
  destruct (_ || _); [done|]. change (drop 3 (34 :: 58 :: 32 :: take i r2 ++ in_empty_new ++ b)) with (take i r2 ++ in_empty_new ++ b).
  rewrite (proj2 (tindex_None in_empty_old _)); [done|]. by apply old_gone.
Qed.

(** One rewrite of one line by one of the shapes. *)
Definition rewritten (l l' : text) : Prop := exists s, s ∈ LEGACY_SHAPES /\ line_rewrite (shape_line s) l = Some l'.

(** What no rewrite changes: the lexical scan, and that the line is no generator's header. *)
Lemma rewritten_keeps l l' :
  rewritten l l' ->
  scan_line false l' = scan_line false l /\ (10 ∉ l -> 10 ∉ l') /\
  Forall (fun s => tstarts (marker s) l = false /\ tstarts (marker s) l' = false) LEGACY_SHAPES.
Proof.
  intros (s & Hs & R). pose proof shapes_ok as Ok. rewrite Forall_forall in Ok. destruct (Ok s Hs) as [P _].
  unfold pairs_of in P. destruct (shape_line s) as [pairs|]; simpl in R.
  - apply whole_line_Some in R as (p & cr & Hp & Hcr & -> & ->). rewrite Forall_forall in P.
    destruct (P p Hp cr Hcr) as (-> & F & N). split_and!; [done|done|]. eapply Forall_impl; [exact F|]. by intros s' (? & ? & _).
  - apply in_empty_Some in R as (a & b & -> & ->). split_and!; [apply in_empty_scan| |].
    + intros N H. apply N. rewrite !elem_of_cons, !elem_of_app in *. destruct H as [|[|[H|]]]; auto. exfalso.
      revert H. apply (bool_decide_unpack (10 ∉ in_empty_new)). by vm_compute.
    + by repeat constructor.
Qed.

(** A line no shape rewrites. *)
Definition inert (l : text) : Prop := Forall (fun s => line_rewrite (shape_line s) l = None) LEGACY_SHAPES.

Lemma rewritten_inert l l' : at_most_once in_empty_old l -> rewritten l l' -> inert l'.
Proof.
  intros Once (s & Hs & R). pose proof shapes_ok as Ok. rewrite Forall_forall in Ok. destruct (Ok s Hs) as [P _].
  unfold pairs_of in P. destruct (shape_line s) as [pairs|] eqn:L; simpl in R.
  - apply whole_line_Some in R as (p & cr & Hp & Hcr & -> & ->). rewrite Forall_forall in P.
    destruct (P p Hp cr Hcr) as (_ & F & _). eapply Forall_impl; [exact F|]. by intros s' (_ & _ & ?).
  - pose proof (in_empty_done _ _ Once R) as D. apply in_empty_Some in R as (a & b & -> & ->).
    apply Forall_forall. intros s' Hs'. destruct (Ok s' Hs') as [_ T]. unfold pairs_of in T.
    destruct (shape_line s') as [ps|]; [by apply whole_line_tab|done].
Qed.

(** ** Passes over the lines *)

(** The lines before and after some passes: only code lines change, by rewrites. *)
Definition passes (code : list bool) (ls ls' : list text) : Prop :=
  Forall3 (fun l c l' => l' = l \/ (c = true /\ rtc rewritten l l')) ls code ls'.

Lemma passes_refl code ls : length code = length ls -> passes code ls ls.
Proof.
  revert code. induction ls as [|l ls IH]; intros [|c code] L; try done; constructor; [by left|]. apply IH. by injection L.
Qed.

Lemma passes_trans code l1 l2 l3 : passes code l1 l2 -> passes code l2 l3 -> passes code l1 l3.
Proof.
  intros P. revert l3. induction P as [|x c y l1 code l2 H P IH]; intros l3 Q; inversion_clear Q as [|? ? z ? ? ? H' Q']; [constructor|].
  constructor; [|by apply IH]. destruct H as [->|[-> R]]; [done|]. right. split; [done|].
  destruct H' as [->|[_ R']]; [done|]. by transitivity y.
Qed.

Lemma rewrite_lines_passes s ls code :
  s ∈ LEGACY_SHAPES -> length code = length ls ->
  passes code ls (rewrite_lines (line_rewrite (shape_line s)) ls code).1 /\
  ((rewrite_lines (line_rewrite (shape_line s)) ls code).2 = false ->
   (rewrite_lines (line_rewrite (shape_line s)) ls code).1 = ls /\
   forall l, (l, true) ∈ zip ls code -> line_rewrite (shape_line s) l = None).
Proof.
  intros Hs. revert code. induction ls as [|l ls IH]; intros [|c code] L; try done.
  { split; [constructor|]. intros _. split; [done|]. by intros l ?%elem_of_nil. }
  destruct (IH code) as [P N]; [by injection L|]. cbn [rewrite_lines].
  destruct (rewrite_lines _ ls code) as [ls' n] eqn:E. simpl in P, N.
  destruct (if c then line_rewrite (shape_line s) l else None) as [l'|] eqn:R; simpl.
  - split; [|done]. constructor; [|done]. right. destruct c; [|done]. split; [done|]. apply rtc_once. by exists s.
  - split; [constructor; [by left|done]|]. intros Hn. destruct (N Hn) as [-> N']. split; [done|].
    intros l0 [[= -> <-]|H]%elem_of_cons; [done|auto].
Qed.

Lemma apply_shapes_passes ss ls code :
  (forall s, s ∈ ss -> s ∈ LEGACY_SHAPES) -> length code = length ls ->
  passes code ls (apply_shapes ss ls code).1 /\ ((apply_shapes ss ls code).2 = [] -> (apply_shapes ss ls code).1 = ls).
Proof.
  revert ls. induction ss as [|s ss IH]; intros ls Hs L; simpl; [split; [by apply passes_refl|done]|].
  destruct (has_marker (marker s) ls code); [|apply IH; [intros; apply Hs; by right|done]].
  destruct (rewrite_lines_passes s ls code) as [P N]; [apply Hs; by left|done|].
  destruct (rewrite_lines _ ls code) as [ls1 n] eqn:E. simpl in P, N.
  assert (L1 : length code = length ls1) by (by rewrite <- (Forall3_length_lr _ _ _ _ P)).
  destruct (IH ls1) as [P' N']; [intros; apply Hs; by right|done|].
  destruct (apply_shapes ss ls1 code) as [ls2 names]. simpl in *. split; [by eapply passes_trans|].
  destruct n; [done|]. simpl. intros ->. rewrite N' by done. by apply N.
Qed.

Lemma rtc_rewritten_keeps l l' :
  rtc rewritten l l' -> scan_line false l' = scan_line false l /\ (10 ∉ l -> 10 ∉ l').
Proof.
  induction 1 as [|l1 l2 l3 R _ [IH1 IH2]]; [done|]. destruct (rewritten_keeps _ _ R) as (E & N & _).
  split; [congruence|auto].
Qed.

Lemma passes_clean code ls ls' : passes code ls ls' -> Forall (fun l => 10 ∉ l) ls -> Forall (fun l => 10 ∉ l) ls'.
Proof.
  induction 1 as [|l c l' ls cs ls' H P IH]; intros F; [constructor|]. inversion_clear F.
  constructor; [|by apply IH]. destruct H as [->|[_ R]]; [done|]. apply rtc_rewritten_keeps in R as [_ R]. auto.
Qed.

(** The passes leave the lexical structure as it was. *)
Lemma code_from_passes raw ls ls' : passes (code_from raw ls) ls ls' -> code_from raw ls' = code_from raw ls.
Proof.
  revert raw ls'. induction ls as [|l ls IH]; intros raw ls' P; cbn [code_from] in P |- *.
  - by inversion P.
  - destruct (scan_line raw l) as [st nc] eqn:S. inversion_clear P as [|? ? l' ? ? ls2 H Q].
    assert (E : scan_line raw l' = (st, nc)).
    { destruct H as [->|[Nc R]]; [done|]. apply negb_true_iff in Nc as ->.
      assert (raw = false) as ->.
      { destruct raw; [|done]. exfalso. unfold scan_line in S.
        assert (G : forall l s, s.2 = true -> (foldl lex_step s l).2 = true).
        { clear. induction l as [|c l IH]; intros [st op] H; [done|]. simpl in *. apply IH. subst op.
          destruct st; simpl; repeat case_match; done. }
        pose proof (G l (Raw, true) eq_refl) as G'. by rewrite S in G'. }
      by rewrite (proj1 (rtc_rewritten_keeps _ _ R)). }
    cbn [code_from]. rewrite E. by rewrite IH.
Qed.

Lemma code_from_length raw ls : length (code_from raw ls) = length ls.
Proof. revert raw. induction ls as [|l ls IH]; intros raw; [done|]. cbn [code_from]. destruct (scan_line raw l). simpl. by rewrite IH. Qed.

Lemma split_on_clean nl t : split_on nl t <> [] /\ Forall (fun l => nl ∉ l) (split_on nl t).
Proof.
  induction t as [|c t [N F]]; simpl; [split; [done|constructor; [by intros ?%elem_of_nil|constructor]]|].
  destruct (Z.eqb_spec c nl) as [->|Ne].
  - split; [done|]. constructor; [by intros ?%elem_of_nil|done].
  - destruct (split_on nl t) as [|w ws]; [done|]. split; [done|]. inversion_clear F as [|? ? Hw Hws]. constructor; [|done].
    intros [|]%elem_of_cons; [by subst|done].
Qed.

Lemma split_on_join nl ls : ls <> [] -> Forall (fun l => nl ∉ l) ls -> split_on nl (join [nl] ls) = ls.
Proof.
  intros N F. induction F as [|l ls Hl F IH]; [done|]. destruct ls as [|m ls].
  - simpl. clear -Hl. induction l as [|c l IH]; [done|]. simpl. apply not_elem_of_cons in Hl as [Hc Hl].
    destruct (Z.eqb_spec c nl); [by subst|]. by rewrite IH.
  - change (join [nl] (l :: m :: ls)) with (l ++ nl :: join [nl] (m :: ls)). specialize (IH ltac:(done)).
    clear -Hl IH. induction l as [|c l IHl]; cbn [app split_on]; [by rewrite Z.eqb_refl, IH|].
    apply not_elem_of_cons in Hl as [Hc Hl]. destruct (Z.eqb_spec c nl); [by subst|]. by rewrite IHl.
Qed.

(** the upgrade touches code only.  It keeps the number of lines and their lexical structure, changes
    no line that is, or opens, a raw string, and changes a code line only by the rewrites of the shapes. *)
Theorem upgrade_touches_code_only rego :
  let lines := split_on 10 rego in
  let lines' := split_on 10 (upgrade_legacy rego).1 in
  passes (code_lines lines) lines lines' /\ code_lines lines' = code_lines lines.
Proof.
  intros lines lines'. destruct (split_on_clean 10 rego) as [N F]. fold lines in N, F.
  destruct (apply_shapes_passes LEGACY_SHAPES lines (code_lines lines)) as [P E]; [done|apply code_from_length|].
  assert (L : lines' = (apply_shapes LEGACY_SHAPES lines (code_lines lines)).1).
  { unfold lines', upgrade_legacy. fold lines. destruct (apply_shapes _ lines (code_lines lines)) as [ls names]. simpl in *.
    destruct names; simpl; [by rewrite E|]. apply split_on_join.
    - pose proof (Forall3_length_lr _ _ _ _ P) as Len. by destruct ls, lines.
    - by eapply passes_clean. }
  rewrite L. split; [done|]. by apply code_from_passes.
Qed.

(** ** Idempotence *)

(** No code line is one the rule would rewrite. *)
Definition unmatched (r : LineRule) (ls : list text) (code : list bool) : Prop :=
  forall l, (l, true) ∈ zip ls code -> line_rewrite r l = None.

(** Every line holds the comprehension at most once, or is of no shape. *)
Definition tame (ls : list text) : Prop := Forall (fun l => at_most_once in_empty_old l \/ inert l) ls.

Lemma tame_rewrite s ls code :
  s ∈ LEGACY_SHAPES -> tame ls ->
  let ls' := (rewrite_lines (line_rewrite (shape_line s)) ls code).1 in
  tame ls' /\ (length code = length ls -> unmatched (shape_line s) ls' code) /\
  forall s0, s0 ∈ LEGACY_SHAPES -> unmatched (shape_line s0) ls code -> unmatched (shape_line s0) ls' code.
Proof.
  intros Hs. revert code. induction ls as [|l ls IH]; intros code T.
  { split_and!; [by destruct code|intros _ l H|intros s0 _ _ l H]; exfalso; destruct code; by apply elem_of_nil in H. }
  destruct code as [|c code]; [split_and!; [done|done|by intros s0 _ _ l0 ?%elem_of_nil]|]. inversion_clear T as [|? ? Tl Tls]. destruct (IH code Tls) as (IH1 & IH2 & IH3).
  cbn [rewrite_lines]. destruct (rewrite_lines _ ls code) as [ls' n]. simpl in IH1, IH2, IH3.
  destruct (if c then line_rewrite (shape_line s) l else None) as [l'|] eqn:R; simpl.
  - assert (I : inert l').
    { destruct c; [|done]. destruct Tl as [O|I]; [by apply (rewritten_inert l); [|exists s]|].
      unfold inert in I. rewrite Forall_forall in I. rewrite I in R by done. done. }
    assert (X : forall s0 l0, s0 ∈ LEGACY_SHAPES -> l0 = l' -> line_rewrite (shape_line s0) l0 = None).
    { intros s0 l0 Hs0 ->. unfold inert in I. rewrite Forall_forall in I. auto. }
    split_and!; [constructor; [by right|done]|..].
    + intros L l0 [[= -> _]|H]%elem_of_cons; [by apply X|]. apply IH2; [by injection L|done].
    + intros s0 Hs0 U l0 [[= -> _]|H]%elem_of_cons; [by apply X|]. apply IH3; [done| |done]. intros l1 H1. apply U. by right.
  - split_and!; [by constructor|..].
    + intros L l0 [[= -> <-]|H]%elem_of_cons; [done|]. apply IH2; [by injection L|done].
    + intros s0 Hs0 U l0 [[= -> <-]|H]%elem_of_cons; [apply U; by left|]. apply IH3; [done| |done]. intros l1 H1. apply U. by right.
Qed.

Lemma rtc_marker l l' s :
  s ∈ LEGACY_SHAPES -> rtc rewritten l l' -> tstarts (marker s) l' = tstarts (marker s) l.
Proof.
  intros Hs. induction 1 as [|l1 l2 l3 R _ IH]; [done|]. destruct (rewritten_keeps _ _ R) as (_ & _ & F).
  rewrite Forall_forall in F. destruct (F s Hs) as [E1 E2]. congruence.
Qed.

Lemma has_marker_passes s code ls ls' :
  s ∈ LEGACY_SHAPES -> passes code ls ls' -> has_marker (marker s) ls' code = has_marker (marker s) ls code.
Proof.
  intros Hs. induction 1 as [|l c l' ls code ls' H P IH]; [done|]. unfold has_marker in *. simpl. rewrite IH.
  destruct H as [->|[-> R]]; [done|]. by rewrite (rtc_marker _ _ _ Hs R).
Qed.

(** A shape that would change nothing. *)
Definition quiet (s : LegacyShape) (ls : list text) (code : list bool) : Prop :=
  has_marker (marker s) ls code = false \/ unmatched (shape_line s) ls code.

Lemma apply_shapes_quiet ss ls code :
  (forall s, s ∈ ss -> s ∈ LEGACY_SHAPES) -> length code = length ls -> tame ls ->
  let ls' := (apply_shapes ss ls code).1 in
  (forall s, s ∈ ss -> quiet s ls' code) /\
  (forall s0, s0 ∈ LEGACY_SHAPES -> quiet s0 ls code -> quiet s0 ls' code).
Proof.
  revert ls. induction ss as [|s ss IH]; intros ls Hss L T; simpl; [split; [by intros s ?%elem_of_nil|done]|].
  assert (Hs : s ∈ LEGACY_SHAPES) by (apply Hss; by left).
  assert (Hss' : forall s, s ∈ ss -> s ∈ LEGACY_SHAPES) by (intros; apply Hss; by right).
  destruct (has_marker (marker s) ls code) eqn:M.
  - destruct (tame_rewrite s ls code Hs T) as (T1 & U1 & K1). destruct (rewrite_lines_passes s ls code Hs L) as [P _].
    destruct (rewrite_lines _ ls code) as [ls1 n]. simpl in *.
    assert (L1 : length code = length ls1) by (by rewrite <- (Forall3_length_lr _ _ _ _ P)).
    assert (Q : forall s0, s0 ∈ LEGACY_SHAPES -> quiet s0 ls code -> quiet s0 ls1 code).
    { intros s0 H0 [H|H]; [left; by rewrite (has_marker_passes s0 code ls ls1)|right; auto]. }
    destruct (IH ls1 Hss' L1 T1) as [IH1 IH2]. destruct (apply_shapes ss ls1 code) as [ls2 names]. simpl in *. split.
    + intros s0 [->|H0]%elem_of_cons; [|auto]. apply IH2; [done|]. right. auto.
    + auto.
  - destruct (IH ls Hss' L T) as [IH1 IH2]. split; [|done]. intros s0 [->|H0]%elem_of_cons; [|auto]. apply IH2; [done|]. by left.
Qed.

Lemma rewrite_lines_unmatched r ls code : unmatched r ls code -> rewrite_lines (line_rewrite r) ls code = (ls, false).
Proof.
  revert code. induction ls as [|l ls IH]; intros [|c code] U; try done. cbn [rewrite_lines].
  rewrite IH by (intros l0 H0; apply U; by right). destruct c; [|done]. by rewrite (U l) by (by left).
Qed.

Lemma apply_shapes_noop ss ls code : (forall s, s ∈ ss -> quiet s ls code) -> apply_shapes ss ls code = (ls, []).
Proof.
  induction ss as [|s ss IH]; intros Q; [done|]. cbn [apply_shapes].
  assert (IH' : apply_shapes ss ls code = (ls, [])) by (apply IH; intros; apply Q; by right).
  destruct (Q s) as [M|U]; [by left|by rewrite M|]. destruct (has_marker _ _ _); [|done].
  by rewrite (rewrite_lines_unmatched _ _ _ U), IH'.
Qed.

(** the upgrade is idempotent.  On a text of which no line holds the generator's comprehension twice, a second
    upgrade finds nothing to rewrite and returns the text as it is. *)
Theorem upgrade_idempotent rego :
  Forall (at_most_once in_empty_old) (split_on 10 rego) ->
  upgrade_legacy (upgrade_legacy rego).1 = ((upgrade_legacy rego).1, []).
Proof.
  intros O. set (lines := split_on 10 rego) in *.
  assert (T : tame lines) by (eapply Forall_impl; [exact O|]; auto).
  destruct (split_on_clean 10 rego) as [N F]. fold lines in N, F.
  destruct (apply_shapes_passes LEGACY_SHAPES lines (code_lines lines)) as [P E]; [done|apply code_from_length|].
  destruct (apply_shapes_quiet LEGACY_SHAPES lines (code_lines lines)) as [Q _]; [done|apply code_from_length|done|].
  unfold upgrade_legacy at 2 3. fold lines. destruct (apply_shapes LEGACY_SHAPES lines (code_lines lines)) as [ls names]. simpl in *.
  assert (C : code_lines ls = code_lines lines) by (by apply code_from_passes).
  assert (Res : forall t, split_on 10 t = ls -> upgrade_legacy t = (t, [])).
  { intros t Et. unfold upgrade_legacy. rewrite Et, C, apply_shapes_noop by done. done. }
  destruct names as [|n names]; simpl; apply Res.
  - by rewrite E.
  - apply split_on_join.
    + pose proof (Forall3_length_lr _ _ _ _ P) as Len. by destruct ls, lines.
    + by eapply passes_clean.
Qed.

Definition sample_legacy : text := points "package norviq.intent.bot
allow_names := {}
s := `
allow_names := {}
`".

Lemma upgrade_idempotent_witness :
  upgrade_legacy (upgrade_legacy sample_legacy).1 = ((upgrade_legacy sample_legacy).1, []) /\
  (upgrade_legacy sample_legacy).2 = ["intent_allowlist_empty"].
Proof.
  split; [|vm_compute; reflexivity]. apply (upgrade_idempotent sample_legacy).
  assert (X : Forall (fun l => tindex in_empty_old l = None) (split_on 10 sample_legacy)).
  { vm_compute. repeat constructor. }
  eapply Forall_impl; [exact X|]. intros l Hl a b ->. exfalso. apply tindex_None in Hl. apply Hl. by exists a, b.
Defined.

(** two comprehensions on one line.  A line that holds the generator's comprehension twice has only the first
    one rewritten, so the module still holds the literal that OPA rejects, and a second upgrade changes it
    again. *)
Theorem second_comprehension_left :
  let line := [9; 9; 34] ++ points "a in []" ++ [34] ++ points ": count([x | x := [][_]; x == p]) + count([x | x := [][_]; x == p])" in
  let rego := points "# nrvq:intent-tools bot" ++ 10 :: line in
  occurs in_empty_old (upgrade_legacy rego).1 /\ (upgrade_legacy (upgrade_legacy rego).1).2 = ["intent_compiler_in_empty"].
Proof.
  intros line rego. split; [|vm_compute; reflexivity].
  destruct (tindex in_empty_old (upgrade_legacy rego).1) as [i|] eqn:E; [|by vm_compute in E].
  apply tindex_Some in E as (r & E & _). by exists (take i (upgrade_legacy rego).1), r.
Qed.
