(* ===== verification/Config.v ===== *)
(** * Configuration: the fields of [NorviqSettings] the modelled code reads
    ([norviq/config.py]), with the values the release ships.  Durations that the source keeps in
    seconds stay in seconds ([Q] where the source has a float), those in milliseconds stay in
    milliseconds. *)

From S2P Require Import Prelude.

Record Settings := mkSettings {
  enforcement_mode : string;
  no_policy_decision : string;
  monitor_exempt_rate_limit : bool;
  sdk_fallback_mode : string;
  sdk_retry_max_attempts : nat;
  sdk_retry_backoff_base_ms : Z;
  sdk_circuit_fail_threshold : Z;
  sdk_circuit_reset_after_ms : Z;
  redis_ttl_eval_s : Q;
  evaluator_inproc_cache_ttl_s : Q;
  evaluator_inproc_cache_max : Z;
  trust_threshold : Q;
  trust_violation_penalty : Q;
  opa_mode : string;
  evaluator_rate_limit_per_window : Z;
  evaluator_rate_limit_window_s : Z;
  evaluator_rate_limit_read_exempt : bool;
  evaluator_rate_limit_read_prefixes : list string;
  evaluator_non_cacheable_rules : list string;
}.

(** The shipped defaults. *)
Definition default_settings : Settings := {|
  enforcement_mode := "block";
  no_policy_decision := "allow";
  monitor_exempt_rate_limit := true;
  sdk_fallback_mode := "allow";
  sdk_retry_max_attempts := 2;
  sdk_retry_backoff_base_ms := 100;
  sdk_circuit_fail_threshold := 3;
  sdk_circuit_reset_after_ms := 2000;
  redis_ttl_eval_s := 5;
  evaluator_inproc_cache_ttl_s := 0;
  evaluator_inproc_cache_max := 8192;
  trust_threshold := 7 # 10;
  trust_violation_penalty := 5 # 100;
  opa_mode := "server";
  evaluator_rate_limit_per_window := 60;
  evaluator_rate_limit_window_s := 60;
  evaluator_rate_limit_read_exempt := true;
  evaluator_rate_limit_read_prefixes :=
    ["get_"; "read_"; "list_"; "query_"; "fetch_"; "describe_"; "view_"; "monitor_"; "poll_";
     "report_"; "search_"];
  evaluator_non_cacheable_rules := ["rate_limit_exceeded"; "escalate_low_trust"];
|}.
