(* ===== verification/Decisions.v ===== *)
(** * Decisions and events ([norviq/sdk/core/decisions.py], [norviq/sdk/core/events.py])

    The verdict of a tool call, its order of restrictiveness, the tool-call event with its
    validators, and the fold of a refusal the enforcement point already made. *)

From S2P Require Import Prelude.

(** The four values of [PolicyDecision.decision]. *)
Inductive verdict : Type := Allow | Block | Escalate | Audit.

#[global] Instance verdict_eq_dec : EqDecision verdict.
Proof. solve_decision. Defined.

(** The literal a verdict is written as. *)
Definition verdict_str (v : verdict) : string :=
  match v with
  | Allow => "allow"
  | Block => "block"
  | Escalate => "escalate"
  | Audit => "audit"
  end.

(** Pydantic's validation of the [Literal]: any other string raises. *)
Definition parse_verdict (s : string) : option verdict :=
  if bool_decide (s = "allow") then Some Allow
  else if bool_decide (s = "block") then Some Block
  else if bool_decide (s = "escalate") then Some Escalate
  else if bool_decide (s = "audit") then Some Audit
  else None.

(** The rank table the resolvers share: smaller is stricter. *)
Definition rank (v : verdict) : Z :=
  match v with Block => 0 | Escalate => 1 | Audit => 2 | Allow => 3 end.

Record PolicyDecision := mkDecision {
  decision : verdict;
  policy_id : string;
  policy_version : Z;
  rule_id : string;
  reason : string;
  trust_score : Q;
  trust_category : string;
  trust_signals : list (string * Q);
  trust_dominant_signal : string;
  trust_recommendation : string;
  latency_ms : Q;
  event_id : string;
  decided_at : Z;
}.

(** A decision with its fields at the model's defaults, but for the verdict, the rule, the reason,
    the latency, the event and the instant ([decided_at] defaults to the current time). *)
Definition new_decision (v : verdict) (rule why : string) (latency : Q) (ev : string) (now : Z)
    : PolicyDecision := {|
  decision := v; policy_id := ""; policy_version := 0; rule_id := rule; reason := why;
  trust_score := 0; trust_category := ""; trust_signals := []; trust_dominant_signal := "";
  trust_recommendation := ""; latency_ms := latency; event_id := ev; decided_at := now;
|}.

(** [decision.model_copy(update={"decision", "rule_id", "reason"})]. *)
Definition with_outcome (d : PolicyDecision) (v : verdict) (rule why : string)
    : PolicyDecision := {|
  decision := v; policy_id := policy_id d; policy_version := policy_version d;
  rule_id := rule; reason := why;
  trust_score := trust_score d; trust_category := trust_category d;
  trust_signals := trust_signals d; trust_dominant_signal := trust_dominant_signal d;
  trust_recommendation := trust_recommendation d; latency_ms := latency_ms d;
  event_id := event_id d; decided_at := decided_at d;
|}.

(** [decision.model_copy(update={"latency_ms": ...})]. *)
Definition with_latency (d : PolicyDecision) (l : Q) : PolicyDecision := {|
  decision := decision d; policy_id := policy_id d; policy_version := policy_version d;
  rule_id := rule_id d; reason := reason d;
  trust_score := trust_score d; trust_category := trust_category d;
  trust_signals := trust_signals d; trust_dominant_signal := trust_dominant_signal d;
  trust_recommendation := trust_recommendation d; latency_ms := l;
  event_id := event_id d; decided_at := decided_at d;
|}.

Definition is_blocked (d : PolicyDecision) : bool := bool_decide (decision d = Block).
Definition is_allowed (d : PolicyDecision) : bool :=
  bool_decide (decision d = Allow) || bool_decide (decision d = Audit).
Definition is_escalated (d : PolicyDecision) : bool := bool_decide (decision d = Escalate).

(** ** The tool-call event *)

Record AgentIdentity := mkIdentity {
  spiffe_id : list Z;       (* code points *)
  namespace : string;
  service_account : string;
  agent_class : string;
  id_framework : string;
  pod_name : string;
  cluster_id : string;
  workload : string;
}.

Record ToolCallEvent := mkEvent {
  ev_id : string;
  tool_name : string;
  tool_params : list (string * json);
  agent_identity : AgentIdentity;
  session_id : string;
  timestamp_utc : Z;
  framework : string;
  call_depth : Z;
  raw_llm_output : option string;
  mcp : list (string * json);
  pep_decision : string;
  pep_rule_id : string;
  pep_reason : string;
}.

Definition PEP_RULE_ID_MAX : nat := 255.
Definition PEP_REASON_MAX : nat := 1024.

Definition pep_decision_may_only_refuse (v : string) : option string :=
  if bool_decide (v = "") || bool_decide (v = "block") then Some v else None.

Definition tool_name_not_empty (v : string) : option string :=
  let stripped := strip v in
  if nonempty stripped then Some stripped else None.

(** Construction of an event: [None] where a validator raises [ValidationError]. *)
Definition make_event (id tool : string) (params : list (string * json)) (who : AgentIdentity)
    (session : string) (ts : Z) (fw : string) (depth : Z) (raw_out : option string)
    (ctx : list (string * json)) (pd pr preason : string)
    : option ToolCallEvent :=
  t ← tool_name_not_empty tool;
  p ← pep_decision_may_only_refuse pd;
  if (String.length pr <=? PEP_RULE_ID_MAX)%nat && (String.length preason <=? PEP_REASON_MAX)%nat
  then Some (mkEvent id t params who session ts fw depth raw_out ctx p pr preason)
  else None.

(** ** Folding a refusal of the enforcement point *)

Definition PEP_UNATTRIBUTED_RULE : string := "pep_refused".

Definition apply_pep_denial (d : PolicyDecision) (pd pr preason : string) : PolicyDecision :=
  if negb (bool_decide (pd = "block")) then d
  else if bool_decide (decision d = Block) then d
  else
    let why := or_else preason "the enforcement point refused this call before policy evaluation" in
    let why' :=
      if bool_decide (decision d = Escalate)
      then why +:+ " (policy would have escalated: " +:+ or_else (rule_id d) "unattributed" +:+ ")"
      else why in
    with_outcome d Block (or_else pr PEP_UNATTRIBUTED_RULE) why'.

(** ** Lemmas *)

Lemma rank_inj v w : rank v = rank w -> v = w.
Proof. by destruct v, w. Qed.

Lemma rank_bounds v : 0 <= rank v <= 3.
Proof. destruct v; simpl; lia. Qed.

Lemma parse_verdict_str v : parse_verdict (verdict_str v) = Some v.
Proof. by destruct v. Qed.

Lemma apply_pep_denial_noop d pr preason : apply_pep_denial d "" pr preason = d.
Proof. done. Qed.

Lemma apply_pep_denial_block d pr preason :
  decision (apply_pep_denial d "block" pr preason) = Block.
Proof. unfold apply_pep_denial. simpl. case_bool_decide; [done|]. done. Qed.

Lemma apply_pep_denial_rank d pd pr preason :
  rank (decision (apply_pep_denial d pd pr preason)) <= rank (decision d).
Proof.
  unfold apply_pep_denial. destruct (negb _); [lia|].
  destruct (bool_decide (decision d = Block)); [lia|]. simpl. apply rank_bounds.
Qed.

Lemma make_event_pep id t ps who s ts fw dep out ctx pd pr re ev :
  make_event id t ps who s ts fw dep out ctx pd pr re = Some ev ->
  pep_decision ev = pd /\ (pd = "" \/ pd = "block").
Proof.
  unfold make_event, pep_decision_may_only_refuse. intros H.
  destruct (tool_name_not_empty t); simpl in H; [|done].
  destruct (bool_decide (pd = "") || bool_decide (pd = "block")) eqn:E; simpl in H; [|done].
  destruct (_ && _) in H; simplify_eq/=.
  split; [done|]. apply orb_true_iff in E as [E|E]; apply bool_decide_eq_true in E; auto.
Qed.

#[export] Hint Resolve rank_bounds apply_pep_denial_rank : norviq.
