(* ===== verification/Resolve.v ===== *)
(** * Precedence resolution ([norviq/engine/evaluator.py], [_resolve_with_packs] and below)

    Every candidate policy of a call has been evaluated; this component picks the one that decides.
    Base tiers resolve by priority among the enforcing layers, audit-mode layers may only tighten,
    the pack family has the weaken exception, and the hard overlays (controls, egress, MCP registry,
    baselines, guardrail, remediation) are floors. *)

From S2P Require Import Prelude Config Decisions.

(** One evaluated candidate, the dict built in [evaluate]. *)
Record Result := mkResult {
  r_decision : PolicyDecision;
  r_priority : Z;
  r_key : string;
  r_overlay : bool;
  r_mode : string;
}.

Definition raw (r : Result) : verdict := decision (r_decision r).

Definition audit_mode (r : Result) : bool := bool_decide (r_mode r = "audit").

(** [_effective_rank]: restrictiveness after the policy's own mode is taken into account. *)
Definition effective_verdict (r : Result) : verdict :=
  if audit_mode r && (bool_decide (raw r = Block) || bool_decide (raw r = Escalate))
  then Audit else raw r.

Definition effective_rank (r : Result) : Z := rank (effective_verdict r).

(** The pack family is recognised by the suffix of the key. *)
Definition in_pack_family (r : Result) : bool :=
  ends_with ":__pack__" (r_key r) || ends_with ":__pack_override__" (r_key r)
  || ends_with ":__pack_weaken__" (r_key r).

Definition is_weaken (r : Result) : bool := ends_with ":__pack_weaken__" (r_key r).

(** [_resolve_pack_family]: an explicit weaken overlay supersedes the rest of the family. *)
Definition resolve_pack_family (results : list Result) : option Result :=
  let weaken := filter (fun r => is_weaken r = true) results in
  match weaken with
  | [] => first_by (fun r => (rank (raw r), - r_priority r)) results
  | _ :: _ => first_by (fun r => (- rank (raw r), - r_priority r)) weaken
  end.

(** [_resolve_hard_overlay]: most restrictive effective decision, ties by priority. *)
Definition resolve_hard_overlay (results : list Result) : option Result :=
  first_by (fun r => (effective_rank r, - r_priority r)) results.

(** [_resolve_overlay]. *)
Definition resolve_overlay (results : list Result) : option Result :=
  let pack_family := filter (fun r => in_pack_family r = true) results in
  let pack_keys := map r_key pack_family in
  let hard := filter (fun r => r_key r ∉ pack_keys) results in
  let pack_winner := resolve_pack_family pack_family in
  let hard_winner := resolve_hard_overlay hard in
  match pack_winner, hard_winner with
  | None, h => h
  | p, None => p
  | Some p, Some h => if effective_rank p <? effective_rank h then Some p else Some h
  end.

(** [_resolve_precedence], with its local [by_priority]. *)
Definition by_priority (items : list Result) : option Result :=
  first_by (fun r => (- r_priority r, rank (raw r))) items.

Definition resolve_precedence (results : list Result) : option Result :=
  let observing := filter (fun r => audit_mode r = true) results in
  let enforcing := filter (fun r => audit_mode r = false) results in
  match enforcing with
  | [] => by_priority results
  | _ :: _ =>
      let winner := by_priority enforcing in
      match observing with
      | [] => winner
      | _ :: _ =>
          match by_priority observing, winner with
          | Some o, Some w => if effective_rank o <? effective_rank w then Some o else Some w
          | _, w => w
          end
      end
  end.

(** [_resolve_with_packs]: [None] only on an empty list. *)
Definition resolve_with_packs (results : list Result) : option Result :=
  let overlay := filter (fun r => r_overlay r = true) results in
  let base := filter (fun r => r_overlay r = false) results in
  let base_winner := match base with [] => None | _ :: _ => resolve_precedence base end in
  let overlay_winner := match overlay with [] => None | _ :: _ => resolve_overlay overlay end in
  match base_winner, overlay_winner with
  | None, o => o
  | b, None => b
  | Some b, Some o => if effective_rank o <? effective_rank b then Some o else Some b
  end.

(** ** The per-policy mode *)

Definition MONITOR_WOULD_BLOCK_PREFIX : string := "monitor_would_block:".
Definition POLICY_AUDIT_WOULD_BLOCK_PREFIX : string := "policy_audit_would_block:".

Definition base_posture_exempt_rules : list string := ["trust_frozen"; "invalid_spiffe_identity"].

(** [_posture_exempt_rules]. *)
Definition posture_exempt_rules (cfg : Settings) : list string :=
  if monitor_exempt_rate_limit cfg then base_posture_exempt_rules ++ ["rate_limit_exceeded"]
  else base_posture_exempt_rules.

Definition is_exempt (cfg : Settings) (rule : string) : bool :=
  bool_decide (rule ∈ posture_exempt_rules cfg).

(** [_apply_policy_mode]. *)
Definition apply_policy_mode (cfg : Settings) (winner : Result) : PolicyDecision :=
  let d := r_decision winner in
  if negb (audit_mode winner) then d
  else if negb (bool_decide (decision d = Block) || bool_decide (decision d = Escalate)) then d
  else if is_exempt cfg (rule_id d) then d
  else with_outcome d Audit (POLICY_AUDIT_WOULD_BLOCK_PREFIX +:+ rule_id d) (reason d).

(** ** The reference semantics: no sorting, only maxima and minima over the candidates *)
Module Spec.

(** Strictest value of [f] over a list, [None] for no candidate. *)
Definition strictest (f : Result -> Z) (l : list Result) : option Z := lmin (map f l).

(** The candidates of highest priority. *)
Definition top (l : list Result) : list Result :=
  filter (fun r => Forall (fun s => r_priority s <= r_priority r) l) l.

(** Base tiers: the strictest top-priority enforcing decision, which a top-priority observer may
    tighten to what observing is worth; with nothing enforcing the observation decides. *)
Definition base_rank (base : list Result) : option Z :=
  omin (strictest effective_rank (top (filter (fun r => audit_mode r = false) base)))
       (strictest effective_rank (top (filter (fun r => audit_mode r = true) base))).

(** The pack family: the most permissive weaken when there is one, else the strictest member. *)
Definition pack_rank (packs : list Result) : option Z :=
  match filter (fun r => is_weaken r = true) packs with
  | [] => strictest (fun r => rank (raw r)) packs
  | w :: ws => Z.opp <$> strictest (fun r => - rank (raw r)) (w :: ws)
  end.

(** The whole resolution: floors, packs and base combine by strictest-wins. *)
Definition resolved_rank (rs : list Result) : option Z :=
  let overlay := filter (fun r => r_overlay r = true) rs in
  omin (base_rank (filter (fun r => r_overlay r = false) rs))
       (omin (pack_rank (filter (fun r => in_pack_family r = true) overlay))
             (strictest effective_rank (filter (fun r => in_pack_family r = false) overlay))).

End Spec.

(** ** Lemmas: each resolver against the reference semantics *)

Lemma effective_enforcing r : audit_mode r = false -> effective_rank r = rank (raw r).
Proof. unfold effective_rank, effective_verdict. by intros ->. Qed.

Lemma effective_observing r : audit_mode r = true -> effective_rank r = Z.max 2 (rank (raw r)).
Proof. unfold effective_rank, effective_verdict. intros ->. by destruct (raw r). Qed.

Lemma effective_le_raw r : rank (raw r) <= effective_rank r.
Proof.
  destruct (audit_mode r) eqn:E; [rewrite effective_observing|rewrite effective_enforcing]; auto; lia.
Qed.

(** The effective rank is monotone in the raw rank among layers of one mode. *)
Lemma effective_mono r s :
  audit_mode r = audit_mode s -> rank (raw r) <= rank (raw s) -> effective_rank r <= effective_rank s.
Proof.
  intros E L. destruct (audit_mode r) eqn:Er.
  - rewrite !effective_observing by congruence. lia.
  - rewrite !effective_enforcing by congruence. lia.
Qed.

Lemma strictest_Some f l x :
  x ∈ l -> (forall y, y ∈ l -> f x <= f y) -> Spec.strictest f l = Some (f x).
Proof.
  intros Hx Hl. apply lmin_Some. split; [by apply list_elem_of_fmap_2|].
  intros z (y & -> & Hy)%list_elem_of_fmap. auto.
Qed.

Lemma strictest_le f l m y : Spec.strictest f l = Some m -> y ∈ l -> m <= f y.
Proof. intros [_ H]%lmin_Some Hy. apply H. by apply list_elem_of_fmap_2. Qed.

Lemma by_priority_top l x :
  by_priority l = Some x -> x ∈ Spec.top l /\ forall y, y ∈ Spec.top l -> rank (raw x) <= rank (raw y).
Proof.
  intros H. pose proof (first_by_elem _ _ _ H) as Hin.
  assert (Hle : forall y, y ∈ l -> r_priority y < r_priority x \/
      (r_priority y = r_priority x /\ rank (raw x) <= rank (raw y))).
  { intros y Hy. pose proof (first_by_least _ _ _ _ H Hy) as K.
    unfold key_le in K. rewrite key_leb_spec in K. simpl in K. lia. }
  split.
  - unfold Spec.top. apply list_elem_of_filter. split; [|done].
    apply Forall_forall. intros y Hy. destruct (Hle y Hy); lia.
  - intros y [Hf Hy]%list_elem_of_filter. rewrite Forall_forall in Hf.
    specialize (Hf x Hin). destruct (Hle y Hy); lia.
Qed.

Lemma by_priority_rank b l x :
  (forall r, r ∈ l -> audit_mode r = b) -> by_priority l = Some x ->
  Spec.strictest effective_rank (Spec.top l) = Some (effective_rank x).
Proof.
  intros Hb [Hx Hmin]%by_priority_top. apply strictest_Some; [done|].
  intros y Hy. apply effective_mono; [|auto].
  apply list_elem_of_filter in Hx as [_ Hx]. apply list_elem_of_filter in Hy as [_ Hy].
  by rewrite !Hb.
Qed.

Lemma by_priority_Some l : l <> [] -> is_Some (by_priority l).
Proof. apply first_by_is_Some. Qed.

Lemma filter_true_false (f : Result -> bool) l :
  filter (fun r => f r = false) l = [] -> filter (fun r => f r = true) l = l.
Proof.
  induction l as [|r l IH]; [done|]. rewrite !filter_cons.
  destruct (decide (f r = false)) as [|Hr]; [done|].
  intros H. rewrite decide_True by (by destruct (f r)). by rewrite IH.
Qed.

Lemma resolve_precedence_rank base x :
  resolve_precedence base = Some x -> Spec.base_rank base = Some (effective_rank x).
Proof.
  unfold resolve_precedence, Spec.base_rank.
  destruct (filter (fun r => audit_mode r = false) base) as [|e es] eqn:Ee.
  { intros H. rewrite (filter_true_false audit_mode base Ee). simpl.
    apply (by_priority_rank true); [|done].
    intros r Hr. rewrite <- (filter_true_false audit_mode base Ee) in Hr.
    by apply list_elem_of_filter in Hr as [? _]. }
  rewrite <- Ee.
  assert (Hf : forall b r, r ∈ filter (fun r => audit_mode r = b) base -> audit_mode r = b).
  { by intros b r [? _]%list_elem_of_filter. }
  destruct (by_priority_Some (filter (fun r => audit_mode r = false) base)) as [w Hw];
    [by rewrite Ee|].
  rewrite Hw, (by_priority_rank false _ w) by (done || apply Hf).
  destruct (filter (fun r => audit_mode r = true) base) as [|o os] eqn:Eo.
  { intros [= <-]. done. }
  rewrite <- Eo.
  destruct (by_priority_Some (filter (fun r => audit_mode r = true) base)) as [ob Hob];
    [by rewrite Eo|].
  rewrite Hob, (by_priority_rank true _ ob) by (done || apply Hf). simpl.
  destruct (effective_rank ob <? effective_rank w) eqn:C; intros [= <-]; bool_prop; f_equal; lia.
Qed.

Lemma resolve_pack_family_rank l x :
  resolve_pack_family l = Some x -> Spec.pack_rank l = Some (rank (raw x)) /\ x ∈ l.
Proof.
  unfold resolve_pack_family, Spec.pack_rank.
  destruct (filter (fun r => is_weaken r = true) l) as [|w ws] eqn:E; intros H;
    pose proof (first_by_elem _ _ _ H) as Hin.
  - split; [|done]. apply (strictest_Some (fun r => rank (raw r))); [done|].
    intros y Hy. pose proof (first_by_least _ _ _ _ H Hy) as K.
    unfold key_le in K. rewrite key_leb_spec in K. simpl in K. lia.
  - split; [|rewrite <- E in Hin; by apply list_elem_of_filter in Hin as [_ ?]].
    rewrite (strictest_Some (fun r => - rank (raw r)) _ x); [simpl; f_equal; lia|done|].
    intros y Hy. pose proof (first_by_least _ _ _ _ H Hy) as K.
    unfold key_le in K. rewrite key_leb_spec in K. simpl in K. lia.
Qed.

Lemma resolve_hard_overlay_rank l x :
  resolve_hard_overlay l = Some x -> Spec.strictest effective_rank l = Some (effective_rank x).
Proof.
  intros H. apply strictest_Some; [by eapply first_by_elem|].
  intros y Hy. pose proof (first_by_least _ _ _ _ H Hy) as K.
  unfold key_le in K. rewrite key_leb_spec in K. simpl in K. lia.
Qed.

(** The hard partition, computed from the keys of the pack family, is its complement. *)
Lemma hard_partition l :
  filter (fun r => r_key r ∉ map r_key (filter (fun r => in_pack_family r = true) l)) l
  = filter (fun r => in_pack_family r = false) l.
Proof.
  apply filter_ext_in. intros r Hr. split.
  - intros Hn. destruct (in_pack_family r) eqn:E; [|done]. exfalso. apply Hn.
    apply list_elem_of_fmap_2. by apply list_elem_of_filter.
  - intros E (s & Hk & [Hs _]%list_elem_of_filter)%list_elem_of_fmap.
    unfold in_pack_family in *. rewrite <- Hk in Hs. congruence.
Qed.

(** A pack overlay carries no enforcement mode of its own ([_collect_candidates]). *)
Definition packs_enforce (rs : list Result) : Prop :=
  forall r, r ∈ rs -> r_overlay r = true -> in_pack_family r = true -> audit_mode r = false.

Lemma resolve_overlay_rank l x :
  (forall r, r ∈ l -> in_pack_family r = true -> audit_mode r = false) ->
  resolve_overlay l = Some x ->
  omin (Spec.pack_rank (filter (fun r => in_pack_family r = true) l))
       (Spec.strictest effective_rank (filter (fun r => in_pack_family r = false) l))
  = Some (effective_rank x).
Proof.
  intros Hp. unfold resolve_overlay. rewrite hard_partition.
  destruct (resolve_pack_family _) as [p|] eqn:Ep.
  - apply resolve_pack_family_rank in Ep as [-> Hin].
    apply list_elem_of_filter in Hin as [Hfam Hin].
    rewrite <- (effective_enforcing p) by auto.
    destruct (resolve_hard_overlay _) as [h|] eqn:Eh.
    + apply resolve_hard_overlay_rank in Eh as ->. simpl.
      destruct (_ <? _) eqn:C; intros [= <-]; bool_prop; f_equal; lia.
    + intros [= <-]. apply first_by_None in Eh as ->. done.
  - intros Eh. rewrite (resolve_hard_overlay_rank _ _ Eh).
    assert (filter (fun r => in_pack_family r = true) l = []) as ->; [|done].
    unfold resolve_pack_family in Ep. destruct (filter (fun r => is_weaken r = true) _) eqn:Ew.
    + by apply first_by_None in Ep.
    + apply first_by_None in Ep. done.
Qed.

Lemma resolve_overlay_Some l : l <> [] -> is_Some (resolve_overlay l).
Proof.
  intros Hl. unfold resolve_overlay. rewrite hard_partition.
  destruct (resolve_pack_family _) eqn:Ep; [destruct (resolve_hard_overlay _); [case_match|]; eauto|].
  apply first_by_is_Some.
  assert (filter (fun r => in_pack_family r = true) l = []) as Hn.
  { unfold resolve_pack_family in Ep. destruct (filter (fun r => is_weaken r = true) _) eqn:Ew;
      by apply first_by_None in Ep. }
  intros Hf. apply Hl.
  rewrite <- (filter_true_false in_pack_family l Hf). done.
Qed.

Lemma resolve_precedence_Some l : l <> [] -> is_Some (resolve_precedence l).
Proof.
  intros Hl. unfold resolve_precedence.
  destruct (filter (fun r => audit_mode r = false) l) as [|e es]; [by apply by_priority_Some|].
  destruct (by_priority_Some (e :: es)) as [w ->]; [done|].
  destruct (filter (fun r => audit_mode r = true) l) as [|o os]; [eauto|].
  destruct (by_priority (o :: os)); [case_match|]; eauto.
Qed.

(** The executable resolution computes the reference rank. *)
Lemma resolve_with_packs_rank rs x :
  packs_enforce rs -> resolve_with_packs rs = Some x ->
  Spec.resolved_rank rs = Some (effective_rank x).
Proof.
  intros Hp. unfold resolve_with_packs, Spec.resolved_rank.
  assert (Ho : forall r, r ∈ filter (fun r => r_overlay r = true) rs ->
    in_pack_family r = true -> audit_mode r = false).
  { intros r [? ?]%list_elem_of_filter. by apply Hp. }
  destruct (filter (fun r => r_overlay r = true) rs) as [|o os] eqn:Eo.
  - destruct (filter (fun r => r_overlay r = false) rs) as [|b bs] eqn:Eb; [done|].
    destruct (resolve_precedence (b :: bs)) as [w|] eqn:Ew; [|done]. intros [= <-].
    by rewrite (resolve_precedence_rank _ _ Ew).
  - destruct (resolve_overlay_Some (o :: os)) as [ov Eov]; [done|].
    rewrite Eov, (resolve_overlay_rank _ _ Ho Eov).
    destruct (filter (fun r => r_overlay r = false) rs) as [|b bs] eqn:Eb.
    + intros [= <-]. done.
    + destruct (resolve_precedence_Some (b :: bs)) as [w Ew]; [done|].
      rewrite Ew, (resolve_precedence_rank _ _ Ew). simpl.
      destruct (_ <? _) eqn:C; intros [= <-]; bool_prop; f_equal; lia.
Qed.

Lemma resolve_with_packs_Some rs : rs <> [] -> is_Some (resolve_with_packs rs).
Proof.
  intros Hn. unfold resolve_with_packs.
  destruct (filter (fun r => r_overlay r = false) rs) as [|b bs] eqn:Eb.
  - rewrite (filter_true_false r_overlay rs Eb).
    destruct rs as [|r rs]; [done|]. by apply resolve_overlay_Some.
  - destruct (resolve_precedence_Some (b :: bs)) as [w ->]; [done|].
    destruct (filter (fun r => r_overlay r = true) rs) as [|o os]; [eauto|].
    destruct (resolve_overlay (o :: os)); [case_match|]; eauto.
Qed.

Lemma resolve_precedence_elem l x : resolve_precedence l = Some x -> x ∈ l.
Proof.
  unfold resolve_precedence.
  assert (Hf : forall b y, by_priority (filter (fun r => audit_mode r = b) l) = Some y -> y ∈ l).
  { intros b y H%first_by_elem. by apply list_elem_of_filter in H as [_ ?]. }
  destruct (filter (fun r => audit_mode r = false) l) as [|e es] eqn:Ee; [apply first_by_elem|].
  rewrite <- Ee. destruct (filter (fun r => audit_mode r = true) l) as [|o os] eqn:Eo; [apply Hf|].
  rewrite <- Eo.
  destruct (by_priority (filter (fun r => audit_mode r = true) l)) eqn:E1; [|apply Hf].
  destruct (by_priority (filter (fun r => audit_mode r = false) l)) eqn:E2; [|done].
  case_match; intros [= <-]; eauto.
Qed.

Lemma resolve_overlay_elem l x : resolve_overlay l = Some x -> x ∈ l.
Proof.
  unfold resolve_overlay. rewrite hard_partition.
  assert (Hp : forall y, resolve_pack_family (filter (fun r => in_pack_family r = true) l) = Some y ->
    y ∈ l).
  { intros y [_ H]%resolve_pack_family_rank. by apply list_elem_of_filter in H as [_ ?]. }
  assert (Hh : forall y, resolve_hard_overlay (filter (fun r => in_pack_family r = false) l) = Some y ->
    y ∈ l).
  { intros y H%first_by_elem. by apply list_elem_of_filter in H as [_ ?]. }
  destruct (resolve_pack_family _) eqn:E1; [|apply Hh].
  destruct (resolve_hard_overlay _) eqn:E2; [case_match|]; intros [= <-]; eauto.
Qed.

(** The winner is one of the candidates. *)
Lemma resolve_with_packs_elem rs x : resolve_with_packs rs = Some x -> x ∈ rs.
Proof.
  unfold resolve_with_packs.
  assert (Hb : forall y, resolve_precedence (filter (fun r => r_overlay r = false) rs) = Some y ->
    y ∈ rs).
  { intros y H%resolve_precedence_elem. by apply list_elem_of_filter in H as [_ ?]. }
  assert (Ho : forall y, resolve_overlay (filter (fun r => r_overlay r = true) rs) = Some y -> y ∈ rs).
  { intros y H%resolve_overlay_elem. by apply list_elem_of_filter in H as [_ ?]. }
  destruct (filter (fun r => r_overlay r = false) rs) as [|b bs] eqn:Eb;
    destruct (filter (fun r => r_overlay r = true) rs) as [|o os] eqn:Eo; [done|auto| |].
  - destruct (resolve_precedence _) eqn:E; [|done]. intros [= <-]. auto.
  - destruct (resolve_precedence _) eqn:E; [|auto].
    destruct (resolve_overlay _) eqn:E'; [case_match|]; intros [= <-]; auto.
Qed.

Lemma omin_le_l a b m x : omin a b = Some m -> a = Some x -> m <= x.
Proof. intros H ->. destruct b; simplify_eq/=; lia. Qed.

Lemma omin_le_r a b m x : omin a b = Some m -> b = Some x -> m <= x.
Proof. intros H ->. destruct a; simplify_eq/=; lia. Qed.

Lemma strictest_is_Some f l y : y ∈ l -> exists m, Spec.strictest f l = Some m /\ m <= f y.
Proof.
  intros Hy. destruct (Spec.strictest f l) as [m|] eqn:E.
  - exists m. split; [done|]. by eapply strictest_le.
  - apply lmin_None in E. apply map_eq_nil in E as ->. by apply elem_of_nil in Hy.
Qed.

(** No hard overlay is stricter than the winner. *)
Lemma hard_overlay_bound rs w r :
  packs_enforce rs -> resolve_with_packs rs = Some w ->
  r ∈ rs -> r_overlay r = true -> in_pack_family r = false ->
  effective_rank w <= effective_rank r.
Proof.
  intros Hp Hw Hr Ho Hf. apply resolve_with_packs_rank in Hw; [|done].
  unfold Spec.resolved_rank in Hw.
  destruct (strictest_is_Some effective_rank
    (filter (fun r => in_pack_family r = false) (filter (fun r => r_overlay r = true) rs)) r)
    as (m & Hm & Hle).
  { apply list_elem_of_filter. split; [done|]. by apply list_elem_of_filter. }
  destruct (omin (Spec.pack_rank (filter (fun r => in_pack_family r = true)
      (filter (fun r => r_overlay r = true) rs))) (Some m)) as [k|] eqn:E.
  2: { by destruct (Spec.pack_rank _). }
  rewrite Hm, E in Hw.
  pose proof (omin_le_r _ _ _ _ Hw eq_refl). pose proof (omin_le_r _ _ _ _ E eq_refl). lia.
Qed.

(** Softening never tightens below, nor loosens past, what the resolver ranked. *)
Lemma apply_policy_mode_rank cfg w :
  rank (decision (apply_policy_mode cfg w)) <= effective_rank w.
Proof.
  unfold apply_policy_mode, effective_rank, effective_verdict, raw.
  destruct (audit_mode w); simpl; [|lia].
  destruct (decision (r_decision w)) eqn:E; simpl; try (rewrite E; simpl; lia);
    destruct (is_exempt _ _); simpl; rewrite ?E; simpl; lia.
Qed.

Lemma apply_policy_mode_exact cfg w :
  is_exempt cfg (rule_id (r_decision w)) = false ->
  rank (decision (apply_policy_mode cfg w)) = effective_rank w.
Proof.
  intros Hx. unfold apply_policy_mode, effective_rank, effective_verdict, raw. rewrite Hx.
  destruct (audit_mode w); simpl; [|done]. destruct (decision (r_decision w)) eqn:E; simpl; by rewrite ?E.
Qed.

(** The decision a list of evaluated candidates leads to: the last two calls of [evaluate]'s
    candidate branch. *)
Definition resolve (cfg : Settings) (rs : list Result) : option PolicyDecision :=
  apply_policy_mode cfg <$> resolve_with_packs rs.

Lemma resolve_Some cfg rs d :
  resolve cfg rs = Some d -> exists w, resolve_with_packs rs = Some w /\ d = apply_policy_mode cfg w.
Proof. unfold resolve. destruct (resolve_with_packs rs) eqn:E; intros [= <-]; eauto. Qed.

Lemma rank_le_block v : rank v <= 0 -> v = Block.
Proof. destruct v; simpl; lia || done. Qed.

Lemma strictest_perm f l1 l2 : l1 ≡ₚ l2 -> Spec.strictest f l1 = Spec.strictest f l2.
Proof. intros P. apply lmin_perm. by apply Permutation_map. Qed.

Lemma top_perm l1 l2 : l1 ≡ₚ l2 -> Spec.top l1 ≡ₚ Spec.top l2.
Proof.
  intros P. unfold Spec.top. transitivity (filter (fun r => Forall (fun s => r_priority s <= r_priority r) l1) l2).
  - by apply filter_perm.
  - erewrite filter_ext_in; [done|]. intros x _. simpl. by rewrite P.
Qed.

Lemma base_rank_perm l1 l2 : l1 ≡ₚ l2 -> Spec.base_rank l1 = Spec.base_rank l2.
Proof.
  intros P. unfold Spec.base_rank. f_equal; apply strictest_perm, top_perm, filter_perm, P.
Qed.

Lemma pack_rank_perm l1 l2 : l1 ≡ₚ l2 -> Spec.pack_rank l1 = Spec.pack_rank l2.
Proof.
  intros P. unfold Spec.pack_rank.
  pose proof (filter_perm (fun r => is_weaken r = true) _ _ P) as W.
  destruct (filter _ l1) eqn:E1, (filter _ l2) eqn:E2; [by apply strictest_perm| | |].
  - by apply Permutation_nil_l in W.
  - symmetry in W. by apply Permutation_nil_l in W.
  - f_equal. by apply strictest_perm.
Qed.

Lemma resolved_rank_perm rs1 rs2 : rs1 ≡ₚ rs2 -> Spec.resolved_rank rs1 = Spec.resolved_rank rs2.
Proof.
  intros P. unfold Spec.resolved_rank. f_equal; [|f_equal].
  - by apply base_rank_perm, filter_perm.
  - by apply pack_rank_perm, filter_perm, filter_perm.
  - by apply strictest_perm, filter_perm, filter_perm.
Qed.

(** The candidates that are not sector-pack overlays. *)
Definition without_packs (rs : list Result) : list Result :=
  filter (fun r => r_overlay r && in_pack_family r = false) rs.

Lemma filter_overlay_true_without rs :
  filter (fun r => r_overlay r = true) (without_packs rs)
  = filter (fun r => in_pack_family r = false) (filter (fun r => r_overlay r = true) rs).
Proof.
  unfold without_packs. rewrite !list_filter_filter. apply filter_ext_in.
  intros r _. destruct (r_overlay r), (in_pack_family r); simpl; naive_solver.
Qed.

Lemma filter_overlay_false_without rs :
  filter (fun r => r_overlay r = false) (without_packs rs) = filter (fun r => r_overlay r = false) rs.
Proof.
  unfold without_packs. rewrite list_filter_filter. apply filter_ext_in.
  intros r _. destruct (r_overlay r); simpl; naive_solver.
Qed.

Lemma filter_nested_nil (l : list Result) :
  filter (fun r => in_pack_family r = true) (filter (fun r => in_pack_family r = false) l) = [].
Proof.
  induction l as [|r l IH]; [done|]. rewrite filter_cons.
  destruct (decide (in_pack_family r = false)) as [E|E]; [|done].
  rewrite filter_cons_False; [done|congruence].
Qed.

Lemma filter_nested_same (l : list Result) :
  filter (fun r => in_pack_family r = false) (filter (fun r => in_pack_family r = false) l)
  = filter (fun r => in_pack_family r = false) l.
Proof. rewrite list_filter_filter. apply filter_ext_in. naive_solver. Qed.

(** ** Theorems *)

(** Sample candidates for the witnesses. *)
Definition sample (v : verdict) (rule : string) (prio : Z) (key : string) (ov : bool) (mode : string)
    : Result :=
  mkResult (new_decision v rule "" 0 "ev" 0) prio key ov mode.

Definition sample_list : list Result :=
  [ sample Allow "support_default_allow" 100 "prod:support" false "block";
    sample Block "trial_rule" 300 "prod:namespace:prod" false "audit";
    sample Block "deny_shell_execution" 1 "prod:__baseline__" true "block";
    sample Allow "relax" 5 "prod:__pack_weaken__" true "block" ].

Lemma sample_packs_enforce : packs_enforce sample_list.
Proof.
  intros r Hr. unfold sample_list in Hr.
  repeat (apply elem_of_cons in Hr as [->|Hr]; [by vm_compute|]). by apply elem_of_nil in Hr.
Qed.

(** C4: the precedence resolution refines its declarative specification.  For every non-empty list of
    evaluated candidates it returns one of them, and the restrictiveness of that candidate (after its
    own enforcement mode) is exactly the one the order-free specification assigns to the list: the
    strictest of the base layer (top-priority enforcers, tightened by top-priority observers), of the
    pack family (with the weaken exception) and of the hard overlays. *)
Theorem resolve_refines_spec rs :
  packs_enforce rs -> rs <> [] ->
  exists w, resolve_with_packs rs = Some w /\ w ∈ rs /\
    Spec.resolved_rank rs = Some (effective_rank w).
Proof.
  intros Hp Hn. destruct (resolve_with_packs_Some rs Hn) as [w Hw].
  exists w. auto using resolve_with_packs_elem, resolve_with_packs_rank.
Qed.

Lemma resolve_refines_spec_witness :
  exists w, resolve_with_packs sample_list = Some w /\ w ∈ sample_list /\
    Spec.resolved_rank sample_list = Some (effective_rank w).
Proof. apply resolve_refines_spec; [apply sample_packs_enforce|done]. Defined.

(** an enforcing floor cannot be loosened.  When a hard overlay (controls, egress, MCP registry,
    baseline, guardrail, remediation) that enforces says block, the decision of the whole candidate
    list is a block, whatever the priorities, the other policies' modes and any pack weaken. *)
Theorem enforcing_floor_blocks cfg rs r d :
  packs_enforce rs -> resolve cfg rs = Some d ->
  r ∈ rs -> r_overlay r = true -> in_pack_family r = false ->
  audit_mode r = false -> raw r = Block ->
  decision d = Block.
Proof.
  intros Hp (w & Hw & ->)%resolve_Some Hr Ho Hf Hm Hb.
  pose proof (hard_overlay_bound _ _ _ Hp Hw Hr Ho Hf) as L.
  rewrite (effective_enforcing r), Hb in L by done.
  apply rank_le_block. pose proof (apply_policy_mode_rank cfg w). simpl in *. lia.
Qed.

Lemma enforcing_floor_blocks_witness :
  exists d, resolve default_settings sample_list = Some d /\ decision d = Block.
Proof.
  destruct (resolve default_settings sample_list) as [d|] eqn:E; [|by vm_compute in E].
  exists d. split; [done|].
  apply (enforcing_floor_blocks default_settings sample_list
    (sample Block "deny_shell_execution" 1 "prod:__baseline__" true "block") d);
    [apply sample_packs_enforce|done| |done|done|done|done].
  unfold sample_list. set_solver.
Defined.

(** sector packs only tighten.  Resolving with the pack family present (packs, overrides and
    weakens alike) is at least as strict as resolving without it. *)
Theorem packs_only_tighten rs w b :
  packs_enforce rs -> resolve_with_packs rs = Some w ->
  resolve_with_packs (without_packs rs) = Some b ->
  effective_rank w <= effective_rank b.
Proof.
  intros Hp Hw Hb. apply resolve_with_packs_rank in Hw; [|done].
  apply resolve_with_packs_rank in Hb.
  2: { intros r [? ?]%list_elem_of_filter. auto. }
  unfold Spec.resolved_rank in *.
  rewrite filter_overlay_true_without, filter_overlay_false_without, filter_nested_nil,
    filter_nested_same in Hb. simpl in Hb.
  destruct (Spec.base_rank _), (Spec.pack_rank (filter _ (filter _ rs))),
    (Spec.strictest effective_rank (filter _ (filter _ rs)));
    simplify_eq/=; lia.
Qed.

Lemma packs_only_tighten_witness :
  exists w b, resolve_with_packs sample_list = Some w /\
    resolve_with_packs (without_packs sample_list) = Some b /\ effective_rank w <= effective_rank b.
Proof.
  destruct (resolve_with_packs sample_list) as [w|] eqn:Ew; [|by vm_compute in Ew].
  destruct (resolve_with_packs (without_packs sample_list)) as [b|] eqn:Eb; [|by vm_compute in Eb].
  exists w, b. split; [done|split; [done|]].
  exact (packs_only_tighten sample_list w b sample_packs_enforce Ew Eb).
Defined.

(** a policy saved in audit mode never disarms one that enforces.  The winner among the base
    tiers is at least as strict as the winner among the enforcing base tiers alone, and once some tier
    enforces, an audit-mode winner is one that was strictly tighter and so never lowers a block. *)
Theorem observers_never_disarm base w e :
  resolve_precedence base = Some w ->
  resolve_precedence (filter (fun r => audit_mode r = false) base) = Some e ->
  effective_rank w <= effective_rank e /\
  (w <> e -> effective_rank w < effective_rank e /\ audit_mode w = true).
Proof.
  unfold resolve_precedence. rewrite !list_filter_filter.
  rewrite (filter_ext_in (fun r => audit_mode r = false /\ audit_mode r = false)
    (fun r => audit_mode r = false)) by naive_solver.
  rewrite (filter_ext_in (fun r => audit_mode r = true /\ audit_mode r = false) (fun _ => False))
    by naive_solver congruence.
  assert (filter (fun _ => False) base = []) as ->.
  { clear. by induction base. }
  destruct (filter (fun r => audit_mode r = false) base) as [|x xs] eqn:Ee; [done|].
  destruct (by_priority (x :: xs)) as [v|] eqn:Ev.
  2: { by apply first_by_None in Ev. }
  intros Hw [= <-].
  destruct (filter (fun r => audit_mode r = true) base) as [|o os] eqn:Eo; simplify_eq; [by split; [lia|]|].
  destruct (by_priority (o :: os)) as [ob|] eqn:Eob; [|by simplify_eq].
  assert (audit_mode ob = true).
  { apply first_by_elem in Eob. rewrite <- Eo in Eob. by apply list_elem_of_filter in Eob as [? _]. }
  destruct (_ <? _) eqn:C; simplify_eq; bool_prop; split; try lia; naive_solver lia.
Qed.

Lemma observers_never_disarm_witness :
  exists w e, resolve_precedence (take 2 sample_list) = Some w /\
    effective_rank w <= effective_rank e /\
    (w <> e -> effective_rank w < effective_rank e /\ audit_mode w = true).
Proof.
  destruct (resolve_precedence (take 2 sample_list)) as [w|] eqn:Ew; [|by vm_compute in Ew].
  destruct (resolve_precedence (filter (fun r => audit_mode r = false) (take 2 sample_list)))
    as [e|] eqn:Ee; [|by vm_compute in Ee].
  exists w, e. split; [done|]. exact (observers_never_disarm _ w e Ew Ee).
Defined.

(** the verdict does not depend on the order in which candidates were collected.  For two
    permutations of one candidate list whose winners' rules are not exempt from softening, the decision
    is the same. *)
Theorem resolve_order_independent cfg rs1 rs2 w1 w2 :
  packs_enforce rs1 -> rs1 ≡ₚ rs2 ->
  resolve_with_packs rs1 = Some w1 -> resolve_with_packs rs2 = Some w2 ->
  is_exempt cfg (rule_id (r_decision w1)) = false ->
  is_exempt cfg (rule_id (r_decision w2)) = false ->
  decision (apply_policy_mode cfg w1) = decision (apply_policy_mode cfg w2).
Proof.
  intros Hp P H1 H2 X1 X2. apply rank_inj. rewrite !apply_policy_mode_exact by done.
  assert (packs_enforce rs2) by (intros r Hr; apply Hp; by rewrite P).
  apply resolve_with_packs_rank in H1, H2; [|done..].
  rewrite (resolved_rank_perm _ _ P) in H1. congruence.
Qed.

Lemma resolve_order_independent_witness :
  exists w1 w2, resolve_with_packs sample_list = Some w1 /\
    resolve_with_packs (reverse sample_list) = Some w2 /\
    decision (apply_policy_mode default_settings w1) = decision (apply_policy_mode default_settings w2).
Proof.
  destruct (resolve_with_packs sample_list) as [w1|] eqn:E1; [|by vm_compute in E1].
  destruct (resolve_with_packs (reverse sample_list)) as [w2|] eqn:E2; [|by vm_compute in E2].
  exists w1, w2. split; [done|split; [done|]].
  apply (resolve_order_independent default_settings sample_list (reverse sample_list) w1 w2);
    [apply sample_packs_enforce|by rewrite reverse_Permutation|done|done| |];
    [vm_compute in E1|vm_compute in E2]; by simplify_eq.
Defined.
