(* ===== verification/InprocCache.v ===== *)
(** * The per-pod L1 cache ([norviq/engine/inproc_cache.py], [TTLCache])

    An [OrderedDict] from keys to (expiry instant, value) with first-in first-out eviction.  The dict
    is an association list, oldest entry first; the monotonic clock is an argument of the operations
    that read it.  [_MISS] is [None]. *)

From S2P Require Import Prelude Config.

Record TTLCache (K V : Type) := mkTTLCache {
  ttl : Q;
  max_size : nat;
  data : list (K * (Q * V));
}.
Arguments mkTTLCache {K V}.
Arguments ttl {K V}.
Arguments max_size {K V}.
Arguments data {K V}.

Section Cache.
Context {K V : Type} `{EqDecision K}.

(** [TTLCache(ttl_s, max_entries)]. *)
Definition new_cache (ttl_s : Q) (max_entries : Z) : TTLCache K V :=
  mkTTLCache ttl_s (Z.to_nat (Z.max 1 max_entries)) [].

Definition enabled (c : TTLCache K V) : bool := Qltb 0 (ttl c).

Definition with_data (c : TTLCache K V) (d : list (K * (Q * V))) : TTLCache K V :=
  mkTTLCache (ttl c) (max_size c) d.

(** [self._data.get(key)]. *)
Fixpoint dict_get (k : K) (d : list (K * (Q * V))) : option (Q * V) :=
  match d with
  | [] => None
  | (k', e) :: d' => if decide (k = k') then Some e else dict_get k d'
  end.

(** [self._data.pop(key, None)]. *)
Definition dict_pop (k : K) (d : list (K * (Q * V))) : list (K * (Q * V)) :=
  filter (fun p => p.1 <> k) d.

(** The eviction loop of [set]: [popitem(last=False)] while there are too many entries. *)
Fixpoint evict (max : nat) (d : list (K * (Q * V))) : list (K * (Q * V)) :=
  match d with
  | [] => []
  | _ :: d' => if (max <? length d)%nat then evict max d' else d
  end.

Definition get (c : TTLCache K V) (k : K) (now : Q) : TTLCache K V * option V :=
  if Qle_bool (ttl c) 0 then (c, None)
  else match dict_get k (data c) with
  | None => (c, None)
  | Some (expires_at, v) =>
      if Qle_bool expires_at now then (with_data c (dict_pop k (data c)), None)
      else (c, Some v)
  end.

Definition set (c : TTLCache K V) (k : K) (v : V) (now : Q) : TTLCache K V :=
  if Qle_bool (ttl c) 0 then c
  else with_data c (evict (max_size c) (dict_pop k (data c) ++ [(k, ((now + ttl c)%Q, v))])).

Definition invalidate (c : TTLCache K V) (k : K) : TTLCache K V :=
  with_data c (dict_pop k (data c)).

Definition clear (c : TTLCache K V) : TTLCache K V := with_data c [].

Definition cache_len (c : TTLCache K V) : nat := length (data c).

(** ** Histories *)

Inductive op : Type :=
  | OGet (k : K) (now : Q)
  | OSet (k : K) (v : V) (now : Q)
  | OInvalidate (k : K)
  | OClear.

Definition apply_op (c : TTLCache K V) (o : op) : TTLCache K V :=
  match o with
  | OGet k now => (get c k now).1
  | OSet k v now => set c k v now
  | OInvalidate k => invalidate c k
  | OClear => clear c
  end.

Definition run (c : TTLCache K V) (ops : list op) : TTLCache K V := foldl apply_op c ops.

(** The operations that remove or replace what is stored under [k]. *)
Definition overwrites (k : K) (o : op) : Prop :=
  match o with
  | OGet _ _ => False
  | OSet k' _ _ => k' = k
  | OInvalidate k' => k' = k
  | OClear => True
  end.

(** Well-formedness: one entry per key, and no more entries than the cap, which is positive. *)
Record wf (c : TTLCache K V) : Prop := {
  wf_nodup : NoDup (map fst (data c));
  wf_max : (1 <= max_size c)%nat;
  wf_size : (cache_len c <= max_size c)%nat;
}.

(** ** Lemmas *)

Lemma dict_get_elem k d e : dict_get k d = Some e -> (k, e) ∈ d.
Proof.
  induction d as [|[k' e'] d IH]; simpl; [done|].
  destruct (decide (k = k')); [|rewrite elem_of_cons; auto]. intros [= ->]. subst. left.
Qed.

Lemma dict_get_app k d1 d2 :
  dict_get k (d1 ++ d2) = match dict_get k d1 with Some e => Some e | None => dict_get k d2 end.
Proof. induction d1 as [|[k' e'] d1 IH]; simpl; [done|]. by destruct (decide (k = k')). Qed.

Lemma dict_get_pop k k' d :
  dict_get k (dict_pop k' d) = if decide (k = k') then None else dict_get k d.
Proof.
  unfold dict_pop. induction d as [|[k0 e0] d IH]; simpl; [by case_decide|].
  rewrite filter_cons. simpl. destruct (decide (k0 <> k')) as [Hn|Hn]; simpl;
    repeat case_decide; subst; try done; naive_solver.
Qed.

Lemma dict_pop_keys k d : map fst (dict_pop k d) = filter (fun x => x <> k) (map fst d).
Proof.
  unfold dict_pop. induction d as [|[k0 e0] d IH]; [done|]. simpl. rewrite !filter_cons. simpl.
  case_decide; simpl; [f_equal|]; done.
Qed.

Lemma dict_pop_nodup k d : NoDup (map fst d) -> NoDup (map fst (dict_pop k d)).
Proof. rewrite dict_pop_keys. apply NoDup_filter. Qed.

Lemma evict_suffix max d : exists d0, d = d0 ++ evict max d.
Proof.
  induction d as [|x d [d0 IH]]; [by exists []|]. cbn [evict].
  destruct (_ <? _)%nat; [|by exists []]. exists (x :: d0). simpl. by f_equal.
Qed.

Lemma evict_length max d : (length (evict max d) <= max)%nat.
Proof.
  induction d as [|x d IH]; cbn [evict]; [simpl; lia|].
  destruct (max <? length (x :: d))%nat eqn:E; [done|]. by apply Nat.ltb_ge in E.
Qed.

(** Eviction keeps the newest entry: the cap is at least one. *)
Lemma evict_last max d x : (1 <= max)%nat -> exists d1, evict max (d ++ [x]) = d1 ++ [x].
Proof.
  intros Hm. induction d as [|y d IH]; cbn [evict app].
  - destruct (max <? length [x])%nat eqn:E; [|by exists []]. apply Nat.ltb_lt in E. simpl in E. lia.
  - destruct (_ <? _)%nat; [done|]. by exists (y :: d).
Qed.

Lemma evict_nodup max d : NoDup (map fst d) -> NoDup (map fst (evict max d)).
Proof.
  destruct (evict_suffix max d) as [d0 E]. rewrite E at 1. rewrite map_app, NoDup_app. naive_solver.
Qed.

Lemma evict_get max k e d :
  NoDup (map fst d) -> dict_get k (evict max d) = Some e -> dict_get k d = Some e.
Proof.
  destruct (evict_suffix max d) as [d0 E]. intros Hn H. rewrite E, dict_get_app, H.
  destruct (dict_get k d0) as [e'|] eqn:E'; [|done]. exfalso.
  rewrite E, map_app in Hn. apply NoDup_app in Hn as (_ & Hd & _).
  apply dict_get_elem in E', H.
  apply (Hd k); [apply (list_elem_of_fmap_2 fst _ _ E')|apply (list_elem_of_fmap_2 fst _ _ H)].
Qed.

Lemma dict_get_in k d : k ∈ map fst d -> is_Some (dict_get k d).
Proof.
  induction d as [|[k' e'] d IH]; simpl; [by intros ?%elem_of_nil|].
  intros [->|H]%elem_of_cons; [rewrite decide_True by done; eauto|].
  destruct (decide (k = k')); eauto.
Qed.

Lemma nodup_snoc k e d :
  NoDup (map fst d) -> NoDup (map fst (dict_pop k d ++ [(k, e)])).
Proof.
  intros Hn. rewrite map_app. apply NoDup_app. split; [by apply dict_pop_nodup|].
  split; [|repeat constructor; by intros ?%elem_of_nil].
  intros x Hx [->|?%elem_of_nil]%elem_of_cons; [|done]. simpl in Hx.
  rewrite dict_pop_keys in Hx. by apply list_elem_of_filter in Hx as [? _].
Qed.

Lemma wf_new t m : wf (new_cache t m).
Proof. constructor; unfold cache_len; simpl; [constructor|lia|lia]. Qed.

Lemma wf_pop c k : wf c -> wf (with_data c (dict_pop k (data c))).
Proof.
  intros [H1 H2 H3]. constructor; [by apply dict_pop_nodup|done|]. unfold cache_len, with_data, dict_pop in *.
  simpl. etransitivity; [apply length_filter|done].
Qed.

Lemma apply_op_wf c o : wf c -> wf (apply_op c o).
Proof.
  intros H. destruct o as [k now|k v now|k|]; simpl.
  - unfold get. destruct (Qle_bool _ _); [done|]. destruct (dict_get _ _) as [[]|]; [|done].
    destruct (Qle_bool _ _); [by apply wf_pop|done].
  - unfold set. destruct (Qle_bool _ _); [done|]. destruct H as [H1 H2 H3].
    constructor; simpl; [by apply evict_nodup, nodup_snoc|done|apply evict_length].
  - by apply wf_pop.
  - destruct H. constructor; [constructor|done|]. unfold cache_len. simpl. lia.
Qed.

Lemma run_app c ops1 ops2 : run c (ops1 ++ ops2) = run (run c ops1) ops2.
Proof. apply foldl_app. Qed.

Lemma run_wf c ops : wf c -> wf (run c ops).
Proof.
  revert c. induction ops as [|o ops IH]; intros c H; [done|]. simpl. by apply IH, apply_op_wf.
Qed.

Lemma apply_op_ttl c o : ttl (apply_op c o) = ttl c.
Proof.
  destruct o; simpl; [|by unfold set; destruct (Qle_bool _ _)|done|done].
  unfold get. destruct (Qle_bool _ _); [done|]. destruct (dict_get _ _) as [[]|]; [|done].
  by destruct (Qle_bool _ _).
Qed.

Lemma run_ttl c ops : ttl (run c ops) = ttl c.
Proof.
  revert c. induction ops as [|o ops IH]; intros c; [done|]. simpl. by rewrite IH, apply_op_ttl.
Qed.

Lemma enabled_ttl c : enabled c = true -> Qle_bool (ttl c) 0 = false.
Proof. unfold enabled, Qltb. by rewrite negb_true_iff. Qed.

(** One operation either leaves the entry of [k] alone (or drops it), or is the write of it. *)
Lemma apply_op_get c o k e :
  wf c -> enabled c = true -> dict_get k (data (apply_op c o)) = Some e ->
  (dict_get k (data c) = Some e /\ ~ overwrites k o) \/
  exists v now, o = OSet k v now /\ e = ((now + ttl c)%Q, v).
Proof.
  intros Hwf En%enabled_ttl. destruct o as [k' now|k' v now|k'|]; simpl.
  - unfold get. rewrite En. destruct (dict_get k' _) as [[x v]|]; [|auto].
    destruct (Qle_bool x now); [|auto]. simpl. rewrite dict_get_pop. case_decide; [done|auto].
  - unfold set. rewrite En. simpl. intros H.
    apply evict_get in H; [|by apply nodup_snoc; destruct Hwf].
    rewrite dict_get_app, dict_get_pop in H. simpl in H.
    destruct (decide (k = k')) as [->|Hne].
    + right. exists v, now. by simplify_eq.
    + left. split; [|done]. by destruct (dict_get k (data c)).
  - rewrite dict_get_pop. case_decide; [done|]. left. split; [done|]. congruence.
  - done.
Qed.

(** Whatever is stored under a key was put there by the last operation that touched the key. *)
Lemma run_get c ops k e :
  wf c -> enabled c = true -> data c = [] -> dict_get k (data (run c ops)) = Some e ->
  exists ops1 v t ops2, ops = ops1 ++ OSet k v t :: ops2 /\
    e = ((t + ttl c)%Q, v) /\ Forall (fun o => ~ overwrites k o) ops2.
Proof.
  intros Hwf En Hd. revert e. induction ops as [|o ops IH] using rev_ind; intros e.
  { simpl. by rewrite Hd. }
  rewrite run_app. simpl. intros H. apply apply_op_get in H.
  - destruct H as [[H Ho]|(v & now & -> & ->)].
    + destruct (IH _ H) as (ops1 & v & t & ops2 & -> & -> & HF).
      exists ops1, v, t, (ops2 ++ [o]). rewrite <- app_assoc. split_and!; [done|done|].
      apply Forall_app. auto.
    + exists ops, v, now, []. split_and!; [done| |constructor]. by rewrite run_ttl.
  - by apply run_wf.
  - unfold enabled. by rewrite run_ttl.
Qed.

End Cache.

Arguments op : clear implicits.

(** ** Theorems *)

(** the cache never holds more entries than its cap nor two entries for one key, through every
    history of reads, writes, invalidations and clears, whatever the instants. *)
Theorem cache_bounded {K V} `{EqDecision K} (t : Q) (m : Z) (ops : list (op K V)) :
  (cache_len (run (new_cache t m) ops) <= Z.to_nat (Z.max 1 m))%nat /\
  NoDup (map fst (data (run (new_cache t m) ops))).
Proof.
  destruct (run_wf (new_cache t m) ops (wf_new t m)) as [H1 _ H2]. split; [|done].
  assert (E : max_size (run (new_cache t m) ops) = max_size (new_cache (K:=K) (V:=V) t m)).
  { clear. generalize (new_cache (K:=K) (V:=V) t m). induction ops as [|o ops IH]; intros c; [done|].
    simpl. rewrite IH. destruct o; simpl; [|by unfold set; destruct (Qle_bool _ _)|done|done].
    unfold get. destruct (Qle_bool _ _); [done|]. destruct (dict_get _ _) as [[]|]; [|done].
    by destruct (Qle_bool _ _). }
  rewrite E in H2. done.
Qed.

(** a hit is fresh and is the last write.  Whatever the history of the cache, a [get] that hits at
    instant [now] returns the value of a [set] of that key made less than the TTL ago, and since that
    [set] the key was neither rewritten nor invalidated nor the cache cleared. *)
Theorem cache_hit_fresh {K V} `{EqDecision K} t m (ops : list (op K V)) k now v :
  (get (run (new_cache t m) ops) k now).2 = Some v ->
  exists ops1 t0 ops2, ops = ops1 ++ OSet k v t0 :: ops2 /\ (now < t0 + t)%Q /\
    Forall (fun o => ~ overwrites k o) ops2.
Proof.
  unfold get. rewrite run_ttl. simpl. destruct (Qle_bool t 0) eqn:En; [done|].
  destruct (dict_get _ _) as [[x v']|] eqn:E; [|done].
  destruct (Qle_bool x now) eqn:L; [done|]. intros [= ->].
  apply run_get in E as (ops1 & v' & t0 & ops2 & -> & [= -> <-] & HF);
    [|apply wf_new|by unfold enabled, Qltb; simpl; rewrite En|done].
  exists ops1, t0, ops2. split_and!; [done| |done]. by apply Qle_bool_false in L.
Qed.

Lemma cache_hit_fresh_witness :
  exists ops1 t0 ops2,
    [OSet "a" 1 0; OSet "b" 2 1; OGet "b" 2] = ops1 ++ OSet "a" 1 t0 :: ops2 /\ (3 < t0 + 5)%Q /\
    Forall (fun o => ~ overwrites "a" o) ops2.
Proof. apply (cache_hit_fresh 5 10 _ "a" 3 1). vm_compute. reflexivity. Defined.

(** a write is served until its expiry: in an enabled cache, whatever was stored before, a value
    that was just set is returned by a [get] at any instant before the TTL has passed. *)
Theorem cache_set_get {K V} `{EqDecision K} t m (ops : list (op K V)) k v t0 now :
  (0 < t)%Q -> (now < t0 + t)%Q ->
  (get (set (run (new_cache t m) ops) k v t0) k now).2 = Some v.
Proof.
  intros Ht Hnow. pose proof (run_wf (new_cache t m) ops (wf_new t m)) as [H1 H2 _].
  assert (En : Qle_bool t 0 = false) by (by apply negb_true_iff, Qltb_lt).
  unfold set. rewrite run_ttl. simpl. rewrite En. unfold get. simpl. rewrite run_ttl. simpl. rewrite En.
  set (d := dict_pop k (data (run (new_cache t m) ops))).
  destruct (evict_last (max_size (run (new_cache t m) ops)) d (k, ((t0 + t)%Q, v)) H2) as [d1 E].
  rewrite E, dict_get_app. simpl. rewrite decide_True by done.
  assert (dict_get k d1 = None) as ->.
  { destruct (dict_get k d1) as [e|] eqn:E1; [|done]. exfalso.
    assert (N : NoDup (map fst (d1 ++ [(k, ((t0 + t)%Q, v))]))) by (rewrite <- E; by apply evict_nodup, nodup_snoc).
    rewrite map_app in N. apply NoDup_app in N as (_ & N & _). apply dict_get_elem in E1.
    apply (N k); [apply (list_elem_of_fmap_2 fst _ _ E1)|left]. }
  assert (Qle_bool (t0 + t) now = false) as ->; [|done].
  by apply negb_true_iff, Qltb_lt.
Qed.

Lemma cache_set_get_witness :
  (get (set (run (new_cache 5 1) [OSet "a" 1 0]) "b" 2 1) "b" 3).2 = Some 2.
Proof. apply cache_set_get; by vm_compute. Defined.
