(* ===== verification/Effects.v ===== *)
(** * Effects: a state monad with exceptions, external faults and a clock

    The engine is asynchronous Python: each [await] on PostgreSQL, Redis or OPA may raise, and what
    was changed before the exception stays changed.  [M S A] is a computation over a state [S] that
    ends with a value or an exception, the state being kept in both cases.

    Which external call fails is not under the program's control: the state carries a list of
    outcomes ([faults]), consumed one per external call; a computation is correct when it is for
    every such list.  The clock advances by a list of steps ([ticks]) in the same way. *)

From S2P Require Import Prelude.

(** The exceptions the modelled code tells apart. *)
Inductive exc : Type :=
  | ETimeout            (* [asyncio.TimeoutError] *)
  | EInvalidSpiffe      (* [InvalidSpiffeIdentity] *)
  | ENotFound           (* [NorviqError] *)
  | EOther.             (* any other [Exception] *)

#[global] Instance exc_eq_dec : EqDecision exc.
Proof. solve_decision. Defined.

Definition M (S A : Type) : Type := S -> S * (exc + A).

#[global] Instance M_ret S : MRet (M S) := fun A a s => (s, inr a).
#[global] Instance M_bind S : MBind (M S) := fun A B k m s =>
  match m s with
  | (s', inr a) => k a s'
  | (s', inl e) => (s', inl e)
  end.

Section Ops.
Context {S : Type}.

Definition raise {A} (e : exc) : M S A := fun s => (s, inl e).

(** [try: m except Exception as e: h(e)]. *)
Definition try_with {A} (m : M S A) (h : exc -> M S A) : M S A := fun s =>
  match m s with
  | (s', inl e) => h e s'
  | r => r
  end.

Definition get_state : M S S := fun s => (s, inr s).
Definition modify (f : S -> S) : M S unit := fun s => (f s, inr tt).

(** [for x in l: f(x)], left to right, stopping at the first exception. *)
Fixpoint for_each {A B} (l : list A) (f : A -> M S B) : M S (list B) :=
  match l with
  | [] => mret []
  | x :: l' => y ← f x; ys ← for_each l' f; mret (y :: ys)
  end.

(** ** Reasoning: a computation preserves a relation between its first and last state *)

Definition keeps (R : S -> S -> Prop) {A} (m : M S A) : Prop := forall s, R s (m s).1.

Context (R : S -> S -> Prop) `{!PreOrder R}.

Lemma keeps_ret {A} (a : A) : keeps R (mret a).
Proof. intros s. simpl. reflexivity. Qed.

Lemma keeps_raise {A} e : keeps R (@raise A e).
Proof. intros s. simpl. reflexivity. Qed.

Lemma keeps_get : keeps R get_state.
Proof. intros s. simpl. reflexivity. Qed.

Lemma keeps_modify f : (forall s, R s (f s)) -> keeps R (modify f).
Proof. intros H s. apply H. Qed.

Lemma keeps_bind {A B} (m : M S A) (k : A -> M S B) :
  keeps R m -> (forall a, keeps R (k a)) -> keeps R (mbind k m).
Proof.
  intros Hm Hk s. unfold mbind, M_bind. specialize (Hm s).
  destruct (m s) as [s' [e|a]]; simpl in *; [done|]. etransitivity; [exact Hm|apply Hk].
Qed.

Lemma keeps_try {A} (m : M S A) h :
  keeps R m -> (forall e, keeps R (h e)) -> keeps R (try_with m h).
Proof.
  intros Hm Hh s. unfold try_with. specialize (Hm s).
  destruct (m s) as [s' [e|a]]; simpl in *; [|done]. etransitivity; [exact Hm|apply Hh].
Qed.

Lemma keeps_for_each {A B} (l : list A) (f : A -> M S B) :
  (forall a, keeps R (f a)) -> keeps R (for_each l f).
Proof.
  intros H. induction l as [|x l IH]; simpl; [apply keeps_ret|].
  apply keeps_bind; [done|]. intros y. apply keeps_bind; [done|]. intros ys. apply keeps_ret.
Qed.

End Ops.

(** ** Reasoning: weakest preconditions

    [wp m Q E s]: run from [s], [m] ends in a state satisfying [Q] with its value, or raises in a
    state satisfying [E]. *)
Section Wp.
Context {S : Type}.

Definition wp {A} (m : M S A) (Q : A -> S -> Prop) (E : exc -> S -> Prop) (s : S) : Prop :=
  match m s with
  | (s', inr a) => Q a s'
  | (s', inl e) => E e s'
  end.

Lemma wp_ret {A} (a : A) (Q : A -> S -> Prop) E s : Q a s -> wp (mret a) Q E s.
Proof. done. Qed.

Lemma wp_raise {A} e (Q : A -> S -> Prop) (E : exc -> S -> Prop) s : E e s -> wp (raise e) Q E s.
Proof. done. Qed.

Lemma wp_get (Q : S -> S -> Prop) E s : Q s s -> wp get_state Q E s.
Proof. done. Qed.

Lemma wp_modify f (Q : unit -> S -> Prop) E s : Q tt (f s) -> wp (modify f) Q E s.
Proof. done. Qed.

Lemma wp_bind {A B} (m : M S A) (k : A -> M S B) Q E s :
  wp m (fun a => wp (k a) Q E) E s -> wp (mbind k m) Q E s.
Proof. unfold wp, mbind, M_bind. by destruct (m s) as [s' [e|a]]. Qed.

Lemma wp_try {A} (m : M S A) h Q E s :
  wp m Q (fun e => wp (h e) Q E) s -> wp (try_with m h) Q E s.
Proof. unfold wp, try_with. by destruct (m s) as [s' [e|a]]. Qed.

Lemma wp_mono {A} (m : M S A) (Q Q' : A -> S -> Prop) (E E' : exc -> S -> Prop) s :
  wp m Q E s -> (forall a s', Q a s' -> Q' a s') -> (forall e s', E e s' -> E' e s') -> wp m Q' E' s.
Proof. unfold wp. destruct (m s) as [s' [e|a]]; auto. Qed.

(** What a kept relation gives for free. *)
Lemma wp_keeps {A} (R : S -> S -> Prop) (m : M S A) s :
  keeps R m -> wp m (fun _ => R s) (fun _ => R s) s.
Proof. intros H. specialize (H s). unfold wp. by destruct (m s) as [s' [e|a]]. Qed.

Lemma wp_and {A} (m : M S A) (Q1 Q2 : A -> S -> Prop) (E1 E2 : exc -> S -> Prop) s :
  wp m Q1 E1 s -> wp m Q2 E2 s ->
  wp m (fun a s' => Q1 a s' /\ Q2 a s') (fun e s' => E1 e s' /\ E2 e s') s.
Proof. unfold wp. destruct (m s) as [s' [e|a]]; auto. Qed.

End Wp.

Create HintDb keeps.
#[export] Hint Resolve keeps_ret keeps_raise keeps_get keeps_bind keeps_try keeps_for_each : keeps.
