(* ===== verification/Trust.v ===== *)
(** * Behavioural trust ([norviq/engine/trust/], [norviq/sdk/core/trust.py])

    Seven signals over an agent's recent history and its profile, the weighted score with its
    violation cap, the admin freeze and cap, the categories and the recommendation.  Instants are
    microseconds (the resolution of [datetime]); scores, weights and rates are exact rationals where
    the source has floats.  [math.log2] and [json.dumps], whose values are the platform's floats and
    their spelling, are parameters. *)

From S2P Require Import Prelude Config.


(** ** Data ([trust/models.py], the history rows, the profile) *)

(** [entry.get("timestamp")]: an instant, a string [fromisoformat] rejects, or nothing usable. *)
Inductive stamp : Type := NoStamp | At (us : Z) | Malformed.

Record HistEntry := mkHist {
  h_tool : option string;
  h_param : option string;
  h_decision : option string;
  h_stamp : stamp;
  h_unix : option Z;
}.

Record EntropyBaseline := mkBaseline { b_mean : option Q; b_std : option Q }.

Record Profile := mkProfile {
  known_tools : list string;
  allowed_tools : list string;
  blocked_tools : list string;
  baseline_rpm : Q;
  param_entropy_baseline : list (string * EntropyBaseline);
  p_agent_class : string;
}.

Record TrustInput := mkTrustInput {
  ti_spiffe_id : list Z;
  ti_namespace : string;
  ti_agent_class : string;
  ti_tool_name : string;
  ti_tool_params : list (string * json);
  ti_session_id : string;
  ti_chain_depth : Z;
  ti_timestamp : Z;
}.

Record TrustResult := mkTrustResult {
  tr_score : Q;
  tr_category : string;
  tr_signals : list (string * Q);
  tr_weights : list (string * Q);
  tr_dominant : string;
  tr_recommendation : string;
}.

Definition SECOND : Z := 1000000.
Definition HOUR : Z := 3600 * SECOND.

(** ** [collapse_repeated_refusals] ([signals/base.py]) *)

Definition is_block (e : HistEntry) : bool := bool_decide (h_decision e = Some "block").

(** [sorted(history, key=lambda e: e.get("timestamp_unix") or 0)]. *)
Definition by_time (h : list HistEntry) : list HistEntry :=
  sort_by (fun e => (default 0 (h_unix e), 0)) h.

(** The key of a refusal: both parts present and non-empty. *)
Definition refusal_key (e : HistEntry) : option (string * string) :=
  match h_tool e, h_param e with
  | Some t, Some p => if is_block e && nonempty t && nonempty p then Some (t, p) else None
  | _, _ => None
  end.

(** The loop, with its [seen] set. *)
Fixpoint collapse_from (seen : list (string * string)) (h : list HistEntry) : list HistEntry :=
  match h with
  | [] => []
  | e :: h' =>
      match refusal_key e with
      | Some k => if bool_decide (k ∈ seen) then collapse_from seen h'
                  else e :: collapse_from (k :: seen) h'
      | None => e :: collapse_from seen h'
      end
  end.

Definition collapse_repeated_refusals (h : list HistEntry) : list HistEntry :=
  collapse_from [] (by_time h).

(** ** The signals: [None] is an exception inside [compute] *)

Definition ratio (a b : nat) : Q := Z.of_nat a # Pos.of_nat b.

(** [ViolationRateSignal.compute]. *)
Definition violation_rate (h : list HistEntry) : option Q :=
  let h := collapse_repeated_refusals h in
  match h with
  | [] => Some 1%Q
  | _ :: _ =>
      let blocked := length (filter (fun e => is_block e = true) h) in
      let rate := ratio blocked (length h) in
      Some (if Qeq_bool rate 0 then 1
            else if Qle_bool rate (2 # 100) then 8 # 10
            else if Qle_bool rate (5 # 100) then 6 # 10
            else if Qle_bool rate (10 # 100) then 4 # 10
            else if Qle_bool rate (20 # 100) then 2 # 10 else 0)%Q
  end.

(** [ToolNoveltySignal.compute]. *)
Definition tool_novelty (inp : TrustInput) (h : list HistEntry) (p : Profile) : option Q :=
  match known_tools p with
  | [] => Some (5 # 10)
  | known =>
      let recent := map h_tool (drop (length h - 20) h) in
      let is_known := bool_decide (ti_tool_name inp ∈ known) in
      let extra := if is_known then 0%nat else 1%nat in
      let unknown (n : option string) : bool :=
        match n with None => true | Some t => negb (bool_decide (t ∈ known)) end in
      let novel := (length (filter (fun n => unknown n = true) recent) + extra)%nat in
      let rate := ratio novel (Nat.max 1 (length recent + extra)) in
      Some (if is_known
            then if Qle_bool rate (10 # 100) then 1 else if Qle_bool rate (30 # 100) then 7 # 10 else 5 # 10
            else if Qle_bool rate (10 # 100) then 7 # 10 else if Qle_bool rate (30 # 100) then 4 # 10
                 else 2 # 10)%Q
  end.

(** [ScopeDriftSignal.compute]. *)
Definition scope_drift (inp : TrustInput) (p : Profile) : option Q :=
  match allowed_tools p, blocked_tools p with
  | [], [] => Some (7 # 10)
  | _, _ =>
      Some (if bool_decide (ti_tool_name inp ∈ blocked_tools p) then 0
            else if bool_decide (ti_tool_name inp ∈ allowed_tools p) then 1 else 5 # 10)%Q
  end.

(** [ChainDepthSignal.compute]. *)
Definition chain_depth (inp : TrustInput) : option Q :=
  let d := ti_chain_depth inp in
  Some (if d <=? 0 then 1 else if d =? 1 then 8 # 10 else if d =? 2 then 6 # 10
        else if d =? 3 then 4 # 10 else 2 # 10)%Q.

(** [SessionVelocitySignal._in_window]. *)
Definition in_window (window_start : Z) (e : HistEntry) : option bool :=
  match h_stamp e with
  | At us => Some (window_start <=? us)
  | NoStamp => Some true
  | Malformed => None
  end.

(** Number of entries the window holds; [None] when one timestamp does not parse. *)
Fixpoint count_window (window_start : Z) (h : list HistEntry) : option nat :=
  match h with
  | [] => Some 0%nat
  | e :: h' =>
      b ← in_window window_start e;
      n ← count_window window_start h';
      Some (if b : bool then S n else n)
  end.

(** [SessionVelocitySignal.compute]. *)
Definition session_velocity (inp : TrustInput) (h : list HistEntry) (p : Profile) : option Q :=
  let baseline := if Qeq_bool (baseline_rpm p) 0 then 10%Q else baseline_rpm p in
  n ← count_window (ti_timestamp inp - 60 * SECOND) h;
  let r := (inject_Z (Z.of_nat n + 1) / baseline)%Q in
  Some (if Qle_bool r 1 then 1 else if Qle_bool r 2 then 8 # 10 else if Qle_bool r 3 then 5 # 10
        else 3 # 10)%Q.

(** [TimeDecaySignal._to_dt]. *)
Definition to_dt (now : Z) (s : stamp) : option Z :=
  match s with At us => Some us | NoStamp => Some now | Malformed => None end.

(** [max(self._to_dt(...) for entry in blocked)]. *)
Fixpoint latest_block (now : Z) (blocked : list HistEntry) : option (option Z) :=
  match blocked with
  | [] => Some None
  | e :: b =>
      t ← to_dt now (h_stamp e);
      r ← latest_block now b;
      Some (Some (match r with None => t | Some t' => Z.max t t' end))
  end.

(** [TimeDecaySignal.compute]; [now] is its own reading of the clock. *)
Definition time_decay (now : Z) (h : list HistEntry) : option Q :=
  let blocked := filter (fun e => is_block e = true) (collapse_repeated_refusals h) in
  l ← latest_block now blocked;
  match l with
  | None => Some 1%Q
  | Some latest =>
      let age := now - latest in
      Some (if 24 * HOUR <=? age then 1 else if 12 * HOUR <=? age then 8 # 10
            else if 6 * HOUR <=? age then 6 # 10 else if HOUR <=? age then 4 # 10
            else if 600 * SECOND <=? age then 2 # 10 else 1 # 10)%Q
  end.

Section Entropy.
(** [math.log2] and [json.dumps(params, sort_keys=True)]. *)
Context (log2 : Q -> Q) (json_dumps : list (string * json) -> string).

(** [Counter(payload)]: one count per distinct character, in order of first occurrence. *)
Fixpoint counter_add (c : Ascii.ascii) (l : list (Ascii.ascii * nat)) : list (Ascii.ascii * nat) :=
  match l with
  | [] => [(c, 1%nat)]
  | (d, n) :: l' => if Ascii.eqb c d then (d, S n) :: l' else (d, n) :: counter_add c l'
  end.

Fixpoint counter_onto (acc : list (Ascii.ascii * nat)) (s : string) : list (Ascii.ascii * nat) :=
  match s with
  | EmptyString => acc
  | String c s' => counter_onto (counter_add c acc) s'
  end.

(** [ParamEntropySignal._entropy]. *)
Definition entropy (payload : string) : Q :=
  if negb (nonempty payload) then 0%Q
  else
    let len := String.length payload in
    (- fold_right (fun cn acc => ratio cn.2 len * log2 (ratio cn.2 len) + acc) 0
         (counter_onto [] payload))%Q.

Definition entropy_of_params (params : list (string * json)) : Q := entropy (json_dumps params).

(** [ParamEntropySignal.compute]. *)
Definition param_entropy (inp : TrustInput) (p : Profile) : option Q :=
  let e := entropy_of_params (ti_tool_params inp) in
  let baseline := default (mkBaseline None None) (assoc (ti_tool_name inp) (param_entropy_baseline p)) in
  let mean := default 4%Q (b_mean baseline) in
  let std0 := default 1%Q (b_std baseline) in
  let std := if Qeq_bool std0 0 then 1%Q else std0 in
  let z := ((e - mean) / std)%Q in
  Some (if Qle_bool z 1 then 1 else if Qle_bool z 2 then 7 # 10 else if Qle_bool z 3 then 4 # 10
        else 2 # 10)%Q.

(** [_compute_signals]: each value clamped to [0, 1]; a signal that raises counts as one half. *)
Definition clamp01 (q : Q) : Q := Qmax 0 (Qmin 1 q).

Definition settle (v : option Q) : Q := match v with Some q => clamp01 q | None => 5 # 10 end.

Definition compute_signals (now : Z) (inp : TrustInput) (h : list HistEntry) (p : Profile)
    : list (string * Q) :=
  [ ("violation_rate", settle (violation_rate h));
    ("tool_novelty", settle (tool_novelty inp h p));
    ("scope_drift", settle (scope_drift inp p));
    ("param_entropy", settle (param_entropy inp p));
    ("time_decay", settle (time_decay now h));
    ("chain_depth", settle (chain_depth inp));
    ("session_velocity", settle (session_velocity inp h p)) ].

End Entropy.

(** ** The calculator ([calculator.py]) *)

Definition WEIGHTS : list (string * Q) :=
  [ ("violation_rate", 25 # 100); ("tool_novelty", 20 # 100); ("scope_drift", 15 # 100);
    ("param_entropy", 15 # 100); ("time_decay", 10 # 100); ("chain_depth", 10 # 100);
    ("session_velocity", 5 # 100) ].

Definition VIOLATION_CAPS : list (Q * Q) :=
  [ (20 # 100, 30 # 100); (10 # 100, 45 # 100); (5 # 100, 60 # 100) ].

Definition MIN_OBSERVATIONS_FOR_CAP : nat := 20.

(** [self._VIOLATION_CAPS[i][1]]. *)
Definition violation_cap_at (i : nat) : Q := match VIOLATION_CAPS !! i with Some c => c.2 | None => 0 end.

(** [_violation_cap]. *)
Definition violation_cap (signals : list (string * Q)) (sample_size : nat) : Q :=
  if (sample_size <? MIN_OBSERVATIONS_FOR_CAP)%nat then 1%Q
  else
    let violation := default 1%Q (assoc "violation_rate" signals) in
    if Qle_bool (8 # 10) violation then 1%Q
    else if Qle_bool violation 0 then violation_cap_at 0
    else if Qle_bool violation (2 # 10) then violation_cap_at 1
    else if Qle_bool violation (4 # 10) then violation_cap_at 2
    else 1%Q.

(** The sum of [_weighted_sum], before the cap and the rounding. *)
Definition weighted (signals : list (string * Q)) : Q :=
  fold_right (fun w acc => (w.2 * default 0 (assoc w.1 signals) + acc)%Q) 0%Q WEIGHTS.

(** [_weighted_sum]. *)
Definition weighted_sum (signals : list (string * Q)) (sample_size : nat) : Q :=
  round4 (Qmin (weighted signals) (violation_cap signals sample_size)).

(** [_tiers]. *)
Definition tiers (threshold : option Q) : option Q * option Q :=
  match threshold with
  | None => (None, None)
  | Some t =>
      let high := Qmax 0 (Qmin 1 t) in
      let low := Qmax 0 (Qmin 1 (round4 (high * ((4 # 10) / (7 # 10))))) in
      (Some high, Some low)
  end.

(** [_categorize]. *)
Definition categorize (score : Q) (frozen : bool) (high_thr low_thr : option Q) : string :=
  if frozen then "frozen"
  else if Qeq_bool score 0 then "low"
  else
    let high := default (7 # 10) high_thr in
    let low := default (4 # 10) low_thr in
    if Qle_bool high score then "high" else if Qle_bool low score then "medium" else "low".

(** [max(signals, key=...)] keeps the first of several maxima. *)
Definition distrust (s : string * Q) : Q := (default 0 (assoc s.1 WEIGHTS) * (1 - s.2))%Q.

Fixpoint arg_max (best : string * Q) (l : list (string * Q)) : string * Q :=
  match l with
  | [] => best
  | s :: l' => arg_max (if Qltb (distrust best) (distrust s) then s else best) l'
  end.

(** [_find_dominant_signal]. *)
Definition find_dominant_signal (signals : list (string * Q)) : string :=
  match signals with
  | [] => ""
  | s :: l => let m := arg_max s l in if Qltb 0 (distrust m) then m.1 else ""
  end.

(** [_recommend]. *)
Definition recommend (score : Q) (category : string) : string :=
  if bool_decide (category = "frozen") then "freeze"
  else if Qltb score (4 # 10) then "escalate" else "allow".

(** The tail of [calculate], once history, profile, freeze flag, cap and signals are known. *)
Definition assess (signals : list (string * Q)) (h : list HistEntry) (threshold : option Q)
    (is_frozen : bool) (override : option Q) : TrustResult :=
  let observed := length (collapse_repeated_refusals h) in
  let computed := if is_frozen then 0%Q else weighted_sum signals observed in
  let capped :=
    match override with Some o => Qltb o computed && negb is_frozen | None => false end in
  let score :=
    match override with
    | Some o => if capped then round4 (Qmin computed o) else computed
    | None => computed
    end in
  let '(high_thr, low_thr) := tiers threshold in
  let category := categorize score is_frozen high_thr low_thr in
  let dominant :=
    if capped && negb (bool_decide (category = "high")) then "manual_override"
    else find_dominant_signal signals in
  mkTrustResult score category signals WEIGHTS dominant (recommend score category).

(** What [_safe_history] substitutes for an unreadable history: twenty keyless blocks. *)
Definition unavailable_history (now : Z) : list HistEntry :=
  replicate 20 (mkHist None None (Some "block") (At now) None).

(** The profiles [_safe_profile_and_frozen] falls back to. *)
Definition default_profile (agent_class : string) : Profile :=
  mkProfile [] [] [] 10 [] agent_class.

Definition conservative_profile (inp : TrustInput) : Profile :=
  mkProfile [] [] [ti_tool_name inp] 1
    [(ti_tool_name inp, mkBaseline (Some 1%Q) (Some (2 # 10)))] (ti_agent_class inp).

(** [calculate], once its reads are done. *)
Definition calculate_from (log2 : Q -> Q) (json_dumps : list (string * json) -> string) (now : Z)
    (inp : TrustInput) (h : list HistEntry) (p : Profile) (threshold : option Q)
    (is_frozen : bool) (override : option Q) : TrustResult :=
  assess (compute_signals log2 json_dumps now inp h p) h threshold is_frozen override.

(** ** Lemmas on the collapse *)

Lemma collapse_from_seen seen h e k :
  refusal_key e = Some k -> (k ∈ seen \/ exists e', e' ∈ h /\ refusal_key e' = Some k) ->
  collapse_from seen (h ++ [e]) = collapse_from seen h.
Proof.
  intros Hk. revert seen. induction h as [|x h IH]; intros seen Hin; simpl.
  - rewrite Hk. rewrite bool_decide_true; [done|]. destruct Hin as [|(e' & H & _)]; [done|].
    by apply elem_of_nil in H.
  - destruct (refusal_key x) as [kx|] eqn:Ex.
    + case_bool_decide; [apply IH|f_equal; apply IH].
      * destruct Hin as [|(e' & [->|?]%elem_of_cons & ?)]; naive_solver.
      * destruct Hin as [|(e' & [->|?]%elem_of_cons & ?)]; [set_solver|left|naive_solver].
        simplify_eq. left.
    + f_equal. apply IH. destruct Hin as [|(e' & [->|?]%elem_of_cons & ?)]; naive_solver.
Qed.

(** A retry of a refused call, no older than the rest, leaves the collapsed history unchanged. *)
Lemma collapse_retry h e e' k :
  refusal_key e = Some k -> e' ∈ h -> refusal_key e' = Some k ->
  (forall x, x ∈ h -> default 0 (h_unix x) <= default 0 (h_unix e)) ->
  collapse_repeated_refusals (h ++ [e]) = collapse_repeated_refusals h.
Proof.
  intros Hk Hin Hk' Hle. unfold collapse_repeated_refusals, by_time.
  rewrite sort_by_snoc.
  2: { intros x Hx. apply key_leb_spec. simpl. specialize (Hle x Hx). lia. }
  eapply collapse_from_seen; [done|]. right. exists e'. split; [|done].
  by rewrite sort_by_perm.
Qed.

Lemma collapse_from_keys seen h :
  NoDup (omap refusal_key (collapse_from seen h)) /\
  forall k, k ∈ omap refusal_key (collapse_from seen h) -> k ∉ seen.
Proof.
  revert seen. induction h as [|x h IH]; intros seen; simpl.
  { split; [constructor|]. by intros k ?%elem_of_nil. }
  destruct (refusal_key x) as [kx|] eqn:Ex.
  - case_bool_decide; [apply IH|]. destruct (IH (kx :: seen)) as [N F]. simpl. rewrite Ex. split.
    + constructor; [|done]. intros Hk. apply (F _ Hk). left.
    + intros k [->|Hk]%elem_of_cons; [done|]. specialize (F k Hk). set_solver.
  - simpl. rewrite Ex. apply IH.
Qed.

Lemma collapse_from_others seen h :
  filter (fun e => refusal_key e = None) (collapse_from seen h)
  = filter (fun e => refusal_key e = None) h.
Proof.
  revert seen. induction h as [|x h IH]; intros seen; [done|]. cbn [collapse_from].
  destruct (refusal_key x) as [kx|] eqn:Ex.
  - rewrite (filter_cons_False _ x h) by congruence.
    case_bool_decide; [apply IH|]. rewrite filter_cons_False by congruence. apply IH.
  - rewrite !filter_cons_True by done. f_equal. apply IH.
Qed.

Lemma collapse_from_covers seen h k :
  k ∈ omap refusal_key h -> k ∈ seen \/ k ∈ omap refusal_key (collapse_from seen h).
Proof.
  revert seen. induction h as [|x h IH]; intros seen; simpl; [by intros ?%elem_of_nil|].
  destruct (refusal_key x) as [kx|] eqn:Ex.
  - intros [->|Hk]%elem_of_cons.
    + case_bool_decide; [auto|]. right. simpl. rewrite Ex. left.
    + case_bool_decide; [auto|]. simpl. rewrite Ex. destruct (IH (kx :: seen) Hk) as [H1|H1]; set_solver.
  - intros Hk. simpl. rewrite Ex. auto.
Qed.

Lemma collapse_from_sub seen h e : e ∈ collapse_from seen h -> e ∈ h.
Proof.
  revert seen. induction h as [|x h IH]; intros seen; simpl; [done|].
  destruct (refusal_key x); [case_bool_decide|]; rewrite ?elem_of_cons; naive_solver.
Qed.

Lemma collapse_sub h e : e ∈ collapse_repeated_refusals h -> e ∈ h.
Proof.
  intros H%collapse_from_sub. unfold by_time in H. by rewrite sort_by_perm in H.
Qed.

(** ** Lemmas on the score *)

Lemma settle_bounds v : (0 <= settle v <= 1)%Q.
Proof. destruct v as [q|]; [apply clamp_bounds|]. split; vm_compute; congruence. Qed.

Definition signals_ok (s : list (string * Q)) : Prop :=
  forall n, (0 <= default 0%Q (assoc n s) <= 1)%Q.

Lemma signals_ok_Forall s : Forall (fun x => (0 <= x.2 <= 1)%Q) s -> signals_ok s.
Proof.
  intros F n. induction F as [|[m q] s Hq F IH]; simpl; [lra|]. by case_bool_decide.
Qed.

Lemma compute_signals_ok log2 dumps now inp h p : signals_ok (compute_signals log2 dumps now inp h p).
Proof. apply signals_ok_Forall. repeat constructor; apply settle_bounds. Qed.

Lemma weighted_bounds s : signals_ok s -> (0 <= weighted s <= 1)%Q.
Proof.
  intros H. unfold weighted, WEIGHTS. cbn [fold_right fst snd].
  pose proof (H "violation_rate"). pose proof (H "tool_novelty"). pose proof (H "scope_drift").
  pose proof (H "param_entropy"). pose proof (H "time_decay"). pose proof (H "chain_depth").
  pose proof (H "session_velocity"). lra.
Qed.

Lemma violation_cap_bounds s n : (3 # 10 <= violation_cap s n <= 1)%Q.
Proof.
  unfold violation_cap, violation_cap_at. simpl.
  repeat (match goal with |- context [if ?b then _ else _] => destruct b end); lra.
Qed.

Lemma weighted_sum_bounds s n : signals_ok s -> (0 <= weighted_sum s n <= 1)%Q.
Proof.
  intros H%weighted_bounds. pose proof (violation_cap_bounds s n). unfold weighted_sum. split.
  - apply (round4_ge_fixed 0); [done|]. destruct (Qmin_cases (weighted s) (violation_cap s n)) as [[_ ->]|[_ ->]]; lra.
  - apply (round4_le_fixed 10000); [done|].
    destruct (Qmin_cases (weighted s) (violation_cap s n)) as [[_ ->]|[_ ->]]; lra.
Qed.

Lemma weighted_sum_capped s n : (round4 (violation_cap s n) >= weighted_sum s n)%Q.
Proof. apply round4_mono, Q.le_min_r. Qed.

(** The score of [assess], case by case. *)
Lemma assess_score s h thr fr ov :
  (tr_score (assess s h thr fr ov) ==
   if fr then 0
   else let c := weighted_sum s (length (collapse_repeated_refusals h)) in
        match ov with None => c | Some o => if Qltb o c then round4 o else c end)%Q.
Proof.
  unfold assess. destruct (tiers thr) as [hi lo]. simpl.
  destruct fr; destruct ov as [o|]; simpl; try reflexivity.
  - rewrite andb_false_r. reflexivity.
  - rewrite andb_true_r. destruct (Qltb o _) eqn:E; [|reflexivity].
    apply Qltb_lt in E. rewrite Q.min_r by lra. reflexivity.
Qed.

Lemma assess_category s h thr fr ov :
  tr_category (assess s h thr fr ov)
  = categorize (tr_score (assess s h thr fr ov)) fr (tiers thr).1 (tiers thr).2.
Proof. unfold assess. by destruct (tiers thr). Qed.

Lemma categorize_frozen q fr hi lo : categorize q fr hi lo = "frozen" <-> fr = true.
Proof.
  unfold categorize. destruct fr; [done|].
  repeat match goal with |- context [if ?b then _ else _] => destruct b end; done.
Qed.

Lemma violation_rate_high h :
  let c := collapse_repeated_refusals h in
  (length c < 5 * length (filter (fun e => is_block e = true) c))%nat -> violation_rate h = Some 0%Q.
Proof.
  intros c Hlt. unfold violation_rate. fold c. destruct c as [|x c'] eqn:E; [simpl in Hlt; lia|].
  set (b := length (filter (fun e => is_block e = true) (x :: c'))) in *.
  set (n := length (x :: c')) in *. assert (0 < n)%nat by (unfold n; simpl; lia).
  assert (Hr : (20 # 100 < ratio b n)%Q).
  { unfold ratio, Qlt. simpl. lia. }
  assert (Hle : forall q, (q <= 20 # 100)%Q -> Qle_bool (ratio b n) q = false).
  { intros q Hq. apply not_true_iff_false. rewrite Qle_bool_iff. lra. }
  rewrite !Hle by lra. destruct (Qeq_bool (ratio b n) 0) eqn:Z; [|done].
  apply Qeq_bool_iff in Z. exfalso. lra.
Qed.

Lemma violation_rate_clean h :
  (forall e, e ∈ h -> is_block e = false) -> violation_rate h = Some 1%Q.
Proof.
  intros Hb. unfold violation_rate.
  assert (filter (fun e => is_block e = true) (collapse_repeated_refusals h) = []) as ->.
  { destruct (filter (fun e => is_block e = true) (collapse_repeated_refusals h)) as [|e l] eqn:E; [done|].
    exfalso. assert (He : e ∈ filter (fun e => is_block e = true) (collapse_repeated_refusals h))
      by (rewrite E; left).
    apply list_elem_of_filter in He as [H1 H2%collapse_sub]. rewrite Hb in H1; done. }
  by destruct (collapse_repeated_refusals h).
Qed.

(** ** Theorems *)

#[local] Arguments weighted_sum : simpl never.
#[local] Arguments weighted : simpl never.
#[local] Arguments compute_signals : simpl never.
#[local] Arguments round4 : simpl never.
#[local] Arguments collapse_repeated_refusals : simpl never.

Section Theorems.
Context (log2 : Q -> Q) (json_dumps : list (string * json) -> string).

(** the trust score is a probability-like value: whatever the history, the profile, the clock and
    the behaviour of the platform's logarithm, the score lies between 0 and 1, provided the stored admin
    cap, when there is one, is not negative. *)
Theorem score_in_unit now inp h p thr fr ov :
  (forall o, ov = Some o -> (0 <= o)%Q) ->
  (0 <= tr_score (calculate_from log2 json_dumps now inp h p thr fr ov) <= 1)%Q.
Proof.
  intros Ho. unfold calculate_from. rewrite assess_score.
  set (n := length _). pose proof (weighted_sum_bounds _ n (compute_signals_ok log2 json_dumps now inp h p)) as B.
  destruct fr; [lra|]. destruct ov as [o|]; cbv zeta; [|exact B].
  destruct (Qltb o _) eqn:E; [|exact B]. apply Qltb_lt in E. specialize (Ho o eq_refl). split.
  - by apply (round4_ge_fixed 0).
  - apply (round4_le_fixed 10000); [done|]. lra.
Qed.

(** the admin cap only tightens.  The score under a cap is at most the score without it, and for
    an agent that is not frozen it is at most the cap (rounded to four decimals). *)
Theorem cap_only_tightens now inp h p thr fr o :
  (tr_score (calculate_from log2 json_dumps now inp h p thr fr (Some o)) <=
   tr_score (calculate_from log2 json_dumps now inp h p thr fr None))%Q /\
  (fr = false -> (tr_score (calculate_from log2 json_dumps now inp h p thr fr (Some o)) <= round4 o)%Q).
Proof.
  unfold calculate_from. rewrite !assess_score. destruct fr; [split; [apply Qle_refl|intros; discriminate]|]. cbv zeta.
  set (s := compute_signals _ _ _ _ _ _). set (n := length _).
  assert (F : (round4 (weighted_sum s n) == weighted_sum s n)%Q) by apply round4_idem.
  destruct (Qltb o (weighted_sum s n)) eqn:E.
  - apply Qltb_lt in E. split; [|intros _; apply Qle_refl].
    rewrite <- F. apply round4_mono. lra.
  - apply Qltb_ge in E. split; [apply Qle_refl|]. intros _. rewrite <- F. by apply round4_mono.
Qed.

Lemma frozen_category now inp h p thr fr ov :
  tr_category (calculate_from log2 json_dumps now inp h p thr fr ov) = "frozen" <-> fr = true.
Proof. unfold calculate_from. by rewrite assess_category, categorize_frozen. Qed.

(** the category is "frozen" exactly when the admin freeze flag was read as set; then the score is
    0 and the recommendation is to freeze.  No behaviour, threshold or cap freezes an agent. *)
Theorem frozen_iff_flag now inp h p thr fr ov :
  let r := calculate_from log2 json_dumps now inp h p thr fr ov in
  (tr_category r = "frozen" <-> fr = true) /\
  (fr = true -> (tr_score r == 0)%Q /\ tr_recommendation r = "freeze").
Proof.
  split; [apply frozen_category|]. unfold calculate_from.
  intros ->. rewrite assess_score. split; [reflexivity|].
  unfold assess. destruct (tiers thr). done.
Qed.

(** a sustained violation rate reaches the escalation band.  An agent with at least twenty
    observations (a refused call counted once however often it was retried) of which more than a fifth
    were blocked scores at most 0.30, and under the default tiers is "low" (or frozen), whatever its
    other six signals say. *)
Theorem sustained_violations_escalate now inp h p fr ov :
  let c := collapse_repeated_refusals h in
  (20 <= length c)%nat -> (length c < 5 * length (filter (fun e => is_block e = true) c))%nat ->
  let r := calculate_from log2 json_dumps now inp h p None fr ov in
  (tr_score r <= 3 # 10)%Q /\ (tr_category r = "low" \/ fr = true).
Proof.
  intros c Hn Hb. unfold calculate_from. set (s := compute_signals _ _ _ _ _ _). cbv zeta.
  assert (Hcap : (weighted_sum s (length c) <= 3 # 10)%Q).
  { assert (E : violation_cap s (length c) = violation_cap_at 0).
    { unfold violation_cap. assert ((length c <? MIN_OBSERVATIONS_FOR_CAP)%nat = false) as ->
        by (apply Nat.ltb_ge; exact Hn).
      unfold s, compute_signals. cbn [assoc]. rewrite bool_decide_true by done. cbn [default].
      rewrite (violation_rate_high h) by exact Hb. done. }
    pose proof (weighted_sum_capped s (length c)) as L. rewrite E in L.
    eapply Qle_trans; [exact L|]. by vm_compute. }
  assert (Hs : (tr_score (assess s h None fr ov) <= 3 # 10)%Q).
  { rewrite assess_score. destruct fr; [lra|]. fold c. cbv zeta. destruct ov as [o|]; [|exact Hcap].
    destruct (Qltb o _) eqn:E; [|exact Hcap]. apply Qltb_lt in E.
    apply (round4_le_fixed 3000); [done|]. lra. }
  split; [exact Hs|]. destruct fr; [by right|]. left. rewrite assess_category. unfold categorize.
  cbn [tiers fst snd default]. destruct (Qeq_bool _ 0); [done|].
  assert (forall q, (3 # 10 < q)%Q -> Qle_bool q (tr_score (assess s h None false ov)) = false) as Hle.
  { intros q Hq. apply not_true_iff_false. rewrite Qle_bool_iff. lra. }
  rewrite !Hle by lra. done.
Qed.

(** an agent that is never blocked is never capped by its history: with no block in the history,
    no freeze and no admin cap, its score is the plain weighted sum of the signals. *)
Theorem compliant_agent_uncapped now inp h p thr :
  (forall e, e ∈ h -> is_block e = false) ->
  (tr_score (calculate_from log2 json_dumps now inp h p thr false None) ==
   round4 (weighted (compute_signals log2 json_dumps now inp h p)))%Q.
Proof.
  intros Hb. unfold calculate_from. rewrite assess_score. cbv zeta. unfold weighted_sum.
  set (s := compute_signals _ _ _ _ _ _).
  assert (E : violation_cap s (length (collapse_repeated_refusals h)) = 1%Q).
  { unfold violation_cap. destruct (_ <? _)%nat; [done|].
    unfold s, compute_signals. cbn [assoc]. rewrite bool_decide_true by done. cbn [default].
    by rewrite violation_rate_clean. }
  rewrite E, Q.min_l; [reflexivity|]. apply weighted_bounds, compute_signals_ok.
Qed.

End Theorems.

(** A history that repeats one refusal, and one that keeps varying it, for the witnesses. *)
Definition refusal (tool params : string) (t : Z) : HistEntry :=
  mkHist (Some tool) (Some params) (Some "block") (At (t * SECOND)) (Some (t * SECOND)).

Definition probing : list HistEntry :=
  map (fun i => mkHist (Some "run") (Some (if (i <? 10)%nat then String (Ascii.ascii_of_nat (65 + i)) EmptyString else "same"))
         (Some (if (i <? 10)%nat then "block" else "allow")) (At 0) (Some (Z.of_nat i))) (seq 0 30).

Definition sample_input : TrustInput :=
  mkTrustInput [] "prod" "support" "search" [] "s1" 0 (100 * SECOND).

Lemma score_in_unit_witness :
  (0 <= tr_score (calculate_from (fun _ => 0%Q) (fun _ => "") 0 sample_input probing (default_profile "support")
      None false (Some (1 # 2))) <= 1)%Q.
Proof. apply score_in_unit. intros o [= <-]. by vm_compute. Defined.

Lemma sustained_violations_escalate_witness :
  let r := calculate_from (fun _ => 0%Q) (fun _ => "") 0 sample_input probing (default_profile "support")
    None false None in
  (tr_score r <= 3 # 10)%Q /\ (tr_category r = "low" \/ false = true).
Proof. apply sustained_violations_escalate; apply Nat.leb_le; by vm_compute. Defined.

Lemma compliant_agent_uncapped_witness :
  let h := [mkHist (Some "search") (Some "p") (Some "allow") (At 0) (Some 0)] in
  (tr_score (calculate_from (fun _ => 0%Q) (fun _ => "") 0 sample_input h (default_profile "support") None false None)
   == round4 (weighted (compute_signals (fun _ => 0%Q) (fun _ => "") 0 sample_input h (default_profile "support"))))%Q.
Proof.
  apply compliant_agent_uncapped. intros e [->|H]%elem_of_cons; [by vm_compute|by apply elem_of_nil in H].
Defined.

(** collapsing repeated refusals removes repetition and nothing else.  The result holds each refused
    (tool, parameters) pair exactly once, holds every pair that was refused, and holds every entry that
    is not a keyed refusal, in time order. *)
Theorem collapse_exact h :
  let c := collapse_repeated_refusals h in
  NoDup (omap refusal_key c) /\
  (forall k, k ∈ omap refusal_key c <-> k ∈ omap refusal_key h) /\
  filter (fun e => refusal_key e = None) c = filter (fun e => refusal_key e = None) (by_time h).
Proof.
  unfold collapse_repeated_refusals. simpl. split_and!.
  - apply collapse_from_keys.
  - intros k. rewrite !list_elem_of_omap. split.
    + intros (e & He%collapse_from_sub & Hk). exists e. split; [|done].
      unfold by_time in He. by rewrite sort_by_perm in He.
    + intros (e & He & Hk).
      destruct (collapse_from_covers [] (by_time h) k) as [H|H]; [|by apply elem_of_nil in H|].
      * apply list_elem_of_omap. exists e. split; [|done]. unfold by_time. by rewrite sort_by_perm.
      * by apply list_elem_of_omap in H.
  - apply collapse_from_others.
Qed.

(** retrying a refused call does not cost further trust through the refusal signals.  Appending to
    the history another refusal of a call that history already holds, no older than the rest, leaves
    the violation-rate and time-decay signals and the observation count of the cap unchanged. *)
Theorem retries_cost_nothing h e e' k now :
  refusal_key e = Some k -> e' ∈ h -> refusal_key e' = Some k ->
  (forall x, x ∈ h -> default 0 (h_unix x) <= default 0 (h_unix e)) ->
  violation_rate (h ++ [e]) = violation_rate h /\ time_decay now (h ++ [e]) = time_decay now h /\
  length (collapse_repeated_refusals (h ++ [e])) = length (collapse_repeated_refusals h).
Proof.
  intros Hk Hin Hk' Hle. unfold violation_rate, time_decay.
  by rewrite !(collapse_retry h e e' k).
Qed.

Lemma retries_cost_nothing_witness :
  violation_rate ([refusal "run" "p" 1] ++ [refusal "run" "p" 2]) = violation_rate [refusal "run" "p" 1] /\
  time_decay 0 ([refusal "run" "p" 1] ++ [refusal "run" "p" 2]) = time_decay 0 [refusal "run" "p" 1] /\
  length (collapse_repeated_refusals ([refusal "run" "p" 1] ++ [refusal "run" "p" 2]))
  = length (collapse_repeated_refusals [refusal "run" "p" 1]).
Proof.
  apply (retries_cost_nothing _ _ (refusal "run" "p" 1) ("run", "p")); [done|left|done|].
  intros x [->|H]%elem_of_cons; [done|by apply elem_of_nil in H].
Defined.

(** saving the displayed default threshold is a no-op: with a namespace threshold of 0.7 every
    score falls in the category it has with no threshold at all. *)
Theorem default_threshold_noop score fr :
  categorize score fr (tiers (Some (7 # 10)%Q)).1 (tiers (Some (7 # 10)%Q)).2 = categorize score fr None None.
Proof.
  unfold categorize. destruct fr; [done|]. destruct (Qeq_bool score 0); [done|].
  assert (forall a b q, (a == b)%Q -> Qle_bool a q = Qle_bool b q) as P.
  { intros a b q E. apply eq_true_iff_eq. rewrite !Qle_bool_iff. by rewrite E. }
  cbn [default].
  rewrite (P (default (7 # 10) (tiers (Some (7 # 10))).1)%Q (7 # 10)%Q) by (by vm_compute).
  by rewrite (P (default (4 # 10) (tiers (Some (7 # 10))).2)%Q (4 # 10)%Q) by (by vm_compute).
Qed.

(** the recommendation ignores the namespace threshold.  Under a threshold of 0.9 a score of 0.45
    is in the "low" category, which the evaluator turns into an escalation, while the recommendation
    recorded with it still reads "allow". *)
Theorem recommendation_ignores_threshold :
  exists t score,
    let cat := categorize score false (tiers (Some t)).1 (tiers (Some t)).2 in
    cat = "low" /\ recommend score cat = "allow".
Proof. exists (9 # 10)%Q, (45 # 100)%Q. by vm_compute. Qed.
