(* ===== verification/World.v ===== *)
(** * The engine's world

    The stores the engine works on, as one state: PostgreSQL's [policies] and [policy_versions],
    Redis, OPA's module store, the loader's and the evaluator's own fields, and what the process
    queues and publishes.  Code outside the repository, and the pure helpers of it that are not
    modelled, are the operations of the class [Externals]: every theorem holds for all of them. *)

From S2P Require Import Prelude Text ModuleText Config Decisions InprocCache Effects Trust.

(** ** Records of the stores *)

(** A loader entry: [{"rego", "priority", "enforcement_mode"}]. *)
Record Entry := mkEntry { e_rego : text; e_priority : Z; e_mode : string }.

(** An evaluator index entry: [{"rego", "priority", "package_name"}]. *)
Record IndexEntry := mkIndex { ix_rego : text; ix_priority : Z; ix_package : option text }.

(** A row of [policies], unique per (namespace, agent class). *)
Record Row := mkRow {
  row_rego : text;
  row_priority : option Z;
  row_mode : option string;
  row_version : Z;
  row_applied_at : option Z;
}.

Record PolicyVersion := mkVersion {
  pv_version : Z;
  pv_rego : text;
  pv_priority : Z;
  pv_mode : string;
  pv_saved_by : string;
  pv_saved_at : Z;
}.

(** The mirrored per-namespace settings, nulls preserved. *)
Record NsSettings := mkNs { ns_mode : option string; ns_threshold : option Q; ns_rate_limit : option Z }.

(** The posture dict of [_resolve_posture]. *)
Record Posture := mkPosture { monitor : bool; po_threshold : option Q; po_rate_limit : Z }.

(** [TrustScore] ([sdk/core/trust.py]). *)
Record TrustScore := mkTrustScore { ts_score : Q; ts_category : string; ts_violation_count : Z }.

(** Work queued on the event loop by one decision. *)
Inductive Task : Type :=
  | TPersistTrust (who : list Z) (r : TrustResult)
  | TSetTrust (who : list Z) (r : TrustResult)
  | TRegisterAgent (event : ToolCallEvent) (r : TrustResult) (d : PolicyDecision)
  | TRecordGraph (event : ToolCallEvent) (d : PolicyDecision)
  | TRecordHistory (event : ToolCallEvent) (d : PolicyDecision)
  | TUpdateProfile (event : ToolCallEvent) (d : PolicyDecision)
  | TAudit (d : PolicyDecision).

(** Messages on the two policy channels. *)
Inductive Message : Type :=
  | PolicyInvalidated (key : string)
  | PolicyEvent (operation ns cls : string) (version : Z).

(** [PolicyLoader]. *)
Record LoaderState := mkLoader {
  policies : gmap string Entry;  (* [_policies]: key to entry *)
  versions : gmap string (list PolicyVersion);  (* [_versions] *)
  applied_at : gmap string Z;  (* [_applied_at] *)
  warmed : bool;  (* [_warmed] *)
  bound : bool;  (* the evaluator has been given its loader *)
}.
Definition set_policies (x : gmap string Entry) (s : LoaderState) : LoaderState :=
  {| policies := x; versions := versions s; applied_at := applied_at s; warmed := warmed s; bound := bound s |}.
Definition set_versions (x : gmap string (list PolicyVersion)) (s : LoaderState) : LoaderState :=
  {| policies := policies s; versions := x; applied_at := applied_at s; warmed := warmed s; bound := bound s |}.
Definition set_applied_at (x : gmap string Z) (s : LoaderState) : LoaderState :=
  {| policies := policies s; versions := versions s; applied_at := x; warmed := warmed s; bound := bound s |}.
Definition set_warmed (x : bool) (s : LoaderState) : LoaderState :=
  {| policies := policies s; versions := versions s; applied_at := applied_at s; warmed := x; bound := bound s |}.
Definition set_bound (x : bool) (s : LoaderState) : LoaderState :=
  {| policies := policies s; versions := versions s; applied_at := applied_at s; warmed := warmed s; bound := x |}.

(** [OPAEvaluator] and its [TrustCalculator]: the per-process state. *)
Record EvalState := mkEval {
  index : gmap string IndexEntry;  (* [_policies] of the evaluator *)
  posture_cache : TTLCache string Posture;
  trust_score_cache : TTLCache (list Z) TrustScore;
  inproc_eval_cache : TTLCache (string * string * string) PolicyDecision;
  history_cache : TTLCache (list Z) (list HistEntry);
  profile_cache : TTLCache (list Z * string) Profile;
  supersede_memo : gmap (text * text) bool;
  pushed : gmap string text;  (* [_pushed]: key to source digest *)
  dryrun_keys : list string;  (* [_dryrun_keys], oldest first *)
  engine_error_count : Z;
}.
Definition set_index (x : gmap string IndexEntry) (s : EvalState) : EvalState :=
  {| index := x; posture_cache := posture_cache s; trust_score_cache := trust_score_cache s; inproc_eval_cache := inproc_eval_cache s; history_cache := history_cache s; profile_cache := profile_cache s; supersede_memo := supersede_memo s; pushed := pushed s; dryrun_keys := dryrun_keys s; engine_error_count := engine_error_count s |}.
Definition set_posture_cache (x : TTLCache string Posture) (s : EvalState) : EvalState :=
  {| index := index s; posture_cache := x; trust_score_cache := trust_score_cache s; inproc_eval_cache := inproc_eval_cache s; history_cache := history_cache s; profile_cache := profile_cache s; supersede_memo := supersede_memo s; pushed := pushed s; dryrun_keys := dryrun_keys s; engine_error_count := engine_error_count s |}.
Definition set_trust_score_cache (x : TTLCache (list Z) TrustScore) (s : EvalState) : EvalState :=
  {| index := index s; posture_cache := posture_cache s; trust_score_cache := x; inproc_eval_cache := inproc_eval_cache s; history_cache := history_cache s; profile_cache := profile_cache s; supersede_memo := supersede_memo s; pushed := pushed s; dryrun_keys := dryrun_keys s; engine_error_count := engine_error_count s |}.
Definition set_inproc_eval_cache (x : TTLCache (string * string * string) PolicyDecision) (s : EvalState) : EvalState :=
  {| index := index s; posture_cache := posture_cache s; trust_score_cache := trust_score_cache s; inproc_eval_cache := x; history_cache := history_cache s; profile_cache := profile_cache s; supersede_memo := supersede_memo s; pushed := pushed s; dryrun_keys := dryrun_keys s; engine_error_count := engine_error_count s |}.
Definition set_history_cache (x : TTLCache (list Z) (list HistEntry)) (s : EvalState) : EvalState :=
  {| index := index s; posture_cache := posture_cache s; trust_score_cache := trust_score_cache s; inproc_eval_cache := inproc_eval_cache s; history_cache := x; profile_cache := profile_cache s; supersede_memo := supersede_memo s; pushed := pushed s; dryrun_keys := dryrun_keys s; engine_error_count := engine_error_count s |}.
Definition set_profile_cache (x : TTLCache (list Z * string) Profile) (s : EvalState) : EvalState :=
  {| index := index s; posture_cache := posture_cache s; trust_score_cache := trust_score_cache s; inproc_eval_cache := inproc_eval_cache s; history_cache := history_cache s; profile_cache := x; supersede_memo := supersede_memo s; pushed := pushed s; dryrun_keys := dryrun_keys s; engine_error_count := engine_error_count s |}.
Definition set_supersede_memo (x : gmap (text * text) bool) (s : EvalState) : EvalState :=
  {| index := index s; posture_cache := posture_cache s; trust_score_cache := trust_score_cache s; inproc_eval_cache := inproc_eval_cache s; history_cache := history_cache s; profile_cache := profile_cache s; supersede_memo := x; pushed := pushed s; dryrun_keys := dryrun_keys s; engine_error_count := engine_error_count s |}.
Definition set_pushed (x : gmap string text) (s : EvalState) : EvalState :=
  {| index := index s; posture_cache := posture_cache s; trust_score_cache := trust_score_cache s; inproc_eval_cache := inproc_eval_cache s; history_cache := history_cache s; profile_cache := profile_cache s; supersede_memo := supersede_memo s; pushed := x; dryrun_keys := dryrun_keys s; engine_error_count := engine_error_count s |}.
Definition set_dryrun_keys (x : list string) (s : EvalState) : EvalState :=
  {| index := index s; posture_cache := posture_cache s; trust_score_cache := trust_score_cache s; inproc_eval_cache := inproc_eval_cache s; history_cache := history_cache s; profile_cache := profile_cache s; supersede_memo := supersede_memo s; pushed := pushed s; dryrun_keys := x; engine_error_count := engine_error_count s |}.
Definition set_engine_error_count (x : Z) (s : EvalState) : EvalState :=
  {| index := index s; posture_cache := posture_cache s; trust_score_cache := trust_score_cache s; inproc_eval_cache := inproc_eval_cache s; history_cache := history_cache s; profile_cache := profile_cache s; supersede_memo := supersede_memo s; pushed := pushed s; dryrun_keys := dryrun_keys s; engine_error_count := x |}.

(** Redis: the keys the engine reads and writes.  Values are held decoded. *)
Record Redis := mkRedis {
  rd_eval : gmap (string * string * string) (PolicyDecision * Z);  (* eval:<ns>:<class>:<tool> with its expiry *)
  rd_ns : gmap string NsSettings;  (* nsconfig:<ns> *)
  rd_trust : gmap (list Z) TrustScore;  (* trust:<id> *)
  rd_frozen : gset (list Z);  (* agent_frozen:<id> *)
  rd_cap : gmap (list Z) (option Q);  (* agent_trust_override:<id>, None when the value does not parse *)
  rd_calls : gmap (list Z) (Z * option Z);  (* callcount:<id> with its expiry, None when it has none *)
  rd_history : gmap (list Z) (list (Z * HistEntry));  (* agent_history:<id>, with scores *)
  rd_profile : gmap (list Z) (option Profile);  (* agent_profile:<id>, None when it does not decode *)
  rd_class : gmap string (list string * list string);  (* agent_class:<class>: allowed and blocked tools *)
}.
Definition set_rd_eval (x : gmap (string * string * string) (PolicyDecision * Z)) (s : Redis) : Redis :=
  {| rd_eval := x; rd_ns := rd_ns s; rd_trust := rd_trust s; rd_frozen := rd_frozen s; rd_cap := rd_cap s; rd_calls := rd_calls s; rd_history := rd_history s; rd_profile := rd_profile s; rd_class := rd_class s |}.
Definition set_rd_ns (x : gmap string NsSettings) (s : Redis) : Redis :=
  {| rd_eval := rd_eval s; rd_ns := x; rd_trust := rd_trust s; rd_frozen := rd_frozen s; rd_cap := rd_cap s; rd_calls := rd_calls s; rd_history := rd_history s; rd_profile := rd_profile s; rd_class := rd_class s |}.
Definition set_rd_trust (x : gmap (list Z) TrustScore) (s : Redis) : Redis :=
  {| rd_eval := rd_eval s; rd_ns := rd_ns s; rd_trust := x; rd_frozen := rd_frozen s; rd_cap := rd_cap s; rd_calls := rd_calls s; rd_history := rd_history s; rd_profile := rd_profile s; rd_class := rd_class s |}.
Definition set_rd_frozen (x : gset (list Z)) (s : Redis) : Redis :=
  {| rd_eval := rd_eval s; rd_ns := rd_ns s; rd_trust := rd_trust s; rd_frozen := x; rd_cap := rd_cap s; rd_calls := rd_calls s; rd_history := rd_history s; rd_profile := rd_profile s; rd_class := rd_class s |}.
Definition set_rd_cap (x : gmap (list Z) (option Q)) (s : Redis) : Redis :=
  {| rd_eval := rd_eval s; rd_ns := rd_ns s; rd_trust := rd_trust s; rd_frozen := rd_frozen s; rd_cap := x; rd_calls := rd_calls s; rd_history := rd_history s; rd_profile := rd_profile s; rd_class := rd_class s |}.
Definition set_rd_calls (x : gmap (list Z) (Z * option Z)) (s : Redis) : Redis :=
  {| rd_eval := rd_eval s; rd_ns := rd_ns s; rd_trust := rd_trust s; rd_frozen := rd_frozen s; rd_cap := rd_cap s; rd_calls := x; rd_history := rd_history s; rd_profile := rd_profile s; rd_class := rd_class s |}.
Definition set_rd_history (x : gmap (list Z) (list (Z * HistEntry))) (s : Redis) : Redis :=
  {| rd_eval := rd_eval s; rd_ns := rd_ns s; rd_trust := rd_trust s; rd_frozen := rd_frozen s; rd_cap := rd_cap s; rd_calls := rd_calls s; rd_history := x; rd_profile := rd_profile s; rd_class := rd_class s |}.
Definition set_rd_profile (x : gmap (list Z) (option Profile)) (s : Redis) : Redis :=
  {| rd_eval := rd_eval s; rd_ns := rd_ns s; rd_trust := rd_trust s; rd_frozen := rd_frozen s; rd_cap := rd_cap s; rd_calls := rd_calls s; rd_history := rd_history s; rd_profile := x; rd_class := rd_class s |}.
Definition set_rd_class (x : gmap string (list string * list string)) (s : Redis) : Redis :=
  {| rd_eval := rd_eval s; rd_ns := rd_ns s; rd_trust := rd_trust s; rd_frozen := rd_frozen s; rd_cap := rd_cap s; rd_calls := rd_calls s; rd_history := rd_history s; rd_profile := rd_profile s; rd_class := x |}.

(** Everything a computation of the engine can see or change. *)
Record World := mkWorld {
  db : gmap (string * string) Row;  (* table policies *)
  dbv : gmap (string * string) (list PolicyVersion);  (* table policy_versions *)
  redis : Redis;
  loader : LoaderState;
  ev : EvalState;
  opa : gmap text text;  (* OPA's module store: module id to source *)
  faults : list (option exc);  (* outcomes of the external calls to come *)
  clock : Z;  (* microseconds *)
  ticks : list Z;  (* how far the clock moves at each reading *)
  tasks : list Task;  (* background work queued by this process *)
  published : list Message;  (* messages sent on the Redis channels *)
}.
Definition set_db (x : gmap (string * string) Row) (s : World) : World :=
  {| db := x; dbv := dbv s; redis := redis s; loader := loader s; ev := ev s; opa := opa s; faults := faults s; clock := clock s; ticks := ticks s; tasks := tasks s; published := published s |}.
Definition set_dbv (x : gmap (string * string) (list PolicyVersion)) (s : World) : World :=
  {| db := db s; dbv := x; redis := redis s; loader := loader s; ev := ev s; opa := opa s; faults := faults s; clock := clock s; ticks := ticks s; tasks := tasks s; published := published s |}.
Definition set_redis (x : Redis) (s : World) : World :=
  {| db := db s; dbv := dbv s; redis := x; loader := loader s; ev := ev s; opa := opa s; faults := faults s; clock := clock s; ticks := ticks s; tasks := tasks s; published := published s |}.
Definition set_loader (x : LoaderState) (s : World) : World :=
  {| db := db s; dbv := dbv s; redis := redis s; loader := x; ev := ev s; opa := opa s; faults := faults s; clock := clock s; ticks := ticks s; tasks := tasks s; published := published s |}.
Definition set_ev (x : EvalState) (s : World) : World :=
  {| db := db s; dbv := dbv s; redis := redis s; loader := loader s; ev := x; opa := opa s; faults := faults s; clock := clock s; ticks := ticks s; tasks := tasks s; published := published s |}.
Definition set_opa (x : gmap text text) (s : World) : World :=
  {| db := db s; dbv := dbv s; redis := redis s; loader := loader s; ev := ev s; opa := x; faults := faults s; clock := clock s; ticks := ticks s; tasks := tasks s; published := published s |}.
Definition set_faults (x : list (option exc)) (s : World) : World :=
  {| db := db s; dbv := dbv s; redis := redis s; loader := loader s; ev := ev s; opa := opa s; faults := x; clock := clock s; ticks := ticks s; tasks := tasks s; published := published s |}.
Definition set_clock (x : Z) (s : World) : World :=
  {| db := db s; dbv := dbv s; redis := redis s; loader := loader s; ev := ev s; opa := opa s; faults := faults s; clock := x; ticks := ticks s; tasks := tasks s; published := published s |}.
Definition set_ticks (x : list Z) (s : World) : World :=
  {| db := db s; dbv := dbv s; redis := redis s; loader := loader s; ev := ev s; opa := opa s; faults := faults s; clock := clock s; ticks := x; tasks := tasks s; published := published s |}.
Definition set_tasks (x : list Task) (s : World) : World :=
  {| db := db s; dbv := dbv s; redis := redis s; loader := loader s; ev := ev s; opa := opa s; faults := faults s; clock := clock s; ticks := ticks s; tasks := x; published := published s |}.
Definition set_published (x : list Message) (s : World) : World :=
  {| db := db s; dbv := dbv s; redis := redis s; loader := loader s; ev := ev s; opa := opa s; faults := faults s; clock := clock s; ticks := ticks s; tasks := tasks s; published := x |}.

(** The document [_build_input] hands to OPA. *)
Record OpaInput := mkInput {
  in_tool_name : string;
  in_tool_name_normalized : string;
  in_tool_params : list (string * json);
  in_tool_params_normalized : list (string * json);
  in_spiffe_id : list Z;          (* agent.spiffe_id *)
  in_namespace : string;          (* agent.namespace *)
  in_agent_class : string;        (* agent.agent_class *)
  in_trust_score : Q;
  in_trust_category : string;
  in_session_id : string;
  in_call_depth : Z;
  in_derived : json;
  in_mcp : list (string * json);
  in_direction : json;
}.

(** ** Code that is not modelled *)

Class Externals := {
  cfg : Settings;
  hash_seg : string -> string;                       (* sha256(segment)[:16] *)
  sha256 : text -> text;                             (* hexdigest of the UTF-8 encoding *)
  sha1_8 : text -> text;                             (* sha1, hexdigest()[:8] *)
  dumps_sorted : list (string * json) -> string;     (* json.dumps(.., sort_keys=True) *)
  log2 : Q -> Q;                                     (* math.log2 *)
  lower : string -> string;                          (* str.lower() *)
  skeleton : string -> string;                       (* confusable skeleton of a tool name *)
  normalize_for_match : list (string * json) -> list (string * json);   (* _normalize_for_match *)
  derived_input : ToolCallEvent -> option json;      (* _derived_input; None: it raised *)
  opa_run : text -> OpaInput -> option json;       (* OPA's answer for a module; None: undefined *)
  opa_fork : text -> text -> OpaInput -> option json;   (* one `opa eval` fork, with its query *)
  py_repr : json -> string;                          (* str() of a value that is not a string *)
  classify_tool : string -> option string;           (* the verb; None: it raised *)
}.

(** ** Primitive effects *)

Notation W := (M World).

(** An external call: consume one outcome. *)
Definition io : W unit := fun w =>
  match faults w with
  | [] => (w, inr tt)
  | None :: fs => (set_faults fs w, inr tt)
  | Some e :: fs => (set_faults fs w, inl e)
  end.

(** Read the clock, which advances. *)
Definition now : W Z := fun w =>
  match ticks w with
  | [] => (w, inr (clock w))
  | t :: ts => let c := clock w + Z.abs t in (set_clock c (set_ticks ts w), inr c)
  end.

(** Microseconds as the seconds of [time.monotonic()]. *)
Definition secs (us : Z) : Q := us # 1000000.

Definition upd_loader (f : LoaderState -> LoaderState) : W unit :=
  modify (fun w => set_loader (f (loader w)) w).
Definition upd_ev (f : EvalState -> EvalState) : W unit := modify (fun w => set_ev (f (ev w)) w).
Definition upd_redis (f : Redis -> Redis) : W unit := modify (fun w => set_redis (f (redis w)) w).
Definition queue (t : Task) : W unit := modify (fun w => set_tasks (tasks w ++ [t]) w).
Definition publish (m : Message) : W unit :=
  io;; modify (fun w => set_published (published w ++ [m]) w).

(** [f"{namespace}:{agent_class}"]. *)
Definition key_of (ns cls : string) : string := ns +:+ ":" +:+ cls.

(** ** Symbolic execution *)

Lemma wp_io (Q : unit -> World -> Prop) (E : exc -> World -> Prop) w :
  (forall fs w', w' = set_faults fs w -> Q tt w') ->
  (forall e fs w', w' = set_faults fs w -> E e w') -> wp io Q E w.
Proof.
  intros HQ HE. unfold wp, io. destruct (faults w) as [|[e|] fs] eqn:F; [|eauto..].
  apply (HQ []). by destruct w; simpl in *; subst.
Qed.

Lemma wp_now (Q : Z -> World -> Prop) (E : exc -> World -> Prop) w :
  (forall t ts w', clock w <= t -> w' = set_clock t (set_ticks ts w) -> Q t w') -> wp now Q E w.
Proof.
  intros HQ. unfold wp, now. destruct (ticks w) as [|t ts] eqn:T.
  - apply (HQ (clock w) []); [lia|]. by destruct w; simpl in *; subst.
  - eapply HQ; [|done]. lia.
Qed.

Lemma wp_upd f (Q : unit -> World -> Prop) (E : exc -> World -> Prop) w :
  (forall w', w' = f w -> Q tt w') -> wp (modify f) Q E w.
Proof. intros HQ. by apply HQ. Qed.

(** One step of the program under a [wp].  Every state change introduces a new world and the equation
    that defines it, so that terms stay small. *)
Ltac wp_step :=
  lazymatch goal with
  | |- wp (mbind _ _) _ _ _ => apply wp_bind
  | |- wp (mret _) _ _ _ => apply wp_ret
  | |- wp (raise _) _ _ _ => apply wp_raise
  | |- wp get_state _ _ _ => apply wp_get
  | |- wp (modify _) _ _ _ => apply wp_upd; intros ? ?
  | |- wp (upd_loader _) _ _ _ => apply wp_upd; intros ? ?
  | |- wp (upd_ev _) _ _ _ => apply wp_upd; intros ? ?
  | |- wp (upd_redis _) _ _ _ => apply wp_upd; intros ? ?
  | |- wp (queue _) _ _ _ => apply wp_upd; intros ? ?
  | |- wp (publish _) _ _ _ => unfold publish
  | |- wp io _ _ _ => apply wp_io; [intros ? ? ?|intros ? ? ? ?]
  | |- wp now _ _ _ => apply wp_now; intros ? ? ? ? ?
  | |- wp (try_with _ _) _ _ _ => apply wp_try
  end.

Ltac wp_steps := repeat (wp_step; cbv beta).

(** An external call that succeeds because no fault is pending. *)
Lemma wp_io_ok (Q : unit -> World -> Prop) (E : exc -> World -> Prop) w :
  faults w = [] -> Q tt w -> wp io Q E w.
Proof. intros F HQ. unfold wp, io. by rewrite F. Qed.

(** Reduce the projections of updated records. *)
Ltac world_cbn :=
  cbn [policies set_policies versions set_versions applied_at set_applied_at warmed set_warmed
    bound set_bound index set_index posture_cache set_posture_cache trust_score_cache
    set_trust_score_cache inproc_eval_cache set_inproc_eval_cache history_cache
    set_history_cache profile_cache set_profile_cache supersede_memo set_supersede_memo pushed
    set_pushed dryrun_keys set_dryrun_keys engine_error_count set_engine_error_count rd_eval
    set_rd_eval rd_ns set_rd_ns rd_trust set_rd_trust rd_frozen set_rd_frozen rd_cap set_rd_cap
    rd_calls set_rd_calls rd_history set_rd_history rd_profile set_rd_profile rd_class
    set_rd_class db set_db dbv set_dbv redis set_redis loader set_loader ev set_ev opa set_opa
    faults set_faults clock set_clock ticks set_ticks tasks set_tasks published set_published].

(** Express the goal in terms of the initial world, last change first. *)
Ltac world_simpl :=
  repeat match goal with
  | E : ?w' = _ |- context [?w'] =>
      is_var w'; lazymatch type of w' with World => idtac end; rewrite E; world_cbn
  end.

(** Symbolic execution of a run in which no external call fails. *)
Ltac wp_ok :=
  repeat (first
    [ lazymatch goal with
      | |- wp io _ _ _ => apply wp_io_ok; [world_simpl; done|]
      end
    | wp_step ]; cbv beta).

(** The parts of the world the clock and the fault list do not belong to. *)
Definition same_store (w w' : World) : Prop :=
  db w' = db w /\ dbv w' = dbv w /\ redis w' = redis w /\ loader w' = loader w /\ ev w' = ev w /\
  opa w' = opa w /\ tasks w' = tasks w /\ published w' = published w.

#[global] Instance same_store_preorder : PreOrder same_store.
Proof.
  split; [intros w; unfold same_store; auto 10|].
  unfold same_store. intros w1 w2 w3 H1 H2. destruct_and!. split_and!; congruence.
Qed.

(** A relation between worlds that ignores the clock and the fault list is kept by reading them. *)
Class Insensitive (R : World -> World -> Prop) : Prop :=
  insensitive : forall w fs t ts, R w (set_faults fs w) /\ R w (set_clock t (set_ticks ts w)).

Lemma keeps_io R `{!PreOrder R} `{!Insensitive R} : keeps R io.
Proof.
  intros w. unfold io. destruct (faults w) as [|[e|] fs]; simpl; [reflexivity|..];
    by destruct (insensitive w fs 0 []).
Qed.

Lemma keeps_now R `{!PreOrder R} `{!Insensitive R} : keeps R now.
Proof.
  intros w. unfold now. destruct (ticks w) as [|t ts]; simpl; [reflexivity|].
  by destruct (insensitive w [] (clock w + Z.abs t) ts).
Qed.

#[export] Hint Resolve keeps_io keeps_now : keeps.

(** ** A concrete instance, for the witnesses: OPA answers with the policy's own text *)

Definition demo_with (sha : text -> text) (dumps : list (string * json) -> string)
    (run : text -> OpaInput -> option json) : Externals := {|
  cfg := default_settings;
  hash_seg := fun s => s; sha256 := sha; sha1_8 := fun _ => points "00000000"; dumps_sorted := dumps; log2 := fun _ => 0%Q; lower := fun s => s;
  skeleton := fun s => s; normalize_for_match := fun ps => ps; derived_input := fun _ => Some (JObj []);
  opa_run := run; opa_fork := fun src _ => run src; py_repr := fun _ => EmptyString;
  classify_tool := fun _ => Some "read";
|}.

(** The text below the header line. *)
Definition body_of (src : text) : string := unpoints (tail (drop_while (fun c => negb (c =? 10)) src)).

Definition demo : Externals :=
  demo_with (fun s => s) (fun _ => EmptyString)
    (fun src _ => Some (JObj [("decision", JStr (body_of src)); ("rule_id", JStr "demo_rule")])).

Definition empty_loader : LoaderState := mkLoader ∅ ∅ ∅ true true.
Definition empty_ev : EvalState :=
  mkEval ∅ (new_cache 0 1) (new_cache 0 1) (new_cache 0 1) (new_cache 0 1) (new_cache 0 1) ∅ ∅ [] 0.
Definition empty_redis : Redis := mkRedis ∅ ∅ ∅ ∅ ∅ ∅ ∅ ∅ ∅.
Definition empty_world : World := mkWorld ∅ ∅ empty_redis empty_loader empty_ev ∅ [] 0 [] [] [].
