(* ===== verification/Loader.v ===== *)
(** * The policy loader ([norviq/engine/policy_loader.py]) and the evaluator's policy index

    Saving, applying, rolling back, deleting and re-reading policies over PostgreSQL, the in-memory
    maps and the Redis eval cache, and the messages that keep other replicas in step. *)

From S2P Require Import Prelude Text ModuleText Config Decisions InprocCache Effects Trust World.

Section Loader.
Context `{Externals}.

Definition MAX_VERSIONS : nat := 10.
Definition REMEDIATION_SUFFIX : string := "__remediation__".

(** [stored_priority]. *)
Definition stored_priority (v : option Z) : Z := default 100 v.

(** The entry a [policies] row stands for. *)
Definition entry_of_row (r : Row) : Entry :=
  mkEntry (row_rego r) (stored_priority (row_priority r)) (or_else (default "" (row_mode r)) "block").

(** ** The evaluator's index ([evaluator.py]) *)

Definition load_policy (ns cls : string) (rego : text) (priority : Z) : W unit :=
  upd_ev (fun s => set_index (<[key_of ns cls := mkIndex rego priority (extract_package_name rego)]> (index s)) s).

Definition unload_policy (ns cls : string) : W unit :=
  upd_ev (fun s => set_index (delete (key_of ns cls) (index s)) s).

Definition reload_policy (ns cls : string) (rego : text) (priority : option Z) : W unit :=
  upd_ev (fun s =>
    let p := match priority with
             | Some p => p
             | None => match index s !! key_of ns cls with Some e => ix_priority e | None => 100 end
             end in
    set_index (<[key_of ns cls := mkIndex rego p (extract_package_name rego)]> (index s)) s).

(** ** The Redis eval cache ([cache.py]) *)

(** [_eval_key]. *)
Definition eval_key (ns cls tool : string) : string * string * string :=
  (hash_seg ns, hash_seg cls, hash_seg tool).

(** The keys the SCAN pattern of [_eval_scope_pattern] matches. *)
Definition in_eval_scope (ns : string) (cls : option string) (k : string * string * string) : Prop :=
  let '(a, b, _) := k in
  match cls with
  | Some c => if nonempty c then a = hash_seg ns /\ b = hash_seg c else a = hash_seg ns
  | None => a = hash_seg ns
  end.

#[global] Instance in_eval_scope_dec ns cls k : Decision (in_eval_scope ns cls k).
Proof. destruct k as [[a b] t]. unfold in_eval_scope. destruct cls as [c|]; [destruct (nonempty c)|]; apply _. Defined.

(** [_fire_eval_invalidation] with the evaluator's [_on_eval_invalidated] registered. *)
Definition on_eval_invalidated : W unit :=
  upd_ev (fun s => set_inproc_eval_cache (clear (inproc_eval_cache s)) s).

(** [invalidate_eval_scope]. *)
Definition invalidate_eval_scope (ns : string) (cls : option string) : W unit :=
  on_eval_invalidated;;
  io;;
  upd_redis (fun r => set_rd_eval (filter (fun kv => ~ in_eval_scope ns cls kv.1) (rd_eval r)) r).

(** ** Loader operations *)

(** [_update_memory]. *)
Definition update_memory (key : string) (rego : text) (priority : Z) (mode : string) : W unit :=
  upd_loader (fun l => set_policies (<[key := mkEntry rego priority mode]> (policies l)) l).

(** The scope whose cached decisions a write to (ns, cls) affects; [None] is the whole namespace. *)
Definition ns_wide (cls : string) : bool :=
  starts_with "__" cls || starts_with "namespace:" cls || starts_with "deployment:" cls.

Definition strip_suffix (suf s : string) : string :=
  string_take (String.length s - String.length suf) s.

Definition invalidation_target (cls : string) : option string :=
  if ns_wide cls then None
  else if ends_with REMEDIATION_SUFFIX cls
          && (String.length REMEDIATION_SUFFIX <? String.length cls)%nat
       then Some (strip_suffix REMEDIATION_SUFFIX cls)
       else Some cls.

(** [_invalidate_eval_for_policy_scope]. *)
Definition invalidate_eval_for_policy_scope (ns cls : string) : W unit :=
  invalidate_eval_scope ns (invalidation_target cls).

(** [mark_applied]; [None] reads the local clock. *)
Definition mark_applied (ns cls : string) (when : option Z) : W unit :=
  t ← match when with Some t => mret t | None => now end;
  upd_loader (fun l => set_applied_at (<[key_of ns cls := t]> (applied_at l)) l).

(** [load_from_db]. *)
Definition load_from_db (ns cls : string) : W (option Entry) :=
  io;;
  w ← get_state;
  match db w !! (ns, cls) with
  | None => mret None
  | Some row =>
      let entry := entry_of_row row in
      upd_loader (fun l => set_policies (<[key_of ns cls := entry]> (policies l)) l);;
      match row_applied_at row with
      | Some t => upd_loader (fun l => set_applied_at (<[key_of ns cls := t]> (applied_at l)) l)
      | None => mret tt
      end;;
      reload_policy ns cls (e_rego entry) (Some (e_priority entry));;
      mret (Some entry)
  end.

(** [prune_versions]: [keep_count] newest and everything saved since the cutoff stay, the current
    version always does; a failure is swallowed. *)
Definition prune_versions (keep_count : nat) (keep_us : Z) (ns cls : string) : W unit :=
  try_with
    (t ← now;
     io;;
     modify (fun w =>
       match db w !! (ns, cls), dbv w !! (ns, cls) with
       | Some row, Some vs =>
           let newest := map pv_version (take keep_count (reverse vs)) in
           let keep v := pv_version v = row_version row \/ t - keep_us <= pv_saved_at v
                         \/ pv_version v ∈ newest in
           set_dbv (<[(ns, cls) := filter keep vs]> (dbv w)) w
       | _, _ => w
       end))
    (fun _ => mret tt).

(** The last [n] elements: [l[-n:]]. *)
Definition last_n {A} (n : nat) (l : list A) : list A := drop (length l - n) l.

(** The upsert transaction of [create]: version and instant returned by the database. *)
Definition db_upsert (ns cls : string) (rego : text) (saved_by : string) (priority : Z) (mode : string) : W (Z * Z) :=
  t ← now;
  io;;
  w ← get_state;
  let v := match db w !! (ns, cls) with Some r => row_version r + 1 | None => 1 end in
  let row := mkRow rego (Some priority) (Some mode) v (Some t) in
  let ver := mkVersion v rego priority mode saved_by t in
  modify (fun w =>
    set_db (<[(ns, cls) := row]> (db w))
      (set_dbv (<[(ns, cls) := default [] (dbv w !! (ns, cls)) ++ [ver]]> (dbv w)) w));;
  mret (v, t).

(** [create]. *)
Definition create (keep_count : nat) (keep_us : Z) (ns cls : string) (rego : text) (saved_by : string) (priority : Z)
    (mode : string) : W Z :=
  let key := key_of ns cls in
  r ← db_upsert ns cls rego saved_by priority mode;
  let '(v, t) := r in
  saved ← now;
  let snapshot := mkVersion v rego priority mode saved_by saved in
  upd_loader (fun l =>
    let history := default [] (versions l !! key) in
    set_versions (<[key := last_n MAX_VERSIONS (history ++ [snapshot])]> (versions l)) l);;
  update_memory key rego priority mode;;
  mark_applied ns cls (Some t);;
  io;;                                                       (* delete_policy: the Redis mirror *)
  io;;                                                       (* set_policy *)
  invalidate_eval_for_policy_scope ns cls;;
  publish (PolicyInvalidated key);;
  publish (PolicyEvent "upsert" ns cls v);;
  load_policy ns cls rego priority;;
  prune_versions keep_count keep_us ns cls;;
  mret v.

(** The mode-only transaction of [apply_to_target]: [one()] raises when there is no row. *)
Definition db_set_mode (ns cls mode : string) (version : Z) : W Z :=
  t ← now;
  io;;
  w ← get_state;
  match db w !! (ns, cls) with
  | None => raise EOther
  | Some row =>
      let row' := mkRow (row_rego row) (row_priority row) (Some mode) (row_version row) (Some t) in
      let patch v := if pv_version v =? version
                     then mkVersion (pv_version v) (pv_rego v) (pv_priority v) mode (pv_saved_by v) (pv_saved_at v)
                     else v in
      modify (fun w =>
        set_db (<[(ns, cls) := row']> (db w))
          (set_dbv (alter (map patch) (ns, cls) (dbv w)) w));;
      mret t
  end.

Definition with_mode (mode : string) (v : PolicyVersion) : PolicyVersion :=
  mkVersion (pv_version v) (pv_rego v) (pv_priority v) mode (pv_saved_by v) (pv_saved_at v).

(** [history[-1].enforcement_mode = mode]. *)
Definition patch_last (mode : string) (vs : list PolicyVersion) : list PolicyVersion :=
  match last vs with
  | Some v => take (length vs - 1) vs ++ [with_mode mode v]
  | None => vs
  end.

(** [apply_to_target]: [None] when the source has no policy. *)
Definition apply_to_target (keep_count : nat) (keep_us : Z) (sns scls tns tcls saved_by mode : string)
    : W (option (Z * bool)) :=
  w ← get_state;
  match policies (loader w) !! key_of sns scls with
  | None => mret None
  | Some src =>
      let rego := e_rego src in
      let priority := e_priority src in
      let tkey := key_of tns tcls in
      let existing := policies (loader w) !! tkey in
      match existing with
      | Some tgt =>
          if bool_decide (e_rego tgt = rego) then
            let existing_mode := e_mode tgt in
            let mode_changed := negb (bool_decide (mode = existing_mode)) in
            let effective_mode := if mode_changed then mode else existing_mode in
            let vs := default [] (versions (loader w) !! tkey) in
            let current := match last vs with Some v => pv_version v | None => 1 end in
            applied ←
              (if mode_changed : bool then
                 t ← db_set_mode tns tcls mode current;
                 upd_loader (fun l =>
                   match versions l !! tkey with
                   | Some (_ :: _ as vs) => set_versions (<[tkey := patch_last mode vs]> (versions l)) l
                   | _ => l
                   end);;
                 mret (Some t)
               else mret None);
            mark_applied tns tcls applied;;
            update_memory tkey rego priority effective_mode;;
            invalidate_eval_for_policy_scope tns tcls;;
            publish (PolicyInvalidated tkey);;
            load_policy tns tcls rego priority;;
            (if mode_changed : bool then publish (PolicyEvent "upsert" tns tcls current) else mret tt);;
            mret (Some (current, false))
          else
            v ← create keep_count keep_us tns tcls rego saved_by priority mode;
            mret (Some (v, true))
      | None =>
          v ← create keep_count keep_us tns tcls rego saved_by priority mode;
          mret (Some (v, true))
      end
  end.

(** [rollback]. *)
Definition rollback (keep_count : nat) (keep_us : Z) (ns cls : string) (target : Z) : W text :=
  w ← get_state;
  match List.find (fun v => pv_version v =? target) (default [] (versions (loader w) !! key_of ns cls)) with
  | None => raise ENotFound
  | Some v =>
      create keep_count keep_us ns cls (pv_rego v) ("rollback_to_v" +:+ fmt_int target) (pv_priority v) (pv_mode v);;
      mret (pv_rego v)
  end.

(** [delete]. *)
Definition delete_policy (ns cls : string) : W bool :=
  let key := key_of ns cls in
  w ← get_state;
  let in_memory := bool_decide (is_Some (policies (loader w) !! key)) in
  upd_loader (fun l => set_policies (delete key (policies l)) (set_versions (delete key (versions l)) l));;
  io;;
  w ← get_state;
  let db_deleted := bool_decide (is_Some (db w !! (ns, cls))) in
  modify (fun w => set_db (delete (ns, cls) (db w)) (set_dbv (delete (ns, cls) (dbv w)) w));;
  if negb in_memory && negb db_deleted then mret false
  else
    unload_policy ns cls;;
    io;;                                                     (* delete_policy: the Redis mirror *)
    invalidate_eval_for_policy_scope ns cls;;
    publish (PolicyEvent "delete" ns cls 0);;
    publish (PolicyInvalidated key);;
    mret true.

(** [_unload_local]. *)
Definition unload_local (ns cls : string) : W bool :=
  let key := key_of ns cls in
  w ← get_state;
  let was_loaded := bool_decide (is_Some (policies (loader w) !! key)) in
  upd_loader (fun l => set_policies (delete key (policies l)) (set_versions (delete key (versions l)) l));;
  unload_policy ns cls;;
  invalidate_eval_for_policy_scope ns cls;;
  mret was_loaded.

(** [_rehydrate_versions_for_key]. *)
Definition rehydrate_versions_for_key (ns cls : string) : W unit :=
  try_with
    (io;;
     w ← get_state;
     match dbv w !! (ns, cls) with
     | Some (_ :: _ as vs) =>
         upd_loader (fun l => set_versions (<[key_of ns cls := last_n MAX_VERSIONS vs]> (versions l)) l)
     | _ => mret tt
     end)
    (fun _ => mret tt).

(** [apply_remote_event]: never raises. *)
Definition apply_remote_event (operation ns cls : string) : W unit :=
  try_with
    (if bool_decide (operation = "delete") then unload_local ns cls;; mret tt
     else
       e ← load_from_db ns cls;
       match e with
       | None => unload_local ns cls;; mret tt
       | Some _ =>
           rehydrate_versions_for_key ns cls;;
           invalidate_eval_for_policy_scope ns cls
       end)
    (fun _ => mret tt).

(** [_reload_policy]: the embedded engine's reaction to an invalidation message. *)
Definition reload_from_event (ns cls : string) : W (option Entry) :=
  e ← load_from_db ns cls;
  match e with
  | None => unload_local ns cls;; mret None
  | Some _ => mret e
  end.

(** [warm_cache]: the loop over the rows, the first row of a key winning. *)
Fixpoint warm_rows (acc : gmap string Entry) (rows : list ((string * string) * Row))
    : W (gmap string Entry) :=
  match rows with
  | [] => mret acc
  | ((ns, cls), row) :: rows' =>
      match acc !! key_of ns cls with
      | Some _ => warm_rows acc rows'
      | None =>
          let entry := entry_of_row row in
          reload_policy ns cls (e_rego entry) (Some (e_priority entry));;
          warm_rows (<[key_of ns cls := entry]> acc) rows'
      end
  end.

Definition warm_cache : W unit :=
  io;;
  w ← get_state;
  let rows := map_to_list (db w) in
  loaded ← warm_rows ∅ rows;
  let stamps : gmap string Z :=
    list_to_map (omap (fun kr => (fun t => (key_of kr.1.1 kr.1.2, t)) <$> row_applied_at kr.2) rows) in
  upd_loader (fun l => set_applied_at (applied_at l ∪ stamps) (set_policies (loaded ∪ policies l) l));;
  try_with
    (io;;
     w ← get_state;
     let hist : gmap string (list PolicyVersion) :=
       list_to_map (map (fun kv => (key_of kv.1.1 kv.1.2, last_n MAX_VERSIONS kv.2)) (map_to_list (dbv w))) in
     upd_loader (fun l => set_versions (versions l ∪ hist) l))
    (fun _ => mret tt);;
  upd_loader (fun l => set_warmed true l).

End Loader.

(** ** Lemmas *)

Section LoaderLemmas.
Context `{Externals}.

(** No cached decision of the scope of (ns, cls) survives, in Redis or in the process. *)
Definition scope_cleared (ns cls : string) (w : World) : Prop :=
  data (inproc_eval_cache (ev w)) = [] /\
  forall k, in_eval_scope ns (invalidation_target cls) k -> rd_eval (redis w) !! k = None.

Lemma filter_scope_lookup (ns : string) (t : option string) (m : gmap (string * string * string) (PolicyDecision * Z)) (k : string * string * string) :
  in_eval_scope ns t k -> filter (fun kv => ~ in_eval_scope ns t kv.1) m !! k = None.
Proof. intros Hk. apply map_lookup_filter_None. right. intros x _. simpl. tauto. Qed.

Lemma last_n_length {A} n (l : list A) : (length (last_n n l) <= n)%nat.
Proof. unfold last_n. rewrite length_drop. lia. Qed.

Lemma last_n_snoc {A} n (l : list A) x : (1 <= n)%nat -> last (last_n n (l ++ [x])) = Some x.
Proof.
  intros Hn. unfold last_n. rewrite length_app. simpl.
  rewrite drop_app_le by lia. apply last_snoc.
Qed.

(** What a finished save leaves behind. *)
Record saved (ns cls : string) (e : Entry) (v : Z) (w : World) : Prop := {
  saved_memory : policies (loader w) !! key_of ns cls = Some e;
  saved_row : exists row, db w !! (ns, cls) = Some row /\ entry_of_row row = e /\ row_version row = v;
  saved_index : index (ev w) !! key_of ns cls = Some (mkIndex (e_rego e) (e_priority e) (extract_package_name (e_rego e)));
  saved_history : exists vs s, versions (loader w) !! key_of ns cls = Some vs /\
    (length vs <= MAX_VERSIONS)%nat /\ last vs = Some s /\ pv_version s = v /\
    pv_rego s = e_rego e /\ pv_priority s = e_priority e /\ pv_mode s = e_mode e;
  saved_caches : scope_cleared ns cls w;
}.

Lemma wp_prune kc ku ns cls Q E w :
  (forall vs fs t ts w', w' = set_dbv vs (set_faults fs (set_clock t (set_ticks ts w))) -> Q tt w') ->
  wp (prune_versions kc ku ns cls) Q E w.
Proof.
  intros HQ. unfold prune_versions.
  assert (K : forall fs t ts, Q tt (set_faults fs (set_clock t (set_ticks ts w)))).
  { intros fs t ts. apply (HQ (dbv w) fs t ts). by destruct w. }
  wp_steps; subst; [|apply K]. destruct (db _ !! _); [|apply K].
  destruct (dbv _ !! _); [by eapply HQ|apply K].
Qed.

Lemma entry_of_saved rego p mode v t :
  nonempty mode = true -> entry_of_row (mkRow rego (Some p) (Some mode) v t) = mkEntry rego p mode.
Proof. intros Hm. unfold entry_of_row, or_else. simpl. by rewrite Hm. Qed.

Lemma wp_create kc ku ns cls rego by_ p mode w :
  nonempty mode = true ->
  wp (create kc ku ns cls rego by_ p mode)
     (fun v w' => saved ns cls (mkEntry rego p mode) v w' /\
        v = match db w !! (ns, cls) with Some r => row_version r + 1 | None => 1 end)
     (fun _ _ => True) w.
Proof.
  intros Hm. unfold create, db_upsert, mark_applied, update_memory, invalidate_eval_for_policy_scope,
    invalidate_eval_scope, on_eval_invalidated, load_policy.
  wp_steps; try exact I.
  apply wp_prune. intros vs fs' t' ts' w1 Hw1. wp_steps. split; [|by world_simpl]. constructor.
  - world_simpl. by rewrite lookup_insert_eq.
  - eexists. world_simpl. rewrite lookup_insert_eq. split; [done|]. rewrite entry_of_saved by done. done.
  - world_simpl. by rewrite lookup_insert_eq.
  - eexists _, _. world_simpl. rewrite lookup_insert_eq. split; [done|].
    split; [apply last_n_length|]. rewrite last_n_snoc by (unfold MAX_VERSIONS; lia). done.
  - split; [by world_simpl|]. intros k Hk. world_simpl. by apply filter_scope_lookup.
Qed.

(** No layer holds the policy. *)
Record gone (ns cls : string) (w : World) : Prop := {
  gone_row : db w !! (ns, cls) = None;
  gone_versions : dbv w !! (ns, cls) = None;
  gone_memory : policies (loader w) !! key_of ns cls = None;
  gone_history : versions (loader w) !! key_of ns cls = None;
}.

Lemma wp_unload_local ns cls w :
  wp (unload_local ns cls)
     (fun _ w' => policies (loader w') !! key_of ns cls = None /\ db w' = db w /\ scope_cleared ns cls w')
     (fun _ w' => policies (loader w') !! key_of ns cls = None /\ db w' = db w) w.
Proof.
  unfold unload_local, unload_policy, invalidate_eval_for_policy_scope, invalidate_eval_scope,
    on_eval_invalidated.
  wp_steps; split_and?; try (world_simpl; rewrite ?lookup_delete_eq; done).
  split; [by world_simpl|]. intros k Hk. world_simpl. by apply filter_scope_lookup.
Qed.

Lemma wp_load_from_db ns cls w :
  wp (load_from_db ns cls)
     (fun r w' => db w' = db w /\
        match r with
        | None => db w !! (ns, cls) = None /\ policies (loader w') = policies (loader w)
        | Some e => entry_of_row <$> db w !! (ns, cls) = Some e /\
                    policies (loader w') !! key_of ns cls = Some e
        end)
     (fun _ w' => loader w' = loader w /\ db w' = db w) w.
Proof.
  unfold load_from_db, reload_policy. wp_steps; [|by world_simpl].
  destruct (db _ !! _) as [row|] eqn:E.
  - assert (Hr : db w !! (ns, cls) = Some row) by (revert E; by world_simpl).
    rewrite Hr. destruct (row_applied_at row); wp_steps;
      (split; [by world_simpl|split; [done|]]; world_simpl; by rewrite lookup_insert_eq).
  - wp_steps. split_and!; [by world_simpl| |by world_simpl]. revert E. by world_simpl.
Qed.

Lemma wp_rehydrate_ok ns cls Q E w :
  faults w = [] ->
  (forall w', policies (loader w') = policies (loader w) -> faults w' = [] -> Q tt w') ->
  wp (rehydrate_versions_for_key ns cls) Q E w.
Proof.
  intros Hf HQ. unfold rehydrate_versions_for_key. wp_ok.
  destruct (dbv w !! _) as [[|x vs]|]; wp_ok; apply HQ; by world_simpl.
Qed.

Lemma wp_invalidate_ok ns cls Q E w :
  faults w = [] ->
  (forall w', policies (loader w') = policies (loader w) -> scope_cleared ns cls w' -> Q tt w') ->
  wp (invalidate_eval_for_policy_scope ns cls) Q E w.
Proof.
  intros Hf HQ. unfold invalidate_eval_for_policy_scope, invalidate_eval_scope, on_eval_invalidated.
  wp_ok. apply HQ; [by world_simpl|]. split; [by world_simpl|].
  intros k Hk. world_simpl. by apply filter_scope_lookup.
Qed.

End LoaderLemmas.

(** ** Theorems *)

Section LoaderTheorems.
Context `{Externals}.

(** a save takes effect in every layer.  When [create] returns a version, the entry in memory, the
    row in the database and the evaluator's index all carry exactly the saved source, priority and mode;
    the version is one more than the previous one (or 1); the in-memory history is at most ten long and
    ends with this version; and no decision of the scope the code invalidates is left in Redis or in the
    process. *)
Theorem create_saves kc ku ns cls rego by_ p mode w w' v :
  nonempty mode = true ->
  create kc ku ns cls rego by_ p mode w = (w', inr v) ->
  saved ns cls (mkEntry rego p mode) v w' /\
  v = match db w !! (ns, cls) with Some r => row_version r + 1 | None => 1 end.
Proof.
  intros Hm E. pose proof (wp_create kc ku ns cls rego by_ p mode w Hm) as K.
  unfold wp in K. by rewrite E in K.
Qed.

(** deletion is final.  When [delete] returns, no layer holds the policy: not the database, its
    version table, the memory or the history; a deletion that found something also emptied the
    evaluator's index and the cached decisions of its scope.  From there on, a reload or a peer's upsert
    event, whatever faults they meet, cannot bring the policy back while the database has no row. *)
Theorem delete_is_final ns cls w w' b :
  delete_policy ns cls w = (w', inr b) ->
  gone ns cls w' /\
  (b = true -> index (ev w') !! key_of ns cls = None /\ scope_cleared ns cls w') /\
  forall w2, db w2 = db w' -> policies (loader w2) !! key_of ns cls = None ->
    policies (loader (reload_from_event ns cls w2).1) !! key_of ns cls = None /\
    policies (loader (apply_remote_event "upsert" ns cls w2).1) !! key_of ns cls = None.
Proof.
  intros E.
  assert (K : wp (delete_policy ns cls)
    (fun b w' => gone ns cls w' /\ (b = true -> index (ev w') !! key_of ns cls = None /\ scope_cleared ns cls w'))
    (fun _ _ => True) w).
  { unfold delete_policy, unload_policy, invalidate_eval_for_policy_scope, invalidate_eval_scope,
      on_eval_invalidated.
    wp_steps; try exact I.
    match goal with |- wp (if ?c then _ else _) _ _ _ => destruct c end; wp_steps; try exact I.
    - split; [|done]. constructor; world_simpl; by rewrite lookup_delete_eq.
    - split; [constructor; world_simpl; by rewrite lookup_delete_eq|]. intros _.
      split; [world_simpl; by rewrite lookup_delete_eq|]. split; [by world_simpl|].
      intros k Hk. world_simpl. by apply filter_scope_lookup. }
  unfold wp in K. rewrite E in K. destruct K as [G K]. split_and!; [done|done|].
  intros w2 Hdb Hm. pose proof (gone_row _ _ _ G) as Hrow.
  assert (L : wp (load_from_db ns cls)
    (fun r w3 => r = None /\ policies (loader w3) !! key_of ns cls = None)
    (fun _ w3 => policies (loader w3) !! key_of ns cls = None) w2).
  { eapply wp_mono; [apply wp_load_from_db| |].
    - intros [e|] w3 [_ H1]; [rewrite Hdb, Hrow in H1; by destruct H1|].
      destruct H1 as [_ ->]. done.
    - intros e w3 [-> _]. done. }
  assert (U : forall w3, wp (unload_local ns cls)
    (fun _ w4 => policies (loader w4) !! key_of ns cls = None)
    (fun _ w4 => policies (loader w4) !! key_of ns cls = None) w3).
  { intros w3. eapply wp_mono; [apply wp_unload_local|naive_solver|naive_solver]. }
  split.
  - cut (wp (reload_from_event ns cls) (fun _ w3 => policies (loader w3) !! key_of ns cls = None)
           (fun _ w3 => policies (loader w3) !! key_of ns cls = None) w2).
    { unfold wp. by destruct (reload_from_event ns cls w2) as [? []]. }
    unfold reload_from_event. apply wp_bind. eapply wp_mono; [exact L| |done].
    intros r w3 [-> H3]. apply wp_bind. eapply wp_mono; [apply U|done|done].
  - cut (wp (apply_remote_event "upsert" ns cls) (fun _ w3 => policies (loader w3) !! key_of ns cls = None)
           (fun _ _ => True) w2).
    { unfold wp, apply_remote_event, try_with.
      match goal with |- context [match ?m w2 with _ => _ end] => destruct (m w2) as [? []] end; done. }
    unfold apply_remote_event. apply wp_try. cbv beta. rewrite bool_decide_false by done.
    apply wp_bind. eapply wp_mono; [exact L| |done].
    intros r w3 [-> H3]. apply wp_bind. eapply wp_mono; [apply U|done|done].
Qed.

(** a reload is all or nothing.  Re-reading one policy after an invalidation message ends with the
    entry of the current row in memory, or, when there is no row, with the policy unloaded; when it
    raises, either nothing of the loader changed (the database could not be read) or there is no row and
    the policy is unloaded. *)
Theorem reload_all_or_nothing ns cls w :
  wp (reload_from_event ns cls)
     (fun r w' => r = entry_of_row <$> db w !! (ns, cls) /\ policies (loader w') !! key_of ns cls = r)
     (fun _ w' => loader w' = loader w \/
        (db w !! (ns, cls) = None /\ policies (loader w') !! key_of ns cls = None)) w.
Proof.
  unfold reload_from_event. apply wp_bind. eapply wp_mono; [apply wp_load_from_db| |].
  - intros [e|] w' [Hd Hr]; cbv beta.
    + wp_steps. destruct Hr as [-> Hr]. done.
    + destruct Hr as [Hr _]. apply wp_bind. eapply wp_mono; [apply wp_unload_local| |]; cbv beta.
      * intros _ w'' (Hn & _ & _). wp_steps. by rewrite Hr.
      * intros e w'' (Hn & _). auto.
  - intros e w' [Hl _]. auto.
Qed.

(** replicas converge.  After a save on one replica, a replica that shares the database and applies
    the published upsert event with its external calls succeeding ends with the same entry in memory
    and holds no cached decision of the affected scope. *)
Theorem peer_converges kc ku ns cls rego by_ p mode wA wA' v wB :
  nonempty mode = true -> create kc ku ns cls rego by_ p mode wA = (wA', inr v) ->
  db wB = db wA' -> faults wB = [] ->
  let wB' := (apply_remote_event "upsert" ns cls wB).1 in
  policies (loader wB') !! key_of ns cls = policies (loader wA') !! key_of ns cls /\
  scope_cleared ns cls wB'.
Proof.
  intros Hm E Hd Hf wB'.
  pose proof (wp_create kc ku ns cls rego by_ p mode wA Hm) as K. unfold wp in K. rewrite E in K.
  destruct K as [S _]. destruct (saved_row _ _ _ _ _ S) as (row & Hrow & He & _).
  cut (wp (apply_remote_event "upsert" ns cls)
    (fun _ w' => policies (loader w') !! key_of ns cls = Some (mkEntry rego p mode) /\ scope_cleared ns cls w')
    (fun _ _ => False) wB).
  { rewrite (saved_memory _ _ _ _ _ S). unfold wB', wp.
    by destruct (apply_remote_event "upsert" ns cls wB) as [? []]. }
  unfold apply_remote_event, load_from_db, reload_policy. apply wp_try. cbv beta.
  rewrite bool_decide_false by done. wp_ok. rewrite Hd, Hrow, He.
  assert (F : forall w1, policies (loader w1) !! key_of ns cls = Some (mkEntry rego p mode) -> faults w1 = [] ->
    wp (rehydrate_versions_for_key ns cls) (fun _ => wp (invalidate_eval_for_policy_scope ns cls)
      (fun _ w' => policies (loader w') !! key_of ns cls = Some (mkEntry rego p mode) /\ scope_cleared ns cls w')
      (fun _ => wp (mret ())
         (fun _ w' => policies (loader w') !! key_of ns cls = Some (mkEntry rego p mode) /\ scope_cleared ns cls w')
         (fun _ _ => False)))
      (fun _ => wp (mret ())
         (fun _ w' => policies (loader w') !! key_of ns cls = Some (mkEntry rego p mode) /\ scope_cleared ns cls w')
         (fun _ _ => False)) w1).
  { intros w1 Hp Hf1. apply wp_rehydrate_ok; [done|]. intros w2 Hp2 Hf2.
    apply wp_invalidate_ok; [done|]. intros w3 Hp3 Hs3. rewrite Hp3, Hp2. done. }
  destruct (row_applied_at row); wp_ok; (apply F; world_simpl; [by rewrite lookup_insert_eq|done]).
Qed.

(** a rollback restores how the policy was.  When [rollback] returns, it found the target version in
    the history, and what is now saved is that version's source, priority and mode, under a new version
    number. *)
Theorem rollback_restores kc ku ns cls target w w' rego :
  rollback kc ku ns cls target w = (w', inr rego) ->
  exists pv, List.find (fun v => pv_version v =? target) (default [] (versions (loader w) !! key_of ns cls))
      = Some pv /\ rego = pv_rego pv /\
    (nonempty (pv_mode pv) = true ->
     exists v, saved ns cls (mkEntry (pv_rego pv) (pv_priority pv) (pv_mode pv)) v w').
Proof.
  unfold rollback. unfold mbind at 1, M_bind at 1. simpl.
  destruct (List.find _ _) as [pv|]; [|done]. unfold mbind, M_bind.
  destruct (create _ _ _ _ _ _ _ _ w) as [w1 [e|v]] eqn:E; [done|]. intros [= <- <-].
  exists pv. split_and!; [done|done|]. intros Hm. exists v.
  pose proof (wp_create kc ku ns cls (pv_rego pv) ("rollback_to_v" +:+ fmt_int target) (pv_priority pv)
    (pv_mode pv) w Hm) as K. unfold wp in K. rewrite E in K. by destruct K.
Qed.

End LoaderTheorems.

(** A database with one saved policy, for the witnesses. *)
Definition demo_saved : World := (create (H := demo) 5 0 "prod" "support" (points "allow") "alice" 200 "block" empty_world).1.

Lemma create_saves_witness :
  saved (H := demo) "prod" "support" (mkEntry (points "allow") 200 "block") 1 demo_saved /\
  1 = match db empty_world !! ("prod", "support") with Some r => row_version r + 1 | None => 1 end.
Proof. apply (create_saves (H := demo) 5 0 _ _ _ "alice" _ _ empty_world); by vm_compute. Defined.

Lemma delete_is_final_witness :
  let w' := (delete_policy (H := demo) "prod" "support" demo_saved).1 in
  gone "prod" "support" w' /\
  (true = true -> index (ev w') !! key_of "prod" "support" = None /\ scope_cleared (H := demo) "prod" "support" w') /\
  forall w2, db w2 = db w' -> policies (loader w2) !! key_of "prod" "support" = None ->
    policies (loader (reload_from_event (H := demo) "prod" "support" w2).1) !! key_of "prod" "support" = None /\
    policies (loader (apply_remote_event (H := demo) "upsert" "prod" "support" w2).1) !! key_of "prod" "support" = None.
Proof. apply (delete_is_final (H := demo) _ _ demo_saved). by vm_compute. Defined.

Lemma peer_converges_witness :
  let wB' := (apply_remote_event (H := demo) "upsert" "prod" "support" demo_saved).1 in
  policies (loader wB') !! key_of "prod" "support" = policies (loader demo_saved) !! key_of "prod" "support" /\
  scope_cleared (H := demo) "prod" "support" wB'.
Proof.
  apply (peer_converges (H := demo) 5 0 "prod" "support" (points "allow") "alice" 200 "block" empty_world demo_saved 1
    demo_saved eq_refl); [vm_compute; reflexivity|reflexivity|vm_compute; reflexivity].
Defined.

Lemma rollback_restores_witness :
  let w' := (rollback (H := demo) 5 0 "prod" "support" 1 demo_saved).1 in
  exists pv, List.find (fun v => pv_version v =? 1) (default [] (versions (loader demo_saved) !! key_of "prod" "support"))
      = Some pv /\ points "allow" = pv_rego pv /\
    (nonempty (pv_mode pv) = true ->
     exists v, saved (H := demo) "prod" "support" (mkEntry (pv_rego pv) (pv_priority pv) (pv_mode pv)) v w').
Proof. apply (rollback_restores (H := demo) 5 0). by vm_compute. Defined.

(** re-applying identical text with another priority changes only this replica's memory.  Applying a
    saved policy to a target scope that already holds the same source in the same mode succeeds and puts
    the source's priority in memory, while the target's row keeps its own priority, so that memory and
    database then disagree until the next restart or peer event. *)
Theorem reapply_priority_not_persisted :
  exists w, let r := apply_to_target (H := demo) 5 0 "prod" "support" "prod" "billing" "alice" "block" w in
    r.2 = inr (Some (1, false)) /\
    policies (loader r.1) !! key_of "prod" "billing" = Some (mkEntry (points "allow") 200 "block") /\
    entry_of_row <$> db r.1 !! ("prod", "billing") = Some (mkEntry (points "allow") 50 "block").
Proof.
  exists (create (H := demo) 5 0 "prod" "billing" (points "allow") "alice" 50 "block" demo_saved).1.
  by vm_compute.
Qed.
