(* ===== verification/Collect.v ===== *)
(** * Candidate collection ([_collect_candidates] of [norviq/engine/evaluator.py])

    Which policies take part in a decision, and as what: the caller's class policy and the namespace
    and workload tiers as base layers; controls, egress, MCP registry and the baselines as floors with
    their own mode; packs, guardrail, override, weaken and remediation as overlays without one. *)

From S2P Require Import Prelude Text ModuleText Config Decisions Resolve InprocCache Effects Trust World Loader Baseline.

(** A candidate dict; [c_mode] is absent for the in-memory overlays. *)
Record Candidate := mkCand {
  c_key : string;
  c_rego : text;
  c_priority : Z;
  c_mode : option string;
  c_overlay : bool;
  c_superseded_by : option string;
}.

Section Collect.
Context `{Externals}.

Definition floor_candidate (key : string) (e : Entry) : Candidate :=
  mkCand key (e_rego e) (e_priority e) (Some (e_mode e)) true None.

Definition base_candidate (key : string) (e : Entry) : Candidate :=
  mkCand key (e_rego e) (e_priority e) (Some (e_mode e)) false None.

Definition overlay_candidate (key : string) (e : Entry) : Candidate :=
  mkCand key (e_rego e) (e_priority e) None true None.

(** In memory first, then the database (which also loads it). *)
Definition lookup_entry (ns cls : string) : W (option Entry) :=
  w ← get_state;
  match policies (loader w) !! key_of ns cls with
  | Some e => mret (Some e)
  | None => load_from_db ns cls
  end.

(** [_append_policy]. *)
Definition append_policy (cs : list Candidate) (ns cls : string) : W (list Candidate) :=
  e ← lookup_entry ns cls;
  mret (match e with Some e => cs ++ [base_candidate (key_of ns cls) e] | None => cs end).

(** [_append_controls_floor]: the new list, and the candidate appended. *)
Definition append_controls_floor (cs : list Candidate) (ns scope : string)
    : W (list Candidate * option Candidate) :=
  e ← lookup_entry ns scope;
  mret (match e with
        | Some e => (cs ++ [floor_candidate (key_of ns scope) e], Some (floor_candidate (key_of ns scope) e))
        | None => (cs, None)
        end).

(** [if key in self._loader._policies: candidates.append(...)]. *)
Definition append_loaded (mk : string -> Entry -> Candidate) (cs : list Candidate) (key : string)
    : W (list Candidate) :=
  w ← get_state;
  mret (match policies (loader w) !! key with Some e => cs ++ [mk key e] | None => cs end).

Definition SUPERSEDE_MEMO_MAX : nat := 1024.

(** [_controls_supersede_baseline], with its memo; [covers] itself answers no where it cannot read a module. *)
Definition controls_supersede_baseline (controls baseline : Candidate) : W bool :=
  let pair := (sha256 (c_rego controls), sha256 (c_rego baseline)) in
  w ← get_state;
  match supersede_memo (ev w) !! pair with
  | Some known => mret known
  | None =>
      let covered := covers (c_rego controls) (c_rego baseline) in
      upd_ev (fun s =>
        let memo := if (SUPERSEDE_MEMO_MAX <=? size (supersede_memo s))%nat then ∅ else supersede_memo s in
        set_supersede_memo (<[pair := covered]> memo) s);;
      mret covered
  end.

(** [_apply_controls_supersede].  The baseline, when there is one, is the last candidate appended; it is
    removed, or with [explain] tagged in place. *)
Definition apply_controls_supersede (cs : list Candidate) (controls baseline : option Candidate)
    (explain : bool) : W (list Candidate) :=
  match controls, baseline with
  | Some c, Some b =>
      if negb (bool_decide (default "block" (c_mode c) = "block")) then mret cs
      else
        yes ← controls_supersede_baseline c b;
        if negb yes then mret cs
        else
          let others := take (length cs - 1) cs in
          mret (if explain
                then others ++ [mkCand (c_key b) (c_rego b) (c_priority b) (c_mode b) (c_overlay b) (Some (c_key c))]
                else others)
  | _, _ => mret cs
  end.

(** [key.partition(":")]: the parts before and after the first colon. *)
Fixpoint partition_colon (s : string) : string * string :=
  match s with
  | EmptyString => (EmptyString, EmptyString)
  | String c s' =>
      if Ascii.eqb c (Ascii.ascii_of_nat 58) then (EmptyString, s')
      else let '(a, b) := partition_colon s' in (String c a, b)
  end.

Fixpoint insert_string (x : string) (l : list string) : list string :=
  match l with
  | [] => [x]
  | y :: l' => if String.leb x y then x :: l else y :: insert_string x l'
  end.

(** [sorted(found)] of a set. *)
Definition sorted_set (l : list string) : list string := foldr insert_string [] (remove_dups l).

(** [namespaces_for_class] ([policy_loader.py]). *)
Definition namespaces_for_class (cls : string) : W (list string) :=
  let remediation := cls +:+ REMEDIATION_SUFFIX in
  w ← get_state;
  let in_memory :=
    omap (fun kv : string * Entry =>
      let '(ns, ac) := partition_colon kv.1 in
      if (bool_decide (ac = cls) || bool_decide (ac = remediation))
         && negb (bool_decide (ns = "all") || bool_decide (ns = "__cluster__"))
      then Some ns else None) (map_to_list (policies (loader w))) in
  in_db ← try_with
    (io;;
     w ← get_state;
     mret (omap (fun kv : (string * string) * Row =>
       let '(ns, ac) := kv.1 in
       if (bool_decide (ac = cls) || bool_decide (ac = remediation)) && negb (bool_decide (ns = "all"))
       then Some ns else None) (map_to_list (db w))))
    (fun _ => mret []);
  mret (sorted_set (in_memory ++ in_db)).

(** [_collect_candidates_union]: [seen] is the set of keys already appended. *)
Definition union_append_policy (st : list Candidate * list string) (ns cls : string) (floor : bool)
    : W ((list Candidate * list string) * option Candidate) :=
  let key := key_of ns cls in
  let '(cs, seen) := st in
  if bool_decide (key ∈ seen) then mret (st, None)
  else
    e ← lookup_entry ns cls;
    mret (match e with
          | None => (st, None)
          | Some e =>
              let c := if floor then floor_candidate key e else base_candidate key e in
              ((cs ++ [c], key :: seen), Some c)
          end).

Definition union_append_loaded (mk : string -> Entry -> Candidate) (st : list Candidate * list string)
    (key : string) : W ((list Candidate * list string) * option Candidate) :=
  let '(cs, seen) := st in
  w ← get_state;
  mret (match policies (loader w) !! key with
        | Some e => if bool_decide (key ∈ seen) then (st, None)
                    else ((cs ++ [mk key e], key :: seen), Some (mk key e))
        | None => (st, None)
        end).

Fixpoint union_append_overlays (st : list Candidate * list string) (keys : list string)
    : W (list Candidate * list string) :=
  match keys with
  | [] => mret st
  | k :: keys' => r ← union_append_loaded overlay_candidate st k; union_append_overlays r.1 keys'
  end.

Definition union_namespace (cls : string) (explain : bool) (st : list Candidate * list string) (ns : string)
    : W (list Candidate * list string) :=
  r1 ← union_append_policy st ns cls false;
  r2 ← union_append_loaded floor_candidate r1.1 (key_of ns "__controls__");
  r3 ← union_append_loaded floor_candidate r2.1 (key_of ns "__egress__");
  r4 ← union_append_policy r3.1 ns "__baseline__" true;
  cs ← apply_controls_supersede r4.1.1 r2.2 r4.2 explain;
  st ← union_append_overlays (cs, r4.1.2)
         [key_of ns "__pack__"; key_of ns "__guardrail__"; key_of ns "__pack_override__"; key_of ns "__pack_weaken__"];
  if nonempty cls
  then r ← union_append_loaded overlay_candidate st (key_of ns (cls +:+ "__remediation__")); mret r.1
  else mret st.

Fixpoint union_namespaces (cls : string) (explain : bool) (st : list Candidate * list string)
    (nss : list string) : W (list Candidate * list string) :=
  match nss with
  | [] => mret st
  | ns :: nss' => st' ← union_namespace cls explain st ns; union_namespaces cls explain st' nss'
  end.

Definition collect_candidates_union (cls : string) (explain : bool) : W (list Candidate) :=
  nss ← namespaces_for_class cls;
  st ← union_namespaces cls explain ([], []) nss;
  r ← union_append_policy st "__cluster__" "__baseline__" true;
  mret r.1.1.

(** The tiers and overlays that are only looked up in memory. *)
Definition collect_loaded (cs : list Candidate) (ns cls wl : string) : W (list Candidate) :=
  cs ← append_loaded base_candidate cs (key_of ns ("namespace:" +:+ ns));
  cs ← (if nonempty wl then append_loaded base_candidate cs (key_of ns ("deployment:" +:+ wl)) else mret cs);
  cs ← append_loaded overlay_candidate cs (key_of ns "__pack__");
  cs ← append_loaded overlay_candidate cs (key_of ns "__guardrail__");
  cs ← append_loaded overlay_candidate cs (key_of ns "__pack_override__");
  cs ← append_loaded overlay_candidate cs (key_of ns "__pack_weaken__");
  if nonempty cls then append_loaded overlay_candidate cs (key_of ns (cls +:+ "__remediation__"))
  else mret cs.

(** [_collect_candidates]. *)
Definition collect_candidates (who : AgentIdentity) (explain : bool) : W (list Candidate) :=
  w ← get_state;
  if negb (bound (loader w)) then mret []
  else
    let ns := namespace who in
    let cls := agent_class who in
    if bool_decide (ns = "all") then collect_candidates_union cls explain
    else
      cs ← append_policy [] ns cls;
      r1 ← append_controls_floor cs ns "__controls__";
      r2 ← append_controls_floor r1.1 ns "__egress__";
      r3 ← append_controls_floor r2.1 ns "__mcp__";
      r4 ← append_controls_floor r3.1 ns "__baseline__";
      cs ← apply_controls_supersede r4.1 r1.2 r4.2 explain;
      r5 ← append_controls_floor cs "__cluster__" "__baseline__";
      collect_loaded r5.1 ns cls (workload who).

(** The result dict [evaluate] builds for an evaluated candidate. *)
Definition result_of (c : Candidate) (d : PolicyDecision) : Result :=
  mkResult d (c_priority c) (c_key c) (c_overlay c) (default "block" (c_mode c)).

End Collect.

(** ** Lemmas *)

Section CollectLemmas.
Context `{Externals}.

(** Collection never drops or changes what is in memory. *)
Definition mem_le (w w' : World) : Prop := policies (loader w) ⊆ policies (loader w').

#[global] Instance mem_le_preorder : PreOrder mem_le.
Proof. split; [intros w; unfold mem_le; reflexivity|]. intros w1 w2 w3 H1 H2. unfold mem_le in *. by etransitivity. Qed.

Lemma mem_le_lookup w w' k e :
  mem_le w w' -> policies (loader w) !! k = Some e -> policies (loader w') !! k = Some e.
Proof. intros Hle Hk. by eapply lookup_weaken. Qed.

(** The specification of one lookup. *)
Lemma wp_lookup_entry ns cls (Q : option Entry -> World -> Prop) (E : exc -> World -> Prop) w :
  (forall r w', mem_le w w' -> supersede_memo (ev w') = supersede_memo (ev w) ->
     (forall e, policies (loader w) !! key_of ns cls = Some e -> r = Some e) -> Q r w') ->
  (forall e w', E e w') ->
  wp (lookup_entry ns cls) Q E w.
Proof.
  intros HQ HE. unfold lookup_entry. wp_steps.
  destruct (policies (loader w) !! key_of ns cls) as [e|] eqn:K; [apply wp_ret, HQ; [done|done|congruence]|].
  unfold load_from_db, reload_policy. wp_steps; [|apply HE].
  destruct (db _ !! _) as [row|]; [|apply wp_ret; apply HQ; [|by world_simpl|congruence]].
  2: { unfold mem_le. by world_simpl. }
  destruct (row_applied_at row); wp_steps; (apply HQ; [|by world_simpl|congruence]);
    unfold mem_le; world_simpl; by apply insert_subseteq.
Qed.

(** [extends w k c cs']: the list holds [c] whenever memory held the entry it is made of. *)
Lemma wp_append_floor cs ns scope (Q : list Candidate * option Candidate -> World -> Prop)
    (E : exc -> World -> Prop) w :
  (forall r w', mem_le w w' -> supersede_memo (ev w') = supersede_memo (ev w) ->
     (r = (cs, None) \/ exists e, r = (cs ++ [floor_candidate (key_of ns scope) e],
        Some (floor_candidate (key_of ns scope) e))) ->
     (forall e, policies (loader w) !! key_of ns scope = Some e ->
        r = (cs ++ [floor_candidate (key_of ns scope) e], Some (floor_candidate (key_of ns scope) e))) ->
     Q r w') ->
  (forall e w', E e w') ->
  wp (append_controls_floor cs ns scope) Q E w.
Proof.
  intros HQ HE. unfold append_controls_floor. apply wp_bind. apply wp_lookup_entry; [|done].
  intros r w' Hle Hmemo Hr. apply wp_ret. apply HQ; [done|done| |].
  - destruct r as [e|]; [right; eauto|auto].
  - intros e He. by rewrite (Hr e He).
Qed.

(** Every candidate of the list tagged as an overlay whose key is of the pack family carries no mode. *)
Definition well_tagged (cs : list Candidate) : Prop :=
  Forall (fun c => c_overlay c = true -> in_pack_family (result_of c (new_decision Allow "" "" 0 "" 0)) = true ->
            c_mode c = None) cs.

Lemma suffix_key ns s p :
  ends_with p (key_of ns s) = String.prefix (string_rev p) (string_rev s +:+ ":" +:+ string_rev ns).
Proof.
  unfold ends_with, key_of. rewrite !string_rev_app. by rewrite string_app_assoc.
Qed.

Definition reserved_floor (s : string) : Prop := s ∈ ["__controls__"; "__egress__"; "__mcp__"; "__baseline__"].

Lemma floor_not_pack ns s e d :
  reserved_floor s -> in_pack_family (result_of (floor_candidate (key_of ns s) e) d) = false.
Proof.
  intros Hs. unfold in_pack_family. simpl. rewrite !suffix_key.
  unfold reserved_floor in Hs.
  repeat (apply elem_of_cons in Hs as [->|Hs]; [reflexivity|]). by apply elem_of_nil in Hs.
Qed.

Lemma well_tagged_app cs cs' : well_tagged cs -> well_tagged cs' -> well_tagged (cs ++ cs').
Proof. intros. by apply Forall_app. Qed.

Lemma well_tagged_floor ns s e : reserved_floor s -> well_tagged [floor_candidate (key_of ns s) e].
Proof. intros Hs. repeat constructor. intros _ Hp. by rewrite floor_not_pack in Hp. Qed.

Lemma well_tagged_base k e : well_tagged [base_candidate k e].
Proof. repeat constructor. done. Qed.

Lemma well_tagged_overlay k e : well_tagged [overlay_candidate k e].
Proof. repeat constructor. Qed.

(** What the supersede memo remembers is what [covers] answers. *)
Definition memo_ok (w : World) : Prop :=
  forall a b v, supersede_memo (ev w) !! (sha256 a, sha256 b) = Some v -> covers a b = v.

Lemma wp_supersede cs ctl base (explain : bool) (Q : list Candidate -> World -> Prop) (E : exc -> World -> Prop) w :
  (forall cs' w', mem_le w w' ->
     (cs' = cs \/
      exists c b, ctl = Some c /\ base = Some b /\ default "block" (c_mode c) = "block" /\
        (memo_ok w -> covers (c_rego c) (c_rego b) = true) /\
        cs' = take (length cs - 1) cs ++
          (if explain then [mkCand (c_key b) (c_rego b) (c_priority b) (c_mode b) (c_overlay b) (Some (c_key c))]
           else [])) -> Q cs' w') ->
  wp (apply_controls_supersede cs ctl base explain) Q E w.
Proof.
  intros HQ. unfold apply_controls_supersede.
  destruct ctl as [c|]; [|apply wp_ret, HQ; [reflexivity|auto]].
  destruct base as [b|]; [|apply wp_ret, HQ; [reflexivity|auto]].
  case_bool_decide as Hm; simpl; [|apply wp_ret, HQ; [reflexivity|auto]].
  unfold controls_supersede_baseline. wp_steps.
  assert (Fin : forall (yes : bool) w', mem_le w w' ->
    (yes = true -> memo_ok w -> covers (c_rego c) (c_rego b) = true) ->
    wp (if negb yes then mret cs
        else mret (if explain
          then take (length cs - 1) cs ++
               [mkCand (c_key b) (c_rego b) (c_priority b) (c_mode b) (c_overlay b) (Some (c_key c))]
          else take (length cs - 1) cs)) Q E w').
  { intros [|] w' Hle Hc; simpl; apply wp_ret, HQ; auto. right. exists c, b. split_and!; auto.
    destruct explain; [done|by rewrite app_nil_r]. }
  destruct (supersede_memo (ev w) !! _) as [known|] eqn:K.
  - wp_steps. apply Fin; [reflexivity|]. intros -> Hok. by apply Hok.
  - cbv zeta. wp_steps. apply Fin; [unfold mem_le; by world_simpl|]. by intros ->.
Qed.

Lemma wp_append_loaded mk cs key (Q : list Candidate -> World -> Prop) (E : exc -> World -> Prop) w :
  (forall cs', (cs' = cs \/ exists e, cs' = cs ++ [mk key e]) -> Q cs' w) ->
  wp (append_loaded mk cs key) Q E w.
Proof.
  intros HQ. unfold append_loaded. wp_steps. apply HQ.
  destruct (policies (loader w) !! key); eauto.
Qed.

(** The in-memory tail of the collection only appends well-tagged candidates. *)
Lemma wp_collect_loaded cs ns cls wl (Q : list Candidate -> World -> Prop) (E : exc -> World -> Prop) w :
  (forall tail, well_tagged tail -> Q (cs ++ tail) w) ->
  wp (collect_loaded cs ns cls wl) Q E w.
Proof.
  intros HQ. unfold collect_loaded.
  assert (step : forall mk key (k : list Candidate -> W (list Candidate)) tail,
    (forall e, well_tagged [mk key e]) -> well_tagged tail ->
    (forall tail', well_tagged tail' -> wp (k (cs ++ tail')) Q E w) ->
    wp (append_loaded mk (cs ++ tail) key) (fun cs' => wp (k cs') Q E) E w).
  { intros mk key k tail Hmk Ht Hk. apply wp_append_loaded. intros cs' [->|[e ->]]; [auto|].
    rewrite <- app_assoc. apply Hk. by apply well_tagged_app. }
  assert (nil : well_tagged []) by constructor.
  rewrite <- (app_nil_r cs).
  apply wp_bind, step; [intros; apply well_tagged_base|done|]. intros t1 H1.
  apply wp_bind.
  assert (wl_step : wp (if nonempty wl then append_loaded base_candidate (cs ++ t1) (key_of ns ("deployment:" +:+ wl))
                        else mret (cs ++ t1))
      (fun cs' w' => w' = w /\ exists t, cs' = cs ++ t /\ well_tagged t) E w).
  { destruct (nonempty wl); [|apply wp_ret; eauto]. apply wp_append_loaded.
    intros cs' [->|[e ->]]; split; try done; [eauto|].
    exists (t1 ++ [base_candidate (key_of ns ("deployment:" +:+ wl)) e]). rewrite app_assoc.
    split; [done|]. apply well_tagged_app; [done|apply well_tagged_base]. }
  eapply wp_mono; [exact wl_step| |done]. cbv beta. intros cs2 w2 (-> & t2 & -> & H2).
  apply wp_bind, step; [intros; apply well_tagged_overlay|done|]. intros t3 H3.
  apply wp_bind, step; [intros; apply well_tagged_overlay|done|]. intros t4 H4.
  apply wp_bind, step; [intros; apply well_tagged_overlay|done|]. intros t5 H5.
  apply wp_bind, step; [intros; apply well_tagged_overlay|done|]. intros t6 H6.
  destruct (nonempty cls); [|apply wp_ret; auto].
  apply wp_append_loaded. intros cs' [->|[e ->]]; [auto|]. rewrite <- app_assoc. apply HQ.
  apply well_tagged_app; [done|apply well_tagged_overlay].
Qed.

(** What the concrete-namespace collection holds. *)
Record collected (w : World) (who : AgentIdentity) (cs : list Candidate) : Prop := {
  col_tagged : well_tagged cs;
  col_floor : forall s e, s ∈ ["__controls__"; "__egress__"; "__mcp__"] ->
    policies (loader w) !! key_of (namespace who) s = Some e ->
    floor_candidate (key_of (namespace who) s) e ∈ cs;
  col_cluster : forall e, policies (loader w) !! key_of "__cluster__" "__baseline__" = Some e ->
    floor_candidate (key_of "__cluster__" "__baseline__") e ∈ cs;
  col_baseline : forall e, memo_ok w ->
    policies (loader w) !! key_of (namespace who) "__baseline__" = Some e ->
    floor_candidate (key_of (namespace who) "__baseline__") e ∈ cs \/
    exists c, c ∈ cs /\ c_key c = key_of (namespace who) "__controls__" /\ c_overlay c = true /\
      c_mode c = Some "block" /\ covers (c_rego c) (e_rego e) = true;
}.

Lemma wp_append_policy cs ns cls (Q : list Candidate -> World -> Prop) (E : exc -> World -> Prop) w :
  (forall cs' w', mem_le w w' -> supersede_memo (ev w') = supersede_memo (ev w) ->
     (cs' = cs \/ exists e, cs' = cs ++ [base_candidate (key_of ns cls) e]) -> Q cs' w') ->
  (forall e w', E e w') ->
  wp (append_policy cs ns cls) Q E w.
Proof.
  intros HQ HE. unfold append_policy. apply wp_bind, wp_lookup_entry; [|done].
  intros r w' Hle Hmemo _. apply wp_ret, HQ; [done|done|]. destruct r; eauto.
Qed.

Lemma floor_result_cases cs ns s r :
  well_tagged cs ->
  (r = (cs, None) \/ exists e, r = (cs ++ [floor_candidate (key_of ns s) e], Some (floor_candidate (key_of ns s) e))) ->
  reserved_floor s ->
  well_tagged r.1 /\ (forall c, c ∈ cs -> c ∈ r.1) /\
  (forall c, r.2 = Some c -> c ∈ r.1 /\ r.1 = cs ++ [c] /\ c_key c = key_of ns s /\ c_overlay c = true /\
     exists m, c_mode c = Some m).
Proof.
  intros Ht [->|[e ->]] Hs; simpl; split_and!; try done.
  - apply well_tagged_app; [done|by apply well_tagged_floor].
  - intros c Hc. rewrite elem_of_app. auto.
  - intros c [= <-]. split_and!; [apply elem_of_app; right; left|done|done|done|by eexists].
Qed.

(** The concrete-namespace collection, in the shape the theorems need. *)
Lemma wp_collect who w :
  bound (loader w) = true -> namespace who <> "all" ->
  wp (collect_candidates who false) (fun cs _ => collected w who cs) (fun _ _ => True) w.
Proof.
  intros Hb Hns. unfold collect_candidates. wp_steps. rewrite Hb, (bool_decide_false _ Hns). simpl.
  set (ns := namespace who) in *.
  apply wp_bind, wp_append_policy; [|done]. intros cs0 w0 L0 M0 C0. apply wp_bind.
  assert (T0 : well_tagged cs0).
  { destruct C0 as [->|[e ->]]; [constructor|apply well_tagged_base]. }
  apply wp_append_floor; [|done]. intros r1 w1 L1 M1 C1 P1. apply wp_bind.
  destruct (floor_result_cases _ _ _ _ T0 C1 ltac:(in_list)) as (T1 & I1 & F1).
  apply wp_append_floor; [|done]. intros r2 w2 L2 M2 C2 P2. apply wp_bind.
  destruct (floor_result_cases _ _ _ _ T1 C2 ltac:(in_list)) as (T2 & I2 & F2).
  apply wp_append_floor; [|done]. intros r3 w3 L3 M3 C3 P3. apply wp_bind.
  destruct (floor_result_cases _ _ _ _ T2 C3 ltac:(in_list)) as (T3 & I3 & F3).
  apply wp_append_floor; [|done]. intros r4 w4 L4 M4 C4 P4. apply wp_bind.
  destruct (floor_result_cases _ _ _ _ T3 C4 ltac:(in_list)) as (T4 & I4 & F4).
  apply wp_supersede. intros cs5 w5 L5 C5. apply wp_bind.
  assert (K5 : (forall c, c ∈ r3.1 -> c ∈ cs5) /\ well_tagged cs5 /\
    (r4.1 = cs5 \/ exists c b, r1.2 = Some c /\ r4.2 = Some b /\ default "block" (c_mode c) = "block" /\
       (memo_ok w4 -> covers (c_rego c) (c_rego b) = true))).
  { destruct C5 as [->|(c & b & Hc & Hbs & Hmode & Hcov & ->)]; [auto|].
    destruct (F4 b Hbs) as (_ & Hr4 & _). rewrite Hr4, length_app, app_nil_r. simpl.
    rewrite take_app_le, take_ge by lia. split_and!; [done|done|]. right. exists c, b. auto. }
  destruct K5 as (I5 & T5 & B5).
  apply wp_append_floor; [|done]. intros r6 w6 L6 M6 C6 P6.
  destruct (floor_result_cases _ _ _ _ T5 C6 ltac:(in_list)) as (T6 & I6 & F6).
  apply wp_collect_loaded. intros tail Ht.
  assert (Hsub : forall c, c ∈ r3.1 -> c ∈ r6.1 ++ tail).
  { intros c Hc. apply elem_of_app. left. auto. }
  assert (W1 : mem_le w w1) by (by etransitivity). assert (W2 : mem_le w w2) by (by etransitivity).
  assert (W3 : mem_le w w3) by (by etransitivity). assert (W5 : mem_le w w5) by (by do 2 etransitivity).
  constructor; fold ns.
  - by apply well_tagged_app.
  - intros s e Hs He. apply Hsub.
    repeat (apply elem_of_cons in Hs as [->|Hs]); [| | |by apply elem_of_nil in Hs].
    + apply I3, I2. rewrite (P1 e); [apply elem_of_snoc|]. by eapply mem_le_lookup.
    + apply I3. rewrite (P2 e); [apply elem_of_snoc|]. by eapply mem_le_lookup.
    + rewrite (P3 e); [apply elem_of_snoc|]. by eapply mem_le_lookup.
  - intros e He. apply elem_of_app. left. rewrite (P6 e); [apply elem_of_snoc|]. by eapply mem_le_lookup.
  - intros e Hmo He. assert (R4 := P4 e ltac:(by eapply mem_le_lookup)).
    destruct B5 as [Heq|(c & b & Hc & Hbs & Hmode & Hcov)].
    + left. apply elem_of_app. left. apply I6. rewrite <- Heq, R4. apply elem_of_snoc.
    + right. destruct (F1 c Hc) as (Hin & _ & Hk & Ho & m & Hm). exists c. split_and!; [auto|done|done| |].
      * rewrite Hm in Hmode. simpl in Hmode. congruence.
      * rewrite R4 in Hbs. simplify_eq/=. apply Hcov. unfold memo_ok in *.
        rewrite M4, M3, M2, M1, M0. done.
Qed.

End CollectLemmas.

(** ** Theorems *)

Section CollectTheorems.
Context `{Externals}.

Definition results (eval : Candidate -> PolicyDecision) (cs : list Candidate) : list Result :=
  map (fun c => result_of c (eval c)) cs.

Lemma results_packs_enforce eval cs : well_tagged cs -> packs_enforce (results eval cs).
Proof.
  intros Ht r (c & -> & Hc)%list_elem_of_fmap Ho Hp. unfold well_tagged in Ht. rewrite Forall_forall in Ht.
  unfold audit_mode, result_of. simpl. by rewrite (Ht c Hc Ho Hp).
Qed.

(** A floor of the list that enforces and blocks decides. *)
Lemma floor_in_list_blocks eval cs ns s e :
  reserved_floor s -> well_tagged cs -> floor_candidate (key_of ns s) e ∈ cs ->
  e_mode e <> "audit" -> decision (eval (floor_candidate (key_of ns s) e)) = Block ->
  exists d, resolve cfg (results eval cs) = Some d /\ decision d = Block.
Proof.
  intros Hs Ht Hin Hm Hd.
  assert (Hr : result_of (floor_candidate (key_of ns s) e) (eval (floor_candidate (key_of ns s) e)) ∈ results eval cs)
    by (by apply (list_elem_of_fmap_2 (fun c => result_of c (eval c)))).
  destruct (resolve_with_packs_Some (results eval cs)) as [w Hw].
  { intros E. rewrite E in Hr. by apply elem_of_nil in Hr. }
  exists (apply_policy_mode cfg w). split; [unfold resolve; by rewrite Hw|].
  pose proof (hard_overlay_bound _ _ _ (results_packs_enforce eval cs Ht) Hw Hr eq_refl (floor_not_pack _ _ _ _ Hs)) as L.
  rewrite (effective_enforcing (result_of _ _)) in L by (apply bool_decide_eq_false; exact Hm).
  unfold raw in L. simpl in L. rewrite Hd in L.
  apply rank_le_block. pose proof (apply_policy_mode_rank cfg w). simpl in *. lia.
Qed.

(** C5: an enforcing floor survives every policy a tenant can author.  For a call in a concrete namespace
    whose controls, egress or MCP-registry module (or the cluster baseline) is loaded and not in audit
    mode, whatever else was collected and whatever every other policy answered, if that module blocks
    then the resolved decision is a block. *)
Theorem collected_floor_blocks who w w' cs eval ns s e :
  collect_candidates who false w = (w', inr cs) ->
  bound (loader w) = true -> namespace who <> "all" ->
  (ns = namespace who /\ s ∈ ["__controls__"; "__egress__"; "__mcp__"]) \/
    (ns = "__cluster__" /\ s = "__baseline__") ->
  policies (loader w) !! key_of ns s = Some e -> e_mode e <> "audit" ->
  decision (eval (floor_candidate (key_of ns s) e)) = Block ->
  exists d, resolve cfg (results eval cs) = Some d /\ decision d = Block.
Proof.
  intros E Hb Hns Hs He Hm Hd. pose proof (wp_collect who w Hb Hns) as K. unfold wp in K. rewrite E in K.
  apply (floor_in_list_blocks eval cs ns s e); try done.
  - destruct Hs as [[_ Hs]|[_ ->]]; [|in_list]. unfold reserved_floor.
    repeat (apply elem_of_cons in Hs as [->|Hs]; [in_list|]). by apply elem_of_nil in Hs.
  - apply K.
  - destruct Hs as [[-> Hs]|[-> ->]]; [by apply (col_floor _ _ _ K)|by apply (col_cluster _ _ _ K)].
Qed.

(** the chart's namespace baseline blocks unless the operator's own controls replace it.  When the
    loaded namespace baseline is not in audit mode and blocks the call, the resolved decision is a block,
    or an enforcing controls module that [covers] proves complete for that baseline was collected in its
    place. *)
Theorem collected_baseline_blocks who w w' cs eval e :
  collect_candidates who false w = (w', inr cs) ->
  bound (loader w) = true -> namespace who <> "all" -> memo_ok w ->
  policies (loader w) !! key_of (namespace who) "__baseline__" = Some e -> e_mode e <> "audit" ->
  decision (eval (floor_candidate (key_of (namespace who) "__baseline__") e)) = Block ->
  (exists d, resolve cfg (results eval cs) = Some d /\ decision d = Block) \/
  exists c, c ∈ cs /\ c_key c = key_of (namespace who) "__controls__" /\ c_overlay c = true /\
    c_mode c = Some "block" /\ covers (c_rego c) (e_rego e) = true.
Proof.
  intros E Hb Hns Hmo He Hm Hd. pose proof (wp_collect who w Hb Hns) as K. unfold wp in K. rewrite E in K.
  destruct (col_baseline _ _ _ K e Hmo He) as [Hin|Hsup]; [left|by right].
  apply (floor_in_list_blocks eval cs (namespace who) "__baseline__" e); try done.
  - in_list.
  - apply K.
Qed.

(** The (namespace, class) scopes the concrete collection of a call reads. *)
Definition consulted (who : AgentIdentity) : list (string * string) :=
  let ns := namespace who in
  [ (ns, agent_class who); (ns, "__controls__"); (ns, "__egress__"); (ns, "__mcp__"); (ns, "__baseline__");
    ("__cluster__", "__baseline__"); (ns, "namespace:" +:+ ns) ]
  ++ (if nonempty (workload who) then [(ns, "deployment:" +:+ workload who)] else [])
  ++ [ (ns, "__pack__"); (ns, "__guardrail__"); (ns, "__pack_override__"); (ns, "__pack_weaken__") ]
  ++ (if nonempty (agent_class who) then [(ns, agent_class who +:+ "__remediation__")] else []).

Lemma strip_suffix_app s suf : strip_suffix suf (s +:+ suf) = s.
Proof.
  unfold strip_suffix. rewrite string_app_length.
  replace (String.length s + String.length suf - String.length suf)%nat with (String.length s) by lia.
  induction s as [|c s IH]; [by destruct suf|]. rewrite string_app_cons. simpl. by rewrite IH.
Qed.

Lemma starts_with_app_1 p s : starts_with p (p +:+ s) = true.
Proof. apply prefix_app. Qed.

(** The class a remediation overlay belongs to is the one whose decisions are dropped. *)
Lemma remediation_target cls :
  nonempty cls = true ->
  invalidation_target (cls +:+ "__remediation__") = None \/
  invalidation_target (cls +:+ "__remediation__") = Some cls.
Proof.
  intros Hn. unfold invalidation_target. destruct (ns_wide _); [auto|]. right.
  unfold REMEDIATION_SUFFIX. rewrite ends_with_app, string_app_length.
  assert (Hl : (String.length "__remediation__" <?
    String.length cls + String.length "__remediation__")%nat = true).
  { apply Nat.ltb_lt. destruct cls as [|x s]; [done|]. cbn [String.length]. lia. }
  rewrite Hl. simpl. by rewrite strip_suffix_app.
Qed.

(** a policy write leaves no stale decision in its namespace.  Let a call be of a class whose name
    does not end in the reserved remediation suffix.  For every scope of the call's own namespace that
    its collection reads (class policy, floors, tiers, packs, remediation), the eval-cache entry of the
    call, whatever the tool, is in the scope that a write to that policy invalidates. *)
Theorem write_invalidates_readers who cls tool :
  (namespace who, cls) ∈ consulted who -> namespace who <> "__cluster__" ->
  ends_with REMEDIATION_SUFFIX (agent_class who) = false ->
  in_eval_scope (namespace who) (invalidation_target cls)
    (eval_key (namespace who) (agent_class who) tool).
Proof.
  intros Hin Hns Hsuf. set (ns := namespace who) in *.
  assert (Wide : ns_wide cls = true -> in_eval_scope ns (invalidation_target cls)
    (eval_key ns (agent_class who) tool)).
  { intros Hw. unfold invalidation_target. rewrite Hw. done. }
  assert (Own : invalidation_target cls = Some (agent_class who) ->
    in_eval_scope ns (invalidation_target cls) (eval_key ns (agent_class who) tool)).
  { intros ->. simpl. by destruct (nonempty (agent_class who)). }
  assert (Class : cls = agent_class who -> in_eval_scope ns (invalidation_target cls)
    (eval_key ns (agent_class who) tool)).
  { intros ->. destruct (ns_wide (agent_class who)) eqn:Ew; [auto|]. apply Own.
    unfold invalidation_target. by rewrite Ew, Hsuf. }
  unfold consulted in Hin. fold ns in Hin.
  rewrite !elem_of_app in Hin.
  destruct Hin as [Hin|[Hin|[Hin|Hin]]].
  - apply elem_of_cons in Hin as [[= Hc]|Hin]; [by apply Class|].
    do 4 (apply elem_of_cons in Hin as [[= ->]|Hin]; [by apply Wide|]).
    apply elem_of_cons in Hin as [[= Hn _]|Hin]; [done|].
    apply list_elem_of_singleton in Hin. injection Hin as ->. apply Wide.
    unfold ns_wide. by rewrite starts_with_app_1, orb_true_r.
  - destruct (nonempty (workload who)); [|by apply elem_of_nil in Hin].
    apply list_elem_of_singleton in Hin. injection Hin as ->. apply Wide.
    unfold ns_wide. by rewrite (starts_with_app_1 "deployment:"), orb_true_r.
  - do 4 (apply elem_of_cons in Hin as [[= ->]|Hin]; [by apply Wide|]).
    by apply elem_of_nil in Hin.
  - destruct (nonempty (agent_class who)) eqn:En; [|by apply elem_of_nil in Hin].
    apply list_elem_of_singleton in Hin. injection Hin as ->.
    destruct (remediation_target _ En) as [Ht|Ht]; [rewrite Ht; done|by apply Own].
Qed.

(** The policy of a candidate is one that [consulted] names. *)
Definition from_consulted (who : AgentIdentity) (c : Candidate) : Prop := exists k, k ∈ consulted who /\ c_key c = key_of k.1 k.2.

Lemma consulted_floor who s : s ∈ ["__controls__"; "__egress__"; "__mcp__"; "__baseline__"] -> (namespace who, s) ∈ consulted who.
Proof. intros Hs. unfold consulted. apply elem_of_app. left. repeat (apply elem_of_cons in Hs as [->|Hs]; [repeat (first [by left|right])|]). by apply elem_of_nil in Hs. Qed.

Lemma floor_result_from who cs ns s r : Forall (from_consulted who) cs -> (ns, s) ∈ consulted who ->
  (r = (cs, None) \/ exists e, r = (cs ++ [floor_candidate (key_of ns s) e], Some (floor_candidate (key_of ns s) e))) ->
  Forall (from_consulted who) r.1 /\ forall c, r.2 = Some c -> from_consulted who c.
Proof.
  intros F I [->|[e ->]]; [done|]. assert (X : from_consulted who (floor_candidate (key_of ns s) e)) by (by exists (ns, s)).
  split; [apply Forall_app; split; [done|by apply Forall_singleton]|]. by intros c [= <-].
Qed.

Lemma wp_loaded_from who mk cs key (Q : list Candidate -> World -> Prop) (E : exc -> World -> Prop) w :
  Forall (from_consulted who) cs -> (forall e, from_consulted who (mk key e)) -> (forall cs', Forall (from_consulted who) cs' -> Q cs' w) ->
  wp (append_loaded mk cs key) Q E w.
Proof.
  intros F X HQ. apply wp_append_loaded. intros cs' [->|[e ->]]; apply HQ; [done|]. apply Forall_app. split; [done|]. by apply Forall_singleton.
Qed.

(** Collection reads what [consulted] says and nothing else. *)
Lemma collected_from_consulted who explain w : namespace who <> "all" ->
  wp (collect_candidates who explain) (fun cs _ => Forall (from_consulted who) cs) (fun _ _ => True) w.
Proof.
  intros Hns. unfold collect_candidates. wp_steps. destruct (negb (bound (loader w))); [apply wp_ret; constructor|]. rewrite (bool_decide_false _ Hns).
  set (ns := namespace who) in *. assert (Own : (ns, agent_class who) ∈ consulted who) by (unfold consulted; apply elem_of_app; left; by left).
  apply wp_bind, wp_append_policy; [|done]. intros cs0 w0 _ _ C0. apply wp_bind.
  assert (F0 : Forall (from_consulted who) cs0) by (destruct C0 as [->|[e ->]]; [constructor|apply Forall_singleton; by exists (ns, agent_class who)]).
  apply wp_append_floor; [|done]. intros r1 w1 _ _ C1 _. apply wp_bind. destruct (floor_result_from who _ _ _ _ F0 (consulted_floor who "__controls__" ltac:(in_list)) C1) as [F1 _].
  apply wp_append_floor; [|done]. intros r2 w2 _ _ C2 _. apply wp_bind. destruct (floor_result_from who _ _ _ _ F1 (consulted_floor who "__egress__" ltac:(in_list)) C2) as [F2 _].
  apply wp_append_floor; [|done]. intros r3 w3 _ _ C3 _. apply wp_bind. destruct (floor_result_from who _ _ _ _ F2 (consulted_floor who "__mcp__" ltac:(in_list)) C3) as [F3 _].
  apply wp_append_floor; [|done]. intros r4 w4 _ _ C4 _. apply wp_bind. destruct (floor_result_from who _ _ _ _ F3 (consulted_floor who "__baseline__" ltac:(in_list)) C4) as [F4 B4].
  apply wp_supersede. intros cs5 w5 _ C5. apply wp_bind.
  assert (F5 : Forall (from_consulted who) cs5).
  { destruct C5 as [->|(c & b & _ & Eb & _ & _ & ->)]; [done|]. apply Forall_app. split; [by apply Forall_take|].
    destruct explain; [|constructor]. apply Forall_singleton. destruct (B4 b Eb) as (k & I & K). exists k. split; [exact I|exact K]. }
  apply wp_append_floor; [|done]. intros r6 w6 _ _ C6 _.
  assert (Cl : ("__cluster__", "__baseline__") ∈ consulted who) by (unfold consulted; apply elem_of_app; left; do 5 right; by left).
  destruct (floor_result_from who _ _ _ _ F5 Cl C6) as [F6 _]. unfold collect_loaded.
  assert (Ti : forall s, s ∈ ["namespace:" +:+ ns] -> (ns, s) ∈ consulted who) by (intros s ->%list_elem_of_singleton; unfold consulted; apply elem_of_app; left; do 6 right; by left).
  assert (Pk : forall s, s ∈ ["__pack__"; "__guardrail__"; "__pack_override__"; "__pack_weaken__"] -> (ns, s) ∈ consulted who).
  { intros s Hs. unfold consulted. rewrite !elem_of_app. right. right. left. repeat (apply elem_of_cons in Hs as [->|Hs]; [repeat (first [by left|right])|]). by apply elem_of_nil in Hs. }
  apply wp_bind, (wp_loaded_from who); [done|intros e; exists (ns, "namespace:" +:+ ns); split; [apply Ti; by left|done]|]. intros cs7 F7. apply wp_bind.
  assert (Wl : wp (if nonempty (workload who) then append_loaded base_candidate cs7 (key_of ns ("deployment:" +:+ workload who)) else mret cs7)
    (fun cs' _ => Forall (from_consulted who) cs') (fun _ _ => True) w6).
  { destruct (nonempty (workload who)) eqn:Nw; [|by apply wp_ret]. apply (wp_loaded_from who); [done| |done].
    intros e. exists (ns, "deployment:" +:+ workload who). split; [|done]. unfold consulted. rewrite Nw, !elem_of_app. right. left. by left. }
  eapply wp_mono; [exact Wl| |done]. intros cs8 w8 F8.
  apply wp_bind, (wp_loaded_from who); [exact F8|intros e; exists (ns, "__pack__"); split; [apply Pk; in_list|done]|]. intros cs9 F9.
  apply wp_bind, (wp_loaded_from who); [exact F9|intros e; exists (ns, "__guardrail__"); split; [apply Pk; in_list|done]|]. intros cs10 F10.
  apply wp_bind, (wp_loaded_from who); [exact F10|intros e; exists (ns, "__pack_override__"); split; [apply Pk; in_list|done]|]. intros cs11 F11.
  apply wp_bind, (wp_loaded_from who); [exact F11|intros e; exists (ns, "__pack_weaken__"); split; [apply Pk; in_list|done]|]. intros cs12 F12.
  destruct (nonempty (agent_class who)) eqn:Nc; [|by apply wp_ret]. apply (wp_loaded_from who); [exact F12| |done].
  intros e. exists (ns, agent_class who +:+ "__remediation__"). split; [|done]. unfold consulted. rewrite Nc, !elem_of_app. do 3 right. by left.
Qed.

Lemma cluster_key ns cls : key_of ns cls = key_of "__cluster__" "__baseline__" -> ns = "__cluster__".
Proof.
  unfold key_of. intros E. repeat (destruct ns as [|? ns]; [solve [discriminate E | done]|injection E as -> E]).
  destruct ns; discriminate E.
Qed.

Lemma key_of_class ns cls cls' : key_of ns cls = key_of ns cls' -> cls = cls'.
Proof. unfold key_of. intros E. apply (inj (String.append ns)) in E. by injection E. Qed.

(** C13: a save takes effect in every layer.  When [create] returns a version, the entry in memory, the row in the database and the evaluator's
    index all carry exactly the saved source, priority and mode; the version is one more than the previous one (or
    1); the in-memory history is at most ten long and ends with this version.  And no decision the policy could have had a part in is
    still cached: for every caller of its namespace for whom the policy is collected as a candidate, in whatever state and for
    whatever tool, there is no entry in Redis, and none at all in the process.  The cluster baseline is excepted, and classes named like a
    remediation overlay. *)
Theorem create_takes_effect kc ku ns cls rego by_ p mode w w' v :
  nonempty mode = true -> ns <> "__cluster__" -> create kc ku ns cls rego by_ p mode w = (w', inr v) ->
  (policies (loader w') !! key_of ns cls = Some (mkEntry rego p mode) /\
   (exists row, db w' !! (ns, cls) = Some row /\ entry_of_row row = mkEntry rego p mode /\ row_version row = v) /\
   index (ev w') !! key_of ns cls = Some (mkIndex rego p (extract_package_name rego)) /\
   v = match db w !! (ns, cls) with Some r => row_version r + 1 | None => 1 end /\
   exists vs s, versions (loader w') !! key_of ns cls = Some vs /\ (length vs <= MAX_VERSIONS)%nat /\ last vs = Some s /\
     pv_version s = v /\ pv_rego s = rego /\ pv_priority s = p /\ pv_mode s = mode) /\
  InprocCache.data (inproc_eval_cache (ev w')) = [] /\
  (forall who explain wc wc' cs c tool, namespace who = ns -> ns <> "all" -> ends_with REMEDIATION_SUFFIX (agent_class who) = false ->
     collect_candidates who explain wc = (wc', inr cs) -> c ∈ cs -> c_key c = key_of ns cls ->
     rd_eval (redis w') !! eval_key ns (agent_class who) tool = None).
Proof.
  intros Hm Hc E. pose proof (wp_create kc ku ns cls rego by_ p mode w Hm) as K. unfold wp in K. rewrite E in K.
  destruct K as [[S1 S2 S3 S4 [S5 S6]] Sv]. split_and!; [exact S1|exact S2|exact S3|exact Sv|exact S4|exact S5|].
  intros who explain wc wc' cs c tool <- Ha Hr Run Ic Kc. apply S6. apply write_invalidates_readers; [|done|done].
  pose proof (collected_from_consulted who explain wc Ha) as F. unfold wp in F. rewrite Run in F. rewrite Forall_forall in F.
  destruct (F c Ic) as ([n' c'] & I & Kk). rewrite Kc in Kk. cbn [fst snd] in Kk.
  assert (Nc : n' = namespace who \/ (n', c') = ("__cluster__", "__baseline__")).
  { clear -I. unfold consulted in I. rewrite !elem_of_app in I.
    repeat match goal with
    | X : _ \/ _ |- _ => destruct X as [X|X]
    | X : _ ∈ (if ?b then _ else _) |- _ => destruct b
    | X : _ ∈ _ :: _ |- _ => apply elem_of_cons in X as [X|X]
    | X : _ ∈ [] |- _ => by apply elem_of_nil in X
    end; simplify_eq; auto. }
  destruct Nc as [->|[= -> ->]]; [apply key_of_class in Kk; by subst|]. by apply cluster_key in Kk.
Qed.

(** a write to the cluster baseline leaves other namespaces' cached decisions in place.  Every call
    reads the cluster baseline, and the scope its write invalidates holds no entry of a namespace whose
    key segment differs from the one of [__cluster__]. *)
Theorem cluster_baseline_write_leaves_stale who tool :
  hash_seg (namespace who) <> hash_seg "__cluster__" ->
  ("__cluster__", "__baseline__") ∈ consulted who /\
  ~ in_eval_scope "__cluster__" (invalidation_target "__baseline__")
      (eval_key (namespace who) (agent_class who) tool).
Proof.
  intros Hne. split; [|done]. unfold consulted. apply elem_of_app. left. do 5 right. left.
Qed.

End CollectTheorems.

(** ** Witnesses *)

Definition demo_id (ns cls : string) : AgentIdentity := mkIdentity [] ns "sa" cls "" "" "" "".

(** A class policy that allows at priority 100, an enforcing controls floor and an enforcing baseline. *)
Definition demo_loaded : World :=
  set_loader (set_policies
    (<[key_of "prod" "support" := mkEntry (points "allow") 100 "block"]>
     (<[key_of "prod" "__controls__" := mkEntry (points "block") 2 "block"]>
      (<[key_of "prod" "__baseline__" := mkEntry (points "block-all") 1 "block"]> ∅))) empty_loader) empty_world.

Definition demo_eval (c : Candidate) : PolicyDecision :=
  new_decision (if bool_decide (c_rego c = points "allow") then Allow else Block) "r" "" 0 "" 0.

Lemma create_takes_effect_witness :
  let w' := (create (H := demo) 5 0 "prod" "support" (points "allow") "alice" 200 "block" empty_world).1 in
  policies (loader w') !! key_of "prod" "support" = Some (mkEntry (points "allow") 200 "block") /\
  rd_eval (redis w') !! eval_key (H := demo) "prod" "support" "search" = None.
Proof.
  intros w'. destruct (create_takes_effect (H := demo) 5 0 "prod" "support" (points "allow") "alice" 200 "block" empty_world w' 1) as ((M & _) & _ & R);
    [reflexivity|done|by vm_compute|]. split; [exact M|].
  destruct (collect_candidates (H := demo) (demo_id "prod" "support") false w') as [wc [e|cs]] eqn:Rc; [exfalso; vm_compute in Rc; congruence|].
  destruct cs as [|c cs]; [exfalso; vm_compute in Rc; congruence|].
  apply (R (demo_id "prod" "support") false w' wc (c :: cs) c "search"); [reflexivity|done|by vm_compute|exact Rc|by left|].
  vm_compute in Rc. injection Rc as _ <- _. by vm_compute.
Defined.

Lemma collected_floor_blocks_witness :
  exists cs d, (collect_candidates (H := demo) (demo_id "prod" "support") false demo_loaded).2 = inr cs /\
    resolve (cfg (Externals := demo)) (results demo_eval cs) = Some d /\ decision d = Block.
Proof.
  destruct (collect_candidates (H := demo) (demo_id "prod" "support") false demo_loaded) as [w' [e|cs]] eqn:E;
    [vm_compute in E; discriminate|].
  exists cs. simpl.
  destruct (collected_floor_blocks (H := demo) (demo_id "prod" "support") demo_loaded w' cs demo_eval "prod" "__controls__"
    (mkEntry (points "block") 2 "block")) as (d & Hd & Hb);
    [done|done|done|left; split; [done|in_list]|by vm_compute|done|by vm_compute|].
  by exists d.
Defined.

Lemma collected_baseline_blocks_witness :
  exists cs, (collect_candidates (H := demo) (demo_id "prod" "support") false demo_loaded).2 = inr cs /\
   ((exists d, resolve (cfg (Externals := demo)) (results demo_eval cs) = Some d /\ decision d = Block) \/
    exists c, c ∈ cs /\ c_key c = key_of "prod" "__controls__" /\ c_overlay c = true /\
      c_mode c = Some "block" /\ covers (c_rego c) (points "block-all") = true).
Proof.
  destruct (collect_candidates (H := demo) (demo_id "prod" "support") false demo_loaded) as [w' [e|cs]] eqn:E;
    [vm_compute in E; discriminate|].
  exists cs. split; [done|].
  apply (collected_baseline_blocks (H := demo) (demo_id "prod" "support") demo_loaded w' cs demo_eval
    (mkEntry (points "block-all") 1 "block"));
    [done|done|done| |by vm_compute|done|by vm_compute].
  intros a b v Hv. unfold demo_loaded in Hv. simpl in Hv. by rewrite lookup_empty in Hv.
Defined.

Lemma write_invalidates_readers_witness :
  in_eval_scope (H := demo) "prod" (invalidation_target "support__remediation__")
    (eval_key (H := demo) "prod" "support" "search").
Proof.
  apply (write_invalidates_readers (H := demo) (demo_id "prod" "support")); [in_list|done|by vm_compute].
Defined.

Lemma cluster_baseline_write_leaves_stale_witness :
  ("__cluster__", "__baseline__") ∈ consulted (demo_id "prod" "support") /\
  ~ in_eval_scope (H := demo) "__cluster__" (invalidation_target "__baseline__")
      (eval_key (H := demo) "prod" "support" "search").
Proof. apply (cluster_baseline_write_leaves_stale (H := demo) (demo_id "prod" "support")). done. Defined.

(** the "all namespaces" view is not the decision an agent gets.  With an enforcing MCP-registry floor
    that blocks and a class policy that allows, the concrete collection holds the floor and resolves to a
    block, while the union collection of the same class does not hold it and resolves to an allow. *)
Theorem union_omits_mcp_floor :
  exists w cs cu d du,
    (collect_candidates (H := demo) (demo_id "prod" "support") false w).2 = inr cs /\
    (collect_candidates (H := demo) (demo_id "all" "support") false w).2 = inr cu /\
    resolve (cfg (Externals := demo)) (results demo_eval cs) = Some d /\ decision d = Block /\
    resolve (cfg (Externals := demo)) (results demo_eval cu) = Some du /\ decision du = Allow.
Proof.
  exists (set_loader (set_policies
    (<[key_of "prod" "support" := mkEntry (points "allow") 100 "block"]>
     (<[key_of "prod" "__mcp__" := mkEntry (points "block") 2 "block"]> ∅)) empty_loader) empty_world).
  do 4 eexists. split_and!; vm_compute; reflexivity.
Qed.
