(* ===== verification/Identity.v ===== *)
(** * Workload identity ([norviq/engine/identity.py])

    The rule every part of the system applies to an agent identity, the parser of the product's own
    SPIFFE ids, and the resolver with its bounded cache.  A [str] is a list of code points here: the
    rule reads surrogates, NUL and Unicode white space. *)

From S2P Require Import Prelude Text.

Definition SPIFFE_ID_MAX_LEN : nat := 512.
Definition MAX_CACHE_TTL : Z := 300.

(** [_storable]. *)
Definition storable (id : list Z) : bool :=
  forallb (fun c => negb (c =? 0) && negb ((55296 <=? c) && (c <=? 57343))) id.

(** [is_controllable_spiffe_id]; [bool(rest.strip())] holds when some character is not white space. *)
Definition is_controllable_spiffe_id (id : list Z) : bool :=
  tstarts (points "spiffe://") id
  && existsb (fun c => negb (is_white c)) (drop (length (points "spiffe://")) id)
  && (length id <=? SPIFFE_ID_MAX_LEN)%nat
  && storable id.

(** [s.split("/")]. *)
Fixpoint split_slash_onto (acc s : list Z) : list (list Z) :=
  match s with
  | [] => [reverse acc]
  | c :: s' => if c =? 47 then reverse acc :: split_slash_onto [] s' else split_slash_onto (c :: acc) s'
  end.

Definition split_slash (s : list Z) : list (list Z) := split_slash_onto [] s.

(** [_parse_norviq_spiffe_id]. *)
Definition parse_norviq_spiffe_id (id : list Z) : option (list Z * list Z) :=
  let prefix := points "spiffe://norviq/" in
  if negb (tstarts prefix id) then None
  else match split_slash (drop (length prefix) id) with
  | [a; ns; b; sa] =>
      if bool_decide (a = points "ns") && bool_decide (b = points "sa")
         && negb (bool_decide (ns = [])) && negb (bool_decide (sa = []))
      then Some (ns, sa) else None
  | _ => None
  end.

(** [f"spiffe://norviq/ns/{namespace}/sa/{service_account}"]. *)
Definition norviq_spiffe_id (ns sa : list Z) : list Z :=
  points "spiffe://norviq/ns/" ++ ns ++ points "/sa/" ++ sa.

(** ** The resolver *)

Record ResolvedIdentity := mkResolved {
  ri_spiffe_id : list Z;
  ri_namespace : list Z;
  ri_service_account : list Z;
  ri_agent_class : list Z;
  ri_pod_name : list Z;
  ri_workload : list Z;
}.

(** The environment variables read, and the mode. *)
Record Env := mkEnv {
  env_namespace : option (list Z);
  env_service_account : option (list Z);
  env_hostname : option (list Z);
  env_agent_class : option (list Z);
  env_workload : option (list Z);
  spiffe_mode : string;
  spiffe_cache_ttl_s : Z;
}.

(** [_resolve_workload_api]: [svid] is what the Workload API returned, [None] an error. *)
Definition resolve_workload_api (env : Env) (svid : option (list Z)) : option ResolvedIdentity :=
  id ← svid;
  p ← parse_norviq_spiffe_id id;
  Some (mkResolved id p.1 p.2 (default (points "default") (env_agent_class env))
          (default (points "unknown-pod") (env_hostname env)) (default [] (env_workload env))).

(** [_mock_resolve]. *)
Definition mock_resolve (env : Env) : ResolvedIdentity :=
  let ns := default (points "default") (env_namespace env) in
  let sa := default (points "default") (env_service_account env) in
  mkResolved (norviq_spiffe_id ns sa) ns sa (default (points "default") (env_agent_class env))
    (default (points "unknown-pod") (env_hostname env)) (default [] (env_workload env)).

(** [_resolve_from_socket]: [None] raises. *)
Definition resolve_from_socket (env : Env) (svid : option (list Z)) : option ResolvedIdentity :=
  if bool_decide (spiffe_mode env = "workload-api") then resolve_workload_api env svid
  else Some (mock_resolve env).

(** [_cache_ttl]; [_CACHE_TTL] is the value bound at import. *)
Definition cache_ttl (import_ttl : Z) (env : Env) : Z :=
  let configured := if spiffe_cache_ttl_s env =? 0 then import_ttl else spiffe_cache_ttl_s env in
  if MAX_CACHE_TTL <? configured then MAX_CACHE_TTL else Z.max 0 configured.

(** The cache: id to identity and the instant it was resolved, in seconds. *)
Notation IdCache := (list (list Z * (ResolvedIdentity * Q))).

(** [_get_cached]: the cache without its expired entries, and the identity when exactly one is left. *)
Definition get_cached (import_ttl : Z) (env : Env) (now : Q) (c : IdCache) : IdCache * option ResolvedIdentity :=
  let live := filter (fun e => Qltb (now - e.2.2) (inject_Z (cache_ttl import_ttl env)) = true) c in
  (live, match live with [e] => Some e.2.1 | _ => None end).

(** [self._cache[id] = ...]. *)
Definition cache_put (id : list Z) (v : ResolvedIdentity * Q) (c : IdCache) : IdCache :=
  filter (fun e => e.1 <> id) c ++ [(id, v)].

(** [resolve]: the second check under the lock sees the same cache when nothing ran in between. *)
Definition resolve_identity (import_ttl : Z) (env : Env) (svid : option (list Z)) (now : Q) (c : IdCache)
    : IdCache * option ResolvedIdentity :=
  match get_cached import_ttl env now c with
  | (c', Some i) => (c', Some i)
  | (c', None) =>
      match resolve_from_socket env svid with
      | None => (c', None)
      | Some i => (cache_put (ri_spiffe_id i) (i, now) c', Some i)
      end
  end.

(** ** UTF-8, the encoding of both stores *)

(** The bytes of one code point; [None] for a surrogate or an invalid code point. *)
Definition utf8 (c : Z) : option (list Z) :=
  if (c <? 0) || (1114111 <? c) || ((55296 <=? c) && (c <=? 57343)) then None
  else if c <? 128 then Some [c]
  else if c <? 2048 then Some [192 + c / 64; 128 + c mod 64]
  else if c <? 65536 then Some [224 + c / 4096; 128 + (c / 64) mod 64; 128 + c mod 64]
  else Some [240 + c / 262144; 128 + (c / 4096) mod 64; 128 + (c / 64) mod 64; 128 + c mod 64].

Fixpoint utf8_encode (s : list Z) : option (list Z) :=
  match s with
  | [] => Some []
  | c :: s' => a ← utf8 c; b ← utf8_encode s'; Some (a ++ b)
  end.

(** ** Lemmas *)

Lemma tstarts_split p s : tstarts p s = true -> s = p ++ drop (length p) s.
Proof.
  revert s. induction p as [|a p IH]; intros [|b s]; simpl; try done.
  intros [E%Z.eqb_eq H]%andb_true_iff. subst. f_equal. by apply IH.
Qed.

Lemma split_onto_plain acc s : Forall (fun c => c <> 47) s -> split_slash_onto acc s = [reverse acc ++ s].
Proof.
  revert acc. induction s as [|c s IH]; intros acc F; simpl; [by rewrite app_nil_r|].
  inversion_clear F as [|? ? Hc Hs]. rewrite (proj2 (Z.eqb_neq c 47) Hc), IH by done.
  by rewrite reverse_cons, <- app_assoc.
Qed.

Lemma split_onto_slash acc s t :
  Forall (fun c => c <> 47) s -> split_slash_onto acc (s ++ 47 :: t) = (reverse acc ++ s) :: split_slash t.
Proof.
  revert acc. induction s as [|c s IH]; intros acc F; simpl; [by rewrite app_nil_r|].
  inversion_clear F as [|? ? Hc Hs]. rewrite (proj2 (Z.eqb_neq c 47) Hc), IH by done.
  by rewrite reverse_cons, <- app_assoc.
Qed.

Lemma split_slash_slash s t :
  Forall (fun c => c <> 47) s -> split_slash (s ++ 47 :: t) = s :: split_slash t.
Proof. intros F. unfold split_slash. by rewrite split_onto_slash. Qed.

Lemma split_slash_plain s : Forall (fun c => c <> 47) s -> split_slash s = [s].
Proof. intros F. unfold split_slash. by rewrite split_onto_plain. Qed.

Lemma utf8_nonzero c a : c <> 0 -> utf8 c = Some a -> Forall (fun b => b <> 0) a.
Proof.
  unfold utf8. destruct ((c <? 0) || _ || _) eqn:G; [done|]. bool_prop. intros Hc.
  assert (Hm : forall x, 0 <= x mod 64 < 64) by (intros; apply Z.mod_pos_bound; lia).
  assert (Hd : forall d, 0 < d -> 0 <= c / d) by (intros; apply Z.div_pos; lia).
  pose proof (Hm c). pose proof (Hm (c / 64)). pose proof (Hm (c / 4096)).
  pose proof (Hd 64 ltac:(lia)). pose proof (Hd 4096 ltac:(lia)). pose proof (Hd 262144 ltac:(lia)).
  repeat case_match; intros [= <-]; rewrite ?Forall_cons, Forall_nil; lia.
Qed.

Lemma cache_ttl_bounds t env : 0 <= cache_ttl t env <= MAX_CACHE_TTL.
Proof.
  unfold cache_ttl. destruct (MAX_CACHE_TTL <? _) eqn:E; bool_prop; unfold MAX_CACHE_TTL in *; lia.
Qed.

(** ** Theorems *)

(** every identity the engine decides for can be stored, and so frozen.  An id accepted by the shared
    rule, whose characters are Unicode code points, encodes in strict UTF-8, to bytes without a NUL, and
    is at most 512 characters long. *)
Theorem controllable_is_storable id :
  is_controllable_spiffe_id id = true -> Forall (fun c => 0 <= c <= 1114111) id ->
  (length id <= 512)%nat /\ exists bytes, utf8_encode id = Some bytes /\ Forall (fun b => b <> 0) bytes.
Proof.
  intros Hc Hr. unfold is_controllable_spiffe_id in Hc.
  apply andb_true_iff in Hc as [Hc Hst]. apply andb_true_iff in Hc as [_ Hlen]. apply Nat.leb_le in Hlen.
  split; [done|]. clear Hlen. unfold storable in Hst. induction id as [|c id IH]; [by exists []|].
  simpl in Hst. apply andb_true_iff in Hst as [Hc Hst]. apply andb_true_iff in Hc as [Hz Hsur].
  apply negb_true_iff, Z.eqb_neq in Hz. apply negb_true_iff in Hsur.
  inversion_clear Hr as [|? ? Hb Hr']. destruct (IH Hst Hr') as (bs & E & F).
  simpl. destruct (utf8 c) as [a|] eqn:U.
  - simpl. rewrite E. exists (a ++ bs). split; [done|]. apply Forall_app. split; [by eapply utf8_nonzero|done].
  - exfalso. unfold utf8 in U. rewrite Hsur, orb_false_r in U.
    destruct ((c <? 0) || (1114111 <? c)) eqn:G; [|by repeat case_match].
    apply orb_true_iff in G as [G|G]; bool_prop; lia.
Qed.

Lemma controllable_is_storable_witness :
  (length (points "spiffe://norviq/ns/prod/sa/bot") <= 512)%nat /\
  exists bytes, utf8_encode (points "spiffe://norviq/ns/prod/sa/bot") = Some bytes /\ Forall (fun b => b <> 0) bytes.
Proof. apply controllable_is_storable; [by vm_compute|]. repeat constructor; by vm_compute. Defined.

(** the id minted for a namespace and a service account parses back to them, when neither is empty nor
    contains a slash. *)
Theorem spiffe_id_round_trip ns sa :
  ns <> [] -> sa <> [] -> Forall (fun c => c <> 47) ns -> Forall (fun c => c <> 47) sa ->
  parse_norviq_spiffe_id (norviq_spiffe_id ns sa) = Some (ns, sa).
Proof.
  intros Hn Hs Fn Fs. unfold parse_norviq_spiffe_id, norviq_spiffe_id.
  change (points "spiffe://norviq/ns/" ++ ns ++ points "/sa/" ++ sa)
    with (points "spiffe://norviq/" ++ (points "ns" ++ 47 :: ns ++ 47 :: points "sa" ++ 47 :: sa)).
  rewrite tstarts_app. rewrite drop_app_length.
  rewrite split_slash_slash by (repeat constructor; done).
  rewrite split_slash_slash by done. rewrite split_slash_slash by (repeat constructor; done).
  rewrite split_slash_plain by done. cbn [negb].
  rewrite !bool_decide_true by done. by rewrite !bool_decide_false.
Qed.

Lemma spiffe_id_round_trip_witness :
  parse_norviq_spiffe_id (norviq_spiffe_id (points "prod") (points "bot")) = Some (points "prod", points "bot").
Proof. apply spiffe_id_round_trip; [done|done|repeat constructor; done|repeat constructor; done]. Defined.

(** a cached identity is reused for at most five minutes, whatever lifetime is configured, and only
    when it is the single live one.  An identity returned from the cache was stored less than 300 seconds
    before. *)
Theorem identity_cache_bounded import_ttl env now c c' i :
  get_cached import_ttl env now c = (c', Some i) ->
  exists id t, c' = [(id, (i, t))] /\ (id, (i, t)) ∈ c /\ (now - t < 300)%Q.
Proof.
  unfold get_cached. intros [= Hc Hi]. rewrite Hc in Hi.
  destruct c' as [|[id [i' t]] [|e2 l]]; simplify_eq/=.
  exists id, t. split; [done|].
  assert (Hin : (id, (i, t)) ∈ filter (fun e : list Z * (ResolvedIdentity * Q) =>
    Qltb (now - e.2.2) (inject_Z (cache_ttl import_ttl env)) = true) c) by (rewrite Hc; left).
  apply list_elem_of_filter in Hin as [Hlt Hin]. split; [done|].
  apply Qltb_lt in Hlt. simpl in Hlt. eapply Qlt_le_trans; [exact Hlt|].
  pose proof (cache_ttl_bounds import_ttl env) as B. unfold MAX_CACHE_TTL in B.
  change 300%Q with (inject_Z 300). rewrite <- Zle_Qle. lia.
Qed.

Definition sample_env : Env := mkEnv None None None None None "workload-api" 86400.

Definition sample_identity : ResolvedIdentity := mkResolved (points "spiffe://norviq/ns/a/sa/b") [97] [98] [] [] [].

Lemma identity_cache_bounded_witness :
  exists id t, [([1], (sample_identity, 10%Q))] = [(id, (sample_identity, t))] /\
    (id, (sample_identity, t)) ∈ [([1], (sample_identity, 10%Q))] /\ (200 - t < 300)%Q.
Proof. apply (identity_cache_bounded 30 sample_env 200). by vm_compute. Defined.

(** in workload-api mode the identity comes from the attested SVID alone.  When resolution returns an
    identity that was not cached, its SPIFFE id is the SVID's, its namespace and service account are the
    ones parsed from it, and no environment variable can change them; an SVID outside the trust domain, or
    no SVID, raises. *)
Theorem workload_identity_attested env1 env2 svid :
  spiffe_mode env1 = "workload-api" -> spiffe_mode env2 = "workload-api" ->
  match resolve_from_socket env1 svid, resolve_from_socket env2 svid with
  | Some i1, Some i2 =>
      svid = Some (ri_spiffe_id i1) /\
      parse_norviq_spiffe_id (ri_spiffe_id i1) = Some (ri_namespace i1, ri_service_account i1) /\
      ri_spiffe_id i2 = ri_spiffe_id i1 /\ ri_namespace i2 = ri_namespace i1 /\
      ri_service_account i2 = ri_service_account i1
  | None, None => match svid with None => True | Some id => parse_norviq_spiffe_id id = None end
  | _, _ => False
  end.
Proof.
  intros M1 M2. unfold resolve_from_socket. rewrite M1, M2. rewrite !bool_decide_true by done.
  unfold resolve_workload_api. destruct svid as [id|]; simpl; [|done].
  destruct (parse_norviq_spiffe_id id) as [[ns sa]|] eqn:E; simpl; auto.
Qed.

Lemma workload_identity_attested_witness :
  match resolve_from_socket sample_env (Some (points "spiffe://norviq/ns/a/sa/b")),
        resolve_from_socket sample_env (Some (points "spiffe://norviq/ns/a/sa/b")) with
  | Some i1, Some i2 =>
      Some (points "spiffe://norviq/ns/a/sa/b") = Some (ri_spiffe_id i1) /\
      parse_norviq_spiffe_id (ri_spiffe_id i1) = Some (ri_namespace i1, ri_service_account i1) /\
      ri_spiffe_id i2 = ri_spiffe_id i1 /\ ri_namespace i2 = ri_namespace i1 /\
      ri_service_account i2 = ri_service_account i1
  | None, None => parse_norviq_spiffe_id (points "spiffe://norviq/ns/a/sa/b") = None
  | _, _ => False
  end.
Proof. exact (workload_identity_attested sample_env sample_env (Some (points "spiffe://norviq/ns/a/sa/b")) eq_refl eq_refl). Defined.
