(* ===== verification/Evaluator.v ===== *)
(** * The evaluator ([norviq/engine/evaluator.py], [OPAEvaluator.evaluate] and what it calls)

    One tool call from identity validation to the returned decision: posture, trust, the two eval
    caches, candidate evaluation through OPA, precedence, the cache write, the rate limit, the trust and
    monitor overrides, the fold of an enforcement-point refusal, and the fail-closed handlers. *)

From S2P Require Import Prelude Text ModuleText Config Decisions Resolve InprocCache Effects Trust World Loader Collect Identity.

Section Evaluator.
Context `{Externals}.

(** ** Pure helpers *)

(** [round(x, 2)]. *)
Definition round2 (q : Q) : Q := (round_half_even (q * 100) # 100).

(** [(time.monotonic() - start) * 1000]. *)
Definition elapsed_ms (start t : Z) : Q := (t - start) # 1000.

Definition us_of (q : Q) : Z := Qnum q * 1000000 / Zpos (Qden q).

(** [_apply_posture]. *)
Definition apply_posture (d : PolicyDecision) (p : Posture) : PolicyDecision :=
  if negb (monitor p) then d
  else if negb (bool_decide (decision d = Block) || bool_decide (decision d = Escalate)) then d
  else if is_exempt cfg (rule_id d) then d
  else with_outcome d Audit (MONITOR_WOULD_BLOCK_PREFIX +:+ rule_id d)
         ("Monitor mode (namespace audit): would " +:+ verdict_str (decision d) +:+ " — " +:+ reason d).

(** [_is_rate_limit_exempt]. *)
Definition is_rate_limit_exempt (tool : string) : bool :=
  if negb (evaluator_rate_limit_read_exempt cfg) then false
  else
    let name := lower tool in
    if negb (ends_with "_status" name || ends_with "_read" name
             || existsb (fun p => starts_with p name) (evaluator_rate_limit_read_prefixes cfg))
    then false
    else match classify_tool tool with
         | None => false
         | Some verb => bool_decide (verb = "read")
         end.

(** [_ensure_block_attribution]. *)
Definition ensure_block_attribution (d : PolicyDecision) : PolicyDecision :=
  if bool_decide (decision d = Block) && (bool_decide (rule_id d = "") || bool_decide (rule_id d = "default_allow"))
  then with_outcome d (decision d) "unattributed_block" (or_else (reason d) "Blocked (attribution unavailable)")
  else d.

(** The first [model_copy] of [_apply_trust_overrides]. *)
Definition with_trust (d : PolicyDecision) (tr : TrustResult) (t : Z) : PolicyDecision := {|
  decision := decision d; policy_id := policy_id d; policy_version := policy_version d;
  rule_id := rule_id d; reason := reason d;
  trust_score := tr_score tr; trust_category := tr_category tr; trust_signals := tr_signals tr;
  trust_dominant_signal := tr_dominant tr; trust_recommendation := tr_recommendation tr;
  latency_ms := latency_ms d; event_id := event_id d; decided_at := t;
|}.

(** [_apply_trust_overrides]. *)
Definition apply_trust_overrides (d : PolicyDecision) (tr : TrustResult) (t : Z) : PolicyDecision :=
  let d := with_trust d tr t in
  if bool_decide (tr_category tr = "frozen")
  then with_outcome d Block "trust_frozen" "Agent trust frozen — all tool calls blocked"
  else if bool_decide (tr_category tr = "low") && bool_decide (decision d = Allow)
  then with_outcome d Escalate "escalate_low_trust"
         ("Low trust (" +:+ fmt2 (tr_score tr) +:+ "): " +:+ tr_dominant tr)
  else d.

(** The three fail-closed decisions. *)
Definition fallback_decision (ev : string) (ms : Q) (t : Z) : PolicyDecision :=
  new_decision Block "evaluator_fallback" "Evaluation failed, fallback=block" (round2 ms) ev t.
Definition timeout_decision (ev : string) (ms : Q) (t : Z) : PolicyDecision :=
  new_decision Block "evaluator_timeout" "Evaluation timed out, fallback=block" (round2 ms) ev t.
Definition invalid_identity_decision (ev : string) (ms : Q) (t : Z) : PolicyDecision :=
  new_decision Block "invalid_spiffe_identity" "Agent SPIFFE identity failed validation — fail-closed block"
    (round2 ms) ev t.

(** ** Caches and stores *)

Definition spiffe (event : ToolCallEvent) : list Z := spiffe_id (agent_identity event).

(** A read of an L1 cache, which may drop the entry it finds expired. *)
Definition posture_cached (ns : string) : W (option Posture) :=
  t ← now;
  w ← get_state;
  let r := get (posture_cache (ev w)) ns (secs t) in
  upd_ev (set_posture_cache r.1);;
  mret r.2.

(** What the mirrored settings of a namespace mean; without them, the global posture. *)
Definition posture_of (raw : option NsSettings) : Posture := mkPosture
  (match raw with Some r => bool_decide (ns_mode r = Some "audit") | None => false end)
  (match raw with Some r => ns_threshold r | None => None end)
  (match raw with
   | Some r => default (evaluator_rate_limit_per_window cfg) (ns_rate_limit r)
   | None => evaluator_rate_limit_per_window cfg end).

(** [_resolve_posture]. *)
Definition resolve_posture (ns : string) : W Posture :=
  c ← posture_cached ns;
  match c with
  | Some p => mret p
  | None =>
      raw ← try_with (io;; w ← get_state; mret (rd_ns (redis w) !! ns)) (fun _ => mret None);
      t ← now;
      upd_ev (fun s => set_posture_cache (set (posture_cache s) ns (posture_of raw) (secs t)) s);;
      mret (posture_of raw)
  end.

(** [TrustScore()]. *)
Definition default_trust_score : TrustScore :=
  mkTrustScore (8 # 10)
    (if Qle_bool (trust_threshold cfg) (8 # 10) then "High" else "Medium") 0.

(** [_trust]. *)
Definition stored_trust (who : list Z) : W TrustScore :=
  t ← now;
  w ← get_state;
  let r := get (trust_score_cache (ev w)) who (secs t) in
  upd_ev (set_trust_score_cache r.1);;
  match r.2 with
  | Some s => mret s
  | None =>
      io;;
      w ← get_state;
      score ← match rd_trust (redis w) !! who with
              | Some s => mret s
              | None => io;; upd_redis (fun r => set_rd_trust (<[who := default_trust_score]> (rd_trust r)) r);;
                        mret default_trust_score
              end;
      t ← now;
      upd_ev (fun s => set_trust_score_cache (set (trust_score_cache s) who score (secs t)) s);;
      mret score
  end.

(** [_safe_frozen_only]: fails closed. *)
Definition safe_frozen_only (who : list Z) : W bool :=
  try_with (io;; w ← get_state; mret (bool_decide (who ∈ rd_frozen (redis w)))) (fun _ => mret true).

(** [_safe_override_only]: fails open, also on a value that does not parse. *)
Definition safe_override_only (who : list Z) : W (option Q) :=
  try_with
    (io;; w ← get_state;
     match rd_cap (redis w) !! who with
     | None => mret None
     | Some None => raise EOther
     | Some (Some q) => mret (Some q)
     end)
    (fun _ => mret None).

(** [get_history]: the rows of the last hour, by score. *)
Definition WINDOW_US : Z := 3600 * 1000000.

Definition get_history (who : list Z) : W (list HistEntry) :=
  t ← now;
  io;;
  w ← get_state;
  let rows := default [] (rd_history (redis w) !! who) in
  mret (map snd (sort_by (fun r => (r.1, 0)) (filter (fun r => t - WINDOW_US <= r.1 <= t) rows))).

(** [_safe_history]. *)
Definition safe_history (who : list Z) : W (list HistEntry) :=
  try_with (get_history who) (fun _ => t ← now; mret (unavailable_history t)).

(** [_safe_profile_and_frozen]. *)
Definition safe_profile_and_frozen (inp : TrustInput) : W (Profile * bool) :=
  try_with
    (io;;
     w ← get_state;
     let cls := ti_agent_class inp in
     match rd_profile (redis w) !! ti_spiffe_id inp with
     | Some None => raise EOther
     | row =>
         let stored := match row with Some (Some p) => p | _ => default_profile cls end in
         let constraints := if nonempty cls then default ([], []) (rd_class (redis w) !! cls) else ([], []) in
         mret (mkProfile (known_tools stored) constraints.1 constraints.2 (baseline_rpm stored)
                 (param_entropy_baseline stored) cls,
               bool_decide (ti_spiffe_id inp ∈ rd_frozen (redis w)))
     end)
    (fun _ => f ← safe_frozen_only (ti_spiffe_id inp); mret (conservative_profile inp, f)).

(** [_history_cached]. *)
Definition history_cached (who : list Z) : W (list HistEntry) :=
  t ← now;
  w ← get_state;
  let r := get (history_cache (ev w)) who (secs t) in
  upd_ev (set_history_cache r.1);;
  match r.2 with
  | Some h => mret h
  | None =>
      h ← safe_history who;
      t ← now;
      upd_ev (fun s => set_history_cache (set (history_cache s) who h (secs t)) s);;
      mret h
  end.

(** [_profile_cached]: the freeze flag read along is discarded. *)
Definition profile_cached (inp : TrustInput) : W Profile :=
  let key := (ti_spiffe_id inp, ti_agent_class inp) in
  t ← now;
  w ← get_state;
  let r := get (profile_cache (ev w)) key (secs t) in
  upd_ev (set_profile_cache r.1);;
  match r.2 with
  | Some p => mret p
  | None =>
      pf ← safe_profile_and_frozen inp;
      t ← now;
      upd_ev (fun s => set_profile_cache (set (profile_cache s) key pf.1 (secs t)) s);;
      mret pf.1
  end.

(** The reads of [calculate]: history, profile, freeze flag and cap. *)
Definition trust_reads (inp : TrustInput) (prefetched : option (bool * option Q))
    : W (list HistEntry * Profile * bool * option Q) :=
  let who := ti_spiffe_id inp in
  w ← get_state;
  if enabled (history_cache (ev w)) then
    h ← history_cached who;
    p ← profile_cached inp;
    match prefetched with
    | Some (f, o) => mret (h, p, f, o)
    | None => f ← safe_frozen_only who; o ← safe_override_only who; mret (h, p, f, o)
    end
  else
    h ← safe_history who;
    pf ← safe_profile_and_frozen inp;
    o ← safe_override_only who;
    mret (h, pf.1, pf.2, o).

(** [calculate]. *)
Definition calculate (inp : TrustInput) (threshold : option Q) (prefetched : option (bool * option Q))
    : W TrustResult :=
  r ← trust_reads inp prefetched;
  let '(h, p, f, o) := r in
  t ← now;
  let result := calculate_from log2 dumps_sorted t inp h p threshold f o in
  queue (TPersistTrust (ti_spiffe_id inp) result);;
  mret result.

(** [_compute_trust]. *)
Definition compute_trust (event : ToolCallEvent) (threshold : option Q)
    (prefetched : option (bool * option Q)) : W TrustResult :=
  t ← now;
  let who := agent_identity event in
  calculate (mkTrustInput (spiffe_id who) (namespace who) (agent_class who) (tool_name event)
               (tool_params event) (session_id event) (call_depth event) t) threshold prefetched.

(** [_parse_override]: no cap on a value that does not parse. *)
Definition parse_override (raw : option (option Q)) : option Q :=
  match raw with Some (Some q) => Some q | _ => None end.

(** [get_agent_flags] ([cache.py]): fails closed. *)
Definition get_agent_flags (who : list Z) : W (bool * option Q) :=
  try_with
    (io;; w ← get_state;
     mret (bool_decide (who ∈ rd_frozen (redis w)), parse_override (rd_cap (redis w) !! who)))
    (fun _ => mret (true, None)).

(** A live eval entry at instant [t]. *)
Definition live_eval (w : World) (t : Z) (k : string * string * string) : option PolicyDecision :=
  match rd_eval (redis w) !! k with
  | Some (d, expires) => if t <? expires then Some d else None
  | None => None
  end.

(** [get_eval]. *)
Definition get_eval (ns cls tool : string) : W (option PolicyDecision) :=
  t ← now;
  io;;
  w ← get_state;
  mret (live_eval w t (eval_key ns cls tool)).

(** [get_eval_and_agent_flags]: fails closed. *)
Definition get_eval_and_agent_flags (ns cls tool : string) (who : list Z)
    : W (option PolicyDecision * bool * option Q) :=
  try_with
    (t ← now;
     io;;
     w ← get_state;
     mret (live_eval w t (eval_key ns cls tool), bool_decide (who ∈ rd_frozen (redis w)),
           parse_override (rd_cap (redis w) !! who)))
    (fun _ => mret (None, true, None)).

(** [set_eval]. *)
Definition set_eval (ns cls tool : string) (d : PolicyDecision) : W unit :=
  t ← now;
  io;;
  upd_redis (fun r =>
    set_rd_eval (<[eval_key ns cls tool := (d, t + us_of (redis_ttl_eval_s cfg))]> (rd_eval r)) r).

(** [incr_call_count]: INCR, then EXPIRE only for the first call of a window. *)
Definition incr_call_count (who : list Z) (window_s : Z) : W Z :=
  t ← now;
  io;;
  w ← get_state;
  let old := match rd_calls (redis w) !! who with
             | Some (n, Some expires) => if t <? expires then Some (n, Some expires) else None
             | o => o
             end in
  let count := match old with Some (n, _) => n + 1 | None => 1 end in
  let expiry := match old with Some (_, e) => e | None => None end in
  upd_redis (fun r => set_rd_calls (<[who := (count, expiry)]> (rd_calls r)) r);;
  (if count =? 1 then
     io;;
     upd_redis (fun r => set_rd_calls (<[who := (count, Some (t + window_s * 1000000))]> (rd_calls r)) r)
   else mret tt);;
  mret count.

(** [_is_rate_limited]. *)
Definition is_rate_limited (who : list Z) (limit : Z) : W bool :=
  n ← incr_call_count who (evaluator_rate_limit_window_s cfg);
  mret (limit <? n).

(** [_rate_limit_decision]. *)
Definition rate_limit_decision (event : ToolCallEvent) (start limit t : Z) : PolicyDecision :=
  new_decision Block "rate_limit_exceeded"
    ("Rate limit exceeded: >" +:+ fmt_int limit +:+ " per " +:+ fmt_int (evaluator_rate_limit_window_s cfg) +:+ "s")
    (round2 (elapsed_ms start t)) (ev_id event) t.

(** [_maybe_rate_limit]. *)
Definition maybe_rate_limit (event : ToolCallEvent) (base : PolicyDecision) (start : Z) (p : Posture)
    : W (option PolicyDecision) :=
  if bool_decide (decision base = Allow) && negb (is_rate_limit_exempt (tool_name event)) then
    limited ← is_rate_limited (spiffe event) (po_rate_limit p);
    if limited : bool then
      t ← now;
      mret (Some (apply_posture (rate_limit_decision event start (po_rate_limit p) t) p))
    else mret None
  else mret None.

(** ** OPA *)

Record RawDecision := mkRaw { rw_decision : string; rw_rule : string; rw_reason : string }.

Definition MAX_DRYRUN_MODULES : nat := 256.

(** The identifier of a policy's module in OPA. *)
Definition module_id (key : string) : text := sanitize_key sha1_8 (points key).

(** [_push_module]: the PUT may fail before OPA applies it (a module that does not compile, a refused
    connection), or after, when only its answer is lost. *)
Definition push_module (key : string) (rego : text) : W unit :=
  io;;
  modify (fun w => set_opa (<[module_id key := compile_source sha1_8 (points key) rego]> (opa w)) w);;
  io.

(** The eviction loop of [_track_dryrun_module]. *)
Fixpoint evict_dryrun (keys : list string) : W unit :=
  match keys with
  | [] => upd_ev (set_dryrun_keys [])
  | old :: keys' =>
      if (MAX_DRYRUN_MODULES <? length keys)%nat then
        upd_ev (fun s => set_dryrun_keys keys' (set_pushed (delete old (pushed s)) s));;
        try_with (io;; modify (fun w => set_opa (delete (module_id old) (opa w)) w)) (fun _ => mret tt);;
        evict_dryrun keys'
      else upd_ev (set_dryrun_keys keys)
  end.

(** [_track_dryrun_module]. *)
Definition track_dryrun_module (key : string) : W unit :=
  w ← get_state;
  evict_dryrun (filter (fun k => k <> key) (dryrun_keys (ev w)) ++ [key]).

(** [_ensure_module_pushed]. *)
Definition ensure_module_pushed (key : string) (rego : text) : W unit :=
  if negb (bool_decide (opa_mode cfg = "server")) then mret tt
  else
    w ← get_state;
    if bool_decide (pushed (ev w) !! key = Some (sha256 rego)) then mret tt
    else
      push_module key rego;;
      upd_ev (fun s => set_pushed (<[key := sha256 rego]> (pushed s)) s);;
      if starts_with "dryrun:" key then track_dryrun_module key else mret tt.

(** [asyncio.wait_for(m, timeout)]: one more thing that may fail; a timeout discards the result. *)
Definition wait_for {A} (m : W A) : W A := fun w =>
  match faults w with
  | Some ETimeout :: fs => ((m (set_faults fs w)).1, inl ETimeout)
  | _ :: fs => m (set_faults fs w)
  | [] => m w
  end.

(** [_warm_module]: never raises. *)
Definition warm_module (key : string) (rego : text) : W unit :=
  try_with (wait_for (ensure_module_pushed key rego)) (fun _ => mret tt).

(** [OpaClient.query]: a null result is no result. *)
Definition opa_query (key : string) (doc : OpaInput) : W (option json) :=
  io;;
  w ← get_state;
  mret (match opa w !! module_id key with
        | Some src => match opa_run src doc with Some JNull => None | r => r end
        | None => None
        end).

(** [bool(value)]. *)
Definition truthy (j : json) : bool :=
  match j with
  | JNull => false
  | JBool b => b
  | JInt n => negb (n =? 0)
  | JFloat q => negb (Qeq_bool q 0)
  | JStr s => nonempty s
  | JArr l => negb (bool_decide (length l = 0%nat))
  | JObj l => negb (bool_decide (length l = 0%nat))
  end.

Definition truthy_field (k : string) (fields : list (string * json)) : bool :=
  match assoc k fields with Some j => truthy j | None => false end.

(** [_fired_without_decision]. *)
Definition fired_without_decision (fields : list (string * json)) : bool :=
  match assoc "decision" fields with
  | Some _ => false
  | None => truthy_field "blocks" fields || truthy_field "escalates" fields || truthy_field "audits" fields
  end.

(** [str(value)]. *)
Definition py_str (j : json) : string := match j with JStr s => s | _ => py_repr j end.

Definition str_field (k dflt : string) (fields : list (string * json)) : string :=
  match assoc k fields with Some j => py_str j | None => dflt end.

Definition invalid_payload (why : string) : RawDecision := mkRaw "block" "evaluator_invalid_payload" why.

(** The reading of OPA's answer, shared by both modes up to the text for a value of the wrong type. *)
Definition decode_answer (wrong_type : string) (r : option json) : RawDecision :=
  match r with
  | Some (JObj fields) =>
      if fired_without_decision fields
      then invalid_payload "policy produced no decision (partial-set rule fired without a resolver)"
      else mkRaw (str_field "decision" "allow" fields) (str_field "rule_id" "" fields)
             (str_field "reason" "" fields)
  | None => invalid_payload "No policy decision produced"
  | Some _ => invalid_payload wrong_type
  end.

(** [_evaluate_opa_server]. *)
Definition evaluate_opa_server (key : string) (rego : text) (doc : OpaInput) : W RawDecision :=
  ensure_module_pushed key rego;;
  r ← opa_query key doc;
  r ← match r with
      | Some j => mret (Some j)
      | None =>
          push_module key rego;;
          upd_ev (fun s => set_pushed (<[key := sha256 rego]> (pushed s)) s);;
          opa_query key doc
      end;
  mret (decode_answer "No policy decision produced" r).

(** [_opa_query_for_package]. *)
Definition opa_query_for_package (package : option text) : text :=
  match package with
  | Some (_ :: _ as p) => points "data." ++ p
  | _ => points "data.norviq.strict"
  end.

(** [_evaluate_opa_subprocess]. *)
Definition evaluate_opa_subprocess (rego : text) (package : option text) (doc : OpaInput) : W RawDecision :=
  io;;
  let package := match package with Some p => Some p | None => extract_package_name rego end in
  let r := match opa_fork (upgrade_legacy rego).1 (opa_query_for_package package) doc with Some JNull => None | r => r end in
  mret (decode_answer "Invalid policy decision payload" r).

(** [_no_policy_decision]. *)
Definition no_policy (w : World) : RawDecision :=
  if bound (loader w) && negb (warmed (loader w))
  then mkRaw "block" "policy_load_pending" "Policy subsystem not ready"
  else if bool_decide (enforcement_mode cfg = "block") && bool_decide (lower (no_policy_decision cfg) = "deny")
  then mkRaw "block" "no_policy_loaded" "No policy loaded for namespace (default-deny)"
  else mkRaw "allow" "default_allow" "No policy matched".

(** [_evaluate_opa]. *)
Definition evaluate_opa (key : string) (doc : OpaInput) (rego_source : text) : W RawDecision :=
  w ← get_state;
  let '(rego, package) :=
    if negb (bool_decide (tstrip rego_source = [])) then (rego_source, None)
    else match index (ev w) !! key with
         | Some e => (ix_rego e, match ix_package e with
                                 | Some p => if bool_decide (tstrip p = []) then None else Some (tstrip p)
                                 | None => Some (points "None") end)
         | None => (rego_source, None)
         end in
  if bool_decide (tstrip rego = []) then mret (no_policy w)
  else if bool_decide (opa_mode cfg = "server") then evaluate_opa_server key rego doc
  else evaluate_opa_subprocess rego package doc.

(** [_build_decision]: raises on a decision string the schema rejects. *)
Definition build_decision (raw : RawDecision) (event : ToolCallEvent) (tr : TrustResult) (ms : Q)
    : W PolicyDecision :=
  match parse_verdict (rw_decision raw) with
  | None => raise EOther
  | Some v =>
      t ← now;
      mret {| decision := v; policy_id := ""; policy_version := 0; rule_id := rw_rule raw;
              reason := rw_reason raw; trust_score := tr_score tr; trust_category := tr_category tr;
              trust_signals := tr_signals tr; trust_dominant_signal := tr_dominant tr;
              trust_recommendation := tr_recommendation tr; latency_ms := round2 ms;
              event_id := ev_id event; decided_at := t |}
  end.

(** [_build_input]. *)
Definition build_input (event : ToolCallEvent) (tr : TrustResult) : option OpaInput :=
  derived ← derived_input event;
  let who := agent_identity event in
  Some {|
    in_tool_name := tool_name event;
    in_tool_name_normalized := skeleton (tool_name event);
    in_tool_params := tool_params event;
    in_tool_params_normalized := normalize_for_match (tool_params event);
    in_spiffe_id := spiffe_id who; in_namespace := namespace who; in_agent_class := agent_class who;
    in_trust_score := tr_score tr;
    in_trust_category := tr_category tr;
    in_session_id := session_id event;
    in_call_depth := call_depth event;
    in_derived := derived;
    in_mcp := mcp event;
    in_direction := default (JStr "call") (assoc "direction" (mcp event));
  |}.

(** One attempt of [_evaluate_single]. *)
Definition attempt (event : ToolCallEvent) (key : string) (rego : text) (tr : TrustResult) : W PolicyDecision :=
  match build_input event tr with
  | None => raise EOther
  | Some doc => raw ← evaluate_opa key doc rego; build_decision raw event tr 0
  end.

(** [_evaluate_single]: one retry, then a counted fail-closed decision. *)
Definition evaluate_single (event : ToolCallEvent) (key : string) (rego : text) (tr : TrustResult) : W PolicyDecision :=
  try_with (attempt event key rego tr) (fun _ =>
  try_with (attempt event key rego tr) (fun _ =>
    upd_ev (fun s => set_engine_error_count (engine_error_count s + 1) s);;
    build_decision (mkRaw "block" "evaluator_error"
      "OPA evaluation failed (engine error, fail-closed) — not a policy decision") event tr 0)).

(** ** The call *)

(** [_params_digest]. *)
Definition params_digest (event : ToolCallEvent) : string :=
  string_take 16 (unpoints (sha256 (points (dumps_sorted (tool_params event))))).

(** [_cache_tool_key]. *)
Definition cache_tool_key (event : ToolCallEvent) : string :=
  let key := tool_name event +:+ ":" +:+ params_digest event +:+ ":d" +:+ fmt_int (call_depth event)
             +:+ ":w" +:+ workload (agent_identity event) in
  match mcp event with
  | [] => key
  | _ :: _ => key +:+ ":m" +:+ string_take 16 (unpoints (sha256 (points (dumps_sorted (mcp event)))))
  end.

Definition PER_IDENTITY_FACTS : list string :=
  ["input.trust_score"; "input.trust_category"; "input.agent.spiffe_id"].

(** [_depends_on_per_identity_facts]. *)
Definition depends_on_per_identity_facts (cs : list Candidate) : bool :=
  existsb (fun c => existsb (fun fact => tcontains (points fact) (c_rego c)) PER_IDENTITY_FACTS) cs.

(** [_validate_spiffe]. *)
Definition validate_spiffe (who : list Z) : W unit :=
  if is_controllable_spiffe_id who then mret tt else raise EInvalidSpiffe.

(** [_handle_cache_hit]. *)
Definition handle_cache_hit (event : ToolCallEvent) (cached : PolicyDecision) (start : Z)
    (tr : TrustResult) (p : Posture) : W PolicyDecision :=
  throttled ← maybe_rate_limit event cached start p;
  match throttled with
  | Some d => mret d
  | None =>
      t ← now;
      let d := apply_trust_overrides cached tr t in
      let d := apply_posture d p in
      mret (ensure_block_attribution d)
  end.

(** [_persist_behavior]: everything downstream reads the decision it is given. *)
Definition persist_behavior (event : ToolCallEvent) (d : PolicyDecision) (tr : TrustResult) : W unit :=
  queue (TSetTrust (spiffe event) tr);;
  queue (TRegisterAgent event tr d);;
  queue (TRecordGraph event d);;
  queue (TRecordHistory event d);;
  queue (TUpdateProfile event d);;
  queue (TAudit d).

(** The trust result and the cached decision, through the L1 or without it. *)
Definition read_caches (event : ToolCallEvent) (p : Posture) (key : string)
    : W (option PolicyDecision * TrustResult) :=
  let ns := namespace (agent_identity event) in
  let cls := agent_class (agent_identity event) in
  w ← get_state;
  if enabled (inproc_eval_cache (ev w)) then
    t ← now;
    w ← get_state;
    let r := get (inproc_eval_cache (ev w)) (ns, cls, key) (secs t) in
    upd_ev (set_inproc_eval_cache r.1);;
    cf ← match r.2 with
         | Some d => f ← get_agent_flags (spiffe event); mret (Some d, f)
         | None =>
             r ← get_eval_and_agent_flags ns cls key (spiffe event);
             let '(d, f, o) := r in
             match d with
             | Some d => t ← now; upd_ev (fun s => set_inproc_eval_cache (set (inproc_eval_cache s) (ns, cls, key) d (secs t)) s)
             | None => mret tt
             end;;
             mret (d, (f, o))
         end;
    tr ← compute_trust event (po_threshold p) (Some cf.2);
    mret (cf.1, tr)
  else
    tr ← compute_trust event (po_threshold p) None;
    d ← get_eval ns cls key;
    mret (d, tr).

(** The evaluation of every candidate, in order. *)
Definition evaluate_candidates (event : ToolCallEvent) (tr : TrustResult) (cs : list Candidate)
    : W (list Result) :=
  for_each cs (fun c =>
    warm_module (c_key c) (c_rego c);;
    d ← wait_for (evaluate_single event (c_key c) (c_rego c) tr);
    mret (result_of c d)).

(** The base decision on a cache miss, with the candidates it came from. *)
Definition decide_fresh (event : ToolCallEvent) (tr : TrustResult) (start : Z)
    : W (PolicyDecision * list Candidate) :=
  let ns := namespace (agent_identity event) in
  let cls := agent_class (agent_identity event) in
  cs ← collect_candidates (agent_identity event) false;
  match cs with
  | [] =>
      w ← get_state;
      match index (ev w) !! key_of ns cls with
      | Some e => warm_module (key_of ns cls) (ix_rego e)
      | None => mret tt
      end;;
      raw ← wait_for (match build_input event tr with
                      | None => raise EOther
                      | Some doc => evaluate_opa (key_of ns cls) doc []
                      end);
      t ← now;
      d ← build_decision raw event tr (elapsed_ms start t);
      mret (d, cs)
  | _ :: _ =>
      rs ← evaluate_candidates event tr cs;
      match resolve_with_packs rs with
      | Some winner => mret (apply_policy_mode cfg winner, cs)
      | None => raise EOther
      end
  end.

(** The two cache writes, under one guard. *)
Definition store_eval (event : ToolCallEvent) (key : string) (base : PolicyDecision) (cs : list Candidate)
    : W unit :=
  let ns := namespace (agent_identity event) in
  let cls := agent_class (agent_identity event) in
  if negb (bool_decide (rule_id base ∈ evaluator_non_cacheable_rules cfg))
     && negb (depends_on_per_identity_facts cs)
  then
    set_eval ns cls key base;;
    w ← get_state;
    if enabled (inproc_eval_cache (ev w))
    then t ← now; upd_ev (fun s => set_inproc_eval_cache (set (inproc_eval_cache s) (ns, cls, key) base (secs t)) s)
    else mret tt
  else mret tt.

(** What both return paths do last: fold, stamp the latency, persist. *)
Definition finish (event : ToolCallEvent) (d : PolicyDecision) (tr : TrustResult) (start : Z)
    : W PolicyDecision :=
  let d := apply_pep_denial d (pep_decision event) (pep_rule_id event) (pep_reason event) in
  t ← now;
  let d := with_latency d (round2 (elapsed_ms start t)) in
  persist_behavior event d tr;;
  mret d.

(** The overrides of the fresh path, as [evaluate] inlines them. *)
Definition fresh_overrides (event : ToolCallEvent) (base : PolicyDecision) (start : Z) (tr : TrustResult)
    (p : Posture) : W PolicyDecision :=
  throttled ← maybe_rate_limit event base start p;
  match throttled with
  | Some d => mret d
  | None =>
      t ← now;
      let d := apply_trust_overrides base tr t in
      let d := apply_posture d p in
      mret (ensure_block_attribution d)
  end.

(** The body of the [try] of [evaluate]. *)
Definition evaluate_try (event : ToolCallEvent) (start : Z) : W PolicyDecision :=
  validate_spiffe (spiffe event);;
  p ← resolve_posture (namespace (agent_identity event));
  _ ← stored_trust (spiffe event);
  let key := cache_tool_key event in
  r ← read_caches event p key;
  let '(cached, tr) := r in
  match cached with
  | Some c =>
      d ← handle_cache_hit event c start tr p;
      finish event d tr start
  | None =>
      r ← decide_fresh event tr start;
      let '(base, cs) := r in
      store_eval event key base cs;;
      d ← fresh_overrides event base start tr p;
      finish event d tr start
  end.

(** [_soften_failure_for_posture]. *)
Definition soften_failure (d : PolicyDecision) (event : ToolCallEvent) : W PolicyDecision :=
  try_with (p ← resolve_posture (namespace (agent_identity event)); mret (apply_posture d p))
    (fun _ => mret d).

(** [_register_fail_closed]. *)
Definition register_fail_closed (event : ToolCallEvent) (d : PolicyDecision) : W unit :=
  if negb (is_controllable_spiffe_id (spiffe event)) then mret tt
  else queue (TRegisterAgent event
    (mkTrustResult 0 "low" [] [] "fail_closed" (or_else (rule_id d) "fail_closed")) d).

(** The decision an exception leads to. *)
Definition failure_decision (e : exc) (event : ToolCallEvent) (start t : Z) : PolicyDecision :=
  let ms := elapsed_ms start t in
  match e with
  | ETimeout => timeout_decision (ev_id event) ms t
  | EInvalidSpiffe => invalid_identity_decision (ev_id event) ms t
  | _ => ensure_block_attribution (fallback_decision (ev_id event) ms t)
  end.

(** The three handlers of [evaluate], alike but for the decision they start from. *)
Definition on_failure (event : ToolCallEvent) (start : Z) (e : exc) : W PolicyDecision :=
  t ← now;
  d ← soften_failure (failure_decision e event start t) event;
  register_fail_closed event d;;
  mret d.

(** [evaluate]. *)
Definition evaluate (event : ToolCallEvent) : W PolicyDecision :=
  start ← now;
  try_with (evaluate_try event start) (on_failure event start).

End Evaluator.
