(* ===== verification/EvaluatorProps.v ===== *)
(** * Properties of the evaluator

    Totality, fail-closed behaviour, the freeze kill switch, the enforcement-point fold, attribution,
    the eval cache and OPA module coherence, for every outcome of the external calls. *)

From S2P Require Import Prelude Text Config Decisions Resolve InprocCache Effects Trust World Loader Collect Identity.
From S2P Require Import Evaluator.

(** The namespace is not in monitor mode, neither in the mirror nor in the posture cache. *)
Definition not_monitor (ns : string) (w : World) : Prop :=
  (forall r, rd_ns (redis w) !! ns = Some r -> ns_mode r <> Some "audit") /\
  (forall x p, (ns, (x, p)) ∈ data (posture_cache (ev w)) -> monitor p = false).

(** What evaluation never changes: the freeze flags, the mirrored settings, and a namespace that is not
    in monitor mode stays out of it. *)
Record stable (w w' : World) : Prop := {
  st_frozen : rd_frozen (redis w') = rd_frozen (redis w);
  st_ns : rd_ns (redis w') = rd_ns (redis w);
  st_posture : forall ns, not_monitor ns w -> not_monitor ns w';
}.

#[global] Instance stable_preorder : PreOrder stable.
Proof.
  split; [by intros w|]. intros w1 w2 w3 [A1 A2 A3] [B1 B2 B3]. constructor; [congruence|congruence|auto].
Qed.

(** A change that leaves the freeze flags, the mirror and the posture cache alone is stable. *)
Lemma stable_same w w' :
  rd_frozen (redis w') = rd_frozen (redis w) -> rd_ns (redis w') = rd_ns (redis w) ->
  posture_cache (ev w') = posture_cache (ev w) -> stable w w'.
Proof. intros E1 E2 E3. constructor; [done|done|]. unfold not_monitor. intros ns. by rewrite E2, E3. Qed.

#[global] Instance stable_insensitive : Insensitive stable.
Proof. intros w fs t ts. split; by apply stable_same. Qed.

(** A change that touches neither what [stable] speaks of nor the two eval caches. *)
Record untouched (w w' : World) : Prop := {
  un_frozen : rd_frozen (redis w') = rd_frozen (redis w);
  un_ns : rd_ns (redis w') = rd_ns (redis w);
  un_posture : posture_cache (ev w') = posture_cache (ev w);
  un_eval : rd_eval (redis w') = rd_eval (redis w);
  un_inproc : inproc_eval_cache (ev w') = inproc_eval_cache (ev w);
}.

(** A relation that such changes preserve. *)
Class Inert (R : World -> World -> Prop) : Prop := inert : forall w w', untouched w w' -> R w w'.

#[global] Instance stable_inert : Inert stable.
Proof. intros w w' []. by apply stable_same. Qed.

(** Solve a [keeps] goal by structure; [modify] steps that touch none of the three fields are immediate. *)
Ltac keeps_tac :=
  repeat first
    [ apply keeps_ret; apply _ | apply keeps_raise; apply _ | apply keeps_get; apply _
    | apply keeps_io; apply _ | apply keeps_now; apply _
    | apply keeps_bind; [apply _| |intros ?] | apply keeps_try; [apply _| |intros ?]
    | apply keeps_for_each; [apply _|intros ?]
    | apply keeps_modify; intros ?; first [by apply inert | by apply stable_same]
    | match goal with
      | |- keeps _ (match ?x with _ => _ end) => destruct x
      | |- keeps _ (upd_ev _) => unfold upd_ev
      | |- keeps _ (upd_loader _) => unfold upd_loader
      | |- keeps _ (upd_redis _) => unfold upd_redis
      | |- keeps _ (queue _) => unfold queue
      | |- keeps _ (publish _) => unfold publish
      end
    | progress cbv zeta
    | solve [eauto with keeps typeclass_instances] ].

Section Keeps.
Context `{Externals}.

Lemma dict_pop_in {K V} `{EqDecision K} (k : K) (d : list (K * (Q * V))) x : x ∈ dict_pop k d -> x ∈ d.
Proof. unfold dict_pop. by intros [_ ?]%list_elem_of_filter. Qed.

Lemma evict_in {K V} (n : nat) (d : list (K * (Q * V))) x : x ∈ evict n d -> x ∈ d.
Proof. destruct (evict_suffix n d) as [d0 E]. intros Hx. rewrite E. apply elem_of_app. by right. Qed.

Lemma get_data {K V} `{EqDecision K} (c : TTLCache K V) k t x : x ∈ data (get c k t).1 -> x ∈ data c.
Proof.
  unfold get. destruct (Qle_bool _ _); [done|]. destruct (dict_get _ _) as [[]|]; [|done].
  destruct (Qle_bool _ _); [apply dict_pop_in|done].
Qed.

Lemma get_value {K V} `{EqDecision K} (c : TTLCache K V) k t v :
  (get c k t).2 = Some v -> exists x, (k, (x, v)) ∈ data c.
Proof.
  unfold get. destruct (Qle_bool _ _); [done|]. destruct (dict_get k (data c)) as [[x v']|] eqn:E; [|done].
  destruct (Qle_bool _ _); [done|]. intros [= ->]. exists x. by apply dict_get_elem.
Qed.

Lemma set_data {K V} `{EqDecision K} (c : TTLCache K V) k v t k' e :
  (k', e) ∈ data (set c k v t) -> (k', e) ∈ data c \/ (k' = k /\ e.2 = v).
Proof.
  unfold set. destruct (Qle_bool _ _); [auto|]. simpl. intros Hx%evict_in.
  apply elem_of_app in Hx as [Hx%dict_pop_in|Hx]; [auto|]. apply list_elem_of_singleton in Hx. naive_solver.
Qed.

Lemma keeps_wp {A} (R : World -> World -> Prop) (m : W A) :
  (forall w, wp m (fun _ => R w) (fun _ => R w) w) -> keeps R m.
Proof. intros Hm w. specialize (Hm w). unfold wp in Hm. by destruct (m w) as [w' []]. Qed.

(** A read of the posture cache serves what it holds and adds nothing. *)
Lemma wp_posture_cached ns (Q : option Posture -> World -> Prop) (E : exc -> World -> Prop) w :
  (forall r w', stable w w' -> (not_monitor ns w -> forall p, r = Some p -> monitor p = false) -> Q r w') ->
  wp (posture_cached ns) Q E w.
Proof.
  intros HQ. unfold posture_cached. wp_steps. subst. apply HQ.
  - constructor; [done|done|]. intros ns' [N1 N2]. split; [done|]. intros x p Hx.
    apply (N2 x p). simpl in Hx. by apply get_data in Hx.
  - intros [_ N2] p Hp. apply get_value in Hp as [x Hx]. by apply (N2 x p).
Qed.

Lemma stable_ev w f :
  posture_cache (f (ev w)) = posture_cache (ev w) -> stable w (set_ev (f (ev w)) w).
Proof. intros E. by apply stable_same. Qed.

(** The posture is never "monitor" for a namespace that is not in monitor mode, whatever fails. *)
Lemma wp_resolve_posture ns (Q : Posture -> World -> Prop) (E : exc -> World -> Prop) w :
  (forall p w', stable w w' -> (not_monitor ns w -> monitor p = false) -> Q p w') ->
  wp (resolve_posture ns) Q E w.
Proof.
  intros HQ. unfold resolve_posture. apply wp_bind, wp_posture_cached. intros r w1 S1 M1.
  destruct r as [p|]; [apply wp_ret, HQ; [done|intros N; by apply (M1 N p)]|].
  assert (Fin : forall raw w2, stable w w2 -> (raw = None \/ raw = rd_ns (redis w) !! ns) ->
    wp (t ← now;
        upd_ev (fun s => set_posture_cache (set (posture_cache s) ns (posture_of raw) (secs t)) s);;
        mret (posture_of raw)) Q E w2).
  { intros raw w2 S2 Hraw.
    assert (Hmon : not_monitor ns w -> monitor (posture_of raw) = false).
    { intros [N1 _]. destruct raw as [r|]; [|done]. apply bool_decide_eq_false.
      destruct Hraw as [?|Hraw]; [done|]. by apply N1. }
    wp_steps. apply HQ; [|done]. subst. constructor; [apply S2|apply S2|].
    intros ns' N. destruct (st_posture _ _ S2 ns' N) as [N1 N2]. split; [done|]. intros x p Hx.
    simpl in Hx. apply set_data in Hx as [Hx|[-> Hp]]; [by apply (N2 x p)|]. simpl in Hp. subst p. auto. }
  assert (S2 : forall fs, stable w (set_faults fs w1)).
  { intros fs. etransitivity; [exact S1|]. by apply stable_same. }
  apply wp_bind, wp_try, wp_bind, wp_io.
  - intros fs w2 ->. apply wp_bind, wp_get, wp_ret, Fin; [done|]. right. simpl. by rewrite (st_ns _ _ S1).
  - intros e fs w2 ->. apply wp_ret, Fin; [done|]. by left.
Qed.

Lemma keeps_resolve_posture ns : keeps stable (resolve_posture ns).
Proof. apply keeps_wp. intros w. apply wp_resolve_posture. auto. Qed.

End Keeps.

(** ** Everything but the posture and the eval caches, for any relation of that kind *)
Section Generic.
Context `{Externals} (R : World -> World -> Prop) `{!PreOrder R} `{!Insensitive R} `{!Inert R}.

Lemma keeps_stored_trust who : keeps R (stored_trust who).
Proof. unfold stored_trust. keeps_tac. Qed.

Lemma keeps_safe_frozen who : keeps R (safe_frozen_only who).
Proof. unfold safe_frozen_only. keeps_tac. Qed.

Lemma keeps_safe_override who : keeps R (safe_override_only who).
Proof. unfold safe_override_only. keeps_tac. Qed.

Lemma keeps_safe_history who : keeps R (safe_history who).
Proof. unfold safe_history, get_history. keeps_tac. Qed.

Lemma keeps_safe_profile inp : keeps R (safe_profile_and_frozen inp).
Proof. unfold safe_profile_and_frozen, safe_frozen_only. keeps_tac. Qed.

Hint Resolve keeps_safe_frozen keeps_safe_override keeps_safe_history keeps_safe_profile keeps_stored_trust : keeps.

Lemma keeps_history_cached who : keeps R (history_cached who).
Proof. unfold history_cached. keeps_tac. Qed.

Lemma keeps_profile_cached inp : keeps R (profile_cached inp).
Proof. unfold profile_cached. keeps_tac. Qed.

Hint Resolve keeps_history_cached keeps_profile_cached : keeps.

Lemma keeps_load_from_db ns cls : keeps R (load_from_db ns cls).
Proof. unfold load_from_db, reload_policy. keeps_tac. Qed.

Hint Resolve keeps_load_from_db : keeps.

Lemma keeps_lookup_entry ns cls : keeps R (lookup_entry ns cls).
Proof. unfold lookup_entry. keeps_tac. Qed.

Hint Resolve keeps_lookup_entry : keeps.

Lemma keeps_supersede cs c b ex : keeps R (apply_controls_supersede cs c b ex).
Proof. unfold apply_controls_supersede, controls_supersede_baseline. keeps_tac. Qed.

Hint Resolve keeps_supersede : keeps.

Lemma keeps_union_loaded mk st k : keeps R (union_append_loaded mk st k).
Proof. unfold union_append_loaded. keeps_tac. Qed.

Lemma keeps_union_policy st ns cls fl : keeps R (union_append_policy st ns cls fl).
Proof. unfold union_append_policy. keeps_tac. Qed.

Hint Resolve keeps_union_loaded keeps_union_policy : keeps.

Lemma keeps_union_overlays st ks : keeps R (union_append_overlays st ks).
Proof. revert st. induction ks as [|k ks IH]; intros st; simpl; keeps_tac. Qed.

Hint Resolve keeps_union_overlays : keeps.

Lemma keeps_union_namespaces cls ex st nss : keeps R (union_namespaces cls ex st nss).
Proof.
  revert st. induction nss as [|ns nss IH]; intros st; simpl; [keeps_tac|].
  unfold union_namespace. keeps_tac.
Qed.

Hint Resolve keeps_union_namespaces : keeps.

Lemma keeps_collect who ex : keeps R (collect_candidates who ex).
Proof.
  unfold collect_candidates, collect_candidates_union, namespaces_for_class, collect_loaded, append_policy,
    append_controls_floor, append_loaded. keeps_tac.
Qed.

Lemma keeps_evict_dryrun ks : keeps R (evict_dryrun ks).
Proof. induction ks as [|k ks IH]; cbn [evict_dryrun]; keeps_tac. Qed.

Hint Resolve keeps_collect keeps_evict_dryrun : keeps.

Lemma keeps_ensure_pushed key rego : keeps R (ensure_module_pushed key rego).
Proof. unfold ensure_module_pushed, push_module, track_dryrun_module. keeps_tac. Qed.

Hint Resolve keeps_ensure_pushed : keeps.

Lemma keeps_wait_for {A} (m : W A) : keeps R m -> keeps R (wait_for m).
Proof.
  intros Hm w. unfold wait_for. destruct (faults w) as [|o fs]; [apply Hm|].
  assert (S : R w (set_faults fs w)) by (by apply inert).
  destruct o as [[]|]; (etransitivity; [exact S|apply Hm]).
Qed.

Hint Resolve keeps_wait_for : keeps.

Lemma keeps_warm key rego : keeps R (warm_module key rego).
Proof. unfold warm_module. keeps_tac. Qed.

Lemma keeps_evaluate_opa key doc rego : keeps R (evaluate_opa key doc rego).
Proof.
  unfold evaluate_opa, evaluate_opa_server, evaluate_opa_subprocess, opa_query, push_module. keeps_tac.
Qed.

Lemma keeps_build_decision raw event tr ms : keeps R (build_decision raw event tr ms).
Proof. unfold build_decision. keeps_tac. Qed.

Hint Resolve keeps_warm keeps_evaluate_opa keeps_build_decision : keeps.

Lemma keeps_evaluate_single event key rego tr : keeps R (evaluate_single event key rego tr).
Proof. unfold evaluate_single, attempt. keeps_tac. Qed.

Hint Resolve keeps_evaluate_single : keeps.

Lemma keeps_decide_fresh event tr start : keeps R (decide_fresh event tr start).
Proof.
  unfold decide_fresh, evaluate_candidates. keeps_tac. apply keeps_wait_for. keeps_tac.
Qed.

Lemma keeps_maybe_rate_limit event base start p : keeps R (maybe_rate_limit event base start p).
Proof. unfold maybe_rate_limit, is_rate_limited, incr_call_count. keeps_tac. Qed.

Lemma keeps_compute_trust event thr pre : keeps R (compute_trust event thr pre).
Proof. unfold compute_trust, calculate, trust_reads. keeps_tac. Qed.

End Generic.

#[export] Hint Resolve keeps_stored_trust
  keeps_safe_frozen
  keeps_safe_override
  keeps_safe_history
  keeps_safe_profile
  keeps_history_cached
  keeps_profile_cached
  keeps_load_from_db
  keeps_lookup_entry
  keeps_supersede
  keeps_union_loaded
  keeps_union_policy
  keeps_union_overlays
  keeps_union_namespaces
  keeps_collect
  keeps_evict_dryrun
  keeps_ensure_pushed
  keeps_wait_for
  keeps_warm
  keeps_evaluate_opa
  keeps_build_decision
  keeps_evaluate_single
  keeps_decide_fresh
  keeps_maybe_rate_limit
  keeps_compute_trust : keeps.

Section Body.
Context `{Externals}.

#[local] Hint Resolve keeps_resolve_posture : keeps.

Lemma keeps_store_eval event key base cs : keeps stable (store_eval event key base cs).
Proof. unfold store_eval, set_eval. keeps_tac. Qed.

(** A step that keeps [stable], in a proof about what comes after it. *)
Lemma wp_stable {A} (m : W A) (Q : A -> World -> Prop) (E : exc -> World -> Prop) w :
  keeps stable m ->
  (forall a w', stable w w' -> Q a w') -> (forall e w', stable w w' -> E e w') -> wp m Q E w.
Proof. intros Hm HQ HE. eapply wp_mono; [by apply (wp_keeps stable)| |]; simpl; auto. Qed.

(** ** The freeze flag, read through every path *)

Definition frozen (who : list Z) (w : World) : Prop := who ∈ rd_frozen (redis w).

#[local] Instance frozen_dec who w : Decision (frozen who w).
Proof. unfold frozen. apply _. Defined.

Lemma stable_frozen who w w' : stable w w' -> frozen who w -> frozen who w'.
Proof. intros S. unfold frozen. by rewrite (st_frozen _ _ S). Qed.

Lemma wp_frozen_only who w (Q : bool -> World -> Prop) E :
  frozen who w -> (forall w', stable w w' -> Q true w') -> wp (safe_frozen_only who) Q E w.
Proof.
  intros F HQ. unfold safe_frozen_only. apply wp_try, wp_bind, wp_io.
  - intros fs w' ->. wp_steps. rewrite bool_decide_true; [|exact F]. apply HQ. by apply stable_same.
  - intros e fs w' ->. wp_steps. apply HQ. by apply stable_same.
Qed.

Lemma wp_agent_flags who w (Q : bool * option Q -> World -> Prop) E :
  frozen who w -> (forall o w', stable w w' -> Q (true, o) w') -> wp (get_agent_flags who) Q E w.
Proof.
  intros F HQ. unfold get_agent_flags. apply wp_try, wp_bind, wp_io.
  - intros fs w' ->. wp_steps. rewrite bool_decide_true; [|exact F]. apply HQ. by apply stable_same.
  - intros e fs w' ->. wp_steps. apply HQ. by apply stable_same.
Qed.

Lemma wp_eval_and_flags ns cls tool who w (Q : option PolicyDecision * bool * option Q -> World -> Prop) E :
  frozen who w -> (forall d o w', stable w w' -> Q (d, true, o) w') ->
  wp (get_eval_and_agent_flags ns cls tool who) Q E w.
Proof.
  intros F HQ. unfold get_eval_and_agent_flags. apply wp_try, wp_bind, wp_now. intros t ts w1 _ ->.
  apply wp_bind, wp_io.
  - intros fs w' ->. wp_steps. rewrite bool_decide_true; [|exact F]. apply HQ. by apply stable_same.
  - intros e fs w' ->. wp_steps. apply HQ. by apply stable_same.
Qed.

Lemma wp_profile_and_frozen inp w (Q : Profile * bool -> World -> Prop) E :
  frozen (ti_spiffe_id inp) w -> (forall p w', stable w w' -> Q (p, true) w') ->
  wp (safe_profile_and_frozen inp) Q E w.
Proof.
  intros F HQ.
  assert (Fallback : forall fs, wp (f ← safe_frozen_only (ti_spiffe_id inp); mret (conservative_profile inp, f))
                                   Q E (set_faults fs w)).
  { intros fs. apply wp_bind, wp_frozen_only; [exact F|]. intros w2 S. wp_steps. apply HQ.
    etransitivity; [|exact S]. by apply stable_same. }
  unfold safe_profile_and_frozen. apply wp_try, wp_bind, wp_io; [|intros e fs w' ->; apply Fallback].
  intros fs w' ->. apply wp_bind, wp_get. cbv zeta.
  destruct (rd_profile _ !! _) as [[p|]|]; [|by apply wp_raise, Fallback|];
    (apply wp_ret; rewrite bool_decide_true; [apply HQ; by apply stable_same|exact F]).
Qed.

Lemma wp_trust_reads inp pre w (Q : list HistEntry * Profile * bool * option Q -> World -> Prop) E :
  frozen (ti_spiffe_id inp) w -> (forall f o, pre = Some (f, o) -> f = true) ->
  (forall h p o w', stable w w' -> Q (h, p, true, o) w') ->
  (forall e w', stable w w' -> E e w') -> wp (trust_reads inp pre) Q E w.
Proof.
  intros F Hpre HQ HE. unfold trust_reads. apply wp_bind, wp_get. destruct (enabled _).
  - apply wp_bind, wp_stable; [apply (keeps_history_cached stable)| |exact HE]. intros h w1 S1.
    apply wp_bind, wp_stable; [apply (keeps_profile_cached stable)| |intros e w2 S2; apply HE; by transitivity w1].
    intros p w2 S2. assert (S : stable w w2) by (by transitivity w1).
    destruct pre as [[f o]|]; [rewrite (Hpre f o eq_refl); wp_steps; auto|].
    apply wp_bind, wp_frozen_only; [by apply (stable_frozen _ w)|]. intros w3 S3.
    apply wp_bind, wp_stable; [apply (keeps_safe_override stable)|intros o w4 S4|intros e w4 S4].
    + wp_steps. apply HQ. transitivity w2; [done|]. by transitivity w3.
    + apply HE. transitivity w2; [done|]. by transitivity w3.
  - apply wp_bind, wp_stable; [apply (keeps_safe_history stable)| |exact HE]. intros h w1 S1.
    apply wp_bind, wp_profile_and_frozen; [by apply (stable_frozen _ w)|]. intros p w2 S2.
    apply wp_bind, wp_stable; [apply (keeps_safe_override stable)|intros o w4 S4|intros e w4 S4].
    + wp_steps. apply HQ. transitivity w1; [done|]. by transitivity w2.
    + apply HE. transitivity w1; [done|]. by transitivity w2.
Qed.

Lemma wp_compute_trust event thr pre w (Q : TrustResult -> World -> Prop) E :
  frozen (spiffe event) w -> (forall f o, pre = Some (f, o) -> f = true) ->
  (forall tr w', stable w w' -> tr_category tr = "frozen" -> Q tr w') ->
  (forall e w', stable w w' -> E e w') -> wp (compute_trust event thr pre) Q E w.
Proof.
  intros F Hpre HQ HE. unfold compute_trust, calculate. apply wp_bind, wp_now. intros t ts w1 _ E1.
  assert (S1 : stable w w1) by (subst; by apply stable_same).
  apply wp_bind, wp_trust_reads; [exact (stable_frozen _ _ _ S1 F)|exact Hpre| |intros; apply HE; by transitivity w1].
  intros h p o w2 S2. apply wp_bind, wp_now. intros t2 ts2 w3 _ E3. apply wp_bind. unfold queue.
  apply wp_upd. intros w4 E4. apply wp_ret, HQ.
  - transitivity w1; [done|]. transitivity w2; [done|]. subst w4 w3. by apply stable_same.
  - by apply frozen_category.
Qed.

Lemma keeps_read_caches event p key : keeps stable (read_caches event p key).
Proof.
  pose proof (keeps_compute_trust stable). unfold read_caches, get_agent_flags, get_eval_and_agent_flags, get_eval.
  keeps_tac; auto.
Qed.

Hint Resolve keeps_read_caches : keeps.

Lemma wp_read_caches event p key w (Q : option PolicyDecision * TrustResult -> World -> Prop) E :
  frozen (spiffe event) w ->
  (forall c tr w', stable w w' -> tr_category tr = "frozen" -> Q (c, tr) w') ->
  (forall e w', stable w w' -> E e w') -> wp (read_caches event p key) Q E w.
Proof.
  intros F HQ HE. unfold read_caches. apply wp_bind, wp_get. destruct (enabled _).
  - apply wp_bind, wp_now. intros t ts w1 _ E1. apply wp_bind, wp_get. cbv zeta.
    apply wp_bind, wp_upd. intros w2 E2.
    assert (S2 : stable w w2) by (subst; by apply stable_same).
    apply wp_bind. destruct (_.2) as [d|].
    + apply wp_bind, wp_agent_flags; [exact (stable_frozen _ _ _ S2 F)|]. intros o w3 S3. apply wp_ret.
      assert (S : stable w w3) by (by transitivity w2).
      apply wp_bind, wp_compute_trust; [exact (stable_frozen _ _ _ S F)|by intros ?? [= <- _]| |].
      * intros tr w4 S4 C. apply wp_ret, HQ; [by transitivity w3|done].
      * intros e w4 S4. apply HE. by transitivity w3.
    + apply wp_bind, wp_eval_and_flags; [exact (stable_frozen _ _ _ S2 F)|]. intros d o w3 S3.
      apply wp_bind, wp_stable; [destruct d; keeps_tac| |].
      * intros [] w4 S4. apply wp_ret. assert (S : stable w w4) by (transitivity w2; [|transitivity w3]; done).
        apply wp_bind, wp_compute_trust; [exact (stable_frozen _ _ _ S F)|by intros ?? [= <- _]| |].
        -- intros tr w5 S5 C. apply wp_ret, HQ; [by transitivity w4|done].
        -- intros e w5 S5. apply HE. by transitivity w4.
      * intros e w4 S4. apply HE. transitivity w2; [|transitivity w3]; done.
  - apply wp_bind, wp_compute_trust; [done|done| |done]. intros tr w1 S1 C.
    apply wp_bind, wp_stable; [unfold get_eval; keeps_tac| |].
    + intros c w2 S2. apply wp_ret, HQ; [by transitivity w1|done].
    + intros e w2 S2. apply HE. by transitivity w1.
Qed.

(** ** The body of the [try], once *)

(** The decision of a call that was not throttled, and of one that was. *)
Definition overridden (base : PolicyDecision) (tr : TrustResult) (p : Posture) (t : Z) : PolicyDecision :=
  ensure_block_attribution (apply_posture (apply_trust_overrides base tr t) p).
Definition throttled (event : ToolCallEvent) (start : Z) (p : Posture) (t : Z) : PolicyDecision :=
  apply_posture (rate_limit_decision event start (po_rate_limit p) t) p.

Lemma wp_overrides event base start tr p w (Q : PolicyDecision -> World -> Prop) E :
  (forall t w', stable w w' -> Q (overridden base tr p t) w') ->
  (forall t w', stable w w' -> Q (throttled event start p t) w') ->
  (forall e w', stable w w' -> E e w') ->
  wp (fresh_overrides event base start tr p) Q E w.
Proof.
  intros HO HT HE.
  assert (Ov : forall w1, stable w w1 -> wp (t ← now; mret (overridden base tr p t)) Q E w1).
  { intros w1 S1. apply wp_bind, wp_now. intros t ts w2 _ E2. apply wp_ret, HO.
    etransitivity; [exact S1|]. subst. by apply stable_same. }
  unfold fresh_overrides, maybe_rate_limit. apply wp_bind. destruct (_ && _); [|by apply wp_ret, Ov].
  apply wp_bind, wp_stable; [|intros limited w1 S1|exact HE].
  { unfold is_rate_limited, incr_call_count. keeps_tac. }
  destruct limited; [|by apply wp_ret, Ov]. apply wp_bind, wp_now. intros t ts w2 _ E2. apply wp_ret, wp_ret, HT.
  etransitivity; [exact S1|]. subst. by apply stable_same.
Qed.

(** What [finish] queues, in order, for the decision it returns. *)
Definition downstream (event : ToolCallEvent) (tr : TrustResult) (d : PolicyDecision) : list Task :=
  [TSetTrust (spiffe event) tr; TRegisterAgent event tr d; TRecordGraph event d; TRecordHistory event d;
   TUpdateProfile event d; TAudit d].

Lemma wp_finish event d tr start w (Q : PolicyDecision -> World -> Prop) E :
  (forall ms w', let d' := with_latency (apply_pep_denial d (pep_decision event) (pep_rule_id event)
                                             (pep_reason event)) ms in
     stable w w' -> tasks w' = tasks w ++ downstream event tr d' -> Q d' w') ->
  wp (finish event d tr start) Q E w.
Proof.
  intros HQ. unfold finish. cbv zeta. apply wp_bind, wp_now. intros t ts w1 _ E1.
  unfold persist_behavior, queue. apply wp_bind.
  do 5 (apply wp_bind, wp_upd; intros ? ?). apply wp_upd; intros ? ?. apply wp_ret.
  apply HQ; subst; [by apply stable_same|]. unfold downstream. world_cbn. by rewrite <- !app_assoc.
Qed.

Lemma wp_body event start w (Q : PolicyDecision -> World -> Prop) (E : exc -> World -> Prop) :
  let ns := namespace (agent_identity event) in
  (forall base tr p d w', stable w w' -> (not_monitor ns w -> monitor p = false) ->
     (frozen (spiffe event) w -> tr_category tr = "frozen") ->
     ((exists t, d = overridden base tr p t) \/ (exists t, d = throttled event start p t)) ->
     wp (finish event d tr start) Q E w') ->
  (forall e w', stable w w' -> E e w') -> wp (evaluate_try event start) Q E w.
Proof.
  intros ns HQ HE. unfold evaluate_try, validate_spiffe. apply wp_bind.
  destruct (is_controllable_spiffe_id _); [apply wp_ret|by apply wp_raise, HE].
  apply wp_bind, wp_resolve_posture. intros p w1 S1 M1.
  apply wp_bind, wp_stable; [apply (keeps_stored_trust stable)| |intros; apply HE; by transitivity w1]. intros _ w2 S2.
  assert (S : stable w w2) by (by transitivity w1). cbv zeta.
  assert (Tail : forall base tr w3, stable w w3 -> (frozen (spiffe event) w -> tr_category tr = "frozen") ->
    wp (d ← fresh_overrides event base start tr p; finish event d tr start) Q E w3).
  { intros base tr w3 S3 C. apply wp_bind, wp_overrides.
    - intros t w4 S4. apply (HQ base tr p); [by transitivity w3|done|done|eauto].
    - intros t w4 S4. apply (HQ base tr p); [by transitivity w3|done|done|eauto].
    - intros e w4 S4. apply HE. by transitivity w3. }
  assert (Rest : forall c tr w3, stable w w3 -> (frozen (spiffe event) w -> tr_category tr = "frozen") ->
    wp (match c with
        | Some c => d ← handle_cache_hit event c start tr p; finish event d tr start
        | None => r ← decide_fresh event tr start; let '(base, cs) := r in
                  store_eval event (cache_tool_key event) base cs;;
                  d ← fresh_overrides event base start tr p; finish event d tr start
        end) Q E w3).
  { intros [c|] tr w3 S3 C; [by apply Tail|].
    apply wp_bind, wp_stable; [apply (keeps_decide_fresh stable)| |intros; apply HE; by transitivity w3].
    intros [base cs] w4 S4. assert (stable w w4) by (by transitivity w3).
    apply wp_bind, wp_stable; [apply keeps_store_eval| |intros; apply HE; by transitivity w4].
    intros [] w5 S5. apply Tail; [by transitivity w4|done]. }
  apply wp_bind. destruct (decide (frozen (spiffe event) w)) as [F|F].
  - apply wp_read_caches; [exact (stable_frozen _ _ _ S F)| |intros; apply HE; by transitivity w2].
    intros c tr w3 S3 C. apply Rest; [by transitivity w2|done].
  - apply wp_stable; [apply keeps_read_caches| |intros; apply HE; by transitivity w2].
    intros [c tr] w3 S3. apply Rest; [by transitivity w2|done].
Qed.

Lemma wp_on_failure event start e w (Q : PolicyDecision -> World -> Prop) (E : exc -> World -> Prop) :
  (forall t p w', stable w w' -> (not_monitor (namespace (agent_identity event)) w -> monitor p = false) ->
     Q (apply_posture (failure_decision e event start t) p) w') ->
  wp (on_failure event start e) Q E w.
Proof.
  intros HQ. unfold on_failure. apply wp_bind, wp_now. intros t ts w1 _ E1.
  assert (S1 : stable w w1) by (subst; by apply stable_same).
  apply wp_bind. unfold soften_failure. apply wp_try, wp_bind, wp_resolve_posture. intros p w2 S2 M2. apply wp_ret.
  apply wp_bind. unfold register_fail_closed.
  assert (M : not_monitor (namespace (agent_identity event)) w -> monitor p = false).
  { intros N. apply M2. by apply (st_posture _ _ S1). }
  destruct (negb _).
  - apply wp_ret, wp_ret, HQ; [by transitivity w1|done].
  - unfold queue. apply wp_upd. intros w3 E3. apply wp_ret, HQ; [|done].
    transitivity w1; [done|]. transitivity w2; [done|]. subst. by apply stable_same.
Qed.

(** The two ways [evaluate] ends: its body returned, or a handler ran after an exception. *)
Lemma wp_evaluate event w (Q : PolicyDecision -> World -> Prop) (E : exc -> World -> Prop) :
  (forall base tr p d start w', stable w w' ->
     (not_monitor (namespace (agent_identity event)) w -> monitor p = false) ->
     (frozen (spiffe event) w -> tr_category tr = "frozen") ->
     ((exists t, d = overridden base tr p t) \/ (exists t, d = throttled event start p t)) ->
     wp (finish event d tr start) Q (fun _ _ => False) w') ->
  (forall e start t p w', stable w w' ->
     (not_monitor (namespace (agent_identity event)) w -> monitor p = false) ->
     Q (apply_posture (failure_decision e event start t) p) w') ->
  wp (evaluate event) Q E w.
Proof.
  intros HB HF. unfold evaluate. apply wp_bind, wp_now. intros start ts w1 _ E1.
  assert (S1 : stable w w1) by (subst; by apply stable_same).
  assert (N1 : not_monitor (namespace (agent_identity event)) w -> not_monitor (namespace (agent_identity event)) w1).
  { apply S1. }
  apply wp_try, wp_body.
  - intros base tr p d w2 S2 M2 F2 D. eapply wp_mono; [apply (HB base tr p d start w2)|auto|by intros].
    + by transitivity w1.
    + auto.
    + intros F. apply F2. by apply (stable_frozen _ w).
    + done.
  - intros e w2 S2. apply wp_on_failure. intros t p w3 S3 M3. apply HF.
    + transitivity w1; [done|]. by transitivity w2.
    + intros N. apply M3. apply (st_posture _ _ S2), N1, N.
Qed.

(** ** The overrides *)

Lemma apply_posture_off d p : monitor p = false -> apply_posture d p = d.
Proof. unfold apply_posture. by intros ->. Qed.

Lemma apply_posture_exempt d p : is_exempt cfg (rule_id d) = true -> apply_posture d p = d.
Proof.
  unfold apply_posture. intros ->. destruct (negb (monitor p)); [done|]. by destruct (negb _).
Qed.

Lemma exempt_base rule : rule ∈ base_posture_exempt_rules -> is_exempt cfg rule = true.
Proof.
  intros R. apply bool_decide_eq_true. unfold posture_exempt_rules. destruct (monitor_exempt_rate_limit cfg); [|done].
  apply elem_of_app. by left.
Qed.

Lemma attribution_decision d : decision (ensure_block_attribution d) = decision d.
Proof. unfold ensure_block_attribution. by destruct (_ && _). Qed.

(** A frozen agent's decision is the freeze block, in every mode. *)
Lemma overridden_frozen base tr p t : tr_category tr = "frozen" -> decision (overridden base tr p t) = Block.
Proof.
  intros C. unfold overridden. rewrite attribution_decision.
  assert (D : apply_trust_overrides base tr t = with_outcome (with_trust base tr t) Block "trust_frozen"
                "Agent trust frozen — all tool calls blocked").
  { unfold apply_trust_overrides. by rewrite bool_decide_true. }
  rewrite apply_posture_exempt; rewrite D; [done|]. apply exempt_base. by left.
Qed.

Lemma pep_block d event : decision d = Block ->
  decision (apply_pep_denial d (pep_decision event) (pep_rule_id event) (pep_reason event)) = Block.
Proof. intros D. unfold apply_pep_denial. destruct (negb _); [done|]. by rewrite bool_decide_true. Qed.

Lemma failure_block e event start t : decision (failure_decision e event start t) = Block.
Proof. by destruct e. Qed.

Lemma throttled_enforced event start p t : monitor p = false -> decision (throttled event start p t) = Block.
Proof. intros M. unfold throttled. by rewrite apply_posture_off. Qed.

Lemma frozen_verdict event base tr p d start :
  tr_category tr = "frozen" -> (monitor p = false \/ monitor_exempt_rate_limit cfg = true) ->
  ((exists t, d = overridden base tr p t) \/ (exists t, d = throttled event start p t)) -> decision d = Block.
Proof.
  intros C M [[t ->]|[t ->]]; [by apply overridden_frozen|].
  destruct M as [M|M]; [by apply throttled_enforced|]. unfold throttled. rewrite apply_posture_exempt; [done|].
  apply bool_decide_eq_true. unfold posture_exempt_rules. rewrite M. by do 2 right; left.
Qed.

(** No call of a frozen agent passes an enforcing namespace. *)
Lemma wp_evaluate_frozen event w E :
  frozen (spiffe event) w -> not_monitor (namespace (agent_identity event)) w ->
  wp (evaluate event) (fun d _ => decision d = Block) E w.
Proof.
  intros F N. apply wp_evaluate.
  - intros base tr p d start w' _ M C D. apply wp_finish. simpl. intros ms w2 _ _. apply pep_block.
    apply (frozen_verdict event base tr p d start); auto.
  - intros e start t p w' _ M. rewrite apply_posture_off by auto. apply failure_block.
Qed.

(** Evaluation never raises. *)
Lemma wp_evaluate_returns event w : wp (evaluate event) (fun _ _ => True) (fun _ _ => False) w.
Proof. apply wp_evaluate; [|done]. intros. by apply wp_finish. Qed.

End Body.
