(* ===== verification/Enforcement.v ===== *)
(** * What one call is promised

    The theorems about [OPAEvaluator.evaluate], for every outcome of the calls to Redis, PostgreSQL and
    OPA and for every clock: it always answers, it fails closed, a frozen agent is refused, a refusal
    of the enforcement point is kept, a block names its rule, and what is recorded is what is returned. *)

From S2P Require Import Prelude Text Config Decisions Resolve InprocCache Effects Trust World Loader Collect Identity.
From S2P Require Import Evaluator EvaluatorProps.

Section Enforcement.
Context `{Externals}.

Implicit Types (event : ToolCallEvent) (w : World).

(** The rule an exception is reported under. *)
Definition failure_rule (e : exc) : string :=
  match e with
  | ETimeout => "evaluator_timeout"
  | EInvalidSpiffe => "invalid_spiffe_identity"
  | _ => "evaluator_fallback"
  end.

(** C14: the evaluator always answers.  Whatever raises on the way, in the store reads, in OPA, in the
    handlers themselves, [evaluate] returns a decision and no exception escapes. *)
Theorem evaluate_total event w : exists w' d, evaluate event w = (w', inr d).
Proof.
  pose proof (wp_evaluate_returns event w) as T. unfold wp in T. destruct (evaluate event w) as [w' [e|d]]; [done|]. eauto.
Qed.

(** C2: fail closed.  When the body of [evaluate] raises, the caller gets a block that names the kind of
    failure, unless the namespace is in monitor mode; an identity that fails validation is blocked in
    monitor mode too. *)
Theorem failures_block event w start w1 w2 e :
  now w = (w1, inr start) ->
  evaluate_try event start w1 = (w2, inl e) ->
  not_monitor (namespace (agent_identity event)) w \/ e = EInvalidSpiffe ->
  exists w' d, evaluate event w = (w', inr d) /\ decision d = Block /\ rule_id d = failure_rule e.
Proof.
  intros N B M.
  assert (K : wp (evaluate_try event start) (fun _ => stable w1) (fun _ => stable w1) w1).
  { apply wp_body; [|by intros]. intros base tr p d w3 S3 _ _ _. apply wp_finish. simpl.
    intros ms w4 S4 _. by transitivity w3. }
  unfold wp in K. rewrite B in K.
  assert (S1 : stable w w1).
  { pose proof (keeps_now stable w) as Kn. by rewrite N in Kn. }
  assert (T : wp (on_failure event start e)
                (fun d _ => decision d = Block /\ rule_id d = failure_rule e) (fun _ _ => False) w2).
  { apply wp_on_failure. intros t p w' _ Mp.
    assert (P : apply_posture (failure_decision e event start t) p = failure_decision e event start t).
    { destruct M as [M| ->].
      - apply apply_posture_off, Mp. apply (st_posture _ _ K), (st_posture _ _ S1), M.
      - apply apply_posture_exempt, exempt_base. by right; left. }
    rewrite P. split; [apply failure_block|]. by destruct e. }
  unfold wp in T. unfold evaluate, mbind, M_bind, try_with. rewrite N, B.
  destruct (on_failure event start e w2) as [w' [e'|d]]; [done|]. eauto.
Qed.

(** C1: the freeze kill switch.  A call of an agent whose freeze flag is set is answered with a block,
    whatever is cached, whatever its policies say and whatever fails, when its namespace enforces. *)
Theorem freeze_blocks event w :
  frozen (spiffe event) w -> not_monitor (namespace (agent_identity event)) w ->
  exists w' d, evaluate event w = (w', inr d) /\ decision d = Block.
Proof.
  intros F N. pose proof (wp_evaluate_frozen event w (fun _ _ => False) F N) as T.
  unfold wp in T. destruct (evaluate event w) as [w' [e|d]]; [done|]. eauto.
Qed.

(** monitor mode does not disarm the freeze.  Unless the body raises, a frozen agent is blocked in a
    monitor-mode namespace as well, while the rate limit is among the exempt rules (the default). *)
Theorem freeze_beats_monitor event start w w' d :
  frozen (spiffe event) w -> monitor_exempt_rate_limit cfg = true ->
  evaluate_try event start w = (w', inr d) -> decision d = Block.
Proof.
  intros F R B.
  assert (T : wp (evaluate_try event start) (fun d _ => decision d = Block) (fun _ _ => True) w).
  { apply wp_body; [|done]. intros base tr p d0 w1 _ M C D. apply wp_finish. simpl. intros ms w2 _ _.
    apply pep_block. apply (frozen_verdict event base tr p d0 start); auto. }
  unfold wp in T. by rewrite B in T.
Qed.

(** a refusal of the enforcement point stands.  When the body returns, a call the enforcement point
    already refused is recorded as a block, in monitor mode too; when the namespace enforces, so is
    every answer, failures included. *)
Theorem pep_refusal_stands event w :
  pep_decision event = "block" ->
  (forall start w1 w' d, evaluate_try event start w1 = (w', inr d) -> decision d = Block) /\
  (not_monitor (namespace (agent_identity event)) w ->
   exists w' d, evaluate event w = (w', inr d) /\ decision d = Block).
Proof.
  intros P.
  assert (B : forall d tr start w1, wp (finish event d tr start) (fun d _ => decision d = Block)
                                      (fun _ _ => False) w1).
  { intros. apply wp_finish. simpl. intros ms w2 _ _. rewrite P. apply apply_pep_denial_block. }
  split.
  - intros start w1 w' d R.
    assert (T : wp (evaluate_try event start) (fun d _ => decision d = Block) (fun _ _ => True) w1).
    { apply wp_body; [|done]. intros. eapply wp_mono; [apply B|done|done]. }
    unfold wp in T. by rewrite R in T.
  - intros N.
    assert (T : wp (evaluate event) (fun d _ => decision d = Block) (fun _ _ => False) w).
    { apply wp_evaluate; [intros; apply B|].
      intros e start t p w' _ M. rewrite apply_posture_off by auto. apply failure_block. }
    unfold wp in T. destruct (evaluate event w) as [w' [e|d]]; [done|]. eauto.
Qed.

(** A block that names a rule of its own. *)
Definition attributed (event : ToolCallEvent) (d : PolicyDecision) : Prop :=
  decision d = Block -> rule_id d <> "" /\ (rule_id d = "default_allow" -> pep_rule_id event = "default_allow").

Lemma attributed_ensure event d : attributed event (ensure_block_attribution d).
Proof.
  unfold attributed, ensure_block_attribution. intros D.
  destruct (bool_decide (decision d = Block)) eqn:B; simpl in *.
  - destruct (bool_decide (rule_id d = "")) eqn:R1; simpl in *; [done|].
    destruct (bool_decide (rule_id d = "default_allow")) eqn:R2; simpl in *; [done|]. by bool_prop.
  - by bool_prop.
Qed.

Lemma attributed_posture event d p : attributed event d -> attributed event (apply_posture d p).
Proof.
  unfold attributed, apply_posture. intros A. destruct (negb (monitor p)); [done|].
  destruct (negb _); [done|]. by destruct (is_exempt _ _).
Qed.

Lemma attributed_pep event d ms :
  attributed event d ->
  attributed event (with_latency (apply_pep_denial d (pep_decision event) (pep_rule_id event) (pep_reason event)) ms).
Proof.
  unfold attributed, apply_pep_denial. intros A. simpl. destruct (negb _); [done|].
  destruct (bool_decide _); [done|]. intros _. cbn. unfold or_else, nonempty.
  destruct (pep_rule_id event) as [|c r]; simpl; split; try done.
Qed.

(** every block says why.  A blocking answer carries a rule id, and never the id of the default
    allow, unless the enforcement point itself reported that id. *)
Theorem block_attributed event w :
  exists w' d, evaluate event w = (w', inr d) /\
    (decision d = Block ->
     rule_id d <> "" /\ (rule_id d = "default_allow" -> pep_rule_id event = "default_allow")).
Proof.
  assert (T : wp (evaluate event) (fun d _ => attributed event d) (fun _ _ => False) w).
  { apply wp_evaluate.
    - intros base tr p d start w' _ _ _ D. apply wp_finish. simpl. intros ms w2 _ _. apply attributed_pep.
      destruct D as [[t ->]|[t ->]]; [apply attributed_ensure|]. by apply attributed_posture.
    - intros e start t p w' _ _. apply attributed_posture. by destruct e. }
  unfold wp in T. destruct (evaluate event w) as [w' [e|d]]; [done|]. exists w', d. by split.
Qed.

(** what is recorded is what is answered.  When the body returns, the trust write, the agent
    registry, the attack graph, the trust history, the profile and the audit trail are queued, in this
    order, with the very decision the caller gets, latency and enforcement-point fold included. *)
Theorem recorded_is_returned event start w w' d :
  evaluate_try event start w = (w', inr d) ->
  exists l tr, tasks w' = l ++ downstream event tr d.
Proof.
  intros B.
  assert (T : wp (evaluate_try event start)
                (fun d w' => exists l tr, tasks w' = l ++ downstream event tr d) (fun _ _ => True) w).
  { apply wp_body; [|done]. intros base tr p d0 w1 _ _ _ _. apply wp_finish. simpl. eauto. }
  unfold wp in T. by rewrite B in T.
Qed.

(** monitor mode interrupts nothing.  Under a monitor posture the overrides of a call, on a cache hit
    as on a fresh decision, leave a verdict that lets the call through, or one of the exempt rules. *)
Theorem monitor_interrupts_nothing event base start tr p w w' d :
  monitor p = true ->
  fresh_overrides event base start tr p w = (w', inr d) \/
  handle_cache_hit event base start tr p w = (w', inr d) ->
  is_allowed d = true \/ rule_id d ∈ posture_exempt_rules cfg.
Proof.
  intros M B. assert (B' : fresh_overrides event base start tr p w = (w', inr d)) by (by destruct B).
  assert (P : forall d0, let d1 := apply_posture d0 p in
    is_allowed d1 = true \/ rule_id d1 ∈ posture_exempt_rules cfg).
  { intros d0. unfold apply_posture. rewrite M. simpl.
    destruct (decision d0) eqn:D; simpl; try (left; unfold is_allowed; by rewrite D).
    all: destruct (is_exempt cfg (rule_id d0)) eqn:X; [right; by apply bool_decide_eq_true in X|by left]. }
  assert (T : wp (fresh_overrides event base start tr p)
                (fun d _ => is_allowed d = true \/ rule_id d ∈ posture_exempt_rules cfg) (fun _ _ => True) w).
  { apply wp_overrides; [|intros; apply P|done]. intros t w1 _. unfold overridden.
    destruct (P (apply_trust_overrides base tr t)) as [A|A].
    - left. unfold is_allowed. by rewrite attribution_decision.
    - right. unfold ensure_block_attribution. destruct (_ && _) eqn:X; [|done]. exfalso.
      apply andb_true_iff in X as [_ [X|X]%orb_true_iff]; apply bool_decide_eq_true in X; rewrite X in A;
        unfold posture_exempt_rules in A; destruct (monitor_exempt_rate_limit cfg);
        apply (bool_decide_pack _) in A; vm_compute in A; exact A. }
  unfold wp in T. by rewrite B' in T.
Qed.

End Enforcement.

(** ** A concrete call, for the witnesses *)

Definition sample_agent : AgentIdentity :=
  mkIdentity (points "spiffe://norviq/ns/prod/sa/bot") "prod" "bot" "support" "" "" "" "".
Definition sample_event (pd : string) : ToolCallEvent :=
  mkEvent "e1" "read_file" [] sample_agent "s1" 0 "" 0 None [] pd "" "".

(** The agent is frozen, and its namespace has the given mode. *)
Definition sample_world (mode : option string) (fs : list (option exc)) : World :=
  set_faults fs (set_redis (set_rd_ns {["prod" := mkNs mode None None]}
    (set_rd_frozen {[spiffe_id sample_agent]} empty_redis)) empty_world).

(** The store reads of a call succeed; its first policy load fails. *)
Definition sample_faults : list (option exc) := repeat None 7 ++ [Some EOther].

Lemma sample_frozen mode fs : frozen (spiffe_id sample_agent) (sample_world mode fs).
Proof. unfold frozen. simpl. by apply elem_of_singleton. Qed.

Lemma sample_not_monitor fs : not_monitor "prod" (sample_world None fs).
Proof.
  split.
  - intros r E. assert (X : rd_ns (redis (sample_world None fs)) !! "prod" = Some (mkNs None None None)) by done.
    rewrite X in E. by injection E as <-.
  - intros x p Hx. by apply elem_of_nil in Hx.
Qed.

Lemma failures_block_witness :
  exists w' d, evaluate (H := demo) (sample_event "") (sample_world None sample_faults) = (w', inr d) /\
    decision d = Block /\ rule_id d = "evaluator_fallback".
Proof.
  destruct (evaluate_try (H := demo) (sample_event "") 0 (sample_world None sample_faults)) as [w2 [e|d]] eqn:B.
  - assert (e = EOther) as -> by (vm_compute in B; congruence).
    apply (failures_block (H := demo) (sample_event "") (sample_world None sample_faults) 0
             (sample_world None sample_faults) w2 EOther);
      [reflexivity|exact B|left; apply sample_not_monitor].
  - exfalso. vm_compute in B. congruence.
Defined.

Lemma freeze_blocks_witness :
  exists w' d, evaluate (H := demo) (sample_event "") (sample_world None []) = (w', inr d) /\ decision d = Block.
Proof. apply (freeze_blocks (H := demo)); [apply sample_frozen|apply sample_not_monitor]. Defined.

Lemma freeze_beats_monitor_witness :
  exists w' d, evaluate_try (H := demo) (sample_event "") 0 (sample_world (Some "audit") []) = (w', inr d) /\
    decision d = Block.
Proof.
  destruct (evaluate_try (H := demo) (sample_event "") 0 (sample_world (Some "audit") [])) as [w2 [e|d]] eqn:B.
  - exfalso. vm_compute in B. congruence.
  - exists w2, d. split; [reflexivity|].
    apply (freeze_beats_monitor (H := demo) (sample_event "") 0 (sample_world (Some "audit") []) w2 d);
      [apply sample_frozen|reflexivity|exact B].
Defined.

Lemma pep_refusal_stands_witness :
  (forall start w1 w' d, evaluate_try (H := demo) (sample_event "block") start w1 = (w', inr d) -> decision d = Block) /\
  (not_monitor "prod" (sample_world None sample_faults) ->
   exists w' d, evaluate (H := demo) (sample_event "block") (sample_world None sample_faults) = (w', inr d) /\
     decision d = Block).
Proof. apply (pep_refusal_stands (H := demo)). reflexivity. Defined.

Lemma recorded_is_returned_witness :
  exists w' d l tr, evaluate_try (H := demo) (sample_event "") 0 (sample_world None []) = (w', inr d) /\
    tasks w' = l ++ downstream (sample_event "") tr d.
Proof.
  destruct (evaluate_try (H := demo) (sample_event "") 0 (sample_world None [])) as [w2 [e|d]] eqn:B.
  - exfalso. vm_compute in B. congruence.
  - destruct (recorded_is_returned (H := demo) (sample_event "") 0 (sample_world None []) w2 d B) as (l & tr & T).
    exists w2, d, l, tr. split; [reflexivity|exact T].
Defined.

Lemma monitor_interrupts_nothing_witness :
  exists w' d,
    fresh_overrides (H := demo) (sample_event "") (new_decision Block "deny_shell" "" 0 "e1" 0) 0
      (mkTrustResult 1 "high" [] [] "" "") (mkPosture true None 5) empty_world = (w', inr d) /\
    (is_allowed d = true \/ rule_id d ∈ posture_exempt_rules (cfg (Externals := demo))).
Proof.
  destruct (fresh_overrides (H := demo) (sample_event "") (new_decision Block "deny_shell" "" 0 "e1" 0) 0
      (mkTrustResult 1 "high" [] [] "" "") (mkPosture true None 5) empty_world) as [w2 [e|d]] eqn:B.
  - exfalso. vm_compute in B. congruence.
  - exists w2, d. split; [reflexivity|].
    apply (monitor_interrupts_nothing (H := demo) (sample_event "") (new_decision Block "deny_shell" "" 0 "e1" 0) 0
      (mkTrustResult 1 "high" [] [] "" "") (mkPosture true None 5) empty_world w2 d);
      [reflexivity|left; exact B].
Defined.

(** the freeze does not survive an engine fault in monitor mode.  The agent is frozen and its flag was
    read; a fault in a later policy load sends the call to the handlers, which soften the fallback block
    to an audit: the call goes through. *)
Theorem frozen_agent_passes_on_fault :
  let w := sample_world (Some "audit") sample_faults in
  frozen (spiffe (sample_event "")) w /\
  exists w' d, evaluate (H := demo) (sample_event "") w = (w', inr d) /\ decision d = Audit /\ is_allowed d = true.
Proof.
  split; [apply sample_frozen|].
  destruct (evaluate (H := demo) (sample_event "") (sample_world (Some "audit") sample_faults)) as [w2 [e|d]] eqn:B.
  - exfalso. vm_compute in B. congruence.
  - exists w2, d. split; [done|]. assert (D : decision d = Audit) by (vm_compute in B; by injection B as _ <-).
    split; [done|]. unfold is_allowed. by rewrite D.
Qed.
