(* ===== verification/OpaModules.v ===== *)
(** * OPA's module store: the digest guard, the re-push and the dry-run bound

    [_ensure_module_pushed], [_evaluate_opa_server] and [_track_dryrun_module]: a policy is evaluated
    from OPA's store, which the evaluator mirrors through digests instead of reading it back. *)

From S2P Require Import Prelude Text ModuleText Config Decisions Resolve InprocCache Effects Trust World Loader Collect Identity.
From S2P Require Import Evaluator.

Section OpaModules.
Context `{Externals}.

(** What the digest of [key] promises: OPA holds the text it was computed from, or nothing (a sidecar
    restart empties the store). *)
Definition coherent (key : string) (w : World) : Prop :=
  forall h, pushed (ev w) !! key = Some h ->
    opa w !! module_id key = None \/
    exists rego, sha256 rego = h /\ opa w !! module_id key = Some (compile_source sha1_8 (points key) rego).

(** OPA's answer to a module, a null result being none. *)
Definition answer (src : text) (doc : OpaInput) : option json :=
  match opa_run src doc with Some JNull => None | r => r end.

(** OPA holds the text [rego] for [key], or nothing. *)
Definition holds_or_lost (key : string) (rego : text) (w : World) : Prop :=
  opa w !! module_id key = None \/ opa w !! module_id key = Some (compile_source sha1_8 (points key) rego).

(** A successful push leaves the text in OPA. *)
Lemma wp_push key rego w (Q : unit -> World -> Prop) (E : exc -> World -> Prop) :
  (forall w', opa w' = <[module_id key := compile_source sha1_8 (points key) rego]> (opa w) -> ev w' = ev w -> Q tt w') ->
  (forall e w', E e w') -> wp (push_module key rego) Q E w.
Proof.
  intros HQ HE. unfold push_module. apply wp_bind, wp_io; [|intros; apply HE]. intros fs w1 ->.
  apply wp_bind, wp_upd. intros w2 ->. apply wp_io; [|intros; apply HE]. intros fs2 w3 ->. by apply HQ.
Qed.

(** The eviction only deletes modules from OPA, and always ends with at most the cap. *)
Lemma wp_evict keys w (Q : unit -> World -> Prop) (E : exc -> World -> Prop) :
  (forall keys' w', opa w' ⊆ opa w -> dryrun_keys (ev w') = keys' -> suffix keys' keys ->
     (length keys' <= MAX_DRYRUN_MODULES)%nat ->
     (keys <> [] -> last keys' = last keys) ->
     pushed (ev w') ⊆ pushed (ev w) -> Q tt w') ->
  wp (evict_dryrun keys) Q E w.
Proof.
  revert w Q E. induction keys as [|old keys IH]; intros w Q E HQ; cbn [evict_dryrun].
  - apply wp_upd. intros w1 ->. apply (HQ []); simpl; [done|done|done|lia|done|done].
  - destruct (MAX_DRYRUN_MODULES <? length (old :: keys))%nat eqn:L.
    + apply Nat.ltb_lt in L. apply wp_bind, wp_upd. intros w1 E1. apply wp_bind, wp_try.
      assert (Cont : forall w2, opa w2 ⊆ opa w -> ev w2 = ev w1 -> wp (evict_dryrun keys) Q E w2).
      { intros w2 O2 V2. apply IH. intros keys' w' O D S Len La P. apply (HQ keys'); [..|done| |].
        - by transitivity (opa w2).
        - done.
        - destruct S as [k ->]. exists (old :: k). done.
        - intros _. destruct keys as [|k2 ks]; [simpl in L; unfold MAX_DRYRUN_MODULES in L; lia|].
          rewrite La by done. done.
        - etransitivity; [exact P|]. rewrite V2, E1. simpl. apply delete_subseteq. }
      apply wp_bind, wp_io.
      * intros fs w2 E2. apply wp_upd. intros w3 E3. subst w3 w2. apply Cont; [|done].
        subst w1. simpl. apply delete_subseteq.
      * intros e fs w2 E2. apply wp_ret, Cont; subst; done.
    + apply Nat.ltb_ge in L. apply wp_upd. intros w1 ->. apply (HQ (old :: keys)); done.
Qed.

Lemma subset_lookup `{Countable K} {A} (m m' : gmap K A) k x : m' ⊆ m -> m !! k = x -> m' !! k = None \/ m' !! k = x.
Proof.
  intros S E. destruct (m' !! k) as [y|] eqn:L; [|by left]. right. rewrite <- E. symmetry. by apply (lookup_weaken m').
Qed.

(** Forgetting modules and digests never breaks coherence. *)
Lemma coherent_sub key w w' :
  pushed (ev w') ⊆ pushed (ev w) -> opa w' ⊆ opa w -> coherent key w -> coherent key w'.
Proof.
  intros P O C h Hh. destruct (C h) as [L|(r & R & L)]; [by apply (lookup_weaken (pushed (ev w')))| |].
  - left. destruct (subset_lookup _ _ _ _ O L); done.
  - destruct (subset_lookup _ _ _ _ O L) as [?|L']; [by left|right; eauto].
Qed.

Section Guarded.
Context (key : string) (rego : text).
Hypothesis (server : opa_mode cfg = "server").
(** SHA-256 digests identify their texts. *)
Hypothesis (sha_inj : forall a b, sha256 a = sha256 b -> a = b).

(** A recorded push: digest and text agree, and other keys keep their coherence. *)
Definition recorded (w w' : World) : Prop :=
  (coherent key w -> coherent key w' /\ holds_or_lost key rego w') /\
  (forall k, module_id k <> module_id key -> coherent k w -> coherent k w').

Lemma recorded_push w w1 w2 :
  opa w1 = <[module_id key := compile_source sha1_8 (points key) rego]> (opa w) -> ev w1 = ev w ->
  w2 = set_ev (set_pushed (<[key := sha256 rego]> (pushed (ev w1))) (ev w1)) w1 -> recorded w w2.
Proof.
  intros O V ->. split.
  - intros _. split.
    + intros h Hh. simpl in Hh. rewrite lookup_insert_eq in Hh. injection Hh as <-. right. exists rego.
      split; [done|]. simpl. by rewrite O, lookup_insert_eq.
    + right. simpl. by rewrite O, lookup_insert_eq.
  - intros k N C h Hh. assert (k <> key) by congruence. simpl in Hh. rewrite lookup_insert_ne in Hh by done.
    simpl. rewrite O, lookup_insert_ne by done. apply C. by rewrite <- V.
Qed.

Lemma recorded_sub w w1 w2 :
  recorded w w1 -> pushed (ev w2) ⊆ pushed (ev w1) -> opa w2 ⊆ opa w1 -> recorded w w2.
Proof.
  intros [R1 R2] P O. split.
  - intros C. destruct (R1 C) as [C1 L1]. split; [by apply (coherent_sub key w1)|].
    destruct L1 as [L1|L1]; [left; destruct (subset_lookup _ _ _ _ O L1); done|].
    apply (subset_lookup _ _ _ _ O L1).
  - intros k N C. apply (coherent_sub k w1); auto.
Qed.

Lemma wp_ensure w (Q : unit -> World -> Prop) (E : exc -> World -> Prop) :
  (forall w', recorded w w' -> Q tt w') -> (forall e w', E e w') -> wp (ensure_module_pushed key rego) Q E w.
Proof.
  intros HQ HE. unfold ensure_module_pushed. rewrite bool_decide_true by done. simpl. apply wp_bind, wp_get.
  case_bool_decide as D.
  - apply wp_ret, HQ. split; [|auto]. intros C. split; [done|]. destruct (C _ D) as [L|(r & R & L)]; [by left|].
    apply sha_inj in R as ->. by right.
  - apply wp_bind, wp_push; [|done]. intros w1 O1 V1. apply wp_bind, wp_upd. intros w2 E2.
    pose proof (recorded_push w w1 w2 O1 V1 E2) as R. destruct (starts_with _ _); [|by apply wp_ret, HQ].
    unfold track_dryrun_module. apply wp_bind, wp_get, wp_evict. intros ks w3 O3 _ _ _ _ P3.
    apply HQ. by apply (recorded_sub w w2).
Qed.

Lemma wp_query doc w (Q : option json -> World -> Prop) (E : exc -> World -> Prop) :
  (forall w', opa w' = opa w -> ev w' = ev w ->
     Q (match opa w !! module_id key with Some src => answer src doc | None => None end) w') ->
  (forall e w', E e w') -> wp (opa_query key doc) Q E w.
Proof.
  intros HQ HE. unfold opa_query. apply wp_bind, wp_io; [|intros; apply HE]. intros fs w1 ->.
  apply wp_bind, wp_get, wp_ret. by apply HQ.
Qed.

Lemma recorded_same w w1 w2 : recorded w w1 -> opa w2 = opa w1 -> ev w2 = ev w1 -> recorded w w2.
Proof. intros R O V. apply (recorded_sub w w1); [done|by rewrite V|by rewrite O]. Qed.

Lemma recorded_again w w1 w2 : recorded w w1 -> recorded w1 w2 -> recorded w w2.
Proof. intros [A1 A2] [B1 B2]. split; [intros C; by apply B1, A1|auto]. Qed.

Lemma wp_evaluate_server doc w : wp (evaluate_opa_server key rego doc)
  (fun raw w' => (coherent key w -> raw = decode_answer "No policy decision produced" (answer (compile_source sha1_8 (points key) rego) doc)) /\ recorded w w')
  (fun _ _ => True) w.
Proof.
  unfold evaluate_opa_server. apply wp_bind, wp_ensure; [|done]. intros w1 R1.
  apply wp_bind, wp_query; [|done]. intros w2 O2 V2.
  assert (R2 : recorded w w2) by (by apply (recorded_same w w1)). apply wp_bind.
  destruct (match opa w1 !! module_id key with Some src => answer src doc | None => None end) as [j|] eqn:A.
  - apply wp_ret, wp_ret. split; [|done]. intros C. destruct R1 as [R1 _]. destruct (R1 C) as [_ [L|L]]; rewrite L in A; [done|].
    by rewrite A.
  - apply wp_bind, wp_push; [|done]. intros w3 O3 V3. apply wp_bind, wp_upd. intros w4 E4.
    apply wp_query; [|done]. intros w5 O5 V5. apply wp_ret.
    assert (O4 : opa w4 !! module_id key = Some (compile_source sha1_8 (points key) rego)).
    { rewrite E4. simpl. by rewrite O3, lookup_insert_eq. }
    rewrite O4. split; [done|]. apply (recorded_again w w2); [done|]. apply (recorded_same w2 w4); [|done|done].
    by apply (recorded_push w2 w3 w4).
Qed.

(** The state in which a push or an evaluation raises: at most one more push was applied than was recorded. *)
Definition interrupted (w w' : World) : Prop :=
  exists w1, (w1 = w \/ recorded w w1) /\ pushed (ev w') = pushed (ev w1) /\
    (opa w' = opa w1 \/ opa w' = <[module_id key := compile_source sha1_8 (points key) rego]> (opa w1)).

Lemma push_interrupted w (Q : unit -> World -> Prop) (E : exc -> World -> Prop) :
  (forall w', opa w' = <[module_id key := compile_source sha1_8 (points key) rego]> (opa w) -> ev w' = ev w -> Q tt w') ->
  (forall e w', pushed (ev w') = pushed (ev w) ->
    opa w' = opa w \/ opa w' = <[module_id key := compile_source sha1_8 (points key) rego]> (opa w) -> E e w') ->
  wp (push_module key rego) Q E w.
Proof.
  intros HQ HE. unfold push_module. apply wp_bind, wp_io; [|intros e fs w1 ->; apply HE; auto]. intros fs w1 ->.
  apply wp_bind, wp_upd. intros w2 ->. apply wp_io; [|intros e fs2 w3 ->; apply HE; auto]. intros fs2 w3 ->. by apply HQ.
Qed.

Lemma ensure_interrupted w : wp (ensure_module_pushed key rego) (fun _ w' => recorded w w') (fun _ w' => interrupted w w') w.
Proof.
  unfold ensure_module_pushed. rewrite bool_decide_true by done. simpl. apply wp_bind, wp_get.
  case_bool_decide as D.
  - apply wp_ret. split; [|auto]. intros C. split; [done|]. destruct (C _ D) as [L|(r & R & L)]; [by left|]. apply sha_inj in R as ->. by right.
  - apply wp_bind. apply push_interrupted; [|intros e w1 V O; exists w; auto].
    intros w1 O1 V1. apply wp_bind, wp_upd. intros w2 E2.
    pose proof (recorded_push w w1 w2 O1 V1 E2) as R. destruct (starts_with _ _); [|by apply wp_ret].
    unfold track_dryrun_module. apply wp_bind, wp_get, wp_evict. intros ks w3 O3 _ _ _ _ P3. by apply (recorded_sub w w2).
Qed.

Lemma evaluate_interrupted doc w : wp (evaluate_opa_server key rego doc) (fun _ _ => True) (fun _ w' => interrupted w w') w.
Proof.
  unfold evaluate_opa_server. apply wp_bind. eapply wp_mono; [apply ensure_interrupted| |intros e w1 I; exact I]. intros [] w1 R1. cbn beta in R1.
  assert (Qi : forall (k : option json -> W RawDecision) w2, recorded w w2 ->
    (forall r w3, recorded w w3 -> wp (k r) (fun _ _ => True) (fun _ w' => interrupted w w') w3) -> wp (mbind k (opa_query key doc)) (fun _ _ => True) (fun _ w' => interrupted w w') w2).
  { intros k w2 R2 Hk. apply wp_bind. unfold opa_query. apply wp_bind, wp_io; [|intros e fs w3 ->; exists w2; split_and!; auto].
    intros fs w3 ->. apply wp_bind, wp_get, wp_ret, Hk. by apply (recorded_same w w2). }
  apply Qi; [done|]. intros r w2 R2. apply wp_bind. destruct r as [j|]; [by apply wp_ret, wp_ret|].
  apply wp_bind. apply push_interrupted; [|intros e w3 V O; exists w2; auto].
  intros w3 O3 V3. apply wp_bind, wp_upd. intros w4 E4.
  assert (R4 : recorded w w4) by (apply (recorded_again w w2); [done|]; by apply (recorded_push w2 w3 w4)).
  unfold opa_query. apply wp_bind, wp_io; [|intros e fs w5 ->; exists w4; split_and!; auto]. intros fs w5 ->. apply wp_bind, wp_get, wp_ret. by apply wp_ret.
Qed.

End Guarded.

(** *** From the start of a process *)

Section History.
Context (keys : list string).
Hypothesis (server : opa_mode cfg = "server").
Hypothesis (sha_inj : forall a b, sha256 a = sha256 b -> a = b).
(** The policies of the history have modules of their own. *)
Hypothesis (own_module : forall k k', k ∈ keys -> k' ∈ keys -> module_id k = module_id k' -> k = k').

(** A push that OPA has applied and whose answer was lost leaves a text in OPA that no digest records; an evaluation or a push that
    raises without that has recorded its text, or has changed nothing. *)
Definition no_push_lost (key : string) (rego : text) (w w' : World) : Prop :=
  pushed (ev w') !! key = Some (sha256 rego) \/ (opa w' = opa w /\ pushed (ev w') = pushed (ev w)).

(** What a process does to its mirror and to OPA: evaluations and warm pushes of any texts, which return or raise; modules and digests are lost,
    as when OPA restarts; anything else. *)
Inductive serves (w w' : World) : Prop :=
  | serves_answered key rego doc raw : key ∈ keys -> evaluate_opa_server key rego doc w = (w', inr raw) -> serves w w'
  | serves_raised key rego doc e : key ∈ keys -> evaluate_opa_server key rego doc w = (w', inl e) -> no_push_lost key rego w w' -> serves w w'
  | serves_warmed key rego : key ∈ keys -> ensure_module_pushed key rego w = (w', inr tt) -> serves w w'
  | serves_not_warmed key rego e : key ∈ keys -> ensure_module_pushed key rego w = (w', inl e) -> no_push_lost key rego w w' -> serves w w'
  | serves_forgot : opa w' ⊆ opa w -> pushed (ev w') ⊆ pushed (ev w) -> serves w w'.

Definition all_coherent (w : World) : Prop := forall k, k ∈ keys -> coherent k w.

Lemma recorded_all key rego w w' : key ∈ keys -> recorded key rego w w' -> all_coherent w -> all_coherent w'.
Proof.
  intros I [R1 R2] C k Ik. destruct (decide (k = key)) as [->|N]; [by apply R1, C|]. apply R2; [|by apply C]. intros E. by apply N, own_module.
Qed.

Lemma interrupted_all key rego w w' : key ∈ keys -> interrupted key rego w w' -> no_push_lost key rego w w' -> all_coherent w -> all_coherent w'.
Proof.
  intros I (w1 & R & P & O) L C. destruct L as [L|[Lo Lp]].
  - assert (C1 : all_coherent w1) by (destruct R as [->|R]; [done|by apply (recorded_all key rego w)]).
    intros k Ik h Hh. rewrite P in Hh, L. destruct O as [->| ->]; [by apply (C1 k Ik)|]. destruct (decide (k = key)) as [->|N].
    + rewrite L in Hh. injection Hh as <-. right. exists rego. by rewrite lookup_insert_eq.
    + rewrite lookup_insert_ne; [by apply (C1 k Ik)|]. intros E. apply N. by apply own_module.
  - intros k Ik. apply (coherent_sub k w); [by rewrite Lp|by rewrite Lo|by apply C].
Qed.

Lemma serves_coherent w w' : serves w w' -> all_coherent w -> all_coherent w'.
Proof.
  intros [key rego doc raw I E|key rego doc e I E L|key rego I E|key rego e I E L|O P] C.
  - pose proof (wp_evaluate_server key rego server sha_inj doc w) as T. unfold wp in T. rewrite E in T. destruct T as [_ T]. by apply (recorded_all key rego w).
  - pose proof (evaluate_interrupted key rego server sha_inj doc w) as T. unfold wp in T. rewrite E in T. by apply (interrupted_all key rego w).
  - pose proof (ensure_interrupted key rego server sha_inj w) as T. unfold wp in T. rewrite E in T. by apply (recorded_all key rego w).
  - pose proof (ensure_interrupted key rego server sha_inj w) as T. unfold wp in T. rewrite E in T. by apply (interrupted_all key rego w).
  - intros k Ik. apply (coherent_sub k w); auto.
Qed.

(** C12: OPA answers for the text that is to be evaluated.  A process starts with no digests, whatever OPA holds, and evaluates and pushes any
    texts of its policies, with any failures but the loss of the answer to a push that OPA has applied, and with OPA losing modules at any time.
    Then a server-mode evaluation that returns gives OPA's answer for the current text of its policy, whether
    the module was already there, is pushed now, or had been lost. *)
Theorem server_evaluates_current_text w0 w key rego doc w' raw :
  pushed (ev w0) = ∅ -> rtc serves w0 w -> key ∈ keys -> evaluate_opa_server key rego doc w = (w', inr raw) ->
  raw = decode_answer "No policy decision produced" (answer (compile_source sha1_8 (points key) rego) doc).
Proof.
  intros P0 R I E. assert (C : all_coherent w).
  { assert (C0 : all_coherent w0) by (intros k _ h Hh; by rewrite P0, lookup_empty in Hh).
    clear E P0. induction R as [|w1 w2 w3 S _ IH]; [done|]. by apply IH, (serves_coherent w1). }
  pose proof (wp_evaluate_server key rego server sha_inj doc w) as T. unfold wp in T. rewrite E in T. by apply T, C.
Qed.

End History.

(** dry runs cannot fill OPA.  However many dry-run keys are tracked, and even if the deletions from
    OPA fail, tracking one more ends with at most 256 of them, the new one last and kept. *)
Theorem dryrun_modules_bounded key w :
  let w' := (track_dryrun_module key w).1 in
  (length (dryrun_keys (ev w')) <= 256)%nat /\ last (dryrun_keys (ev w')) = Some key /\
  opa w' ⊆ opa w /\ pushed (ev w') ⊆ pushed (ev w).
Proof.
  intros w'.
  assert (T : wp (track_dryrun_module key) (fun _ w' =>
    (length (dryrun_keys (ev w')) <= 256)%nat /\ last (dryrun_keys (ev w')) = Some key /\
    opa w' ⊆ opa w /\ pushed (ev w') ⊆ pushed (ev w)) (fun _ _ => False) w).
  { unfold track_dryrun_module. apply wp_bind, wp_get, wp_evict. intros ks w1 O D _ L La P. rewrite D.
    split; [exact L|]. split; [|done]. rewrite La by (by destruct (filter _ _)). by rewrite last_snoc. }
  unfold wp in T. subst w'. by destruct (track_dryrun_module key w) as [w' []].
Qed.

End OpaModules.

(** ** A concrete policy, for the witness and the divergence *)

Definition sample_doc : OpaInput :=
  mkInput "read_file" "read_file" [] [] [] "prod" "support" 1 "high" "s1" 0 (JObj []) [] (JStr "call").

(** One evaluation of the policy [prod:support] with the given text, external outcomes and store. *)
Definition sample_eval (rego : text) (fs : list (option exc)) (w : World) : World * (exc + RawDecision) :=
  evaluate_opa_server (H := demo) "prod:support" rego sample_doc (set_faults fs w).

(** The policy is evaluated, edited, OPA restarts, and the edit fails to reach it once; the next evaluation answers for the edit. *)
Lemma server_evaluates_current_text_witness :
  let w1 := (sample_eval (points "block") [] empty_world).1 in
  let w2 := (sample_eval (points "allow") [Some ETimeout] (set_opa ∅ w1)).1 in
  exists w3 raw, sample_eval (points "allow") [] w2 = (w3, inr raw) /\ rw_decision raw = "allow".
Proof.
  intros w1 w2. destruct (sample_eval (points "allow") [] w2) as [w3 [e|raw]] eqn:B; [exfalso; vm_compute in B; congruence|].
  exists w3, raw. split; [reflexivity|].
  rewrite (server_evaluates_current_text (H := demo) ["prod:support"] eq_refl (fun a b E => E)
    (fun k k' I J _ => eq_trans (proj1 (list_elem_of_singleton _ _) I) (eq_sym (proj1 (list_elem_of_singleton _ _) J)))
    (set_faults [] empty_world) (set_faults [] w2) "prod:support" (points "allow") sample_doc w3 raw); [reflexivity|reflexivity| |by left|exact B].
  eapply rtc_l; [apply (serves_answered _ _ _ "prod:support" (points "block") sample_doc (mkRaw "block" "demo_rule" "")); [by left|vm_compute; reflexivity]|].
  eapply rtc_l; [apply (serves_forgot _ _ (set_faults [Some ETimeout] (set_opa ∅ w1))); [apply map_empty_subseteq|done]|].
  eapply rtc_l; [apply (serves_raised _ _ _ "prod:support" (points "allow") sample_doc ETimeout); [by left|vm_compute; reflexivity|right; split; vm_compute; reflexivity]|].
  eapply rtc_l; [apply (serves_forgot _ _ (set_faults [] w2)); done|]. apply rtc_refl.
Defined.

(** a lost answer breaks the mirror.  A policy is pushed, then edited; OPA applies the push of the edit
    but its answer is lost, so the old digest stays recorded.  When the edit is rolled back the guard
    finds the old digest and pushes nothing: OPA keeps answering for the text that was rolled back. *)
Theorem lost_push_serves_rolled_back_text :
  let w1 := (sample_eval (points "block") [] empty_world).1 in
  let w2 := (sample_eval (points "allow") [None; Some ETimeout] w1).1 in
  (sample_eval (points "block") [] empty_world).2 = inr (mkRaw "block" "demo_rule" "") /\
  (sample_eval (points "allow") [None; Some ETimeout] w1).2 = inl ETimeout /\
  (sample_eval (points "block") [] w2).2 = inr (mkRaw "allow" "demo_rule" "").
Proof. by vm_compute. Qed.
