(* ===== verification/EvalCache.v ===== *)
(** * The eval caches

    What [_cache_tool_key] separates, which decisions the caches may hold, and what sharing a decision
    within its key hides. *)

From S2P Require Import Prelude Text ModuleText Config Decisions Resolve InprocCache Effects Trust World Loader Collect Identity.
From S2P Require Import Evaluator EvaluatorProps.

Section Clean.
Context `{Externals}.

(** A decision that may be replayed. *)
Definition cacheable (d : PolicyDecision) : Prop := rule_id d ∉ evaluator_non_cacheable_rules cfg.

(** Both eval caches hold only such decisions. *)
Definition clean (w : World) : Prop :=
  (forall k d x, rd_eval (redis w) !! k = Some (d, x) -> cacheable d) /\
  (forall k e, (k, e) ∈ data (inproc_eval_cache (ev w)) -> cacheable e.2).

Definition stays_clean (w w' : World) : Prop := clean w -> clean w'.

Lemma clean_same w w' :
  rd_eval (redis w') = rd_eval (redis w) -> inproc_eval_cache (ev w') = inproc_eval_cache (ev w) -> stays_clean w w'.
Proof. intros E1 E2. unfold stays_clean, clean. rewrite E1, E2. auto. Qed.

#[local] Instance clean_preorder : PreOrder stays_clean.
Proof. split; [intros w C; exact C|]. intros w1 w2 w3. unfold stays_clean. auto. Qed.

#[local] Instance clean_insensitive : Insensitive stays_clean.
Proof. intros w fs t ts. split; by apply clean_same. Qed.

#[local] Instance clean_inert : Inert stays_clean.
Proof. intros w w' []. by apply clean_same. Qed.

#[local] Hint Extern 1 (keeps stays_clean (modify _)) => apply keeps_modify; intros ?; by apply clean_same : keeps.

Lemma wp_clean {A} (m : W A) (Q : A -> World -> Prop) (E : exc -> World -> Prop) w :
  keeps stays_clean m -> clean w ->
  (forall a w', clean w' -> Q a w') -> (forall e w', clean w' -> E e w') -> wp m Q E w.
Proof.
  intros Hm C HQ HE. eapply wp_mono; [by apply (wp_keeps stays_clean)| |]; simpl; auto.
Qed.

Lemma keeps_posture_clean ns : keeps stays_clean (resolve_posture ns).
Proof. unfold resolve_posture, posture_cached. keeps_tac. Qed.

(** Reading the L1 only drops entries. *)
Lemma clean_l1_get w k t :
  clean w -> clean (set_ev (set_inproc_eval_cache (get (inproc_eval_cache (ev w)) k t).1 (ev w)) w) /\
  (forall d, (get (inproc_eval_cache (ev w)) k t).2 = Some d -> cacheable d).
Proof.
  intros [C1 C2]. split.
  - split; [done|]. intros k' e He. simpl in He. apply get_data in He. by apply (C2 k').
  - intros d Hd. apply get_value in Hd as [x Hx]. by apply (C2 k (x, d)).
Qed.

(** Writing a cacheable decision to the L1 or to Redis. *)
Lemma clean_l1_set w k d t :
  cacheable d -> clean w -> clean (set_ev (set_inproc_eval_cache (set (inproc_eval_cache (ev w)) k d t) (ev w)) w).
Proof.
  intros Hd [C1 C2]. split; [done|]. intros k' e He. simpl in He.
  apply set_data in He as [He|[_ ->]]; [by apply (C2 k')|done].
Qed.

Lemma clean_redis_set w k d x :
  cacheable d -> clean w -> clean (set_redis (set_rd_eval (<[k := (d, x)]> (rd_eval (redis w))) (redis w)) w).
Proof.
  intros Hd [C1 C2]. split; [|done]. intros k' d' x' E. simpl in E.
  destruct (decide (k' = k)) as [->|N]; [rewrite lookup_insert_eq in E; by injection E as <- _|].
  rewrite lookup_insert_ne in E by done. by apply (C1 k' d' x').
Qed.

Lemma live_eval_cacheable w t k d : clean w -> live_eval w t k = Some d -> cacheable d.
Proof.
  intros [C _]. unfold live_eval. destruct (rd_eval _ !! k) as [[d' x]|] eqn:L; [|done].
  destruct (t <? x); [|done]. intros [= <-]. by apply (C k d' x).
Qed.

(** The combined read of the shared entry and the flags. *)
Lemma wp_eval_and_flags_clean ns cls tool who w (Q : option PolicyDecision * bool * option Q -> World -> Prop) E :
  clean w -> (forall d f o w', clean w' -> (forall d', d = Some d' -> cacheable d') -> Q (d, f, o) w') ->
  wp (get_eval_and_agent_flags ns cls tool who) Q E w.
Proof.
  intros C HQ. unfold get_eval_and_agent_flags. apply wp_try, wp_bind, wp_now. intros t ts w1 _ ->.
  apply wp_bind, wp_io.
  - intros fs w2 ->. apply wp_bind, wp_get, wp_ret, HQ; [done|]. intros d' Hd. by apply live_eval_cacheable in Hd.
  - intros e fs w2 ->. by apply wp_ret, HQ.
Qed.

Lemma keeps_read_caches_clean event p key w : clean w ->
  wp (read_caches event p key) (fun _ => clean) (fun _ => clean) w.
Proof.
  intros C. unfold read_caches. apply wp_bind, wp_get. destruct (enabled _).
  - apply wp_bind, wp_now. intros t ts w1 _ E1. assert (C1 : clean w1) by (subst; done).
    apply wp_bind, wp_get. cbv zeta. apply wp_bind, wp_upd. intros w2 E2.
    destruct (clean_l1_get w1 (namespace (agent_identity event), agent_class (agent_identity event), key) (secs t) C1)
      as [C2 _]. rewrite <- E2 in C2. apply wp_bind.
    assert (Rest : forall cf w3, clean w3 -> wp (tr ← compute_trust event (po_threshold p) (Some cf.2);
      mret (cf.1 : option PolicyDecision, tr)) (fun _ => clean) (fun _ => clean) w3).
    { intros cf w3 C3. apply wp_bind, wp_clean; [apply (keeps_compute_trust stays_clean)|done| |done].
      intros tr w4 C4. by apply wp_ret. }
    destruct (_.2) as [d|].
    + apply wp_bind, wp_clean; [unfold get_agent_flags; keeps_tac|done| |done]. intros f w3 C3.
      apply wp_ret. by apply (Rest (Some d, f)).
    + apply wp_bind, wp_eval_and_flags_clean; [done|]. intros d f o w3 C3 Hd. apply wp_bind.
      assert (Cont : forall w4, clean w4 -> wp (mret (d, (f, o))) (fun cf => wp (tr ← compute_trust event (po_threshold p) (Some cf.2);
        mret (cf.1 : option PolicyDecision, tr)) (fun _ => clean) (fun _ => clean)) (fun _ => clean) w4).
      { intros w4 C4. apply wp_ret. by apply (Rest (d, (f, o))). }
      destruct d as [d|]; [|by apply wp_ret, Cont].
      apply wp_bind, wp_now. intros t' ts' w4 _ E4. apply wp_upd. intros w5 E5. apply Cont. subst w5.
      apply clean_l1_set; [by apply Hd|]. by subst.
  - apply wp_bind, wp_clean; [apply (keeps_compute_trust stays_clean)|done| |done]. intros tr w1 C1.
    apply wp_bind, wp_clean; [unfold get_eval; keeps_tac|done| |done]. intros d w2 C2. by apply wp_ret.
Qed.

Lemma store_eval_clean event key base cs w : clean w ->
  wp (store_eval event key base cs) (fun _ => clean) (fun _ => clean) w.
Proof.
  intros C. unfold store_eval. destruct (negb (bool_decide _)) eqn:N; [|by apply wp_ret].
  assert (Hb : cacheable base) by (by bool_prop). destruct (negb (depends_on_per_identity_facts cs)); [|by apply wp_ret].
  simpl. apply wp_bind. unfold set_eval. apply wp_bind, wp_now. intros t ts w1 _ E1.
  apply wp_bind, wp_io; [|intros e fs w2 ->; by subst]. intros fs w2 E2. apply wp_upd. intros w3 E3.
  assert (C3 : clean w3) by (subst w3; apply clean_redis_set; [done|by subst]).
  apply wp_bind, wp_get. destruct (enabled _); [|by apply wp_ret].
  apply wp_bind, wp_now. intros t' ts' w4 _ E4. apply wp_upd. intros w5 E5. subst w5.
  apply clean_l1_set; [done|by subst].
Qed.

Lemma evaluate_clean event w : clean w -> wp (evaluate event) (fun _ => clean) (fun _ => clean) w.
Proof.
  intros C. unfold evaluate. apply wp_bind, wp_now. intros start ts w1 _ E1.
  assert (C1 : clean w1) by (by subst). clear E1 C. apply wp_try.
  assert (Fail : forall e w2, clean w2 -> wp (on_failure event start e) (fun _ => clean) (fun _ => clean) w2).
  { intros e w2 C2. apply wp_clean; [|done|done|done]. pose proof keeps_posture_clean.
    unfold on_failure, soften_failure, register_fail_closed. keeps_tac; auto. }
  assert (Tail : forall base tr p w2, clean w2 -> wp (d ← fresh_overrides event base start tr p; finish event d tr start)
    (fun _ => clean) (fun e => wp (on_failure event start e) (fun _ => clean) (fun _ => clean)) w2).
  { intros base tr p w2 C2. apply wp_clean; [|done|done|auto]. unfold fresh_overrides, finish, persist_behavior. keeps_tac. }
  unfold evaluate_try, validate_spiffe. apply wp_bind.
  destruct (is_controllable_spiffe_id _); [apply wp_ret|by apply wp_raise, Fail].
  apply wp_bind, wp_clean; [apply keeps_posture_clean|done| |auto]. intros p w2 C2.
  apply wp_bind, wp_clean; [apply (keeps_stored_trust stays_clean)|done| |auto]. intros _ w3 C3. cbv zeta.
  apply wp_bind. eapply wp_mono; [by apply keeps_read_caches_clean| |intros e w4 C4; by apply Fail].
  intros [c tr] w4 C4. simpl in C4. destruct c as [c|]; [by apply Tail|].
  apply wp_bind, wp_clean; [apply (keeps_decide_fresh stays_clean)|done| |auto]. intros [base cs] w5 C5.
  apply wp_bind. eapply wp_mono; [by apply store_eval_clean| |intros e w6 C6; by apply Fail].
  intros [] w6 C6. by apply Tail.
Qed.

(** A sequence of calls handled by one process. *)
Fixpoint serve (events : list ToolCallEvent) (w : World) : World :=
  match events with
  | [] => w
  | e :: es => serve es (evaluate e w).1
  end.

(** a decision marked non-cacheable is never replayed.  After any sequence of calls, with any failures,
    neither the shared eval cache nor the in-process one holds a decision of a configured non-cacheable
    rule. *)
Theorem non_cacheable_never_stored events w : clean w -> clean (serve events w).
Proof.
  revert w. induction events as [|e es IH]; intros w C; [done|]. simpl. apply IH.
  pose proof (evaluate_clean e w C) as T. unfold wp in T. by destruct (evaluate e w) as [w' []].
Qed.

End Clean.

(** ** The key *)

Section Key.
Context `{Externals}.

(** The digest both parts of the key use. *)
Definition digest16 (s : string) : string := string_take 16 (unpoints (sha256 (points s))).

(** Hexadecimal digests have no colon. *)
Hypothesis (digest_hex : forall s, colon_free (digest16 s) = true).

(** The digests of two texts tell them apart: no collision of the 64 bits kept. *)
Definition told_apart (a b : string) : Prop := digest16 a = digest16 b -> a = b.

(** The segments of the key, from the left. *)
Definition key_base (event : ToolCallEvent) : string :=
  ((tool_name event +:+ ":" +:+ digest16 (dumps_sorted (tool_params event)))
     +:+ ":" +:+ ("d" +:+ fmt_int (call_depth event))) +:+ ":" +:+ ("w" +:+ workload (agent_identity event)).

Lemma cache_tool_key_segments event :
  cache_tool_key event =
  match mcp event with
  | [] => key_base event
  | _ :: _ => key_base event +:+ ":" +:+ ("m" +:+ digest16 (dumps_sorted (mcp event)))
  end.
Proof.
  unfold cache_tool_key, key_base, params_digest, digest16. cbv zeta.
  destruct (mcp event); rewrite ?string_app_assoc; reflexivity.
Qed.

Lemma key_base_inj e1 e2 :
  told_apart (dumps_sorted (tool_params e1)) (dumps_sorted (tool_params e2)) ->
  colon_free (workload (agent_identity e1)) = true -> colon_free (workload (agent_identity e2)) = true ->
  key_base e1 = key_base e2 ->
  tool_name e1 = tool_name e2 /\ dumps_sorted (tool_params e1) = dumps_sorted (tool_params e2) /\
  call_depth e1 = call_depth e2 /\ workload (agent_identity e1) = workload (agent_identity e2).
Proof.
  intros DP W1 W2 E. unfold key_base in E.
  apply last_segment in E as [E Ew]; [|exact W1|exact W2].
  apply last_segment in E as [E Ed]; [|apply (fmt_int_colon_free (call_depth e1))|apply (fmt_int_colon_free (call_depth e2))].
  apply last_segment in E as [E Ep]; [|apply digest_hex|apply digest_hex].
  split; [done|]. split; [by apply DP|].
  split; [apply fmt_int_inj; by injection Ed|by injection Ew].
Qed.

(** the eval-cache key separates decision inputs.  Two calls whose workloads hold no colon share a key
    suffix only if tool, canonical parameters, call depth, workload and canonical MCP context agree. *)
Theorem cache_key_separates e1 e2 :
  told_apart (dumps_sorted (tool_params e1)) (dumps_sorted (tool_params e2)) ->
  told_apart (dumps_sorted (mcp e1)) (dumps_sorted (mcp e2)) ->
  colon_free (workload (agent_identity e1)) = true -> colon_free (workload (agent_identity e2)) = true ->
  cache_tool_key e1 = cache_tool_key e2 ->
  tool_name e1 = tool_name e2 /\ dumps_sorted (tool_params e1) = dumps_sorted (tool_params e2) /\
  call_depth e1 = call_depth e2 /\ workload (agent_identity e1) = workload (agent_identity e2) /\
  (mcp e1 = [] <-> mcp e2 = []) /\ (mcp e1 <> [] -> dumps_sorted (mcp e1) = dumps_sorted (mcp e2)).
Proof.
  intros DP DM W1 W2. rewrite !cache_tool_key_segments.
  destruct (mcp e1) as [|x1 m1] eqn:M1, (mcp e2) as [|x2 m2] eqn:M2; intros E.
  - destruct (key_base_inj e1 e2 DP W1 W2 E) as (? & ? & ? & ?). naive_solver.
  - exfalso. unfold key_base at 1 in E. apply last_segment in E as [_ E]; [done|exact W1|apply digest_hex].
  - exfalso. unfold key_base at 2 in E. apply last_segment in E as [_ E]; [done|apply digest_hex|exact W2].
  - apply last_segment in E as [E Em]; [|apply (digest_hex (dumps_sorted (x1 :: m1)))|apply (digest_hex (dumps_sorted (x2 :: m2)))].
    destruct (key_base_inj e1 e2 DP W1 W2 E) as (? & ? & ? & ?). do 4 (split; [done|]). split; [done|].
    intros _. apply DM. by injection Em.
Qed.

(** A workload that carries a colon can spell the MCP segment of another call. *)
Lemma colon_in_workload_collides e1 e2 x m :
  tool_name e1 = tool_name e2 -> tool_params e1 = tool_params e2 -> call_depth e1 = call_depth e2 ->
  mcp e1 = x :: m -> mcp e2 = [] ->
  workload (agent_identity e2) = workload (agent_identity e1) +:+ ":m" +:+ digest16 (dumps_sorted (x :: m)) ->
  cache_tool_key e1 = cache_tool_key e2.
Proof.
  intros T P D M1 M2 Wl. rewrite !cache_tool_key_segments, M1, M2. unfold key_base.
  rewrite T, P, D, Wl, !string_app_assoc. reflexivity.
Qed.

End Key.

(** ** Concrete runs *)

Definition hex_demo : Externals :=
  demo_with (fun s => if bool_decide (s = points "{}") then points "0000000000000000" else points "ffffffffffffffff")
    (fun ps => match ps with [] => "{}" | _ :: _ => "{...}" end) (fun _ _ => None).

Definition sample_call (session : string) : ToolCallEvent :=
  mkEvent "e1" "read_file" []
    (mkIdentity (points "spiffe://norviq/ns/prod/sa/bot") "prod" "bot" "support" "" "" "" "") session 0 "" 0 None []
    "" "" "".

Lemma digest_hex_demo s : colon_free (digest16 (H := hex_demo) s) = true.
Proof. unfold digest16. simpl. by case_bool_decide. Qed.

Lemma cache_key_separates_witness :
  tool_name (sample_call "s1") = tool_name (sample_call "s2") /\
  call_depth (sample_call "s1") = call_depth (sample_call "s2").
Proof.
  destruct (cache_key_separates (H := hex_demo) digest_hex_demo (sample_call "s1") (sample_call "s2"))
    as (T & _ & D & _); [done|done|reflexivity|reflexivity|reflexivity|]. exact (conj T D).
Defined.

Lemma non_cacheable_never_stored_witness :
  clean (H := demo) (serve (H := demo) [sample_call "s1"; sample_call "s2"] empty_world).
Proof.
  apply (non_cacheable_never_stored (H := demo)). split.
  - intros k d x E. vm_compute in E. discriminate E.
  - intros k e E. vm_compute in E. by apply elem_of_nil in E.
Defined.

Definition verdict_of (r : World * (exc + PolicyDecision)) : option (verdict * string) :=
  match r.2 with inr d => Some (decision d, rule_id d) | inl _ => None end.

(** A policy that lets one session through and no other. *)
Definition session_demo : Externals :=
  demo_with (fun s => s) (fun _ => EmptyString)
    (fun _ doc => Some (JObj [("decision", JStr (if bool_decide (in_session_id doc = "s1") then "allow" else "block"));
                              ("rule_id", JStr "session_rule")])).

(** One policy for the class, loaded. *)
Definition loaded_world : World :=
  set_loader (set_policies {["prod:support" := mkEntry (points "allow") 100 "block"]} empty_loader) empty_world.

(** the key leaves the session out.  A policy that reads [input.session_id] blocks the call of session
    [s2]; but after the same call of session [s1] was allowed and cached, session [s2] is served that
    allow. *)
Theorem session_shares_decision :
  verdict_of (evaluate (H := session_demo) (sample_call "s2") loaded_world) = Some (Block, "session_rule") /\
  verdict_of (evaluate (H := session_demo) (sample_call "s1") loaded_world) = Some (Allow, "session_rule") /\
  verdict_of (evaluate (H := session_demo) (sample_call "s2")
                (evaluate (H := session_demo) (sample_call "s1") loaded_world).1) = Some (Allow, "session_rule").
Proof. by vm_compute. Qed.

(** an engine failure is cached.  OPA refuses both attempts for one call, which is blocked with
    [evaluator_error]; the next identical call, with OPA back, is served the same block from the cache,
    where a fresh evaluation allows it. *)
Theorem engine_error_replayed :
  let outage := set_faults (repeat None 12 ++ repeat (Some EOther) 5) loaded_world in
  let w1 := (evaluate (H := demo) (sample_call "s1") outage).1 in
  verdict_of (evaluate (H := demo) (sample_call "s1") loaded_world) = Some (Allow, "demo_rule") /\
  verdict_of (evaluate (H := demo) (sample_call "s1") outage) = Some (Block, "evaluator_error") /\
  faults w1 = [] /\
  verdict_of (evaluate (H := demo) (sample_call "s1") w1) = Some (Block, "evaluator_error").
Proof. by vm_compute. Qed.
