(* ===== verification/OwnerFence.v ===== *)
(** * The owner fence on the admin trust controls ([norviq/engine/cache.py])

    The three Lua scripts behind a freeze or a cap: the claim of an agent's owner key, with tokens kept as
    digit strings, and the two writes that do nothing unless their token still owns the agent.  The claim
    refines an order on pairs (last lock holder, steals since); from it, a writer that was overtaken never
    writes again. *)

From stdpp Require Import pretty.
From S2P Require Import Prelude.

(** ** Digit strings *)

(** [%d]. *)
Definition is_digit (c : Ascii.ascii) : bool :=
  let n := Z.of_N (Ascii.N_of_ascii c) in (48 <=? n) && (n <=? 57).

Fixpoint all_digits (s : string) : bool :=
  match s with EmptyString => true | String c s' => is_digit c && all_digits s' end.

(** [string.match(s, '^%d+$')]. *)
Definition numeral (s : string) : bool := nonempty s && all_digits s.

Definition digit (c : Ascii.ascii) : Z := Z.of_N (Ascii.N_of_ascii c) - 48.

(** [tonumber], on a digit string. *)
Fixpoint value_onto (acc : Z) (s : string) : Z :=
  match s with EmptyString => acc | String c s' => value_onto (acc * 10 + digit c) s' end.
Definition value (s : string) : Z := value_onto 0 s.

Definition zero_char : Ascii.ascii := Ascii.ascii_of_nat 48.

(** [string.gsub(d, '^0+', '')]. *)
Fixpoint strip_zeros (s : string) : string :=
  match s with
  | EmptyString => EmptyString
  | String c s' => if Ascii.eqb c zero_char then strip_zeros s' else s
  end.

(** [canon]. *)
Definition canon (d : string) : string :=
  let d := strip_zeros d in if nonempty d then d else "0".

(** [older]: by length, then by text. *)
Definition older (a b : string) : bool :=
  if negb (String.length a =? String.length b)%nat then (String.length a <? String.length b)%nat
  else String.ltb a b.

(** The text before and after the first colon. *)
Fixpoint split_colon (s : string) : option (string * string) :=
  match s with
  | EmptyString => None
  | String c s' =>
      if Ascii.eqb c (Ascii.ascii_of_nat 58) then Some (EmptyString, s')
      else match split_colon s' with Some (a, b) => Some (String c a, b) | None => None end
  end.

(** [last] and [stolen] as read from the owner value; anything this release cannot parse is token 0. *)
Definition parse_owner (cur : option string) : string * Z :=
  match cur with
  | None => ("0", 0)
  | Some cur =>
      match split_colon cur with
      | Some (l, s) =>
          if numeral l && numeral s && (String.length s <=? 9)%nat then (canon l, value s) else ("0", 0)
      | None => if numeral cur then (canon cur, 0) else ("0", 0)
      end
  end.

(** [_CLAIM_LUA]: the new owner value, [None] when the claim is refused; the empty token steals. *)
Definition claim (cur : option string) (token : string) : option string :=
  let '(last, stolen) := parse_owner cur in
  if bool_decide (token = "") then Some (last +:+ ":" +:+ fmt_int (stolen + 1))
  else if numeral token then
    let t := canon token in
    if older t last || (bool_decide (t = last) && (0 <? stolen)) then None else Some t
  else Some token.

(** ** The store of one agent *)

Record AgentKeys := mkKeys {
  owner : option string;         (* agent_trust_owner:<id> *)
  k_frozen : bool;               (* agent_frozen:<id> exists *)
  k_cap : option Q;              (* agent_trust_override:<id> *)
  k_display : option string;     (* trust:<id> *)
}.
Definition set_owner (o : option string) (k : AgentKeys) : AgentKeys :=
  mkKeys o (k_frozen k) (k_cap k) (k_display k).

Definition FENCE_APPLIED : Z := 1.
Definition FENCE_LOST : Z := 0.
Definition FENCE_MISSING : Z := -1.

(** [_FENCED_CONTROL_LUA]; an empty display is not written. *)
Definition fenced_control (token : string) (frozen : bool) (cap : option Q) (display : option string) (k : AgentKeys)
    : AgentKeys * Z :=
  match owner k with
  | None => (k, FENCE_MISSING)
  | Some o =>
      if negb (bool_decide (o = token)) then (k, FENCE_LOST)
      else (mkKeys (Some o) frozen cap (match display with Some d => Some d | None => k_display k end),
            FENCE_APPLIED)
  end.

(** [_FENCED_WARM_LUA]: adds a freeze, else a cap, and deletes nothing. *)
Definition fenced_warm (token : string) (frozen : bool) (cap : option Q) (k : AgentKeys)
    : AgentKeys * Z :=
  match owner k with
  | None => (k, FENCE_MISSING)
  | Some o =>
      if negb (bool_decide (o = token)) then (k, FENCE_LOST)
      else if frozen then (mkKeys (Some o) true (k_cap k) (k_display k), FENCE_APPLIED)
      else match cap with
           | Some c => (mkKeys (Some o) (k_frozen k) (Some c) (k_display k), FENCE_APPLIED)
           | None => (k, FENCE_APPLIED)
           end
  end.

(** The claim as a step on the store: a refused claim changes nothing. *)
Definition claim_step (token : string) (k : AgentKeys) : AgentKeys * option string :=
  match claim (owner k) token with
  | Some o => (set_owner (Some o) k, Some o)
  | None => (k, None)
  end.

(** ** What the writers do, in the order the store sees it *)

Inductive fence_op : Type :=
  | Claim (token : Z)                                        (* a lock holder *)
  | Steal                                                    (* a freeze without the lock *)
  | Control (token : string) (frozen : bool) (cap : option Q) (display : option string)
  | Warm (token : string) (frozen : bool) (cap : option Q).

Definition fence_step (op : fence_op) (k : AgentKeys) : AgentKeys :=
  match op with
  | Claim t => (claim_step (fmt_int t) k).1
  | Steal => (claim_step "" k).1
  | Control t f c d => (fenced_control t f c d k).1
  | Warm t f c => (fenced_warm t f c k).1
  end.

Definition fence_run (ops : list fence_op) (k : AgentKeys) : AgentKeys :=
  fold_left (fun k op => fence_step op k) ops k.

(** ** Lemmas on numerals *)

Lemma value_onto_acc acc s : value_onto acc s = acc * 10 ^ Z.of_nat (String.length s) + value s.
Proof.
  unfold value. revert acc. induction s as [|c s IH]; intros acc; cbn [value_onto String.length]; [lia|].
  rewrite (IH (acc * 10 + digit c)), (IH (0 * 10 + digit c)). rewrite Nat2Z.inj_succ, Z.pow_succ_r by lia. lia.
Qed.

Lemma is_digit_bounds c : is_digit c = true -> 0 <= digit c <= 9.
Proof. unfold is_digit, digit. intros H. bool_prop. lia. Qed.

Lemma value_bounds s : all_digits s = true -> 0 <= value s < 10 ^ Z.of_nat (String.length s).
Proof.
  induction s as [|c s IH]; intros H; [by vm_compute|]. simpl in H. apply andb_true_iff in H as [Hc Hs].
  apply is_digit_bounds in Hc. specialize (IH Hs).
  change (value (String c s)) with (value_onto (0 * 10 + digit c) s). rewrite value_onto_acc.
  cbn [String.length]. rewrite Nat2Z.inj_succ, Z.pow_succ_r by lia. nia.
Qed.

(** A numeral without a needless leading zero. *)
Definition canonical (s : string) : Prop :=
  numeral s = true /\ (s = "0" \/ exists c s', s = String c s' /\ c <> zero_char).

Lemma zero_digit c : is_digit c = true -> digit c = 0 -> c = zero_char.
Proof.
  intros _ H. unfold digit in H. rewrite <- (Ascii.ascii_N_embedding c).
  replace (Ascii.N_of_ascii c) with 48%N by lia. reflexivity.
Qed.

Lemma canonical_lower s : canonical s -> (2 <= String.length s)%nat ->
  10 ^ (Z.of_nat (String.length s) - 1) <= value s.
Proof.
  intros [N [->|(c & s' & -> & Hc)]] L; [simpl in L; lia|].
  unfold numeral in N. simpl in N. apply andb_true_iff in N as [Dc Ds].
  assert (1 <= digit c).
  { pose proof (is_digit_bounds c Dc). destruct (Z.eq_dec (digit c) 0) as [E|]; [|lia].
    by apply (zero_digit c Dc) in E. }
  change (value (String c s')) with (value_onto (0 * 10 + digit c) s'). rewrite value_onto_acc.
  pose proof (value_bounds s' Ds). cbn [String.length].
  replace (Z.of_nat (S (String.length s')) - 1) with (Z.of_nat (String.length s')) by lia.
  pose proof (Z.pow_nonneg 10 (Z.of_nat (String.length s')) ltac:(lia)). nia.
Qed.


Lemma ltb_value a b :
  all_digits a = true -> all_digits b = true -> String.length a = String.length b ->
  String.ltb a b = (value a <? value b).
Proof.
  revert b. induction a as [|c a IH]; intros [|d b] Ha Hb L; simpl in L; try done.
  simpl in Ha, Hb. apply andb_true_iff in Ha as [Hc Ha], Hb as [Hd Hb]. injection L as L.
  change (value (String c a)) with (value_onto (0 * 10 + digit c) a).
  change (value (String d b)) with (value_onto (0 * 10 + digit d) b). rewrite !value_onto_acc, L.
  pose proof (value_bounds a Ha) as Ba. pose proof (value_bounds b Hb) as Bb. rewrite L in Ba.
  specialize (IH b Ha Hb L). unfold String.ltb in *. cbn [String.compare]. unfold Ascii.compare.
  unfold digit. destruct (N.compare_spec (Ascii.N_of_ascii c) (Ascii.N_of_ascii d)) as [E|E|E].
  - rewrite E, IH. destruct (Z.ltb_spec (value a) (value b)), (Z.ltb_spec
      ((0 * 10 + (Z.of_N (Ascii.N_of_ascii d) - 48)) * 10 ^ Z.of_nat (String.length b) + value a)
      ((0 * 10 + (Z.of_N (Ascii.N_of_ascii d) - 48)) * 10 ^ Z.of_nat (String.length b) + value b)); try done; lia.
  - symmetry. apply Z.ltb_lt. nia.
  - symmetry. apply Z.ltb_ge. nia.
Qed.

(** Comparing canonical numerals as texts is comparing numbers. *)
Lemma older_value a b : canonical a -> canonical b -> older a b = (value a <? value b).
Proof.
  intros Ca Cb.
  assert (Da : nonempty a && all_digits a = true) by apply Ca.
  assert (Db : nonempty b && all_digits b = true) by apply Cb.
  apply andb_true_iff in Da as [Na Da], Db as [Nb Db]. unfold older.
  assert (Short : forall x y, canonical y -> all_digits x = true -> nonempty x = true ->
    (String.length x < String.length y)%nat -> value x < value y).
  { intros x y Cy Dx Nx L.
    assert (2 <= String.length y)%nat by (destruct x; [done|simpl in L; lia]).
    pose proof (canonical_lower y Cy ltac:(lia)). pose proof (value_bounds x Dx).
    assert (10 ^ Z.of_nat (String.length x) <= 10 ^ (Z.of_nat (String.length y) - 1)); [|lia].
    apply Z.pow_le_mono_r; lia. }
  destruct (Nat.eqb_spec (String.length a) (String.length b)) as [L|L]; simpl; [by apply ltb_value|].
  destruct (Nat.ltb_spec (String.length a) (String.length b)) as [L'|L'].
  - symmetry. apply Z.ltb_lt. by apply Short.
  - symmetry. apply Z.ltb_ge. apply Z.lt_le_incl. apply Short; [done..|lia].
Qed.

(** ** Printed numbers are canonical numerals of their value *)

Lemma pretty_digit x : (x < 10)%N -> is_digit (pretty_N_char x) = true /\ digit (pretty_N_char x) = Z.of_N x /\
  (x <> 0%N -> pretty_N_char x <> zero_char).
Proof.
  intros Hx. assert (x = 0 \/ x = 1 \/ x = 2 \/ x = 3 \/ x = 4 \/ x = 5 \/ x = 6 \/ x = 7 \/ x = 8 \/ x = 9)%N as C by lia.
  repeat (destruct C as [->|C]; [by vm_compute|]). subst. by vm_compute.
Qed.

Lemma pretty_go_numeral x s : all_digits s = true ->
  all_digits (pretty_N_go x s) = true /\
  value (pretty_N_go x s) = Z.of_N x * 10 ^ Z.of_nat (String.length s) + value s /\
  ((0 < x)%N -> exists c s', pretty_N_go x s = String c s' /\ c <> zero_char).
Proof.
  revert s. induction (N.lt_wf_0 x) as [x _ IH]; intros s Hs.
  destruct (decide (0 < x)%N) as [P|P].
  - rewrite pretty_N_go_step by done.
    destruct (pretty_digit (x mod 10) ltac:(by apply N.mod_lt)) as (D & V & NZ).
    destruct (IH (x / 10)%N ltac:(by apply N.div_lt) (String (pretty_N_char (x mod 10)) s)) as (H1 & H2 & H3).
    { simpl. by rewrite D, Hs. }
    split; [done|]. split.
    + rewrite H2. change (value (String ?c s)) with (value_onto (0 * 10 + digit c) s).
      rewrite value_onto_acc, V. cbn [String.length]. rewrite Nat2Z.inj_succ, Z.pow_succ_r by lia.
      pose proof (N.div_mod x 10 ltac:(done)) as E. apply (f_equal Z.of_N) in E.
      rewrite N2Z.inj_add, N2Z.inj_mul in E. nia.
    + intros _. destruct (decide (0 < x / 10)%N) as [Q|Q]; [by apply H3|].
      assert (E0 : (x / 10 = 0)%N) by (apply N.le_0_r, N.nlt_ge; exact Q). rewrite E0, pretty_N_go_0. eexists _, _. split; [done|]. apply NZ.
      intros Z0. pose proof (N.div_mod x 10 ltac:(done)) as E. rewrite E0, Z0 in E. lia.
  - replace x with 0%N by lia. rewrite pretty_N_go_0. split; [done|]. split; [lia|done].
Qed.

Lemma fmt_int_numeral n : 0 <= n -> canonical (fmt_int n) /\ value (fmt_int n) = n.
Proof.
  intros Hn. destruct n as [|p|p]; [by vm_compute; split; [split; [|left]|]| |lia].
  unfold fmt_int, pretty, pretty_Z, pretty, pretty_positive, pretty, pretty_N. simpl.
  destruct (pretty_go_numeral (N.pos p) "" eq_refl) as (H1 & H2 & H3).
  destruct (H3 ltac:(lia)) as (c & s' & E & Hc). split.
  - split; [unfold numeral; rewrite H1; by rewrite E|]. right. eauto.
  - rewrite H2. change (value "") with 0. cbn [String.length]. rewrite Z.pow_0_r. simpl. lia.
Qed.

Lemma canon_canonical s : canonical s -> canon s = s.
Proof.
  intros [_ [->|(c & s' & -> & Hc)]]; [done|]. unfold canon. simpl.
  destruct (Ascii.eqb_spec c zero_char); [done|]. done.
Qed.

Lemma fmt_int_length s : 0 <= s < 10 ^ 9 -> (String.length (fmt_int s) <=? 9)%nat = true.
Proof.
  intros [H1 H2]. destruct (fmt_int_numeral s H1) as [C V]. apply Nat.leb_le.
  destruct (Nat.le_gt_cases (String.length (fmt_int s)) 9) as [|L]; [done|].
  pose proof (canonical_lower _ C ltac:(lia)) as B. rewrite V in B.
  assert (10 ^ 9 <= 10 ^ (Z.of_nat (String.length (fmt_int s)) - 1)) by (apply Z.pow_le_mono_r; lia). lia.
Qed.

(** ** The abstract fence: a pair of numbers *)
Module Fence.

(** The last lock holder's token and the freezes that stole the fence since. *)
Definition state : Type := Z * Z.

(** [None]: refused. *)
Definition take (cur : state) (token : option Z) : option state :=
  let '(l, s) := cur in
  match token with
  | None => Some (l, s + 1)
  | Some t => if (t <? l) || ((t =? l) && (0 <? s)) then None else Some (t, 0)
  end.

(** How the owner value is written. *)
Definition print (st : state) : string :=
  if st.2 =? 0 then fmt_int st.1 else fmt_int st.1 +:+ ":" +:+ fmt_int st.2.

(** The states the tokens of the sequence and fewer than 10^9 steals lead to. *)
Definition ok (st : state) : Prop := 0 <= st.1 /\ 0 <= st.2 < 10 ^ 9.

(** Lexicographic order. *)
Definition le (a b : state) : Prop := a.1 < b.1 \/ (a.1 = b.1 /\ a.2 <= b.2).

End Fence.

Lemma split_colon_app a b : colon_free a = true -> split_colon (a +:+ ":" +:+ b) = Some (a, b).
Proof.
  induction a as [|c a IH]; intros H; [done|]. simpl in H. apply andb_true_iff in H as [Hc Ha].
  rewrite string_app_cons. simpl. destruct (Ascii.eqb c _); [done|]. by rewrite (IH Ha).
Qed.

Lemma split_colon_free a : colon_free a = true -> split_colon a = None.
Proof.
  induction a as [|c a IH]; intros H; [done|]. simpl in *. apply andb_true_iff in H as [Hc Ha].
  destruct (Ascii.eqb c _); [done|]. by rewrite (IH Ha).
Qed.

Lemma parse_print st : Fence.ok st -> parse_owner (Some (Fence.print st)) = (fmt_int st.1, st.2).
Proof.
  destruct st as [l s]. intros [Hl Hs]. simpl in *. unfold Fence.print, parse_owner. simpl.
  destruct (fmt_int_numeral l Hl) as [Cl Vl]. pose proof (canon_canonical _ Cl) as El. destruct Cl as [Nl _].
  destruct (Z.eqb_spec s 0) as [->|Ns].
  - rewrite split_colon_free by apply fmt_int_colon_free. by rewrite Nl, El.
  - rewrite split_colon_app by apply fmt_int_colon_free.
    destruct (fmt_int_numeral s ltac:(lia)) as [[Nss _] Vs].
    rewrite Nl, Nss, (fmt_int_length s) by lia. simpl. by rewrite El, Vs.
Qed.

Lemma print_inj a b : Fence.ok a -> Fence.ok b -> Fence.print a = Fence.print b -> a = b.
Proof.
  intros Oa Ob E. pose proof (parse_print a Oa) as Pa. rewrite E, (parse_print b Ob) in Pa.
  destruct a, b. injection Pa as P1 P2. simpl in *. apply fmt_int_inj in P1. by subst.
Qed.

Lemma fmt_int_nonempty n : fmt_int n <> "".
Proof.
  destruct n as [|p|p]; [done| |done]. destruct (fmt_int_numeral (Zpos p) ltac:(lia)) as [[N _] _].
  intros E. by rewrite E in N.
Qed.

(** The token of a [fence_op]'s claim, as the script's argument. *)
Definition token_arg (t : option Z) : string := match t with Some t => fmt_int t | None => "" end.

Lemma claim_from cur l s t :
  parse_owner cur = (fmt_int l, s) -> 0 <= l -> 0 <= s -> (forall n, t = Some n -> 0 <= n) ->
  claim cur (token_arg t) = Fence.print <$> Fence.take (l, s) t.
Proof.
  intros P Hl Hs Ht. unfold claim. rewrite P. destruct t as [t|]; simpl.
  - destruct (bool_decide_reflect (fmt_int t = "")) as [E|_]; [by apply fmt_int_nonempty in E|].
    destruct (fmt_int_numeral t (Ht t eq_refl)) as [Ct Vt], (fmt_int_numeral l Hl) as [Cl Vl].
    rewrite (canon_canonical _ Ct), (older_value _ _ Ct Cl), Vt, Vl. destruct Ct as [-> _].
    rewrite (bool_decide_ext _ (t = l)) by (split; [apply fmt_int_inj|by intros ->]).
    destruct (bool_decide_reflect (t = l)) as [->|N].
    + rewrite Z.eqb_refl. by destruct ((l <? l) || (true && (0 <? s))).
    + rewrite (proj2 (Z.eqb_neq t l)) by done. by destruct ((t <? l) || (false && (0 <? s))).
  - unfold Fence.print. simpl. rewrite (proj2 (Z.eqb_neq (s + 1) 0)) by lia. done.
Qed.

(** C38: the claim script implements the order on fence states.  On every owner value a claim or a steal can
    have written, and on a missing key, the digit-string script answers exactly as the abstract claim on
    the pair of numbers: a lock holder wins iff its token is newer than the last one, or is the last one
    with no steal since; a steal always wins and keeps the last token. *)
Theorem claim_refines_order cur st t :
  Fence.ok st -> (forall n, t = Some n -> 0 <= n) ->
  cur = Some (Fence.print st) \/ (cur = None /\ st = (0, 0)) ->
  claim cur (token_arg t) = Fence.print <$> Fence.take st t.
Proof.
  destruct st as [l s]. intros O Ht [->|[-> E]].
  - apply (claim_from _ l s t); [by apply (parse_print (l, s))|apply O|apply O|done].
  - injection E as -> ->. by apply (claim_from None 0 0 t).
Qed.

Lemma claim_refines_order_witness :
  claim (Some "7:2") "7" = None /\ claim (Some "7:2") "10" = Some "10" /\ claim None "" = Some "0:1".
Proof.
  split; [|split].
  - apply (claim_refines_order (Some "7:2") (7, 2) (Some 7)); [by vm_compute|intros n [= <-]; lia|by left].
  - apply (claim_refines_order (Some "7:2") (7, 2) (Some 10)); [by vm_compute|intros n [= <-]; lia|by left].
  - apply (claim_refines_order None (0, 0) None); [by vm_compute|done|by right].
Defined.

(** ** Overtaken writers *)

(** The owner key holds a state at least [st], with at most [n] steals more. *)
Definition owned_above (st : Fence.state) (n : Z) (k : AgentKeys) : Prop :=
  exists st', owner k = Some (Fence.print st') /\ Fence.ok st' /\ Fence.le st st' /\ st'.2 <= st.2 + n.

(** Tokens come from a sequence. *)
Definition op_ok (op : fence_op) : Prop := match op with Claim t => 0 <= t | _ => True end.

Lemma fenced_owner t f c d k : owner (fenced_control t f c d k).1 = owner k.
Proof. unfold fenced_control. destruct (owner k) eqn:E; [|done]. destruct (negb _); [done|]. done. Qed.

Lemma warm_owner t f c k : owner (fenced_warm t f c k).1 = owner k.
Proof.
  unfold fenced_warm. destruct (owner k) eqn:E; [|done]. destruct (negb _); [done|]. by destruct f, c.
Qed.

Lemma fence_le_refl st : Fence.le st st.
Proof. right. lia. Qed.

Lemma fence_le_trans a b c : Fence.le a b -> Fence.le b c -> Fence.le a c.
Proof. unfold Fence.le. lia. Qed.

Lemma fence_step_above op st n k :
  op_ok op -> 0 <= st.2 -> st.2 + n + 1 < 10 ^ 9 -> 0 <= n -> owned_above st n k ->
  owned_above st (n + 1) (fence_step op k).
Proof.
  intros Ho Hs Hn Hn0 (st' & Ow & Ok & Le & B).
  assert (Same : forall k', owner k' = owner k -> owned_above st (n + 1) k').
  { intros k' E. exists st'. rewrite E. repeat split; try done; try apply Ok. lia. }
  assert (Cl : forall t, (forall x, t = Some x -> 0 <= x) ->
    owned_above st (n + 1) (claim_step (token_arg t) k).1).
  { intros t Ht. unfold claim_step. rewrite Ow.
    rewrite (claim_from _ st'.1 st'.2 t); [|by apply parse_print|apply Ok|apply Ok|done].
    destruct st' as [l s]. destruct Ok as [Hl Hs']. simpl in *.
    destruct t as [t|]; simpl.
    - specialize (Ht t eq_refl). destruct ((t <? l) || ((t =? l) && (0 <? s))) eqn:R; simpl; [by apply Same|].
      apply orb_false_iff in R as [R1 R2]. exists (t, 0). split; [done|]. split; [split; simpl; lia|]. split; [|simpl; lia].
      apply (fence_le_trans _ (l, s)); [done|]. unfold Fence.le. simpl. apply andb_false_iff in R2 as [R2|R2]; lia.
    - exists (l, s + 1). split; [done|]. split; [split; simpl; lia|]. split; [|simpl; lia].
      apply (fence_le_trans _ (l, s)); [done|]. unfold Fence.le. simpl. lia. }
  destruct op as [t| |t f c d|t f c]; simpl.
  - apply (Cl (Some t)). by intros x [= <-].
  - by apply (Cl None).
  - apply Same, fenced_owner.
  - apply Same, warm_owner.
Qed.

Lemma fence_run_above ops st n k :
  Forall op_ok ops -> 0 <= st.2 -> st.2 + n + Z.of_nat (length ops) < 10 ^ 9 -> 0 <= n -> owned_above st n k ->
  owned_above st (n + Z.of_nat (length ops)) (fence_run ops k).
Proof.
  intros F. revert n k. induction F as [|op ops Ho F IH]; intros n k Hs Hn Hn0 O; simpl in *.
  - rewrite Z.add_0_r. exact O.
  - replace (n + Z.of_nat (S (length ops))) with ((n + 1) + Z.of_nat (length ops)) by lia.
    apply IH; [lia|lia|lia|]. apply fence_step_above; [done|lia|lia|lia|done].
Qed.

(** The owner's token is not [t]'s once the state is beyond it. *)
Lemma owned_above_not t st n k :
  0 <= t -> Fence.le (t, 1) st -> owned_above st n k -> exists o, owner k = Some o /\ o <> fmt_int t.
Proof.
  intros Ht Hlt (st' & -> & Ok & Le & _). eexists. split; [done|]. intros E.
  assert (st' = (t, 0)) as ->.
  { apply print_inj; [done|split; simpl; lia|]. rewrite E. done. }
  unfold Fence.le in *. simpl in *. lia.
Qed.

(** an overtaken writer never writes.  Once another writer has claimed an agent with a newer token, or a
    freeze has stolen the fence from this one, then whatever claims, steals and writes reach the store
    afterwards (while the key lives), the old token's claim is refused and its late writes, whole control
    states and boot warms alike, change nothing and report the fence as lost. *)
Theorem overtaken_writer_fenced t st k ops f c d :
  0 <= t -> Fence.ok st -> owner k = Some (Fence.print st) ->
  (t < st.1 \/ (t = st.1 /\ 0 < st.2)) ->
  Forall op_ok ops -> st.2 + Z.of_nat (length ops) < 10 ^ 9 ->
  let k' := fence_run ops k in
  fenced_control (fmt_int t) f c d k' = (k', FENCE_LOST) /\
  fenced_warm (fmt_int t) f c k' = (k', FENCE_LOST) /\
  claim_step (fmt_int t) k' = (k', None).
Proof.
  intros Ht Ok Ow Over F B k'.
  assert (O : owned_above st (Z.of_nat (length ops)) k').
  { apply (fence_run_above ops st 0 k); [done|apply Ok|lia|lia|]. exists st. repeat split; try done; try apply Ok; try lia.
    apply fence_le_refl. }
  assert (Lt : Fence.le (t, 1) st) by (unfold Fence.le; simpl; lia).
  destruct (owned_above_not t st _ k' Ht Lt O) as (o & Eo & No).
  unfold fenced_control, fenced_warm, claim_step. rewrite !Eo. rewrite bool_decide_false by done. simpl.
  split; [done|]. split; [done|]. destruct O as (st' & E' & Ok' & Le' & _).
  rewrite <- Eo, E'. change (fmt_int t) with (token_arg (Some t)).
  rewrite (claim_from _ st'.1 st'.2); [|by apply parse_print|apply Ok'|apply Ok'|by intros n [= <-]].
  destruct st' as [l s]. unfold Fence.take. unfold Fence.le in Le', Lt. simpl in *.
  assert ((t <? l) || ((t =? l) && (0 <? s)) = true) as ->; [|done].
  destruct (Z.ltb_spec t l); [done|]. simpl. apply andb_true_iff. split; [apply Z.eqb_eq|apply Z.ltb_lt]; lia.
Qed.

Lemma overtaken_writer_fenced_witness :
  let k' := fence_run [Claim 9; Steal] (mkKeys (Some "8") true None None) in
  fenced_control "7" false None None k' = (k', FENCE_LOST) /\
  fenced_warm "7" false None k' = (k', FENCE_LOST) /\ claim_step "7" k' = (k', None).
Proof.
  apply (overtaken_writer_fenced 7 (8, 0) (mkKeys (Some "8") true None None) [Claim 9; Steal] false None None);
    [lia|by vm_compute|reflexivity|left; simpl; lia|by repeat constructor|simpl; lia].
Defined.

(** freezes cannot starve the writers after them.  However often the fence was stolen, a later lock
    holder's claim succeeds and its write then takes effect as a whole: flag, cap and display together. *)
Theorem newer_writer_applies t st k f c d :
  Fence.ok st -> owner k = Some (Fence.print st) -> st.1 < t ->
  let k1 := (claim_step (fmt_int t) k).1 in
  claim_step (fmt_int t) k = (k1, Some (fmt_int t)) /\
  fenced_control (fmt_int t) f c (Some d) k1 = (mkKeys (Some (fmt_int t)) f c (Some d), FENCE_APPLIED).
Proof.
  intros Ok Ow Lt k1.
  assert (C : claim (owner k) (fmt_int t) = Some (fmt_int t)).
  { rewrite Ow. change (fmt_int t) with (token_arg (Some t)) at 1. destruct Ok as [O1 O2].
    rewrite (claim_from _ st.1 st.2); [|by apply parse_print|lia|lia|intros n [= <-]; lia].
    destruct st as [l s]. simpl in *. rewrite (proj2 (Z.ltb_ge t l)) by lia.
    rewrite (proj2 (Z.eqb_neq t l)) by lia. done. }
  subst k1. unfold claim_step. rewrite C. simpl. split; [done|].
  unfold fenced_control. simpl. by rewrite bool_decide_true.
Qed.

Lemma newer_writer_applies_witness :
  let k := mkKeys (Some "7:3") true None None in
  let k1 := (claim_step "8" k).1 in
  claim_step "8" k = (k1, Some "8") /\
  fenced_control "8" false (Some (1 # 2)%Q) (Some "x") k1 = (mkKeys (Some "8") false (Some (1 # 2)%Q) (Some "x"), FENCE_APPLIED).
Proof.
  apply (newer_writer_applies 8 (7, 3) (mkKeys (Some "7:3") true None None) false (Some (1 # 2)%Q) "x");
    [by vm_compute|reflexivity|simpl; lia].
Defined.
