(* ===== verification/AdminTrust.v ===== *)
(** * Admin trust changes: freeze, cap and clear ([norviq/api/routers/agents.py])

    [PUT /agents/<id>/trust] keeps two copies of an agent's control state, the registry row in PostgreSQL
    and the keys in Redis that the engine enforces, and promises which of them holds what after every
    failure.  Modelled: [update_trust], [_tighten], [_loosen], [_fenced_write], [_is_tightening],
    [_persist_trust_control], [_still_connected], and the boot warm of [cache.py].

    A store call or a database statement may fail before it takes effect, or after, when only its answer
    is lost.  A statement that failed leaves its connection unusable: PostgreSQL refuses the rest of an
    aborted transaction, and a statement cut off by its time bound keeps the connection busy. *)

From S2P Require Import Prelude Effects OwnerFence.

(** How one external call goes. *)
Inductive outcome : Type :=
  | Answered            (* performed, and its answer arrived *)
  | NotSent             (* failed before it took effect *)
  | AnswerLost          (* performed, but the caller sees a failure *)
  | KeyGone.            (* store only: the owner key expired or was lost just before; then performed *)

(** A control state: the freeze flag and the cap. *)
Definition control : Type := bool * option Q.

Record Admin := mkAdmin {
  keys : AgentKeys;                      (* the agent's Redis keys *)
  registry : option control;             (* the committed row, if any *)
  pending : option (option control);     (* the row as the open transaction would commit it *)
  seq : Z;                               (* agent_trust_fence_seq *)
  alive : bool;                          (* the lock connection can still be used *)
  store_calls : list outcome;
  db_calls : list outcome;
}.
Definition set_keys (k : AgentKeys) (s : Admin) : Admin :=
  mkAdmin k (registry s) (pending s) (seq s) (alive s) (store_calls s) (db_calls s).
Definition set_registry (r : option control) (s : Admin) : Admin :=
  mkAdmin (keys s) r (pending s) (seq s) (alive s) (store_calls s) (db_calls s).
Definition set_pending (p : option (option control)) (s : Admin) : Admin :=
  mkAdmin (keys s) (registry s) p (seq s) (alive s) (store_calls s) (db_calls s).
Definition set_seq (n : Z) (s : Admin) : Admin :=
  mkAdmin (keys s) (registry s) (pending s) n (alive s) (store_calls s) (db_calls s).
Definition set_alive (b : bool) (s : Admin) : Admin :=
  mkAdmin (keys s) (registry s) (pending s) (seq s) b (store_calls s) (db_calls s).
Definition set_store_calls (l : list outcome) (s : Admin) : Admin :=
  mkAdmin (keys s) (registry s) (pending s) (seq s) (alive s) l (db_calls s).
Definition set_db_calls (l : list outcome) (s : Admin) : Admin :=
  mkAdmin (keys s) (registry s) (pending s) (seq s) (alive s) (store_calls s) l.

Notation A := (M Admin).

(** [_store]: one bounded store call. *)
Definition store {X} (f : AgentKeys -> AgentKeys * X) : A X := fun s =>
  match store_calls s with
  | [] => (set_keys (f (keys s)).1 s, inr (f (keys s)).2)
  | o :: os =>
      let s := set_store_calls os s in
      match o with
      | Answered => (set_keys (f (keys s)).1 s, inr (f (keys s)).2)
      | NotSent => (s, inl ETimeout)
      | AnswerLost => (set_keys (f (keys s)).1 s, inl ETimeout)
      | KeyGone => let r := f (set_owner None (keys s)) in (set_keys r.1 s, inr r.2)
      end
  end.

(** [_db]: one bounded statement on the lock connection. *)
Definition db {X} (f : Admin -> Admin * X) : A X := fun s =>
  if negb (alive s) then (s, inl EOther)
  else match db_calls s with
  | [] | Answered :: _ | KeyGone :: _ =>
      let s := set_db_calls (tail (db_calls s)) s in ((f s).1, inr (f s).2)
  | NotSent :: os => (set_alive false (set_db_calls os s), inl ETimeout)
  | AnswerLost :: os => (set_alive false (f (set_db_calls os s)).1, inl ETimeout)
  end.

(** ** The handlers *)

(** [_is_tightening]. *)
Definition is_tightening (prior new : control) : bool :=
  if new.1 then true
  else if prior.1 then false
  else match new.2, prior.2 with
       | None, None => true
       | None, Some _ => false
       | Some _, None => true
       | Some n, Some p => Qle_bool n p
       end.

(** [_registry_control], with the default of its caller. *)
Definition registry_control : A control := db (fun s => (s, default (false, None) (registry s))).

(** [_fence_token]. *)
Definition fence_token : A Z := db (fun s => (set_seq (seq s + 1) s, seq s + 1)).

(** [_persist_trust_control]: a freeze or a cap is upserted, a clear only updates a row that exists. *)
Definition persist_trust_control (new : control) : A unit := db (fun s =>
  (set_pending (Some (if new.1 || match new.2 with Some _ => true | None => false end then Some new
                      else match registry s with Some _ => Some (false, None) | None => None end)) s, tt)).

(** [conn.commit()]. *)
Definition commit : A unit := db (fun s =>
  (match pending s with Some r => set_pending None (set_registry r s) | None => s end, tt)).

(** [_still_connected]. *)
Definition still_connected : A bool :=
  try_with (db (fun s => (s, tt));; mret true) (fun _ => mret false).

(** [claim_admin_trust_owner] and [apply_admin_trust_control_if_owner], as store calls. *)
Definition claim_owner (token : option Z) : A (option string) := store (claim_step (token_arg token)).
Definition apply_control (token : string) (new : control) (display : string) : A Z :=
  store (fenced_control token new.1 new.2 (Some display)).

(** [_fenced_write]: the outcome, [None] after an exception.  [locked] tells whether a connection holding
    the agent's lock was passed. *)
Fixpoint fenced_write (attempts : nat) (locked : bool) (token : option Z) (new : control) (display : string)
    (last : option Z) : A (option Z) :=
  match attempts with
  | O => mret last
  | S attempts' =>
      up ← (if locked then still_connected else mret true);
      if negb up then mret last
      else
        r ← try_with
              (claimed ← claim_owner token;
               match claimed with
               | None => mret (inl (Some FENCE_LOST))
               | Some t => o ← apply_control t new display; mret (inr (Some o))
               end)
              (fun _ => mret (inr None));
        match r with
        | inl final => mret final
        | inr o =>
            if bool_decide (o = Some FENCE_APPLIED) then mret o
            else if bool_decide (o = Some FENCE_LOST) then mret o
            else fenced_write attempts' locked token new display o
        end
  end.

(** What the caller is told: 200, or the text of the 503. *)
Inductive Answer : Type :=
  | Ok200
  | FreezeLiveNotPersisted
  | NotApplied
  | LiveMaybeNotPersisted
  | NotConfirmedRefused
  | NotConfirmed
  | PersistedRefused
  | PersistedNotLive
  | LoosenNotApplied
  | LoosenRefused
  | LoosenNotConfirmed
  | LoosenPersistedRefused
  | LoosenPersistedUnconfirmed.

#[global] Instance answer_eq_dec : EqDecision Answer.
Proof. solve_decision. Defined.

(** The end of a handler: an answer, or [_AdminDbUnavailable]. *)
Definition ended : Type := option Answer.

(** [_db(persist)] and [_db(commit)] in one [try]: whether they succeeded. *)
Definition persisted (new : control) : A bool :=
  try_with (persist_trust_control new;; commit;; mret true) (fun _ => mret false).

(** [_tighten]: the store first, then the registry. *)
Definition tighten (new : control) (display : string) : A ended :=
  tok ← try_with (t ← fence_token; mret (Some t)) (fun _ => mret None);
  match tok with
  | None => mret None
  | Some token =>
      outcome ← fenced_write 2 true (Some token) new display None;
      let live := bool_decide (outcome = Some FENCE_APPLIED) in
      let refused := bool_decide (outcome = Some FENCE_LOST) in
      done_ ← persisted new;
      if negb done_ then
        live' ← (if new.1 && negb live then
                   stolen ← fenced_write 2 false None (true, None) display None;
                   mret (bool_decide (stolen = Some FENCE_APPLIED))
                 else mret live);
        mret (Some (if live' : bool then LiveMaybeNotPersisted
                    else if refused then NotConfirmedRefused else NotConfirmed))
      else if negb live then mret (Some (if refused then PersistedRefused else PersistedNotLive))
      else mret (Some Ok200)
  end.

(** [_loosen]: the registry first, the store only after its commit. *)
Definition loosen (new : control) (display : string) : A ended :=
  tok ← try_with (t ← fence_token; mret (Some t)) (fun _ => mret None);
  match tok with
  | None => mret (Some LoosenNotApplied)
  | Some token =>
      c ← try_with (c ← claim_owner (Some token); mret (Some c)) (fun _ => mret None);
      match c with
      | None => mret (Some LoosenNotApplied)
      | Some None => mret (Some LoosenRefused)
      | Some (Some _) =>
          done_ ← persisted new;
          if negb done_ then mret (Some LoosenNotConfirmed)
          else
            o ← try_with (o ← apply_control (fmt_int token) new display; mret (Some o)) (fun _ => mret None);
            up ← (if bool_decide (o = Some FENCE_APPLIED) || bool_decide (o = Some FENCE_LOST) then mret false
                  else still_connected);
            o ← (if up : bool then fenced_write 1 true (Some token) new display None else mret o);
            mret (Some (if bool_decide (o = Some FENCE_APPLIED) then Ok200
                        else if bool_decide (o = Some FENCE_LOST) then LoosenPersistedRefused
                        else LoosenPersistedUnconfirmed))
      end
  end.

(** What became of the agent's lock. *)
Inductive lock_result : Type := Held | Contended | Unavailable.

(** The state a score asks for. *)
Definition requested (score : Q) : control :=
  (Qeq_bool score 0, if Qltb 0 score && Qltb score 1 then Some score else None).

(** [update_trust], for a score its schema accepts. *)
Definition update_trust (lock : lock_result) (score : Q) (display : string) : A Answer :=
  let new := requested score in
  r ← match lock with
      | Held =>
          prior ← try_with (p ← registry_control; mret (Some p)) (fun _ => mret None);
          match prior with
          | None => mret None
          | Some prior => if is_tightening prior new then tighten new display else loosen new display
          end
      | _ => mret None
      end;
  match r with
  | Some a => mret a
  | None =>
      live ← (if new.1 then
                o ← fenced_write 2 false None (true, None) display None;
                mret (bool_decide (o = Some FENCE_APPLIED))
              else mret false);
      mret (if live : bool then FreezeLiveNotPersisted else NotApplied)
  end.

(** ** Strictness *)

(** What the engine enforces, and what the registry holds (no row: no control). *)
Definition ctl (k : AgentKeys) : control := (k_frozen k, k_cap k).
Definition row (s : Admin) : control := default (false, None) (registry s).

(** [a] is at least as strict as [b]. *)
Definition strict (a b : control) : Prop := is_tightening b a = true.

Lemma strict_refl a : strict a a.
Proof. destruct a as [[] [c|]]; try done. unfold strict, is_tightening. simpl. apply Qle_bool_iff. lra. Qed.

Lemma strict_frozen c b : strict (true, c) b.
Proof. done. Qed.

Lemma strict_trans a b c : strict a b -> strict b c -> strict a c.
Proof.
  destruct a as [[] [a|]], b as [[] [b|]], c as [[] [c|]]; unfold strict, is_tightening; simpl; try done.
  rewrite !Qle_bool_iff. lra.
Qed.

Lemma strict_total a b : is_tightening b a = false -> strict b a.
Proof.
  destruct a as [[] [a|]], b as [[] [b|]]; unfold strict, is_tightening; simpl; try done.
  intros H. apply Qle_bool_iff. apply Qle_bool_false in H. lra.
Qed.

(** ** One rule per call *)

(** The database side is unchanged. *)
Record db_same (s s' : Admin) : Prop := {
  ds_registry : registry s' = registry s;
  ds_pending : pending s' = pending s;
  ds_seq : seq s' = seq s;
}.

#[local] Instance db_same_preorder : PreOrder db_same.
Proof. split; [by intros s|]. intros a b c [] []. constructor; congruence. Qed.

Lemma db_same_row s s' : db_same s s' -> row s' = row s.
Proof. intros D. unfold row. by rewrite (ds_registry _ _ D). Qed.

Lemma wp_store {X} (f : AgentKeys -> AgentKeys * X) (Q : X -> Admin -> Prop) (E : exc -> Admin -> Prop) s :
  (forall k s', (k = keys s \/ k = set_owner None (keys s)) -> db_same s s' -> keys s' = (f k).1 -> Q (f k).2 s') ->
  (forall e s', db_same s s' -> (keys s' = keys s \/ keys s' = (f (keys s)).1) -> E e s') ->
  wp (store f) Q E s.
Proof.
  intros HQ HE. unfold wp, store. destruct (store_calls s) as [|[] os]; simpl.
  - apply (HQ (keys s)); auto. done.
  - apply (HQ (keys s)); auto. done.
  - apply HE; auto. done.
  - apply HE; auto. done.
  - apply (HQ (set_owner None (keys s))); auto. done.
Qed.

(** A claim leaves the controls alone. *)
Lemma claim_step_ctl t k : ctl (claim_step t k).1 = ctl k.
Proof. unfold claim_step. by destruct (claim (owner k) t). Qed.

(** A fenced write sets exactly the control asked for, or nothing. *)
Lemma fenced_control_ctl t new d k :
  let r := fenced_control t new.1 new.2 d k in
  (r.2 = FENCE_APPLIED -> ctl r.1 = new) /\ (r.2 <> FENCE_APPLIED -> r.1 = k).
Proof.
  unfold fenced_control. destruct (owner k) as [o|]; [|by split]. destruct (negb _); [by split|].
  split; [by destruct new|]. by intros.
Qed.

Lemma wp_still_connected s (Q : bool -> Admin -> Prop) E :
  (forall b s', db_same s s' -> keys s' = keys s -> (b = false -> alive s' = false) -> Q b s') ->
  wp still_connected Q E s.
Proof.
  intros HQ. unfold still_connected. apply wp_try, wp_bind. unfold wp at 1, db.
  destruct (alive s) eqn:Al; simpl; [|apply wp_ret, HQ; [done|done|by rewrite Al]].
  destruct (db_calls s) as [|[] os]; simpl; apply wp_ret, HQ; done.
Qed.

(** The control after a store call that may or may not have taken effect. *)
Definition moved (new : control) (k k' : AgentKeys) : Prop := ctl k' = ctl k \/ ctl k' = new.

Lemma moved_trans new a b c : moved new a b -> moved new b c -> moved new a c.
Proof. unfold moved. intros [->| ->] [->| ->]; auto. Qed.

Lemma wp_claim t s (Q : option string -> Admin -> Prop) (E : exc -> Admin -> Prop) :
  (forall c s', db_same s s' -> ctl (keys s') = ctl (keys s) -> Q c s') ->
  (forall e s', db_same s s' -> ctl (keys s') = ctl (keys s) -> E e s') ->
  wp (claim_owner t) Q E s.
Proof.
  intros HQ HE. apply wp_store.
  - intros k s' Hk D K. apply HQ; [done|]. rewrite K, claim_step_ctl. by destruct Hk as [->| ->].
  - intros e s' D [K|K]; apply HE; try done; by rewrite K, ?claim_step_ctl.
Qed.

Lemma wp_apply t new d s (Q : Z -> Admin -> Prop) (E : exc -> Admin -> Prop) :
  (forall o s', db_same s s' -> moved new (keys s) (keys s') -> (o = FENCE_APPLIED -> ctl (keys s') = new) -> Q o s') ->
  (forall e s', db_same s s' -> moved new (keys s) (keys s') -> E e s') ->
  wp (apply_control t new d) Q E s.
Proof.
  intros HQ HE. apply wp_store.
  - intros k s' Hk D K. destruct (fenced_control_ctl t new (Some d) k) as [H1 H2].
    assert (Ck : ctl k = ctl (keys s)) by (by destruct Hk as [->| ->]).
    apply HQ; [done| |by rewrite K]. unfold moved. rewrite K.
    destruct (Z.eq_dec (fenced_control t new.1 new.2 (Some d) k).2 FENCE_APPLIED) as [Ap|Ap].
    + right. by apply H1.
    + left. by rewrite (H2 Ap), Ck.
  - intros e s' D K. apply HE; [done|]. unfold moved. destruct K as [->| ->]; [by left|].
    destruct (fenced_control_ctl t new (Some d) (keys s)) as [H1 H2].
    destruct (Z.eq_dec (fenced_control t new.1 new.2 (Some d) (keys s)).2 FENCE_APPLIED) as [Ap|Ap].
    + right. by apply H1.
    + left. by rewrite (H2 Ap).
Qed.

(** The write loop never raises, writes only the state asked for, and says "applied" only when it is. *)
Lemma wp_fenced_write n locked token new d last s (Q : option Z -> Admin -> Prop) E :
  last <> Some FENCE_APPLIED ->
  (forall o s', db_same s s' -> moved new (keys s) (keys s') ->
     (o = Some FENCE_APPLIED -> ctl (keys s') = new) -> Q o s') ->
  wp (fenced_write n locked token new d last) Q E s.
Proof.
  revert last s Q E. induction n as [|n IH]; intros last s Q E HL HQ; cbn [fenced_write].
  { apply wp_ret, HQ; [done|by left|done]. }
  apply wp_bind.
  assert (Go : forall s1, db_same s s1 -> keys s1 = keys s ->
    wp (r ← try_with (claimed ← claim_owner token;
          match claimed with
          | None => mret (inl (Some FENCE_LOST))
          | Some t => o ← apply_control t new d; mret (inr (Some o))
          end) (fun _ => mret (inr None));
        match r with
        | inl final => mret final
        | inr o => if bool_decide (o = Some FENCE_APPLIED) then mret o
                   else if bool_decide (o = Some FENCE_LOST) then mret o
                   else fenced_write n locked token new d o
        end) Q E s1).
  { intros s1 D1 K1. apply wp_bind, wp_try.
    assert (Again : forall o s2, db_same s s2 -> moved new (keys s) (keys s2) ->
      (o = Some FENCE_APPLIED -> ctl (keys s2) = new) ->
      wp (if bool_decide (o = Some FENCE_APPLIED) then mret o
          else if bool_decide (o = Some FENCE_LOST) then mret o
          else fenced_write n locked token new d o) Q E s2).
    { intros o s2 D2 M2 A2. case_bool_decide; [by apply wp_ret, HQ|]. case_bool_decide; [by apply wp_ret, HQ|].
      apply IH; [done|]. intros o' s3 D3 M3 A3. apply HQ; [by transitivity s2|by apply (moved_trans _ _ (keys s2))|done]. }
    apply wp_bind, wp_claim.
    - intros [t|] s2 D2 C2; [|apply wp_ret, wp_ret, HQ; [by transitivity s1|left; by rewrite C2, K1|done]].
      apply wp_bind, wp_apply.
      + intros o s3 D3 M3 A3. apply wp_ret, Again.
        * transitivity s1; [done|]. by transitivity s2.
        * apply (moved_trans _ _ (keys s2)); [left; by rewrite C2, K1|done].
        * intros [= ->]. auto.
      + intros e s3 D3 M3. apply wp_ret, Again; [|  |done].
        * transitivity s1; [done|]. by transitivity s2.
        * apply (moved_trans _ _ (keys s2)); [left; by rewrite C2, K1|done].
    - intros e s2 D2 C2. apply wp_ret, Again; [by transitivity s1|left; by rewrite C2, K1|done]. }
  destruct locked; [|by apply wp_ret, Go]. apply wp_still_connected. intros [] s1 D1 K1 _; simpl; [by apply Go|].
  apply wp_ret, HQ; [done|left; by rewrite K1|done].
Qed.

#[local] Arguments fenced_write : simpl never.

(** A database statement: its effect when it is answered, and when only its answer is lost. *)
Lemma wp_db {X} (f : Admin -> Admin * X) (Q : X -> Admin -> Prop) (E : exc -> Admin -> Prop) s :
  (forall l, Q (f (set_db_calls l s)).2 (f (set_db_calls l s)).1) ->
  (forall e l, E e (set_alive false (set_db_calls l s))) ->
  (forall e l, E e (set_alive false (f (set_db_calls l s)).1)) ->
  (alive s = false -> forall e, E e s) -> wp (db f) Q E s.
Proof.
  intros HQ H1 H2 H3. unfold wp, db. destruct (alive s) eqn:Al; simpl; [|by apply H3].
  destruct (db_calls s) as [|[] os]; simpl; auto.
Qed.

(** The registry and the keys after a save that may or may not have taken effect. *)
Lemma wp_persisted new s (Q : bool -> Admin -> Prop) E :
  (forall b s', keys s' = keys s -> (row s' = row s \/ row s' = new) -> (b = true -> row s' = new) -> Q b s') ->
  wp (persisted new) Q E s.
Proof.
  intros HQ. unfold persisted, persist_trust_control, commit.
  set (r' := if new.1 || match new.2 with Some _ => true | None => false end then Some new
             else match registry s with Some _ => Some (false, None) | None => None end).
  assert (R : default (false, None) r' = new).
  { unfold r'. destruct new as [[] [c|]]; simpl; try done. by destruct (registry s). }
  assert (Same : forall s1, keys s1 = keys s -> registry s1 = registry s -> Q false s1).
  { intros s1 K1 R1. apply HQ; [done| |done]. left. unfold row. by rewrite R1. }
  assert (New : forall b s1, keys s1 = keys s -> registry s1 = r' -> Q b s1).
  { intros b s1 K1 R1. assert (row s1 = new) by (unfold row; by rewrite R1). apply HQ; auto. }
  apply wp_try, wp_bind, wp_db.
  - intros l. apply wp_bind, wp_db.
    + intros l'. by apply wp_ret, New.
    + intros e l'. by apply wp_ret, Same.
    + intros e l'. by apply wp_ret, New.
    + intros Al e. by apply wp_ret, Same.
  - intros e l. by apply wp_ret, Same.
  - intros e l. by apply wp_ret, Same.
  - intros Al e. by apply wp_ret, Same.
Qed.

Lemma wp_fence_token s (Q : option Z -> Admin -> Prop) E :
  (forall t s', keys s' = keys s -> row s' = row s -> Q t s') ->
  wp (try_with (t ← fence_token; mret (Some t)) (fun _ => mret None)) Q E s.
Proof.
  intros HQ. unfold fence_token. apply wp_try, wp_bind, wp_db; intros; by apply wp_ret, HQ.
Qed.

Lemma wp_registry_control s (Q : option control -> Admin -> Prop) E :
  (forall p s', keys s' = keys s -> row s' = row s -> (forall c, p = Some c -> c = row s) -> Q p s') ->
  wp (try_with (p ← registry_control; mret (Some p)) (fun _ => mret None)) Q E s.
Proof.
  intros HQ. unfold registry_control. apply wp_try, wp_bind, wp_db; intros; apply wp_ret, HQ; try done.
  by intros c [= <-].
Qed.

(** ** What an answer means

    [told a s s']: the answer [a] given in state [s'] to a request for [new] that started in [s]. *)
Definition told (new : control) (s : Admin) (a : Answer) (s' : Admin) : Prop :=
  (a = Ok200 -> row s' = new /\ ctl (keys s') = new) /\
  (strict (ctl (keys s)) (row s) ->
   a ∈ [PersistedRefused; PersistedNotLive; NotConfirmedRefused; NotConfirmed] \/
   strict (ctl (keys s')) (row s')).

Lemma told_safe new s a s' :
  a <> Ok200 -> (strict (ctl (keys s)) (row s) -> strict (ctl (keys s')) (row s')) -> told new s a s'.
Proof. intros N S. split; [done|auto]. Qed.

Lemma told_excused new s a s' :
  a ∈ [PersistedRefused; PersistedNotLive; NotConfirmedRefused; NotConfirmed] -> told new s a s'.
Proof.
  intros In. split; [|auto]. intros ->. exfalso. apply (bool_decide_pack _) in In. by vm_compute in In.
Qed.

Lemma wp_tighten new d s (Q : ended -> Admin -> Prop) E :
  strict new (row s) ->
  (forall s', keys s' = keys s -> row s' = row s -> Q None s') ->
  (forall a s', told new s a s' -> Q (Some a) s') ->
  wp (tighten new d) Q E s.
Proof.
  intros St HN HQ. unfold tighten. apply wp_bind, wp_fence_token. intros [token|] s1 K1 R1; [|by apply wp_ret, HN].
  apply wp_bind, wp_fenced_write; [done|]. intros o s2 D2 M2 A2. cbv zeta.
  apply wp_bind, wp_persisted. intros b s3 K3 R3 B3.
  assert (R2 : row s2 = row s) by (rewrite (db_same_row _ _ D2); done).
  assert (S3 : strict new (row s3)) by (destruct R3 as [->| ->]; [by rewrite R2|apply strict_refl]).
  destruct b; simpl.
  - destruct (bool_decide_reflect (o = Some FENCE_APPLIED)) as [->|N]; simpl; apply wp_ret, HQ.
    + assert (C3 : ctl (keys s3) = new) by (rewrite K3; auto). split; [auto|]. intros _. right. by rewrite C3.
    + apply told_excused. case_bool_decide; in_list.
  - destruct (bool_decide_reflect (o = Some FENCE_APPLIED)) as [->|N]; simpl.
    + rewrite andb_false_r. apply wp_bind, wp_ret, wp_ret, HQ, told_safe; [done|]. intros _. by rewrite K3, A2.
    + rewrite andb_true_r. apply wp_bind.
      assert (Ex : told new s (if bool_decide (o = Some FENCE_LOST) then NotConfirmedRefused else NotConfirmed) s3).
      { apply told_excused. case_bool_decide; in_list. }
      destruct new.1; [|by apply wp_ret, wp_ret, HQ].
      apply wp_bind, wp_fenced_write; [done|]. intros o' s4 D4 M4 A4. apply wp_ret, wp_ret, HQ.
      destruct (bool_decide_reflect (o' = Some FENCE_APPLIED)) as [->|N'].
      * apply told_safe; [done|]. intros _. by rewrite A4.
      * apply told_excused. case_bool_decide; in_list.
Qed.

Lemma wp_loosen new d s (Q : ended -> Admin -> Prop) E :
  strict (row s) new ->
  (forall a s', told new s a s' -> Q (Some a) s') -> wp (loosen new d) Q E s.
Proof.
  intros St HQ. unfold loosen. apply wp_bind, wp_fence_token. intros [token|] s1 K1 R1.
  2:{ apply wp_ret, HQ, told_safe; [done|]. by rewrite K1, R1. }
  apply wp_bind, wp_try, wp_bind, wp_claim.
  2:{ intros e s2 D2 C2. apply wp_ret, wp_ret, HQ, told_safe; [done|].
      by rewrite C2, K1, (db_same_row _ _ D2), R1. }
  intros [c|] s2 D2 C2; apply wp_ret.
  2:{ apply wp_ret, HQ, told_safe; [done|]. by rewrite C2, K1, (db_same_row _ _ D2), R1. }
  assert (R2 : row s2 = row s) by (by rewrite (db_same_row _ _ D2)).
  assert (C2' : ctl (keys s2) = ctl (keys s)) by (by rewrite C2, K1).
  apply wp_bind, wp_persisted. intros b s3 K3 R3 B3. destruct b; simpl.
  2:{ apply wp_ret, HQ, told_safe; [done|]. intros S. rewrite K3, C2'.
      destruct R3 as [->| ->]; [by rewrite R2|]. by apply (strict_trans _ (row s)). }
  assert (R3' : row s3 = new) by auto. clear R3 B3.
  assert (Fin : forall o s4, db_same s3 s4 -> moved new (keys s3) (keys s4) ->
    (o = Some FENCE_APPLIED -> ctl (keys s4) = new) ->
    Q (Some (if bool_decide (o = Some FENCE_APPLIED) then Ok200
             else if bool_decide (o = Some FENCE_LOST) then LoosenPersistedRefused
             else LoosenPersistedUnconfirmed)) s4).
  { intros o s4 D4 M4 A4. assert (R4 : row s4 = new) by (by rewrite (db_same_row _ _ D4)).
    assert (S4 : strict (ctl (keys s)) (row s) -> strict (ctl (keys s4)) (row s4)).
    { intros S. rewrite R4. destruct M4 as [->| ->]; [|apply strict_refl]. rewrite K3, C2'.
      by apply (strict_trans _ (row s)). }
    apply HQ. case_bool_decide; [split; auto|]. case_bool_decide; by apply told_safe. }
  assert (Rest : forall o s4, db_same s3 s4 -> moved new (keys s3) (keys s4) ->
    (o = Some FENCE_APPLIED -> ctl (keys s4) = new) ->
    wp (up ← (if bool_decide (o = Some FENCE_APPLIED) || bool_decide (o = Some FENCE_LOST) then mret false
              else still_connected);
        o ← (if up : bool then fenced_write 1 true (Some token) new d None else mret o);
        mret (Some (if bool_decide (o = Some FENCE_APPLIED) then Ok200
                    else if bool_decide (o = Some FENCE_LOST) then LoosenPersistedRefused
                    else LoosenPersistedUnconfirmed))) Q E s4).
  { intros o s4 D4 M4 A4. apply wp_bind. destruct (_ || _); [by apply wp_ret, wp_bind, wp_ret, wp_ret, Fin|].
    apply wp_still_connected. intros [] s5 D5 K5 _; apply wp_bind.
    - apply wp_fenced_write; [done|]. intros o' s6 D6 M6 A6. apply wp_ret, Fin; [|  |done].
      + transitivity s4; [done|]. by transitivity s5.
      + apply (moved_trans _ _ (keys s4)); [done|]. by rewrite <- K5.
    - apply wp_ret, wp_ret, Fin; [by transitivity s4|by rewrite K5|by rewrite K5]. }
  apply wp_bind, wp_try, wp_bind, wp_apply.
  - intros o s4 D4 M4 A4. apply wp_ret, Rest; [done|done|]. intros [= ->]. auto.
  - intros e s4 D4 M4. by apply wp_ret, Rest.
Qed.

Lemma wp_update_trust lock score d s (Q : Answer -> Admin -> Prop) E :
  (forall a s', told (requested score) s a s' -> Q a s') -> wp (update_trust lock score d) Q E s.
Proof.
  intros HQ. unfold update_trust. cbv zeta. set (new := requested score) in *.
  assert (Unavail : forall s1, keys s1 = keys s -> row s1 = row s ->
    wp (live ← (if new.1 then o ← fenced_write 2 false None (true, None) d None;
                              mret (bool_decide (o = Some FENCE_APPLIED)) else mret false);
        mret (if live : bool then FreezeLiveNotPersisted else NotApplied)) Q E s1).
  { intros s1 K1 R1. apply wp_bind. destruct new.1.
    - apply wp_bind, wp_fenced_write; [done|]. intros o s2 D2 M2 A2. apply wp_ret, wp_ret, HQ.
      apply told_safe; [by case_bool_decide|]. intros S. rewrite (db_same_row _ _ D2), R1.
      destruct M2 as [->| ->]; [by rewrite K1|apply strict_frozen].
    - apply wp_ret, wp_ret, HQ, told_safe; [done|]. by rewrite K1, R1. }
  apply wp_bind. destruct lock; [|apply wp_ret; by apply Unavail|apply wp_ret; by apply Unavail].
  apply wp_bind, wp_registry_control. intros [prior|] s1 K1 R1 P1; [|by apply wp_ret, Unavail].
  assert (T1 : forall a s', told new s1 a s' -> told new s a s').
  { intros a s' [T1 T2]. split; [done|]. by rewrite <- K1, <- R1. }
  rewrite (P1 prior eq_refl), <- R1. destruct (is_tightening (row s1) new) eqn:Ti.
  - apply wp_tighten; [exact Ti| |].
    + intros s2 K2 R2. apply Unavail; congruence.
    + intros a s2 T. apply wp_ret, HQ. auto.
  - apply wp_loosen; [by apply strict_total|]. intros a s2 T. apply wp_ret, HQ. auto.
Qed.

(** 200 means both.  Whatever calls failed or lost their answers on the way, an admin change that is
    answered 200 has left the registry row and the live keys with exactly the state asked for. *)
Theorem admin_200_means_both lock score d s s' :
  update_trust lock score d s = (s', inr Ok200) ->
  row s' = requested score /\ ctl (keys s') = requested score.
Proof.
  intros U. assert (T : wp (update_trust lock score d) (told (requested score) s) (fun _ _ => False) s).
  { by apply wp_update_trust. }
  unfold wp in T. rewrite U in T. by apply T.
Qed.

(** the live store is never looser than the registry, except where the answer says so.  If the keys
    were at least as strict as the row before an admin change, they are after it, for every failure on
    the way, or the caller was told that the change is not (or not known to be) live; no exception
    escapes. *)
Theorem store_no_looser_than_registry lock score d s :
  strict (ctl (keys s)) (row s) ->
  exists s' a, update_trust lock score d s = (s', inr a) /\
    (strict (ctl (keys s')) (row s') \/
     a ∈ [PersistedRefused; PersistedNotLive; NotConfirmedRefused; NotConfirmed]).
Proof.
  intros S. assert (T : wp (update_trust lock score d) (told (requested score) s) (fun _ _ => False) s).
  { by apply wp_update_trust. }
  unfold wp in T. destruct (update_trust lock score d s) as [s' [e|a]]; [done|]. exists s', a. split; [done|].
  destruct T as [_ T]. destruct (T S); auto.
Qed.

(** ** The kill switch *)

(** The store answers every call, and the owner key is missing or of a token the sequence has issued. *)
Definition store_up (s : Admin) : Prop :=
  store_calls s = [] /\
  exists l n, parse_owner (owner (keys s)) = (fmt_int l, n) /\ 0 <= l <= seq s /\ 0 <= n.

Lemma wp_store_up {X} (f : AgentKeys -> AgentKeys * X) (Q : X -> Admin -> Prop) E s :
  store_calls s = [] -> Q (f (keys s)).2 (set_keys (f (keys s)).1 s) -> wp (store f) Q E s.
Proof. intros S HQ. unfold wp, store. by rewrite S. Qed.

(** One attempt that reaches a working store writes. *)
Lemma wp_write_up n locked token new d last s (Q : option Z -> Admin -> Prop) E :
  store_up s -> (forall t, token = Some t -> t = seq s) ->
  (forall l x, token <> None -> parse_owner (owner (keys s)) = (fmt_int l, x) -> l < seq s) ->
  (forall s', ctl (keys s') = new -> Q (Some FENCE_APPLIED) s') ->
  (locked = true -> forall s', keys s' = keys s -> store_calls s' = [] -> seq s' = seq s -> alive s' = false -> Q last s') ->
  wp (fenced_write (S n) locked token new d last) Q E s.
Proof.
  intros (Up & l & x & P & [Hl Hle] & Hx) Tok New HQ HN. cbn [fenced_write]. apply wp_bind.
  assert (Go : forall s1, keys s1 = keys s -> store_calls s1 = [] -> forall rest,
    wp (r ← try_with (claimed ← claim_owner token;
          match claimed with
          | None => mret (inl (Some FENCE_LOST))
          | Some t => o ← apply_control t new d; mret (inr (Some o))
          end) (fun _ => mret (inr None));
        match r with
        | inl final => mret final
        | inr o => if bool_decide (o = Some FENCE_APPLIED) then mret o
                   else if bool_decide (o = Some FENCE_LOST) then mret o else rest o
        end) Q E s1).
  { intros s1 K1 U1 rest. apply wp_bind, wp_try, wp_bind. apply wp_store_up; [done|].
    assert (C : exists o, claim (owner (keys s1)) (token_arg token) = Some o).
    { rewrite K1, (claim_from _ l x token); [|done|lia|lia|intros t Ht; rewrite (Tok t Ht); lia].
      destruct token as [t|]; simpl; [|eauto]. specialize (New l x ltac:(done) P). rewrite (Tok t eq_refl).
      rewrite (proj2 (Z.ltb_ge (seq s) l)), (proj2 (Z.eqb_neq (seq s) l)) by lia. simpl. eauto. }
    destruct C as [o C]. unfold claim_step. rewrite C. simpl. apply wp_bind, wp_store_up; [done|]. simpl.
    unfold fenced_control. simpl. rewrite bool_decide_true by done. simpl. apply wp_ret, wp_ret, HQ. by destruct new. }
  destruct locked; [|by apply wp_ret, Go]. unfold still_connected. apply wp_try, wp_bind. unfold wp at 1, db.
  destruct (alive s) eqn:Al; simpl.
  - destruct (db_calls s) as [|[] os]; simpl; try (apply wp_ret; by apply Go); apply wp_ret, wp_ret; by apply HN.
  - apply wp_ret, wp_ret. by apply HN.
Qed.

(** A connection that is gone persists nothing. *)
Lemma wp_persisted_dead new s (Q : bool -> Admin -> Prop) E : alive s = false -> Q false s -> wp (persisted new) Q E s.
Proof.
  intros Al HQ. unfold persisted, persist_trust_control. apply wp_try, wp_bind. unfold wp at 1, db. rewrite Al. simpl.
  by apply wp_ret.
Qed.

Lemma wp_steal d s (Q : bool -> Admin -> Prop) E :
  store_up s -> (forall s', k_frozen (keys s') = true -> Q true s') ->
  wp (o ← fenced_write 2 false None (true, None) d None; mret (bool_decide (o = Some FENCE_APPLIED))) Q E s.
Proof.
  intros Up HQ. apply wp_bind, wp_write_up; [done|done|done| |done]. intros s' C. apply wp_ret.
  rewrite bool_decide_true by done. apply HQ. by injection C.
Qed.

(** the kill switch lands.  With the store answering, a freeze takes effect in the live keys whatever
    happens to the database: the lock is contended, no connection can be had, or it fails, or stops
    answering, at any statement; and the caller is told that it is live. *)
Theorem freeze_always_lands lock d s :
  store_up s ->
  exists s' a, update_trust lock 0 d s = (s', inr a) /\ k_frozen (keys s') = true /\
    a ∈ [Ok200; LiveMaybeNotPersisted; FreezeLiveNotPersisted].
Proof.
  intros Up.
  set (G := fun (a : Answer) (s' : Admin) => k_frozen (keys s') = true /\
              a ∈ [Ok200; LiveMaybeNotPersisted; FreezeLiveNotPersisted]).
  assert (T : wp (update_trust lock 0 d) G (fun _ _ => False) s).
  { unfold update_trust. cbv zeta. change (requested 0) with (true, @None Q).
    assert (Steal : forall s1, store_up s1 ->
      wp (live ← (o ← fenced_write 2 false None (true, None) d None; mret (bool_decide (o = Some FENCE_APPLIED)));
          mret (if live : bool then FreezeLiveNotPersisted else NotApplied)) G (fun _ _ => False) s1).
    { intros s1 U1. apply wp_bind, wp_steal; [done|]. intros s2 F2. apply wp_ret. split; [done|in_list]. }
    apply wp_bind. destruct lock; [|by apply wp_ret, Steal|by apply wp_ret, Steal].
    assert (Up1 : forall s1, keys s1 = keys s -> store_calls s1 = [] -> seq s <= seq s1 -> store_up s1).
    { intros s1 K1 C1 Q1. destruct Up as (_ & l & n & P & B & Hn). split; [done|]. exists l, n. rewrite K1.
      split; [done|]. lia. }
    assert (C0 : store_calls s = []) by apply Up.
    apply wp_bind. unfold registry_control. apply wp_try, wp_bind.
    apply wp_db; [|intros; apply wp_ret, wp_ret, Steal, Up1; simpl; try done; lia..].
    intros l0. apply wp_ret. simpl. unfold tighten. apply wp_bind. unfold fence_token. apply wp_try, wp_bind.
    apply wp_db; [|intros; apply wp_ret, wp_ret, Steal, Up1; simpl; try done; lia..].
    intros l1. apply wp_ret. simpl.
    apply wp_bind, wp_write_up.
    - by apply Up1; simpl; [..|lia].
    - by intros t [= <-].
    - intros l x _ P. simpl in *. destruct Up as (_ & l' & x' & P' & B & _). rewrite P' in P.
      injection P as E _. apply fmt_int_inj in E. lia.
    - intros s2 C2. rewrite (bool_decide_true (Some FENCE_APPLIED = Some FENCE_APPLIED)) by done. simpl.
      apply wp_bind, wp_persisted. intros b s3 K3 _ _.
      assert (F3 : k_frozen (keys s3) = true) by (rewrite K3; by injection C2).
      destruct b; simpl; [apply wp_ret, wp_ret|apply wp_bind, wp_ret, wp_ret, wp_ret]; (split; [done|in_list]).
    - intros _ s2 K2 U2 Q2 Al. simpl. apply wp_bind, wp_persisted_dead; [done|]. simpl.
      apply wp_bind, wp_steal; [apply Up1; [done|done|rewrite Q2; simpl; lia]|]. intros s3 F3.
      apply wp_ret, wp_ret. split; [done|in_list]. }
  unfold wp in T. destruct (update_trust lock 0 d s) as [s' [e|a]]; [done|]. exists s', a. split; [done|exact T].
Qed.

(** ** The boot warm ([warm_admin_trust_controls]) *)

Notation Store := (gmap (list Z) AgentKeys).

Definition no_keys : AgentKeys := mkKeys None false None None.
Definition keys_of (m : Store) (id : list Z) : AgentKeys := default no_keys (m !! id).

(** An agent to warm, with the last outcome of its fenced add. *)
Record Entry := mkWarm { w_id : list Z; w_control : control; w_outcome : Z }.

(** The first pipeline of a round: every pending agent is claimed, whatever the answers. *)
Fixpoint warm_claims (token : string) (es : list Entry) (m : Store) : Store :=
  match es with
  | [] => m
  | e :: es' =>
      let m := if bool_decide (w_outcome e = FENCE_APPLIED) then m
               else <[w_id e := (claim_step token (keys_of m (w_id e))).1]> m in
      warm_claims token es' m
  end.

(** The second pipeline: the fenced adds and their outcomes. *)
Fixpoint warm_adds (token : string) (es : list Entry) (m : Store) : list Entry * Store :=
  match es with
  | [] => ([], m)
  | e :: es' =>
      if bool_decide (w_outcome e = FENCE_APPLIED) then
        let r := warm_adds token es' m in (e :: r.1, r.2)
      else
        let k := fenced_warm token (w_control e).1 (w_control e).2 (keys_of m (w_id e)) in
        let r := warm_adds token es' (<[w_id e := k.1]> m) in
        (mkWarm (w_id e) (w_control e) k.2 :: r.1, r.2)
  end.

(** The rounds, until nothing is pending. *)
Fixpoint warm_rounds (rounds : nat) (token : string) (es : list Entry) (m : Store) : list Entry * Store :=
  match rounds with
  | O => (es, m)
  | S n =>
      if forallb (fun e => bool_decide (w_outcome e = FENCE_APPLIED)) es then (es, m)
      else let r := warm_adds token es (warm_claims token es m) in warm_rounds n token r.1 r.2
  end.

Definition warm_admin_trust_controls (token : Z) (entries : list (list Z * control)) (m : Store)
    : list Z * Store :=
  let r := warm_rounds 3 (fmt_int token) (map (fun e => mkWarm e.1 e.2 FENCE_LOST) entries) m in
  (map w_outcome r.1, r.2).

(** Nothing of an agent's control is taken away. *)
Definition no_loss (m m' : Store) : Prop := forall id,
  (k_frozen (keys_of m id) = true -> k_frozen (keys_of m' id) = true) /\
  (is_Some (k_cap (keys_of m id)) -> is_Some (k_cap (keys_of m' id))) /\
  k_display (keys_of m' id) = k_display (keys_of m id).

#[local] Instance no_loss_preorder : PreOrder no_loss.
Proof.
  split; [by intros m id|]. intros a b c Hab Hbc id. destruct (Hab id) as (?&?&E1), (Hbc id) as (?&?&E2).
  split; [auto|]. split; [auto|congruence].
Qed.

Lemma no_loss_insert m id k :
  (k_frozen (keys_of m id) = true -> k_frozen k = true) -> (is_Some (k_cap (keys_of m id)) -> is_Some (k_cap k)) ->
  k_display k = k_display (keys_of m id) -> no_loss m (<[id := k]> m).
Proof.
  intros F C D id'. unfold keys_of at 2 4 5. destruct (decide (id' = id)) as [->|N].
  - rewrite lookup_insert_eq. simpl. auto.
  - rewrite lookup_insert_ne by done. auto.
Qed.

Lemma claim_step_same t k :
  k_frozen (claim_step t k).1 = k_frozen k /\ k_cap (claim_step t k).1 = k_cap k /\
  k_display (claim_step t k).1 = k_display k.
Proof. unfold claim_step. by destruct (claim _ _). Qed.

Lemma warm_claims_no_loss t es m : no_loss m (warm_claims t es m).
Proof.
  revert m. induction es as [|e es IH]; intros m; simpl; [reflexivity|]. etransitivity; [|apply IH].
  case_bool_decide; [reflexivity|]. destruct (claim_step_same t (keys_of m (w_id e))) as (F & C & D).
  apply no_loss_insert; by rewrite ?F, ?C, ?D.
Qed.

Lemma warm_add_no_loss t f c k :
  let k' := (fenced_warm t f c k).1 in
  (k_frozen k = true -> k_frozen k' = true) /\ (is_Some (k_cap k) -> is_Some (k_cap k')) /\ k_display k' = k_display k.
Proof.
  unfold fenced_warm. destruct (owner k); [|done]. destruct (negb _); [done|]. destruct f, c; simpl; auto.
Qed.

Lemma warm_adds_no_loss t es m : no_loss m (warm_adds t es m).2.
Proof.
  revert m. induction es as [|e es IH]; intros m; simpl; [reflexivity|]. case_bool_decide; simpl; [apply IH|].
  etransitivity; [|apply IH]. destruct (warm_add_no_loss t (w_control e).1 (w_control e).2 (keys_of m (w_id e))) as (F & C & D).
  by apply no_loss_insert.
Qed.

Lemma warm_rounds_no_loss n t es m : no_loss m (warm_rounds n t es m).2.
Proof.
  revert es m. induction n as [|n IH]; intros es m; simpl; [reflexivity|]. destruct (forallb _ _); [reflexivity|].
  etransitivity; [|apply IH]. etransitivity; [apply (warm_claims_no_loss t es)|apply warm_adds_no_loss].
Qed.

(** The control of an applied entry is in force: frozen if it says so, else capped (by it or by another
    entry of the same agent). *)
Definition in_force (e : Entry) (m : Store) : Prop :=
  w_outcome e = FENCE_APPLIED ->
  (if (w_control e).1 then k_frozen (keys_of m (w_id e)) = true
   else is_Some (w_control e).2 -> is_Some (k_cap (keys_of m (w_id e)))).

Lemma in_force_mono e m m' : no_loss m m' -> in_force e m -> in_force e m'.
Proof.
  intros L I A. specialize (I A). destruct (L (w_id e)) as (F & C & _). destruct (w_control e).1; auto.
Qed.

Lemma warm_adds_in_force t es m : Forall (fun e => in_force e m) es ->
  Forall (fun e => in_force e (warm_adds t es m).2) (warm_adds t es m).1.
Proof.
  revert m. induction es as [|e es IH]; intros m F; simpl; [done|]. inversion_clear F as [|? ? Fe Fes].
  case_bool_decide as Ap; simpl.
  - constructor; [|by apply IH]. by apply (in_force_mono e m), Fe; apply warm_adds_no_loss.
  - destruct (warm_add_no_loss t (w_control e).1 (w_control e).2 (keys_of m (w_id e))) as (Fk & Ck & Dk).
    assert (L : no_loss m (<[w_id e := (fenced_warm t (w_control e).1 (w_control e).2 (keys_of m (w_id e))).1]> m))
      by (by apply no_loss_insert).
    constructor; [|apply IH; eapply Forall_impl; [exact Fes|]; intros x; by apply in_force_mono].
    eapply in_force_mono; [apply warm_adds_no_loss|]. unfold in_force. simpl. intros Ap'. unfold keys_of.
    rewrite lookup_insert_eq. simpl. revert Ap'. unfold fenced_warm. destruct (owner _); [|done].
    destruct (negb _); [done|]. intros _. destruct (w_control e) as [[] [c|]]; simpl; try done.
Qed.

Lemma warm_rounds_in_force n t es m : Forall (fun e => in_force e m) es ->
  Forall (fun e => in_force e (warm_rounds n t es m).2) (warm_rounds n t es m).1.
Proof.
  revert es m. induction n as [|n IH]; intros es m F; simpl; [done|]. destruct (forallb _ _); [done|].
  apply IH, warm_adds_in_force. eapply Forall_impl; [exact F|]. intros e. apply in_force_mono, warm_claims_no_loss.
Qed.

Lemma warm_adds_ids t es m : map w_id (warm_adds t es m).1 = map w_id es /\ map w_control (warm_adds t es m).1 = map w_control es.
Proof.
  revert m. induction es as [|e es IH]; intros m; simpl; [done|].
  case_bool_decide; simpl.
  - destruct (IH m) as [-> ->]. done.
  - destruct (IH (<[w_id e := (fenced_warm t (w_control e).1 (w_control e).2 (keys_of m (w_id e))).1]> m)) as [-> ->]. done.
Qed.

Lemma warm_rounds_ids n t es m : map w_id (warm_rounds n t es m).1 = map w_id es /\ map w_control (warm_rounds n t es m).1 = map w_control es.
Proof.
  revert es m. induction n as [|n IH]; intros es m; simpl; [done|]. destruct (forallb _ _); [done|].
  destruct (IH (warm_adds t es (warm_claims t es m)).1 (warm_adds t es (warm_claims t es m)).2) as [-> ->].
  apply warm_adds_ids.
Qed.

(** the boot warm only adds.  Re-seeding the store from the registry, in up to three rounds and whatever
    owner keys it meets, never lifts a freeze, removes a cap or touches a displayed score; and an agent it
    reports as written carries the freeze, or a cap, that the registry asked for. *)
Theorem warm_only_adds token entries m :
  let r := warm_admin_trust_controls token entries m in
  no_loss m r.2 /\
  forall i id c, entries !! i = Some (id, c) -> r.1 !! i = Some FENCE_APPLIED ->
    (if c.1 : bool then k_frozen (keys_of r.2 id) = true else is_Some c.2 -> is_Some (k_cap (keys_of r.2 id))).
Proof.
  unfold warm_admin_trust_controls. cbn [fst snd].
  set (es := map (fun e => mkWarm e.1 e.2 FENCE_LOST) entries).
  split; [apply warm_rounds_no_loss|]. intros i id c Hi Ho.
  assert (F : Forall (fun e => in_force e m) es).
  { apply Forall_forall. intros e He. apply list_elem_of_fmap in He as (x & -> & _). done. }
  pose proof (warm_rounds_in_force 3 (fmt_int token) es m F) as I.
  destruct (warm_rounds_ids 3 (fmt_int token) es m) as [Ids Cs].
  apply list_lookup_fmap_Some in Ho as (e & Oe & He).
  rewrite Forall_lookup in I. specialize (I i e He (eq_sym Oe)).
  assert (Hes : es !! i = Some (mkWarm id c FENCE_LOST)) by (apply list_lookup_fmap_Some; by exists (id, c)).
  assert (E1 : map w_id es !! i = Some id) by (apply list_lookup_fmap_Some; by exists (mkWarm id c FENCE_LOST)).
  assert (E2 : map w_control es !! i = Some c) by (apply list_lookup_fmap_Some; by exists (mkWarm id c FENCE_LOST)).
  rewrite <- Ids in E1. rewrite <- Cs in E2.
  apply list_lookup_fmap_Some in E1 as (e1 & -> & He1). apply list_lookup_fmap_Some in E2 as (e2 & -> & He2).
  rewrite He in He1, He2. injection He1 as <-. by injection He2 as <-.
Qed.

(** ** Concrete requests, for the witnesses *)

(** An agent with a cap in both places, the owner key of token 3, and the sequence at 5. *)
Definition sample_admin (sc dc : list outcome) : Admin :=
  mkAdmin (mkKeys (Some "3") false (Some (1 # 2)%Q) None) (Some (false, Some (1 # 2)%Q)) None 5 true sc dc.

Lemma admin_200_means_both_witness :
  exists s', update_trust Held (1 # 4) "{}" (sample_admin [] []) = (s', inr Ok200) /\
    row s' = requested (1 # 4) /\ ctl (keys s') = requested (1 # 4).
Proof.
  destruct (update_trust Held (1 # 4) "{}" (sample_admin [] [])) as [s' [e|a]] eqn:U; [vm_compute in U; congruence|].
  assert (a = Ok200) as -> by (vm_compute in U; congruence).
  exists s'. split; [reflexivity|]. exact (admin_200_means_both Held (1 # 4) "{}" (sample_admin [] []) s' U).
Defined.

Lemma store_no_looser_than_registry_witness :
  exists s' a, update_trust Held (3 # 4) "{}" (sample_admin [AnswerLost] [Answered; AnswerLost]) = (s', inr a) /\
    (strict (ctl (keys s')) (row s') \/
     a ∈ [PersistedRefused; PersistedNotLive; NotConfirmedRefused; NotConfirmed]).
Proof. apply (store_no_looser_than_registry Held (3 # 4) "{}"). reflexivity. Defined.

Lemma freeze_always_lands_witness :
  exists s' a, update_trust Held 0 "{}" (sample_admin [] [Answered; Answered; NotSent]) = (s', inr a) /\
    k_frozen (keys s') = true /\ a ∈ [Ok200; LiveMaybeNotPersisted; FreezeLiveNotPersisted].
Proof.
  apply (freeze_always_lands Held "{}"). split; [reflexivity|]. exists 3, 0. split; [reflexivity|]. simpl. lia.
Defined.
