(* ===== verification/EngineClient.v ===== *)
(** * The SDK's engine client ([norviq/sdk/client/engine.py])

    The enforcement point outside the cluster: one request per call with retries, a circuit breaker, and
    a fallback that the operator may set to "allow" for outages.  The module [NonFinite] is the walk over
    the caller's arguments that refuses what JSON cannot carry. *)

From S2P Require Import Prelude Config Decisions Effects.

(** ** [_non_finite]: a walk over a graph of Python objects *)
Module NonFinite.

(** A value: a float that is finite or not, another scalar, or a container by its identity. *)
Inductive value : Type :=
  | Float (finite : bool)
  | Scalar
  | Ref (id : Z).

(** The containers alive, with what iterating over each yields (for a dict its keys, then its values). *)
Notation heap := (gmap Z (list value)).

Inductive result : Type :=
  | Found (b : bool)      (* the returned boolean *)
  | TooMany               (* [_UnencodableRequest] *)
  | OutOfFuel.

Section Walk.
Context (limit : nat) (h : heap).

(** The loop; the head of [stack] is its top. *)
Fixpoint walk (fuel : nat) (stack : list value) (visited : list Z) : result :=
  match fuel with
  | O => OutOfFuel
  | S fuel' =>
      match stack with
      | [] => Found false
      | Float finite :: rest => if negb finite then Found true else walk fuel' rest visited
      | Scalar :: rest => walk fuel' rest visited
      | Ref id :: rest =>
          match h !! id with
          | None => walk fuel' rest visited
          | Some children =>
              if bool_decide (id ∈ visited) then walk fuel' rest visited
              else
                let visited := id :: visited in
                if (limit <? length visited)%nat then TooMany
                else walk fuel' (reverse children ++ rest) visited
          end
      end
  end.

(** Every child of a container that was not visited may still be pushed, once. *)
Definition fresh (visited : list Z) : list (Z * list value) :=
  filter (fun c => c.1 ∉ visited) (map_to_list h).
Definition work (stack : list value) (visited : list Z) : nat :=
  length stack + list_sum (map (fun c => length c.2) (fresh visited)).

(** Enough fuel for the whole heap. *)
Definition non_finite (v : value) : result := walk (S (work [v] [])) [v] [].

(** What can be reached from a value through containers. *)
Inductive reach : value -> value -> Prop :=
  | reach_refl v : reach v v
  | reach_step id children c v : h !! id = Some children -> c ∈ children -> reach c v -> reach (Ref id) v.

(** ** Lemmas *)

Lemma fresh_visit visited id children :
  h !! id = Some children -> id ∉ visited ->
  list_sum (map (fun c => length c.2) (fresh visited)) =
  (length children + list_sum (map (fun c => length c.2) (fresh (id :: visited))))%nat.
Proof.
  intros Hid Nv. unfold fresh.
  assert (ND : NoDup (map_to_list h).*1) by apply NoDup_fst_map_to_list.
  assert (In : (id, children) ∈ map_to_list h) by (by apply elem_of_map_to_list).
  revert In ND. generalize (map_to_list h). intros l. induction l as [|[i cs] l IH]; intros In ND.
  - by apply elem_of_nil in In.
  - simpl in ND. apply NoDup_cons in ND as [Ni ND]. apply elem_of_cons in In as [E|In].
    + injection E as <- <-. rewrite filter_cons_True by done. rewrite (filter_cons_False _ (id, children)).
      2:{ simpl. intros X. apply X. by left. }
      simpl. f_equal. f_equal. f_equal. apply filter_ext_in. intros [i' cs'] Hi'. simpl.
      rewrite not_elem_of_cons. split; [|by intros []]. intros ?. split; [|done].
      intros ->. apply Ni. apply list_elem_of_fmap. by exists (id, cs').
    + assert (Ne : i <> id).
      { intros ->. apply Ni. apply list_elem_of_fmap. by exists (id, children). }
      specialize (IH In ND). destruct (decide (i ∈ visited)) as [Iv|Iv].
      * rewrite !filter_cons_False; [done| |]; simpl; [rewrite not_elem_of_cons; by intros []|by intros X; apply X].
      * rewrite !filter_cons_True; [|simpl; by rewrite not_elem_of_cons|done]. simpl. lia.
Qed.

(** The fuel is enough: every step uses up one unit of the remaining work. *)
Lemma walk_fuel fuel stack visited : (work stack visited < fuel)%nat -> walk fuel stack visited <> OutOfFuel.
Proof.
  revert stack visited. induction fuel as [|fuel IH]; intros stack visited W; [lia|]. simpl.
  destruct stack as [|[[]| |id] rest]; [done|apply IH; unfold work in *; simpl in *; lia|done
    |apply IH; unfold work in *; simpl in *; lia|].
  destruct (h !! id) as [children|] eqn:Hid; [|apply IH; unfold work in *; simpl in *; lia].
  case_bool_decide as V; [apply IH; unfold work in *; simpl in *; lia|].
  destruct (_ <? _)%nat; [done|]. apply IH. unfold work in *. simpl in W.
  rewrite (fresh_visit visited id children Hid V) in W. rewrite length_app, length_reverse. lia.
Qed.

(** A value that needs no further work. *)
Definition settled (visited : list Z) (v : value) : Prop :=
  match v with
  | Float finite => finite = true
  | Scalar => True
  | Ref id => id ∈ visited \/ h !! id = None
  end.

(** The children of a visited container are settled or on the stack. *)
Definition closed (stack : list value) (visited : list Z) : Prop :=
  forall id children c, id ∈ visited -> h !! id = Some children -> c ∈ children -> c ∈ stack \/ settled visited c.

Lemma settled_more visited id v : settled visited v -> settled (id :: visited) v.
Proof. destruct v; simpl; auto. intros [|]; [left; by right|by right]. Qed.

Lemma closed_pop v rest visited : settled visited v -> closed (v :: rest) visited -> closed rest visited.
Proof.
  intros Sv C id cs c Hid Hcs Hc. destruct (C id cs c Hid Hcs Hc) as [Hin|]; [|by right].
  apply elem_of_cons in Hin as [->|]; auto.
Qed.

Lemma walk_false fuel stack visited :
  closed stack visited -> walk fuel stack visited = Found false ->
  exists visited', closed [] visited' /\ (forall v, v ∈ stack -> settled visited' v) /\
    (forall v, settled visited v -> settled visited' v).
Proof.
  revert stack visited. induction fuel as [|fuel IH]; intros stack visited C W; [done|]. simpl in W.
  assert (Pop : forall v rest, stack = v :: rest -> settled visited v -> walk fuel rest visited = Found false ->
    exists visited', closed [] visited' /\ (forall v, v ∈ stack -> settled visited' v) /\
      (forall v, settled visited v -> settled visited' v)).
  { intros v rest -> Sv W'. destruct (IH rest visited (closed_pop _ _ _ Sv C) W') as (vis & H1 & H2 & H3).
    exists vis. split; [done|]. split; [|done]. intros x [->|]%elem_of_cons; auto. }
  destruct stack as [|[[]| |id] rest].
  - exists visited. split; [done|]. split; [|done]. intros v Hv. by apply elem_of_nil in Hv.
  - by apply (Pop (Float true) rest).
  - done.
  - by apply (Pop Scalar rest).
  - destruct (h !! id) as [children|] eqn:Hid; [|apply (Pop (Ref id) rest); simpl; auto].
    case_bool_decide as V; [apply (Pop (Ref id) rest); simpl; auto|].
    destruct (_ <? _)%nat; [done|].
    assert (C' : closed (reverse children ++ rest) (id :: visited)).
    { intros i cs c Hi Hcs Hc. apply elem_of_cons in Hi as [->|Hi].
      - rewrite Hid in Hcs. injection Hcs as <-. left. apply elem_of_app. left. by apply elem_of_reverse.
      - destruct (C i cs c Hi Hcs Hc) as [Hin|Sc]; [|right; by apply settled_more].
        apply elem_of_cons in Hin as [->|Hin]; [right; left; by left|]. left. apply elem_of_app. by right. }
    destruct (IH _ _ C' W) as (vis & H1 & H2 & H3). exists vis. split; [done|]. split.
    + intros v [->|Hv]%elem_of_cons; [apply H3; left; by left|]. apply H2, elem_of_app. by right.
    + intros v Sv. by apply H3, settled_more.
Qed.

Lemma settled_no_inf visited v x : closed [] visited -> reach v x -> settled visited v -> x <> Float false.
Proof.
  intros C R. induction R as [v|id children c v Hid Hc R IH]; intros S.
  - intros ->. done.
  - apply IH. destruct S as [S|S]; [|congruence]. destruct (C id children c S Hid Hc) as [Hin|]; [|done].
    by apply elem_of_nil in Hin.
Qed.

Lemma reach_trans a b c : reach a b -> reach b c -> reach a c.
Proof. intros H1 H2. induction H1 as [|id cs x v Hid Hx R IH]; [done|]. eapply reach_step; eauto. Qed.

(** From the root: what is on the stack is reachable, what was visited is a distinct reachable container. *)
Definition tracked (root : value) (stack : list value) (visited : list Z) : Prop :=
  (forall v, v ∈ stack -> reach root v) /\ NoDup visited /\
  (forall id, id ∈ visited -> reach root (Ref id) /\ is_Some (h !! id)).

Lemma tracked_pop root v rest visited : tracked root (v :: rest) visited -> tracked root rest visited.
Proof. intros (T1 & T2 & T3). split; [|done]. intros x Hx. apply T1. by right. Qed.

Lemma walk_tracked fuel root stack visited :
  tracked root stack visited ->
  match walk fuel stack visited with
  | Found true => reach root (Float false)
  | TooMany => exists ids, NoDup ids /\ (limit < length ids)%nat /\
                 (forall id, id ∈ ids -> reach root (Ref id) /\ is_Some (h !! id))
  | _ => True
  end.
Proof.
  revert stack visited. induction fuel as [|fuel IH]; intros stack visited T; [done|]. simpl.
  destruct stack as [|[[]| |id] rest]; [done|by apply IH, (tracked_pop root (Float true))
    |apply T; by left|by apply IH, (tracked_pop root Scalar)|].
  destruct (h !! id) as [children|] eqn:Hid; [|by apply IH, (tracked_pop root (Ref id))].
  case_bool_decide as V; [by apply IH, (tracked_pop root (Ref id))|].
  destruct T as (T1 & T2 & T3). assert (R : reach root (Ref id)) by (apply T1; by left).
  assert (T3' : forall i, i ∈ id :: visited -> reach root (Ref i) /\ is_Some (h !! i)).
  { intros i [->|Hi]%elem_of_cons; [split; [done|by rewrite Hid]|auto]. }
  destruct (_ <? _)%nat eqn:L.
  - apply Nat.ltb_lt in L. exists (id :: visited). split; [by constructor|done].
  - apply IH. split; [|split; [by constructor|done]]. intros v [Hv|Hv]%elem_of_app.
    + apply (reach_trans _ (Ref id)); [done|]. rewrite elem_of_reverse in Hv.
      eapply reach_step; [exact Hid|exact Hv|constructor].
    + apply T1. by right.
Qed.

(** the walk over the arguments is exact.  It always ends, also on arguments that contain themselves; a
    returned answer is "yes" exactly when an infinity or NaN can be reached through containers; and it
    refuses only arguments with more distinct containers than the limit. *)
Theorem non_finite_exact v :
  match non_finite v with
  | Found b => b = true <-> reach v (Float false)
  | TooMany => exists ids, NoDup ids /\ (limit < length ids)%nat /\
                 (forall id, id ∈ ids -> reach v (Ref id) /\ is_Some (h !! id))
  | OutOfFuel => False
  end.
Proof.
  unfold non_finite.
  assert (T : tracked v [v] []).
  { split; [|split; [constructor|intros id Hid; by apply elem_of_nil in Hid]].
    intros x Hx. apply list_elem_of_singleton in Hx as ->. constructor. }
  pose proof (walk_tracked (S (work [v] [])) v [v] [] T) as W.
  pose proof (walk_fuel (S (work [v] [])) [v] [] ltac:(lia)) as F.
  destruct (walk (S (work [v] [])) [v] []) as [[]| |] eqn:E; [done| |done|done].
  split; [done|]. intros R. exfalso.
  destruct (walk_false _ [v] [] ltac:(intros id cs c Hid; by apply elem_of_nil in Hid) E) as (vis & C & S & _).
  by apply (settled_no_inf vis v (Float false) C R (S v ltac:(by left))).
Qed.

End Walk.
End NonFinite.

(** ** The client *)

(** What one POST comes back with; a body is what [PolicyDecision( **response.json())] makes of it. *)
Inductive Reply : Type :=
  | Status (code : Z) (body : option PolicyDecision)
  | TimedOut                   (* [httpx.TimeoutException] *)
  | Unreachable.               (* any other [httpx.RequestError] *)

Record Client := mkClient {
  failure_count : Z;
  circuit_open_until : Q;
  wire : list Reply;           (* the answers to come; none: unreachable *)
  sent : Z;                    (* requests put on the wire *)
  c_clock : Z;                 (* microseconds *)
  c_ticks : list Z;            (* how far the clock moves at each reading *)
}.
Definition set_breaker (n : Z) (q : Q) (c : Client) : Client :=
  mkClient n q (wire c) (sent c) (c_clock c) (c_ticks c).

Notation C := (M Client).

(** [monotonic()], in seconds. *)
Definition monotonic : C Q := fun c =>
  match c_ticks c with
  | [] => (c, inr (c_clock c # 1000000))
  | t :: ts =>
      let t' := c_clock c + Z.abs t in
      (mkClient (failure_count c) (circuit_open_until c) (wire c) (sent c) t' ts, inr (t' # 1000000))
  end.

(** [client.post(..)]. *)
Definition send : C Reply := fun c =>
  let c' l := mkClient (failure_count c) (circuit_open_until c) l (sent c + 1) (c_clock c) (c_ticks c) in
  match wire c with
  | [] => (c' [], inr Unreachable)
  | r :: rs => (c' rs, inr r)
  end.

(** A call as the client gets it: the event, its arguments as Python objects, and whether [json.dumps]
    can encode it. *)
Record Request := mkRequest {
  rq_event : ToolCallEvent;
  rq_heap : gmap Z (list NonFinite.value);
  rq_params : NonFinite.value;
  rq_mcp : NonFinite.value;
  rq_dumps : bool;
}.

Definition MAX_PARAM_NODES : nat := Z.to_nat 100000.

(** The ways [_post] ends. *)
Inductive Post : Type :=
  | PBody (d : option PolicyDecision)    (* the decoded answer; [None]: decoding it raises *)
  | PUnencodable
  | PTimeout
  | PStatus (code : Z)                   (* [httpx.HTTPStatusError] *)
  | PError.                              (* any other exception *)

Section Client.
Context (cfg : Settings) (limit : nat).

(** [_is_circuit_open]. *)
Definition is_circuit_open : C bool :=
  t ← monotonic;
  c ← get_state;
  mret (Qltb t (circuit_open_until c)).

(** [_record_failure]. *)
Definition record_failure : C unit :=
  modify (fun c => set_breaker (failure_count c + 1) (circuit_open_until c) c);;
  c ← get_state;
  if sdk_circuit_fail_threshold cfg <=? failure_count c then
    t ← monotonic;
    modify (fun c => set_breaker (failure_count c) (t + (sdk_circuit_reset_after_ms cfg # 1000)) c)
  else mret tt.

(** [_record_success]. *)
Definition record_success : C unit := modify (set_breaker 0 0).

(** The encoding step of [_post]: whether a body could be built. *)
Definition encodable (rq : Request) : bool :=
  match NonFinite.non_finite limit (rq_heap rq) (rq_params rq) with
  | NonFinite.Found false =>
      match NonFinite.non_finite limit (rq_heap rq) (rq_mcp rq) with
      | NonFinite.Found false => rq_dumps rq
      | _ => false
      end
  | _ => false
  end.

(** The attempts of [_post]; [retries] is how many more follow this one. *)
Fixpoint attempts (retries : nat) : C Post :=
  r ← send;
  let again (last : Post) :=
    record_failure;;
    match retries with
    | O => mret last
    | S retries' => attempts retries'
    end in
  match r with
  | Status code body =>
      if (200 <=? code) && (code <? 300) then record_success;; mret (PBody body)
      else
        (if 500 <=? code then record_failure else mret tt);;
        mret (PStatus code)
  | TimedOut => again PTimeout
  | Unreachable => again PError
  end.

(** [_post]. *)
Definition post (rq : Request) : C Post :=
  if encodable rq then attempts (sdk_retry_max_attempts cfg) else mret PUnencodable.

(** A decision with the defaults of the model and the current time. *)
Definition decide_now (v : verdict) (rule why : string) (event : ToolCallEvent) : C PolicyDecision :=
  _ ← monotonic;
  c ← get_state;
  mret (new_decision v rule why 0 (ev_id event) (c_clock c)).

(** [_fallback_decision]: an unknown mode blocks. *)
Definition fallback_mode : verdict :=
  if bool_decide (sdk_fallback_mode cfg = "allow") then Allow else Block.
Definition fallback_decision (event : ToolCallEvent) : C PolicyDecision :=
  decide_now fallback_mode "engine_unavailable_fallback"
    ("Engine unavailable, fallback=" +:+ verdict_str fallback_mode) event.

(** [_handle_http_error]. *)
Definition handle_http_error (event : ToolCallEvent) (status : Z) : C PolicyDecision :=
  if (400 <=? status) && (status <? 500) then
    decide_now Block "engine_rejected_request"
      ("Policy engine rejected the request (HTTP " +:+ fmt_int status
       +:+ ") — this is a credential or request error, not an engine outage; fail-open does not apply.") event
  else fallback_decision event.

(** [evaluate]. *)
Definition evaluate (rq : Request) : C PolicyDecision :=
  open ← is_circuit_open;
  if open : bool then fallback_decision (rq_event rq)
  else
    p ← post rq;
    match p with
    | PBody (Some d) => mret d
    | PUnencodable =>
        decide_now Block "engine_request_unencodable"
          ("The evaluate request could not be encoded locally (for example, arguments nested too deeply); "
           +:+ "this is not an engine outage, and fail-open does not apply.") (rq_event rq)
    | PStatus code => handle_http_error (rq_event rq) code
    | PTimeout | PBody None | PError => fallback_decision (rq_event rq)
    end.

(** Calls one after another. *)
Fixpoint serve (rqs : list Request) : C (list PolicyDecision) :=
  match rqs with
  | [] => mret []
  | rq :: rqs' => d ← evaluate rq; ds ← serve rqs'; mret (d :: ds)
  end.

(** ** Lemmas *)

(** Reading the clock changes nothing else, and it never goes back. *)
Lemma wp_monotonic c (Q : Q -> Client -> Prop) (E : exc -> Client -> Prop) :
  (forall t c', c_clock c <= c_clock c' -> t = (c_clock c' # 1000000)%Q ->
     failure_count c' = failure_count c -> circuit_open_until c' = circuit_open_until c ->
     wire c' = wire c -> sent c' = sent c -> Q t c') -> wp monotonic Q E c.
Proof.
  intros HQ. unfold wp, monotonic. destruct (c_ticks c) as [|t ts]; simpl; apply HQ; simpl; try done; lia.
Qed.

Lemma wp_decide v rule why ev c (Q : PolicyDecision -> Client -> Prop) (E : exc -> Client -> Prop) :
  (forall d c', decision d = v -> rule_id d = rule -> c_clock c <= c_clock c' ->
     failure_count c' = failure_count c -> circuit_open_until c' = circuit_open_until c ->
     wire c' = wire c -> sent c' = sent c -> Q d c') -> wp (decide_now v rule why ev) Q E c.
Proof.
  intros HQ. unfold decide_now. apply wp_bind, wp_monotonic. intros t c' L _ F O W S.
  apply wp_bind, wp_get, wp_ret, HQ; done.
Qed.

(** An answer of the engine that refuses the request. *)
Definition refusal (r : Reply) : Prop :=
  match r with Status code _ => 400 <= code < 500 | _ => False end.

(** The circuit is closed, now and later. *)
Definition circuit_closed (c : Client) : Prop := (circuit_open_until c <= (c_clock c # 1000000))%Q.

Lemma closed_later c c' :
  circuit_open_until c' = circuit_open_until c -> c_clock c <= c_clock c' -> circuit_closed c -> circuit_closed c'.
Proof.
  unfold circuit_closed. intros -> L H. eapply Qle_trans; [exact H|]. unfold Qle. simpl. lia.
Qed.

(** One call that the engine refuses, or that cannot be encoded, is blocked and leaves the breaker as it is. *)
Lemma wp_refused rq c n (Q : PolicyDecision -> Client -> Prop) (E : exc -> Client -> Prop) :
  circuit_closed c -> Forall refusal (wire c) -> (S n <= length (wire c))%nat ->
  (forall d c', decision d = Block -> circuit_closed c' -> Forall refusal (wire c') -> (n <= length (wire c'))%nat ->
     failure_count c' = failure_count c -> circuit_open_until c' = circuit_open_until c -> Q d c') ->
  wp (evaluate rq) Q E c.
Proof.
  intros Cl Wr Len HQ. unfold evaluate. apply wp_bind. unfold is_circuit_open.
  apply wp_bind, wp_monotonic. intros t c1 L1 T1 F1 O1 W1 S1. apply wp_bind, wp_get, wp_ret.
  assert (Cl1 : circuit_closed c1) by (by apply (closed_later c)).
  assert (Qltb t (circuit_open_until c1) = false) as ->.
  { destruct (Qltb t (circuit_open_until c1)) eqn:X; [|done]. apply Qltb_lt in X. subst t.
    unfold circuit_closed in Cl1. lra. }
  apply wp_bind. unfold post. destruct (encodable rq).
  - rewrite <- W1 in Wr, Len. destruct (wire c1) as [|r rs] eqn:Wc; [simpl in Len; lia|].
    inversion_clear Wr as [|? ? Hr Hrs]. simpl in Len.
    assert (At : attempts (sdk_retry_max_attempts cfg) c1 =
      match r with
      | Status code _ => (mkClient (failure_count c1) (circuit_open_until c1) rs (sent c1 + 1) (c_clock c1) (c_ticks c1),
                          inr (PStatus code))
      | _ => (c1, inr PError)
      end).
    { destruct r as [code body| |]; simpl in Hr; [|done|done].
      assert (X1 : (200 <=? code) && (code <? 300) = false) by (apply andb_false_iff; right; lia).
      assert (X2 : (500 <=? code) = false) by lia.
      destruct (sdk_retry_max_attempts cfg); simpl; unfold send, mbind, M_bind; rewrite Wc; simpl; rewrite X1, X2; done. }
    unfold wp at 1. rewrite At. destruct r as [code body| |]; simpl in Hr; [|done|done].
    unfold handle_http_error. assert ((400 <=? code) && (code <? 500) = true) as -> by (apply andb_true_iff; lia).
    apply wp_decide. simpl. intros d c2 D _ L2 F2 O2 W2 _. apply HQ; [done| | | |congruence|congruence].
    + apply (closed_later c); [congruence|lia|done].
    + by rewrite W2.
    + rewrite W2. lia.
  - apply wp_ret. apply wp_decide. intros d c2 D _ L2 F2 O2 W2 _. apply HQ; [done| | | |congruence|congruence].
    + apply (closed_later c); [congruence|lia|done].
    + by rewrite W2, W1.
    + rewrite W2, W1. lia.
Qed.

(** an engine that refuses is never mistaken for one that is down.  However many calls in a row are
    answered with a 4xx (an expired credential, a malformed request), every one of them is blocked,
    whatever the fallback mode, and the circuit breaker stays as it was. *)
Theorem refusal_storm_blocks rqs c :
  circuit_closed c -> Forall refusal (wire c) -> (length rqs <= length (wire c))%nat ->
  exists c' ds, serve rqs c = (c', inr ds) /\ Forall (fun d => decision d = Block) ds /\
    failure_count c' = failure_count c /\ circuit_open_until c' = circuit_open_until c.
Proof.
  intros Cl Wr Len.
  assert (T : wp (serve rqs) (fun ds c' => Forall (fun d => decision d = Block) ds /\
    failure_count c' = failure_count c /\ circuit_open_until c' = circuit_open_until c) (fun _ _ => False) c).
  { revert c Cl Wr Len. induction rqs as [|rq rqs IH]; intros c Cl Wr Len; cbn [serve].
    - by apply wp_ret.
    - apply wp_bind, (wp_refused rq c (length rqs)); [done|done|done|].
      intros d c1 D Cl1 Wr1 Len1 F1 O1. apply wp_bind. eapply wp_mono; [by apply IH| |done].
      simpl. intros ds c2 (B & F2 & O2). apply wp_ret. split; [by constructor|]. split; congruence. }
  unfold wp in T. destruct (serve rqs c) as [c' [e|ds]]; [done|]. exists c', ds. by split.
Qed.

(** ** The breaker *)

(** It is open only after enough silent attempts since the last success. *)
Definition breaker_ok (c : Client) : Prop :=
  0 <= failure_count c /\ ((circuit_open_until c == 0)%Q \/ sdk_circuit_fail_threshold cfg <= failure_count c).

Lemma wp_record_failure c (Q : unit -> Client -> Prop) (E : exc -> Client -> Prop) :
  breaker_ok c -> (forall c', breaker_ok c' -> sent c' = sent c -> Q tt c') -> wp (record_failure) Q E c.
Proof.
  intros [B1 B2] HQ. unfold record_failure. apply wp_bind, wp_modify. apply wp_bind, wp_get. simpl.
  destruct (Z.leb_spec (sdk_circuit_fail_threshold cfg) (failure_count c + 1)).
  - apply wp_bind, wp_monotonic. simpl. intros t c1 _ _ F1 _ _ S1. apply wp_modify, HQ; [|done].
    split; simpl; [lia|]. right. lia.
  - apply wp_ret, HQ; [|done]. split; simpl; [lia|]. destruct B2 as [B2|B2]; [by left|lia].
Qed.

Lemma wp_attempts n c (Q : Post -> Client -> Prop) (E : exc -> Client -> Prop) :
  breaker_ok c ->
  (forall p c', breaker_ok c' -> sent c < sent c' <= sent c + 1 + Z.of_nat n -> Q p c') -> wp (attempts n) Q E c.
Proof.
  revert c. induction n as [|n IH]; intros c B HQ; cbn [attempts]; apply wp_bind.
  all: assert (Sd : forall (K : Reply -> Client -> Prop),
    (forall r c1, breaker_ok c1 -> sent c1 = sent c + 1 -> K r c1) -> wp send K E c)
    by (intros K HK; unfold wp, send; destruct (wire c); apply HK; done).
  all: apply Sd; intros r c1 B1 S1; cbv zeta.
  all: assert (St : forall code body, wp (if (200 <=? code) && (code <? 300) then record_success;; mret (PBody body)
         else (if 500 <=? code then record_failure else mret tt);; mret (PStatus code)) Q E c1).
  1,3: intros code body; destruct (_ && _);
    [apply wp_bind, wp_modify, wp_ret, HQ; [split; simpl; [lia|by left]|simpl; lia]
    |apply wp_bind; destruct (500 <=? code);
      [apply wp_record_failure; [done|]; intros c2 B2 S2; apply wp_ret, HQ; [done|lia]
      |apply wp_ret, wp_ret, HQ; [done|lia]]].
  all: destruct r as [code body| |]; [apply St| |];
    apply wp_bind, wp_record_failure; [done| |done|]; intros c2 B2 S2.
  1,2: apply wp_ret, HQ; [done|lia].
  all: apply IH; [done|]; intros p c3 B3 S3; apply HQ; [done|lia].
Qed.

(** the breaker opens only on silence and bounds the requests.  From a client whose breaker is closed or
    has counted enough failures, any sequence of calls keeps it so: the circuit is open only after at
    least the threshold of unanswered attempts since the last success; and each call puts at most one
    request plus the configured retries on the wire. *)
Theorem breaker_opens_on_silence rqs c :
  breaker_ok c ->
  exists c' ds, serve rqs c = (c', inr ds) /\ length ds = length rqs /\ breaker_ok c' /\
    sent c' <= sent c + Z.of_nat (length rqs) * (1 + Z.of_nat (sdk_retry_max_attempts cfg)).
Proof.
  intros B.
  assert (T : wp (serve rqs) (fun ds c' => length ds = length rqs /\ breaker_ok c' /\
    sent c' <= sent c + Z.of_nat (length rqs) * (1 + Z.of_nat (sdk_retry_max_attempts cfg))) (fun _ _ => False) c).
  { revert c B. induction rqs as [|rq rqs IH]; intros c B; cbn [serve length].
    - apply wp_ret. split; [done|]. split; [done|lia].
    - apply wp_bind.
      assert (One : forall (K : PolicyDecision -> Client -> Prop),
        (forall d c1, breaker_ok c1 -> sent c1 <= sent c + 1 + Z.of_nat (sdk_retry_max_attempts cfg) -> K d c1) ->
        wp (evaluate rq) K (fun _ _ => False) c).
      { intros K HK. unfold evaluate. apply wp_bind. unfold is_circuit_open.
        apply wp_bind, wp_monotonic. intros t c1 _ _ F1 O1 _ S1. apply wp_bind, wp_get, wp_ret.
        assert (B1 : breaker_ok c1) by (unfold breaker_ok; by rewrite F1, O1).
        assert (Dec : forall v rule why c2, breaker_ok c2 -> sent c2 <= sent c + 1 + Z.of_nat (sdk_retry_max_attempts cfg) ->
          wp (decide_now v rule why (rq_event rq)) K (fun _ _ => False) c2).
        { intros v rule why c2 B2 S2. apply wp_decide. intros d c3 _ _ _ F3 O3 _ S3. apply HK; [|lia].
          unfold breaker_ok. by rewrite F3, O3. }
        destruct (Qltb _ _); [apply Dec; [done|lia]|]. apply wp_bind. unfold post. destruct (encodable rq).
        - apply wp_attempts; [done|]. intros p c2 B2 S2.
          assert (S2' : sent c2 <= sent c + 1 + Z.of_nat (sdk_retry_max_attempts cfg)) by lia.
          destruct p as [[d|]| | |code|]; [apply wp_ret; by apply HK|by apply Dec..| |by apply Dec].
          unfold handle_http_error. destruct (_ && _); by apply Dec.
        - apply wp_ret. apply Dec; [done|lia]. }
      apply One. intros d c1 B1 S1. apply wp_bind. eapply wp_mono; [by apply IH| |done].
      simpl. intros ds c2 (L & B2 & S2). apply wp_ret. split; [simpl; lia|]. split; [done|]. lia. }
  unfold wp in T. destruct (serve rqs c) as [c' [e|ds]]; [done|]. exists c', ds. by split.
Qed.

End Client.

(** ** Concrete calls *)

Definition sample_request (dumps : bool) : Request :=
  mkRequest (mkEvent "e1" "pay" [] (mkIdentity [] "prod" "" "support" "" "" "" "") "s1" 0 "" 0 None [] "" "" "")
    ∅ NonFinite.Scalar NonFinite.Scalar dumps.
Definition sample_client (w : list Reply) : Client := mkClient 0 0 w 0 0 [].

Lemma refusal_storm_blocks_witness :
  exists c' ds,
    serve default_settings 10 [sample_request true; sample_request true]
      (sample_client [Status 401 None; Status 403 None]) = (c', inr ds) /\
    Forall (fun d => decision d = Block) ds /\ failure_count c' = 0 /\ circuit_open_until c' = 0%Q.
Proof.
  apply (refusal_storm_blocks default_settings 10 [sample_request true; sample_request true]
           (sample_client [Status 401 None; Status 403 None])); [by vm_compute|repeat constructor; simpl; lia|simpl; lia].
Defined.

Lemma breaker_opens_on_silence_witness :
  exists c' ds,
    serve default_settings 10 [sample_request true] (sample_client [TimedOut; TimedOut; TimedOut]) = (c', inr ds) /\
    length ds = 1%nat /\ breaker_ok default_settings c' /\ sent c' <= 0 + 1 * (1 + 2).
Proof.
  apply (breaker_opens_on_silence default_settings 10 [sample_request true]
           (sample_client [TimedOut; TimedOut; TimedOut])). split; [simpl; lia|left; reflexivity].
Defined.

Definition outcome_of (r : Client * (exc + PolicyDecision)) : option (verdict * string) :=
  match r.2 with inr d => Some (decision d, rule_id d) | inl _ => None end.

(** the outage fallback reaches further than outages.  With the shipped settings a redirect, and an
    answer with status 200 whose body is no decision, are allowed as if the engine were down; and a
    request that cannot be encoded, blocked while the circuit is closed, is allowed while it is open. *)
Theorem fallback_beyond_outages :
  outcome_of (evaluate default_settings 10 (sample_request true) (sample_client [Status 302 None]))
    = Some (Allow, "engine_unavailable_fallback") /\
  outcome_of (evaluate default_settings 10 (sample_request true) (sample_client [Status 200 None]))
    = Some (Allow, "engine_unavailable_fallback") /\
  outcome_of (evaluate default_settings 10 (sample_request false) (sample_client []))
    = Some (Block, "engine_request_unencodable") /\
  outcome_of (evaluate default_settings 10 (sample_request false) (mkClient 3 2 [] 0 0 []))
    = Some (Allow, "engine_unavailable_fallback").
Proof. by vm_compute. Qed.
