(* ===== verification/Interceptor.v ===== *)
(** * The interceptor ([norviq/sdk/core/interceptor.py], [norviq/sdk/core/recorder.py])

    What stands between an agent and a tool: it builds the event, asks an evaluator, folds the
    enforcement point's own refusal, records the decision and raises on a block or an escalation.  It is
    proved against the interface [SupportsEvaluate]; the in-cluster evaluator and the SDK's client are two
    instances of it. *)

From S2P Require Import Prelude Text Config Decisions Resolve InprocCache Effects Trust World Identity.
From S2P Require Import Evaluator EvaluatorProps Enforcement EngineClient.

(** [SupportsEvaluate]: anything that answers an event, over its own state, without raising. *)
Class SupportsEvaluate (S : Type) := {
  ask : ToolCallEvent -> M S PolicyDecision;
  ask_total : forall event s, wp (ask event) (fun _ _ => True) (fun _ _ => False) s;
}.

(** ** [DecisionRecorder] *)

Record RecordedDecision := mkRecorded { rec_tool : string; rec_decision : PolicyDecision }.

(** [tools_called]. *)
Definition tools_called (records : list RecordedDecision) : list string :=
  filter (fun t => nonempty t = true) (map rec_tool records).

(** [last_denial]. *)
Definition last_denial (records : list RecordedDecision) : option PolicyDecision :=
  rec_decision <$> head (filter (fun r => is_blocked (rec_decision r) || is_escalated (rec_decision r) = true)
                           (reverse records)).

(** The host around an evaluator: the ambient depth and the recorder, if one is installed. *)
Record Host (S : Type) := mkHost {
  engine : S;
  ambient_depth : Z;
  recorder : option (list RecordedDecision);
}.
Arguments mkHost {S} _ _ _.
Arguments engine {S} _.
Arguments ambient_depth {S} _.
Arguments recorder {S} _.

(** The arguments of [intercept]. *)
Record Call := mkCall {
  k_tool : string;
  k_params : list (string * json);
  k_session : string;
  k_framework : string;
  k_depth : Z;
  k_identity : option AgentIdentity;
  k_mcp : list (string * json);
  k_pep_decision : string;
  k_pep_rule : string;
  k_pep_reason : string;
}.

(** How [intercept_or_raise] ends. *)
Inductive Ended : Type :=
  | Returned (d : PolicyDecision)
  | Blocked (d : PolicyDecision)       (* [NorviqBlockError] *)
  | Escalated (d : PolicyDecision)     (* [NorviqEscalateError] *)
  | Raised.                            (* no identity, or an event its schema rejects *)

Section Interceptor.
Context {S : Type} `{!SupportsEvaluate S}.
(** The identity the resolver finds ([None]: it raises), and the id and instant of the new event. *)
Context (resolved : option AgentIdentity) (id : string) (instant : Z).

Implicit Types (h : Host S).

(** [record_decision]: a no-op without a recorder. *)
Definition record_decision (tool : string) (d : PolicyDecision) (h : Host S) : Host S :=
  mkHost (engine h) (ambient_depth h)
    (match recorder h with Some l => Some (l ++ [mkRecorded tool d]) | None => None end).

(** [depth_scope]: the body runs one level deeper, and the depth is put back however it ends. *)
Definition depth_scope {X} (body : M (Host S) X) : M (Host S) X := fun h =>
  let r := body (mkHost (engine h) (ambient_depth h + 1) (recorder h)) in
  (mkHost (engine r.1) (ambient_depth h) (recorder r.1), r.2).

(** [capture_decisions]: the body runs with a fresh recorder, which the caller keeps, and the one outside is
    put back however the body ends. *)
Definition capture_decisions {X} (body : M (Host S) X) (h : Host S)
    : Host S * (list RecordedDecision * (exc + X)) :=
  let r := body (mkHost (engine h) (ambient_depth h) (Some [])) in
  (mkHost (engine r.1) (ambient_depth r.1) (recorder h), (default [] (recorder r.1), r.2)).

(** The event of a call: a stated depth wins over the ambient one. *)
Definition event_of (k : Call) (h : Host S) : option ToolCallEvent :=
  who ← match k_identity k with Some who => Some who | None => resolved end;
  make_event id (k_tool k) (k_params k) who (k_session k) instant (k_framework k)
    (if k_depth k =? 0 then ambient_depth h else k_depth k) None (k_mcp k)
    (k_pep_decision k) (k_pep_rule k) (k_pep_reason k).

(** [intercept]. *)
Definition intercept (k : Call) : M (Host S) PolicyDecision := fun h =>
  match event_of k h with
  | None => (h, inl EOther)
  | Some event =>
      match ask event (engine h) with
      | (e, inl x) => (mkHost e (ambient_depth h) (recorder h), inl x)
      | (e, inr d) =>
          let d := apply_pep_denial d (k_pep_decision k) (k_pep_rule k) (k_pep_reason k) in
          (record_decision (k_tool k) d (mkHost e (ambient_depth h) (recorder h)), inr d)
      end
  end.

(** [intercept_or_raise]; it passes no refusal of its own. *)
Definition intercept_or_raise (k : Call) (h : Host S) : Host S * Ended :=
  let k := mkCall (k_tool k) (k_params k) (k_session k) (k_framework k) (k_depth k) (k_identity k) (k_mcp k) "" "" "" in
  match intercept k h with
  | (h', inl _) => (h', Raised)
  | (h', inr d) =>
      if is_blocked d then (h', Blocked d)
      else if is_escalated d then (h', Escalated d)
      else (h', Returned d)
  end.

(** The decision a call ended with, and the one it was refused with. *)
Definition ended_decision (e : Ended) : option PolicyDecision :=
  match e with Returned d | Blocked d | Escalated d => Some d | Raised => None end.
Definition ended_denial (e : Ended) : option PolicyDecision :=
  match e with Blocked d | Escalated d => Some d | Returned _ | Raised => None end.

(** How a call ends is the decision's own outcome. *)
Lemma ended_outcome k h :
  match (intercept_or_raise k h).2 with
  | Returned d => is_allowed d = true
  | Blocked d => decision d = Block
  | Escalated d => decision d = Escalate
  | Raised => event_of (mkCall (k_tool k) (k_params k) (k_session k) (k_framework k) (k_depth k) (k_identity k)
                          (k_mcp k) "" "" "") h = None
  end.
Proof.
  unfold intercept_or_raise, intercept. cbv zeta. destruct (event_of _ h) as [event|]; [|done].
  pose proof (ask_total event (engine h)) as T. unfold wp in T. destruct (ask event (engine h)) as [e [x|d]]; [destruct T|].
  cbn [k_pep_decision k_pep_rule k_pep_reason k_tool]. rewrite apply_pep_denial_noop.
  unfold is_blocked, is_escalated, is_allowed. by destruct (decision d) eqn:D; simpl; rewrite ?D.
Qed.

(** A call appends its decision to the recorder. *)
Lemma ended_recorded k h l :
  recorder h = Some l ->
  recorder (intercept_or_raise k h).1 =
    Some (l ++ option_list (mkRecorded (k_tool k) <$> ended_decision (intercept_or_raise k h).2)).
Proof.
  intros R. unfold intercept_or_raise, intercept. cbv zeta.
  destruct (event_of _ h) as [event|]; [|by simpl; rewrite app_nil_r].
  destruct (ask event (engine h)) as [e [x|d]]; simpl; [by rewrite app_nil_r|].
  destruct (is_blocked _); simpl; [by rewrite R|]. destruct (is_escalated _); simpl; by rewrite R.
Qed.

(** a tool runs only on an allow or an audit.  Against any evaluator, [intercept_or_raise] returns only
    with a decision that lets the call through; a block and an escalation raise, carrying the decision;
    and when a recorder is installed, the decision is its last record under the call's tool. *)
Theorem interceptor_gates k h :
  let r := intercept_or_raise k h in
  match r.2 with
  | Returned d => is_allowed d = true
  | Blocked d => decision d = Block
  | Escalated d => decision d = Escalate
  | Raised => event_of (mkCall (k_tool k) (k_params k) (k_session k) (k_framework k) (k_depth k) (k_identity k)
                          (k_mcp k) "" "" "") h = None
  end /\
  (forall l d, recorder h = Some l -> ended_decision r.2 = Some d ->
     recorder r.1 = Some (l ++ [mkRecorded (k_tool k) d])).
Proof.
  split; [apply ended_outcome|]. intros l d R E. rewrite (ended_recorded _ _ _ R), E. done.
Qed.

(** An agent framework's own loop, which swallows what a tool call raises and goes on. *)
Fixpoint agent_loop (ks : list Call) (h : Host S) : Host S * list Ended :=
  match ks with
  | [] => (h, [])
  | k :: ks =>
      let r := intercept_or_raise k h in
      let rest := agent_loop ks r.1 in
      (rest.1, r.2 :: rest.2)
  end.

Lemma agent_loop_records ks h l :
  recorder h = Some l ->
  exists rs, recorder (agent_loop ks h).1 = Some (l ++ rs) /\
    map rec_decision rs = omap ended_decision (agent_loop ks h).2.
Proof.
  revert h l. induction ks as [|k ks IH]; intros h l R; simpl; [exists []; by rewrite app_nil_r|].
  destruct (IH (intercept_or_raise k h).1 _ (ended_recorded k h l R)) as (rs & -> & E).
  eexists. split; [by rewrite <- app_assoc|]. rewrite map_app, E.
  by destruct (ended_decision (intercept_or_raise k h).2).
Qed.

Definition denies (d : PolicyDecision) : bool := is_blocked d || is_escalated d.

Lemma last_denial_last records :
  last_denial records = last (filter (fun d => denies d = true) (map rec_decision records)).
Proof.
  unfold last_denial. induction records as [|r rs IH] using rev_ind; [done|].
  rewrite reverse_snoc, map_app, filter_app. cbn [map]. unfold denies in *.
  destruct (is_blocked (rec_decision r) || is_escalated (rec_decision r)) eqn:E.
  - rewrite !filter_cons_True by done. cbn [head fmap option_fmap option_map]. by rewrite last_app.
  - rewrite !filter_cons_False by (by rewrite E). by rewrite app_nil_r.
Qed.

Lemma ended_denies ks h :
  filter (fun d => denies d = true) (omap ended_decision (agent_loop ks h).2) = omap ended_denial (agent_loop ks h).2.
Proof.
  revert h. induction ks as [|k ks IH]; intros h; simpl; [done|].
  pose proof (ended_outcome k h) as O. destruct (intercept_or_raise k h) as [h' [d|d|d|]]; simpl in *;
    rewrite ?filter_cons, ?IH; unfold denies, is_blocked, is_escalated, is_allowed in *; try done;
    destruct (decision d); try done; by simplify_eq/=.
Qed.

(** a swallowed refusal is not lost.  Whatever calls an agent's run makes and whatever its framework
    does with the exceptions, the recorder of the run reports as its last denial the decision of the last
    call that was refused, and none when no call was; the recorder outside is untouched. *)
Theorem capture_recovers_denial ks h :
  let r := capture_decisions (fun h => let p := agent_loop ks h in (p.1, inr p.2)) h in
  recorder r.1 = recorder h /\
  exists ends, r.2.2 = inr ends /\ last_denial r.2.1 = last (omap ended_denial ends).
Proof.
  split; [done|]. simpl. eexists. split; [done|].
  destruct (agent_loop_records ks (mkHost (engine h) (ambient_depth h) (Some [])) [] eq_refl) as (rs & -> & E).
  simpl. by rewrite last_denial_last, E, ended_denies.
Qed.

(** the enforcement point's refusal holds on every transport.  When a call carries a refusal the
    enforcement point already made, [intercept] answers with a block against any evaluator, and a
    recorder shows it as the last denial. *)
Theorem refusal_folded_for_any_evaluator k h h' d :
  k_pep_decision k = "block" -> intercept k h = (h', inr d) ->
  decision d = Block /\ (forall l, recorder h = Some l -> last_denial (default [] (recorder h')) = Some d).
Proof.
  intros P. unfold intercept. destruct (event_of k h) as [event|]; [|done].
  destruct (ask event (engine h)) as [e [x|d0]]; [done|]. intros [= <- <-]. rewrite P.
  assert (B : decision (apply_pep_denial d0 "block" (k_pep_rule k) (k_pep_reason k)) = Block)
    by apply apply_pep_denial_block.
  split; [done|]. intros l ->. simpl. unfold last_denial. rewrite reverse_app. simpl.
  rewrite filter_cons_True; [done|]. simpl. unfold is_blocked. by rewrite B.
Qed.

(** nesting is counted.  Inside [depth_scope] a call that states no depth reports one level more than
    outside, and afterwards the ambient depth is what it was, however the body ended. *)
Theorem depth_scope_nests {X} (body : M (Host S) X) h k :
  ambient_depth (depth_scope body h).1 = ambient_depth h /\
  (k_depth k = 0 -> forall e, event_of k (mkHost (engine h) (ambient_depth h + 1) (recorder h)) = Some e ->
     call_depth e = ambient_depth h + 1).
Proof.
  split; [done|]. intros K e. unfold event_of. rewrite K. simpl.
  destruct (match k_identity k with Some who => Some who | None => resolved end) as [who|]; [|done]. simpl.
  unfold make_event. destruct (tool_name_not_empty (k_tool k)); [|done]. simpl.
  destruct (pep_decision_may_only_refuse (k_pep_decision k)); [|done]. simpl.
  destruct (_ && _); [|done]. by intros [= <-].
Qed.

End Interceptor.

(** ** The two evaluators *)

(** In the cluster: [OPAEvaluator]. *)
#[global] Instance engine_supports `{Externals} : SupportsEvaluate World := {|
  ask := Evaluator.evaluate;
  ask_total := wp_evaluate_returns;
|}.

(** Out of it: [PolicyEngineClient], with the Python objects behind an event's arguments. *)
Lemma client_total cfg limit rq c :
  wp (EngineClient.evaluate cfg limit rq) (fun _ _ => True) (fun _ _ => False) c.
Proof.
  assert (Dec : forall v rule why ev c, wp (decide_now v rule why ev) (fun _ _ => True) (fun _ _ => False) c).
  { intros. by apply wp_decide. }
  assert (At : forall n c, wp (attempts cfg n) (fun _ _ => True) (fun _ _ => False) c).
  { assert (Rf : forall c, wp (record_failure cfg) (fun _ _ => True) (fun _ _ => False) c).
    { intros c0. unfold record_failure. apply wp_bind, wp_modify, wp_bind, wp_get. destruct (_ <=? _); [|by apply wp_ret].
      apply wp_bind, wp_monotonic. intros. by apply wp_modify. }
    assert (St : forall code body c, wp (if (200 <=? code) && (code <? 300) then record_success;; mret (PBody body)
        else (if 500 <=? code then record_failure cfg else mret tt);; mret (PStatus code))
        (fun _ _ => True) (fun _ _ => False) c).
    { intros code body c0. destruct (_ && _); [by apply wp_bind, wp_modify, wp_ret|]. apply wp_bind.
      destruct (500 <=? code); [eapply wp_mono; [apply Rf|by intros; apply wp_ret|done]|by apply wp_ret, wp_ret]. }
    intros n. induction n as [|n IH]; intros c0; cbn [attempts]; apply wp_bind; unfold wp at 1, send;
      destruct (wire c0) as [|[code body| |] rs]; cbv zeta; try apply St; apply wp_bind;
      (eapply wp_mono; [apply Rf| |done]); intros; first [by apply wp_ret|apply IH]. }
  unfold EngineClient.evaluate. apply wp_bind. unfold is_circuit_open.
  apply wp_bind, wp_monotonic. intros. apply wp_bind, wp_get, wp_ret. destruct (Qltb _ _); [apply Dec|].
  apply wp_bind. unfold post. destruct (encodable _ _); [|apply wp_ret, Dec].
  eapply wp_mono; [apply At| |done]. intros [[d|]| | |code|] c1 _; try apply Dec; [by apply wp_ret|].
  unfold handle_http_error. destruct (_ && _); apply Dec.
Qed.

Definition client_supports (cfg : Settings) (limit : nat) (objects : ToolCallEvent -> Request)
    : SupportsEvaluate Client := {|
  ask := fun event => EngineClient.evaluate cfg limit (objects event);
  ask_total := fun event => client_total cfg limit (objects event);
|}.

(** the freeze reaches the tool.  In an enforcing namespace, a call of a frozen agent that goes through
    the interceptor never returns to its caller: it raises the block, or no event could be built for it
    (an empty tool name) and nothing was evaluated. *)
Theorem frozen_agent_never_runs `{Externals} resolved id instant k (h : Host World) who :
  k_identity k = Some who -> frozen (spiffe_id who) (engine h) -> not_monitor (namespace who) (engine h) ->
  match (intercept_or_raise resolved id instant k h).2 with
  | Blocked d => decision d = Block
  | Raised => tool_name_not_empty (k_tool k) = None
  | Returned _ | Escalated _ => False
  end.
Proof.
  intros K F N. unfold intercept_or_raise, intercept. cbv zeta.
  destruct (event_of _ _ _ _ h) as [event|] eqn:E; unfold event_of in E; cbn [k_identity] in E; rewrite K in E;
    simpl in E; unfold make_event in E; destruct (tool_name_not_empty _) eqn:T0; try done.
  assert (Who : agent_identity event = who) by (simpl in E; by injection E as <-).
  pose proof (wp_evaluate_frozen event (engine h) (fun _ _ => False)) as T. unfold spiffe in T. rewrite Who in T.
  specialize (T F N). unfold wp in T. simpl. destruct (Evaluator.evaluate event (engine h)) as [e [x|d]]; [done|].
  rewrite apply_pep_denial_noop. unfold is_blocked. by rewrite T.
Qed.

(** ** Witnesses *)

Definition sample_host : Host World := mkHost (sample_world None []) 0 (Some []).
Definition sample_call (pd : string) : Call :=
  mkCall "read_file" [] "s1" "sidecar" 0 (Some sample_agent) [] pd "" "".

Lemma refusal_folded_for_any_evaluator_witness :
  exists h' d, intercept (SupportsEvaluate0 := engine_supports (H := demo)) None "e1" 0 (sample_call "block") sample_host = (h', inr d) /\
    last_denial (default [] (recorder h')) = Some d.
Proof.
  destruct (intercept (SupportsEvaluate0 := engine_supports (H := demo)) None "e1" 0 (sample_call "block") sample_host)
    as [h' [e|d]] eqn:B; [exfalso; vm_compute in B; congruence|].
  exists h', d. split; [reflexivity|].
  apply (proj2 (refusal_folded_for_any_evaluator (SupportsEvaluate0 := engine_supports (H := demo)) None "e1" 0 (sample_call "block")
           sample_host h' d eq_refl B) []). reflexivity.
Defined.

Lemma frozen_agent_never_runs_witness :
  match (intercept_or_raise (SupportsEvaluate0 := engine_supports (H := demo)) None "e1" 0 (sample_call "") sample_host).2 with
  | Blocked d => decision d = Block
  | Raised => tool_name_not_empty "read_file" = None
  | Returned _ | Escalated _ => False
  end.
Proof.
  apply (frozen_agent_never_runs (H := demo) None "e1" 0 (sample_call "") sample_host sample_agent);
    [reflexivity|apply sample_frozen|apply sample_not_monitor].
Defined.
