(* ===== verification/RemoteEvaluator.v ===== *)
(** * The thin-proxy evaluator ([norviq/sidecar/remote_evaluator.py])

    An injected sidecar has no engine of its own: it posts the call to the central engine and reads the
    decision back, with retries, and with a fallback for an engine that does not answer.  The connection is a
    list of answers to come; what is posted and how long the evaluator sleeps is recorded.  It is a third
    instance of the interface [SupportsEvaluate]. *)

From S2P Require Import Prelude.
From S2P Require Import Text.
From S2P Require Import Config.
From S2P Require Import Decisions.
From S2P Require Import Effects.
From S2P Require Import Interceptor.

(** What one POST comes back with. *)
Inductive Answer : Type :=
  | Status (code : Z) (body : option json)   (* [None]: [resp.json()] raises *)
  | TimedOut                                 (* [httpx.TimeoutException] *)
  | RequestFailed                            (* any other [httpx.RequestError] *)
  | Unexpected.                              (* an exception of another kind *)

Record Wire := mkWire {
  answers : list Answer;                     (* to come; none: the request fails *)
  posted : list (list (string * json));      (* the payloads put on the wire *)
  slept : list Z;                            (* milliseconds *)
  wire_clock : Z;
}.

Notation W := (M Wire).

(** [client.post(..)]. *)
Definition post (payload : list (string * json)) : W Answer := fun w =>
  let w' l := mkWire l (posted w ++ [payload]) (slept w) (wire_clock w) in
  match answers w with
  | [] => (w' [], inr RequestFailed)
  | a :: l => (w' l, inr a)
  end.

(** [asyncio.sleep]. *)
Definition sleep (ms : Z) : W unit := modify (fun w => mkWire (answers w) (posted w) (slept w ++ [ms]) (wire_clock w)).

Definition identity_json (who : AgentIdentity) : json :=
  JObj [("spiffe_id", JStr (unpoints (spiffe_id who))); ("namespace", JStr (namespace who));
        ("service_account", JStr (service_account who)); ("agent_class", JStr (agent_class who));
        ("framework", JStr (id_framework who)); ("pod_name", JStr (pod_name who));
        ("cluster_id", JStr (cluster_id who)); ("workload", JStr (workload who))].

Definition payload_of (ev : ToolCallEvent) : list (string * json) :=
  [("tool_name", JStr (tool_name ev)); ("tool_params", JObj (tool_params ev));
   ("agent_identity", identity_json (agent_identity ev)); ("session_id", JStr (session_id ev));
   ("call_depth", JInt (call_depth ev)); ("framework", JStr (or_else (framework ev) "sidecar"))].

(** How the attempts ended without a decision. *)
Inductive Last : Type :=
  | StatusError (code : Z)     (* [httpx.HTTPStatusError] *)
  | Silent                     (* no answer *)
  | Broken.                    (* an answer that is no decision, or an unexpected exception *)

Section Remote.
Context (cfg : Settings).
(** [float] of a text. *)
Context (float_of : string -> option Q).

Definition FLOAT_LIMIT : Z := 2 ^ 1024 - 2 ^ 970.

(** [float(v)]; [None]: it raises. *)
Definition as_float (v : json) : option Q :=
  match v with
  | JInt n => if Z.abs n <? FLOAT_LIMIT then Some (inject_Z n) else None
  | JFloat q => Some q
  | JBool b => Some (if b then 1 else 0)%Q
  | JStr s => float_of s
  | _ => None
  end.

Definition as_str (v : json) : option string := match v with JStr s => Some s | _ => None end.

(** The [PolicyDecision] made from a body; [None]: reading it raises. *)
Definition read_decision (body : option json) (now : Z) : option PolicyDecision :=
  match body with
  | Some (JObj fs) =>
      let get k d := default d (assoc k fs) in
      score ← as_float (get "trust_score" (JFloat 0));
      v ← as_str (get "decision" (JStr "block")); v ← parse_verdict v;
      rule ← as_str (get "rule_id" (JStr "remote_eval"));
      why ← as_str (get "reason" (JStr ""));
      Some {| decision := v; policy_id := ""; policy_version := 0; rule_id := rule; reason := why;
              trust_score := score; trust_category := ""; trust_signals := []; trust_dominant_signal := "";
              trust_recommendation := ""; latency_ms := 0; event_id := ""; decided_at := now |}
  | _ => None
  end.

(** The attempts, from number [attempt]; [left] more may follow this one. *)
Fixpoint attempts (payload : list (string * json)) (attempt left : nat) : W (Last + PolicyDecision) :=
  a ← post payload;
  let again (last : Last) :=
    match left with
    | O => mret (inl last)
    | S left' =>
        sleep (sdk_retry_backoff_base_ms cfg * 2 ^ Z.of_nat attempt);;
        attempts payload (S attempt) left'
    end in
  match a with
  | Status code body =>
      if (200 <=? code) && (code <? 300) then
        w ← get_state;
        match read_decision body (wire_clock w) with
        | Some d => mret (inr d)
        | None => mret (inl Broken)
        end
      else if code <? 500 then mret (inl (StatusError code))
      else again (StatusError code)
  | TimedOut | RequestFailed => again Silent
  | Unexpected => mret (inl Broken)
  end.

Definition refused (l : Last) : bool := match l with StatusError code => code <? 500 | _ => false end.

Definition FAIL_CLOSED_REASON : string :=
  "Thin-proxy sidecar could not reach the central policy engine (fail-closed)".
Definition ENGINE_REFUSED_REASON : string :=
  "Central policy engine rejected the sidecar's request (credential or request error, not an outage)".
Definition FAIL_OPEN_REASON : string :=
  "Thin-proxy sidecar could not reach the central policy engine; forwarding UNGOVERNED because "
  +:+ "the configured fallback posture is allow".

(** The decision where the engine gave none. *)
Definition fallback (l : Last) (now : Z) : PolicyDecision :=
  if negb (refused l) && bool_decide (sdk_fallback_mode cfg = "allow")
  then new_decision Allow "thin_proxy_fail_open" FAIL_OPEN_REASON 0 "" now
  else new_decision Block "thin_proxy_fail_closed"
         (if refused l then ENGINE_REFUSED_REASON else FAIL_CLOSED_REASON) 0 "" now.

(** [_evaluate_upstream]. *)
Definition evaluate_upstream (ev : ToolCallEvent) : W PolicyDecision :=
  r ← attempts (payload_of ev) 0 (sdk_retry_max_attempts cfg);
  w ← get_state;
  mret (match r with inr d => d | inl l => fallback l (wire_clock w) end).

(** ** Reference: the first answer that is not transient decides *)

(** A server error or silence is asked again. *)
Definition transient (a : Answer) : bool :=
  match a with Status code _ => 500 <=? code | TimedOut | RequestFailed => true | Unexpected => false end.

(** What the evaluator makes of an answer that ends the attempts. *)
Definition outcome (a : Answer) (now : Z) : Last + PolicyDecision :=
  match a with
  | Status code body =>
      if (200 <=? code) && (code <? 300)
      then match read_decision body now with Some d => inr d | None => inl Broken end
      else inl (StatusError code)
  | TimedOut | RequestFailed => inl Silent
  | Unexpected => inl Broken
  end.

(** The answers of a wire, the failures after its last included. *)
Definition answer (w : Wire) (i : nat) : Answer := default RequestFailed (answers w !! i).

Fixpoint first_final (w : Wire) (i left : nat) : nat :=
  match left with
  | O => i
  | S left' => if transient (answer w i) then first_final w (S i) left' else i
  end.

(** ** Lemmas *)

Lemma answer_drop w i ps ss : answer (mkWire (drop 1 (answers w)) ps ss (wire_clock w)) i = answer w (S i).
Proof. unfold answer. cbn. by rewrite lookup_drop. Qed.

Lemma first_final_drop w ps ss i left :
  S (first_final (mkWire (drop 1 (answers w)) ps ss (wire_clock w)) i left) = first_final w (S i) left.
Proof.
  revert i. induction left as [|left IH]; intros i; cbn [first_final]; [done|]. rewrite answer_drop.
  destruct (transient (answer w (S i))); [apply IH|done].
Qed.

Lemma first_final_bounds w i left : (i <= first_final w i left <= i + left)%nat.
Proof.
  revert i. induction left as [|left IH]; intros i; cbn [first_final]; [lia|]. destruct (transient _); [|lia].
  specialize (IH (S i)). lia.
Qed.

Lemma first_final_final w i left :
  (first_final w i left < i + left)%nat -> transient (answer w (first_final w i left)) = false.
Proof.
  revert i. induction left as [|left IH]; intros i L; cbn [first_final] in *; [lia|].
  destruct (transient (answer w i)) eqn:T; [apply IH; lia|done].
Qed.

Lemma first_final_least w i left j :
  (i <= j < first_final w i left)%nat -> transient (answer w j) = true.
Proof.
  revert i. induction left as [|left IH]; intros i L; cbn [first_final] in *; [lia|].
  destruct (transient (answer w i)) eqn:T; [|lia]. destruct (decide (i = j)) as [<-|]; [done|]. apply (IH (S i)). lia.
Qed.

(** The sleeps before attempt [k + n]. *)
Definition backoffs (k n : nat) : list Z := map (fun j => sdk_retry_backoff_base_ms cfg * 2 ^ Z.of_nat j) (seq k n).

Lemma post_answer payload w :
  post payload w = (mkWire (drop 1 (answers w)) (posted w ++ [payload]) (slept w) (wire_clock w), inr (answer w 0)).
Proof. unfold post, answer. by destruct (answers w). Qed.

(** An answer that ends the attempts. *)
Lemma attempts_stop payload k left w : transient (answer w 0) = false \/ left = O ->
  attempts payload k left w =
    (mkWire (drop 1 (answers w)) (posted w ++ [payload]) (slept w) (wire_clock w), inr (outcome (answer w 0) (wire_clock w))).
Proof.
  intros H. destruct left as [|left]; cbn [attempts]; unfold mbind, M_bind; rewrite post_answer;
    destruct (answer w 0) as [code body| | |]; cbn [outcome]; try done; try (by destruct H).
  - destruct ((200 <=? code) && (code <? 300)) eqn:E; [|by destruct (code <? 500)]. cbn. by destruct (read_decision body (wire_clock w)).
  - destruct H as [T|]; [|done]. cbn [transient] in T. apply Z.leb_gt in T.
    destruct ((200 <=? code) && (code <? 300)) eqn:E; [cbn; by destruct (read_decision body (wire_clock w))|].
    by rewrite (proj2 (Z.ltb_lt _ _) T).
Qed.

Lemma attempts_again payload k left w : transient (answer w 0) = true ->
  attempts payload k (S left) w =
    attempts payload (S k) left (mkWire (drop 1 (answers w)) (posted w ++ [payload])
                                   (slept w ++ [sdk_retry_backoff_base_ms cfg * 2 ^ Z.of_nat k]) (wire_clock w)).
Proof.
  intros T. cbn [attempts]. unfold mbind, M_bind. rewrite post_answer.
  destruct (answer w 0) as [code body| | |]; try done. cbn [transient] in T. apply Z.leb_le in T.
  replace ((200 <=? code) && (code <? 300)) with false by (symmetry; apply andb_false_iff; right; apply Z.ltb_ge; lia).
  by rewrite (proj2 (Z.ltb_ge _ _) T).
Qed.

Lemma attempts_spec payload k left w :
  let i := first_final w 0 left in
  exists l, attempts payload k left w =
    (mkWire l (posted w ++ replicate (S i) payload) (slept w ++ backoffs k i) (wire_clock w),
     inr (outcome (answer w i) (wire_clock w))).
Proof.
  revert k w. induction left as [|left IH]; intros k w; cbn [first_final].
  - exists (drop 1 (answers w)). rewrite attempts_stop by auto. cbn. by rewrite app_nil_r.
  - destruct (transient (answer w 0)) eqn:T.
    + rewrite attempts_again by done. destruct (IH (S k) (mkWire (drop 1 (answers w)) (posted w ++ [payload])
        (slept w ++ [sdk_retry_backoff_base_ms cfg * 2 ^ Z.of_nat k]) (wire_clock w))) as [l E].
      exists l. rewrite E. cbn [posted slept wire_clock]. rewrite answer_drop, <- !app_assoc.
      rewrite <- (first_final_drop w (posted w ++ [payload]) (slept w ++ [sdk_retry_backoff_base_ms cfg * 2 ^ Z.of_nat k]) 0 left).
      done.
    + exists (drop 1 (answers w)). rewrite attempts_stop by auto. cbn. by rewrite app_nil_r.
Qed.

(** ** What the evaluator promises *)

Lemma upstream_spec ev w :
  let n := sdk_retry_max_attempts cfg in
  let i := first_final w 0 n in
  exists l, evaluate_upstream ev w =
    (mkWire l (posted w ++ replicate (S i) (payload_of ev)) (slept w ++ backoffs 0 i) (wire_clock w),
     inr (match outcome (answer w i) (wire_clock w) with
          | inr d => d
          | inl last => fallback last (wire_clock w)
          end)) /\
    (i <= n)%nat /\ (forall j, (j < i)%nat -> transient (answer w j) = true) /\
    ((i < n)%nat -> transient (answer w i) = false).
Proof.
  intros n i. destruct (attempts_spec (payload_of ev) 0 n w) as [l E]. exists l. split; [|split; [|split]].
  - unfold evaluate_upstream, mbind, M_bind. fold n. rewrite E. done.
  - pose proof (first_final_bounds w 0 n). unfold i. lia.
  - intros j L. apply (first_final_least w 0 n). unfold i in L. lia.
  - intros L. apply first_final_final. unfold i in L. lia.
Qed.

Lemma sum_backoffs n :
  foldr Z.add 0 (backoffs 0 n) = sdk_retry_backoff_base_ms cfg * (2 ^ Z.of_nat n - 1).
Proof.
  unfold backoffs. assert (G : forall k, foldr Z.add 0 (map (fun j => sdk_retry_backoff_base_ms cfg * 2 ^ Z.of_nat j) (seq k n))
    = sdk_retry_backoff_base_ms cfg * (2 ^ Z.of_nat (k + n) - 2 ^ Z.of_nat k)).
  { induction n as [|n IH]; intros k; cbn [seq map foldr]; [rewrite Nat.add_0_r; lia|].
    rewrite IH. replace (S k + n)%nat with (k + S n)%nat by lia. rewrite (Nat2Z.inj_succ k), Z.pow_succ_r by lia. lia. }
  rewrite (G O). done.
Qed.

(** The evaluator is the reference: the decision is the one of the first answer that is neither a server
    error nor silence, or of the last attempt; the same payload is posted each time, at most one request
    plus the retries, and the evaluator sleeps at most the base times two to the retries, less one. *)
Theorem first_answer_decides ev w :
  let n := sdk_retry_max_attempts cfg in
  let i := first_final w 0 n in
  exists w', evaluate_upstream ev w =
    (w', inr (match outcome (answer w i) (wire_clock w) with
              | inr d => d
              | inl last => fallback last (wire_clock w)
              end)) /\
    posted w' = posted w ++ replicate (S i) (payload_of ev) /\ (i <= n)%nat /\
    (forall j, (j < i)%nat -> transient (answer w j) = true) /\ ((i < n)%nat -> transient (answer w i) = false) /\
    exists sleeps, slept w' = slept w ++ sleeps /\
      (0 <= sdk_retry_backoff_base_ms cfg -> foldr Z.add 0 sleeps <= sdk_retry_backoff_base_ms cfg * (2 ^ Z.of_nat n - 1)).
Proof.
  intros n i. destruct (upstream_spec ev w) as (l & E & Bi & Tr & Fin). eexists. split; [exact E|]. cbn [posted slept].
  split; [done|]. split; [done|]. split; [done|]. split; [done|]. eexists. split; [done|]. intros B.
  rewrite sum_backoffs. apply Z.mul_le_mono_nonneg_l; [done|].
  assert (L : (i <= n)%nat) by exact Bi.
  pose proof (Z.pow_le_mono_r 2 (Z.of_nat i) (Z.of_nat n) ltac:(lia) ltac:(lia)) as P. unfold i, n in P |- *. lia.
Qed.

(** The first decision the engine gives stands, as it gave it. *)
Definition engine_said (a : Answer) (d : PolicyDecision) : Prop :=
  exists code body now, a = Status code body /\ 200 <= code < 300 /\ read_decision body now = Some d.

(** A call is let through only on the engine's word or, under the fallback "allow", while nothing the
    engine sent within the attempts was a refusal; a refusal, an answer below 500 that is no success,
    blocks whatever the fallback. *)
Theorem ungoverned_only_without_refusal ev w w' d :
  evaluate_upstream ev w = (w', inr d) ->
  (is_allowed d = true ->
     (exists i, (i <= sdk_retry_max_attempts cfg)%nat /\ engine_said (answer w i) d) \/
     (sdk_fallback_mode cfg = "allow" /\ rule_id d = "thin_proxy_fail_open" /\
      exists i, (i <= sdk_retry_max_attempts cfg)%nat /\
        ((i < sdk_retry_max_attempts cfg)%nat -> transient (answer w i) = false) /\
        forall j code body, (j <= i)%nat -> answer w j = Status code body -> (code < 200 \/ 300 <= code) -> 500 <= code)) /\
  (forall code body, answer w 0 = Status code body -> (code < 200 \/ 300 <= code < 500) ->
     decision d = Block /\ rule_id d = "thin_proxy_fail_closed" /\ length (posted w') = S (length (posted w))).
Proof.
  intros E. destruct (upstream_spec ev w) as (l & E' & Bi & Tr & Fin). rewrite E' in E. injection E as <- <-.
  set (i := first_final w 0 (sdk_retry_max_attempts cfg)) in *. split.
  - intros A. destruct (outcome (answer w i) (wire_clock w)) as [last|d] eqn:O.
    + right. unfold fallback in *. destruct (refused last) eqn:Rf; [done|].
      case_bool_decide as M; cbn [negb andb] in *; [|done]. split; [done|]. split; [done|]. exists i. split; [done|]. split; [done|].
      intros j code body Lj Ej Hc. destruct (decide (j = i)) as [->|].
      * rewrite Ej in O. cbn [outcome] in O. replace ((200 <=? code) && (code <? 300)) with false in O
          by (symmetry; apply andb_false_iff; rewrite Z.leb_gt, Z.ltb_ge; lia).
        injection O as <-. cbn in Rf. apply Z.ltb_ge in Rf. done.
      * specialize (Tr j ltac:(lia)). rewrite Ej in Tr. cbn in Tr. apply Z.leb_le in Tr. done.
    + left. exists i. split; [done|]. unfold outcome in O. destruct (answer w i) as [code body| | |] eqn:Ea; try done.
      destruct ((200 <=? code) && (code <? 300)) eqn:C; [|done]. destruct (read_decision body _) as [d'|] eqn:Rd; [|done].
      injection O as ->. exists code, body, (wire_clock w). split; [done|]. split; [bool_prop; lia|done].
  - intros code body E0 Hc. assert (i = O) as ->.
    { destruct i as [|i']; [done|]. specialize (Tr O ltac:(lia)). rewrite E0 in Tr. cbn in Tr. apply Z.leb_le in Tr. lia. }
    rewrite E0. cbn [outcome]. replace ((200 <=? code) && (code <? 300)) with false
      by (symmetry; apply andb_false_iff; rewrite Z.leb_gt, Z.ltb_ge; lia).
    unfold fallback. cbn [refused]. rewrite (proj2 (Z.ltb_lt code 500)) by lia. cbn. split; [done|]. split; [done|].
    rewrite length_app. cbn. lia.
Qed.

Lemma upstream_total ev w : wp (evaluate_upstream ev) (fun _ _ => True) (fun _ _ => False) w.
Proof. unfold wp. destruct (upstream_spec ev w) as (l & -> & _). done. Qed.

End Remote.

(** The interface: an event is always answered. *)
#[global] Instance remote_supports (cfg : Settings) (float_of : string -> option Q) : SupportsEvaluate Wire := {|
  ask := evaluate_upstream cfg float_of;
  ask_total := upstream_total cfg float_of;
|}.

(** ** Concrete runs *)

Module Sample.

Definition who : AgentIdentity := mkIdentity (points "spiffe://norviq/ns/a/sa/b") "a" "b" "bot" "" "" "" "".
Definition event : ToolCallEvent := mkEvent "e1" "send_mail" [] who "s1" 0 "sidecar" 1 None [] "" "" "".
Definition said_allow : Answer := Status 200 (Some (JObj [("decision", JStr "allow"); ("rule_id", JStr "r1"); ("trust_score", JInt 1)])).
Definition wire (l : list Answer) : Wire := mkWire l [] [] 7.
Definition run (l : list Answer) := evaluate_upstream default_settings (fun _ => None) event (wire l).

(** A dropped connection and a terminating pod are asked again; an expired credential is not, and it blocks
    although the fallback allows. *)
Example retried : exists w d, run [RequestFailed; Status 503 None; said_allow] = (w, inr d) /\
  decision d = Allow /\ rule_id d = "r1" /\ slept w = [100; 200].
Proof. eexists _, _. split; [by vm_compute|done]. Qed.

Lemma ungoverned_only_without_refusal_witness : exists w d,
  run [Status 401 None; said_allow] = (w, inr d) /\ decision d = Block /\ length (posted w) = 1%nat.
Proof.
  destruct (run [Status 401 None; said_allow]) as [w [e|d]] eqn:E; [by vm_compute in E|]. exists w, d. split; [done|].
  destruct (ungoverned_only_without_refusal default_settings (fun _ => None) event _ w d E) as [_ B].
  destruct (B 401 None eq_refl ltac:(lia)) as (D & _ & L). done.
Defined.

(** The two ways to go on without the engine's word: silence, and a success that is no decision. *)
Example fails_open : exists w d w' d',
  run [] = (w, inr d) /\ rule_id d = "thin_proxy_fail_open" /\ length (posted w) = 3%nat /\
  run [Status 200 None; said_allow] = (w', inr d') /\ rule_id d' = "thin_proxy_fail_open" /\ length (posted w') = 1%nat.
Proof. eexists _, _, _, _. split; [by vm_compute|]. split; [done|]. split; [done|]. split; [by vm_compute|done]. Qed.

End Sample.
