(* ===== verification/Json.v ===== *)
(** * JSON values and their compact serialisation

    The MCP proxy handles decoded JSON: [json.loads] on the way in, [json.dumps] with compact separators
    and [ensure_ascii] on the way out ([mcp/protocol.py], [mcp/pins.py]).  A value holds strings as code
    points and objects as association lists in insertion order.  The main result is that the
    serialisation is injective: two texts are equal only for equal values. *)

From stdpp Require Import sorting pretty.
From S2P Require Import Prelude.
From S2P Require Import Text.

(** ** Values *)

(** A finite double: its sign and its magnitude [mant * 2 ^ expo] ([decode] refuses the others). *)
Record double := Double { neg : bool; mant : Z; expo : Z }.

(** One record per double: the magnitude is zero or has an odd mantissa. *)
Definition double_ok (d : double) : bool :=
  if mant d =? 0 then expo d =? 0 else (0 <? mant d) && Z.odd (mant d).

(** [f.is_integer()] and [int(f)]. *)
Definition is_integer (d : double) : bool := 0 <=? expo d.
Definition int_of (d : double) : Z := (if neg d then -1 else 1) * (mant d * 2 ^ expo d).

Inductive value : Type :=
  | VNull
  | VBool (b : bool)
  | VInt (n : Z)
  | VFloat (d : double)
  | VStr (s : text)
  | VArr (l : list value)
  | VObj (fields : list (text * value)).

Section ValueInd.
Context (P : value -> Prop).
Context (Pnull : P VNull) (Pbool : forall b, P (VBool b)) (Pint : forall n, P (VInt n)).
Context (Pfloat : forall d, P (VFloat d)) (Pstr : forall s, P (VStr s)).
Context (Parr : forall l, Forall P l -> P (VArr l)).
Context (Pobj : forall fs, Forall (fun f => P f.2) fs -> P (VObj fs)).

Fixpoint value_ind' (v : value) : P v :=
  match v with
  | VNull => Pnull
  | VBool b => Pbool b
  | VInt n => Pint n
  | VFloat d => Pfloat d
  | VStr s => Pstr s
  | VArr l => Parr l ((fix go l : Forall P l := match l with
                                   | [] => List.Forall_nil _
                                   | x :: l' => List.Forall_cons _ x l' (value_ind' x) (go l')
                                   end) l)
  | VObj fs => Pobj fs ((fix go fs : Forall (fun f => P f.2) fs := match fs with
                                      | [] => List.Forall_nil _
                                      | f :: fs' => List.Forall_cons (fun f => P f.2) f fs' (value_ind' f.2) (go fs')
                                      end) fs)
  end.
End ValueInd.

(** The number of nodes of a value. *)
Fixpoint nodes (v : value) : nat :=
  match v with
  | VArr l => S (list_sum (map nodes l))
  | VObj fs => S (list_sum (map (fun f => nodes f.2) fs))
  | _ => 1
  end.

(** ** Dictionaries: [d.get(k)], [k in d], [d[k] = v] *)

Section Dict.
Context {B : Type}.

Fixpoint field (k : text) (d : list (text * B)) : option B :=
  match d with
  | [] => None
  | (k', v) :: d' => if bool_decide (k' = k) then Some v else field k d'
  end.

Fixpoint put_field (k : text) (v : B) (d : list (text * B)) : list (text * B) :=
  match d with
  | [] => [(k, v)]
  | (k', v') :: d' => if bool_decide (k' = k) then (k', v) :: d' else (k', v') :: put_field k v d'
  end.

(** [d.pop(k, None)]. *)
Fixpoint del_field (k : text) (d : list (text * B)) : list (text * B) :=
  match d with
  | [] => []
  | (k', v') :: d' => if bool_decide (k' = k) then d' else (k', v') :: del_field k d'
  end.

Lemma field_put k v k' d : field k' (put_field k v d) = if bool_decide (k = k') then Some v else field k' d.
Proof.
  induction d as [|[k0 v0] d IH]; simpl; [done|].
  repeat case_bool_decide; subst; simpl; repeat case_bool_decide; subst; simpl; try congruence; try done;
    rewrite IH; by case_bool_decide.
Qed.

Lemma field_put_eq k v d : field k (put_field k v d) = Some v.
Proof. rewrite field_put. by case_bool_decide. Qed.

Lemma field_put_ne k v k' d : k <> k' -> field k' (put_field k v d) = field k' d.
Proof. intros N. rewrite field_put. by case_bool_decide. Qed.

Lemma field_key k d : is_Some (field k d) <-> k ∈ d.*1.
Proof.
  induction d as [|[k0 v0] d IH]; simpl; [split; [by intros [??]|by intros ?%elem_of_nil]|].
  rewrite elem_of_cons, <- IH. case_bool_decide; naive_solver.
Qed.

Lemma field_elem k v d : field k d = Some v -> (k, v) ∈ d.
Proof.
  induction d as [|[k0 v0] d IH]; simpl; [done|]. case_bool_decide; intros F; simplify_eq; [left|right; auto].
Qed.

Lemma elem_field k v d : NoDup d.*1 -> (k, v) ∈ d -> field k d = Some v.
Proof.
  induction d as [|[k0 v0] d IH]; intros ND E; [by apply elem_of_nil in E|].
  rewrite fmap_cons in ND. apply NoDup_cons in ND as [N ND]. simpl.
  apply elem_of_cons in E as [[= -> ->]|E]; case_bool_decide; try done; subst; [|auto].
  destruct N. apply list_elem_of_fmap. by eexists (_, v).
Qed.

Lemma put_field_keys k v d :
  (put_field k v d).*1 = if bool_decide (k ∈ d.*1) then d.*1 else d.*1 ++ [k].
Proof.
  induction d as [|[k0 v0] d IH]; [done|].
  cbn [put_field]. rewrite fmap_cons. destruct (decide (k0 = k)) as [->|E].
  - rewrite (bool_decide_true (k = k)) by done. rewrite fmap_cons. by rewrite bool_decide_true by left.
  - rewrite (bool_decide_false (k0 = k)) by done. rewrite fmap_cons, IH. simpl.
    destruct (decide (k ∈ d.*1)) as [I|I].
    + rewrite !bool_decide_true; [done|by right|done].
    + rewrite !bool_decide_false; [done| |done]. intros [->|?]%elem_of_cons; done.
Qed.

Lemma put_field_nodup k v d : NoDup d.*1 -> NoDup (put_field k v d).*1.
Proof.
  intros ND. rewrite put_field_keys. case_bool_decide; [done|].
  apply NoDup_app. split; [done|]. split; [|repeat constructor; by intros ?%elem_of_nil].
  intros x Hx ->%list_elem_of_singleton. done.
Qed.

Lemma del_field_sub k d : (del_field k d).*1 `sublist_of` d.*1.
Proof.
  induction d as [|[k0 v0] d IH]; simpl; [done|]. case_bool_decide; [by apply sublist_cons|by constructor].
Qed.

Lemma field_del k k' d : NoDup d.*1 -> field k' (del_field k d) = if bool_decide (k = k') then None else field k' d.
Proof.
  induction d as [|[k0 v0] d IH]; intros ND; simpl; [by case_bool_decide|].
  rewrite fmap_cons in ND. apply NoDup_cons in ND as [N ND].
  destruct (decide (k0 = k)) as [->|E].
  - rewrite bool_decide_true by done. case_bool_decide as E; subst; [|done].
    destruct (field k' d) eqn:F; [|done]. destruct N. apply field_key. eauto.
  - rewrite bool_decide_false by done. simpl. rewrite IH by done. repeat case_bool_decide; subst; congruence.
Qed.

End Dict.

(** ** [json.dumps(v, separators=(",", ":"), ensure_ascii=True)] *)

(** What the encoder prints for a float: [float.__repr__].  It is Python's, not the repository's; what is
    used of it is that it round-trips (so distinct doubles print differently) and looks like a float. *)
Definition is_token (c : Z) : bool := is_alnum c || (c =? 43) || (c =? 45) || (c =? 46).

(** A text that reads as an integer literal. *)
Definition int_like (t : text) : bool := forallb (fun c => is_num c || (c =? 45)) t.

Class PyFloat := {
  frepr : double -> text;
  frepr_inj d d' : double_ok d = true -> double_ok d' = true -> frepr d = frepr d' -> d = d';
  frepr_token d : double_ok d = true -> forallb is_token (frepr d) = true;
  frepr_shape d : double_ok d = true ->
    int_like (frepr d) = false /\ frepr d ∉ [points "null"; points "true"; points "false"];
}.

Definition hex_digit (n : Z) : Z := if n <? 10 then 48 + n else 87 + n.
Definition hex4 (n : Z) : text :=
  map hex_digit [n / 4096 mod 16; n / 256 mod 16; n / 16 mod 16; n mod 16].

(** The UTF-16 units of a code point, as [\uXXXX] escapes spell them. *)
Definition units1 (c : Z) : list Z :=
  if c <? 65536 then [c] else [55296 + (c - 65536) / 1024; 56320 + (c - 65536) mod 1024].

(** The escape of one unit ([py_encode_basestring_ascii]). *)
Definition esc1 (u : Z) : text :=
  if u =? 34 then [92; 34]
  else if u =? 92 then [92; 92]
  else if u =? 10 then [92; 110]
  else if u =? 13 then [92; 114]
  else if u =? 9 then [92; 116]
  else if u =? 12 then [92; 102]
  else if u =? 8 then [92; 98]
  else if (32 <=? u) && (u <=? 126) then [u]
  else 92 :: 117 :: hex4 u.

Definition units (s : text) : list Z := flat_map units1 s.
Definition dump_str (s : text) : text := 34 :: flat_map esc1 (units s) ++ [34].

Definition dump_int (n : Z) : text := points (fmt_int n).

Section Dump.
Context `{PyFloat}.

Fixpoint dump (v : value) : text :=
  match v with
  | VNull => points "null"
  | VBool b => points (if b then "true" else "false")
  | VInt n => dump_int n
  | VFloat d => frepr d
  | VStr s => dump_str s
  | VArr l => 91 :: join [44] (map dump l) ++ [93]
  | VObj fs => 123 :: join [44] (map (fun f => dump_str f.1 ++ 58 :: dump f.2) fs) ++ [125]
  end.

(** [sort_keys=True]: the items of every object in the order of their keys. *)
Definition key_before (f g : text * value) : Prop := text_leb f.1 g.1 = true.
#[global] Instance key_before_dec : RelDecision key_before.
Proof. intros f g. unfold key_before. apply _. Defined.

Fixpoint sort_keys (v : value) : value :=
  match v with
  | VArr l => VArr (map sort_keys l)
  | VObj fs => VObj (merge_sort key_before (map (fun f => (f.1, sort_keys f.2)) fs))
  | v => v
  end.

End Dump.

(** ** Values that come from [json.loads] *)

(** No high surrogate stands before a low one: the decoder joins such a pair of escapes.  (Bytes that encode the
    surrogates themselves, which [decode] lets through, are outside this predicate.) *)
Definition is_high (c : Z) : bool := (55296 <=? c) && (c <? 56320).
Definition is_low (c : Z) : bool := (56320 <=? c) && (c <? 57344).

Fixpoint str_ok (s : text) : bool :=
  match s with
  | [] => true
  | c :: s' => (0 <=? c) && (c <? 1114112)
               && negb (is_high c && match s' with d :: _ => is_low d | [] => false end) && str_ok s'
  end.

Fixpoint value_ok (v : value) : bool :=
  match v with
  | VNull | VBool _ | VInt _ => true
  | VFloat d => double_ok d
  | VStr s => str_ok s
  | VArr l => forallb value_ok l
  | VObj fs => forallb (fun f => str_ok f.1 && value_ok f.2) fs && bool_decide (NoDup fs.*1)
  end.

(** ** Injectivity of the string encoding *)

Definition unhex (c : Z) : Z := if c <? 58 then c - 48 else c - 87.

(** Read one unit back. *)
Definition unesc (t : text) : option (Z * text) :=
  match t with
  | 34 :: _ => None
  | 92 :: 117 :: a :: b :: c :: d :: r =>
      Some (((unhex a * 16 + unhex b) * 16 + unhex c) * 16 + unhex d, r)
  | 92 :: c :: r =>
      Some (if c =? 110 then 10 else if c =? 114 then 13 else if c =? 116 then 9 else if c =? 102 then 12
            else if c =? 98 then 8 else c, r)
  | c :: r => Some (c, r)
  | [] => None
  end.

Lemma unhex_digit n : 0 <= n < 16 -> unhex (hex_digit n) = n.
Proof. intros B. unfold unhex, hex_digit. destruct (n <? 10) eqn:E; bool_prop; case_match; bool_prop; lia. Qed.

Lemma hex4_value u : 0 <= u < 65536 ->
  ((u / 4096 mod 16 * 16 + u / 256 mod 16) * 16 + u / 16 mod 16) * 16 + u mod 16 = u.
Proof. intros B. pose proof B. Z.to_euclidean_division_equations. lia. Qed.

Lemma unesc_plain u r : u <> 34 -> u <> 92 -> unesc (u :: r) = Some (u, r).
Proof. intros. unfold unesc. repeat (case_match; subst; try done; try lia). Qed.

Lemma unesc_esc1 u r : 0 <= u < 65536 -> unesc (esc1 u ++ r) = Some (u, r).
Proof.
  intros B. unfold esc1.
  repeat (match goal with |- context [if ?x =? ?y then _ else _] => destruct (x =? y) eqn:? end;
          bool_prop; subst; [done|]).
  destruct ((32 <=? u) && (u <=? 126)); [by apply unesc_plain|].
  unfold hex4. simpl. rewrite !unhex_digit by (apply Z.mod_pos_bound; lia). by rewrite hex4_value.
Qed.

Lemma esc_inj us us' r r' :
  Forall (fun u => 0 <= u < 65536) us -> Forall (fun u => 0 <= u < 65536) us' ->
  flat_map esc1 us ++ 34 :: r = flat_map esc1 us' ++ 34 :: r' -> us = us' /\ r = r'.
Proof.
  intros F. revert us'. induction F as [|u us B F IH]; intros us' F' E; destruct F' as [|u' us' B' F'].
  - by simplify_eq/=.
  - cbn [flat_map] in E. rewrite <- app_assoc in E. apply (f_equal unesc) in E.
    rewrite unesc_esc1 in E by done. done.
  - cbn [flat_map] in E. rewrite <- app_assoc in E. apply (f_equal unesc) in E.
    rewrite unesc_esc1 in E by done. done.
  - cbn [flat_map] in E. rewrite <- !app_assoc in E. apply (f_equal unesc) in E.
    rewrite !unesc_esc1 in E by done. simplify_eq. by destruct (IH us' F') as [-> ->].
Qed.

(** Join the surrogate pairs of a list of units. *)
Fixpoint join_units (us : list Z) : text :=
  match us with
  | [] => []
  | u :: us' =>
      match us' with
      | u' :: us'' =>
          if is_high u && is_low u' then 65536 + (u - 55296) * 1024 + (u' - 56320) :: join_units us''
          else u :: join_units us'
      | [] => [u]
      end
  end.

Lemma units1_bounds c : 0 <= c < 1114112 -> Forall (fun u => 0 <= u < 65536) (units1 c).
Proof.
  intros B. unfold units1. destruct (c <? 65536) eqn:E; bool_prop; repeat constructor; try lia;
    Z.to_euclidean_division_equations; lia.
Qed.

Lemma str_ok_bounds s : str_ok s = true -> Forall (fun c => 0 <= c < 1114112) s.
Proof. induction s as [|c s IH]; intros O; [constructor|]. cbn in O. bool_prop. constructor; [lia|auto]. Qed.

Lemma units_bounds s : str_ok s = true -> Forall (fun u => 0 <= u < 65536) (units s).
Proof.
  intros O%str_ok_bounds. induction O as [|c s B F IH]; [constructor|].
  apply Forall_app. split; [by apply units1_bounds|done].
Qed.

Lemma is_low_bmp c : is_low c = true -> c < 65536.
Proof. unfold is_low. intros. bool_prop. lia. Qed.

Lemma units_head_low s : str_ok s = true ->
  match units s with u :: _ => is_low u | [] => false end = match s with c :: _ => is_low c | [] => false end.
Proof.
  destruct s as [|c s]; [done|]. intros O. cbn in O. bool_prop. cbn [units flat_map]. unfold units1.
  destruct (c <? 65536) eqn:E; [done|]. bool_prop. cbn [app]. unfold is_low.
  transitivity false; [apply andb_false_iff; left; apply Z.leb_gt|symmetry; apply andb_false_iff; right; apply Z.ltb_ge; lia].
  Z.to_euclidean_division_equations. lia.
Qed.

Lemma join_units_units s : str_ok s = true -> join_units (units s) = s.
Proof.
  induction s as [|c s IH]; intros O; [done|]. cbn [str_ok] in O. bool_prop.
  specialize (IH ltac:(done)). pose proof (units_head_low s ltac:(done)) as HL.
  cbn [units flat_map]. fold (units s). unfold units1. destruct (c <? 65536) eqn:E; bool_prop.
  - cbn [app join_units]. destruct (units s) as [|u us] eqn:U; [by rewrite <- IH|].
    match goal with X : is_high c && _ = false |- _ => rewrite HL, X end. by rewrite IH.
  - cbn [app join_units].
    assert (is_high (55296 + (c - 65536) / 1024) = true) as ->.
    { unfold is_high. apply andb_true_iff. split; [apply Z.leb_le|apply Z.ltb_lt];
        Z.to_euclidean_division_equations; lia. }
    assert (is_low (56320 + (c - 65536) mod 1024) = true) as ->.
    { unfold is_low. apply andb_true_iff. split; [apply Z.leb_le|apply Z.ltb_lt];
        Z.to_euclidean_division_equations; lia. }
    cbn [andb]. rewrite IH. f_equal. Z.to_euclidean_division_equations. lia.
Qed.

Lemma dump_str_inj s s' r r' :
  str_ok s = true -> str_ok s' = true -> dump_str s ++ r = dump_str s' ++ r' -> s = s' /\ r = r'.
Proof.
  intros O O' E. unfold dump_str in E. cbn [app] in E. rewrite <- !app_assoc in E. injection E as E.
  apply esc_inj in E as [E ->]; [|by apply units_bounds..]. split; [|done].
  by rewrite <- (join_units_units s), E, join_units_units.
Qed.

(** ** Tokens: everything printed without brackets or quotes *)

Definition ends_token (r : text) : Prop := match r with [] => True | c :: _ => is_token c = false end.

Lemma token_inj t t' r r' :
  forallb is_token t = true -> forallb is_token t' = true -> ends_token r -> ends_token r' ->
  t ++ r = t' ++ r' -> t = t' /\ r = r'.
Proof.
  revert t'. induction t as [|c t IH]; intros t' T T' N N' E; destruct t' as [|c' t']; simplify_eq/=; bool_prop.
  - done.
  - congruence.
  - congruence.
  - destruct (IH t') as [-> ->]; auto.
Qed.

Lemma points_inj s s' : points s = points s' -> s = s'.
Proof.
  revert s'. induction s as [|c s IH]; intros [|c' s'] E; simplify_eq/=; [done|].
  f_equal; [|auto]. rewrite <- (Ascii.ascii_nat_embedding c), <- (Ascii.ascii_nat_embedding c'). congruence.
Qed.

Lemma pretty_N_go_chars (p : Z -> bool) x s :
  (forall c, is_num c = true -> p c = true) -> forallb p (points s) = true ->
  forallb p (points (pretty_N_go x s)) = true.
Proof.
  intros N. revert s. induction (N.lt_wf_0 x) as [x _ IH]; intros s A.
  destruct (decide (0 < x)%N) as [P|P]; [|by replace x with 0%N by lia].
  rewrite pretty_N_go_step by done. apply IH; [by apply N.div_lt|].
  cbn [points forallb]. rewrite A, andb_true_r. apply N. unfold pretty_N_char. by repeat case_match.
Qed.

(** Digits and a sign are all an integer prints. *)
Lemma dump_int_like n : int_like (dump_int n) = true.
Proof.
  unfold int_like, dump_int, fmt_int.
  destruct n as [|p|p]; [done| |]; unfold pretty, pretty_Z, pretty, pretty_positive, pretty, pretty_N;
    cbn [decide]; case_match; try done.
  - apply pretty_N_go_chars; [|done]. intros c ->. done.
  - rewrite string_app_cons. cbn [points forallb]. apply pretty_N_go_chars; [|done]. intros c ->. done.
Qed.

Lemma pretty_N_go_nonempty x s : s <> "" -> pretty_N_go x s <> "".
Proof.
  revert s. induction (N.lt_wf_0 x) as [x _ IH]; intros s A.
  destruct (decide (0 < x)%N) as [P|P]; [|by replace x with 0%N by lia].
  rewrite pretty_N_go_step by done. apply IH; [by apply N.div_lt|done].
Qed.

Lemma dump_int_nonempty n : dump_int n <> [].
Proof.
  intros E. apply (points_inj _ "") in E. destruct n as [|p|p]; [done| |done].
  unfold fmt_int, pretty, pretty_Z, pretty, pretty_positive, pretty, pretty_N in E.
  destruct (decide _); [done|]. rewrite pretty_N_go_step in E by done. by apply pretty_N_go_nonempty in E.
Qed.

Lemma int_like_token t : int_like t = true -> forallb is_token t = true.
Proof.
  unfold int_like. rewrite !forallb_forall. intros A c I%A. unfold is_token, is_alnum.
  apply orb_true_iff in I as [->| ->]; [by rewrite !orb_true_r|by rewrite !orb_true_r].
Qed.

Lemma dump_int_inj n n' : dump_int n = dump_int n' -> n = n'.
Proof. intros E%points_inj. by apply fmt_int_inj. Qed.

(** ** Injectivity of the whole serialisation *)

Lemma forallb_all {A} (p : A -> bool) l : forallb p l = true <-> Forall (fun x => p x = true) l.
Proof.
  induction l as [|x l IH]; [by split|]. cbn. rewrite andb_true_iff, IH, Forall_cons. done.
Qed.

(** A bracketed, comma-separated sequence reads back when its elements do. *)
Section Sequences.
Context {A : Type} (enc : A -> text) (ok : A -> Prop) (close : Z).
Context (close_ends : is_token close = false) (close_comma : close <> 44).
Context (enc_head : forall x, ok x -> match enc x with [] => False | c :: _ => c <> close end).

Definition reads (x : A) : Prop := forall y r r', ok y -> ends_token r -> ends_token r' ->
  enc x ++ r = enc y ++ r' -> x = y /\ r = r'.

Lemma join_comma x l : join [44] (map enc (x :: l)) = enc x ++ flat_map (fun y => 44 :: enc y) l.
Proof.
  revert x. induction l as [|y l IH]; intros x; [by rewrite app_nil_r|].
  change (join [44] (map enc (x :: y :: l))) with (enc x ++ [44] ++ join [44] (map enc (y :: l))).
  rewrite IH. done.
Qed.

Lemma tail_ends l r : ends_token (flat_map (fun y => 44 :: enc y) l ++ close :: r).
Proof. by destruct l. Qed.

Lemma tail_inj l l' r r' :
  Forall ok l -> Forall reads l -> Forall ok l' ->
  flat_map (fun y => 44 :: enc y) l ++ close :: r = flat_map (fun y => 44 :: enc y) l' ++ close :: r' ->
  l = l' /\ r = r'.
Proof.
  intros O R. revert O l'. induction R as [|x l Rx R IH]; intros O l' O' E.
  - destruct O' as [|y l']; simplify_eq/=; done.
  - destruct O' as [|y l' Oy O']; [simplify_eq/=; done|]. cbn [flat_map app] in E. rewrite <- !app_assoc in E.
    injection E as E. apply Rx in E as [-> E]; [|done|apply tail_ends..].
    apply Forall_cons in O as [_ O]. by destruct (IH O l' O' E) as [-> ->].
Qed.

Lemma seq_inj l l' r r' :
  Forall ok l -> Forall reads l -> Forall ok l' ->
  join [44] (map enc l) ++ close :: r = join [44] (map enc l') ++ close :: r' -> l = l' /\ r = r'.
Proof.
  intros O R O' E. destruct O as [|x l Ox O], O' as [|y l' Oy O']; rewrite ?join_comma in E.
  - by simplify_eq/=.
  - pose proof (enc_head y Oy) as N. destruct (enc y); simplify_eq/=; done.
  - pose proof (enc_head x Ox) as N. destruct (enc x); simplify_eq/=; done.
  - rewrite <- !app_assoc in E. apply Forall_cons in R as [Rx R].
    apply Rx in E as [-> E]; [|done|apply tail_ends..]. by apply tail_inj in E as [-> ->].
Qed.
End Sequences.

Section DumpInj.
Context `{PyFloat}.

Definition scalar (v : value) : bool :=
  match v with VNull | VBool _ | VInt _ | VFloat _ => true | _ => false end.

Lemma scalar_token v : value_ok v = true -> scalar v = true -> forallb is_token (dump v) = true.
Proof.
  destruct v as [|[]|n|d| | |]; intros O S; try done.
  - apply int_like_token, dump_int_like.
  - by apply frepr_token.
Qed.

Lemma scalar_nonempty v : value_ok v = true -> scalar v = true -> dump v <> [].
Proof.
  destruct v as [|[]|n|d| | |]; intros O S E; try done; cbn [dump] in E.
  - by apply dump_int_nonempty in E.
  - apply frepr_shape in O as [O _]. by rewrite E in O.
Qed.

Lemma scalar_inj v v' :
  value_ok v = true -> value_ok v' = true -> scalar v = true -> scalar v' = true -> dump v = dump v' -> v = v'.
Proof.
  assert (NI : forall n t, t ∈ [points "null"; points "true"; points "false"] -> dump_int n <> t).
  { intros n t I E. pose proof (dump_int_like n) as L. rewrite E in L.
    repeat (apply elem_of_cons in I as [->|I]; [done|]). by apply elem_of_nil in I. }
  intros O O' S S' E.
  destruct v as [|b|n|d| | |], v' as [|b'|n'|d'| | |]; try done; cbn [dump value_ok] in *;
    try (apply frepr_shape in O as O1; destruct O1 as [L M]);
    try (apply frepr_shape in O' as O1'; destruct O1' as [L' M']);
    try (by rewrite ?E, ?dump_int_like in L); try (by rewrite <- ?E, ?dump_int_like in L').
  - by destruct b'.
  - symmetry in E. apply NI in E; [done|left].
  - destruct M'. rewrite <- E. left.
  - by destruct b.
  - by destruct b, b'.
  - symmetry in E. apply NI in E; [done|]. destruct b; in_list.
  - destruct M'. rewrite <- E. destruct b; in_list.
  - apply NI in E; [done|left].
  - apply NI in E; [done|]. destruct b'; in_list.
  - f_equal. by apply dump_int_inj.
  - destruct M. rewrite E. left.
  - destruct M. rewrite E. destruct b'; in_list.
  - f_equal. by apply frepr_inj.
Qed.

(** The head of a text tells the kind of value apart. *)
Lemma dump_head v : value_ok v = true ->
  match dump v with
  | [] => False
  | c :: _ => if scalar v then is_token c = true
              else c = match v with VStr _ => 34 | VArr _ => 91 | _ => 123 end
  end.
Proof.
  intros O. destruct (scalar v) eqn:S; [|by destruct v].
  pose proof (scalar_token v O S) as T. pose proof (scalar_nonempty v O S) as N.
  destruct (dump v); [done|]. cbn in T. by bool_prop.
Qed.

Lemma dump_reads v : value_ok v = true -> forall v' r r', value_ok v' = true -> ends_token r -> ends_token r' ->
  dump v ++ r = dump v' ++ r' -> v = v' /\ r = r'.
Proof.
  induction v as [|b|n|d|s|l IH|fs IH] using value_ind'; intros O v' r r' O' N N' E.
  1-4: pose proof (dump_head _ O) as Hd; pose proof (dump_head v' O') as Hd';
    destruct (scalar v') eqn:S';
    [apply token_inj in E as [E ->]; [split; [by apply scalar_inj|done]|by apply scalar_token..|done|done]|
     exfalso; cbn [scalar] in Hd;
     match type of E with dump ?x ++ _ = _ => destruct (dump x); [done|] end;
     destruct (dump v'); [done|]; simplify_eq/=; destruct v'; simplify_eq/=; done].
  all: pose proof (dump_head v' O') as Hd'; destruct (dump v') as [|c t] eqn:D; [done|];
    destruct (scalar v') eqn:S'; [cbn [dump dump_str app] in E; injection E as <- _; done|];
    destruct v' as [| | | |s'|l'|fs']; try done; subst c; try (cbn [dump dump_str app] in E; discriminate E);
    rewrite <- D in E; clear t D S'.
  - by apply dump_str_inj in E as [-> ->].
  - cbn [dump app value_ok] in *. injection E as E. rewrite <- !app_assoc in E.
    rewrite forallb_all in O, O'.
    apply (seq_inj dump (fun v => value_ok v = true)) in E as [-> ->]; try done.
    + intros x Ox. pose proof (dump_head x Ox) as Hx. destruct (dump x) as [|c t]; [done|].
      intros ->. destruct (scalar x); [done|]. by destruct x.
    + rewrite Forall_forall in IH, O |- *. intros x Ix y q q'. by apply IH, O.
  - cbn [dump app value_ok] in *. injection E as E. rewrite <- !app_assoc in E. bool_prop.
    rewrite forallb_all in *.
    apply (seq_inj (fun f => dump_str f.1 ++ 58 :: dump f.2) (fun f => str_ok f.1 && value_ok f.2 = true))
      in E as [-> ->]; try done.
    rewrite Forall_forall in IH. rewrite Forall_forall. intros [k x] Ix [k' y] q q' Oy N1 N2 E1.
    match goal with X : Forall _ fs |- _ => rewrite Forall_forall in X; pose proof (X _ Ix) as Ox end.
    pose proof (IH _ Ix) as IHx.
    cbn [fst snd] in *. bool_prop. rewrite <- !app_assoc in E1. apply dump_str_inj in E1 as [-> E1]; [|done..].
    injection E1 as E1. apply IHx in E1 as [-> ->]; done.
Qed.

(** Equal texts, equal values. *)
Lemma dump_inj v v' : value_ok v = true -> value_ok v' = true -> dump v = dump v' -> v = v'.
Proof.
  intros O O' E. apply (dump_reads v O v' [] []); try done. by rewrite !app_nil_r.
Qed.

End DumpInj.

(** The first separator splits a text in one way. *)
Lemma split_unique (sep : Z) (s s' n n' : text) : sep ∉ s -> sep ∉ s' -> s ++ sep :: n = s' ++ sep :: n' -> s = s' /\ n = n'.
Proof.
  revert s'. induction s as [|c s IH]; intros [|c' s'] N N' E; simplify_eq/=.
  - done.
  - destruct N'. left.
  - destruct N. left.
  - apply not_elem_of_cons in N as [_ N], N' as [_ N']. by destruct (IH s' N N' ltac:(done)) as [-> ->].
Qed.

Lemma int_like_no_dot t : int_like t = true -> 46 ∉ t.
Proof.
  intros L I. apply list_elem_of_In in I. unfold int_like in L. rewrite forallb_forall in L. by apply L in I.
Qed.

#[local] Obligation Tactic := idtac.

(** A printer of floats that satisfies the class: sign, mantissa, binary exponent. *)
#[export] Program Instance plain_float : PyFloat := {|
  frepr d := (if neg d then 45 else 43) :: dump_int (mant d) ++ 46 :: dump_int (expo d);
|}.
Next Obligation.
  intros [n m e] [n' m' e'] _ _. cbn. intros E. injection E as E1 E2.
  apply split_unique in E2 as [E2 E3]; [|apply int_like_no_dot, dump_int_like..].
  apply dump_int_inj in E2, E3. subst. by destruct n, n'.
Qed.
Next Obligation.
  intros [n m e] _. cbn [neg mant expo forallb]. apply andb_true_iff. split; [by destruct n|].
  rewrite forallb_app. cbn. rewrite !int_like_token; [done|apply dump_int_like..].
Qed.
Next Obligation.
  intros [n m e] _. cbn [neg mant expo]. split.
  - destruct (int_like _) eqn:L; [|done]. apply int_like_no_dot in L. destruct L. right. apply elem_of_app. right. left.
  - intros I. destruct n; repeat (apply elem_of_cons in I as [I|I]; [discriminate I|]); by apply elem_of_nil in I.
Qed.

(** ** Sorting the keys *)

Lemma text_leb_refl a : text_leb a a = true.
Proof. induction a as [|x a IH]; [done|]. cbn. rewrite IH, Z.eqb_refl. apply orb_true_r. Qed.

Lemma text_leb_antisym a b : text_leb a b = true -> text_leb b a = true -> a = b.
Proof. apply (anti_symm text_le). Qed.

Lemma text_leb_trans a b c : text_leb a b = true -> text_leb b c = true -> text_leb a c = true.
Proof. apply (transitivity (R := text_le)). Qed.

Lemma text_leb_total a b : text_leb a b = true \/ text_leb b a = true.
Proof. apply (total text_le). Qed.

#[global] Instance key_before_trans : Transitive key_before.
Proof. intros f g h. apply text_leb_trans. Qed.
#[global] Instance key_before_total : Total key_before.
Proof. intros f g. apply text_leb_total. Qed.

Definition sort_field (f : text * value) : text * value := (f.1, sort_keys f.2).

Lemma sort_field_keys fs : (map sort_field fs).*1 = fs.*1.
Proof. induction fs as [|f fs IH]; [done|]. cbn [map]. by rewrite !fmap_cons, IH. Qed.

Lemma sort_keys_obj fs : sort_keys (VObj fs) = VObj (merge_sort key_before (map sort_field fs)).
Proof. done. Qed.

(** With unique keys the sorted order is a function of the set of items. *)
Lemma sorted_unique fs gs :
  NoDup fs.*1 -> fs ≡ₚ gs -> merge_sort key_before fs = merge_sort key_before gs.
Proof.
  intros ND P. eapply StronglySorted_unique_strong; try apply StronglySorted_merge_sort; try apply _.
  - intros [k x] [k' y] I I' A B. pose proof (text_leb_antisym _ _ A B) as E. cbn in E. subst k'.
    rewrite merge_sort_Permutation in I, I'. rewrite <- P in I'.
    apply (elem_field _ _ _ ND) in I, I'. congruence.
  - by rewrite !merge_sort_Permutation.
Qed.

Lemma sort_keys_ok v : value_ok v = true -> value_ok (sort_keys v) = true.
Proof.
  induction v as [|b|n|d|s|l IH|fs IH] using value_ind'; intros O; try done.
  - cbn [sort_keys value_ok] in *. rewrite forallb_all in *. rewrite Forall_forall in *.
    intros y (x & -> & I)%list_elem_of_fmap. auto.
  - rewrite sort_keys_obj. cbn [value_ok] in *. bool_prop. apply andb_true_iff. split.
    + rewrite forallb_all in *. rewrite Forall_forall in *.
      intros y I. rewrite merge_sort_Permutation in I. apply list_elem_of_fmap in I as (x & -> & I).
      match goal with X : forall x, _ -> _ && _ = true |- _ => specialize (X x I) end. bool_prop.
      cbn. apply andb_true_iff. split; [done|]. by apply IH.
    + apply bool_decide_eq_true. rewrite merge_sort_Permutation. by rewrite sort_field_keys.
Qed.

(** The same value up to the order of the keys of its objects, at any depth. *)
Inductive reordered : value -> value -> Prop :=
  | reordered_refl v : reordered v v
  | reordered_arr l l' : Forall2 reordered l l' -> reordered (VArr l) (VArr l')
  | reordered_obj fs gs fs' :
      Forall2 (fun f g => f.1 = g.1 /\ reordered f.2 g.2) fs gs -> gs ≡ₚ fs' -> reordered (VObj fs) (VObj fs').

Lemma map_eq_Forall2 {A B} (f : A -> B) (R : A -> A -> Prop) l l' :
  Forall (fun x => forall y, f x = f y -> R x y) l -> map f l = map f l' -> Forall2 R l l'.
Proof.
  intros F. revert l'. induction F as [|x l Fx F IH]; intros [|y l'] E; simplify_eq/=; constructor; auto.
Qed.

Lemma sort_keys_reordered v v' : sort_keys v = sort_keys v' -> reordered v v'.
Proof.
  revert v'. induction v as [|b|n|d|s|l IH|fs IH] using value_ind'; intros v' E;
    destruct v'; try discriminate E; try (injection E as ->); try apply reordered_refl.
  - injection E as E. constructor. by eapply map_eq_Forall2.
  - rewrite !sort_keys_obj in E. injection E as E.
    assert (P : map sort_field fs ≡ₚ map sort_field fields)
      by (by rewrite <- (merge_sort_Permutation key_before (map sort_field fs)), E, merge_sort_Permutation).
    apply Permutation_map_inv in P as (gs & E2 & P). econstructor; [|symmetry; exact P].
    eapply map_eq_Forall2; [|exact E2]. eapply Forall_impl; [exact IH|]. cbn.
    intros [k x] A [k' y] [= -> E3]. cbn. auto.
Qed.

Lemma reordered_sort_keys v v' : value_ok v = true -> reordered v v' -> sort_keys v = sort_keys v'.
Proof.
  revert v'. induction v as [|b|n|d|s|l IH|fs IH] using value_ind'; intros v' O R; inversion R; subst; try done.
  - cbn [sort_keys value_ok] in *. f_equal. rewrite forallb_all in O. clear R.
    match goal with X : Forall2 _ _ _ |- _ => induction X as [|x y l l' Rx F IHF] end; [done|].
    apply Forall_cons in IH as [IHx IH], O as [Ox O]. cbn. by rewrite (IHx y Ox Rx), IHF.
  - rewrite !sort_keys_obj. cbn [value_ok] in O. bool_prop. rewrite forallb_all in *. clear R. f_equal.
    match goal with X : gs ≡ₚ _ |- _ => rename X into P end.
    assert (E : map sort_field fs = map sort_field gs).
    { clear P. match goal with X : NoDup _ |- _ => clear X end.
      match goal with X : Forall2 _ _ _ |- _ => induction X as [|f g fs gs [K Rx] F IHF] end; [done|].
      match goal with X : Forall (fun f => _ && _ = true) _ |- _ => apply Forall_cons in X as [Of O] end.
      apply Forall_cons in IH as [IHf IH]. bool_prop. cbn [map]. unfold sort_field at 1 3.
      by rewrite K, (IHf g.2) by done; rewrite IHF. }
    apply sorted_unique; [by rewrite sort_field_keys|]. rewrite E. by apply Permutation_map.
Qed.
