(* ===== verification/Revocation.v ===== *)
(** * Session revocation: logout for stateless tokens

    [api/session_revocation.py] with the denylist calls of [engine/cache.py] and the retention of
    [api/audit_retention.py].  A logged-out token is refused until its own expiry by three layers: this
    process's mirror, Redis, and the durable rows in PostgreSQL that mirrors are rebuilt from.

    [Node] is one API process with the two shared stores.  Every store call consumes one [Call]: how it
    goes, how long it takes, and what the other processes, the retention job or an operator did to the
    shared stores before it ([Event]s), so a theorem for all lists of calls holds for every interleaving
    with other processes and every pattern of failures.  The clock is in milliseconds; expiries are in
    seconds, as in the code. *)

From S2P Require Import Prelude.
From S2P Require Import Text.
From S2P Require Import Effects.
From S2P Require Import Identity.

(** ** Denylist keys *)

(** The six bits of a character of either base64 alphabet ([urlsafe_b64decode] translates [-_] to [+/]). *)
Definition b64_value (c : Z) : option Z :=
  if is_upper c then Some (c - 65)
  else if is_lower c then Some (c - 71)
  else if is_num c then Some (c + 4)
  else if (c =? 43) || (c =? 45) then Some 62
  else if (c =? 47) || (c =? 95) then Some 63
  else None.

(** [binascii.a2b_base64], not strict: other characters are skipped, enough padding ends the data.
    [quad] is the position in the group of four, [left] the bits kept; [None]: [binascii.Error]. *)
Fixpoint a2b_base64 (quad left pads : Z) (s : text) : option (list Z) :=
  match s with
  | [] => if quad =? 0 then Some [] else None
  | c :: s' =>
      if c =? 61 then
        if 2 <=? quad then if 4 <=? quad + (pads + 1) then Some [] else a2b_base64 quad left (pads + 1) s'
        else a2b_base64 quad left pads s'
      else match b64_value c with
      | None => a2b_base64 quad left pads s'
      | Some v =>
          if quad =? 0 then a2b_base64 1 v 0 s'
          else if quad =? 1 then cons (left * 4 + v / 16) <$> a2b_base64 2 (v mod 16) 0 s'
          else if quad =? 2 then cons (left * 16 + v / 4) <$> a2b_base64 3 (v mod 4) 0 s'
          else cons (left * 64 + v) <$> a2b_base64 0 0 0 s'
      end
  end.

(** [base64.urlsafe_b64decode(seg + "=" * (-len(seg) % 4))]; a character outside ASCII is a [ValueError]. *)
Definition decode_segment (seg : text) : option (list Z) :=
  if forallb (fun c => c <? 128) seg then
    a2b_base64 0 0 0 (seg ++ replicate (Z.to_nat (- Z.of_nat (length seg) mod 4)) 61)
  else None.

(** [len(raw).to_bytes(8, "big")]. *)
Definition be8 (n : Z) : list Z := map (fun i => n / 256 ^ i mod 256) [7; 6; 5; 4; 3; 2; 1; 0].

Section Keys.
Context (sha256 : list Z -> text).   (* of bytes, hexdigest *)

Definition legacy_token_hash (raw : text) : text := sha256 (default [] (utf8_encode raw)).

Definition token_hash (raw : text) : text :=
  match split_on 46 raw with
  | [a; b; c] =>
      match decode_segment a, decode_segment b, decode_segment c with
      | Some x, Some y, Some z =>
          sha256 (be8 (Z.of_nat (length x)) ++ x ++ be8 (Z.of_nat (length y)) ++ y ++ be8 (Z.of_nat (length z)) ++ z)
      | _, _, _ => legacy_token_hash raw
      end
  | _ => legacy_token_hash raw
  end.

(** [_keys]. *)
Definition keys_of (raw : text) : list text :=
  if bool_decide (token_hash raw = legacy_token_hash raw) then [token_hash raw]
  else [token_hash raw; legacy_token_hash raw].
End Keys.

(** ** The process and the stores *)

Definition MAX_EXP : Z := 253402300799.
Definition SYNC_OVERLAP_MS : Z := 60000.
Definition REVOCATION_GRACE_MS : Z := 30000.

Notation Expiries := (gmap text Z).

(** How a store call goes. *)
Inductive Outcome := Answered | NotSent | AnswerLost.

(** What others do to the shared stores. *)
Inductive Event :=
  | RedisSet (k : text) (until_ms : Z)        (* another process writes an entry *)
  | RedisWipe                                 (* Redis loses its data *)
  | RedisMarked                               (* another process sets the marker *)
  | RowInsert (k : text) (exp revoked_at : Z) (* another process persists a key *)
  | RowsPruned.                               (* the retention job deletes rows of expired tokens *)

Record Call := { outcome : Outcome; delay : Z; others : list Event }.

Record Node := mkNode {
  mirror : Expiries;
  unpersisted : Expiries;
  watermark : option Z;              (* milliseconds, database clock *)
  degraded_since : option Z;
  bound : bool;                      (* bind_store was called *)
  redis : Expiries;                  (* revoked:<key>, until milliseconds *)
  marker : bool;
  rows : gmap text (Z * Z);          (* revoked_tokens: expires_at (s), revoked_at (ms) *)
  clock : Z;
  calls : list Call;
}.

Definition set_mirror m s := mkNode m (unpersisted s) (watermark s) (degraded_since s) (bound s) (redis s) (marker s) (rows s) (clock s) (calls s).
Definition set_unpersisted u s := mkNode (mirror s) u (watermark s) (degraded_since s) (bound s) (redis s) (marker s) (rows s) (clock s) (calls s).
Definition set_watermark w s := mkNode (mirror s) (unpersisted s) w (degraded_since s) (bound s) (redis s) (marker s) (rows s) (clock s) (calls s).
Definition set_degraded d s := mkNode (mirror s) (unpersisted s) (watermark s) d (bound s) (redis s) (marker s) (rows s) (clock s) (calls s).
Definition set_redis r s := mkNode (mirror s) (unpersisted s) (watermark s) (degraded_since s) (bound s) r (marker s) (rows s) (clock s) (calls s).
Definition set_marker b s := mkNode (mirror s) (unpersisted s) (watermark s) (degraded_since s) (bound s) (redis s) b (rows s) (clock s) (calls s).
Definition set_rows r s := mkNode (mirror s) (unpersisted s) (watermark s) (degraded_since s) (bound s) (redis s) (marker s) r (clock s) (calls s).
Definition set_clock t s := mkNode (mirror s) (unpersisted s) (watermark s) (degraded_since s) (bound s) (redis s) (marker s) (rows s) t (calls s).
Definition set_calls c s := mkNode (mirror s) (unpersisted s) (watermark s) (degraded_since s) (bound s) (redis s) (marker s) (rows s) (clock s) c.

Notation N := (M Node).

(** [int(time.time())]. *)
Definition secs_of (ms : Z) : Z := ms / 1000.
Definition now_s (s : Node) : Z := secs_of (clock s).

(** [ON CONFLICT DO NOTHING]. *)
Definition insert_row (k : text) (r : Z * Z) (t : gmap text (Z * Z)) : gmap text (Z * Z) :=
  match t !! k with Some _ => t | None => <[k := r]> t end.

(** The retention job: [DELETE FROM revoked_tokens WHERE expires_at < now - margin]. *)
Definition prune_rows (now : Z) (t : gmap text (Z * Z)) : gmap text (Z * Z) := filter (fun e => now - 60 <= e.2.1) t.

Definition event (s : Node) (e : Event) : Node :=
  match e with
  | RedisSet k u => set_redis (<[k := u]> (redis s)) s
  | RedisWipe => set_marker false (set_redis ∅ s)
  | RedisMarked => set_marker true s
  | RowInsert k exp at_ => set_rows (insert_row k (exp, at_) (rows s)) s
  | RowsPruned => set_rows (prune_rows (now_s s) (rows s)) s
  end.

(** One call of a store: others act, time passes, then the call takes effect or not. *)
Definition call {X} (f : Node -> Node * X) : N X := fun s =>
  match calls s with
  | [] => ((f s).1, inr (f s).2)
  | c :: cs =>
      let s := set_calls cs (set_clock (clock s + Z.abs (delay c)) (foldl event s (others c))) in
      match outcome c with
      | Answered => ((f s).1, inr (f s).2)
      | NotSent => (s, inl ETimeout)
      | AnswerLost => ((f s).1, inl ETimeout)
      end
  end.

(** ** Redis *)

(** [setex revoked:<k> max(1, ttl) 1]. *)
Definition cache_revoke_token (k : text) (ttl : Z) : N unit :=
  call (fun s => (set_redis (<[k := clock s + 1000 * Z.max 1 ttl]> (redis s)) s, tt)).

(** [get revoked:<k> is not None]: Redis hides an expired key. *)
Definition cache_is_token_revoked (k : text) : N bool :=
  call (fun s => (s, match redis s !! k with Some u => clock s <? u | None => false end)).

Definition cache_marker_present : N bool := call (fun s => (s, marker s)).

(** [scan_revoked_tokens]: the remaining seconds of every entry, as Redis rounds them. *)
Definition remaining_s (now_ms until_ms : Z) : option Z :=
  if now_ms <? until_ms then let ttl := (until_ms - now_ms + 500) / 1000 in if 0 <? ttl then Some ttl else None
  else None.
Definition cache_scan : N Expiries := call (fun s => (s, omap (remaining_s (clock s)) (redis s))).

(** [_write_revoked]: entries in pipelined batches, in order; the marker after all of them. *)
Definition cache_write_revoked (entries : Expiries) (with_marker : bool) : N unit :=
  for_each (map_to_list entries) (fun e => cache_revoke_token e.1 e.2);;
  if with_marker then call (fun s => (set_marker true s, tt)) else mret tt.

(** ** The module *)

(** [_prune]: drop entries whose expiry has passed. *)
Definition prune (now : Z) (m : Expiries) : Expiries := filter (fun e => now < e.2) m.

(** [_persist]: one transaction of inserts. *)
Definition persist (entries : Expiries) : N unit :=
  call (fun s => (set_rows (foldr (fun e t => insert_row e.1 (Z.min e.2 MAX_EXP, clock s) t) (rows s)
                              (map_to_list entries)) s, tt)).

(** [_persist_or_queue]: queued first, dequeued only once written. *)
Definition persist_or_queue (entries : Expiries) : N unit :=
  modify (fun s => set_unpersisted (entries ∪ unpersisted s) s);;
  try_with
    (persist entries;;
     modify (fun s => set_unpersisted (unpersisted s ∖ entries) s))
    (fun _ => mret tt).

Section Module_.
Context (sha256 : list Z -> text).
Context (has_cache : bool).          (* [cache is not None] *)

Definition entries_of (keys : list text) (until : Z) : Expiries := list_to_map (map (fun k => (k, until)) keys).

(** The Redis half of a logout: a failure leaves it incomplete. *)
Definition redis_revoke (keys : list text) (ttl : Z) : N unit :=
  if has_cache then
    try_with (for_each keys (fun k => cache_revoke_token k ttl);; mret tt) (fun _ => (mret tt : N unit))
  else mret tt.

(** [revoke]. *)
Definition revoke (raw : text) (exp : Z) : N unit :=
  s0 ← get_state;
  let now := now_s s0 in
  let ttl := Z.max 1 (Z.min exp MAX_EXP - now) in
  let keys := keys_of sha256 raw in
  let entries := entries_of keys (now + ttl) in
  modify (fun s => set_mirror (entries ∪ mirror s) s);;
  (if bound s0 then mret tt else modify (fun s => set_mirror (prune now (mirror s)) s));;
  redis_revoke keys ttl;;
  if bound s0 then persist_or_queue entries else mret tt.

(** The loop over the keys stops at the first one found. *)
Fixpoint any_revoked (keys : list text) : N bool :=
  match keys with
  | [] => mret false
  | k :: ks => b ← cache_is_token_revoked k; if (b : bool) then mret true else any_revoked ks
  end.

(** [is_revoked]. *)
Definition is_revoked (raw : text) : N bool :=
  s0 ← get_state;
  let keys := keys_of sha256 raw in
  if existsb (fun k => now_s s0 <? default 0 (mirror s0 !! k)) keys then mret true
  else if negb has_cache then mret false
  else try_with
    (b ← any_revoked keys; modify (set_degraded None);; mret b)
    (fun _ =>
       s ← get_state;
       let since := default (clock s) (degraded_since s) in
       modify (set_degraded (Some since));;
       mret (REVOCATION_GRACE_MS <? clock s - since)).

(** What [_pull] reads: the live rows, or those written since the watermark. *)
Definition pull_rows (s : Node) : gmap text (Z * Z) :=
  filter (fun e => (clock s <? 1000 * e.2.1) &&
                   match watermark s with Some w => w <? e.2.2 | None => true end) (rows s).

(** Merge rows into the mirror, keeping the later expiry; the number of entries that changed. *)
Definition merge_rows (rs : gmap text (Z * Z)) (m : Expiries) : Expiries :=
  merge (fun r e => match r, e with
                    | Some r, Some x => Some (Z.max x r.1)
                    | Some r, None => if 0 <? r.1 then Some r.1 else None
                    | None, e => e
                    end) rs m.

Definition pull : N Z :=
  p ← call (fun s => (s, (pull_rows s, clock s)));
  let '(rs, db_now) := p : gmap text (Z * Z) * Z in
  s ← get_state;
  let m := merge_rows rs (mirror s) in
  let added := Z.of_nat (size (filter (fun e => mirror s !! e.1 <> Some e.2) m)) in
  modify (fun s => set_watermark (Some (db_now - SYNC_OVERLAP_MS)) (set_mirror m s));;
  mret added.

(** [_flush_unpersisted]. *)
Definition flush_unpersisted : N unit :=
  modify (fun s => set_unpersisted (prune (now_s s) (unpersisted s)) s);;
  s ← get_state;
  let pending := unpersisted s in
  if bool_decide (pending = ∅) then mret tt
  else persist pending;; modify (fun s => set_unpersisted (unpersisted s ∖ pending) s).

Definition store_pass : N Z := added ← pull; flush_unpersisted;; mret added.

(** [_rewrite_unpersisted]. *)
Definition rewrite_unpersisted : N unit :=
  if negb has_cache then mret tt
  else
    modify (fun s => set_unpersisted (prune (now_s s) (unpersisted s)) s);;
    s ← get_state;
    if bool_decide (unpersisted s = ∅) then mret tt
    else cache_write_revoked ((fun e => e - now_s s) <$> unpersisted s) false.

(** Only keys this module could have written: 64 hexadecimal digits. *)
Definition is_key (k : text) : bool :=
  bool_decide (length k = 64%nat) && forallb (fun c => is_num c || ((97 <=? c) && (c <=? 102))) k.

(** What Redis holds and the mirror does not hold live. *)
Definition imported_from (now : Z) (held m : Expiries) : Expiries :=
  (fun ttl => now + ttl) <$> filter (fun e => is_key e.1 = true /\ default 0 (m !! e.1) <= now) held.

(** [_reconcile_cache]. *)
Definition reconcile_cache (boot : bool) : N Z :=
  if negb has_cache then mret 0
  else
    intact ← cache_marker_present;
    if intact && negb boot then mret 0
    else
      s ← get_state;
      let now := now_s s in
      held ← cache_scan;
      s ← get_state;
      let imported := imported_from now held (mirror s) in
      modify (fun s => set_mirror (imported ∪ mirror s) s);;
      modify (fun s => set_unpersisted (imported ∪ unpersisted s) s);;
      (if intact then mret tt
       else s ← get_state;
            cache_write_revoked ((fun e => e - now) <$> filter (fun e => now < e.2) (mirror s)) true);;
      (if bool_decide (imported = ∅) then mret tt else persist_or_queue imported);;
      mret (Z.of_nat (size imported)).

(** [sync]: a store error is raised after Redis has had its turn. *)
Definition sync : N Z :=
  s0 ← get_state;
  if negb (bound s0) then raise EOther
  else
    let boot := bool_decide (watermark s0 = None) in
    modify (fun s => set_mirror (prune (now_s s) (mirror s)) s);;
    r ← try_with (a ← store_pass; mret (inr a)) (fun e => mret (inl e));
    s ← get_state;
    n ← (if bool_decide (watermark s = None) then mret 0
         else try_with (rewrite_unpersisted;; reconcile_cache boot) (fun _ => mret 0));
    match r with
    | inl e => raise e
    | inr a => mret (a + n)
    end.

(** [close]: one last try at the queue. *)
Definition close : N unit :=
  s ← get_state;
  if negb (bound s) || bool_decide (unpersisted s = ∅) then mret tt
  else try_with flush_unpersisted (fun _ => mret tt).

End Module_.

(** ** What every operation keeps *)

Section At.
Context {S : Type} (R : S -> S -> Prop) `{!PreOrder R}.

Lemma at_bind {A B} (m : M S A) (k : A -> M S B) s :
  R s (m s).1 -> (forall a s', m s = (s', inr a) -> R s s' -> R s' (k a s').1) -> R s (mbind k m s).1.
Proof.
  unfold mbind, M_bind. destruct (m s) as [s' [e|a]]; cbn; [done|]. intros A1 K. etransitivity; [exact A1|]. by apply K.
Qed.

Lemma at_try {A} (m : M S A) h s :
  R s (m s).1 -> (forall e s', R s s' -> R s' (h e s').1) -> R s (try_with m h s).1.
Proof.
  unfold try_with. destruct (m s) as [s' [e|a]]; cbn; [|done]. intros A1 K. etransitivity; [exact A1|]. by apply K.
Qed.

Lemma at_ret {A} (a : A) s : R s ((mret a : M S A) s).1.
Proof. cbn. reflexivity. Qed.

Lemma at_get s : R s (get_state s).1.
Proof. cbn. reflexivity. Qed.
End At.

Section Stays.
Context (k : text) (e : Z) (in_range : e <= MAX_EXP).

(** The events of others never write a shorter expiry for the key. *)
Definition fair_event (ev : Event) : Prop := match ev with RowInsert k' x _ => k' = k -> e <= x | _ => True end.
Definition fair (s : Node) : Prop := Forall (fun c => Forall fair_event (others c)) (calls s).

Definition covers (m : Expiries) : Prop := exists x, m !! k = Some x /\ e <= x.

(** The key is known here until [e]: in the mirror, and in the rows or in the queue for them. *)
Record known (s : Node) : Prop := {
  known_mirror : covers (mirror s);
  known_rows : forall r, rows s !! k = Some r -> e <= r.1;
  known_durable : is_Some (rows s !! k) \/ covers (unpersisted s);
  known_queue : forall x, unpersisted s !! k = Some x -> e <= x;
}.

Definition stays (s s' : Node) : Prop :=
  clock s <= clock s' /\ (fair s -> fair s' /\ (now_s s' < e -> known s -> known s')).

#[global] Instance stays_preorder : PreOrder stays.
Proof.
  split; [done|]. intros s1 s2 s3 [C1 F1] [C2 F2]. split; [lia|]. intros F. destruct (F1 F) as [F' K1].
  destruct (F2 F') as [F'' K2]. split; [done|]. intros L K. apply K2; [done|]. apply K1; [|done].
  unfold now_s, secs_of in *. pose proof (Z.div_le_mono (clock s2) (clock s3) 1000). lia.
Qed.

Lemma event_stays s ev : fair_event ev ->
  clock (event s ev) = clock s /\ calls (event s ev) = calls s /\ (now_s s < e -> known s -> known (event s ev)).
Proof.
  intros F. destruct ev as [k' u| | |k' x at_|]; cbn; (split; [done|]); (split; [done|]); intros L [KM KR KD KQ];
    split; try done; cbn in *.
  - intros r. unfold insert_row. destruct (rows s !! k') as [r0|] eqn:E; [apply KR|].
    destruct (decide (k' = k)) as [->|N]; [rewrite lookup_insert_eq; intros [= <-]; by apply F|].
    rewrite lookup_insert_ne by done. apply KR.
  - destruct KD as [[r KD]|KD]; [left|by right]. unfold insert_row. destruct (rows s !! k'); [by rewrite KD|].
    apply lookup_insert_is_Some. destruct (decide (k' = k)); [by left|right; split; [done|by rewrite KD]].
  - intros r. unfold prune_rows. rewrite map_lookup_filter_Some. intros [Q _]. by apply KR.
  - destruct KD as [[r KD]|KD]; [left|by right]. exists r. apply map_lookup_filter_Some. split; [done|]. cbn.
    specialize (KR r KD). lia.
Qed.

Lemma events_stay evs s : Forall fair_event evs ->
  clock (foldl event s evs) = clock s /\ calls (foldl event s evs) = calls s /\
  (now_s s < e -> known s -> known (foldl event s evs)).
Proof.
  intros F. revert s. induction F as [|ev evs F1 F IH]; intros s; cbn; [done|].
  destruct (event_stays s ev F1) as (C1 & L1 & K1). destruct (IH (event s ev)) as (C2 & L2 & K2).
  split_and!; [congruence|congruence|]. intros N K. apply K2; [|by apply K1]. unfold now_s in *. by rewrite C1.
Qed.

(** A step that changes neither time nor the calls to come. *)
Definition quiet (f : Node -> Node) (s : Node) : Prop :=
  clock (f s) = clock s /\ calls (f s) = calls s /\ (now_s s < e -> known s -> known (f s)).

Lemma quiet_stays f s : quiet f s -> stays s (f s).
Proof.
  intros (C & L & K). split; [lia|]. unfold fair. rewrite L. intros F. split; [done|].
  unfold now_s in *. rewrite C. auto.
Qed.

Lemma modify_stays f s : quiet f s -> stays s (modify f s).1.
Proof. apply quiet_stays. Qed.

Lemma events_clock s evs : clock (foldl event s evs) = clock s.
Proof. revert s. induction evs as [|ev evs IH]; intros s; [done|]. cbn. rewrite IH. by destruct ev. Qed.

Lemma known_ext s s' : mirror s' = mirror s -> rows s' = rows s -> unpersisted s' = unpersisted s -> known s -> known s'.
Proof. intros E1 E2 E3 [K1 K2 K3 K4]. split; by rewrite ?E1, ?E2, ?E3. Qed.

(** The state in which a call is served. *)
Definition served (s : Node) : Node :=
  match calls s with
  | [] => s
  | c :: cs => set_calls cs (set_clock (clock s + Z.abs (delay c)) (foldl event s (others c)))
  end.

Lemma served_stays s : stays s (served s).
Proof.
  unfold served. destruct (calls s) as [|c cs] eqn:E; [reflexivity|]. split; [cbn; rewrite ?events_clock; lia|].
  unfold fair. rewrite E. intros [F1 F]%Forall_cons. cbn. split; [done|]. intros L K.
  destruct (events_stay (others c) s F1) as (C & _ & K').
  eapply known_ext; [..|apply K']; try done.
  unfold now_s, secs_of in *. cbn in L. pose proof (Z.div_le_mono (clock s) (clock s + Z.abs (delay c)) 1000). lia.
Qed.

Lemma call_cases {X} (f : Node -> Node * X) s :
  (call f s = ((f (served s)).1, inr (f (served s)).2)) \/ call f s = (served s, inl ETimeout) \/
  call f s = ((f (served s)).1, inl ETimeout).
Proof.
  unfold call, served. destruct (calls s) as [|c cs]; [by left|]. destruct (outcome c); auto.
Qed.

Lemma call_stays {X} (f : Node -> Node * X) s : (forall s', quiet (fun s => (f s).1) s') -> stays s (call f s).1.
Proof.
  intros Q. destruct (call_cases f s) as [-> | [-> | ->]]; cbn; [|apply served_stays|];
    (etransitivity; [apply served_stays|apply (quiet_stays (fun s => (f s).1)), Q]).
Qed.

(** Setters that do not matter to the key. *)
Lemma quiet_id s : quiet (fun s => s) s.
Proof. done. Qed.
Lemma quiet_redis f s : quiet (fun s => set_redis (f s) s) s.
Proof. split; [done|]. split; [done|]. intros _. by apply known_ext. Qed.
Lemma quiet_marker b s : quiet (set_marker b) s.
Proof. split; [done|]. split; [done|]. intros _. by apply known_ext. Qed.
Lemma quiet_degraded d s : quiet (set_degraded d) s.
Proof. split; [done|]. split; [done|]. intros _. by apply known_ext. Qed.

Lemma revoke_token_stays k' ttl s : stays s (cache_revoke_token k' ttl s).1.
Proof. apply call_stays. intros s'. apply (quiet_redis (fun s => <[k' := clock s + 1000 * Z.max 1 ttl]> (redis s))). Qed.

Lemma for_each_stays {A B} (l : list A) (f : A -> N B) s :
  (forall a s, stays s (f a s).1) -> stays s (for_each l f s).1.
Proof. intros F. apply (keeps_for_each stays). intros a s'. apply F. Qed.

Lemma write_revoked_stays es b s : stays s (cache_write_revoked es b s).1.
Proof.
  unfold cache_write_revoked. apply at_bind; [apply _|apply for_each_stays; intros; apply revoke_token_stays|].
  intros _ s' _ _. destruct b; [|reflexivity]. apply call_stays. intros. apply quiet_marker.
Qed.

Lemma prune_covers now m : now < e -> covers m -> covers (prune now m).
Proof. intros L (x & M & G). exists x. split; [|done]. apply map_lookup_filter_Some. split; [done|]. cbn. lia. Qed.

Lemma union_covers (m m' : Expiries) :
  (forall x, m !! k = Some x -> e <= x) -> covers m' -> covers (m ∪ m').
Proof.
  intros A (x & M & G). unfold covers. destruct (m !! k) as [y|] eqn:E.
  - exists y. split; [by apply lookup_union_Some_l|by apply A].
  - exists x. split; [|done]. by rewrite lookup_union_r.
Qed.

Lemma quiet_mirror f s :
  (now_s s < e -> covers (mirror s) -> covers (f s)) -> quiet (fun s => set_mirror (f s) s) s.
Proof. intros C. split; [done|]. split; [done|]. intros L [K1 K2 K3 K4]. split; cbn; auto. Qed.

Lemma quiet_queue f s :
  (now_s s < e -> known s -> (is_Some (rows s !! k) \/ covers (f s)) /\ forall x, f s !! k = Some x -> e <= x) -> quiet (fun s => set_unpersisted (f s) s) s.
Proof. intros C. split; [done|]. split; [done|]. intros L K. destruct (C L K). destruct K as [K1 K2 K3 K4]. split; cbn; auto. Qed.

Lemma quiet_queue_prune s : quiet (fun s => set_unpersisted (prune (now_s s) (unpersisted s)) s) s.
Proof.
  apply quiet_queue. intros L [_ _ D Q]. split; [destruct D as [D|D]; [by left|right; by apply prune_covers]|].
  intros x. unfold prune. rewrite map_lookup_filter_Some. intros [U _]. auto.
Qed.

(** Inserting a set of rows. *)
Lemma insert_rows_lookup t (l : list (text * Z)) at_ :
  (forall k' x r, (k', x) ∈ l -> k' = k -> r = (Z.min x MAX_EXP, at_) -> e <= r.1) ->
  (forall r, t !! k = Some r -> e <= r.1) ->
  forall r, foldr (fun e0 t => insert_row e0.1 (Z.min e0.2 MAX_EXP, at_) t) t l !! k = Some r -> e <= r.1.
Proof.
  intros A T. induction l as [|[k' x] l IH]; cbn; [done|]. intros r.
  assert (A' : forall k' x r, (k', x) ∈ l -> k' = k -> r = (Z.min x MAX_EXP, at_) -> e <= r.1)
    by (intros; eapply A; [by right|done|done]).
  unfold insert_row at 1. destruct (foldr _ t l !! k') eqn:E; [by apply IH|].
  destruct (decide (k' = k)) as [->|N]; [|rewrite lookup_insert_ne by done; by apply IH].
  rewrite lookup_insert_eq. intros [= <-]. by eapply A; [left|..].
Qed.

Lemma insert_rows_some t (l : list (text * Z)) at_ k' :
  (is_Some (t !! k') \/ k' ∈ l.*1) -> is_Some (foldr (fun e0 t => insert_row e0.1 (Z.min e0.2 MAX_EXP, at_) t) t l !! k').
Proof.
  induction l as [|[k1 x] l IH]; cbn; [by intros [?|?%elem_of_nil]|]. intros H.
  unfold insert_row at 1. destruct (foldr _ t l !! k1) eqn:E.
  - destruct (decide (k' = k1)) as [->|N]; [by rewrite E|]. apply IH.
    destruct H as [H|[->|H]%elem_of_cons]; [by left|done|by right].
  - apply lookup_insert_is_Some. destruct (decide (k1 = k')) as [|N]; [by left|right]. split; [done|]. apply IH.
    destruct H as [H|[->|H]%elem_of_cons]; [by left|done|by right].
Qed.

(** The entries written for the key carry an expiry that is late enough. *)
Definition late (es : Expiries) : Prop := forall x, es !! k = Some x -> e <= x.

Lemma persist_stays es s : late es -> stays s (persist es s).1.
Proof.
  intros Lt. apply call_stays. intros s'. split; [done|]. split; [done|]. intros _ [K1 K2 K3 K4]. split; cbn; [done| | |done].
  - apply insert_rows_lookup; [|done]. intros k' x r I -> ->. cbn. apply elem_of_map_to_list in I.
    specialize (Lt x I). lia.
  - destruct K3 as [K3|K3]; [left|by right]. apply insert_rows_some. by left.
Qed.

Lemma persist_writes es s s' : persist es s = (s', inr tt) -> forall k' x, es !! k' = Some x -> is_Some (rows s' !! k').
Proof.
  intros E k' x L. unfold persist in E. destruct (call_cases (fun s0 : Node => (set_rows
    (foldr (fun e0 t => insert_row e0.1 (Z.min e0.2 MAX_EXP, clock s0) t) (rows s0) (map_to_list es)) s0, tt)) s)
    as [Q|[Q|Q]]; rewrite Q in E; simplify_eq. cbn.
  apply insert_rows_some. right. apply list_elem_of_fmap. exists (k', x). split; [done|]. by apply elem_of_map_to_list.
Qed.

Lemma dequeue_quiet es s : (forall x, es !! k = Some x -> is_Some (rows s !! k)) ->
  quiet (fun s => set_unpersisted (unpersisted s ∖ es) s) s.
Proof.
  intros W. apply quiet_queue. intros _ [_ _ D Q]. split.
  - destruct D as [D|(x & D & G)]; [by left|].
    destruct (es !! k) as [y|] eqn:E; [left; by eapply W|right].
    exists x. split; [|done]. by apply lookup_difference_Some.
  - intros x [U _]%lookup_difference_Some. auto.
Qed.

Lemma persist_or_queue_stays es s : late es -> stays s (persist_or_queue es s).1.
Proof.
  intros Lt. unfold persist_or_queue. apply at_bind; [apply _| |].
  - apply modify_stays, quiet_queue. intros _ [_ _ D Q]. split; [destruct D as [D|D]; [by left|right; by apply union_covers]|].
    intros x [U|[_ U]]%lookup_union_Some_raw; auto.
  - intros [] s1 _ _. apply at_try; [apply _| |intros; reflexivity].
    apply at_bind; [apply _|by apply persist_stays|].
    intros [] s2 P _. apply modify_stays, dequeue_quiet. intros x. by apply (persist_writes es s1 s2).
Qed.

Section Ops.
Context (sha256 : list Z -> text) (has_cache : bool).

Lemma entries_lookup keys until k' : entries_of keys until !! k' = if bool_decide (k' ∈ keys) then Some until else None.
Proof.
  unfold entries_of. induction keys as [|k0 keys IH]; [done|]. cbn.
  destruct (decide (k0 = k')) as [->|N].
  - rewrite lookup_insert_eq. by rewrite bool_decide_true by left.
  - rewrite lookup_insert_ne, IH by done. destruct (decide (k' ∈ keys)).
    + rewrite !bool_decide_true; [done|by right|done].
    + rewrite !bool_decide_false; [done| |done]. intros [->|?]%elem_of_cons; done.
Qed.

(** A logout of this token carries an expiry that is late enough. *)
Definition consistent (raw : text) (exp : Z) : Prop := k ∈ keys_of sha256 raw -> e <= Z.min exp MAX_EXP.

Lemma revoke_stays raw exp s : consistent raw exp -> stays s (revoke sha256 has_cache raw exp s).1.
Proof.
  intros C. unfold revoke. apply at_bind; [apply _|reflexivity|]. intros s0 s1 [= <- <-] _.
  assert (Lt : late (entries_of (keys_of sha256 raw) (now_s s + Z.max 1 (Z.min exp MAX_EXP - now_s s)))).
  { intros x. rewrite entries_lookup. case_bool_decide; [|done]. intros [= <-]. specialize (C ltac:(done)). lia. }
  apply at_bind; [apply _| |].
  { apply modify_stays, quiet_mirror. intros _. by apply union_covers. }
  intros [] s1 _ [L1 _]. apply at_bind; [apply _| |].
  { destruct (bound s); [reflexivity|]. apply modify_stays, quiet_mirror. intros L. apply prune_covers.
    unfold now_s, secs_of in *. pose proof (Z.div_le_mono (clock s) (clock s1) 1000). lia. }
  intros [] s2 _ _. apply at_bind; [apply _| |].
  { unfold redis_revoke. destruct has_cache; [|reflexivity]. apply at_try; [apply _| |intros; reflexivity].
    apply at_bind; [apply _|apply for_each_stays; intros; apply revoke_token_stays|]. intros; reflexivity. }
  intros [] s3 _ _. destruct (bound s); [by apply persist_or_queue_stays|reflexivity].
Qed.

Lemma any_revoked_stays keys s : stays s (any_revoked keys s).1.
Proof.
  revert s. induction keys as [|k' keys IH]; intros s; [reflexivity|]. cbn [any_revoked].
  apply at_bind; [apply _|apply call_stays; intros; apply quiet_id|]. intros [] s' _ _; [reflexivity|apply IH].
Qed.

Lemma is_revoked_stays raw s : stays s (is_revoked sha256 has_cache raw s).1.
Proof.
  unfold is_revoked. apply at_bind; [apply _|reflexivity|]. intros s0 s1 [= <- <-] _.
  destruct (existsb _ _); [reflexivity|]. destruct has_cache; [|reflexivity]. cbn [negb].
  apply at_try; [apply _| |].
  - apply at_bind; [apply _|apply any_revoked_stays|]. intros b s1 _ _.
    apply at_bind; [apply _|apply modify_stays, quiet_degraded|]. intros; reflexivity.
  - intros _ s1 _. apply at_bind; [apply _|reflexivity|]. intros s0 s2 [= <- <-] _.
    apply at_bind; [apply _|apply modify_stays, quiet_degraded|]. intros; reflexivity.
Qed.

Lemma merge_rows_covers rs m : covers m -> covers (merge_rows rs m).
Proof.
  intros (x & M & G). unfold covers, merge_rows. rewrite lookup_merge, M. destruct (rs !! k) as [r|]; cbn; eexists;
    (split; [done|lia]).
Qed.

Lemma pull_stays s : stays s (pull s).1.
Proof.
  unfold pull. apply at_bind; [apply _|apply call_stays; intros; apply quiet_id|]. intros [rs db_now] s1 _ _.
  apply at_bind; [apply _|reflexivity|]. intros s0 s2 [= <- <-] _.
  apply at_bind; [apply _| |intros; reflexivity]. apply modify_stays.
  split; [done|]. split; [done|]. intros _ [K1 K2 K3 K4]. split; cbn; [by apply merge_rows_covers|done..].
Qed.

(** The clock moves on and the events to come stay fair, whatever else happens. *)
Definition moves_on (s s' : Node) : Prop := clock s <= clock s' /\ (fair s -> fair s').
#[global] Instance moves_on_preorder : PreOrder moves_on.
Proof. split; [done|]. intros s1 s2 s3 [C1 F1] [C2 F2]. split; [lia|auto]. Qed.

Lemma vacuous_stays s s' : moves_on s s' -> ~ known s -> stays s s'.
Proof. intros [C F] K. split; [done|]. intros Q. split; [auto|]. by intros _ ?. Qed.

Lemma persist_moves_on es s : moves_on s (persist es s).1.
Proof.
  destruct (served_stays s) as [C F].
  destruct (call_cases (fun s0 : Node => (set_rows
    (foldr (fun e0 t => insert_row e0.1 (Z.min e0.2 MAX_EXP, clock s0) t) (rows s0) (map_to_list es)) s0, tt)) s)
    as [Q|[Q|Q]]; unfold persist; rewrite Q; (split; [done|]); intros G; by destruct (F G).
Qed.

Lemma late_dec es : late es \/ ~ late es.
Proof.
  unfold late. destruct (es !! k) as [x|]; [|left; by intros y]. destruct (decide (e <= x)) as [G|G].
  - left. by intros y [= <-].
  - right. intros Q. by apply G, Q.
Qed.

Lemma flush_stays s : stays s (flush_unpersisted s).1.
Proof.
  unfold flush_unpersisted. apply at_bind; [apply _|apply modify_stays, quiet_queue_prune|]. intros [] s1 _ _.
  apply at_bind; [apply _|reflexivity|]. intros s0 s2 [= <- <-] _. case_bool_decide; [reflexivity|].
  destruct (late_dec (unpersisted s1)) as [Lt|Lt].
  - apply at_bind; [apply _|by apply persist_stays|].
    intros [] s2 P _. apply modify_stays, dequeue_quiet. intros x. by apply (persist_writes _ s1 s2).
  - apply vacuous_stays; [|by intros [_ _ _ Q]]. apply at_bind; [apply _|apply persist_moves_on|]. by intros [] s2 _ _.
Qed.

Lemma store_pass_stays s : stays s (store_pass s).1.
Proof.
  unfold store_pass. apply at_bind; [apply _|apply pull_stays|]. intros a s1 _ _.
  apply at_bind; [apply _|apply flush_stays|]. intros; reflexivity.
Qed.

Lemma rewrite_stays s : stays s (rewrite_unpersisted has_cache s).1.
Proof.
  unfold rewrite_unpersisted. destruct has_cache; [|reflexivity]. cbn [negb].
  apply at_bind; [apply _|apply modify_stays, quiet_queue_prune|]. intros [] s1 _ _.
  apply at_bind; [apply _|reflexivity|]. intros s0 s2 [= <- <-] _. case_bool_decide; [reflexivity|].
  apply write_revoked_stays.
Qed.

(** A key that is held live here is never imported. *)
Lemma not_imported now held m : now < e -> covers m -> imported_from now held m !! k = None.
Proof.
  intros L (x & M & G). unfold imported_from. rewrite lookup_fmap, fmap_None.
  apply map_lookup_filter_None. right. intros v _ [_ Q]. cbn in Q. rewrite M in Q. cbn in Q. lia.
Qed.

Lemma union_late (es m : Expiries) s : mirror s = es ∪ m -> known s -> late es.
Proof.
  intros M [(x & K & G) _ _ _] y E. rewrite M, (lookup_union_Some_l _ _ _ _ E) in K. by injection K as ->.
Qed.

Lemma queue_quiet es m s : mirror s = es ∪ m -> quiet (fun s => set_unpersisted (es ∪ unpersisted s) s) s.
Proof.
  intros M. apply quiet_queue. intros _ K. pose proof (union_late es m s M K) as Lt. destruct K as [_ _ D Q].
  split; [destruct D as [D|D]; [by left|right; by apply union_covers]|].
  intros x [U|[_ U]]%lookup_union_Some_raw; auto.
Qed.

Lemma persist_or_queue_moves_on es s : moves_on s (persist_or_queue es s).1.
Proof.
  unfold persist_or_queue. apply at_bind; [apply _|done|]. intros [] s1 _ _. apply at_try; [apply _| |done].
  apply at_bind; [apply _|apply persist_moves_on|]. by intros [] s2 _ _.
Qed.

Lemma events_mirror s evs : mirror (foldl event s evs) = mirror s.
Proof. revert s. induction evs as [|ev evs IH]; intros s; [done|]. cbn. rewrite IH. by destruct ev. Qed.

Lemma call_mirror {X} (f : Node -> Node * X) s :
  (forall s', mirror (f s').1 = mirror s') -> mirror (call f s).1 = mirror s.
Proof.
  intros F. assert (S : mirror (served s) = mirror s).
  { unfold served. destruct (calls s); [done|]. cbn. apply events_mirror. }
  destruct (call_cases f s) as [-> | [-> | ->]]; cbn; by rewrite ?F.
Qed.

Lemma write_revoked_mirror es b s : mirror (cache_write_revoked es b s).1 = mirror s.
Proof.
  assert (P : PreOrder (fun s s' : Node => mirror s' = mirror s)) by (split; [done|]; intros ??? -> ->; done).
  apply (at_bind (fun s s' : Node => mirror s' = mirror s)).
  - apply (keeps_for_each (fun s s' : Node => mirror s' = mirror s)). intros a s'. by apply call_mirror.
  - intros _ s' _ _. destruct b; [by apply call_mirror|done].
Qed.

Lemma reconcile_stays boot s : stays s (reconcile_cache has_cache boot s).1.
Proof.
  unfold reconcile_cache. destruct has_cache; [|reflexivity]. cbn [negb].
  apply at_bind; [apply _|apply call_stays; intros; apply quiet_id|]. intros intact s1 _ _.
  destruct (intact && negb boot); [reflexivity|].
  apply at_bind; [apply _|reflexivity|]. intros s0 s2 [= <- <-] _.
  apply at_bind; [apply _|apply call_stays; intros; apply quiet_id|]. intros held s2 _ [T _].
  apply at_bind; [apply _|reflexivity|]. intros s0 s3 [= <- <-] _.
  assert (T2 : now_s s1 <= now_s s2) by (by apply Z.div_le_mono).
  set (im := imported_from (now_s s1) held (mirror s2)).
  apply at_bind; [apply _| |].
  { apply modify_stays, quiet_mirror. intros L K. apply union_covers; [|done].
    intros x. unfold im. rewrite not_imported; [done|lia|done]. }
  intros [] s3 E3 _. injection E3 as <-.
  apply at_bind; [apply _|by apply modify_stays, (queue_quiet im (mirror s2))|].
  intros [] s4 E4 _. injection E4 as <-. set (s4 := set_unpersisted _ _).
  assert (M4 : mirror s4 = im ∪ mirror s2) by done. clearbody s4.
  assert (P : forall s5, mirror s5 = im ∪ mirror s2 -> stays s5 ((if bool_decide (im = ∅) then mret tt else persist_or_queue im) s5).1).
  { intros s5 M5. case_bool_decide; [reflexivity|]. destruct (late_dec im) as [Lt|Lt]; [by apply persist_or_queue_stays|].
    apply vacuous_stays; [apply persist_or_queue_moves_on|]. intros K. by apply Lt, (union_late im (mirror s2) s5). }
  destruct intact.
  - apply at_bind; [apply _|reflexivity|]. intros [] s5 [= <-] _.
    apply at_bind; [apply _|by apply P|]. intros; reflexivity.
  - apply at_bind; [apply _|apply at_bind; [apply _|reflexivity|intros; apply write_revoked_stays]|].
    intros [] s5 E5 _. apply at_bind; [apply _| |intros; reflexivity]. apply P.
    unfold mbind, M_bind, get_state in E5. rewrite <- M4, <- (write_revoked_mirror
      ((fun e0 => e0 - now_s s1) <$> filter (fun e0 => now_s s1 < e0.2) (mirror s4)) true s4).
    by rewrite E5.
Qed.

Lemma sync_stays s : stays s (sync has_cache s).1.
Proof.
  unfold sync. apply at_bind; [apply _|reflexivity|]. intros s0 s1 [= <- <-] _. destruct (bound s); [|reflexivity].
  cbn [negb]. apply at_bind; [apply _| |].
  { apply modify_stays, quiet_mirror. intros L. by apply prune_covers. }
  intros [] s1 _ _. apply at_bind; [apply _| |].
  { apply at_try; [apply _| |intros; reflexivity].
    apply at_bind; [apply _|apply store_pass_stays|]. intros; reflexivity. }
  intros r s2 _ _. apply at_bind; [apply _|reflexivity|]. intros s0 s3 [= <- <-] _.
  apply at_bind; [apply _| |].
  { case_bool_decide; [reflexivity|]. apply at_try; [apply _| |intros; reflexivity].
    apply at_bind; [apply _|apply rewrite_stays|]. intros [] s3 _ _. apply reconcile_stays. }
  intros n s3 _ _. destruct r; reflexivity.
Qed.

Lemma close_stays s : stays s (close s).1.
Proof.
  unfold close. apply at_bind; [apply _|reflexivity|]. intros s0 s1 [= <- <-] _.
  destruct (_ || _); [reflexivity|]. apply at_try; [apply _|apply flush_stays|intros; reflexivity].
Qed.
End Ops.
End Stays.

(** ** A logout holds *)

Inductive Act :=
  | Logout (raw : text) (exp : Z)
  | CheckToken (raw : text)
  | SyncPass
  | Shutdown
  | Idle (d : Z) (evs : list Event).

Section Theorems.
Context (sha256 : list Z -> text) (has_cache : bool).

Definition act (a : Act) (s : Node) : Node :=
  match a with
  | Logout raw exp => (revoke sha256 has_cache raw exp s).1
  | CheckToken raw => (is_revoked sha256 has_cache raw s).1
  | SyncPass => (sync has_cache s).1
  | Shutdown => (close s).1
  | Idle d evs => set_clock (clock s + Z.abs d) (foldl event s evs)
  end.

Definition run_acts (l : list Act) (s : Node) : Node := foldl (fun s a => act a s) s l.

(** Whoever logs this token out, or records its logout, does it until its own expiry. *)
Definition fair_act (k : text) (e : Z) (a : Act) : Prop :=
  match a with
  | Logout raw exp => consistent k e sha256 raw exp
  | Idle _ evs => Forall (fair_event k e) evs
  | _ => True
  end.

Lemma act_stays k e a s : e <= MAX_EXP -> fair_act k e a -> stays k e s (act a s).
Proof.
  intros R F. destruct a as [raw exp|raw| | |d evs]; cbn [act fair_act] in *.
  - by apply revoke_stays.
  - by apply is_revoked_stays.
  - by apply sync_stays.
  - by apply close_stays.
  - split; [cbn; lia|]. intros Fs. destruct (events_stay k e evs s F) as (C & L & K).
    split; [by unfold fair; cbn; rewrite L|]. intros N Ks. eapply known_ext; [..|apply K]; try done.
    unfold now_s, secs_of in *. cbn in N. pose proof (Z.div_le_mono (clock s) (clock s + Z.abs d) 1000). lia.
Qed.

Lemma run_acts_stay k e l s : e <= MAX_EXP -> Forall (fair_act k e) l -> stays k e s (run_acts l s).
Proof.
  intros R F. revert s. induction F as [|a l Fa F IH]; intros s; [reflexivity|].
  etransitivity; [by apply (act_stays k e a s)|apply IH].
Qed.

(** A key known here is refused here, without asking any store. *)
Lemma known_refused k e raw s :
  known k e s -> k ∈ keys_of sha256 raw -> now_s s < e -> is_revoked sha256 has_cache raw s = (s, inr true).
Proof.
  intros [(x & M & G) _ _ _] I L. unfold is_revoked, mbind, M_bind, get_state.
  assert (existsb (fun k0 => now_s s <? default 0 (mirror s !! k0)) (keys_of sha256 raw) = true) as ->; [|done].
  apply existsb_exists. exists k. split; [by apply list_elem_of_In|]. rewrite M. cbn. apply Z.ltb_lt. lia.
Qed.

(** Redis calls leave the mirror alone and the rows fair. *)
Definition redis_only (k : text) (e : Z) (s s' : Node) : Prop :=
  fair k e s -> fair k e s' /\ mirror s' = mirror s /\ unpersisted s' = unpersisted s /\
    ((forall r, rows s !! k = Some r -> e <= r.1) -> forall r, rows s' !! k = Some r -> e <= r.1).

#[local] Instance redis_only_preorder k e : PreOrder (redis_only k e).
Proof.
  split; [done|]. intros s1 s2 s3 A B F. destruct (A F) as (F2 & M2 & U2 & R2). destruct (B F2) as (F3 & M3 & U3 & R3).
  split_and!; [done|congruence|congruence|auto].
Qed.

Lemma events_rows k e evs s : Forall (fair_event k e) evs ->
  (forall r, rows s !! k = Some r -> e <= r.1) -> forall r, rows (foldl event s evs) !! k = Some r -> e <= r.1.
Proof.
  intros F. revert s. induction F as [|ev evs F1 F IH]; intros s R; cbn; [done|]. apply IH.
  destruct ev as [k' u| | |k' x at_|]; cbn in *; try done.
  - intros r. unfold insert_row. destruct (rows s !! k'); [apply R|]. destruct (decide (k' = k)) as [->|N].
    + rewrite lookup_insert_eq. intros [= <-]. by apply F1.
    + rewrite lookup_insert_ne by done. apply R.
  - intros r. unfold prune_rows. rewrite map_lookup_filter_Some. intros [Q _]. auto.
Qed.

Lemma events_queue evs s : unpersisted (foldl event s evs) = unpersisted s.
Proof. revert s. induction evs as [|ev evs IH]; intros s; [done|]. cbn. rewrite IH. by destruct ev. Qed.

Lemma events_calls evs s : calls (foldl event s evs) = calls s.
Proof. revert s. induction evs as [|ev evs IH]; intros s; [done|]. cbn. rewrite IH. by destruct ev. Qed.

Lemma served_redis_only k e s : redis_only k e s (served s).
Proof.
  unfold redis_only, served, fair. destruct (calls s) as [|c cs] eqn:E; [by rewrite ?E|].
  intros [F1 F]%Forall_cons. cbn. split_and!; [done|apply events_mirror|apply events_queue|by apply events_rows].
Qed.

Lemma revoke_token_redis_only k e k' ttl s : redis_only k e s (cache_revoke_token k' ttl s).1.
Proof.
  unfold cache_revoke_token.
  destruct (call_cases (fun s => (set_redis (<[k':=clock s + 1000 * Z.max 1 ttl]> (redis s)) s, tt)) s)
    as [-> | [-> | ->]]; cbn; (etransitivity; [apply served_redis_only|]); done.
Qed.

Lemma token_hash_key raw : token_hash sha256 raw ∈ keys_of sha256 raw.
Proof. unfold keys_of. case_bool_decide; left. Qed.

Lemma redis_revoke_only k e keys ttl s :
  exists s2, redis_revoke has_cache keys ttl s = (s2, inr tt) /\ redis_only k e s s2.
Proof.
  assert (Q : redis_only k e s (redis_revoke has_cache keys ttl s).1).
  { unfold redis_revoke. destruct has_cache; [|reflexivity]. apply at_try; [apply _| |intros; reflexivity].
    apply at_bind; [apply _| |intros; reflexivity].
    apply (keeps_for_each (redis_only k e)). intros a s'. apply revoke_token_redis_only. }
  assert (E : exists s2, redis_revoke has_cache keys ttl s = (s2, inr tt)).
  { unfold redis_revoke. destruct has_cache; [|by eexists]. unfold try_with.
    match goal with |- context [match ?m with _ => _ end] => destruct m as [s2 [x|[]]] end; by eexists. }
  destruct E as [s2 E]. rewrite E in Q. eauto.
Qed.

(** After a logout the token's key is known here, whatever Redis and PostgreSQL did. *)
Lemma revoke_known raw exp s :
  let k := token_hash sha256 raw in
  bound s = true -> exp <= MAX_EXP -> now_s s < exp -> fair k exp s ->
  (forall r, rows s !! k = Some r -> exp <= r.1) ->
  let s' := (revoke sha256 has_cache raw exp s).1 in
  fair k exp s' /\ (now_s s' < exp -> known k exp s').
Proof.
  intros k B R L F Rk. cbn zeta.
  set (ttl := Z.max 1 (Z.min exp MAX_EXP - now_s s)). set (es := entries_of (keys_of sha256 raw) (now_s s + ttl)).
  assert (Es : es !! k = Some exp).
  { unfold es, ttl. rewrite entries_lookup, bool_decide_true by apply token_hash_key. f_equal. lia. }
  destruct (redis_revoke_only k exp (keys_of sha256 raw) ttl (set_mirror (es ∪ mirror s) s)) as (s2 & E2 & Q).
  destruct (Q F) as (F2 & M2 & U2 & R2).
  assert (E : revoke sha256 has_cache raw exp s = persist_or_queue es s2).
  { unfold revoke, mbind, M_bind, get_state, modify. rewrite B. cbn [mret M_ret]. fold ttl es. by rewrite E2. }
  rewrite E. clear E.
  assert (P : stays k exp (set_unpersisted (es ∪ unpersisted s2) s2) (persist_or_queue es s2).1).
  { unfold persist_or_queue, mbind at 1, M_bind at 1. cbn [modify].
    apply at_try; [apply _| |intros; reflexivity]. apply at_bind; [apply _| |].
    - apply persist_stays; [done|]. intros x. rewrite Es. intros [= <-]. lia.
    - intros [] s3 P3 _. apply modify_stays, dequeue_quiet. intros x. by eapply persist_writes, P3. }
  destruct P as [C P]. destruct (P F2) as [F3 K]. split; [exact F3|]. intros N. apply K; [exact N|]. split; cbn.
  - exists exp. split; [|lia]. rewrite M2. cbn. by apply lookup_union_Some_l.
  - apply R2, Rk.
  - right. exists exp. split; [by apply lookup_union_Some_l|lia].
  - intros x. rewrite (lookup_union_Some_l _ _ _ _ Es). intros [= <-]. lia.
Qed.

(** What a process knows after it booted and its first pass returned. *)
Lemma served_row k e s :
  fair k e s -> now_s (served s) < e -> (exists r, rows s !! k = Some r /\ e <= r.1) ->
  exists r, rows (served s) !! k = Some r /\ e <= r.1.
Proof.
  intros F N (r & Rk & G). set (s0 := set_unpersisted ∅ (set_mirror {[k := e]} s)).
  assert (K0 : known k e s0).
  { split; cbn; [exists e; split; [apply lookup_singleton_eq|lia]|by intros r' ?; simplify_eq|left; eauto|].
    intros x. by rewrite lookup_empty. }
  destruct (served_stays k e s0) as [_ S]. destruct (S F) as [_ K].
  assert (E : rows (served s0) = rows (served s) /\ clock (served s0) = clock (served s)).
  { unfold served, s0. cbn. destruct (calls s) as [|c cs]; [done|]. cbn. split; [|done].
    assert (X : forall evs s, rows (foldl event (set_unpersisted ∅ (set_mirror {[k := e]} s)) evs) = rows (foldl event s evs)).
    { induction evs as [|ev evs IH]; intros s'; [done|]. cbn. rewrite <- (IH (event s' ev)). by destruct ev. }
    apply X. }
  destruct E as [E1 E2]. unfold now_s in *. rewrite E2 in K. destruct (K N K0) as [_ KR [[r' D]|(x & D & _)] _].
  - rewrite E1 in *. exists r'. split; [done|]. by apply KR.
  - cbn in D. unfold served, s0 in D. cbn in D. destruct (calls s); cbn in D; [by rewrite lookup_empty in D|].
    rewrite events_queue in D. cbn in D. by rewrite lookup_empty in D.
Qed.

(** A persisted key that is not queued with a shorter expiry. *)
Definition persisted (k : text) (e : Z) (s : Node) : Prop :=
  (exists r, rows s !! k = Some r /\ e <= r.1) /\ forall x, unpersisted s !! k = Some x -> e <= x.

(** The first pull reads every live row into the mirror. *)
Lemma pull_known k e s s' n :
  0 < e -> fair k e s -> watermark s = None -> persisted k e s -> pull s = (s', inr n) -> now_s s' < e -> known k e s'.
Proof.
  intros Pos F Wm [Rk Q] E N. unfold pull, mbind, M_bind in E.
  destruct (call_cases (fun s => (s, (pull_rows s, clock s))) s) as [C|[C|C]]; rewrite C in E; [|done|done].
  cbn in E. unfold mret, M_ret in E. simplify_eq. change (now_s (served s) < e) in N.
  destruct (served_row k e s F N Rk) as (r & Rs & G).
  assert (Ws : watermark (served s) = None).
  { unfold served. destruct (calls s) as [|c cs]; [done|]. cbn. clear -Wm.
    revert s Wm. induction (others c) as [|ev evs IH]; intros s Wm; [done|]. cbn. apply IH. by destruct ev. }
  assert (Us : unpersisted (served s) = unpersisted s).
  { unfold served. destruct (calls s); [done|]. apply events_queue. }
  assert (Pr : pull_rows (served s) !! k = Some r).
  { apply map_lookup_filter_Some. split; [done|]. rewrite Ws. cbn. unfold now_s, secs_of in N.
    rewrite andb_true_r. apply Is_true_true, Z.ltb_lt. pose proof (Z.mod_pos_bound (clock (served s)) 1000).
    pose proof (Z.div_mod (clock (served s)) 1000). lia. }
  split; cbn.
  - unfold covers, merge_rows. rewrite lookup_merge, Pr. destruct (mirror (served s) !! k) as [x|]; cbn.
    + eexists. split; [done|]. lia.
    + assert (0 <? r.1 = true) as -> by (apply Z.ltb_lt; lia).
      eexists. split; [done|lia].
  - intros r' R'. rewrite Rs in R'. by simplify_eq.
  - left. eauto.
  - rewrite Us. apply Q.
Qed.

(** A pass that returns has pulled; what came after it kept what was known. *)
Lemma sync_returns k e s s' n :
  e <= MAX_EXP -> sync has_cache s = (s', inr n) ->
  exists sp a, pull (set_mirror (prune (now_s s) (mirror s)) s) = (sp, inr a) /\ stays k e sp s'.
Proof.
  intros R E. unfold sync, mbind at 1, M_bind at 1 in E. cbn [get_state] in E.
  destruct (bound s); [|done]. cbn [negb] in E. unfold mbind at 1, M_bind at 1 in E. cbn [modify] in E.
  set (s1 := set_mirror (prune (now_s s) (mirror s)) s) in *.
  set (rest := fun r : exc + Z => _) in E.
  assert (Rs : forall r s2, stays k e s2 (rest r s2).1).
  { intros r s2. unfold rest. apply at_bind; [apply _|reflexivity|]. intros s0 s3 [= <- <-] _.
    apply at_bind; [apply _| |].
    - case_bool_decide; [reflexivity|]. apply at_try; [apply _| |intros; reflexivity].
      apply at_bind; [apply _|by apply rewrite_stays|]. intros [] s3 _ _. by apply reconcile_stays.
    - intros m s3 _ _. destruct r; reflexivity. }
  assert (Rl : forall x s2, exists s3 y, rest (inl x) s2 = (s3, inl y)).
  { intros x s2. unfold rest, mbind, M_bind. cbn [get_state]. repeat case_match; eauto. }
  unfold mbind at 1, M_bind at 1 in E. unfold try_with at 1 in E. unfold store_pass in E.
  unfold mbind at 1, M_bind at 1 in E. unfold mbind at 1, M_bind at 1 in E.
  destruct (pull s1) as [sp [x|a]] eqn:Ep.
  - cbn in E. unfold mret, M_ret in E. destruct (Rl x sp) as (s3 & y & Q). by rewrite Q in E.
  - exists sp, a. split; [done|]. unfold mbind at 1, M_bind at 1 in E.
    destruct (flush_unpersisted sp) as [sf [x|[]]] eqn:Ef.
    + cbn in E. unfold mret, M_ret in E. destruct (Rl x sf) as (s3 & y & Q). by rewrite Q in E.
    + cbn in E. unfold mret, M_ret in E. pose proof (flush_stays k e R sp) as Fs. rewrite Ef in Fs.
      specialize (Rs (inr a) sf). rewrite E in Rs. etransitivity; [exact Fs|exact Rs].
Qed.

Lemma boot_known k e s s' n :
  0 < e -> e <= MAX_EXP -> fair k e s -> watermark s = None -> persisted k e s ->
  sync has_cache s = (s', inr n) -> fair k e s' /\ (now_s s' < e -> known k e s').
Proof.
  intros Pos R F Wm P E. destruct (sync_returns k e s s' n R E) as (sp & a & Ep & [C S]).
  pose proof (pull_stays k e (set_mirror (prune (now_s s) (mirror s)) s)) as [_ Sp]. rewrite Ep in Sp.
  destruct (Sp F) as [Fp _]. destruct (S Fp) as [F' K]. split; [done|]. intros N. apply K; [done|].
  apply (pull_known k e (set_mirror (prune (now_s s) (mirror s)) s) sp a); [done|exact F|exact Wm|exact P|exact Ep|].
  unfold now_s, secs_of in *. pose proof (Z.div_le_mono (clock sp) (clock s') 1000). lia.
Qed.
End Theorems.

(** C10: A logout holds on the process that served it: until the token expires it is refused there, under any
    spelling with the same key, whatever the stores did during the logout or do since, through any
    further logouts, checks, passes and events by other processes; and meanwhile its key is in PostgreSQL
    or still queued for it. *)
Theorem logout_holds sha256 has_cache raw raw' exp acts s :
  let k := token_hash sha256 raw in
  bound s = true -> exp <= MAX_EXP -> now_s s < exp -> fair k exp s ->
  (forall r, rows s !! k = Some r -> exp <= r.1) ->
  Forall (fair_act sha256 k exp) acts -> token_hash sha256 raw' = k ->
  let s' := run_acts sha256 has_cache acts (revoke sha256 has_cache raw exp s).1 in
  now_s s' < exp ->
  is_revoked sha256 has_cache raw' s' = (s', inr true) /\
  (is_Some (rows s' !! k) \/ is_Some (unpersisted s' !! k)).
Proof.
  intros k B R L F Rk Fa Sp s' N.
  destruct (revoke_known sha256 has_cache raw exp s B R L F Rk) as [F1 K1].
  destruct (run_acts_stay sha256 has_cache k exp acts (revoke sha256 has_cache raw exp s).1 R Fa) as [C S].
  destruct (S F1) as [_ K]. fold s' in C.
  assert (K' : known k exp s').
  { apply K; [done|]. apply K1. unfold now_s, secs_of in *.
    pose proof (Z.div_le_mono (clock (revoke sha256 has_cache raw exp s).1) (clock s') 1000). lia. }
  split; [apply (known_refused _ _ k exp); [done|rewrite <- Sp; apply token_hash_key|done]|].
  destruct K' as [_ _ [D|(x & D & _)] _]; [by left|right; eauto].
Qed.

(** A process that starts with nothing: as after a crash or a restart. *)
Definition reboot (s : Node) : Node :=
  mkNode ∅ ∅ None None true (redis s) (marker s) (rows s) (clock s) (calls s).

(** A logout that reached PostgreSQL survives the loss of Redis and of every process: a process whose first
    pass returned, which is when it may serve, refuses the token from then on until it expires. *)
Theorem logout_survives_restart sha256 has_cache raw exp s s' n acts :
  let k := token_hash sha256 raw in
  0 < exp -> exp <= MAX_EXP -> fair k exp s -> (exists r, rows s !! k = Some r /\ exp <= r.1) ->
  sync has_cache (reboot (set_marker false (set_redis ∅ s))) = (s', inr n) ->
  Forall (fair_act sha256 k exp) acts ->
  let s'' := run_acts sha256 has_cache acts s' in
  now_s s'' < exp -> is_revoked sha256 has_cache raw s'' = (s'', inr true).
Proof.
  intros k Pos R F Rk E Fa s'' N.
  assert (P : persisted k exp (reboot (set_marker false (set_redis ∅ s)))) by (split; [done|]; intros x; cbn; by rewrite lookup_empty).
  destruct (boot_known has_cache k exp (reboot (set_marker false (set_redis ∅ s))) s' n Pos R F eq_refl P E) as [F1 K1].
  destruct (run_acts_stay sha256 has_cache k exp acts s' R Fa) as [C S]. destruct (S F1) as [_ K].
  fold s'' in C. apply (known_refused _ _ k exp); [|apply token_hash_key|done]. apply K; [done|]. apply K1.
  unfold now_s, secs_of in *. pose proof (Z.div_le_mono (clock s') (clock s'') 1000). lia.
Qed.

(** ** The other replicas *)

(** Calls that are answered, with nobody losing Redis's data meanwhile. *)
Definition calm (s : Node) : Prop := Forall (fun c => outcome c = Answered /\ others c = []) (calls s).

Lemma call_calm {X} (f : Node -> Node * X) s :
  calm s -> (forall s', calls (f s').1 = calls s') ->
  exists t, clock s <= t /\ exists cs, call f s = ((f (set_calls cs (set_clock t s))).1, inr (f (set_calls cs (set_clock t s))).2) /\
    Forall (fun c => outcome c = Answered /\ others c = []) cs.
Proof.
  unfold calm, call. intros Q _. destruct (calls s) as [|c cs] eqn:E.
  - exists (clock s). split; [lia|]. exists []. split; [|constructor]. by destruct s; cbn in *; subst.
  - apply Forall_cons in Q as [[-> O] Q]. rewrite O. cbn. exists (clock s + Z.abs (delay c)). split; [lia|].
    exists cs. split; [by destruct s|done].
Qed.

(** A run of writes that are all answered leaves every entry in Redis for at least its time to live. *)
Lemma writes_land (l : list (text * Z)) s :
  calm s -> NoDup l.*1 ->
  exists s' ys, for_each l (fun e => cache_revoke_token e.1 e.2) s = (s', inr ys) /\ calm s' /\ clock s <= clock s' /\
    mirror s' = mirror s /\ unpersisted s' = unpersisted s /\ rows s' = rows s /\ bound s' = bound s /\
    watermark s' = watermark s /\ marker s' = marker s /\
    (forall k ttl, (k, ttl) ∈ l -> exists u, redis s' !! k = Some u /\ clock s + 1000 * ttl <= u) /\
    (forall k, k ∉ l.*1 -> redis s' !! k = redis s !! k).
Proof.
  revert s. induction l as [|[k ttl] l IH]; intros s Q ND; cbn [for_each].
  - eexists _, _. split; [done|]. split_and!; try done. intros ? ? I. by apply elem_of_nil in I.
  - rewrite fmap_cons in ND. apply NoDup_cons in ND as [Nk ND].
    destruct (call_calm (fun s => (set_redis (<[k := clock s + 1000 * Z.max 1 ttl]> (redis s)) s, tt)) s Q) as (t & T & cs & E & Qc);
      [done|].
    unfold mbind at 1, M_bind at 1. cbn [fst snd]. unfold cache_revoke_token at 1. rewrite E. cbn [fst snd].
    set (s1 := set_redis _ _).
    destruct (IH s1 Qc ND) as (s' & ys & E' & Q' & C' & M' & U' & R' & B' & W' & K' & In' & Out').
    unfold mbind at 1, M_bind at 1. rewrite E'. eexists _, _. split; [done|].
    split_and!; try (etrans; eassumption); try done.
    + intros k' ttl' [I|I]%elem_of_cons.
      * simplify_eq. rewrite Out' by done. cbn. rewrite lookup_insert_eq. eexists. split; [done|]. lia.
      * destruct (In' _ _ I) as (u & Eu & Lu). exists u. split; [done|]. cbn in Lu. lia.
    + intros k' N'. rewrite fmap_cons in N'. apply not_elem_of_cons in N' as [N1 N2]. rewrite Out' by done. cbn.
      by rewrite lookup_insert_ne.
Qed.

Lemma keys_nodup sha256 raw : NoDup (keys_of sha256 raw).
Proof.
  unfold keys_of. case_bool_decide as E; [apply NoDup_singleton|].
  constructor; [by intros I%list_elem_of_singleton|apply NoDup_singleton].
Qed.

Lemma for_each_map {A B C} (f : A -> B) (g : B -> N C) l s : for_each (map f l) g s = for_each l (fun x => g (f x)) s.
Proof.
  revert s. induction l as [|x l IH]; intros s; [done|]. cbn. unfold mbind, M_bind.
  destruct (g (f x) s) as [s1 [e|y]]; [done|]. by rewrite IH.
Qed.

Lemma redis_revoke_lands keys ttl s :
  calm s -> NoDup keys -> 1 <= ttl ->
  exists s', redis_revoke true keys ttl s = (s', inr tt) /\ calm s' /\
    forall k, k ∈ keys -> exists u, redis s' !! k = Some u /\ clock s + 1000 * ttl <= u.
Proof.
  intros Q ND T. destruct (writes_land (map (fun k => (k, ttl)) keys) s Q) as (s' & ys & E & Q' & _ & _ & _ & _ & _ & _ & _ & In & _).
  { rewrite <- list_fmap_compose. cbn. by rewrite list_fmap_id. }
  rewrite for_each_map in E. cbn in E. exists s'. unfold redis_revoke, try_with, mbind, M_bind. rewrite E.
  split; [done|]. split; [done|]. intros k I. apply In. apply list_elem_of_fmap. by exists k.
Qed.

Lemma persist_or_queue_redis es s : calm s -> redis (persist_or_queue es s).1 = redis s.
Proof.
  intros Q. unfold persist_or_queue, mbind at 1, M_bind at 1. cbn [modify]. set (s1 := set_unpersisted _ s).
  destruct (call_calm (fun s => (set_rows (foldr (fun e t => insert_row e.1 (Z.min e.2 MAX_EXP, clock s) t) (rows s)
                                    (map_to_list es)) s, tt)) s1 Q) as (t & _ & cs & E & _); [done|].
  unfold try_with, mbind, M_bind, persist. by rewrite E.
Qed.

Lemma keys_head sha256 raw : exists ks, keys_of sha256 raw = token_hash sha256 raw :: ks.
Proof. unfold keys_of. case_bool_decide; eauto. Qed.

(** [is_revoked] past the mirror. *)
Lemma is_revoked_split sha256 raw s :
  is_revoked sha256 true raw s =
  if existsb (fun k => now_s s <? default 0 (mirror s !! k)) (keys_of sha256 raw) then (s, inr true)
  else match any_revoked (keys_of sha256 raw) s with
       | (s', inr b) => (set_degraded None s', inr b)
       | (s', inl _) =>
           let since := default (clock s') (degraded_since s') in
           (set_degraded (Some since) s', inr (REVOCATION_GRACE_MS <? clock s' - since))
       end.
Proof.
  unfold is_revoked, mbind, M_bind, get_state, try_with, modify. cbn [negb].
  destruct (existsb _ _); [done|]. by destruct (any_revoked _ s) as [s' [e|b]].
Qed.

(** A logout whose Redis writes were answered is refused by every other process on its next request, until
    the token expires. *)
Theorem peers_refuse sha256 raw exp s p :
  bound s = true -> exp <= MAX_EXP -> now_s s < exp -> calm s -> calm p ->
  redis p = redis (revoke sha256 true raw exp s).1 ->
  let '(p', answer) := is_revoked sha256 true raw p in
  clock p' < 1000 * exp -> answer = inr true.
Proof.
  intros B R L Q Qp Rp.
  set (ttl := Z.max 1 (Z.min exp MAX_EXP - now_s s)). set (es := entries_of (keys_of sha256 raw) (now_s s + ttl)).
  destruct (redis_revoke_lands (keys_of sha256 raw) ttl (set_mirror (es ∪ mirror s) s)) as (s2 & E2 & Q2 & In);
    [done|apply keys_nodup|unfold ttl; lia|].
  assert (E : revoke sha256 true raw exp s = persist_or_queue es s2).
  { unfold revoke, mbind, M_bind, get_state, modify. rewrite B. cbn [mret M_ret]. fold ttl es. by rewrite E2. }
  rewrite E, persist_or_queue_redis in Rp by done.
  destruct (In (token_hash sha256 raw) (token_hash_key sha256 raw)) as (u & Eu & Lu).
  assert (1000 * exp <= u).
  { cbn in Lu. unfold ttl, now_s, secs_of in *. pose proof (Z.mul_div_le (clock s) 1000). lia. }
  rewrite is_revoked_split. destruct (existsb _ _); [done|].
  destruct (keys_head sha256 raw) as [ks ->]. cbn [any_revoked].
  destruct (call_calm (fun s => (s, match redis s !! token_hash sha256 raw with Some u => clock s <? u | None => false end)) p Qp)
    as (t & T & cs & Ec & _); [done|].
  unfold mbind, M_bind, cache_is_token_revoked. rewrite Ec. cbn [fst snd redis set_calls set_clock clock].
  rewrite Rp, Eu. destruct (t <? u) eqn:Lt; [done|]. apply Z.ltb_ge in Lt.
  pose proof (any_revoked_stays [] 0 ks (set_calls cs (set_clock t p))) as [C _]. cbn in C.
  destruct (any_revoked ks _) as [p1 [x|b1]]; cbn in *; intros; lia.
Qed.

(** ** Redis down: open for a bounded time, then closed *)

(** A check while Redis does not answer. *)
Lemma check_degraded sha256 raw s c cs :
  calls s = c :: cs -> outcome c <> Answered ->
  existsb (fun k => now_s s <? default 0 (mirror s !! k)) (keys_of sha256 raw) = false ->
  let t := clock s + Z.abs (delay c) in
  let since := default t (degraded_since s) in
  exists s', is_revoked sha256 true raw s = (s', inr (REVOCATION_GRACE_MS <? t - since)) /\
    degraded_since s' = Some since /\ clock s' = t /\ calls s' = cs /\ mirror s' = mirror s.
Proof.
  intros Ec O X. rewrite is_revoked_split, X.
  destruct (keys_head sha256 raw) as [ks ->]. cbn [any_revoked].
  assert (D : forall evs s, degraded_since (foldl event s evs) = degraded_since s).
  { induction evs as [|ev evs IH]; intros s'; [done|]. cbn. rewrite IH. by destruct ev. }
  unfold mbind, M_bind, cache_is_token_revoked, call. rewrite Ec.
  destruct (outcome c); [done| |]; cbn; (eexists; split; [by rewrite ?D, ?events_clock|]); cbn;
    rewrite ?D, ?events_clock, ?events_mirror; done.
Qed.

Definition failing (s : Node) : Prop := Forall (fun c => outcome c <> Answered) (calls s).

Lemma check_failing sha256 raw s t0 :
  failing s -> (1 <= length (calls s))%nat -> degraded_since s = Some t0 ->
  let '(s', answer) := is_revoked sha256 true raw s in
  failing s' /\ (length (calls s) <= S (length (calls s')))%nat /\ degraded_since s' = Some t0 /\
  (answer = inr true \/ (answer = inr false /\ clock s' <= t0 + REVOCATION_GRACE_MS)).
Proof.
  intros F L D. unfold failing in *. destruct (calls s) as [|c cs] eqn:Ec; [cbn in L; lia|].
  apply Forall_cons in F as [Fc F].
  destruct (existsb (fun k => now_s s <? default 0 (mirror s !! k)) (keys_of sha256 raw)) eqn:X.
  - rewrite is_revoked_split, X. cbv beta iota. rewrite Ec. split_and!; [by constructor|cbn; lia|done|by left].
  - destruct (check_degraded sha256 raw s c cs Ec Fc X) as (s' & E & D' & C' & Q' & _). rewrite E. cbv beta iota. rewrite D', C', Q', D.
    cbn [default]. split_and!; [done|done|done|].
    clear E. destruct (REVOCATION_GRACE_MS <? clock s + Z.abs (delay c) - id t0) eqn:G; [by left|right].
    apply Z.ltb_ge in G. split; [done|]. cbn in G. lia.
Qed.

Definition run_checks (sha256 : list Z -> text) (raws : list text) (s : Node) : Node :=
  foldl (fun s r => (is_revoked sha256 true r s).1) s raws.

Lemma checks_failing sha256 raws s t0 :
  failing s -> (length raws <= length (calls s))%nat -> degraded_since s = Some t0 ->
  let s' := run_checks sha256 raws s in
  failing s' /\ (length (calls s) <= length raws + length (calls s'))%nat /\ degraded_since s' = Some t0.
Proof.
  revert s. induction raws as [|r raws IH]; intros s F L D; cbn [run_checks foldl]; [done|]. cbn in L.
  pose proof (check_failing sha256 r s t0 F) as C. destruct (is_revoked sha256 true r s) as [s1 a] eqn:E.
  destruct C as (F1 & L1 & D1 & _); [lia|done|]. cbn [fst].
  destruct (IH s1) as (F2 & L2 & D2); [done|lia|done|]. split_and!; [done|cbn; unfold run_checks in L2; lia|done].
Qed.

(** An outage of the revocation store is not a way around a logout: from the first check that finds Redis
    silent, and however many checks follow while it stays silent, a check either refuses the token or
    takes place within the grace period of that first one. *)
Theorem outage_fails_closed sha256 first raws raw s :
  failing s -> (S (length raws) < length (calls s))%nat -> degraded_since s = None ->
  existsb (fun k => now_s s <? default 0 (mirror s !! k)) (keys_of sha256 first) = false ->
  let s1 := (is_revoked sha256 true first s).1 in
  let '(s', answer) := is_revoked sha256 true raw (run_checks sha256 raws s1) in
  answer = inr true \/ (answer = inr false /\ clock s' <= clock s1 + REVOCATION_GRACE_MS).
Proof.
  intros F L D X. unfold failing in F. destruct (calls s) as [|c cs] eqn:Ec; [cbn in L; lia|].
  apply Forall_cons in F as [Fc F]. cbn in L.
  destruct (check_degraded sha256 first s c cs Ec Fc X) as (s1 & E & D1 & C1 & Q1 & _). rewrite E. cbn zeta. cbn [fst].
  rewrite D in D1. cbn in D1. rewrite <- C1 in D1.
  destruct (checks_failing sha256 raws s1 (clock s1)) as (F2 & L2 & D2); [unfold failing; by rewrite Q1|rewrite Q1; lia|done|].
  rewrite Q1 in L2.
  pose proof (check_failing sha256 raw (run_checks sha256 raws s1) (clock s1) F2) as C.
  destruct (is_revoked sha256 true raw _) as [s' answer]. by destruct C as (_ & _ & _ & C); [lia|done|].
Qed.

(** ** Redis lost its data: the next pass rebuilds it *)

Notation never := (fun (_ : exc) (_ : Node) => False).

Lemma wp_call {X} (f : Node -> Node * X) (Q : X -> Node -> Prop) (E : exc -> Node -> Prop) s :
  calm s ->
  (forall t cs, clock s <= t -> Forall (fun c => outcome c = Answered /\ others c = []) cs ->
     let s1 := set_calls cs (set_clock t s) in Q (f s1).2 (f s1).1) ->
  (forall s', calls (f s').1 = calls s') -> wp (call f) Q E s.
Proof.
  intros C K F. destruct (call_calm f s C F) as (t & T & cs & Ec & Qc). unfold wp. rewrite Ec. by apply K.
Qed.

(** What a pass leaves alone before it looks at the marker. *)
Record waiting (s0 s : Node) : Prop := {
  w_calm : calm s;
  w_clock : clock s0 <= clock s;
  w_marker : marker s = marker s0;
  w_watermark : is_Some (watermark s);
}.

Lemma pull_waits s0 s : waiting s0 s -> wp pull (fun _ => waiting s0) never s.
Proof.
  intros [C T Mk W]. unfold pull. apply wp_bind, wp_call; [done| |done]. intros t cs Tt Q. cbn.
  apply wp_bind, wp_get, wp_bind, wp_modify, wp_ret. split; cbn; [done|lia|done|eauto].
Qed.

Lemma persist_waits s0 es s : waiting s0 s -> wp (persist es) (fun _ => waiting s0) never s.
Proof. intros [C T Mk W]. apply wp_call; [done| |done]. intros t cs Tt Q. split; cbn; [done|lia|done|done]. Qed.

Lemma flush_waits s0 s : waiting s0 s -> wp flush_unpersisted (fun _ => waiting s0) never s.
Proof.
  intros [C T Mk W]. unfold flush_unpersisted. apply wp_bind, wp_modify, wp_bind, wp_get. case_bool_decide.
  - by apply wp_ret.
  - apply wp_bind. eapply wp_mono; [apply (persist_waits s0); by split|intros [] s' [? ? ? ?]|done].
    apply wp_modify. by split.
Qed.

Lemma rewrite_waits s0 s : waiting s0 s -> wp (rewrite_unpersisted true) (fun _ => waiting s0) never s.
Proof.
  intros [C T Mk W]. unfold rewrite_unpersisted. cbn [negb]. apply wp_bind, wp_modify, wp_bind, wp_get. case_bool_decide.
  - by apply wp_ret.
  - unfold cache_write_revoked. apply wp_bind. unfold wp.
    match goal with |- context [for_each (map_to_list ?es)] =>
      destruct (writes_land (map_to_list es) (set_unpersisted (prune (now_s s) (unpersisted s)) s) C) as
        (s' & ys & E & Q' & C' & _ & _ & _ & _ & W' & K' & _); [apply NoDup_fst_map_to_list|] end.
    rewrite E. cbn. split; cbn in *; [done|lia|congruence|by rewrite W'].
Qed.

(** Every live entry of the mirror is in Redis until it expires, and the marker vouches for it. *)
Definition rebuilt (s : Node) : Prop :=
  marker s = true /\
  forall k x, mirror s !! k = Some x -> now_s s < x -> exists u, redis s !! k = Some u /\ 1000 * x <= u.

Lemma reconcile_rebuilds s : calm s -> marker s = false -> wp (reconcile_cache true false) (fun _ => rebuilt) never s.
Proof.
  intros C Mk. unfold reconcile_cache. cbn [negb].
  apply wp_bind, wp_call; [done| |done]. intros t cs Tt Qc. cbn [fst snd set_calls set_clock marker]. rewrite Mk. cbn [andb].
  apply wp_bind, wp_get. set (s1 := set_calls cs (set_clock t s)).
  apply wp_bind, wp_call; [done| |done]. intros t2 cs2 Tt2 Qc2. cbn zeta. cbn [fst snd].
  set (held := omap _ _). set (s2 := set_calls cs2 (set_clock t2 s1)).
  apply wp_bind, wp_get. set (im := imported_from (now_s s1) held (mirror s2)).
  apply wp_bind, wp_modify, wp_bind, wp_modify, wp_bind.
  set (s3 := set_unpersisted _ _). apply wp_bind, wp_get.
  unfold cache_write_revoked. apply wp_bind. unfold wp at 1.
  destruct (writes_land (map_to_list ((fun e => e - now_s s1) <$> filter (fun e => now_s s1 < e.2) (mirror s3))) s3 Qc2)
    as (s4 & ys & E & Q4 & C4 & M4 & _ & _ & _ & _ & _ & In & _); [apply NoDup_fst_map_to_list|].
  rewrite E. cbn zeta. apply wp_call; [done| |done]. intros t5 cs5 Tt5 Qc5. cbn [fst snd].
  set (s5 := set_marker true _).
  assert (Rb : forall s6, clock s5 <= clock s6 -> mirror s6 = mirror s5 -> redis s6 = redis s5 -> marker s6 = true -> rebuilt s6).
  { intros s6 C6 M6 R6 K6. split; [done|]. intros k x Kx L. rewrite R6. cbn. rewrite M6 in Kx. cbn in Kx. rewrite M4 in Kx.
    assert (Tc : now_s s1 < x).
    { unfold now_s, secs_of in *. cbn in *. pose proof (Z.div_le_mono t (clock s6) 1000). lia. }
    destruct (In k (x - now_s s1)) as (u & Eu & Lu).
    { apply elem_of_map_to_list. rewrite lookup_fmap. apply fmap_Some. exists x. split; [|done].
      by apply map_lookup_filter_Some. }
    exists u. split; [done|]. unfold now_s, secs_of in *. cbn in *. pose proof (Z.mul_div_le t 1000). lia. }
  apply wp_bind. case_bool_decide; [apply wp_ret, wp_ret, Rb; done|].
  unfold persist_or_queue. apply wp_bind, wp_modify. apply wp_try, wp_bind, wp_call; [done| |done].
  intros t6 cs6 Tt6 Qc6. apply wp_modify, wp_ret, Rb; cbn in *; try done; lia.
Qed.

(** After Redis lost its data, one pass of one process that had loaded the rows writes every live
    revocation back and sets the marker. *)
Theorem wipe_is_repaired s :
  bound s = true -> is_Some (watermark s) -> marker s = false -> calm s ->
  let '(s', answer) := sync true s in
  (exists n, answer = inr n) /\ rebuilt s'.
Proof.
  intros B W Mk C. enough (wp (sync true) (fun _ => rebuilt) never s) as Wp.
  { unfold wp in Wp. destruct (sync true s) as [s' [e|n]]; [done|]. eauto. }
  unfold sync. apply wp_bind, wp_get. rewrite B. cbn [negb].
  rewrite (bool_decide_false (watermark s = None)) by (destruct W as [w ->]; done).
  apply wp_bind, wp_modify, wp_bind, wp_try, wp_bind. unfold store_pass.
  set (s1 := set_mirror _ s). assert (W1 : waiting s1 s1) by (by split).
  apply wp_bind. eapply wp_mono; [apply (pull_waits s1 s1 W1)|intros a s2 W2|done].
  apply wp_bind. eapply wp_mono; [apply (flush_waits s1 s2 W2)|intros [] s3 W3|done].
  apply wp_ret, wp_ret, wp_bind, wp_get. apply wp_bind.
  rewrite (bool_decide_false (watermark s3 = None)) by (destruct W3 as [_ _ _ [w ->]]; done).
  apply wp_try, wp_bind. eapply wp_mono; [apply (rewrite_waits s1 s3 W3)|intros [] s4 W4|done].
  destruct W4 as [C4 _ K4 _]. eapply wp_mono; [apply reconcile_rebuilds; [done|]|intros n s5 R5|done].
  - by rewrite K4.
  - by apply wp_ret.
Qed.

(** ** One token, several spellings *)

Definition b64_char (c : Z) : Prop := is_Some (b64_value c).

Lemma b64_char_facts c : b64_char c -> (c =? 61) = false /\ c < 128 /\ c <> 46.
Proof.
  unfold b64_char, b64_value, is_upper, is_lower, is_num. intros [v E].
  destruct (c =? 61) eqn:P; [apply Z.eqb_eq in P; by subst|]. split; [done|].
  repeat (match type of E with context [if ?b then _ else _] => destruct b eqn:? end; bool_prop; try lia); try done.
  all: repeat match goal with X : _ || _ = true |- _ => apply orb_true_iff in X as [X|X] end; bool_prop; lia.
Qed.

(** The last character of a segment whose length leaves spare bits: they do not change what it decodes to. *)
Lemma a2b_spare body quad left pads c c' v v' :
  Forall b64_char body -> b64_value c = Some v -> b64_value c' = Some v' ->
  0 <= quad < 4 ->
  ((quad + Z.of_nat (length body)) mod 4 = 1 -> v / 16 = v' / 16 ->
     a2b_base64 quad left pads (body ++ [c; 61; 61]) = a2b_base64 quad left pads (body ++ [c'; 61; 61])) /\
  ((quad + Z.of_nat (length body)) mod 4 = 2 -> v / 4 = v' / 4 ->
     a2b_base64 quad left pads (body ++ [c; 61]) = a2b_base64 quad left pads (body ++ [c'; 61])).
Proof.
  intros F V V'.
  assert (P : (c =? 61) = false) by (by apply b64_char_facts; eexists).
  assert (P' : (c' =? 61) = false) by (by apply b64_char_facts; eexists).
  revert quad left pads. induction F as [|b body B F IH]; intros quad left pads Q.
  - cbn [app length]. replace (quad + Z.of_nat 0) with quad by lia. rewrite Z.mod_small by lia.
    split; intros -> E; cbn; rewrite P, P', V, V'; cbn; by rewrite E.
  - destruct (b64_char_facts b B) as [Pb _]. destruct B as [w Bw]. cbn [app a2b_base64]. rewrite Pb, Bw.
    assert (Step : forall q', (quad + 1) mod 4 = q' ->
      forall l p, ((quad + Z.of_nat (length (b :: body))) mod 4 = 1 -> v / 16 = v' / 16 ->
        a2b_base64 q' l p (body ++ [c; 61; 61]) = a2b_base64 q' l p (body ++ [c'; 61; 61])) /\
      ((quad + Z.of_nat (length (b :: body))) mod 4 = 2 -> v / 4 = v' / 4 ->
        a2b_base64 q' l p (body ++ [c; 61]) = a2b_base64 q' l p (body ++ [c'; 61]))).
    { intros q' Eq l p. destruct (IH q' l p) as [I1 I2]; [subst q'; apply Z.mod_pos_bound; lia|].
      assert (Em : (q' + Z.of_nat (length body)) mod 4 = (quad + Z.of_nat (length (b :: body))) mod 4).
      { subst q'. rewrite Zplus_mod_idemp_l. f_equal. cbn [length]. lia. }
      rewrite Em in I1, I2. done. }
    assert (quad = 0 \/ quad = 1 \/ quad = 2 \/ quad = 3) as [->|[->|[->| ->]]] by lia; cbn [Z.eqb Pos.eqb];
      split; intros E1 E2; first [by apply Step|f_equal; by apply Step].
Qed.

(** A segment whose last character differs in its spare bits only decodes to the same bytes. *)
Definition spare (len : Z) (c c' : Z) : Prop :=
  exists v v', b64_value c = Some v /\ b64_value c' = Some v' /\
    ((len mod 4 = 2 /\ v / 16 = v' / 16) \/ (len mod 4 = 3 /\ v / 4 = v' / 4)).

Lemma segment_spare body c c' :
  Forall b64_char body -> spare (Z.of_nat (length body) + 1) c c' ->
  decode_segment (body ++ [c]) = decode_segment (body ++ [c']).
Proof.
  intros F (v & v' & V & V' & S). unfold decode_segment. rewrite !forallb_app, !length_app. cbn [length forallb].
  assert ((c <? 128) = true) as -> by (apply Z.ltb_lt, b64_char_facts; by eexists).
  assert ((c' <? 128) = true) as -> by (apply Z.ltb_lt, b64_char_facts; by eexists).
  destruct (forallb _ body); [|done]. cbn [andb].
  rewrite <- !app_assoc. cbn [app].
  destruct (a2b_spare body 0 0 0 c c' v v' F V V' ltac:(lia)) as [A1 A2].
  set (n := Z.of_nat (length body)) in *. replace (Z.of_nat (length body + 1)) with (n + 1) by lia.
  destruct S as [[L E]|[L E]].
  - replace (- (n + 1) mod 4) with 2 by (Z.to_euclidean_division_equations; lia). apply A1; [|done].
    Z.to_euclidean_division_equations. lia.
  - replace (- (n + 1) mod 4) with 1 by (Z.to_euclidean_division_equations; lia). apply A2; [|done].
    Z.to_euclidean_division_equations. lia.
Qed.

Definition jwt (h p body : text) (c : Z) : text := h ++ 46 :: p ++ 46 :: body ++ [c].

(** Every spelling of a token, by the spare bits of the last character of its signature, has one key: logout
    is not undone by editing that character. *)
Theorem respelling_same_key sha256 h p body c c' :
  46 ∉ h -> 46 ∉ p -> Forall b64_char body -> spare (Z.of_nat (length body) + 1) c c' ->
  decode_segment h <> None -> decode_segment p <> None -> decode_segment (body ++ [c]) <> None ->
  token_hash sha256 (jwt h p body c) = token_hash sha256 (jwt h p body c').
Proof.
  intros Nh Np F S Dh Dp Dc. pose proof (segment_spare body c c' F S) as E. destruct S as (v & v' & V & V' & S).
  assert (Nb : forall x w, b64_value x = Some w -> 46 ∉ body ++ [x]).
  { intros x w X. rewrite elem_of_app, list_elem_of_singleton. intros [I|I].
    - rewrite Forall_forall in F. by apply F, b64_char_facts in I as (_ & _ & I).
    - subst x. done. }
  unfold token_hash, jwt. rewrite !split_on_app by done. rewrite (split_on_fresh 46 (body ++ [c])), (split_on_fresh 46 (body ++ [c'])) by eauto.
  rewrite <- E. destruct (decode_segment h), (decode_segment p), (decode_segment (body ++ [c])); done.
Qed.

(** Importing an entry from Redis, whose remaining time is rounded to seconds, records its token's expiry to
    within one second. *)
Theorem import_within_a_second t0 ttl t r :
  let e := secs_of t0 + ttl in
  t0 <= t -> remaining_s t (t0 + 1000 * ttl) = Some r -> e - 1 <= secs_of t + r <= e + 1.
Proof.
  intros e T. unfold remaining_s. destruct (t <? t0 + 1000 * ttl) eqn:L; [|done].
  destruct (0 <? _) eqn:P; [|done]. intros [= <-]. bool_prop. subst e. unfold secs_of.
  Z.to_euclidean_division_equations. lia.
Qed.

(** ** Concrete processes *)

Module Sample.

Definition sha (bytes : list Z) : text := 35 :: bytes.

Definition token : text := jwt (points "aaaa") (points "bbbb") (points "cccc") 65.
Definition respelled : text := jwt (points "aaaa") (points "bbbb") (points "c") 66.

Definition idle : Node := mkNode ∅ ∅ None None true ∅ false ∅ 100000 [].

(** PostgreSQL and Redis silent during a logout and after it. *)
Definition silent : list Call := replicate 8 {| outcome := NotSent; delay := 100; others := [] |}.
Definition outage : Node := mkNode ∅ ∅ (Some 0) None true ∅ true ∅ 100000 silent.

Lemma silent_fair k e s : calls s = silent -> fair k e s.
Proof. unfold fair. intros ->. by repeat constructor. Qed.

Lemma logout_holds_witness :
  let s' := run_acts sha true [SyncPass; CheckToken token; Idle 5000 [RedisWipe; RowsPruned]; Shutdown]
              (revoke sha true token 200 outage).1 in
  is_revoked sha true token s' = (s', inr true) /\
  (is_Some (rows s' !! token_hash sha token) \/ is_Some (unpersisted s' !! token_hash sha token)).
Proof.
  apply (logout_holds sha true token token 200
           [SyncPass; CheckToken token; Idle 5000 [RedisWipe; RowsPruned]; Shutdown] outage).
  - reflexivity.
  - by apply Z.leb_le.
  - vm_compute. reflexivity.
  - by apply silent_fair.
  - intros r. cbn. by rewrite lookup_empty.
  - by repeat constructor.
  - reflexivity.
  - vm_compute. reflexivity.
Defined.

Definition durable : Node := mkNode ∅ ∅ None None true ∅ false {[token_hash sha token := (200, 90000)]} 100000 [].

Lemma logout_survives_restart_witness :
  let s' := (sync true (reboot (set_marker false (set_redis ∅ durable)))).1 in
  let s'' := run_acts sha true [SyncPass] s' in
  is_revoked sha true token s'' = (s'', inr true).
Proof.
  apply (logout_survives_restart sha true token 200 durable (sync true (reboot (set_marker false (set_redis ∅ durable)))).1
           1 [SyncPass]).
  - done.
  - by apply Z.leb_le.
  - constructor.
  - exists (200, 90000). split; [apply lookup_singleton_eq|done].
  - vm_compute. reflexivity.
  - by repeat constructor.
  - vm_compute. reflexivity.
Defined.

Lemma peers_refuse_witness :
  let p := set_redis (redis (revoke sha true token 200 idle).1) idle in
  let '(p', answer) := is_revoked sha true token p in answer = inr true.
Proof.
  pose proof (peers_refuse sha token 200 idle (set_redis (redis (revoke sha true token 200 idle).1) idle) eq_refl
    ltac:(by apply Z.leb_le) ltac:(vm_compute; reflexivity) ltac:(constructor) ltac:(constructor) eq_refl) as T.
  cbn zeta. destruct (is_revoked sha true token _) as [p' answer] eqn:E. apply T.
  apply (f_equal (fun r => clock r.1)) in E. cbn [fst] in E. rewrite <- E. vm_compute. reflexivity.
Defined.

Lemma outage_fails_closed_witness :
  let s1 := (is_revoked sha true respelled outage).1 in
  let '(s', answer) := is_revoked sha true token (run_checks sha [respelled; token] s1) in
  answer = inr true \/ (answer = inr false /\ clock s' <= clock s1 + REVOCATION_GRACE_MS).
Proof.
  apply (outage_fails_closed sha respelled [respelled; token] token outage).
  - unfold failing. cbn. repeat constructor; discriminate.
  - cbn. lia.
  - reflexivity.
  - vm_compute. reflexivity.
Defined.

Definition wiped : Node := mkNode {[token_hash sha token := 200]} ∅ (Some 50000) None true ∅ false ∅ 100000 [].

Lemma wipe_is_repaired_witness :
  let '(s', answer) := sync true wiped in (exists n, answer = inr n) /\ rebuilt s'.
Proof. apply (wipe_is_repaired wiped); [reflexivity|by eexists|reflexivity|constructor]. Defined.

Lemma respelling_same_key_witness :
  token_hash sha (jwt (points "aaaa") (points "bbbb") (points "c") 65) =
  token_hash sha (jwt (points "aaaa") (points "bbbb") (points "c") 66).
Proof.
  apply respelling_same_key.
  - intros I. vm_compute in I. set_solver.
  - intros I. vm_compute in I. set_solver.
  - repeat constructor. by eexists.
  - exists 0, 1. split_and!; [reflexivity|reflexivity|]. left. split; reflexivity.
  - vm_compute. discriminate.
  - vm_compute. discriminate.
  - vm_compute. discriminate.
Defined.

Lemma import_within_a_second_witness : 110 - 1 <= 100 + 9 <= 110 + 1.
Proof. exact (import_within_a_second 100000 10 100900 9 ltac:(lia) eq_refl). Defined.

End Sample.
