(* ===== verification/Auth.v ===== *)
(** * Authentication and identity binding

    [api/auth.py] with the resolution of an API key ([api/api_keys.py]).  A bearer credential is turned into claims; the claims decide which
    namespace a caller may touch and which agent a tool call is evaluated as.  A request body is JSON
    ([Json.value]); a credential's claims are the texts the code reads from them.

    Signature checks, key fetching and hashing belong to libraries ([jwt], [hmac]) and are parameters. *)

From S2P Require Import Prelude.
From S2P Require Import Text.
From S2P Require Import Json.
From S2P Require Import Effects.
From S2P Require Import Identity.
From S2P Require Import Revocation.

(** ** Errors and claims *)

(** [HTTPException(status, detail)]. *)
Record HttpError := Http { code : Z; detail : string }.

Notation R := (sum HttpError).
#[export] Instance R_ret : MRet R := fun A a => inr a.
#[export] Instance R_bind : MBind R := fun A B k m => match m with inl e => inl e | inr a => k a end.

(** The claims the API reads: each as [str(user.get(name, "") or "")]. *)
Record Claims := {
  c_sub : text;
  c_role : text;
  c_namespace : text;
  c_cluster : text;
  c_agent_class : text;
  c_spiffe_id : text;
  c_workload : text;
  c_must_change : bool;
  c_exp : Z;
  c_iat : Z;
}.

(** The settings read here. *)
Record AuthSettings := {
  oidc_enabled : bool;
  legacy_hs256_enabled : bool;
  auth_require_bound_agent_identity : bool;
  workload_api : bool;                 (* spiffe_mode, lower-cased, is "workload-api" *)
  fleet_cluster_id : text;
}.

Definition role_of (u : Claims) : text := lower (c_role u).
Definition is_role (r : string) (u : Claims) : bool := bool_decide (role_of u = points r).

(** Truth of a JSON value, and [str(v or "")]; [str_of] prints what is not a string. *)
Definition truthy (v : value) : bool :=
  match v with
  | VNull => false
  | VBool b => b
  | VInt n => negb (n =? 0)
  | VFloat d => negb (mant d =? 0)
  | VStr s => negb (bool_decide (s = []))
  | VArr l => negb (bool_decide (length l = 0%nat))
  | VObj fs => negb (bool_decide (length fs = 0%nat))
  end.

Definition is_text (v : value) (t : text) : bool := match v with VStr s => bool_decide (s = t) | _ => false end.

Section Auth.
Context (str_of : value -> text).

Definition text_or_empty (v : value) : text :=
  if truthy v then match v with VStr s => s | _ => str_of v end else [].

(** ** Roles and scopes *)

Definition require_admin (u : Claims) : R unit :=
  if is_role "admin" u then mret tt else inl (Http 403 "Admin role required").

Definition require_admin_or_service (u : Claims) : R unit :=
  if is_role "admin" u || is_role "service" u then mret tt else inl (Http 403 "Admin or service role required").

(** [require_target_cluster]: the header's value, [None] when absent. *)
Definition require_target_cluster (cfg : AuthSettings) (header : option text) : R unit :=
  let target := tstrip (default [] header) in
  let served := if bool_decide (fleet_cluster_id cfg = []) then points "local" else fleet_cluster_id cfg in
  if negb (bool_decide (target = [])) && negb (bool_decide (target = served))
  then inl (Http 409 "target cluster does not match this deployment's served cluster") else mret tt.

(** [claim or requested]. *)
Definition or_requested (claim : text) (requested : value) : value :=
  if bool_decide (claim = []) then requested else VStr claim.

Definition scoped_namespace (u : Claims) (requested : value) : R value :=
  if is_role "admin" u then mret requested
  else
    let claim := c_namespace u in
    if negb (is_role "service" u) && bool_decide (claim = []) then inl (Http 403 "No namespace scope")
    else if truthy requested && negb (bool_decide (claim = [])) && negb (is_text requested claim)
    then inl (Http 403 "Not authorized for this namespace")
    else mret (or_requested claim requested).

(** [read_namespace]; the answer [VNull] means no filter. *)
Definition read_namespace (u : Claims) (requested : value) : R value :=
  let claim := c_namespace u in
  if is_text requested (points "all") || match requested with VNull => true | _ => false end then
    if is_role "admin" u || bool_decide (claim = points "*") || (is_role "service" u && bool_decide (claim = []))
    then mret VNull
    else if bool_decide (claim = []) then inl (Http 403 "No namespace scope")
    else mret (VStr claim)
  else scoped_namespace u requested.

Definition scoped_cluster (u : Claims) (requested : value) : R value :=
  let claim := c_cluster u in
  if is_role "admin" u || bool_decide (claim = points "*") then mret requested
  else if truthy requested && negb (bool_decide (claim = [])) && negb (is_text requested claim)
  then inl (Http 403 "Not authorized for this cluster")
  else mret (or_requested claim requested).

(** [attested_namespace]; the empty text when nothing is attested. *)
Definition attested_namespace (u : Claims) (requested : value) : R text :=
  if negb (is_role "service" u) then mret []
  else if bool_decide (c_spiffe_id u = []) then mret []
  else match parse_norviq_spiffe_id (c_spiffe_id u) with
  | None => mret []
  | Some (attested, _) =>
      let claim := c_namespace u in
      if negb (bool_decide (claim = [])) && negb (bool_decide (claim = attested))
      then inl (Http 403 "Credential namespace claim conflicts with its attested identity")
      else
        let asked := text_or_empty requested in
        if negb (bool_decide (asked = [])) && negb (bool_decide (asked = attested))
        then inl (Http 403 "Not authorized for this namespace")
        else mret attested
  end.

(** ** Binding the agent identity *)

Inductive IdField := AgentClass | SpiffeId | Workload.
#[export] Instance IdField_eq_dec : EqDecision IdField.
Proof. solve_decision. Defined.

Definition name_of (f : IdField) : text :=
  points (match f with AgentClass => "agent_class" | SpiffeId => "spiffe_id" | Workload => "workload" end).
Definition claim_of (u : Claims) (f : IdField) : text :=
  match f with AgentClass => c_agent_class u | SpiffeId => c_spiffe_id u | Workload => c_workload u end.

Definition BOUND_IDENTITY_FIELDS : list IdField := [AgentClass; SpiffeId; Workload].
Definition REQUIRED_BOUND_FIELDS : list IdField := [AgentClass; SpiffeId].
Definition ADDITIVE_TIER_FIELDS : list IdField := [Workload].

Definition required_bound_fields (cfg : AuthSettings) : list IdField :=
  if workload_api cfg then filter (fun f => f <> SpiffeId) REQUIRED_BOUND_FIELDS else REQUIRED_BOUND_FIELDS.

Notation IdentityDict := (list (text * value)).

(** [identity.get(field)]. *)
Definition id_get (f : text) (i : IdentityDict) : value := default VNull (field f i).

Definition reject_cross_namespace_spiffe (u : Claims) (i : IdentityDict) : R unit :=
  if negb (is_role "service" u) then mret tt
  else
    let claimed := c_namespace u in
    let body_id := text_or_empty (id_get (name_of SpiffeId) i) in
    if bool_decide (claimed = []) || bool_decide (body_id = []) then mret tt
    else match parse_norviq_spiffe_id body_id with
    | None => mret tt
    | Some (svid_ns, _) =>
        if bool_decide (svid_ns = claimed) then mret tt
        else inl (Http 403 "SPIFFE id names a different namespace than this credential")
    end.

(** The loop over the bound fields: the claim wins, a mismatch is refused. *)
Fixpoint bind_fields (u : Claims) (fs : list IdField) (i : IdentityDict) (bound : list IdField)
  : R (IdentityDict * list IdField) :=
  match fs with
  | [] => mret (i, bound)
  | f :: fs' =>
      let claim := claim_of u f in
      if bool_decide (claim = []) then bind_fields u fs' i bound
      else
        let asked := text_or_empty (id_get (name_of f) i) in
        if negb (bool_decide (asked = [])) && negb (bool_decide (asked = claim))
        then inl (Http 403 "Not authorized for this identity field")
        else bind_fields u fs' (put_field (name_of f) (VStr claim) i) (bound ++ [f])
  end.

(** A bound credential may not select an additive tier it was not issued for. *)
Fixpoint drop_tiers (bound fs : list IdField) (i : IdentityDict) : IdentityDict :=
  match fs with
  | [] => i
  | f :: fs' =>
      drop_tiers bound fs'
        (if negb (bool_decide (f ∈ bound)) && truthy (id_get (name_of f) i) then put_field (name_of f) (VStr []) i else i)
  end.

Definition scoped_identity (cfg : AuthSettings) (u : Claims) (agent_identity : option IdentityDict) : R IdentityDict :=
  let i := default [] agent_identity in
  if is_role "admin" u then mret i
  else
    '(i, bound) ← bind_fields u BOUND_IDENTITY_FIELDS i [];
    let i := if bool_decide (bound = []) then i else drop_tiers bound ADDITIVE_TIER_FIELDS i in
    (if bool_decide (SpiffeId ∈ bound) then mret tt else reject_cross_namespace_spiffe u i);;
    if is_role "service" u then
      if negb (bool_decide (filter (fun f => f ∉ bound) (required_bound_fields cfg) = []))
         && auth_require_bound_agent_identity cfg
      then inl (Http 403 "Credential is not bound to an agent identity") else mret i
    else mret i.

(** [bind_caller_identity]: the identity a tool call is evaluated under. *)
Definition bind_caller_identity (cfg : AuthSettings) (u : Claims) (agent_identity : option IdentityDict) : R IdentityDict :=
  let requested := id_get (points "namespace") (default [] agent_identity) in
  effective ← scoped_namespace u requested;
  i ← scoped_identity cfg u agent_identity;
  attested ← attested_namespace u requested;
  let effective := if bool_decide (attested = []) then effective else VStr attested in
  mret (if truthy effective then put_field (points "namespace") effective i else i).

End Auth.

(** ** Tenants are kept apart *)

(** Split the next test of a scope check. *)
Ltac scope_cases :=
  repeat match goal with
  | Hs : context [if ?test then _ else _] |- _ => destruct test eqn:?
  end; bool_prop; simplify_eq/=; try done.

Lemma scoped_namespace_spec u requested v :
  is_role "admin" u = false -> scoped_namespace u requested = inr v ->
  (c_namespace u <> [] -> v = VStr (c_namespace u)) /\
  (c_namespace u = [] -> is_role "service" u = true /\ v = requested).
Proof.
  unfold scoped_namespace, or_requested, mret, R_ret. intros A. rewrite A. intros E. split; intros N.
  - rewrite (bool_decide_false _ N) in E. scope_cases.
  - rewrite (bool_decide_true _ N) in E. rewrite andb_true_r in E.
    destruct (is_role "service" u); cbn [negb] in E; [|done]. rewrite andb_false_r in E. cbn [andb] in E. by simplify_eq.
Qed.

(** A caller that is not an administrator and carries a namespace claim gets that namespace or an error, for
    a write and for a read, whatever it asks for; without a claim only a service gets what it asks for.
    ([*] is the read-everything claim of the read endpoints.) *)
Theorem tenant_isolation u requested v :
  is_role "admin" u = false ->
  (scoped_namespace u requested = inr v ->
     (c_namespace u <> [] -> v = VStr (c_namespace u)) /\
     (c_namespace u = [] -> is_role "service" u = true /\ v = requested)) /\
  (read_namespace u requested = inr v -> c_namespace u <> [] -> c_namespace u <> points "*" ->
     v = VStr (c_namespace u)).
Proof.
  intros A. split; [by apply scoped_namespace_spec|]. unfold read_namespace, mret, R_ret. intros E N Ns. rewrite A in E.
  rewrite (bool_decide_false _ N), (bool_decide_false _ Ns), andb_false_r in E. cbn [orb] in E.
  destruct (_ || _); [by simplify_eq|]. by apply (scoped_namespace_spec u requested v A E).
Qed.

(** ** The identity comes from the credential *)

Lemma name_of_inj f g : name_of f = name_of g -> f = g.
Proof. by destruct f, g. Qed.

Section Binding.
Context (str_of : value -> text).

Lemma bind_fields_spec u fs i bound i' bound' :
  NoDup fs -> bind_fields str_of u fs i bound = inr (i', bound') ->
  bound' = bound ++ filter (fun f => claim_of u f <> []) fs /\
  (forall f, f ∈ fs -> claim_of u f <> [] -> field (name_of f) i' = Some (VStr (claim_of u f))) /\
  (forall k, (forall f, f ∈ fs -> claim_of u f <> [] -> name_of f <> k) -> field k i' = field k i).
Proof.
  intros ND. revert i bound. induction ND as [|f fs Nf ND IH]; intros i bound E; cbn [bind_fields] in E.
  - injection E as <- <-. rewrite app_nil_r. split_and!; [done| |done]. intros f I. by apply elem_of_nil in I.
  - case_bool_decide as C.
    + destruct (IH _ _ E) as (B & P & O). rewrite filter_cons_False by (intros X; by apply X). split_and!; [done| |].
      * intros g [->|I]%elem_of_cons Cg; [done|auto].
      * intros k K. apply O. intros g I. apply K. by right.
    + destruct (_ && _); [done|]. destruct (IH _ _ E) as (B & P & O). rewrite filter_cons_True by done.
      split_and!; [by rewrite B, <- app_assoc| |].
      * intros g [->|I]%elem_of_cons Cg; [|auto]. rewrite O; [apply field_put_eq|].
        intros h I _ H%name_of_inj. by subst.
      * intros k K. rewrite O by (intros g I; apply K; by right). apply field_put_ne, K; [left|done].
Qed.

Lemma drop_tiers_other bound fs i k :
  (forall f, f ∈ fs -> name_of f <> k) -> field k (drop_tiers bound fs i) = field k i.
Proof.
  revert i. induction fs as [|f fs IH]; intros i N; [done|]. cbn. rewrite IH by (intros g I; apply N; by right).
  destruct (_ && _); [|done]. apply field_put_ne, N. left.
Qed.

(** What binding leaves of a body, for a caller that is not an administrator. *)
Lemma scoped_identity_spec cfg u body i :
  is_role "admin" u = false -> scoped_identity str_of cfg u body = inr i ->
  (forall f, claim_of u f <> [] -> field (name_of f) i = Some (VStr (claim_of u f))) /\
  ((exists f, claim_of u f <> []) -> c_workload u = [] -> truthy (id_get (name_of Workload) i) = false) /\
  (c_spiffe_id u = [] -> reject_cross_namespace_spiffe str_of u i = inr tt) /\
  (is_role "service" u = true -> auth_require_bound_agent_identity cfg = true ->
   forall f, f ∈ required_bound_fields cfg -> claim_of u f <> []).
Proof.
  intros A E. unfold scoped_identity in E. rewrite A in E. unfold mbind, R_bind in E.
  destruct (bind_fields _ _ _ _ _) as [x|[i0 bound]] eqn:Eb; [done|].
  assert (ND : NoDup BOUND_IDENTITY_FIELDS) by (apply (bool_decide_unpack _); vm_compute; exact I).
  destruct (bind_fields_spec u BOUND_IDENTITY_FIELDS _ _ _ _ ND Eb) as (B & P & _). cbn [app] in B.
  assert (Mem : forall f, f ∈ bound <-> claim_of u f <> []).
  { intros f. rewrite B, list_elem_of_filter. split; [by intros []|]. intros C. split; [done|]. destruct f; in_list. }
  set (i1 := if bool_decide (bound = []) then i0 else drop_tiers bound ADDITIVE_TIER_FIELDS i0) in E.
  assert (Ei : i = i1 /\ (SpiffeId ∉ bound -> reject_cross_namespace_spiffe str_of u i1 = inr tt) /\
    (is_role "service" u = true -> auth_require_bound_agent_identity cfg = true ->
       filter (fun f => f ∉ bound) (required_bound_fields cfg) = [])).
  { clearbody i1. clear -E. unfold mret, R_ret in E.
    assert (Q : (SpiffeId ∉ bound -> reject_cross_namespace_spiffe str_of u i1 = inr tt) /\
      (if is_role "service" u then
         if negb (bool_decide (filter (fun f => f ∉ bound) (required_bound_fields cfg) = [])) && auth_require_bound_agent_identity cfg
         then inl (Http 403 "Credential is not bound to an agent identity") else inr i1
       else inr i1) = inr i).
    { case_bool_decide; [done|]. by destruct (reject_cross_namespace_spiffe str_of u i1) as [x|[]]. }
    clear E. destruct Q as [Q1 Q2]. destruct (is_role "service" u); [|by simplify_eq].
    destruct (auth_require_bound_agent_identity cfg); rewrite ?andb_true_r, ?andb_false_r in Q2; [|by simplify_eq].
    case_bool_decide; cbn in Q2; by simplify_eq. }
  clear E. destruct Ei as (-> & Rj & Rq). split_and!.
  - intros f C. assert (NE : bound <> []) by (intros X; apply Mem in C; rewrite X in C; by apply elem_of_nil in C).
    unfold i1. rewrite bool_decide_false by done. destruct (decide (f = Workload)) as [->|N].
    + unfold ADDITIVE_TIER_FIELDS. cbn [drop_tiers]. rewrite bool_decide_true by (by apply Mem). cbn [negb andb]. apply P; [in_list|done].
    + rewrite drop_tiers_other; [apply P; [destruct f; in_list|done]|].
      intros g ->%list_elem_of_singleton X%name_of_inj. by subst.
  - intros [f C] Wl. assert (NE : bound <> []) by (intros X; apply Mem in C; rewrite X in C; by apply elem_of_nil in C).
    unfold i1. rewrite bool_decide_false by done. unfold ADDITIVE_TIER_FIELDS. cbn [drop_tiers].
    assert (Nw : Workload ∉ bound) by (by rewrite Mem; cbn; intros X; apply X).
    rewrite bool_decide_false by done. cbn [negb andb]. destruct (truthy (id_get (name_of Workload) i0)) eqn:T; [|done].
    unfold id_get. by rewrite field_put_eq.
  - intros Sp. apply Rj. rewrite Mem. cbn. intros X. by apply X.
  - intros Sv Rb f I. apply Mem. specialize (Rq Sv Rb). destruct (decide (f ∈ bound)) as [|N]; [done|].
    assert (F : f ∈ filter (fun f => f ∉ bound) (required_bound_fields cfg)) by (by apply list_elem_of_filter).
    rewrite Rq in F. by apply elem_of_nil in F.
Qed.
End Binding.

(** The fields of an identity that select what is enforced. *)
Definition selected (i : list (text * value)) (k : string) : value := id_get (points k) i.

Lemma bind_caller_spec str_of cfg u body i :
  is_role "admin" u = false -> bind_caller_identity str_of cfg u body = inr i ->
  (forall f, claim_of u f <> [] -> id_get (name_of f) i = VStr (claim_of u f)) /\
  ((exists f, claim_of u f <> []) -> c_workload u = [] -> truthy (selected i "workload") = false) /\
  (c_namespace u <> [] -> selected i "namespace" = VStr (c_namespace u)) /\
  (is_role "service" u = true -> auth_require_bound_agent_identity cfg = true ->
   forall f, f ∈ required_bound_fields cfg -> claim_of u f <> []).
Proof.
  intros A E. unfold bind_caller_identity, mbind, R_bind in E.
  destruct (scoped_namespace u _) as [x|eff] eqn:Es; [done|].
  destruct (scoped_identity str_of cfg u body) as [x|i0] eqn:Ei; [done|].
  destruct (attested_namespace str_of u _) as [x|att] eqn:Ea; [done|]. injection E as <-.
  destruct (scoped_identity_spec str_of cfg u body i0 A Ei) as (P & T & _ & Rq).
  destruct (scoped_namespace_spec u _ eff A Es) as [In _].
  set (e2 := if bool_decide (att = []) then eff else VStr att).
  assert (Nf : forall f, field (name_of f) (if truthy e2 then put_field (points "namespace") e2 i0 else i0) = field (name_of f) i0).
  { intros f. destruct (truthy e2); [|done]. apply field_put_ne. by destruct f. }
  split; [|split; [|split]].
  - intros f C. unfold id_get. by rewrite Nf, (P f C).
  - intros X W. unfold selected, id_get. change (points "workload") with (name_of Workload). rewrite Nf. by apply T.
  - intros N. assert (E2 : e2 = VStr (c_namespace u)).
    { unfold e2. case_bool_decide as An; [by apply In|]. unfold attested_namespace in Ea.
      destruct (negb _); [by injection Ea as <-|]. case_bool_decide; [by injection Ea as <-|].
      destruct (parse_norviq_spiffe_id _) as [[n sa]|]; [|by injection Ea as <-].
      rewrite (bool_decide_false _ N) in Ea. cbn [negb andb] in Ea.
      destruct (bool_decide (c_namespace u = n)) eqn:Q; cbn [negb] in Ea; [|done]. bool_prop.
      destruct (_ && _); [done|]. injection Ea as <-. by rewrite Q. }
    rewrite E2. unfold truthy, selected, id_get. rewrite (bool_decide_false _ N). cbn [negb]. by rewrite field_put_eq.
  - exact Rq.
Qed.

(** C6: The identity a call is evaluated under comes from the credential: for every caller that is not an
    administrator, each of agent class, SPIFFE id and workload is the claim wherever the credential makes
    one, a credential that makes any claim cannot name a workload of its own choosing, and the namespace
    is the credential's; under the strict setting a service credential that is accepted claims every
    required field, so the body chooses none of them. *)
Theorem claims_are_authoritative str_of cfg u body i :
  is_role "admin" u = false -> bind_caller_identity str_of cfg u body = inr i ->
  (forall f, claim_of u f <> [] -> id_get (name_of f) i = VStr (claim_of u f)) /\
  ((exists f, claim_of u f <> []) -> c_workload u = [] -> truthy (selected i "workload") = false) /\
  (c_namespace u <> [] -> selected i "namespace" = VStr (c_namespace u)) /\
  (is_role "service" u = true -> auth_require_bound_agent_identity cfg = true ->
   forall f, f ∈ required_bound_fields cfg -> claim_of u f <> []).
Proof. apply bind_caller_spec. Qed.

(** No credential can act as another tenant's agent: a service credential with a namespace claim is bound
    to a SPIFFE id that is no agent's of another namespace (an id the resolver would not issue to any
    agent is not excluded), in either SPIFFE mode and whether or not it claims an id. *)
Theorem no_cross_tenant_agent str_of cfg u body i ns sa :
  is_role "service" u = true -> is_role "admin" u = false -> c_namespace u <> [] ->
  bind_caller_identity str_of cfg u body = inr i ->
  parse_norviq_spiffe_id (text_or_empty str_of (selected i "spiffe_id")) = Some (ns, sa) -> ns = c_namespace u.
Proof.
  intros Sv A N E Pr. unfold bind_caller_identity, mbind, R_bind in E.
  destruct (scoped_namespace u _) as [x|eff] eqn:Es; [done|].
  destruct (scoped_identity str_of cfg u body) as [x|i0] eqn:Ei; [done|].
  destruct (attested_namespace str_of u _) as [x|att] eqn:Ea; [done|]. injection E as <-.
  destruct (scoped_identity_spec str_of cfg u body i0 A Ei) as (P & _ & Rj & _).
  set (e2 := if bool_decide (att = []) then eff else VStr att) in Pr.
  assert (Pr' : parse_norviq_spiffe_id (text_or_empty str_of (id_get (name_of SpiffeId) i0)) = Some (ns, sa)).
  { revert Pr. unfold selected, id_get. change (points "spiffe_id") with (name_of SpiffeId).
    destruct (truthy e2); [|done]. by rewrite field_put_ne. }
  clear Pr. destruct (decide (c_spiffe_id u = [])) as [Sp|Sp].
  - specialize (Rj Sp). unfold reject_cross_namespace_spiffe in Rj. rewrite Sv, (bool_decide_false _ N) in Rj. cbn [negb orb] in Rj.
    rewrite Pr' in Rj. destruct (bool_decide (text_or_empty str_of _ = [])) eqn:Em in Rj.
    + bool_prop. by rewrite Em in Pr'.
    + destruct (bool_decide (ns = c_namespace u)) eqn:Q in Rj; [by bool_prop|done].
  - unfold id_get in Pr'. rewrite (P SpiffeId Sp) in Pr'. cbn [default claim_of from_option id] in Pr'.
    unfold text_or_empty, truthy in Pr'. cbn [claim_of] in Pr'. rewrite (bool_decide_false _ Sp) in Pr'. cbn [negb] in Pr'.
    unfold attested_namespace in Ea. rewrite Sv, (bool_decide_false _ Sp), Pr' in Ea. cbn [negb] in Ea.
    rewrite (bool_decide_false _ N) in Ea. cbn [negb andb] in Ea.
    destruct (bool_decide (c_namespace u = ns)) eqn:Q; cbn [negb] in Ea; [|done]. by bool_prop.
Qed.

(** ** Turning a credential into claims *)

Record Mapping := { m_role : option text; m_namespace : text; m_cluster : text }.

(** [_ROLE_RANK.get(role, 0)]. *)
Definition role_rank (r : text) : Z :=
  if bool_decide (r = points "admin") then 3
  else if bool_decide (r = points "service") then 2
  else if bool_decide (r = points "viewer") then 1 else 0.

(** [max(roles, key=rank)]: the first of the best. *)
Fixpoint best_role (best : text) (rs : list text) : text :=
  match rs with
  | [] => best
  | r :: rs' => best_role (if role_rank best <? role_rank r then r else best) rs'
  end.

(** [groups = claims.get(name, []) or []], a single string being a list of one; [None]: iterating it, or
    looking one of its elements up, raises [TypeError]. *)
Definition group_names (v : value) : option (list text) :=
  if negb (truthy v) then Some []
  else match v with
  | VStr s => Some [s]
  | VArr l => foldr (fun x acc => match acc, x with
                                  | Some a, VStr s => Some (s :: a)
                                  | Some a, (VArr _ | VObj _) => None
                                  | Some a, _ => Some a
                                  | None, _ => None
                                  end) (Some []) l
  | VObj fs => Some fs.*1
  | _ => None
  end.

(** The distinct non-empty values of a mapping field. *)
Definition distinct (ts : list text) : list text := remove_dups (filter (fun t => t <> []) ts).

Definition with_scope (r ns cl : text) (c : Claims) : Claims :=
  {| c_sub := c_sub c; c_role := r; c_namespace := ns; c_cluster := cl; c_agent_class := c_agent_class c;
     c_spiffe_id := c_spiffe_id c; c_workload := c_workload c; c_must_change := c_must_change c;
     c_exp := c_exp c; c_iat := c_iat c |}.

(** [_apply_group_mapping]; [None]: [JWTError]. *)
Definition apply_group_mapping (mappings : list (text * Mapping)) (groups : list text) (c : Claims) : option Claims :=
  let matched := omap (fun g => field g mappings) groups in
  match map (fun m => default (points "viewer") (m_role m)) matched with
  | [] => Some (with_scope (points "viewer") [] [] c)
  | r :: rs =>
      let role := best_role r rs in
      if bool_decide (role = points "admin") then Some (with_scope (points "admin") [] (points "*") c)
      else
        let namespaces := distinct (map m_namespace matched) in
        let clusters := distinct (map m_cluster matched) in
        if (1 <? Z.of_nat (length namespaces)) || (1 <? Z.of_nat (length clusters)) then None
        else Some (with_scope role (default [] (head namespaces)) (default [] (head clusters)) c)
  end.

(** What the libraries do with a token: read its header, and check a signature under the legacy secret, or
    under a key of the identity provider with issuer, audience and expiry required. *)
Class JwtLibrary := {
  unverified_alg : text -> option (text * option text);    (* [alg] and [kid]; [None]: [JWTError] *)
  hs256_decode : text -> option Claims;
  jwks_key : text -> option text;
  oidc_decode : text -> text -> option (Claims * value);   (* claims and the groups claim *)
}.

Section Authenticate.
Context `{JwtLibrary} (cfg : AuthSettings) (mappings : list (text * Mapping)).

(** Claims, a [JWTError], or another exception. *)
Inductive TokenResult := Valid (c : Claims) | Rejected | Crashed.

Definition or_rejected (o : option Claims) : TokenResult := match o with Some c => Valid c | None => Rejected end.

Definition validate_oidc (token : text) (kid : option text) : TokenResult :=
  match kid with
  | None | Some [] => Rejected
  | Some k =>
      match key ← jwks_key k; oidc_decode key token with
      | None => Rejected
      | Some (c, groups) =>
          match group_names groups with
          | None => Crashed
          | Some gs => or_rejected (apply_group_mapping mappings gs c)
          end
      end
  end.

(** [_validate_token]: one branch per algorithm. *)
Definition validate_token (token : text) : TokenResult :=
  match unverified_alg token with
  | None => Rejected
  | Some (alg, kid) =>
      if oidc_enabled cfg && (bool_decide (alg = points "RS256") || bool_decide (alg = points "ES256"))
      then validate_oidc token kid
      else if legacy_hs256_enabled cfg && bool_decide (alg = points "HS256") then or_rejected (hs256_decode token)
      else Rejected
  end.

Definition MAX_BEARER_LEN : Z := 8192.
Definition MUST_CHANGE_ALLOWED_PATHS : list text :=
  map points ["/api/v1/auth/change-password"; "/api/v1/auth/logout"; "/api/v1/me"].

(** [_authenticate]: the bearer credential, the path of the request ([None] for a direct caller), and what
    the key store answers for an API key.  The expiry warning that follows the revocation check writes a
    reporting key and cannot fail the request; it is left out. *)
Definition authenticate (sha256 : list Z -> text) (has_cache : bool) (api_key : text -> option Claims)
    (creds path : option text) : M Node (HttpError + Claims) :=
  match creds with
  | None => mret (inl (Http 401 "Missing token"))
  | Some token =>
      if MAX_BEARER_LEN <? Z.of_nat (length token) then mret (inl (Http 401 "Invalid token"))
      else match validate_token token with
      | Crashed => raise EOther
      | Rejected =>
          mret (if tstarts (points "nrvq_") token then
                  match api_key token with Some p => inr p | None => inl (Http 401 "Invalid token") end
                else inl (Http 401 "Invalid token"))
      | Valid claims =>
          revoked ← is_revoked sha256 has_cache token;
          mret (if (revoked : bool) then inl (Http 401 "Session has been logged out")
                else match path with
                     | Some p => if c_must_change claims && negb (bool_decide (p ∈ MUST_CHANGE_ALLOWED_PATHS))
                                 then inl (Http 403 "Password change required") else inr claims
                     | None => inr claims
                     end)
      end
  end.

(** [decode_token]; [None]: [JWTError]. *)
Definition decode_token (sha256 : list Z -> text) (has_cache : bool) (token : text) : M Node (option Claims) :=
  match validate_token token with
  | Crashed => raise EOther
  | Rejected => mret None
  | Valid claims => revoked ← is_revoked sha256 has_cache token; mret (if (revoked : bool) then None else Some claims)
  end.

End Authenticate.

(** ** API keys ([api/api_keys.py]) *)

Record ApiKeyRow := {
  k_prefix : text; k_role : text; k_namespace : text; k_agent_class : text; k_spiffe_id : text;
  k_revoked : bool; k_expires_at : option Z;
}.

Definition AUTHFAIL_THRESHOLD : Z := 10.

(** [authenticate_api_key]: rows by key hash, failed attempts by display prefix ([None]: the cache is down
    or absent); the principal, and whether a failure is recorded. *)
Definition authenticate_api_key (hash : text -> text) (rows : gmap text ApiKeyRow) (fails : option (gmap text Z))
    (now : Z) (raw : text) : option Claims * bool :=
  if negb (tstarts (points "nrvq_") raw) then (None, false)
  else
    let prefix := take 13 raw in
    if match fails with Some m => AUTHFAIL_THRESHOLD <=? default 0 (m !! prefix) | None => false end then (None, false)
    else match rows !! hash raw with
    | None => (None, true)
    | Some row =>
        if k_revoked row then (None, true)
        else if match k_expires_at row with Some e => e <=? now | None => false end then (None, true)
        else (Some {| c_sub := points "apikey:" ++ k_prefix row; c_role := k_role row; c_namespace := k_namespace row;
                      c_cluster := []; c_agent_class := k_agent_class row; c_spiffe_id := k_spiffe_id row;
                      c_workload := []; c_must_change := false; c_exp := 0; c_iat := 0 |}, false)
    end.

(** ** What authentication guarantees *)

Lemma best_role_spec best rs :
  best_role best rs ∈ best :: rs /\ forall r, r ∈ best :: rs -> role_rank r <= role_rank (best_role best rs).
Proof.
  revert best. induction rs as [|r rs IH]; intros best; cbn.
  - split; [left|]. intros r [->|?%elem_of_nil]%elem_of_cons; [lia|done].
  - destruct (IH (if role_rank best <? role_rank r then r else best)) as [I L].
    destruct (role_rank best <? role_rank r) eqn:E; bool_prop.
    + split; [apply elem_of_cons in I as [->|I]; [right; left|do 2 right; done]|].
      intros q [->|[->|Q]%elem_of_cons]%elem_of_cons.
      * pose proof (L r ltac:(left)). lia.
      * apply L. left.
      * apply L. by right.
    + split; [apply elem_of_cons in I as [->|I]; [left|do 2 right; done]|].
      intros q [->|[->|Q]%elem_of_cons]%elem_of_cons.
      * apply L. left.
      * pose proof (L best ltac:(left)). lia.
      * apply L. by right.
Qed.

Lemma role_rank_admin r : role_rank r <= 3 /\ (role_rank r = 3 <-> r = points "admin").
Proof. unfold role_rank. repeat case_bool_decide; split; try lia; split; intros; try lia; try done; congruence. Qed.

(** Groups of the identity provider give no more than they are mapped to: the role is admin exactly when some
    group of the user is mapped to it, any other role comes with the one namespace and the one cluster the
    groups name (two different ones are an error), and a user without a mapped group gets nothing: every
    namespace request of theirs is refused. *)
Theorem group_mapping_grants mappings groups c c' :
  apply_group_mapping mappings groups c = Some c' ->
  let matched := omap (fun g => field g mappings) groups in
  (c_role c' = points "admin" <-> exists m, m ∈ matched /\ m_role m = Some (points "admin")) /\
  (c_role c' <> points "admin" ->
     (forall m, m ∈ matched -> m_namespace m = [] \/ m_namespace m = c_namespace c') /\
     (forall m, m ∈ matched -> m_cluster m = [] \/ m_cluster m = c_cluster c')) /\
  (matched = [] -> forall requested, scoped_namespace c' requested = inl (Http 403 "No namespace scope")).
Proof.
  intros E matched. unfold apply_group_mapping in E. fold matched in E.
  assert (Dist : forall (f : Mapping -> text) m, (1 <? Z.of_nat (length (distinct (map f matched)))) = false -> m ∈ matched ->
    f m = [] \/ f m = default [] (head (distinct (map f matched)))).
  { intros f m L I. destruct (decide (f m = [])) as [|N]; [by left|right]. apply Z.ltb_ge in L.
    assert (J : f m ∈ distinct (map f matched)).
    { unfold distinct. apply elem_of_remove_dups, list_elem_of_filter. split; [done|]. apply list_elem_of_fmap. eauto. }
    destruct (distinct (map f matched)) as [|x [|y l]]; cbn in *; [by apply elem_of_nil in J|by apply list_elem_of_singleton in J|lia]. }
  destruct (map (fun m => default (points "viewer") (m_role m)) matched) as [|r rs] eqn:Er.
  - assert (Em : matched = []) by (by destruct matched). injection E as <-. rewrite Em. cbn [c_role with_scope].
    split_and!; [split; [done|by intros (m & ?%elem_of_nil & _)]| |].
    + intros _. split; intros m ?%elem_of_nil; done.
    + intros _ requested. reflexivity.
  - destruct (best_role_spec r rs) as [I L]. rewrite <- Er in I, L.
    assert (NE : matched <> []) by (intros X; by rewrite X in Er).
    assert (Ad : best_role r rs = points "admin" <-> exists m, m ∈ matched /\ m_role m = Some (points "admin")).
    { split.
      - intros X. rewrite X in I. apply list_elem_of_fmap in I as (m & Em & Im). exists m. split; [done|].
        clear -Em. destruct (m_role m) as [r'|]; cbn [default from_option id] in Em; [by f_equal|done].
      - intros (m & Im & Em). apply role_rank_admin.
        assert (J : points "admin" ∈ map (fun m => default (points "viewer") (m_role m)) matched)
          by (apply list_elem_of_fmap; exists m; by rewrite Em).
        apply L in J. pose proof (role_rank_admin (best_role r rs)). change (role_rank (points "admin")) with 3 in J. lia. }
    case_bool_decide as A.
    + injection E as <-. cbn [c_role with_scope]. split_and!; [by rewrite <- Ad|done|done].
    + destruct (1 <? Z.of_nat (length (distinct (map m_namespace matched)))) eqn:Ln; [done|].
      destruct (1 <? Z.of_nat (length (distinct (map m_cluster matched)))) eqn:Lc; [done|]. injection E as <-.
      cbn [c_role with_scope c_namespace c_cluster]. split_and!; [done| |done].
      intros _. split; intros m Im; by apply Dist.
Qed.

Section Soundness.
Context `{JwtLibrary} (cfg : AuthSettings) (mappings : list (text * Mapping)).

(** Claims backed by a signature: the legacy secret speaks for HS256 tokens only, a key of the identity
    provider for RS256 and ES256 tokens only, each while its mode is on. *)
Definition verified (token : text) (c : Claims) : Prop :=
  (legacy_hs256_enabled cfg = true /\ (exists kid, unverified_alg token = Some (points "HS256", kid)) /\ hs256_decode token = Some c) \/
  (oidc_enabled cfg = true /\ exists alg kid key c0 groups gs,
     unverified_alg token = Some (alg, Some kid) /\ alg ∈ [points "RS256"; points "ES256"] /\ kid <> [] /\
     jwks_key kid = Some key /\ oidc_decode key token = Some (c0, groups) /\
     group_names groups = Some gs /\ apply_group_mapping mappings gs c0 = Some c).

Lemma validate_token_valid token c : validate_token cfg mappings token = Valid c -> verified token c.
Proof.
  unfold validate_token, or_rejected. destruct (unverified_alg token) as [[alg kid]|] eqn:Eu; [|done].
  destruct (oidc_enabled cfg && _) eqn:Eo.
  - apply andb_true_iff in Eo as [On Al]. unfold validate_oidc, or_rejected.
    destruct kid as [[|k0 k]|]; [done| |done]. unfold mbind, option_bind.
    destruct (jwks_key _) as [key|] eqn:Ek; [|done]. destruct (oidc_decode key token) as [[c0 groups]|] eqn:Ed; [|done].
    destruct (group_names groups) as [gs|] eqn:Eg; [|done].
    destruct (apply_group_mapping mappings gs c0) as [c'|] eqn:Em; [|done]. intros [= ->]. right. split; [done|].
    exists alg, (k0 :: k), key, c0, groups, gs. split_and!; try done.
    apply orb_true_iff in Al as [->%bool_decide_eq_true_1| ->%bool_decide_eq_true_1]; in_list.
  - destruct (legacy_hs256_enabled cfg && _) eqn:El; [|done]. apply andb_true_iff in El as [On ->%bool_decide_eq_true_1].
    destruct (hs256_decode token) as [c'|] eqn:Ed; [|done]. intros [= ->]. left. eauto.
Qed.

(** Nobody gets in unproved: a request that authenticates carries a credential of bounded length which is
    either an API key the store resolves to these claims, and no valid token, or a token whose signature
    backs the claims under the one mode its algorithm belongs to, that the revocation check answered
    "no" for, and, where the password must be changed, on one of the paths that remain open. *)
Theorem authenticated_is_proved sha256 has_cache api_key creds path s s' c :
  authenticate cfg mappings sha256 has_cache api_key creds path s = (s', inr (inr c)) ->
  exists token, creds = Some token /\ Z.of_nat (length token) <= MAX_BEARER_LEN /\
    ((validate_token cfg mappings token = Rejected /\ tstarts (points "nrvq_") token = true /\
      api_key token = Some c /\ s' = s) \/
     (verified token c /\ is_revoked sha256 has_cache token s = (s', inr false) /\
      (forall p, path = Some p -> c_must_change c = true -> p ∈ MUST_CHANGE_ALLOWED_PATHS))).
Proof.
  unfold authenticate. destruct creds as [token|]; [|done]. destruct (_ <? _) eqn:L; [done|]. apply Z.ltb_ge in L.
  destruct (validate_token cfg mappings token) as [claims| |] eqn:V; [| |done].
  - unfold mbind, M_bind. destruct (is_revoked sha256 has_cache token s) as [s1 [x|b]] eqn:Er; [done|].
    destruct b; [done|]. intros E. exists token. split_and!; [done|lia|]. right.
    assert (s' = s1 /\ c = claims) as [-> ->].
    { destruct path as [p|]; [|by injection E]. by destruct (_ && _); injection E. }
    split_and!; [by apply validate_token_valid|done|]. intros p -> M. rewrite M in E. cbn [andb] in E.
    destruct (bool_decide (p ∈ _)) eqn:B; [by bool_prop|done].
  - destruct (tstarts _ token) eqn:T; [|done]. destruct (api_key token) as [p|] eqn:K; [|done]. intros [= <- <-].
    exists token. split_and!; [done|lia|]. left. done.
Qed.

(** Logged out means out: once a session's logout was served here, every request that presents the token
    again, in any spelling with the same key, is refused until the token expires, whatever the stores did
    during the logout and whatever the process and others do in between. *)
Theorem logged_out_stays_out sha256 has_cache api_key raw raw' exp acts s path c :
  let k := token_hash sha256 raw in
  bound s = true -> exp <= MAX_EXP -> now_s s < exp -> fair k exp s ->
  (forall r, rows s !! k = Some r -> exp <= r.1) ->
  Forall (fair_act sha256 k exp) acts -> token_hash sha256 raw' = k ->
  validate_token cfg mappings raw' = Valid c -> Z.of_nat (length raw') <= MAX_BEARER_LEN ->
  let s' := run_acts sha256 has_cache acts (revoke sha256 has_cache raw exp s).1 in
  now_s s' < exp ->
  authenticate cfg mappings sha256 has_cache api_key (Some raw') path s' =
    (s', inr (inl (Http 401 "Session has been logged out"))) /\
  decode_token cfg mappings sha256 has_cache raw' s' = (s', inr None).
Proof.
  intros k B R L F Rk Fa Sp V Len s' N.
  destruct (revoke_known sha256 has_cache raw exp s B R L F Rk) as [F1 K1].
  destruct (run_acts_stay sha256 has_cache k exp acts (revoke sha256 has_cache raw exp s).1 R Fa) as [C S].
  destruct (S F1) as [_ K]. fold s' in C, K.
  assert (K' : known k exp s').
  { apply K; [done|]. apply K1. unfold now_s, secs_of in *.
    pose proof (Z.div_le_mono (clock (revoke sha256 has_cache raw exp s).1) (clock s') 1000). lia. }
  assert (Rv : is_revoked sha256 has_cache raw' s' = (s', inr true)).
  { apply (known_refused _ _ k exp); [done|rewrite <- Sp; apply token_hash_key|done]. }
  unfold authenticate, decode_token. assert ((MAX_BEARER_LEN <? Z.of_nat (length raw')) = false) as -> by (apply Z.ltb_ge; lia).
  rewrite V. unfold mbind, M_bind. by rewrite Rv.
Qed.

End Soundness.

(** A failed guess is counted and a counted-out prefix is not looked up: an API key is accepted only while its
    prefix has fewer failures than the threshold and its row is live. *)
Lemma api_key_accepted hash rows fails now raw c b :
  authenticate_api_key hash rows fails now raw = (Some c, b) ->
  b = false /\ exists row, rows !! hash raw = Some row /\ k_revoked row = false /\
    (forall e, k_expires_at row = Some e -> now < e) /\ c_role c = k_role row /\ c_namespace c = k_namespace row /\
    (forall m, fails = Some m -> default 0 (m !! take 13 raw) < AUTHFAIL_THRESHOLD).
Proof.
  unfold authenticate_api_key. destruct (negb _); [done|].
  destruct (match fails with Some m => _ | None => _ end) eqn:Ef; [done|].
  destruct (rows !! hash raw) as [row|] eqn:Er; [|done]. destruct (k_revoked row) eqn:Ek; [done|].
  destruct (match k_expires_at row with Some e => _ | None => _ end) eqn:Ee; [done|]. intros [= <- <-]. split; [done|].
  exists row. split_and!; try done.
  - intros e Q. rewrite Q in Ee. by apply Z.leb_gt.
  - intros m Q. rewrite Q in Ef. by apply Z.leb_gt.
Qed.

(** ** Concrete callers *)

Module Callers.

Definition plain (v : value) : text := [].
Definition settings : AuthSettings :=
  {| oidc_enabled := true; legacy_hs256_enabled := true; auth_require_bound_agent_identity := true;
     workload_api := false; fleet_cluster_id := [] |}.

Definition caller (role ns : string) (cls spiffe : string) : Claims :=
  {| c_sub := points "x"; c_role := points role; c_namespace := points ns; c_cluster := []; c_agent_class := points cls;
     c_spiffe_id := points spiffe; c_workload := []; c_must_change := false; c_exp := 200; c_iat := 0 |}.

Definition viewer : Claims := caller "viewer" "payments" "" "".
Definition sidecar : Claims := caller "Service" "payments" "bot" "spiffe://norviq/ns/payments/sa/bot".

Definition body : list (text * value) :=
  [(points "namespace", VStr (points "payments")); (points "workload", VStr (points "other"))].

Lemma tenant_isolation_witness :
  scoped_namespace viewer (VStr (points "payments")) = inr (VStr (points "payments")) /\
  read_namespace viewer VNull = inr (VStr (points "payments")) /\
  (c_namespace viewer <> [] -> VStr (points "payments") = VStr (c_namespace viewer)) /\
  VStr (points "payments") = VStr (c_namespace viewer).
Proof.
  destruct (tenant_isolation viewer (VStr (points "payments")) (VStr (points "payments")) ltac:(by vm_compute)) as [W _].
  destruct (tenant_isolation viewer VNull (VStr (points "payments")) ltac:(by vm_compute)) as [_ Rd].
  assert (Ew : scoped_namespace viewer (VStr (points "payments")) = inr (VStr (points "payments"))) by (by vm_compute).
  assert (Er : read_namespace viewer VNull = inr (VStr (points "payments"))) by (by vm_compute).
  split; [exact Ew|]. split; [exact Er|]. split; [apply (W Ew)|]. apply (Rd Er); by vm_compute.
Defined.

Lemma claims_are_authoritative_witness :
  exists i, bind_caller_identity plain settings sidecar (Some body) = inr i /\
    id_get (name_of AgentClass) i = VStr (points "bot") /\ truthy (selected i "workload") = false.
Proof.
  destruct (bind_caller_identity plain settings sidecar (Some body)) as [x|i] eqn:E; [by vm_compute in E|].
  exists i. split; [done|].
  destruct (claims_are_authoritative plain settings sidecar (Some body) i ltac:(by vm_compute) E) as (P & T & _).
  split; [apply (P AgentClass); by vm_compute|]. apply T; [exists AgentClass|]; by vm_compute.
Defined.

Lemma no_cross_tenant_agent_witness :
  exists i sa, bind_caller_identity plain settings sidecar (Some body) = inr i /\
    parse_norviq_spiffe_id (text_or_empty plain (selected i "spiffe_id")) = Some (points "payments", sa) /\
    points "payments" = c_namespace sidecar.
Proof.
  destruct (bind_caller_identity plain settings sidecar (Some body)) as [x|i] eqn:E; [by vm_compute in E|].
  assert (Pr : parse_norviq_spiffe_id (text_or_empty plain (selected i "spiffe_id")) = Some (points "payments", points "bot")).
  { vm_compute in E. injection E as <-. by vm_compute. }
  exists i, (points "bot"). split; [done|]. split; [exact Pr|].
  by apply (no_cross_tenant_agent plain settings sidecar (Some body) i _ (points "bot")); try by vm_compute.
Defined.

Definition groups_table : list (text * Mapping) :=
  [(points "devs", {| m_role := None; m_namespace := points "payments"; m_cluster := [] |});
   (points "root", {| m_role := Some (points "admin"); m_namespace := []; m_cluster := [] |})].

Lemma group_mapping_grants_witness :
  exists c', apply_group_mapping groups_table [points "devs"; points "root"] viewer = Some c' /\
    (c_role c' = points "admin" <->
     exists m, m ∈ omap (fun g => field g groups_table) [points "devs"; points "root"] /\ m_role m = Some (points "admin")).
Proof.
  destruct (apply_group_mapping groups_table [points "devs"; points "root"] viewer) as [c'|] eqn:E; [|by vm_compute in E].
  exists c'. split; [done|]. apply (group_mapping_grants groups_table [points "devs"; points "root"] viewer c' E).
Defined.

(** A token signed under the legacy secret. *)
Definition library : JwtLibrary :=
  {| unverified_alg t := Some (points "HS256", None); hs256_decode t := Some viewer;
     jwks_key k := None; oidc_decode k t := None |}.

Lemma authenticated_is_proved_witness :
  exists s', @authenticate library settings groups_table Sample.sha true (fun _ => None) (Some Sample.token) None Sample.idle
               = (s', inr (inr viewer)) /\
    is_revoked Sample.sha true Sample.token Sample.idle = (s', inr false).
Proof.
  destruct (@authenticate library settings groups_table Sample.sha true (fun _ => None) (Some Sample.token) None Sample.idle)
    as [s' r] eqn:E.
  assert (r = inr (inr viewer)) as -> by (vm_compute in E; by injection E).
  exists s'. split; [done|].
  destruct (@authenticated_is_proved library settings groups_table Sample.sha true (fun _ => None) (Some Sample.token) None
              Sample.idle s' viewer E) as (t & [= <-] & _ & [(V & _)|(_ & Rv & _)]); [by vm_compute in V|exact Rv].
Defined.

Lemma logged_out_stays_out_witness :
  let s' := run_acts Sample.sha true [SyncPass; Idle 5000 [RedisWipe; RowsPruned]]
              (revoke Sample.sha true Sample.token 200 Sample.outage).1 in
  @authenticate library settings groups_table Sample.sha true (fun _ => None) (Some Sample.token) None s' =
    (s', inr (inl (Http 401 "Session has been logged out"))) /\
  @decode_token library settings groups_table Sample.sha true Sample.token s' = (s', inr None).
Proof.
  apply (@logged_out_stays_out library settings groups_table Sample.sha true (fun _ => None) Sample.token Sample.token 200
           [SyncPass; Idle 5000 [RedisWipe; RowsPruned]] Sample.outage None viewer).
  - reflexivity.
  - by apply Z.leb_le.
  - vm_compute. reflexivity.
  - by apply Sample.silent_fair.
  - intros r. cbn. by rewrite lookup_empty.
  - by repeat constructor.
  - reflexivity.
  - by vm_compute.
  - by apply Z.leb_le.
  - vm_compute. reflexivity.
Defined.

End Callers.
