(* ===== verification/JsonParse.v ===== *)
(** * Reading JSON

    [json.loads] as the MCP proxy calls it ([mcp/protocol.py]): the scanner of Python's [json] module with
    the proxy's hooks, which refuse an object whose keys are not distinct enough, a number that is no
    finite double and the constants [NaN] and [Infinity].  Recursion is on fuel, twice the length of the
    text; [parse_fuel] shows that more never changes the answer.  What is printed by [Json.dump] reads
    back ([parse_dump]). *)

From stdpp Require Import pretty.
From S2P Require Import Prelude.
From S2P Require Import Text.
From S2P Require Import Json.

(** ** Strings *)

Definition hex_value (c : Z) : option Z :=
  if is_num c then Some (c - 48)
  else if (97 <=? c) && (c <=? 102) then Some (c - 87)
  else if (65 <=? c) && (c <=? 70) then Some (c - 55) else None.

Definition hex4_value_of (a b c d : Z) : option Z :=
  x ← hex_value a; y ← hex_value b; z ← hex_value c; w ← hex_value d;
  Some (((x * 16 + y) * 16 + z) * 16 + w).

(** The one-letter escapes. *)
Definition simple_escape (e : Z) : option Z :=
  if (e =? 34) || (e =? 92) || (e =? 47) then Some e
  else if e =? 110 then Some 10 else if e =? 114 then Some 13 else if e =? 116 then Some 9
  else if e =? 102 then Some 12 else if e =? 98 then Some 8 else None.

(** A second escape that completes a surrogate pair. *)
Definition low_escape (t : text) : option Z :=
  match t with
  | 92 :: 117 :: a :: b :: c :: d :: _ =>
      match hex4_value_of a b c d with Some u => if is_low u then Some u else None | None => None end
  | _ => None
  end.

Definition pair_of (u u' : Z) : Z := 65536 + (u - 55296) * 1024 + (u' - 56320).

(** Put a character before a scanned text. *)
Definition scanned (c : Z) (r : option (text * text)) : option (text * text) :=
  match r with Some (s, q) => Some (c :: s, q) | None => None end.

(** [scanstring] with [strict]: the text up to the closing quote, and what follows it. *)
Fixpoint scan_str (t : text) : option (text * text) :=
  match t with
  | [] => None
  | c :: r =>
      if c =? 34 then Some ([], r)
      else if c =? 92 then
        match r with
        | [] => None
        | e :: r1 =>
            if e =? 117 then
              match r1 with
              | a :: b :: c' :: d :: r2 =>
                  match hex4_value_of a b c' d with
                  | None => None
                  | Some u =>
                      match (if is_high u then low_escape r2 else None), r2 with
                      | Some u', _ :: _ :: _ :: _ :: _ :: _ :: r3 => scanned (pair_of u u') (scan_str r3)
                      | _, _ => scanned u (scan_str r2)
                      end
                  end
              | _ => None
              end
            else match simple_escape e with Some x => scanned x (scan_str r1) | None => None end
        end
      else if c <=? 31 then None
      else scanned c (scan_str r)
  end.

(** ** Numbers *)

Definition drop_num := drop_while is_num.
Definition take_num := take_while is_num.

(** The digits before the point: [0], or digits that do not start with it. *)
Definition int_part (t : text) : option (text * text) :=
  match t with
  | [] => None
  | c :: r => if c =? 48 then Some ([48], r) else if is_num c then Some (take_num t, drop_num t) else None
  end.

Definition frac_part (t : text) : text * text :=
  match t with
  | 46 :: r => match take_num r with [] => ([], t) | ds => (46 :: ds, drop_num r) end
  | _ => ([], t)
  end.

Definition exp_part (t : text) : text * text :=
  match t with
  | e :: r =>
      if (e =? 101) || (e =? 69) then
        let '(sg, r1) := match r with
                         | s :: q => if (s =? 43) || (s =? 45) then ([s], q) else ([], r)
                         | [] => ([], r)
                         end in
        match take_num r1 with [] => ([], t) | ds => (e :: sg ++ ds, drop_num r1) end
      else ([], t)
  | [] => ([], t)
  end.

Definition digits_value (t : text) : Z := foldl (fun n c => n * 10 + (c - 48)) 0 t.

(** [sys.get_int_max_str_digits()]: a longer integer literal raises [ValueError]. *)
Definition INT_MAX_STR_DIGITS : Z := 4300.

Section Parser.
Context (float_of : text -> option double).       (* [_finite_float]; [None]: it raises *)
Context (keys_ok : list text -> bool).            (* [object_pairs_hook]; [false]: it raises *)

Definition parse_number (t : text) : option (value * text) :=
  let '(sg, t1) := match t with 45 :: r => ([45], r) | _ => ([], t) end in
  '(ip, r) ← int_part t1;
  let '(fp, r1) := frac_part r in
  let '(ep, r2) := exp_part r1 in
  if bool_decide (fp = []) && bool_decide (ep = []) then
    if INT_MAX_STR_DIGITS <? Z.of_nat (length ip) then None
    else Some (VInt (if bool_decide (sg = []) then digits_value ip else - digits_value ip), r2)
  else d ← float_of (sg ++ ip ++ fp ++ ep); Some (VFloat d, r2).

(** [null], [true], [false], or a number. *)
Definition parse_scalar (t : text) : option (value * text) :=
  if tstarts (points "null") t then Some (VNull, drop 4 t)
  else if tstarts (points "true") t then Some (VBool true, drop 4 t)
  else if tstarts (points "false") t then Some (VBool false, drop 5 t)
  else parse_number t.

Definition is_json_ws (c : Z) : bool := (c =? 32) || (c =? 9) || (c =? 10) || (c =? 13).
Definition skip_ws := drop_while is_json_ws.

(** [dict(pairs)]: the last of two equal keys wins, in the place of the first. *)
Definition dict_of (ps : list (text * value)) : list (text * value) := foldl (fun d p => put_field p.1 p.2 d) [] ps.

Definition make_object (ps : list (text * value)) (q : text) : option (value * text) :=
  if keys_ok ps.*1 then Some (VObj (dict_of ps), q) else None.

(** A value; the elements of an array up to its bracket; the members of an object up to its brace. *)
Fixpoint parse (n : nat) (t : text) {struct n} : option (value * text) :=
  match n with
  | O => None
  | S n =>
      match t with
      | [] => None
      | c :: r =>
          if c =? 34 then match scan_str r with Some (s, q) => Some (VStr s, q) | None => None end
          else if c =? 91 then
            match skip_ws r with
            | [] => None
            | d :: q => if d =? 93 then Some (VArr [], q)
                        else match parse_elements n (d :: q) with Some (l, q') => Some (VArr l, q') | None => None end
            end
          else if c =? 123 then
            match skip_ws r with
            | [] => None
            | d :: q => if d =? 125 then make_object [] q
                        else match parse_members n (d :: q) with Some (ps, q') => make_object ps q' | None => None end
            end
          else parse_scalar t
      end
  end
with parse_elements (n : nat) (t : text) {struct n} : option (list value * text) :=
  match n with
  | O => None
  | S n =>
      match parse n t with
      | None => None
      | Some (v, q) =>
          match skip_ws q with
          | [] => None
          | c :: q' =>
              if c =? 93 then Some ([v], q')
              else if c =? 44 then
                match parse_elements n (skip_ws q') with Some (l, q'') => Some (v :: l, q'') | None => None end
              else None
          end
      end
  end
with parse_members (n : nat) (t : text) {struct n} : option (list (text * value) * text) :=
  match n with
  | O => None
  | S n =>
      match t with
      | [] => None
      | c :: r =>
          if c =? 34 then
            match scan_str r with
            | None => None
            | Some (k, q0) =>
                match skip_ws q0 with
                | [] => None
                | c0 :: q1 =>
                    if c0 =? 58 then
                      match parse n (skip_ws q1) with
                      | None => None
                      | Some (v, q) =>
                          match skip_ws q with
                          | [] => None
                          | c1 :: q' =>
                              if c1 =? 125 then Some ([(k, v)], q')
                              else if c1 =? 44 then
                                match parse_members n (skip_ws q') with
                                | Some (ps, q'') => Some ((k, v) :: ps, q'') | None => None
                                end
                              else None
                          end
                      end
                    else None
                end
            end
          else None
      end
  end.

Definition fuel_for (t : text) : nat := 2 * length t + 1.

(** [json.loads] of a text: one value, with nothing but white space around it. *)
Definition loads (t : text) : option value :=
  let t := skip_ws t in
  match parse (fuel_for t) t with
  | Some (v, q) => match skip_ws q with [] => Some v | _ => None end
  | None => None
  end.

End Parser.

(** ** What is left is a proper tail of the text *)

(** [q] is what remains of [t] after at least one character. *)
Definition rest_of (q t : text) : Prop := exists p, p <> [] /\ t = p ++ q.

Lemma rest_cons c q : rest_of q (c :: q).
Proof. by exists [c]. Qed.

Lemma rest_of_suffix q r t : q `suffix_of` r -> rest_of r t -> rest_of q t.
Proof. intros [k ->] (p & N & ->). exists (p ++ k). split; [by destruct p|by rewrite app_assoc]. Qed.

Lemma suffix_rest_of q r t : rest_of q r -> r `suffix_of` t -> rest_of q t.
Proof. intros (p & N & ->) [k ->]. exists (k ++ p). split; [destruct k; [done|done]|by rewrite app_assoc]. Qed.

Lemma rest_of_trans q r t : rest_of q r -> rest_of r t -> rest_of q t.
Proof. intros (p & N & ->) (p' & N' & ->). exists (p' ++ p). split; [by destruct p'|by rewrite app_assoc]. Qed.

Lemma rest_of_is_suffix q t : rest_of q t -> q `suffix_of` t.
Proof. intros (p & _ & ->). by exists p. Qed.

Lemma rest_of_length q t : rest_of q t -> (length q < length t)%nat.
Proof. intros (p & N & ->). rewrite length_app. destruct p; [done|]. cbn. lia. Qed.

Lemma drop_while_is_suffix p t : drop_while p t `suffix_of` t.
Proof.
  induction t as [|c t IH]; [done|]. cbn. destruct (p c); [|done]. by apply suffix_cons_r.
Qed.

Lemma skip_ws_suffix t : skip_ws t `suffix_of` t.
Proof. apply drop_while_is_suffix. Qed.

Create HintDb rest.
#[export] Hint Resolve rest_cons skip_ws_suffix drop_while_is_suffix rest_of_is_suffix : rest.

Lemma scanned_inv c r s q : scanned c r = Some (s, q) -> exists s', r = Some (s', q) /\ s = c :: s'.
Proof. unfold scanned. destruct r as [[s' q']|]; [|done]. intros [= <- <-]. eauto. Qed.

Lemma scan_str_rest t s q : scan_str t = Some (s, q) -> rest_of q t.
Proof.
  revert s. induction (Wf_nat.well_founded_ltof _ (@length Z) t) as [t _ IH]; intros s E.
  assert (step : forall p r c, t = p ++ r -> p <> [] -> scanned c (scan_str r) = Some (s, q) -> rest_of q t).
  { intros p r c -> N (s' & Es & ->)%scanned_inv. apply IH in Es.
    - apply (rest_of_trans _ r); [done|by exists p].
    - unfold Wf_nat.ltof. rewrite length_app. destruct p; [done|]. cbn. lia. }
  destruct t as [|c r]; [done|]. cbn [scan_str] in E. destruct (c =? 34); [injection E as <- <-; auto with rest|].
  destruct (c =? 92).
  - destruct r as [|e r1]; [done|]. destruct (e =? 117).
    + destruct r1 as [|a [|b [|c' [|d r2]]]]; try done. destruct (hex4_value_of a b c' d) as [u|]; [|done].
      destruct (if is_high u then low_escape r2 else None) as [u'|]; [|by eapply (step [c; e; a; b; c'; d])].
      destruct r2 as [|x1 [|x2 [|x3 [|x4 [|x5 [|x6 r3]]]]]];
        (by eapply (step [c; e; a; b; c'; d; x1; x2; x3; x4; x5; x6])) || by eapply (step [c; e; a; b; c'; d]).
    + destruct (simple_escape e); [|done]. by eapply (step [c; e]).
  - destruct (c <=? 31); [done|]. by eapply (step [c]).
Qed.

Lemma int_part_rest t ip r : int_part t = Some (ip, r) -> rest_of r t.
Proof.
  unfold int_part. destruct t as [|c t]; [done|]. destruct (c =? 48); [intros [= <- <-]; auto with rest|].
  destruct (is_num c) eqn:Ec; [|done]. intros [= <- <-]. unfold drop_num. cbn. rewrite Ec.
  apply (rest_of_suffix _ t); auto with rest.
Qed.

Lemma frac_part_suffix t fp r : frac_part t = (fp, r) -> r `suffix_of` t.
Proof.
  intros E. assert (r = t \/ exists q, t = 46 :: q /\ r = drop_num q) as [->|(q & -> & ->)]; [|done|].
  - unfold frac_part in E. repeat case_match; simplify_eq; eauto.
  - apply suffix_cons_r, drop_while_is_suffix.
Qed.

Lemma exp_part_suffix t ep r : exp_part t = (ep, r) -> r `suffix_of` t.
Proof.
  unfold exp_part. destruct t as [|e t]; [by intros [= _ <-]|]. destruct ((e =? 101) || (e =? 69)); [|by intros [= _ <-]].
  destruct t as [|x t]; cbn [take_num take_while]; [by intros [= _ <-]|].
  destruct ((x =? 43) || (x =? 45)); destruct (take_num _); intros [= _ <-]; try done;
    unfold drop_num; [apply suffix_cons_r, suffix_cons_r, drop_while_is_suffix|apply suffix_cons_r, drop_while_is_suffix].
Qed.

Section Facts.
Context (float_of : text -> option double) (keys_ok : list text -> bool).
Notation parse := (parse float_of keys_ok).
Notation parse_elements := (parse_elements float_of keys_ok).
Notation parse_members := (parse_members float_of keys_ok).

Lemma parse_scalar_rest t v q : parse_scalar float_of t = Some (v, q) ->
  rest_of q t /\ match v with VArr _ | VObj _ | VStr _ => False | _ => True end.
Proof.
  unfold parse_scalar.
  assert (kw : forall p n, tstarts p t = true -> (0 < n)%nat -> n = length p -> rest_of (drop n t) t).
  { intros p n T N ->. exists (take (length p) t). split; [|by rewrite take_drop].
    destruct p, t; cbn in *; try done; lia. }
  destruct (tstarts (points "null") t) eqn:T1; [intros [= <- <-]; split; [by eapply kw; [exact T1|lia|]|done]|].
  destruct (tstarts (points "true") t) eqn:T2; [intros [= <- <-]; split; [by eapply kw; [exact T2|lia|]|done]|].
  destruct (tstarts (points "false") t) eqn:T3; [intros [= <- <-]; split; [by eapply kw; [exact T3|lia|]|done]|].
  unfold parse_number. destruct (match t with 45 :: r => _ | _ => _ end) as [sg t1] eqn:Es.
  assert (S1 : t1 `suffix_of` t) by (repeat case_match; simplify_eq; try done; by apply suffix_cons_r).
  clear Es. unfold mbind, option_bind.
  destruct (int_part t1) as [[ip r]|] eqn:Ei; [|done]. apply int_part_rest in Ei.
  destruct (frac_part r) as [fp r1] eqn:Ef. apply frac_part_suffix in Ef.
  destruct (exp_part r1) as [ep r2] eqn:Ee. apply exp_part_suffix in Ee.
  assert (Rs : rest_of r2 t).
  { apply (suffix_rest_of _ t1); [|done]. apply (rest_of_suffix _ r1); [done|]. by apply (rest_of_suffix _ r). }
  destruct (_ && _); [destruct (_ <? _); [done|]|destruct (float_of _); [|done]]; by intros [= <- <-].
Qed.

Lemma make_object_inv ps q v q' : make_object keys_ok ps q = Some (v, q') ->
  keys_ok ps.*1 = true /\ v = VObj (dict_of ps) /\ q' = q.
Proof. unfold make_object. destruct (keys_ok _); [|done]. by intros [= <- <-]. Qed.

(** The ways a value, a list of elements or a list of members is read. *)
Ltac unfold_parse :=
  fold parse_elements; fold parse_members; fold parse.

Lemma parse_inv n t v q : parse (S n) t = Some (v, q) ->
  (exists r s, t = 34 :: r /\ scan_str r = Some (s, q) /\ v = VStr s) \/
  (exists r, t = 91 :: r /\ skip_ws r = 93 :: q /\ v = VArr []) \/
  (exists r l, t = 91 :: r /\ parse_elements n (skip_ws r) = Some (l, q) /\ v = VArr l) \/
  (exists r, t = 123 :: r /\ skip_ws r = 125 :: q /\ keys_ok [] = true /\ v = VObj []) \/
  (exists r ps, t = 123 :: r /\ parse_members n (skip_ws r) = Some (ps, q) /\ keys_ok ps.*1 = true /\ v = VObj (dict_of ps)) \/
  parse_scalar float_of t = Some (v, q).
Proof.
  cbn. unfold_parse. destruct t as [|c r]; [done|].
  destruct (c =? 34) eqn:E1; [apply Z.eqb_eq in E1 as ->; destruct (scan_str r) as [[s q']|] eqn:E; [|done]; intros [= <- <-]; left; eauto|].
  destruct (c =? 91) eqn:E2; [apply Z.eqb_eq in E2 as ->|destruct (c =? 123) eqn:E3; [apply Z.eqb_eq in E3 as ->|tauto]].
  - destruct (skip_ws r) as [|d q0] eqn:Es; [done|]. destruct (d =? 93) eqn:Ed.
    + apply Z.eqb_eq in Ed as ->. intros [= <- <-]. right. left. eauto.
    + destruct (parse_elements n (d :: q0)) as [[l q']|] eqn:El; [|done]. intros [= <- <-]. do 2 right. left.
      exists r, l. by rewrite Es.
  - destruct (skip_ws r) as [|d q0] eqn:Es; [done|]. destruct (d =? 125) eqn:Ed.
    + apply Z.eqb_eq in Ed as ->. intros (K & -> & ->)%make_object_inv. do 3 right. left. eauto.
    + destruct (parse_members n (d :: q0)) as [[ps q']|] eqn:El; [|done]. intros (K & -> & ->)%make_object_inv.
      do 4 right. left. exists r, ps. by rewrite Es.
Qed.

Lemma parse_elements_inv n t l q : parse_elements (S n) t = Some (l, q) ->
  exists v q0, parse n t = Some (v, q0) /\
    ((skip_ws q0 = 93 :: q /\ l = [v]) \/
     exists q1 l', skip_ws q0 = 44 :: q1 /\ parse_elements n (skip_ws q1) = Some (l', q) /\ l = v :: l').
Proof.
  cbn. unfold_parse. destruct (parse n t) as [[v q0]|]; [|done]. intros E. exists v, q0. split; [done|].
  destruct (skip_ws q0) as [|c q1]; [done|]. destruct (c =? 93) eqn:Ec.
  - apply Z.eqb_eq in Ec as ->. injection E as <- <-. by left.
  - destruct (c =? 44) eqn:Ed; [|done]. apply Z.eqb_eq in Ed as ->.
    destruct (parse_elements n (skip_ws q1)) as [[l' q']|] eqn:El; [|done]. injection E as <- <-. right. eauto.
Qed.

Lemma parse_members_inv n t ps q : parse_members (S n) t = Some (ps, q) ->
  exists r k q0 q1 v q2, t = 34 :: r /\ scan_str r = Some (k, q0) /\ skip_ws q0 = 58 :: q1 /\
    parse n (skip_ws q1) = Some (v, q2) /\
    ((skip_ws q2 = 125 :: q /\ ps = [(k, v)]) \/
     exists q3 ps', skip_ws q2 = 44 :: q3 /\ parse_members n (skip_ws q3) = Some (ps', q) /\ ps = (k, v) :: ps').
Proof.
  cbn. unfold_parse. destruct t as [|c r]; [done|]. destruct (c =? 34) eqn:Ec; [|done]. apply Z.eqb_eq in Ec as ->.
  destruct (scan_str r) as [[k q0]|] eqn:Es; [|done]. destruct (skip_ws q0) as [|c0 q1] eqn:Ew; [done|].
  destruct (c0 =? 58) eqn:E0; [|done]. apply Z.eqb_eq in E0 as ->.
  destruct (parse n (skip_ws q1)) as [[v q2]|] eqn:Ev; [|done]. intros E. exists r, k, q0, q1, v, q2.
  split_and!; try done. destruct (skip_ws q2) as [|c1 q3]; [done|]. destruct (c1 =? 125) eqn:E1.
  - apply Z.eqb_eq in E1 as ->. injection E as <- <-. by left.
  - destruct (c1 =? 44) eqn:E2; [|done]. apply Z.eqb_eq in E2 as ->.
    destruct (parse_members n (skip_ws q3)) as [[ps' q']|] eqn:Ep; [|done]. injection E as <- <-. right. eauto.
Qed.

Lemma ws_rest q c r : skip_ws q = c :: r -> rest_of r q.
Proof. intros E. apply (suffix_rest_of _ (c :: r)); [apply rest_cons|]. rewrite <- E. apply skip_ws_suffix. Qed.

Lemma parse_all_rest n :
  (forall t v q, parse n t = Some (v, q) -> rest_of q t) /\
  (forall t l q, parse_elements n t = Some (l, q) -> rest_of q t) /\
  (forall t ps q, parse_members n t = Some (ps, q) -> rest_of q t).
Proof.
  induction n as [|n (IHv & IHe & IHm)]; [done|]. split_and!.
  - intros t v q [(r & s & -> & E%scan_str_rest & _)|[(r & -> & E%ws_rest & _)|[(r & l & -> & E%IHe & _)|
      [(r & -> & E%ws_rest & _)|[(r & ps & -> & E%IHm & _)|[E _]%parse_scalar_rest]]]]]%parse_inv; [..|done].
    all: apply (rest_of_trans _ r); [|apply rest_cons].
    all: try assumption.
    all: by apply (suffix_rest_of _ (skip_ws r)); [|apply skip_ws_suffix].
  - intros t l q (v & q0 & E%IHv & [[Ew%ws_rest _]|(q1 & l' & Ew%ws_rest & El%IHe & _)])%parse_elements_inv.
    + by apply (rest_of_trans _ q0).
    + apply (rest_of_trans _ q0); [|done]. apply (rest_of_trans _ q1); [|done].
      apply (suffix_rest_of _ (skip_ws q1)); [done|apply skip_ws_suffix].
  - intros t ps q (r & k & q0 & q1 & v & q2 & -> & E%scan_str_rest & E0%ws_rest & Ev%IHv & C)%parse_members_inv.
    assert (R2 : rest_of q2 (34 :: r)).
    { apply (rest_of_trans _ r); [|apply rest_cons]. apply (rest_of_trans _ q0); [|done]. apply (rest_of_trans _ q1); [|done].
      apply (suffix_rest_of _ (skip_ws q1)); [done|apply skip_ws_suffix]. }
    destruct C as [[Ew%ws_rest _]|(q3 & ps' & Ew%ws_rest & Ep%IHm & _)]; [by apply (rest_of_trans _ q2)|].
    apply (rest_of_trans _ q2); [|done]. apply (rest_of_trans _ q3); [|done].
    apply (suffix_rest_of _ (skip_ws q3)); [done|apply skip_ws_suffix].
Qed.

Lemma parse_rest n t v q : parse n t = Some (v, q) -> rest_of q t.
Proof. apply parse_all_rest. Qed.
Lemma parse_elements_rest n t l q : parse_elements n t = Some (l, q) -> rest_of q t.
Proof. apply parse_all_rest. Qed.
Lemma parse_members_rest n t ps q : parse_members n t = Some (ps, q) -> rest_of q t.
Proof. apply parse_all_rest. Qed.

(** ** Fuel, depth and keys *)

Lemma parse_all_fuel n :
  (forall m t, (2 * length t + 1 <= n)%nat -> (2 * length t + 1 <= m)%nat -> parse n t = parse m t) /\
  (forall m t, (2 * length t + 2 <= n)%nat -> (2 * length t + 2 <= m)%nat -> parse_elements n t = parse_elements m t) /\
  (forall m t, (2 * length t + 2 <= n)%nat -> (2 * length t + 2 <= m)%nat -> parse_members n t = parse_members m t).
Proof.
  induction n as [|n (IHv & IHe & IHm)]; [split_and!; intros; lia|].
  assert (W : forall r, (length (skip_ws r) <= length r)%nat) by (intros r; apply suffix_length, skip_ws_suffix).
  split_and!; intros [|m] t Ln Lm; try lia; cbn; unfold_parse.
  - destruct t as [|c r]; [done|]. cbn [length] in Ln, Lm. pose proof (W r) as Wr.
    destruct (c =? 34); [done|]. destruct (c =? 91); [|destruct (c =? 123); [|done]].
    all: destruct (skip_ws r) as [|d q] eqn:Es; [done|]; rewrite <- Es in Wr |- *.
    + by rewrite (IHe m (skip_ws r)) by lia.
    + by rewrite (IHm m (skip_ws r)) by lia.
  - rewrite (IHv m t) by lia. destruct (parse m t) as [[v q]|] eqn:E; [|done].
    apply parse_rest, rest_of_length in E. pose proof (W q) as Wq. destruct (skip_ws q) as [|c q'] eqn:Es; [done|].
    cbn [length] in Wq. pose proof (W q'). by rewrite (IHe m (skip_ws q')) by lia.
  - destruct t as [|c r]; [done|]. cbn [length] in Ln, Lm. destruct (c =? 34); [|done].
    destruct (scan_str r) as [[k q0]|] eqn:Ek; [|done]. apply scan_str_rest, rest_of_length in Ek. pose proof (W q0) as W0.
    destruct (skip_ws q0) as [|c0 q1] eqn:E0; [done|]. cbn [length] in W0. destruct (c0 =? 58); [|done]. pose proof (W q1) as W1.
    rewrite (IHv m (skip_ws q1)) by lia. destruct (parse m (skip_ws q1)) as [[v q2]|] eqn:E; [|done].
    apply parse_rest, rest_of_length in E. pose proof (W q2) as W2. destruct (skip_ws q2) as [|c1 q3] eqn:Es; [done|].
    cbn [length] in W2. pose proof (W q3). by rewrite (IHm m (skip_ws q3)) by lia.
Qed.

(** More fuel than [fuel_for] never changes the answer. *)
Lemma parse_fuel n t : (fuel_for t <= n)%nat -> parse n t = parse (fuel_for t) t.
Proof. intros L. unfold fuel_for in *. apply parse_all_fuel; lia. Qed.

End Facts.

(** Nesting of a value, and the brackets of a text. *)
Fixpoint depth (v : value) : nat :=
  match v with
  | VArr l => S (list_max (map depth l))
  | VObj fs => S (list_max (map (fun f => depth f.2) fs))
  | _ => 0
  end.

Definition brackets (t : text) : nat := length (filter (fun c => c = 91 \/ c = 123) t).

Lemma brackets_suffix q t : q `suffix_of` t -> (brackets q <= brackets t)%nat.
Proof. intros [k ->]. unfold brackets. rewrite filter_app, length_app. lia. Qed.

Lemma brackets_rest q t : rest_of q t -> (brackets q <= brackets t)%nat.
Proof. intros ?%rest_of_is_suffix. by apply brackets_suffix. Qed.

Lemma put_field_values {B} k (v : B) d x : x ∈ (put_field k v d).*2 -> x = v \/ x ∈ d.*2.
Proof.
  induction d as [|[k' w] d IH]; cbn; [intros [->|I]%elem_of_cons; [by left|by apply elem_of_nil in I]|].
  case_bool_decide; cbn; rewrite !elem_of_cons; [tauto|]. intros [->|I]; [tauto|]. destruct (IH I); tauto.
Qed.

Lemma dict_of_values ps x : x ∈ (dict_of ps).*2 -> x ∈ ps.*2.
Proof.
  unfold dict_of. assert (G : forall d, x ∈ (foldl (fun d p => put_field p.1 p.2 d) d ps).*2 -> x ∈ d.*2 \/ x ∈ ps.*2).
  { induction ps as [|p ps IH]; intros d I; [by left|]. cbn in *. rewrite elem_of_cons.
    destruct (IH _ I) as [J|J]; [apply put_field_values in J|]; tauto. }
  intros I. destruct (G [] I) as [J|]; [by apply elem_of_nil in J|done].
Qed.

Lemma list_max_le {A} (f : A -> nat) l m : Forall (fun x => f x <= m)%nat l <-> (list_max (map f l) <= m)%nat.
Proof.
  induction l as [|x l IH]; [split; [cbn; lia|constructor]|].
  change (list_max (map f (x :: l))) with (Nat.max (f x) (list_max (map f l))). rewrite Forall_cons, IH. lia.
Qed.

Section Depth.
Context (float_of : text -> option double) (keys_ok : list text -> bool).
Notation parse := (parse float_of keys_ok).
Notation parse_elements := (parse_elements float_of keys_ok).
Notation parse_members := (parse_members float_of keys_ok).

Lemma parse_all_depth n :
  (forall t v q, parse n t = Some (v, q) -> (depth v + brackets q <= brackets t)%nat) /\
  (forall t l q, parse_elements n t = Some (l, q) -> Forall (fun v => depth v <= brackets t - brackets q)%nat l) /\
  (forall t ps q, parse_members n t = Some (ps, q) -> Forall (fun p => depth p.2 <= brackets t - brackets q)%nat ps).
Proof.
  induction n as [|n (IHv & IHe & IHm)]; [done|].
  assert (Op : forall c r, c = 91 \/ c = 123 -> brackets (c :: r) = S (brackets r)).
  { intros c r O. unfold brackets. by rewrite filter_cons_True. }
  assert (W : forall r, (brackets (skip_ws r) <= brackets r)%nat) by (intros r; apply brackets_suffix, skip_ws_suffix).
  split_and!.
  - intros t v q E. pose proof (brackets_rest _ _ (parse_rest _ _ _ _ _ _ E)) as R.
    apply parse_inv in E as [(r & s & -> & E & ->)|[(r & -> & E & ->)|[(r & l & -> & E & ->)|
      [(r & -> & E & _ & ->)|[(r & ps & -> & E & _ & ->)|[_ E]%parse_scalar_rest]]]]]; try done.
    + change (depth (VArr [])) with 1%nat. rewrite Op by tauto. apply ws_rest, brackets_rest in E. lia.
    + pose proof (brackets_rest _ _ (parse_elements_rest _ _ _ _ _ _ E)). apply IHe in E. rewrite Op by tauto.
      pose proof (W r). cbn [depth]. apply (list_max_le depth) in E. lia.
    + change (depth (VObj [])) with 1%nat. rewrite Op by tauto. apply ws_rest, brackets_rest in E. lia.
    + pose proof (brackets_rest _ _ (parse_members_rest _ _ _ _ _ _ E)). apply IHm in E. rewrite Op by tauto.
      pose proof (W r). cbn [depth].
      assert (list_max (map (fun f => depth f.2) (dict_of ps)) <= brackets (skip_ws r) - brackets q)%nat; [|lia].
      apply (list_max_le (fun f => depth f.2)). rewrite Forall_forall in E |- *. intros [k v] I.
      assert (J : v ∈ ps.*2) by (apply dict_of_values, list_elem_of_fmap; by exists (k, v)).
      apply list_elem_of_fmap in J as ([k' v'] & -> & J). by apply (E (k', v')).
    + destruct v; cbn in *; try done; lia.
  - intros t l q (v & q0 & Ev & C)%parse_elements_inv. pose proof (IHv _ _ _ Ev) as D.
    destruct C as [[E ->]|(q1 & l' & E & El & ->)]; apply ws_rest, brackets_rest in E.
    + constructor; [lia|constructor].
    + pose proof (brackets_rest _ _ (parse_elements_rest _ _ _ _ _ _ El)). apply IHe in El. pose proof (W q1).
      constructor; [lia|]. eapply Forall_impl; [exact El|]. cbn beta. lia.
  - intros t ps q (r & k & q0 & q1 & v & q2 & -> & Ek & E0 & Ev & C)%parse_members_inv. pose proof (IHv _ _ _ Ev) as D.
    apply scan_str_rest, brackets_rest in Ek. apply ws_rest, brackets_rest in E0. pose proof (W q1).
    assert (brackets r <= brackets (34%Z :: r))%nat by (apply brackets_rest, rest_cons).
    destruct C as [[E ->]|(q3 & ps' & E & Em & ->)]; apply ws_rest, brackets_rest in E.
    + constructor; [cbn [snd]; lia|constructor].
    + pose proof (brackets_rest _ _ (parse_members_rest _ _ _ _ _ _ Em)). apply IHm in Em. pose proof (W q3).
      constructor; [cbn [snd]; lia|]. eapply Forall_impl; [exact Em|]. cbn beta. lia.
Qed.

(** The brackets of a text bound the nesting of what it spells. *)
Lemma loads_depth t v : loads float_of keys_ok t = Some v -> (depth v <= brackets t)%nat.
Proof.
  unfold loads. destruct (JsonParse.parse _ _ _ _) as [[v' q]|] eqn:E; [|done]. destruct (skip_ws q); [|done].
  intros [= <-]. apply parse_all_depth in E. pose proof (brackets_suffix _ _ (skip_ws_suffix t)). lia.
Qed.

End Depth.

(** Every object of a value passes the test on its keys. *)
Fixpoint objects_ok (ok : list text -> bool) (v : value) : bool :=
  match v with
  | VArr l => forallb (objects_ok ok) l
  | VObj fs => ok fs.*1 && forallb (fun f => objects_ok ok f.2) fs
  | _ => true
  end.

Lemma put_field_new {B} k (v : B) d : k ∉ d.*1 -> put_field k v d = d ++ [(k, v)].
Proof.
  induction d as [|[k' w] d IH]; intros N; [done|]. cbn in *. rewrite not_elem_of_cons in N.
  rewrite bool_decide_false by (intros ->; tauto). f_equal. apply IH. tauto.
Qed.

Lemma dict_of_distinct ps : NoDup ps.*1 -> dict_of ps = ps.
Proof.
  unfold dict_of. assert (G : forall d, NoDup (d ++ ps).*1 -> foldl (fun d p => put_field p.1 p.2 d) d ps = d ++ ps).
  { induction ps as [|[k v] ps IH]; intros d N; [by rewrite app_nil_r|]. cbn.
    assert (D : k ∉ d.*1).
    { rewrite fmap_app in N. apply NoDup_app in N as (_ & N & _). intros I. apply (N k I). left. }
    rewrite put_field_new by done. rewrite IH; [by rewrite <- app_assoc|by rewrite <- app_assoc]. }
  apply (G []).
Qed.

Section Keys.
Context (float_of : text -> option double) (keys_ok : list text -> bool).
Context (distinct : forall ks, keys_ok ks = true -> NoDup ks).

Lemma parse_all_keys n :
  (forall t v q, parse float_of keys_ok n t = Some (v, q) -> objects_ok keys_ok v = true) /\
  (forall t l q, parse_elements float_of keys_ok n t = Some (l, q) -> Forall (fun v => objects_ok keys_ok v = true) l) /\
  (forall t ps q, parse_members float_of keys_ok n t = Some (ps, q) -> Forall (fun p => objects_ok keys_ok p.2 = true) ps).
Proof.
  induction n as [|n (IHv & IHe & IHm)]; [done|]. split_and!.
  - intros t v q [(r & s & -> & E & ->)|[(r & -> & E & ->)|[(r & l & -> & E & ->)|
      [(r & -> & E & K & ->)|[(r & ps & -> & E & K & ->)|[_ E]%parse_scalar_rest]]]]]%parse_inv; try done.
    + cbn. apply forallb_all. by eapply IHe.
    + cbn. by rewrite K.
    + rewrite dict_of_distinct by auto. cbn. rewrite K. cbn. apply forallb_all. by eapply IHm.
    + by destruct v.
  - intros t l q (v & q0 & Ev%IHv & [[E ->]|(q1 & l' & E & El%IHe & ->)])%parse_elements_inv; by repeat constructor.
  - intros t ps q (r & k & q0 & q1 & v & q2 & -> & Ek & E0 & Ev%IHv & C)%parse_members_inv.
    destruct C as [[E ->]|(q3 & ps' & E & Em%IHm & ->)]; by repeat constructor.
Qed.

Lemma loads_keys t v : loads float_of keys_ok t = Some v -> objects_ok keys_ok v = true.
Proof.
  unfold loads. destruct (parse _ _ _ _) as [[v' q]|] eqn:E; [|done]. destruct (skip_ws q); [|done].
  intros [= <-]. by apply parse_all_keys in E.
Qed.
End Keys.

(** ** Reading back what was printed: strings *)

Lemma hex_value_digit n : 0 <= n < 16 -> hex_value (hex_digit n) = Some n.
Proof.
  intros B. assert (F : Forall (fun k => hex_value (hex_digit k) = Some k) (seqZ 0 16)).
  { apply (bool_decide_eq_true_1 _). by vm_compute. }
  rewrite Forall_forall in F. apply F, elem_of_seqZ. lia.
Qed.

Lemma hex4_reads u : 0 <= u < 65536 -> exists a b c d, hex4 u = [a; b; c; d] /\ hex4_value_of a b c d = Some u.
Proof.
  intros B. do 4 eexists. split; [reflexivity|]. unfold hex4_value_of.
  rewrite !hex_value_digit by (apply Z.mod_pos_bound; lia). cbn [mbind option_bind]. by rewrite hex4_value.
Qed.

(** One unit that is not a high surrogate. *)
Lemma scan_unit u r : 0 <= u < 65536 -> is_high u = false -> scan_str (esc1 u ++ r) = scanned u (scan_str r).
Proof.
  intros B Hi. unfold esc1.
  repeat (match goal with |- context [if ?x =? ?y then _ else _] => destruct (x =? y) eqn:? end;
          bool_prop; subst; [done|]).
  destruct ((32 <=? u) && (u <=? 126)) eqn:P.
  - bool_prop. cbn [app scan_str]. assert (u =? 34 = false) as -> by (by apply Z.eqb_neq).
    assert (u =? 92 = false) as -> by (by apply Z.eqb_neq). by assert (u <=? 31 = false) as -> by (apply Z.leb_gt; lia).
  - destruct (hex4_reads u B) as (a & b & c & d & -> & V). cbn [app scan_str Z.eqb Pos.eqb]. rewrite V, Hi.
    by destruct r as [|? [|? [|? [|? [|? [|? ?]]]]]].
Qed.

Lemma esc1_high u : is_high u = true \/ is_low u = true -> 0 <= u < 65536 /\ esc1 u = 92 :: 117 :: hex4 u.
Proof.
  intros B. assert (55296 <= u < 57344) by (unfold is_high, is_low in B; destruct B; bool_prop; lia).
  split; [lia|]. unfold esc1.
  repeat (match goal with |- context [if ?x =? ?y then _ else _] => destruct (x =? y) eqn:? end; bool_prop; subst; [lia|]).
  assert ((32 <=? u) && (u <=? 126) = false) as ->; [|done]. apply andb_false_iff. right. apply Z.leb_gt. lia.
Qed.

Lemma low_escape_low u r : is_low u = true -> low_escape (92 :: 117 :: hex4 u ++ r) = Some u.
Proof.
  intros L. destruct (esc1_high u (or_intror L)) as [B _].
  destruct (hex4_reads u B) as (a & b & c & d & -> & V). cbn. by rewrite V, L.
Qed.

(** Two escapes that make a pair. *)
Lemma scan_pair u u' r : is_high u = true -> is_low u' = true ->
  scan_str (esc1 u ++ esc1 u' ++ r) = scanned (pair_of u u') (scan_str r).
Proof.
  intros Hi Lo. destruct (esc1_high u (or_introl Hi)) as [B ->]. destruct (esc1_high u' (or_intror Lo)) as [B' ->].
  destruct (hex4_reads u B) as (a & b & c & d & -> & V). cbn [app]. cbn [scan_str Z.eqb Pos.eqb]. rewrite V, Hi.
  rewrite low_escape_low by done. by destruct (hex4_reads u' B') as (a' & b' & c' & d' & -> & _).
Qed.

(** A lone high surrogate, when no low one follows. *)
Lemma scan_lone u r : is_high u = true -> low_escape r = None -> scan_str (esc1 u ++ r) = scanned u (scan_str r).
Proof.
  intros Hi N. destruct (esc1_high u (or_introl Hi)) as [B ->]. destruct (hex4_reads u B) as (a & b & c & d & -> & V).
  cbn [app]. cbn [scan_str Z.eqb Pos.eqb]. by rewrite V, Hi, N.
Qed.

Lemma low_escape_unit u r : 0 <= u < 65536 -> is_low u = false -> low_escape (esc1 u ++ r) = None.
Proof.
  intros B Lo. unfold esc1.
  repeat (match goal with |- context [if ?x =? ?y then _ else _] => destruct (x =? y) eqn:? end;
          bool_prop; subst; [done|]).
  destruct ((32 <=? u) && (u <=? 126)) eqn:P.
  - cbn [app]. unfold low_escape. repeat (case_match; subst; try done).
  - destruct (hex4_reads u B) as (a & b & c & d & -> & V). cbn. by rewrite V, Lo.
Qed.

Lemma scan_dump_str s r : str_ok s = true -> scan_str (flat_map esc1 (units s) ++ 34 :: r) = Some (s, r).
Proof.
  induction s as [|c s IH]; intros O; [done|]. pose proof O as O'. cbn [str_ok] in O. bool_prop. specialize (IH ltac:(done)).
  pose proof (units_head_low s ltac:(done)) as HL. pose proof (units_bounds s ltac:(done)) as Bs.
  cbn [units flat_map]. fold (units s). unfold units1. destruct (c <? 65536) eqn:E; bool_prop.
  - cbn [app flat_map]. rewrite <- app_assoc. destruct (is_high c) eqn:Hc.
    + rewrite scan_lone; [by rewrite IH|done|]. cbn [andb] in *. destruct (units s) as [|u us]; [done|].
      cbn [flat_map]. rewrite <- app_assoc. apply Forall_cons in Bs as [Bu _].
      apply low_escape_unit; [done|]. by rewrite HL.
    + rewrite scan_unit by (done || lia). by rewrite IH.
  - cbn [app flat_map]. rewrite <- !app_assoc. rewrite scan_pair.
    + rewrite IH. cbn. do 2 f_equal. unfold pair_of. f_equal. Z.to_euclidean_division_equations. lia.
    + unfold is_high. apply andb_true_iff. split; [apply Z.leb_le|apply Z.ltb_lt]; Z.to_euclidean_division_equations; lia.
    + unfold is_low. apply andb_true_iff. split; [apply Z.leb_le|apply Z.ltb_lt]; Z.to_euclidean_division_equations; lia.
Qed.

(** ** Reading back what was printed: numbers *)

Definition digits (t : text) : Prop := Forall (fun c => is_num c = true) t.

(** The literal before the point, the fraction and the exponent of a number. *)
Definition int_literal (t : text) : Prop :=
  t = [48] \/ exists c ds, t = c :: ds /\ is_num c = true /\ c <> 48 /\ digits ds.
Definition fraction (t : text) : Prop := t = [] \/ exists ds, t = 46 :: ds /\ ds <> [] /\ digits ds.
Definition exponent (t : text) : Prop :=
  t = [] \/ exists e sg ds, t = e :: sg ++ ds /\ (e = 101 \/ e = 69) /\ sg ∈ [[]; [43]; [45]] /\ ds <> [] /\ digits ds.

(** No digit follows. *)
Definition stops (r : text) : Prop := match r with [] => True | c :: _ => is_num c = false end.

Lemma take_num_app ds r : digits ds -> stops r -> take_num (ds ++ r) = ds /\ drop_num (ds ++ r) = r.
Proof.
  unfold take_num, drop_num. intros D S. induction D as [|c ds N D [IH1 IH2]]; cbn.
  - destruct r as [|c r]; [done|]. cbn in *. by rewrite S.
  - rewrite N. by rewrite IH1, IH2.
Qed.

Lemma int_part_literal ip r : int_literal ip -> stops r -> int_part (ip ++ r) = Some (ip, r).
Proof.
  intros [->|(c & ds & -> & N & Z0 & D)] S; [done|]. unfold int_part. cbn [app].
  assert (c =? 48 = false) as -> by (by apply Z.eqb_neq). rewrite N.
  destruct (take_num_app (c :: ds) r) as [E1 E2]; [by constructor|done|]. cbn [app] in E1, E2. by rewrite E1, E2.
Qed.

Lemma is_token_num c : is_token c = false -> is_num c = false.
Proof. unfold is_token, is_alnum. destruct (is_num c); [|done]. by rewrite !orb_true_r. Qed.

Lemma ends_token_stops r : ends_token r -> stops r.
Proof. destruct r; [done|]. apply is_token_num. Qed.

Lemma frac_part_fraction fp ep r : fraction fp -> exponent ep -> ends_token r -> frac_part (fp ++ ep ++ r) = (fp, ep ++ r).
Proof.
  intros F E T.
  assert (St : stops (ep ++ r)).
  { destruct E as [->|(e & sg & ds & -> & [->| ->] & _)]; [by apply ends_token_stops|done..]. }
  destruct F as [->|(ds & -> & N & D)]; unfold frac_part; cbn [app].
  - destruct E as [->|(e & sg & ds & -> & [->| ->] & _)]; cbn [app]; [|done..].
    destruct r as [|c r]; [done|]. cbn in T. repeat (case_match; subst; try done).
  - destruct (take_num_app ds (ep ++ r)) as [-> ->]; [done..|]. by destruct ds.
Qed.

Lemma exp_part_exponent ep r : exponent ep -> ends_token r -> exp_part (ep ++ r) = (ep, r).
Proof.
  intros [->|(e & sg & ds & -> & He & Hs & N & D)] T; cbn [app].
  - unfold exp_part. destruct r as [|c r]; [done|]. cbn in T.
    assert ((c =? 101) || (c =? 69) = false) as ->; [|done]. apply orb_false_iff.
    split; apply Z.eqb_neq; intros ->; done.
  - unfold exp_part. assert ((e =? 101) || (e =? 69) = true) as -> by (by destruct He; subst).
    apply ends_token_stops in T. destruct (take_num_app ds r) as [E1 E2]; [done..|].
    rewrite <- app_assoc.
    apply elem_of_cons in Hs as [->|[->|[->|Hs%elem_of_nil]%elem_of_cons]%elem_of_cons]; [..|done]; cbn [app].
    + destruct ds as [|x ds]; [done|]. apply Forall_cons in D as [Dx D]. cbn [app] in *.
      assert ((x =? 43) || (x =? 45) = false) as ->.
      { apply orb_false_iff. split; apply Z.eqb_neq; intros ->; done. }
      by rewrite E1, E2.
    + cbn. rewrite E1, E2. by destruct ds.
    + cbn. rewrite E1, E2. by destruct ds.
Qed.

(** A literal of the grammar, read up to its end. *)
Lemma number_reads float_of sg ip fp ep r :
  sg = [] \/ sg = [45] -> int_literal ip -> fraction fp -> exponent ep -> ends_token r ->
  parse_number float_of (sg ++ ip ++ fp ++ ep ++ r) =
    if bool_decide (fp = []) && bool_decide (ep = []) then
      if INT_MAX_STR_DIGITS <? Z.of_nat (length ip) then None
      else Some (VInt (if bool_decide (sg = []) then digits_value ip else - digits_value ip), r)
    else d ← float_of (sg ++ ip ++ fp ++ ep); Some (VFloat d, r).
Proof.
  intros Sg Ip Fp Ep T.
  assert (St : stops (fp ++ ep ++ r)).
  { destruct Fp as [->|(ds & -> & _)]; [|done].
    destruct Ep as [->|(e & sg' & ds & -> & [->| ->] & _)]; [by apply ends_token_stops|done..]. }
  assert (Es : match sg ++ ip ++ fp ++ ep ++ r with 45 :: q => ([45], q) | _ => ([], sg ++ ip ++ fp ++ ep ++ r) end
               = (sg, ip ++ fp ++ ep ++ r)).
  { destruct Sg as [->| ->]; [|done]. destruct Ip as [->|(c & ds & -> & N & _)]; [done|]. cbn [app].
    assert (c <> 45) by (intros ->; done). repeat (case_match; subst; try done). }
  unfold parse_number. rewrite Es. rewrite int_part_literal by done. cbn [mbind option_bind].
  by rewrite frac_part_fraction, exp_part_exponent by done.
Qed.

(** What [float.__repr__] prints is a literal with a fraction or an exponent, and [float] reads it back. *)
Class JsonFloat `{PyFloat} := {
  float_of : text -> option double;
  float_of_repr d : double_ok d = true -> float_of (frepr d) = Some d;
  frepr_literal d : double_ok d = true -> exists sg ip fp ep, frepr d = sg ++ ip ++ fp ++ ep /\
    (sg = [] \/ sg = [45]) /\ int_literal ip /\ fraction fp /\ exponent ep /\ (fp <> [] \/ ep <> []);
}.

Lemma digits_value_app a b : digits_value (a ++ b) = digits_value a * 10 ^ Z.of_nat (length b) + digits_value b.
Proof.
  unfold digits_value. rewrite foldl_app. generalize (foldl (fun n c => n * 10 + (c - 48)) 0 a). intros x.
  revert x. induction b as [|c b IH] using rev_ind; intros x; [cbn; lia|].
  rewrite !foldl_snoc, IH, length_app. cbn [length].
  replace (Z.of_nat (length b + 1)) with (Z.of_nat (length b) + 1) by lia. rewrite Z.pow_add_r by lia. cbn. lia.
Qed.

Lemma pretty_N_char_point k : (k < 10)%N -> Z.of_nat (Ascii.nat_of_ascii (pretty_N_char k)) = 48 + Z.of_N k.
Proof.
  intros B. assert (k = 0 \/ k = 1 \/ k = 2 \/ k = 3 \/ k = 4 \/ k = 5 \/ k = 6 \/ k = 7 \/ k = 8 \/ k = 9)%N as C by lia.
  by repeat (destruct C as [->|C]; [done|]); subst.
Qed.

(** The digits of a positive number. *)
Lemma pretty_N_go_value x s : digits (points s) ->
  digits (points (pretty_N_go x s)) /\
  digits_value (points (pretty_N_go x s)) = Z.of_N x * 10 ^ Z.of_nat (length (points s)) + digits_value (points s) /\
  ((0 < x)%N -> exists c r, points (pretty_N_go x s) = c :: r /\ c <> 48).
Proof.
  revert s. induction (N.lt_wf_0 x) as [x _ IH]; intros s D.
  destruct (decide (0 < x)%N) as [P|P].
  2:{ replace x with 0%N by lia. rewrite pretty_N_go_0. split_and!; [done|cbn; lia|lia]. }
  rewrite pretty_N_go_step by done.
  set (ch := pretty_N_char (x `mod` 10)). set (c := Z.of_nat (Ascii.nat_of_ascii ch)).
  assert (Ec : c = 48 + Z.of_N (x `mod` 10)).
  { apply pretty_N_char_point. by apply N.mod_lt. }
  assert (Pc : points (String ch s) = c :: points s) by done.
  assert (D' : digits (points (String ch s))).
  { rewrite Pc. constructor; [|done]. unfold is_num. assert (0 <= Z.of_N (x `mod` 10) < 10).
    { rewrite N2Z.inj_mod. by apply Z.mod_pos_bound. }
    apply andb_true_iff. split; apply Z.leb_le; lia. }
  destruct (IH (x `div` 10)%N ltac:(by apply N.div_lt) (String ch s) D') as (I1 & I2 & I3).
  split_and!; [done| |].
  - rewrite I2, Pc. change (c :: points s) with ([c] ++ points s). rewrite digits_value_app, length_app. cbn [length].
    replace (Z.of_nat (1 + length (points s))) with (Z.of_nat (length (points s)) + 1) by lia.
    rewrite Z.pow_add_r by lia. unfold digits_value at 1. cbn [foldl].
    pose proof (N.div_mod x 10 ltac:(done)) as Dm. rewrite Ec.
    rewrite Dm at 3. rewrite N2Z.inj_add, N2Z.inj_mul. change (Z.of_N 10) with 10. ring.
  - intros _. destruct (decide (0 < x `div` 10)%N) as [Q|Q]; [by apply I3|].
    assert (Z0 : (x `div` 10 = 0)%N) by (by apply N.le_0_r, N.nlt_ge). rewrite Z0, pretty_N_go_0, Pc. exists c, (points s). split; [done|].
    assert (x `mod` 10 = x)%N by (pose proof (N.div_mod x 10 ltac:(done)) as Dm; rewrite Z0 in Dm; lia). lia.
Qed.

Lemma dump_int_literal n : exists sg ip, dump_int n = sg ++ ip /\ (sg = [] \/ sg = [45]) /\ sg = (if n <? 0 then [45] else []) /\ int_literal ip /\
  (if bool_decide (sg = []) then digits_value ip else - digits_value ip) = n /\ digits_value ip = Z.abs n /\
  (ip = [48] \/ exists c r, ip = c :: r /\ 1 <= c - 48 /\ digits r).
Proof.
  assert (G : forall p, let ip := points (pretty_N_go (N.pos p) "") in
    int_literal ip /\ digits_value ip = Z.pos p /\ exists c r, ip = c :: r /\ 1 <= c - 48 /\ digits r).
  { intros p ip. destruct (pretty_N_go_value (N.pos p) "" ltac:(constructor)) as (D & V & NZ).
    destruct (NZ ltac:(done)) as (c & r & E & N). fold ip in D, V, E. rewrite E in D. apply Forall_cons in D as [Dc Dr].
    split_and!; [right; by exists c, r|rewrite V; cbn [points length]; change (digits_value []) with 0; change (10 ^ Z.of_nat 0) with 1; lia|]. exists c, r. split_and!; [done| |done].
    unfold is_num in Dc. bool_prop. lia. }
  unfold dump_int, fmt_int. destruct n as [|p|p].
  - exists [], [48]. split_and!; try done; [by left|by left|by left].
  - destruct (G p) as (L & V & X). exists [], (points (pretty_N_go (N.pos p) "")).
    split_and!; [|by left|done|done|done|done|by right]. unfold pretty, pretty_Z, pretty, pretty_positive, pretty, pretty_N. cbn [decide].
    by case_match.
  - destruct (G p) as (L & V & X). exists [45], (points (pretty_N_go (N.pos p) "")).
    split_and!; [|by right|done|done|rewrite V; done|done|by right].
    unfold pretty, pretty_Z, pretty, pretty_positive, pretty, pretty_N. cbn [decide]. by case_match.
Qed.

Lemma digits_value_nonneg ds : digits ds -> 0 <= digits_value ds.
Proof.
  unfold digits_value. intros D. assert (G : forall x, 0 <= x -> 0 <= foldl (fun n c => n * 10 + (c - 48)) x ds); [|by apply G].
  induction D as [|c ds N D IH]; intros x X; cbn; [done|]. apply IH. unfold is_num in N. bool_prop. lia.
Qed.

(** ** Reading back what was printed: values *)

(** Every integer has a literal within the limit. *)
Fixpoint ints_fit (v : value) : bool :=
  match v with
  | VInt n => Z.abs n <? 10 ^ INT_MAX_STR_DIGITS
  | VArr l => forallb ints_fit l
  | VObj fs => forallb (fun f => ints_fit f.2) fs
  | _ => true
  end.

Lemma int_reads float_of n r : Z.abs n <? 10 ^ INT_MAX_STR_DIGITS = true -> ends_token r ->
  parse_number float_of (dump_int n ++ r) = Some (VInt n, r).
Proof.
  intros F%Z.ltb_lt T. destruct (dump_int_literal n) as (sg & ip & -> & Sg & _ & Ip & V & A & X).
  pose proof (number_reads float_of sg ip [] [] r Sg Ip (or_introl eq_refl) (or_introl eq_refl) T) as E. cbn [app] in E.
  rewrite <- app_assoc, E. cbn [bool_decide decide andb].
  assert ((INT_MAX_STR_DIGITS <? Z.of_nat (length ip)) = false) as ->; [|by rewrite V].
  apply Z.ltb_ge. destruct X as [->|(c & ds & -> & C & D)]; [done|].
  destruct (Z.le_gt_cases (Z.of_nat (length (c :: ds))) INT_MAX_STR_DIGITS) as [|G]; [done|exfalso].
  change (c :: ds) with ([c] ++ ds) in A. rewrite digits_value_app in A. unfold digits_value at 1 in A. cbn [foldl] in A.
  pose proof (digits_value_nonneg ds D). cbn [length] in G.
  assert (10 ^ INT_MAX_STR_DIGITS <= 10 ^ Z.of_nat (length ds)) by (apply Z.pow_le_mono_r; lia).
  assert (0 < 10 ^ Z.of_nat (length ds)) by (apply Z.pow_pos_nonneg; lia). nia.
Qed.

Lemma skip_ws_stay c t : is_json_ws c = false -> skip_ws (c :: t) = c :: t.
Proof. intros E. unfold skip_ws. cbn. by rewrite E. Qed.

Lemma token_not_ws c : is_token c = true -> is_json_ws c = false /\ (c =? 34) = false /\ (c =? 91) = false /\ (c =? 123) = false /\ (c =? 93) = false.
Proof.
  intros T. unfold is_json_ws. rewrite !orb_false_iff, !Z.eqb_neq. split_and!; intros ->; done.
Qed.

Lemma tstarts_head p c t : match p with [] => False | a :: _ => a <> c end -> tstarts p (c :: t) = false.
Proof. destruct p as [|a p]; [done|]. intros N. cbn. by rewrite (proj2 (Z.eqb_neq _ _) N). Qed.

Section RoundTrip.
Context `{JsonFloat} (keys_ok : list text -> bool).
Notation parse := (parse float_of keys_ok).
Notation parse_elements := (parse_elements float_of keys_ok).
Notation parse_members := (parse_members float_of keys_ok).

(** A value whose text reads back. *)
Definition readable (v : value) : bool := value_ok v && ints_fit v && objects_ok keys_ok v.

Lemma scalar_reads v r : readable v = true -> scalar v = true -> ends_token r ->
  parse_scalar float_of (dump v ++ r) = Some (v, r).
Proof.
  unfold readable. intros R S T. bool_prop. unfold parse_scalar.
  assert (Num : forall sg ip x, sg = [] \/ sg = [45] -> int_literal ip ->
    (tstarts (points "null") (sg ++ ip ++ x) = false /\ tstarts (points "true") (sg ++ ip ++ x) = false /\
     tstarts (points "false") (sg ++ ip ++ x) = false)).
  { intros sg ip x [->| ->] Ip; [|by split_and!]. destruct Ip as [->|(c & ds & -> & N & _)]; [by split_and!|].
    unfold is_num in N. bool_prop. cbn [app].
    split_and!; apply tstarts_head; [change (110 <> c)|change (116 <> c)|change (102 <> c)]; lia. }
  destruct v as [|[]|n|d| | |]; try done; cbn [dump].
  - destruct (dump_int_literal n) as (sg & ip & E & Sg & _ & Ip & _). pose proof (Num sg ip r Sg Ip) as (N1 & N2 & N3).
    rewrite app_assoc, <- E in N1, N2, N3. rewrite N1, N2, N3. by apply int_reads.
  - cbn [value_ok] in *. match goal with X : double_ok d = true |- _ => destruct (frepr_literal d X) as (sg & ip & fp & ep & E & Sg & Ip & Fp & Ep & Ne); pose proof (float_of_repr d X) as Fl end.
    pose proof (Num sg ip (fp ++ ep ++ r) Sg Ip) as (N1 & N2 & N3).
    rewrite E. rewrite <- !app_assoc, N1, N2, N3. rewrite number_reads by done.
    assert (bool_decide (fp = []) && bool_decide (ep = []) = false) as ->.
    { apply andb_false_iff. destruct Ne; [left|right]; by apply bool_decide_eq_false. }
    by rewrite <- E, Fl.
Qed.

Lemma dump_head_ws v r : value_ok v = true -> exists c t, dump v ++ r = c :: t /\ is_json_ws c = false /\ c <> 93 /\ c <> 125.
Proof.
  intros O. pose proof (dump_head v O) as Hd. destruct (dump v) as [|c t]; [done|]. exists c, (t ++ r). split; [done|].
  destruct (scalar v).
  - apply token_not_ws in Hd as W. destruct W as (W & _ & _ & _ & N). split_and!; [done|by apply Z.eqb_neq|].
    intros ->. done.
  - by destruct v; subst.
Qed.

(** The text of one value, followed by anything that ends it. *)
Definition reads_back (v : value) : Prop := forall n r, (2 * length (dump v ++ r) + 1 <= n)%nat -> ends_token r ->
  parse n (dump v ++ r) = Some (v, r).

Lemma elements_read l : Forall (fun v => value_ok v = true) l -> Forall reads_back l -> forall v n r,
  value_ok v = true -> reads_back v ->
  (2 * length (dump v ++ flat_map (fun y => 44%Z :: dump y) l ++ 93%Z :: r) + 2 <= n)%nat ->
  parse_elements n (dump v ++ flat_map (fun y => 44 :: dump y) l ++ 93 :: r) = Some (v :: l, r).
Proof.
  intros Ok Rb. induction Rb as [|w l Rw Rb IH]; intros v [|n] r Ov Rv L; try lia; cbn; fold parse parse_elements.
  - rewrite Rv; [done|cbn in L |- *; lia|done].
  - apply Forall_cons in Ok as [Ow Ok]. rewrite Rv; [|cbn in L |- *; lia|done]. rewrite skip_ws_stay by done. cbn.
    destruct (dump_head_ws w (flat_map (fun y => 44 :: dump y) l ++ 93 :: r) Ow) as (c & t & E & W & _).
    cbn [flat_map app] in L. rewrite <- app_assoc in L |- *. fold parse_elements.
    assert (Sk : skip_ws (dump w ++ flat_map (fun y => 44 :: dump y) l ++ 93 :: r) =
                 dump w ++ flat_map (fun y => 44 :: dump y) l ++ 93 :: r) by (rewrite E; by apply skip_ws_stay).
    rewrite Sk, IH; [done..|]. rewrite length_app in L. cbn [app length] in L. lia.
Qed.

Ltac lens := repeat (rewrite length_app in * || rewrite length_cons in * ); lia.

Definition member (f : text * value) : text := dump_str f.1 ++ 58 :: dump f.2.

Arguments member : simpl never.

Lemma members_read fs : Forall (fun f => str_ok f.1 = true /\ value_ok f.2 = true) fs -> Forall (fun f => reads_back f.2) fs ->
  forall f n r, str_ok f.1 = true -> value_ok f.2 = true -> reads_back f.2 ->
  (2 * length (member f ++ flat_map (fun y => 44%Z :: member y) fs ++ 125%Z :: r) + 2 <= n)%nat ->
  parse_members n (member f ++ flat_map (fun y => 44 :: member y) fs ++ 125 :: r) = Some (f :: fs, r).
Proof.
  intros Ok Rb. induction Rb as [|g fs Rg Rb IH]; intros [k v] [|n] r Ok1 Ov Rv L; try lia; unfold member at 1 in L; unfold member at 1;
    unfold dump_str in L |- *; cbn [fst snd app flat_map] in *; cbn; fold parse parse_members;
    repeat rewrite <- app_assoc in L; repeat rewrite <- app_assoc; cbn [app] in *;
    rewrite scan_dump_str by done; rewrite skip_ws_stay by done; cbn [Z.eqb Pos.eqb].
  - destruct (dump_head_ws v (125 :: r) Ov) as (c & t & E & W & _).
    assert (skip_ws (dump v ++ 125 :: r) = dump v ++ 125 :: r) as -> by (rewrite E; by apply skip_ws_stay).
    rewrite Rv; [done|lens|done].
  - apply Forall_cons in Ok as [[Og1 Og2] Ok].
    set (tl := flat_map (fun y => 44 :: member y) fs ++ 125 :: r) in *.
    destruct (dump_head_ws v (44 :: member g ++ tl) Ov) as (c & t & E & W & _).
    assert (skip_ws (dump v ++ 44 :: member g ++ tl) = dump v ++ 44 :: member g ++ tl) as -> by (rewrite E; by apply skip_ws_stay).
    rewrite Rv; [|lens|done]. rewrite skip_ws_stay by done. cbn [Z.eqb Pos.eqb].
    assert (skip_ws (member g ++ tl) = member g ++ tl) as -> by done.
    fold parse_members. unfold tl in *. rewrite IH; [done..|lens].
Qed.

Lemma readable_arr l : readable (VArr l) = true -> Forall (fun v => readable v = true) l.
Proof.
  unfold readable. cbn. intros R. bool_prop. rewrite !forallb_all, !Forall_forall in *.
  intros v I. by rewrite !andb_true_iff; split_and!; auto.
Qed.

Lemma readable_obj fs : readable (VObj fs) = true ->
  Forall (fun f => str_ok f.1 = true /\ readable f.2 = true) fs /\ keys_ok fs.*1 = true /\ NoDup fs.*1.
Proof.
  unfold readable. cbn. intros R. bool_prop. rewrite !forallb_all, !Forall_forall in *. split; [|done].
  intros f I. match goal with X : forall x, x ∈ fs -> str_ok _ && _ = true |- _ => pose proof (X f I) as Y end. bool_prop.
  split; [done|]. rewrite !andb_true_iff; split_and!; auto.
Qed.

Lemma readable_ok v : readable v = true -> value_ok v = true.
Proof. unfold readable. intros R. by bool_prop. Qed.

Lemma parse_dump v : readable v = true -> reads_back v.
Proof.
  induction v as [|b|n|d|s|l IH|fs IH] using value_ind'; intros R.
  1-4: intros [|m] r L T; [lia|]; pose proof (dump_head _ (readable_ok _ R)) as Hd; cbn [scalar] in Hd;
    pose proof (scalar_reads _ r R eq_refl T) as Sc;
    match goal with |- parse _ (dump ?v ++ _) = _ => destruct (dump v) as [|c t]; [done|] end;
    destruct (token_not_ws c Hd) as (_ & E1 & E2 & E3 & _); cbn [app] in *; cbn; by rewrite E1, E2, E3.
  - intros [|m] r L T; [lia|]. apply readable_ok in R. cbn. rewrite <- app_assoc. cbn [app]. by rewrite scan_dump_str.
  - intros [|m] r L T; [lia|]. apply readable_arr in R. cbn [dump app] in L |- *. rewrite <- app_assoc in L |- *. cbn [app] in L |- *.
    assert (Rb : Forall reads_back l) by (rewrite Forall_forall in IH, R |- *; auto).
    assert (Ok : Forall (fun v => value_ok v = true) l) by (eapply Forall_impl; [exact R|]; intros; by apply readable_ok).
    clear IH R. destruct l as [|x l]; [done|]. rewrite join_comma, <- app_assoc in L |- *.
    apply Forall_cons in Rb as [Rx Rb]. apply Forall_cons in Ok as [Ox Ok].
    cbn -[flat_map]. fold parse_elements.
    destruct (dump_head_ws x (flat_map (fun y => 44 :: dump y) l ++ 93 :: r) Ox) as (c & t & E & W & N & _).
    pose proof (elements_read l Ok Rb x m r Ox Rx) as El. rewrite E in L, El |- *. rewrite skip_ws_stay by done.
    rewrite (proj2 (Z.eqb_neq _ _) N), El; [done|]. cbn [length] in L |- *. lia.
  - intros [|m] r L T; [lia|]. apply readable_obj in R as (R & K & Di). cbn [dump app] in L |- *. rewrite <- app_assoc in L |- *. cbn [app] in L |- *.
    assert (Rb : Forall (fun f => reads_back f.2) fs).
    { rewrite Forall_forall in IH, R |- *. intros f I. apply IH; [done|]. by apply R. }
    assert (Ok : Forall (fun f => str_ok f.1 = true /\ value_ok f.2 = true) fs).
    { eapply Forall_impl; [exact R|]. intros f [? ?]. split; [done|by apply readable_ok]. }
    clear IH R. change (map (fun f => dump_str f.1 ++ 58 :: dump f.2) fs) with (map member fs) in L |- *.
    assert (Mk : make_object keys_ok fs r = Some (VObj fs, r)).
    { unfold make_object. by rewrite K, dict_of_distinct. }
    destruct fs as [|x fs]; [exact Mk|]. rewrite join_comma, <- app_assoc in L |- *.
    apply Forall_cons in Rb as [Rx Rb]. apply Forall_cons in Ok as [[Ox1 Ox2] Ok].
    cbn -[flat_map make_object]. fold parse_members.
    pose proof (members_read fs Ok Rb x m r Ox1 Ox2 Rx) as El.
    assert (Hm : exists t, member x ++ flat_map (fun y => 44 :: member y) fs ++ 125 :: r = 34 :: t) by (unfold member, dump_str; eauto).
    destruct Hm as [t E]. rewrite E in L, El |- *. rewrite skip_ws_stay by done. cbn [Z.eqb Pos.eqb]. rewrite El; [done|].
    cbn [length] in L |- *. lia.
Qed.

Lemma loads_dump v : readable v = true -> loads float_of keys_ok (dump v) = Some v.
Proof.
  intros R. unfold loads. destruct (dump_head_ws v [] (readable_ok v R)) as (c & t & E & W & _). rewrite app_nil_r in E.
  assert (Sk : skip_ws (dump v) = dump v) by (rewrite E; by apply skip_ws_stay). rewrite Sk.
  pose proof (parse_dump v R (fuel_for (dump v)) []) as P. rewrite app_nil_r in P. rewrite P; [done|unfold fuel_for; lia|done].
Qed.

End RoundTrip.

Lemma any_objects v : objects_ok (fun _ => true) v = true.
Proof.
  induction v as [|b|n|d|s|l IH|fs IH] using value_ind'; try done; cbn [objects_ok]; rewrite ?andb_true_iff, ?forallb_all; done.
Qed.

(** ** What is printed is printable ASCII *)

Section Printable.
Context `{PyFloat}.

Notation printable t := (Forall (fun c => 32 <= c < 127) t).

Lemma esc1_printable u : 0 <= u < 65536 -> printable (esc1 u).
Proof.
  intros U. unfold esc1. assert (Hx : forall n, 0 <= n < 16 -> 32 <= hex_digit n < 127) by (intros n N; unfold hex_digit; destruct (n <? 10) eqn:E; bool_prop; lia).
  repeat (match goal with |- context [if ?b then _ else _] => destruct b eqn:? end; bool_prop; [repeat (apply Forall_cons; split; [lia|]); by apply Forall_nil|]).
  unfold hex4. repeat (apply Forall_cons; split; [lia || (apply Hx, Z.mod_pos_bound; lia)|]). by apply Forall_nil.
Qed.

Lemma dump_str_printable s : str_ok s = true -> printable (dump_str s).
Proof.
  intros O. unfold dump_str. apply Forall_cons. split; [lia|]. apply Forall_app. split; [|by repeat constructor].
  pose proof (units_bounds s O) as B. induction B as [|u us U _ IH]; simpl; [by apply Forall_nil|]. apply Forall_app. split; [by apply esc1_printable|done].
Qed.

Lemma token_printable t : forallb is_token t = true -> printable t.
Proof.
  rewrite forallb_all. intros F. eapply Forall_impl; [exact F|]. intros c C. unfold is_token, is_alnum, is_upper, is_lower, is_num in C. lia.
Qed.

Lemma join_printable ts : Forall (fun t => printable t) ts -> printable (join [44] ts).
Proof.
  intros F. induction F as [|t ts T F IH]; [by apply Forall_nil|]. simpl. destruct ts as [|u ts]; [done|].
  apply Forall_app. split; [done|]. apply Forall_cons. split; [lia|done].
Qed.

Lemma dump_printable v : value_ok v = true -> printable (dump v).
Proof.
  induction v as [|b|n|d|s|l IH|fs IH] using value_ind'; intros O; cbn [value_ok] in O.
  1-4: apply token_printable, scalar_token; done.
  - by apply dump_str_printable.
  - cbn [dump]. apply Forall_cons. split; [lia|]. apply Forall_app. split; [|by repeat constructor]. apply join_printable.
    rewrite forallb_all in O. rewrite Forall_fmap. rewrite Forall_forall in *. intros v I. apply IH; auto.
  - cbn [dump]. apply Forall_cons. split; [lia|]. apply Forall_app. split; [|by repeat constructor]. apply join_printable. bool_prop.
    rewrite forallb_all in *. rewrite Forall_fmap. rewrite Forall_forall in *. intros f I. specialize (IH f I).
    match goal with X : forall x, _ -> _ && _ = true |- _ => specialize (X f I) end. bool_prop.
    apply Forall_app. split; [by apply dump_str_printable|]. apply Forall_cons. split; [lia|auto].
Qed.
End Printable.

(** ** A printer and a reader of doubles that satisfy the class *)

Module LiteralFloat.

Definition print (d : double) : text := (if neg d then [45] else []) ++ dump_int (mant d) ++ 101 :: dump_int (expo d).

Definition signed (t : text) : Z :=
  match t with 45 :: r => - digits_value r | _ => digits_value t end.

Definition read (t : text) : option double :=
  let '(sg, t1) := match t with 45 :: r => (true, r) | _ => (false, t) end in
  '(ip, r) ← int_part t1;
  match r with 101 :: r1 => Some (Double sg (digits_value ip) (signed r1)) | _ => None end.

Lemma double_mant d : double_ok d = true -> 0 <= mant d.
Proof. unfold double_ok. destruct (mant d =? 0) eqn:E; bool_prop; intros; bool_prop; lia. Qed.

Lemma dump_nonneg n : 0 <= n -> int_literal (dump_int n) /\ digits_value (dump_int n) = n.
Proof.
  intros N. destruct (dump_int_literal n) as (sg & ip & E & _ & Sg & Ip & V & _).
  rewrite (proj2 (Z.ltb_ge _ _) N) in Sg. subst sg. cbn in E, V. by rewrite E.
Qed.

Lemma signed_dump n : signed (dump_int n) = n.
Proof.
  destruct (dump_int_literal n) as (sg & ip & -> & [->| ->] & _ & Ip & V & _); [|exact V]. cbn [app] in *. cbn in V.
  destruct Ip as [->|(c & ds & -> & Nc & _)]; [exact V|]. unfold signed.
  assert (c <> 45) by (intros ->; done). repeat (case_match; subst; try done).
Qed.

Lemma read_print d : double_ok d = true -> read (print d) = Some d.
Proof.
  intros O. pose proof (double_mant d O) as M. destruct (dump_nonneg (mant d) M) as [Ip V]. unfold read, print.
  assert (E : match (if neg d then [45] else []) ++ dump_int (mant d) ++ 101 :: dump_int (expo d) with
              | 45 :: r => (true, r) | _ => (false, (if neg d then [45] else []) ++ dump_int (mant d) ++ 101 :: dump_int (expo d)) end
              = (neg d, dump_int (mant d) ++ 101 :: dump_int (expo d))).
  { destruct (neg d); [done|]. destruct Ip as [->|(c & ds & -> & Nc & _)]; [done|]. cbn [app].
    assert (c <> 45) by (intros ->; done). repeat (case_match; subst; try done). }
  rewrite E. rewrite int_part_literal by done. cbn [mbind option_bind]. rewrite V, signed_dump. by destruct d.
Qed.

Lemma print_head d : double_ok d = true -> exists c t, print d = c :: t /\ (c = 45 \/ is_num c = true).
Proof.
  intros O. destruct (dump_nonneg (mant d) (double_mant d O)) as [Ip _]. unfold print. destruct (neg d); [cbn; eauto|].
  destruct Ip as [->|(c & ds & -> & Nc & _)]; cbn; eauto.
Qed.

#[local] Obligation Tactic := idtac.
#[export] Program Instance literal_float : PyFloat := {| frepr := print |}.
Next Obligation.
  intros d d' O O' E. apply (f_equal read) in E. rewrite !read_print in E by done. congruence.
Qed.
Next Obligation.
  intros d _. unfold print. rewrite !forallb_app. cbn [forallb].
  rewrite (int_like_token _ (dump_int_like (mant d))), (int_like_token _ (dump_int_like (expo d))). by destruct (neg d).
Qed.
Next Obligation.
  intros d O. split.
  - unfold print, int_like. rewrite !forallb_app. cbn. by rewrite !andb_false_r.
  - destruct (print_head d O) as (c & t & -> & C). intros I.
    repeat (apply elem_of_cons in I as [I|I]; [injection I as -> _; by destruct C|]). by apply elem_of_nil in I.
Qed.

#[export] Program Instance literal_json_float : JsonFloat := {| float_of := read |}.
Next Obligation. intros d O. by apply read_print. Qed.
Next Obligation.
  intros d O. destruct (dump_nonneg (mant d) (double_mant d O)) as [Ip _].
  destruct (dump_int_literal (expo d)) as (sg & ip & E & Sg & _ & Ie & _).
  exists (if neg d then [45] else []), (dump_int (mant d)), [], (101 :: sg ++ ip). cbn [frepr literal_float app].
  split_and!; [unfold print; by rewrite E|destruct (neg d); auto|done|by left| |by right].
  right. exists 101, sg, ip. split_and!; [done|by left| | |].
  - destruct Sg as [->| ->]; in_list.
  - by destruct Ie as [->|(c & ds & -> & _)].
  - destruct Ie as [->|(c & ds & -> & Nc & _ & D)]; by repeat constructor.
Qed.

End LiteralFloat.
