(* ===== verification/IpAddress.v ===== *)
(** * IP addresses: what the code uses of Python's [ipaddress] and [socket]

    [ipaddress.ip_address] on text, [str] of an address, membership in a network, the properties
    [is_loopback], [is_link_local], [is_private], [is_reserved], [is_multicast] and [is_unspecified] with the
    tables of Python 3.12 (the version both images ship), and [socket.inet_aton] as the C library reads it.
    The clients are the SSRF classifier ([Ssrf]), the HTTP rate limit ([RateLimit]) and the sidecar
    ([Sidecar]).  Text is code points; non-ASCII decimal digits, which [int] reads too, are not digits here. *)

From S2P Require Import Prelude.
From S2P Require Import Text.
From S2P Require Import Json.
From S2P Require Import JsonParse.

(** An IPv4 address, or an IPv6 address with the zone written after [%]. *)
Inductive ip : Type :=
  | V4 (n : Z)
  | V6 (n : Z) (scope : option text).

#[export] Instance ip_eq_dec : EqDecision ip.
Proof. solve_decision. Defined.

Definition all_num (t : text) : bool := negb (bool_decide (t = [])) && forallb is_num t.

(** ** Reading *)

(** [IPv4Address._parse_octet]. *)
Definition parse_octet (t : text) : option Z :=
  if negb (all_num t) || (3 <? length t)%nat then None
  else if negb (bool_decide (t = [48])) && bool_decide (head t = Some 48) then None
  else if 255 <? digits_value t then None
  else Some (digits_value t).

(** [IPv4Address._ip_int_from_string]. *)
Definition v4_of (t : text) : option Z :=
  match split_on 46 t with
  | [a; b; c; d] =>
      a ← parse_octet a; b ← parse_octet b; c ← parse_octet c; d ← parse_octet d;
      Some (((a * 256 + b) * 256 + c) * 256 + d)
  | _ => None
  end.

(** [int(t, 16)] of hexadecimal digits. *)
Fixpoint hex_num (acc : Z) (t : text) : option Z :=
  match t with
  | [] => Some acc
  | c :: t' => d ← hex_value c; hex_num (acc * 16 + d) t'
  end.
Definition parse_hextet (t : text) : option Z :=
  if bool_decide (t = []) || (4 <? length t)%nat then None else hex_num 0 t.

Fixpoint hextets (acc : Z) (ps : list text) : option Z :=
  match ps with
  | [] => Some acc
  | p :: ps' => h ← parse_hextet p; hextets (acc * 65536 + h) ps'
  end.

(** [%x] of a number below 65536. *)
Definition hex_text (n : Z) : text :=
  map hex_digit (if n <? 16 then [n] else if n <? 256 then [n / 16; n mod 16]
                 else if n <? 4096 then [n / 256; n / 16 mod 16; n mod 16]
                 else [n / 4096; n / 256 mod 16; n / 16 mod 16; n mod 16]).

(** A dotted quad in the last part becomes two hextets. *)
Definition expand_quad (ps : list text) : option (list text) :=
  match last ps with
  | Some p =>
      if bool_decide (46 ∈ p) then
        n ← v4_of p; Some (take (length ps - 1) ps ++ [hex_text (n / 65536); hex_text (n mod 65536)])
      else Some ps
  | None => Some ps
  end.

(** The positions, first and last excluded, of empty parts. *)
Definition skips (ps : list text) : list nat :=
  filter (fun i => ps !! i = Some []) (seq 1 (length ps - 2)).

(** The address of its parts, the dotted quad being expanded. *)
Definition v6_parts (ps : list text) : option Z :=
  if (9 <? length ps)%nat then None
  else
    let first := bool_decide (head ps = Some []) in
    let lst := bool_decide (last ps = Some []) in
    match skips ps with
    | _ :: _ :: _ => None
    | [i] =>
        let hi := if first then (i - 1)%nat else i in
        let lo := (length ps - i - 1 - (if lst then 1 else 0))%nat in
        if (first && negb (hi =? 0)%nat) || (lst && negb (lo =? 0)%nat) then None
        else if (8 <? hi + lo + 1)%nat then None
        else
          h ← hextets 0 (take hi ps);
          hextets (h * 65536 ^ Z.of_nat (8 - (hi + lo))) (drop (length ps - lo) ps)
    | [] =>
        if negb (length ps =? 8)%nat || first || lst then None
        else hextets 0 ps
    end.

(** [IPv6Address._ip_int_from_string]. *)
Definition v6_of (t : text) : option Z :=
  let ps := split_on 58 t in
  if (length ps <? 3)%nat then None else ps ← expand_quad ps; v6_parts ps.

(** [IPv6Address._split_scope_id]. *)
Definition split_scope (t : text) : option (text * option text) :=
  match split_on 37 t with
  | [a] => Some (a, None)
  | [a; s] => if bool_decide (s = []) then None else Some (a, Some s)
  | _ => None
  end.

(** [ipaddress.ip_address]; [None]: [ValueError]. *)
Definition ip_address (t : text) : option ip :=
  match v4_of t with
  | Some n => Some (V4 n)
  | None =>
      if bool_decide (47 ∈ t) then None
      else '(a, scope) ← split_scope t; n ← v6_of a; Some (V6 n scope)
  end.

(** ** Printing *)

Definition v4_text (n : Z) : text :=
  join [46] (map dump_int [n / 16777216 mod 256; n / 65536 mod 256; n / 256 mod 256; n mod 256]).

Definition groups (n : Z) : list Z :=
  map (fun i => n / 65536 ^ Z.of_nat i mod 65536) [7; 6; 5; 4; 3; 2; 1; 0]%nat.

(** [_compress_hextets]: the first longest run of zeros, as its start and length. *)
Fixpoint zero_runs (i : nat) (run : nat) (best : nat * nat) (gs : list Z) : nat * nat :=
  match gs with
  | [] => best
  | g :: gs' =>
      if g =? 0 then
        let run := S run in
        zero_runs (S i) run (if (best.2 <? run)%nat then ((i + 1 - run)%nat, run) else best) gs'
      else zero_runs (S i) O best gs'
  end.

Definition v6_text (n : Z) : text :=
  let gs := groups n in
  let '(start, len) := zero_runs 0 0 (0, 0)%nat gs in
  if (1 <? len)%nat then
    join [58] (map hex_text (take start gs)) ++ [58; 58] ++ join [58] (map hex_text (drop (start + len) gs))
  else join [58] (map hex_text gs).

(** [str(ip)]. *)
Definition ip_text (a : ip) : text :=
  match a with
  | V4 n => v4_text n
  | V6 n None => v6_text n
  | V6 n (Some s) => v6_text n ++ 37 :: s
  end.

(** ** Networks and properties *)

(** [addr in net], for a base address, a prefix length and the width of the family. *)
Definition in_net (width : Z) (net : Z * Z) (n : Z) : bool :=
  n / 2 ^ (width - net.2) =? net.1 / 2 ^ (width - net.2).

Definition quad (a b c d : Z) : Z := ((a * 256 + b) * 256 + c) * 256 + d.
Definition six (a b c d e f g h : Z) : Z :=
  foldl (fun n x => n * 65536 + x) 0 [a; b; c; d; e; f; g; h].

Definition v4_private : list (Z * Z) :=
  [(quad 0 0 0 0, 8); (quad 10 0 0 0, 8); (quad 127 0 0 0, 8); (quad 169 254 0 0, 16); (quad 172 16 0 0, 12);
   (quad 192 0 0 0, 24); (quad 192 0 0 170, 31); (quad 192 0 2 0, 24); (quad 192 168 0 0, 16); (quad 198 18 0 0, 15);
   (quad 198 51 100 0, 24); (quad 203 0 113 0, 24); (quad 240 0 0 0, 4); (quad 255 255 255 255, 32)].
Definition v4_private_except : list (Z * Z) := [(quad 192 0 0 9, 32); (quad 192 0 0 10, 32)].

Definition v6_private : list (Z * Z) :=
  [(1, 128); (0, 128); (six 0 0 0 0 0 65535 0 0, 96); (six 0x64 0xff9b 1 0 0 0 0 0, 48); (six 0x100 0 0 0 0 0 0 0, 64);
   (six 0x2001 0 0 0 0 0 0 0, 23); (six 0x2001 0xdb8 0 0 0 0 0 0, 32); (six 0x2002 0 0 0 0 0 0 0, 16);
   (six 0x3fff 0 0 0 0 0 0 0, 20); (six 0xfc00 0 0 0 0 0 0 0, 7); (six 0xfe80 0 0 0 0 0 0 0, 10)].
Definition v6_private_except : list (Z * Z) :=
  [(six 0x2001 1 0 0 0 0 0 1, 128); (six 0x2001 1 0 0 0 0 0 2, 128); (six 0x2001 3 0 0 0 0 0 0, 32);
   (six 0x2001 4 0x112 0 0 0 0 0, 48); (six 0x2001 0x20 0 0 0 0 0 0, 28); (six 0x2001 0x30 0 0 0 0 0 0, 28)].
Definition v6_reserved : list (Z * Z) :=
  [(0, 8); (six 0x100 0 0 0 0 0 0 0, 8); (six 0x200 0 0 0 0 0 0 0, 7); (six 0x400 0 0 0 0 0 0 0, 6);
   (six 0x800 0 0 0 0 0 0 0, 5); (six 0x1000 0 0 0 0 0 0 0, 4); (six 0x4000 0 0 0 0 0 0 0, 3);
   (six 0x6000 0 0 0 0 0 0 0, 3); (six 0x8000 0 0 0 0 0 0 0, 3); (six 0xa000 0 0 0 0 0 0 0, 3);
   (six 0xc000 0 0 0 0 0 0 0, 3); (six 0xe000 0 0 0 0 0 0 0, 4); (six 0xf000 0 0 0 0 0 0 0, 5);
   (six 0xf800 0 0 0 0 0 0 0, 6); (six 0xfe00 0 0 0 0 0 0 0, 9)].

Definition in_nets (width : Z) (nets : list (Z * Z)) (n : Z) : bool := existsb (fun net => in_net width net n) nets.

(** [ipv4_mapped]. *)
Definition ipv4_mapped (a : ip) : option Z :=
  match a with V6 n _ => if n / 4294967296 =? 65535 then Some (n mod 4294967296) else None | V4 _ => None end.

Definition v4_is_private (n : Z) : bool := in_nets 32 v4_private n && negb (in_nets 32 v4_private_except n).

Definition is_private (a : ip) : bool :=
  match a with
  | V4 n => v4_is_private n
  | V6 n _ => match ipv4_mapped a with
              | Some m => v4_is_private m
              | None => in_nets 128 v6_private n && negb (in_nets 128 v6_private_except n)
              end
  end.
Definition is_loopback (a : ip) : bool :=
  match a with V4 n => in_net 32 (quad 127 0 0 0, 8) n | V6 n _ => n =? 1 end.
Definition is_link_local (a : ip) : bool :=
  match a with V4 n => in_net 32 (quad 169 254 0 0, 16) n | V6 n _ => in_net 128 (six 0xfe80 0 0 0 0 0 0 0, 10) n end.
Definition is_reserved (a : ip) : bool :=
  match a with V4 n => in_net 32 (quad 240 0 0 0, 4) n | V6 n _ => in_nets 128 v6_reserved n end.
Definition is_multicast (a : ip) : bool :=
  match a with V4 n => in_net 32 (quad 224 0 0 0, 4) n | V6 n _ => in_net 128 (six 0xff00 0 0 0 0 0 0 0, 8) n end.
Definition is_unspecified (a : ip) : bool := match a with V4 n | V6 n _ => n =? 0 end.

(** ** [socket.inet_aton], as the C library reads it *)

(** One number: [0x] and hexadecimal digits, [0] and octal digits, or decimal digits, with what follows. *)
Definition is_oct (c : Z) : bool := (48 <=? c) && (c <=? 55).
Definition is_hex (c : Z) : bool := bool_decide (is_Some (hex_value c)).
Definition hex_value' (c : Z) : Z := default 0 (hex_value c).
Definition base_value (base : Z) (t : text) : Z := foldl (fun n c => n * base + hex_value' c) 0 t.

Definition c_number (t : text) : option (Z * text) :=
  match t with
  | 48 :: x :: t' =>
      if ((x =? 120) || (x =? 88)) && match t' with c :: _ => is_hex c | [] => false end
      then Some (base_value 16 (take_while is_hex t'), drop_while is_hex t')
      else Some (base_value 8 (take_while is_oct t), drop_while is_oct t)
  | c :: _ =>
      if is_num c then
        if c =? 48 then Some (base_value 8 (take_while is_oct t), drop_while is_oct t)
        else Some (base_value 10 (take_while is_num t), drop_while is_num t)
      else None
  | [] => None
  end.

Definition c_space (c : Z) : bool := (c =? 32) || ((9 <=? c) && (c <=? 13)).

(** The bytes read so far, and how many more may come. *)
Fixpoint aton (left : nat) (acc : Z) (t : text) : option Z :=
  '(v, r) ← c_number t;
  if 4294967295 <? v then None
  else match r, left with
  | 46 :: r', S left' => if 255 <? v then None else aton left' (acc * 256 + v) r'
  | _, _ =>
      if match r with [] => true | c :: _ => c_space c end && (v <? 256 ^ Z.of_nat (S left))
      then Some (acc * 256 ^ Z.of_nat (S left) + v) else None
  end.
Definition inet_aton (t : text) : option Z := aton 3 0 t.

(** ** Lemmas *)

Lemma in_net_range width base len n :
  0 <= len <= width ->
  in_net width (base, len) n = true <->
  base / 2 ^ (width - len) * 2 ^ (width - len) <= n < (base / 2 ^ (width - len) + 1) * 2 ^ (width - len).
Proof.
  intros L. unfold in_net. simpl. rewrite Z.eqb_eq.
  assert (P : 0 < 2 ^ (width - len)) by (apply Z.pow_pos_nonneg; lia).
  generalize dependent (2 ^ (width - len)). intros k K. split.
  - intros E. rewrite <- E. pose proof (Z.div_mod n k). pose proof (Z.mod_pos_bound n k K). nia.
  - intros [A B]. symmetry. apply (Z.div_unique_pos n k _ (n - k * (base / k))); nia.
Qed.

Lemma in_nets_elem width net nets n : net ∈ nets -> in_net width net n = true -> in_nets width nets n = true.
Proof.
  intros E I. unfold in_nets. apply existsb_exists. exists net. split; [|done]. by apply list_elem_of_In.
Qed.
