(* ===== verification/Ssrf.v ===== *)
(** * Where a call or a request goes: the two SSRF guards

    [engine/ssrf.py] classifies a destination host of a tool call as cloud metadata, loopback or private, in
    any spelling the C resolver accepts; the class is a fact that the baseline policy reads.
    [fleet/ssrf_guard.py] and [fleet/pinned_transport.py] check a URL the hub dials on a spoke's word and pin
    the connection to an address that was checked.  Name resolution is an input. *)

From stdpp Require Import sorting.
From S2P Require Import Prelude.
From S2P Require Import Text.
From S2P Require Import Json.
From S2P Require Import JsonParse.
From S2P Require Import IpAddress.

(** ** [engine/ssrf.py] *)

Definition METADATA_HOSTS : list text :=
  map points ["metadata.google.internal"; "metadata.goog"; "instance-data"; "metadata.azure.com";
              "metadata.packet.net"; "metadata.platformequinix.com"].
Definition METADATA_ADDRS : list text :=
  map points ["169.254.169.254"; "169.254.170.2"; "100.100.100.200"; "fd00:ec2::254"].

(** [int(t, base)] of what follows a prefix: digits, with single underscores between them. *)
Fixpoint under_num (digit : Z -> option Z) (base : Z) (fresh : bool) (acc : Z) (t : text) : option Z :=
  match t with
  | [] => if fresh then None else Some acc
  | c :: t' =>
      if c =? 95 then if fresh then None else under_num digit base true acc t'
      else d ← digit c; under_num digit base false (acc * base + d) t'
  end.
Definition oct_value (c : Z) : option Z := if is_oct c then Some (c - 48) else None.

(** [int(h, 16)] for [h] with its [0x]: one underscore may follow the prefix. *)
Definition int16 (t : text) : option Z :=
  under_num hex_value 16 true 0 (match drop 2 t with 95 :: t' => t' | t' => t' end).

(** The explicit conversions of [_as_ip]; [Some (-1)] for neither spelling, [None]: [ValueError]. *)
Definition numeric (h : text) : option Z :=
  if tstarts (points "0x") h || tstarts (points "0X") h then int16 h
  else if tstarts (points "0o") h || (bool_decide (head h = Some 48) && (1 <? length h)%nat && all_num (drop 1 h)) then
    let o := drop_while (fun c => c =? 48) h in
    if bool_decide (o = []) then Some 0 else under_num oct_value 8 true 0 o
  else if all_num h then Some (digits_value h)
  else Some (-1).

(** [h.rstrip(".")]. *)
Definition rstrip_dots (h : text) : text := reverse (drop_while (fun c => c =? 46) (reverse h)).

(** [_as_ip]. *)
Definition as_ip (host : text) : option ip :=
  let h := rstrip_dots (strip_of (fun c => (c =? 91) || (c =? 93)) (tstrip host)) in
  if bool_decide (h = []) then None
  else match ip_address h with
  | Some a => Some a
  | None =>
      match numeric h with
      | Some v => if (0 <=? v) && (v <=? 4294967295) then Some (V4 v) else V4 <$> inet_aton h
      | None => V4 <$> inet_aton h
      end
  end.

Inductive host_class := Metadata | Loopback | Private.
#[export] Instance host_class_eq_dec : EqDecision host_class.
Proof. solve_decision. Defined.

(** The part of [classify_host] on a parsed address. *)
Definition classify_ip (a : ip) : option host_class :=
  let a := match ipv4_mapped a with Some m => V4 m | None => a end in
  if bool_decide (ip_text a ∈ METADATA_ADDRS) then Some Metadata
  else if is_loopback a then Some Loopback
  else if is_link_local a then Some Metadata
  else if is_private a || is_reserved a || is_unspecified a then Some Private
  else None.

(** [classify_host]. *)
Definition classify_host (host : text) : option host_class :=
  if bool_decide (host = []) then None
  else
    let h := rstrip_dots (lower (tstrip host)) in
    if bool_decide (h ∈ METADATA_HOSTS) || existsb (fun m => tends (46 :: m) h) METADATA_HOSTS then Some Metadata
    else if bool_decide (h = points "localhost") || tends (points ".localhost") h
            || bool_decide (h = points "localhost.localdomain") then Some Loopback
    else a ← as_ip h; classify_ip a.

Definition class_text (k : host_class) : text :=
  points (match k with Metadata => "metadata" | Loopback => "loopback" | Private => "private" end).

(** [classify_hosts]: the groups by class name, each sorted and without repetition. *)
Definition classify_hosts (hosts : list text) : list (text * list text) :=
  let group k := merge_sort text_le (remove_dups (filter (fun h => classify_host h = Some k) hosts)) in
  filter (fun g => g.2 <> []) (map (fun k => (class_text k, group k)) [Loopback; Metadata; Private]).

(** ** [fleet/ssrf_guard.py] *)

(** [_is_blocked_ip]. *)
Definition is_blocked_ip (a : ip) : bool :=
  is_loopback a || is_link_local a || is_private a || is_unspecified a || is_multicast a || is_reserved a.

(** [t.rpartition(sep)[2]]. *)
Definition after_last (sep : Z) (t : text) : text := default [] (last (split_on sep t)).

Definition is_alpha (c : Z) : bool := is_upper c || is_lower c.
Definition scheme_char (c : Z) : bool := is_alnum c || (c =? 43) || (c =? 45) || (c =? 46).
Definition is_ascii (t : text) : bool := forallb (fun c => c <? 128) t.

(** [_check_bracketed_host]: [v<hex>.<rest>] or an IPv6 address. *)
Definition bracketed_host_ok (h : text) : bool :=
  match h with
  | 118 :: h' =>
      match partition 46 h' with
      | (v, Some ((_ :: _) as r)) => negb (bool_decide (v = [])) && forallb is_hex v && negb (bool_decide (10 ∈ r))
      | _ => false
      end
  | _ => match ip_address h with Some (V6 _ _) => true | _ => false end
  end.

(** [_hostinfo]: the host part of a network location, with the text around the brackets if there are any. *)
Definition hostinfo (netloc : text) : text * option (text * text) :=
  let hp := after_last 64 netloc in
  match partition 91 hp with
  | (before, Some bracketed) =>
      let '(h, port) := partition 93 bracketed in (h, Some (before, default [] port))
  | (_, None) => ((partition 58 hp).1, None)
  end.

(** The checks [urlsplit] makes on a network location; [nfkc] is [unicodedata.normalize("NFKC", _)]. *)
Definition netloc_ok (nfkc : text -> text) (netloc : text) : bool :=
  let has c := bool_decide (c ∈ netloc) in
  (if has 91 || has 93 then
     has 91 && has 93
     && match hostinfo netloc with
        | (h, Some (before, port)) =>
            bool_decide (before = []) && (bool_decide (port = []) || bool_decide (head port = Some 58))
            && bracketed_host_ok h
        | (h, None) => bracketed_host_ok h
        end
   else true)
  && (is_ascii netloc
      || let n := filter (fun c => c ∉ points "@:#?") netloc in
         bool_decide (nfkc n = n) || forallb (fun c => negb (bool_decide (c ∈ points "/?#@:"))) (nfkc n)).

Record split_url := SplitUrl { u_scheme : text; u_hostname : option text }.

(** [urlsplit]: the scheme and the host name; [None]: [ValueError]. *)
Definition urlsplit (nfkc : text -> text) (url : text) : option split_url :=
  let url := filter (fun c => c ∉ [9; 10; 13]) (drop_while (fun c => c <=? 32) url) in
  let '(scheme, rest) :=
    match partition 58 url with
    | ((c :: _) as s, Some r) => if is_alpha c && forallb scheme_char s then (lower s, r) else ([], url)
    | _ => ([], url)
    end in
  if tstarts (points "//") rest then
    let netloc := take_while (fun c => negb ((c =? 47) || (c =? 63) || (c =? 35))) (drop 2 rest) in
    if netloc_ok nfkc netloc then
      let '(h, zone) := partition 37 (hostinfo netloc).1 in
      let h := lower h ++ match zone with Some z => 37 :: z | None => [] end in
      Some (SplitUrl scheme (if bool_decide (h = []) then None else Some h))
    else None
  else Some (SplitUrl scheme None).

(** [socket.getaddrinfo]. *)
Inductive resolution :=
  | Addresses (l : list text)
  | NoName            (* [socket.gaierror] *)
  | ResolverRaises.   (* another exception, such as [UnicodeError] *)

(** The two ways a check fails: with [SSRFBlockedError], or with an exception of the library. *)
Inductive refusal := Blocked | Raises.

Section Guard.
Context (nfkc : text -> text) (resolve : text -> resolution).

(** The loop over the resolved addresses. *)
Fixpoint validate (validated addrs : list text) : refusal + list text :=
  match addrs with
  | [] => inr validated
  | raw :: rest =>
      match ip_address raw with
      | None => inl Blocked
      | Some a =>
          if is_blocked_ip a then inl Blocked
          else validate (if bool_decide (raw ∈ validated) then validated else validated ++ [raw]) rest
      end
  end.

(** [assert_safe_url]. *)
Definition assert_safe_url (url : text) : refusal + list text :=
  match urlsplit nfkc (tstrip url) with
  | None => inl Raises
  | Some u =>
      let scheme := lower (u_scheme u) in
      if negb (bool_decide (scheme = points "http") || bool_decide (scheme = points "https")) then inl Blocked
      else match u_hostname u with
      | None | Some [] => inl Blocked
      | Some host =>
          match resolve host with
          | NoName => inl Blocked
          | ResolverRaises => inl Raises
          | Addresses [] => inl Blocked
          | Addresses l => validate [] l
          end
      end
  end.

(** [is_safe_url]; [None]: it raises. *)
Definition is_safe_url (url : text) : option bool :=
  match assert_safe_url url with inr _ => Some true | inl Blocked => Some false | inl Raises => None end.

(** [resolve_and_pin]: the address the transport dials. *)
Definition resolve_and_pin (url : text) : refusal + text :=
  match assert_safe_url url with
  | inl e => inl e
  | inr [] => inl Blocked
  | inr (pinned :: _) =>
      match ip_address pinned with
      | None => inl Blocked
      | Some a => if is_blocked_ip a then inl Blocked else inr pinned
      end
  end.

End Guard.

(** ** Spellings of an address *)

(** The last [k] digits of a number in a base, and their characters. *)
Fixpoint digits_of (base : Z) (k : nat) (n : Z) : list Z :=
  match k with O => [] | S k' => digits_of base k' (n / base) ++ [n mod base] end.
Definition fixed (base : Z) (k : nat) (n : Z) : text := map hex_digit (digits_of base k n).

(** The spellings of an IPv4 address that the module's header lists. *)
Definition spellings (n : Z) : list text :=
  [v4_text n;                                     (* 127.0.0.1 *)
   dump_int n;                                    (* 2130706433 *)
   points "0x" ++ fixed 16 8 n;                   (* 0x7f000001 *)
   48 :: fixed 8 11 n;                            (* 017700000001 *)
   points "[::ffff:" ++ v4_text n ++ points "]"]. (* [::ffff:127.0.0.1] *)

Lemma digits_of_bounds base k n : 0 < base -> Forall (fun d => 0 <= d < base) (digits_of base k n).
Proof.
  intros B. revert n. induction k as [|k IH]; intros n; [constructor|]. cbn [digits_of].
  apply Forall_app. split; [apply IH|]. constructor; [|constructor]. by apply Z.mod_pos_bound.
Qed.

Lemma digits_of_value base k n :
  0 < base -> 0 <= n < base ^ Z.of_nat k -> foldl (fun a d => a * base + d) 0 (digits_of base k n) = n.
Proof.
  intros B. revert n. induction k as [|k IH]; intros n R; [cbn in *; lia|]. cbn [digits_of].
  rewrite foldl_app. cbn [foldl]. rewrite IH.
  - rewrite Z.mul_comm. symmetry. apply Z.div_mod. lia.
  - rewrite Nat2Z.inj_succ, Z.pow_succ_r in R by lia. split; [apply Z.div_pos; lia|].
    apply Z.div_lt_upper_bound; lia.
Qed.

(** Reading printed digits, with any decoder that reads each of them. *)
Lemma under_num_digits digit base acc ds :
  Forall (fun d => digit (hex_digit d) = Some d /\ hex_digit d <> 95) ds -> ds <> [] ->
  under_num digit base true acc (map hex_digit ds) = Some (foldl (fun a d => a * base + d) acc ds).
Proof.
  intros F N. assert (G : forall b acc ds, (b = true -> ds <> []) ->
    Forall (fun d => digit (hex_digit d) = Some d /\ hex_digit d <> 95) ds ->
    under_num digit base b acc (map hex_digit ds) = Some (foldl (fun a d => a * base + d) acc ds)).
  { clear. intros b acc ds. revert b acc. induction ds as [|d ds IH]; intros b acc N F.
    - destruct b; [by destruct (N eq_refl)|done].
    - apply Forall_cons in F as [[D N95] F]. cbn. rewrite (proj2 (Z.eqb_neq _ _) N95), D. cbn. by apply IH. }
  by apply G.
Qed.

(** The characters of the spellings: none is white space, a capital, or the [t] of every name in the tables. *)
Definition plain (c : Z) : bool := is_num c || ((97 <=? c) && (c <=? 102)) || (c =? 120) || (c =? 46) || (c =? 58) || (c =? 91) || (c =? 93).

Lemma plain_range c : plain c = true -> 46 <= c <= 120 /\ is_upper c = false /\ is_white c = false /\ c <> 116.
Proof.
  unfold plain, is_num, is_upper, is_white. rewrite !orb_true_iff, !andb_true_iff, !Z.leb_le, !Z.eqb_eq. intros H.
  repeat split; try lia.
Qed.

Lemma lower_plain t : Forall (fun c => plain c = true) t -> lower t = t.
Proof.
  induction 1 as [|c t P _ IH]; [done|]. change (lower (c :: t)) with (lower1 c ++ lower t). rewrite IH.
  apply plain_range in P as (? & U & _ & _).
  unfold lower1. rewrite U. by rewrite (proj2 (Z.eqb_neq c 8490)), (proj2 (Z.eqb_neq c 304)) by lia.
Qed.

Lemma drop_while_id p t : (forall c, head t = Some c -> p c = false) -> drop_while p t = t.
Proof. intros H. apply drop_while_stop. destruct t; [done|]. by apply H. Qed.

Lemma strip_id p t : (forall c, head t = Some c \/ last t = Some c -> p c = false) -> strip_of p t = t.
Proof.
  intros H. unfold strip_of. rewrite (drop_while_id p t) by auto.
  rewrite drop_while_id; [by rewrite reverse_involutive|]. intros c E. rewrite head_reverse in E. auto.
Qed.

Lemma tstrip_plain t : Forall (fun c => plain c = true) t -> tstrip t = t.
Proof.
  intros F. apply strip_id. intros c [E|E]; apply plain_range; rewrite Forall_forall in F; apply F.
  - destruct t; [done|]. injection E as ->. by left.
  - apply last_Some_elem_of in E. done.
Qed.

Lemma rstrip_dots_id t : last t <> Some 46 -> rstrip_dots t = t.
Proof.
  intros L. unfold rstrip_dots. rewrite drop_while_id; [by rewrite reverse_involutive|].
  intros c E. rewrite head_reverse in E. apply Z.eqb_neq. by intros ->.
Qed.

Lemma tends_elem s t c : tends s t = true -> c ∈ s -> c ∈ t.
Proof.
  unfold tends. intros [r E]%tstarts_iff I. rewrite <- elem_of_reverse, E. apply elem_of_app. left. by rewrite elem_of_reverse.
Qed.

(** No name of the tables is spelled without a [t]. *)
Lemma not_named t : 116 ∉ t ->
  bool_decide (t ∈ METADATA_HOSTS) || existsb (fun m => tends (46 :: m) t) METADATA_HOSTS = false /\
  bool_decide (t = points "localhost") || tends (points ".localhost") t
    || bool_decide (t = points "localhost.localdomain") = false.
Proof.
  intros N. assert (T : forall m, m ∈ METADATA_HOSTS -> 116 ∈ m).
  { apply Forall_forall, (bool_decide_eq_true_1 _). by vm_compute. }
  split; rewrite !orb_false_iff.
  - split; [apply bool_decide_eq_false; intros I; by apply N, T|].
    apply not_true_is_false. intros (m & I & E)%existsb_exists. apply list_elem_of_In in I.
    apply N, (tends_elem _ _ _ E). right. by apply T.
  - repeat split.
    + apply bool_decide_eq_false. intros ->. apply N, (bool_decide_eq_true_1 _). by vm_compute.
    + apply not_true_is_false. intros E. apply N, (tends_elem _ _ _ E), (bool_decide_eq_true_1 _). by vm_compute.
    + apply bool_decide_eq_false. intros ->. apply N, (bool_decide_eq_true_1 _). by vm_compute.
Qed.

Lemma classify_plain t :
  t <> [] -> Forall (fun c => plain c = true) t -> last t <> Some 46 ->
  classify_host t = (a ← as_ip t; classify_ip a).
Proof.
  intros N F L. unfold classify_host. rewrite bool_decide_eq_false_2 by done.
  rewrite tstrip_plain, lower_plain, rstrip_dots_id by done.
  destruct (not_named t) as [-> ->]; [|done]. intros I. rewrite Forall_forall in F. apply F, plain_range in I as (_ & _ & _ & ?). done.
Qed.

(** The brackets and white space that [as_ip] removes again. *)
Lemma as_ip_plain t :
  t <> [] -> Forall (fun c => plain c = true) t -> (forall c, head t = Some c \/ last t = Some c -> c <> 91 /\ c <> 93 /\ c <> 46) ->
  as_ip t = match ip_address t with
            | Some a => Some a
            | None => match numeric t with
                      | Some v => if (0 <=? v) && (v <=? 4294967295) then Some (V4 v) else V4 <$> inet_aton t
                      | None => V4 <$> inet_aton t
                      end
            end.
Proof.
  intros N F H. unfold as_ip. rewrite tstrip_plain by done. rewrite strip_id.
  - rewrite rstrip_dots_id; [by rewrite bool_decide_eq_false_2 by done|]. intros L. by destruct (H 46 (or_intror L)) as (_ & _ & ?).
  - intros c Hc. destruct (H c Hc) as (? & ? & _). apply orb_false_iff. by rewrite !Z.eqb_neq.
Qed.

(** A text without a point and without a colon is no address of [ipaddress]. *)
Lemma not_an_address t : 46 ∉ t -> 58 ∉ t -> 37 ∉ t -> ip_address t = None.
Proof.
  intros A B C. unfold ip_address, v4_of. rewrite split_on_fresh by done. case_bool_decide; [done|].
  unfold split_scope. rewrite split_on_fresh by done. cbn. unfold v6_of. by rewrite split_on_fresh.
Qed.

(** ** Each spelling is read as the address *)

Lemma hex_digit_plain d : 0 <= d < 16 -> plain (hex_digit d) = true /\ hex_digit d <> 46 /\ hex_digit d <> 58 /\
  hex_digit d <> 37 /\ hex_digit d <> 95 /\ hex_digit d <> 91 /\ hex_digit d <> 93.
Proof.
  intros B. unfold plain, is_num, hex_digit. destruct (d <? 10) eqn:E; bool_prop; repeat split; try lia.
Qed.

Lemma fixed_chars base k n c : 0 < base <= 16 -> c ∈ fixed base k n -> exists d, c = hex_digit d /\ 0 <= d < base.
Proof.
  intros B (d & -> & I)%list_elem_of_fmap. exists d. split; [done|].
  pose proof (digits_of_bounds base k n ltac:(lia)) as F. rewrite Forall_forall in F. by apply F.
Qed.

Lemma fixed_length base k n : length (fixed base k n) = k.
Proof.
  unfold fixed. rewrite length_map. revert n. induction k as [|k IH]; intros n; [done|]. cbn [digits_of].
  rewrite length_app, IH. cbn. lia.
Qed.

Lemma octet_reads k : 0 <= k < 256 -> parse_octet (dump_int k) = Some k.
Proof.
  intros B. assert (F : Forall (fun k => parse_octet (dump_int k) = Some k) (seqZ 0 256)).
  { apply (bool_decide_eq_true_1 _). by vm_compute. }
  rewrite Forall_forall in F. apply F, elem_of_seqZ. lia.
Qed.

Lemma dump_digits k : 0 <= k -> Forall (fun c => is_num c = true) (dump_int k).
Proof.
  intros N. destruct (LiteralFloat.dump_nonneg k N) as [[->|(c & ds & -> & Nc & _ & D)] _]; repeat constructor; done.
Qed.

Lemma digits_free sep k : 0 <= k -> is_num sep = false -> sep ∉ dump_int k.
Proof. intros N H I. pose proof (dump_digits k N) as D. rewrite Forall_forall in D. apply D in I. congruence. Qed.

Lemma v4_reads n : 0 <= n < 2 ^ 32 -> v4_of (v4_text n) = Some n.
Proof.
  intros B. unfold v4_of, v4_text. cbn [map join].
  assert (M : forall k, 0 <= k mod 256 < 256) by (intros k; by apply Z.mod_pos_bound).
  assert (F : forall k, 46 ∉ dump_int (k mod 256)) by (intros k; apply digits_free; [apply M|done]).
  cbn [app]. rewrite !split_on_app by apply F. rewrite split_on_fresh by apply F.
  rewrite !octet_reads by apply M. cbn. f_equal.
  rewrite (Z.mod_small (n / 16777216) 256) by (split; [apply Z.div_pos|apply Z.div_lt_upper_bound]; lia).
  clear M F. Z.to_euclidean_division_equations. lia.
Qed.

Lemma v4_text_chars n : Forall (fun c => is_num c = true \/ c = 46) (v4_text n) /\ v4_text n <> [] /\
  (exists c, last (v4_text n) = Some c /\ is_num c = true) /\ (exists c, head (v4_text n) = Some c /\ is_num c = true).
Proof.
  assert (M : forall k, 0 <= k mod 256) by (intros k; by apply Z.mod_pos_bound).
  assert (D : forall k, Forall (fun c => is_num c = true \/ c = 46) (dump_int (k mod 256))).
  { intros k. eapply Forall_impl; [by apply dump_digits, M|]. intros c ?. by left. }
  assert (H : forall k, exists c ds, dump_int (k mod 256) = c :: ds /\ is_num c = true).
  { intros k. pose proof (dump_digits _ (M k)) as F.
    destruct (LiteralFloat.dump_nonneg _ (M k)) as [[->|(c & ds & -> & Nc & _)] _]; eauto. }
  unfold v4_text. cbn [map join]. repeat split.
  - repeat (apply Forall_app; split; [apply D|]; apply Forall_cons; split; [by right|]). apply D.
  - destruct (H (n / 16777216)) as (c & ds & -> & _). done.
  - destruct (H n) as (c & ds & E & _). pose proof (dump_digits _ (M n)) as F.
    rewrite !app_assoc, last_app. rewrite E in *. destruct (last (c :: ds)) as [d|] eqn:L.
    + exists d. split; [done|]. apply last_Some_elem_of in L. rewrite Forall_forall in F. by apply F.
    + by rewrite last_None in L.
  - destruct (H (n / 16777216)) as (c & ds & -> & ?). by exists c.
Qed.

Lemma num_plain c : is_num c = true \/ c = 46 -> plain c = true /\ c <> 91 /\ c <> 93 /\ c <> 58 /\ c <> 37.
Proof. unfold plain, is_num. intros [H| ->]; bool_prop; repeat split; lia. Qed.

(** A spelling is usable where its characters are plain and its ends are digits. *)
Definition neat (t : text) : Prop :=
  t <> [] /\ Forall (fun c => plain c = true) t /\ forall c, head t = Some c \/ last t = Some c -> c <> 91 /\ c <> 93 /\ c <> 46.

Lemma neat_classify t a : neat t -> as_ip t = Some a -> classify_host t = classify_ip a.
Proof.
  intros (N & F & H) E. rewrite classify_plain, E; [done|done|done|]. intros L. by destruct (H 46 (or_intror L)) as (_ & _ & ?).
Qed.

Lemma neat_digits t : t <> [] -> (forall c, c ∈ t -> exists d, c = hex_digit d /\ 0 <= d < 16) -> neat t.
Proof.
  intros N F. split; [done|]. split.
  - apply Forall_forall. intros c (d & -> & B)%F. by apply hex_digit_plain.
  - intros c Hc. assert (I : c ∈ t).
    { destruct Hc as [E|E]; [|by apply last_Some_elem_of]. destruct t; [done|]. injection E as ->. by left. }
    apply F in I as (d & -> & B). by destruct (hex_digit_plain d B) as (_ & ? & _ & _ & _ & ? & ?).
Qed.

Lemma num_hex c : is_num c = true -> exists d, c = hex_digit d /\ 0 <= d < 16.
Proof.
  unfold is_num. rewrite andb_true_iff, !Z.leb_le. intros B. exists (c - 48). unfold hex_digit.
  rewrite (proj2 (Z.ltb_lt (c - 48) 10)) by lia. lia.
Qed.

Lemma in_32 n : 0 <= n < 2 ^ 32 -> (0 <=? n) && (n <=? 4294967295) = true.
Proof. intros B. apply andb_true_iff. rewrite !Z.leb_le. lia. Qed.

Lemma decimal_reads n : 0 <= n < 2 ^ 32 -> neat (dump_int n) /\ as_ip (dump_int n) = Some (V4 n).
Proof.
  intros B. pose proof (dump_digits n ltac:(lia)) as D. destruct (LiteralFloat.dump_nonneg n ltac:(lia)) as [L V].
  assert (Ne : dump_int n <> []) by (by destruct L as [->|(c & ds & -> & _)]).
  assert (Nt : neat (dump_int n)).
  { apply neat_digits; [done|]. rewrite Forall_forall in D. intros c I. by apply num_hex, D. }
  split; [done|]. destruct Nt as (_ & F & H). rewrite as_ip_plain by done.
  rewrite not_an_address by (apply digits_free; [lia|done]).
  assert (A : all_num (dump_int n) = true).
  { unfold all_num. rewrite bool_decide_eq_false_2 by done. apply forallb_forall. intros c I%list_elem_of_In.
    rewrite Forall_forall in D. by apply D. }
  assert (Nm : numeric (dump_int n) = Some n); [|by rewrite Nm, in_32].
  unfold numeric. rewrite A, V. destruct L as [->|(c & ds & -> & Nc & N0 & Nd)]; [done|].
  rewrite (bool_decide_eq_false_2 (head (c :: ds) = Some 48)) by (intros [=]; done).
  change (points "0x") with [48; 120]. change (points "0X") with [48; 88]. change (points "0o") with [48; 111].
  cbn [tstarts]. by rewrite (proj2 (Z.eqb_neq 48 c)) by congruence.
Qed.

Lemma hex_reads n : 0 <= n < 2 ^ 32 ->
  neat (points "0x" ++ fixed 16 8 n) /\ as_ip (points "0x" ++ fixed 16 8 n) = Some (V4 n).
Proof.
  intros B. set (ds := digits_of 16 8 n). assert (Bd : Forall (fun d => 0 <= d < 16) ds) by (by apply digits_of_bounds).
  assert (Vd : foldl (fun a d => a * 16 + d) 0 ds = n) by (by apply digits_of_value).
  assert (Ln : length ds = 8%nat) by (pose proof (fixed_length 16 8 n) as L; unfold fixed in L; by rewrite length_map in L).
  change (fixed 16 8 n) with (map hex_digit ds). change (points "0x") with [48; 120]. clearbody ds.
  assert (Ch : forall c, c ∈ map hex_digit ds -> exists d, c = hex_digit d /\ 0 <= d < 16).
  { intros c (d & -> & I)%list_elem_of_fmap. rewrite Forall_forall in Bd. eauto. }
  assert (Nt : neat ([48; 120] ++ map hex_digit ds)).
  { destruct (neat_digits (map hex_digit ds)) as (_ & P & E); [by destruct ds|done|]. split; [done|]. split.
    - by repeat (apply Forall_cons; split; [done|]).
    - intros c [[= <-]|L]; [done|]. apply E. right. destruct ds; [done|]. cbn in *. exact L. }
  split; [done|]. destruct Nt as (Ne & F & H). rewrite as_ip_plain by done.
  assert (Fr : forall s, s = 46 \/ s = 58 \/ s = 37 -> s ∉ [48; 120] ++ map hex_digit ds).
  { intros s Hs I. cbn [app] in I. rewrite !elem_of_cons in I. destruct I as [->|[->|I]]; [lia|lia|].
    apply Ch in I as (d & E & Bd'). pose proof (hex_digit_plain d Bd'). naive_solver. }
  rewrite not_an_address by auto.
  assert (Nm : numeric ([48; 120] ++ map hex_digit ds) = Some n); [|by rewrite Nm, in_32].
  unfold numeric. change (tstarts (points "0x") ([48; 120] ++ map hex_digit ds)) with true. cbn [orb]. unfold int16.
  change (drop 2 ([48; 120] ++ map hex_digit ds)) with (map hex_digit ds).
  replace (match map hex_digit ds with 95 :: t' => t' | t' => t' end) with (map hex_digit ds).
  - rewrite under_num_digits; [by rewrite Vd| |by destruct ds].
    eapply Forall_impl; [exact Bd|]. intros d Hd. split; [by apply hex_value_digit|by apply hex_digit_plain].
  - destruct ds as [|d ds']; [done|]. apply Forall_cons in Bd as [Bd _].
    pose proof (hex_digit_plain d Bd) as (_ & _ & _ & _ & N95 & _). cbn [map]. repeat (case_match; try done).
Qed.

(** Leading zeros do not change an octal number. *)
Lemma drop_zeros ds : Forall (fun d => 0 <= d < 16) ds ->
  exists ds', drop_while (fun c => c =? 48) (map hex_digit ds) = map hex_digit ds' /\ ds' `suffix_of` ds /\
    foldl (fun a d => a * 8 + d) 0 ds' = foldl (fun a d => a * 8 + d) 0 ds.
Proof.
  induction 1 as [|d ds B _ (ds' & E & S & V)]; [by exists []|]. cbn. destruct (hex_digit d =? 48) eqn:Z0.
  - exists ds'. split; [done|]. split; [by apply suffix_cons_r|]. unfold hex_digit in Z0. rewrite V.
    assert (d = 0) as ->; [|done]. destruct (d <? 10) eqn:L; bool_prop; lia.
  - by exists (d :: ds).
Qed.

Lemma oct_value_digit d : 0 <= d < 8 -> oct_value (hex_digit d) = Some d.
Proof.
  intros B. unfold oct_value, is_oct, hex_digit. rewrite (proj2 (Z.ltb_lt d 10)) by lia.
  rewrite (proj2 (Z.leb_le 48 _)), (proj2 (Z.leb_le _ 55)) by lia. cbn. f_equal. lia.
Qed.

Lemma oct_digit_num d : 0 <= d < 8 -> is_num (hex_digit d) = true.
Proof.
  intros B. unfold is_num, hex_digit. rewrite (proj2 (Z.ltb_lt d 10)) by lia. apply andb_true_iff. rewrite !Z.leb_le. lia.
Qed.

Lemma oct_numeric ds : Forall (fun d => 0 <= d < 8) ds -> ds <> [] ->
  numeric (48 :: map hex_digit ds) = Some (foldl (fun a d => a * 8 + d) 0 ds).
Proof.
  intros B N. unfold numeric.
  change (points "0x") with [48; 120]. change (points "0X") with [48; 88].
  assert (T : forall x, x = 120 \/ x = 88 -> tstarts [48; x] (48 :: map hex_digit ds) = false).
  { intros x Hx. cbn [tstarts]. destruct ds as [|d ds]; [done|]. cbn [map]. apply Forall_cons in B as [B _].
    pose proof (oct_digit_num d B) as M. unfold is_num in M. bool_prop. rewrite (proj2 (Z.eqb_neq x _)) by lia. done. }
  rewrite !T by auto. cbn [orb]. change (head (48 :: map hex_digit ds)) with (Some 48). rewrite bool_decide_eq_true_2 by done.
  replace (Nat.ltb 1 (length (48%Z :: map hex_digit ds))) with true
    by (symmetry; apply Nat.ltb_lt; destruct ds; [done|cbn; lia]).
  change (drop 1 (48 :: map hex_digit ds)) with (map hex_digit ds).
  replace (all_num (map hex_digit ds)) with true.
  - rewrite orb_true_r. change (drop_while _ (48 :: map hex_digit ds)) with (drop_while (fun c => c =? 48) (map hex_digit ds)).
    destruct (drop_zeros ds) as (ds' & -> & [pre S] & V).
    { eapply Forall_impl; [exact B|]. cbn. lia. }
    rewrite <- V. case_bool_decide as E.
    + by destruct ds'.
    + rewrite under_num_digits; [done| |by intros ->]. subst ds. apply Forall_app in B as [_ B].
      eapply Forall_impl; [exact B|]. cbn. intros d Bd. split; [by apply oct_value_digit|apply hex_digit_plain; lia].
  - symmetry. unfold all_num. rewrite bool_decide_eq_false_2 by (by destruct ds). apply forallb_forall.
    intros c I. apply list_elem_of_In, list_elem_of_fmap in I as (d & -> & I). rewrite Forall_forall in B. by apply oct_digit_num, B.
Qed.

Lemma octal_reads n : 0 <= n < 2 ^ 32 -> neat (48 :: fixed 8 11 n) /\ as_ip (48 :: fixed 8 11 n) = Some (V4 n).
Proof.
  intros B. pose proof (digits_of_bounds 8 11 n ltac:(lia)) as Bd.
  assert (Vd : foldl (fun a d => a * 8 + d) 0 (digits_of 8 11 n) = n) by (apply digits_of_value; lia).
  assert (Ch : forall c, c ∈ 48 :: fixed 8 11 n -> exists d, c = hex_digit d /\ 0 <= d < 16).
  { intros c [->|I]%elem_of_cons; [by exists 0|]. apply fixed_chars in I as (d & -> & ?); [|lia]. exists d. split; [done|lia]. }
  pose proof (neat_digits (48 :: fixed 8 11 n) ltac:(done) Ch) as Nt. split; [done|]. destruct Nt as (Ne & F & H).
  rewrite as_ip_plain by done. rewrite not_an_address by
    (intros I; apply Ch in I as (d & E & Bd'); pose proof (hex_digit_plain d Bd'); naive_solver).
  unfold fixed. rewrite oct_numeric, Vd, in_32; [done|done|done|]. intros E. apply (f_equal length) in E.
  pose proof (fixed_length 8 11 n) as L. unfold fixed in L. rewrite length_map in L. by rewrite E in L.
Qed.

Lemma dotted_reads n : 0 <= n < 2 ^ 32 -> neat (v4_text n) /\ as_ip (v4_text n) = Some (V4 n).
Proof.
  intros B. destruct (v4_text_chars n) as (F & Ne & (l & L & Nl) & (h & H & Nh)).
  assert (Nt : neat (v4_text n)).
  { split; [done|]. split; [eapply Forall_impl; [exact F|]; intros c ?; by apply num_plain|].
    rewrite L, H. intros c [[= <-]|[= <-]].
    - unfold is_num in Nh. bool_prop. lia.
    - unfold is_num in Nl. bool_prop. lia. }
  split; [done|]. destruct Nt as (_ & P & E). rewrite as_ip_plain by done. unfold ip_address. by rewrite v4_reads.
Qed.

Lemma hextet_reads k : 0 <= k < 65536 -> parse_hextet (hex_text k) = Some k /\ 46 ∉ hex_text k /\ hex_text k <> [].
Proof.
  intros B. unfold hex_text.
  assert (D : forall ds, Forall (fun d => 0 <= d < 16) ds ->
    forall acc, hex_num acc (map hex_digit ds) = Some (foldl (fun a d => a * 16 + d) acc ds)).
  { induction 1 as [|d ds Bd _ IH]; intros acc; [done|]. cbn [map hex_num]. rewrite hex_value_digit by done. cbn. apply IH. }
  assert (P : forall ds, Forall (fun d => 0 <= d < 16) ds -> ds <> [] -> (length ds <= 4)%nat ->
    foldl (fun a d => a * 16 + d) 0 ds = k ->
    parse_hextet (map hex_digit ds) = Some k /\ 46 ∉ map hex_digit ds /\ map hex_digit ds <> []).
  { intros ds F N L V. unfold parse_hextet. rewrite bool_decide_eq_false_2 by (by destruct ds).
    rewrite length_map. rewrite (proj2 (Nat.ltb_ge 4 (length ds))) by done. cbn [orb]. rewrite D, V by done.
    split; [done|]. split; [|by destruct ds]. intros (d & E & I)%list_elem_of_fmap. rewrite Forall_forall in F.
    by destruct (hex_digit_plain d (F d I)) as (_ & ? & _). }
  assert (M : forall x, 0 <= x mod 16 < 16) by (intros x; by apply Z.mod_pos_bound).
  repeat case_match; bool_prop; apply P; try done; try (cbn; lia); repeat constructor;
    try apply M; try lia; try (apply Z.div_pos; lia); try (apply Z.div_lt_upper_bound; lia);
    clear M P D; cbn [foldl]; Z.to_euclidean_division_equations; lia.
Qed.

Lemma mapped_parts n : 0 <= n < 2 ^ 32 ->
  v6_parts [[]; []; points "ffff"; hex_text (n / 65536); hex_text (n mod 65536)] = Some (65535 * 4294967296 + n).
Proof.
  intros B. destruct (hextet_reads (n / 65536)) as (P1 & _ & N1). { split; [apply Z.div_pos|apply Z.div_lt_upper_bound]; lia. }
  destruct (hextet_reads (n mod 65536)) as (P2 & _ & N2). { by apply Z.mod_pos_bound. }
  pose proof (Z.div_mod n 65536 ltac:(done)) as D.
  generalize dependent (hex_text (n / 65536)). generalize dependent (hex_text (n mod 65536)). intros y P2 N2 x P1 N1.
  assert (Sk : skips [[]; []; points "ffff"; x; y] = [1%nat]).
  { unfold skips. cbn [length Nat.sub seq]. rewrite filter_cons_True by done.
    rewrite filter_cons_False by done. rewrite filter_cons_False; [done|]. cbn. by intros [= ?]. }
  unfold v6_parts. rewrite Sk. cbn [length Nat.ltb Nat.leb head last].
  rewrite (bool_decide_eq_true_2 (Some [] = Some [])), (bool_decide_eq_false_2 (Some y = Some [])) by (done || by intros [= ?]).
  cbn [Nat.sub Nat.eqb negb andb orb Nat.add Nat.ltb Nat.leb take drop hextets mbind option_bind].
  rewrite P1, P2. change (parse_hextet (points "ffff")) with (Some 65535). cbn [mbind option_bind]. f_equal. lia.
Qed.

Lemma mapped_address n : 0 <= n < 2 ^ 32 ->
  ip_address (points "::ffff:" ++ v4_text n) = Some (V6 (65535 * 4294967296 + n) None).
Proof.
  intros B. destruct (v4_text_chars n) as (F & Ne & (l & L & Nl) & _). rewrite Forall_forall in F.
  assert (Fr : forall s, s ∈ v4_text n -> s <> 58 /\ s <> 37 /\ s <> 47).
  { intros s I. pose proof (num_plain s (F s I)). destruct (F s I) as [K| ->]; [|done]. unfold is_num in K. bool_prop. lia. }
  set (t := v4_text n) in *.
  assert (S : split_on 58 (points "::ffff:" ++ t) = [[]; []; points "ffff"; t]).
  { change (points "::ffff:" ++ t) with ([] ++ 58 :: [] ++ 58 :: [102; 102; 102; 102] ++ 58 :: t).
    assert (Nf : 58 ∉ [102; 102; 102; 102]) by (apply (bool_decide_eq_true_1 _); by vm_compute).
    rewrite !split_on_app by (done || apply not_elem_of_nil).
    rewrite split_on_fresh; [done|]. intros I. by apply Fr in I as []. }
  assert (V4n : v4_of (points "::ffff:" ++ t) = None).
  { unfold v4_of. destruct (split_on 46 (points "::ffff:" ++ t)) as [|a ws] eqn:E; [done|].
    assert (A : parse_octet a = None).
    { change (points "::ffff:" ++ t) with (58 :: [58; 102; 102; 102; 102; 58] ++ t) in E. cbn [split_on] in E.
      rewrite (proj2 (Z.eqb_neq 58 46)) in E by done. destruct (split_on 46 _); injection E as <- _; done. }
    do 4 (destruct ws as [|? ws]; [try done; try (by rewrite A)|]); done. }
  unfold ip_address. rewrite V4n.
  assert (N47 : 47 ∉ points "::ffff:" ++ t).
  { intros [I|I]%elem_of_app; [|by apply Fr in I as (_ & _ & ?)]. revert I. apply (bool_decide_eq_true_1 _). by vm_compute. }
  assert (N37 : 37 ∉ points "::ffff:" ++ t).
  { intros [I|I]%elem_of_app; [|by apply Fr in I as (_ & ? & _)]. revert I. apply (bool_decide_eq_true_1 _). by vm_compute. }
  rewrite bool_decide_eq_false_2 by done. unfold split_scope. rewrite split_on_fresh by done. cbn [mbind option_bind].
  assert (V : v6_of (points "::ffff:" ++ t) = Some (65535 * 4294967296 + n)); [|by rewrite V].
  assert (Hd : 46 ∈ t). { unfold t, v4_text. cbn [map join]. apply elem_of_app. right. by left. }
  unfold v6_of. rewrite S. cbn [length Nat.ltb Nat.leb].
  assert (E : expand_quad [[]; []; points "ffff"; t]
              = Some [[]; []; points "ffff"; hex_text (n / 65536); hex_text (n mod 65536)]).
  { unfold expand_quad. cbn [last]. rewrite bool_decide_eq_true_2 by done. by rewrite (v4_reads n B : v4_of t = Some n). }
  rewrite E. cbn [mbind option_bind]. apply mapped_parts. lia.
Qed.

(** ** The classifier *)

(** Every spelling of an IPv4 address the resolver accepts gets the class of the address: dotted, decimal,
    hexadecimal, octal, and mapped into IPv6. *)
Theorem spellings_agree n t : 0 <= n < 2 ^ 32 -> t ∈ spellings n -> classify_host t = classify_ip (V4 n).
Proof.
  intros B. unfold spellings. rewrite !elem_of_cons. intros [->|[->|[->|[->|[->|I]]]]].
  - destruct (dotted_reads n B). by apply neat_classify.
  - destruct (decimal_reads n B). by apply neat_classify.
  - destruct (hex_reads n B). by apply neat_classify.
  - destruct (octal_reads n B). by apply neat_classify.
  - destruct (v4_text_chars n) as (F & Ne & (l & L & Nl) & _).
    assert (P : Forall (fun c => plain c = true) (points "[::ffff:" ++ v4_text n ++ points "]")).
    { repeat (apply Forall_cons; split; [done|]). apply Forall_app. split; [|by repeat constructor].
      eapply Forall_impl; [exact F|]. intros c ?. by apply num_plain. }
    rewrite classify_plain; [|done|done|rewrite app_assoc, last_app; done].
    unfold as_ip. rewrite tstrip_plain by done.
    assert (S : strip_of (fun c => (c =? 91) || (c =? 93)) (points "[::ffff:" ++ v4_text n ++ points "]")
                = points "::ffff:" ++ v4_text n).
    { change (points "[::ffff:" ++ v4_text n ++ points "]") with ([91] ++ (points "::ffff:" ++ v4_text n) ++ [93]).
      apply strip_pad; [by repeat constructor..|]. apply strip_id. intros c [[= <-]|H]; [done|].
      rewrite last_app, L in H. injection H as <-. unfold is_num in Nl. bool_prop. apply orb_false_iff. rewrite !Z.eqb_neq. lia. }
    rewrite S, rstrip_dots_id by (rewrite last_app, L; intros [= ->]; done).
    rewrite bool_decide_eq_false_2 by done. rewrite mapped_address by done. cbn [mbind option_bind].
    unfold classify_ip at 1. unfold ipv4_mapped.
    rewrite Z.div_add_l, (Z.div_small n), Z.add_0_r, Z.eqb_refl by lia.
    rewrite Z.add_comm, Z.mod_add, Z.mod_small by lia. done.
  - by apply elem_of_nil in I.
Qed.

Lemma spellings_agree_witness :
  0 <= quad 127 0 0 1 < 2 ^ 32 /\ spellings (quad 127 0 0 1) !! 3%nat = Some (points "017700000001") /\
  classify_host (points "017700000001") = Some Loopback.
Proof.
  split; [done|]. split; [by vm_compute|].
  rewrite (spellings_agree (quad 127 0 0 1) (points "017700000001")); [by vm_compute|done|].
  apply (bool_decide_eq_true_1 _). by vm_compute.
Defined.

(** ** The guard of the fleet's outbound requests *)

(** What the guard promises of a dialled address, by ranges: no loopback, link-local (the metadata service
    included), RFC 1918, "this network", multicast or reserved IPv4 address; no loopback, unspecified,
    link-local, unique-local or multicast IPv6 address, and no IPv6 spelling of such an IPv4 address. *)
Definition v4_public (n : Z) : Prop :=
  ~ quad 0 0 0 0 <= n < quad 1 0 0 0 /\ ~ quad 10 0 0 0 <= n < quad 11 0 0 0 /\
  ~ quad 127 0 0 0 <= n < quad 128 0 0 0 /\ ~ quad 169 254 0 0 <= n < quad 169 255 0 0 /\
  ~ quad 172 16 0 0 <= n < quad 172 32 0 0 /\ ~ quad 192 168 0 0 <= n < quad 192 169 0 0 /\
  ~ quad 224 0 0 0 <= n <= quad 255 255 255 255.
Definition public (a : ip) : Prop :=
  match a with
  | V4 n => v4_public n
  | V6 n _ =>
      n <> 0 /\ n <> 1 /\ ~ six 0xfe80 0 0 0 0 0 0 0 <= n < six 0xfec0 0 0 0 0 0 0 0 /\
      ~ six 0xfc00 0 0 0 0 0 0 0 <= n < six 0xfe00 0 0 0 0 0 0 0 /\
      ~ six 0xff00 0 0 0 0 0 0 0 <= n < 2 ^ 128 /\
      ~ six 0 0 0 0 0 65535 0 0 <= n < six 0 0 0 0 0 65536 0 0
  end.

(** A number in a range lies in the network of that range. *)
Lemma range_in_net width base len n lo hi :
  0 <= len <= width -> lo = base / 2 ^ (width - len) * 2 ^ (width - len) ->
  hi = (base / 2 ^ (width - len) + 1) * 2 ^ (width - len) -> lo <= n < hi -> in_net width (base, len) n = true.
Proof. intros L -> -> R. by apply in_net_range. Qed.

Ltac by_range := eapply range_in_net; [lia|by vm_compute|by vm_compute|].

Lemma private_range base len n lo hi :
  0 <= len <= 32 -> (base, len) ∈ v4_private -> lo = base / 2 ^ (32 - len) * 2 ^ (32 - len) ->
  hi = (base / 2 ^ (32 - len) + 1) * 2 ^ (32 - len) -> v4_is_private n = false ->
  in_nets 32 v4_private_except n = false -> ~ lo <= n < hi.
Proof.
  intros L I -> -> P X R. unfold v4_is_private in P. rewrite X in P. cbn [negb] in P. rewrite andb_true_r in P.
  rewrite (in_nets_elem 32 (base, len) v4_private n I) in P; [done|]. by apply in_net_range.
Qed.

Lemma excepted n : in_nets 32 v4_private_except n = true -> n = quad 192 0 0 9 \/ n = quad 192 0 0 10.
Proof.
  unfold in_nets. cbn [existsb v4_private_except]. rewrite !orb_true_iff, !in_net_range by lia.
  change (2 ^ (32 - 32)) with 1. rewrite !Z.div_1_r, !Z.mul_1_r. intros [R|[R|R]]; [left; lia|right; lia|done].
Qed.

Lemma unblocked_v4 n : is_blocked_ip (V4 n) = false -> v4_public n.
Proof.
  unfold is_blocked_ip, is_loopback, is_link_local, is_private, is_multicast, is_reserved.
  rewrite !orb_false_iff. intros (((((_ & _) & P) & _) & Mc) & Rs).
  destruct (in_nets 32 v4_private_except n) eqn:X.
  - apply excepted in X as [->| ->]; unfold v4_public; by vm_compute; repeat split; intros [? ?].
  - assert (K : forall base len lo hi, 0 <= len <= 32 -> bool_decide ((base, len) ∈ v4_private) = true ->
      lo = base / 2 ^ (32 - len) * 2 ^ (32 - len) -> hi = (base / 2 ^ (32 - len) + 1) * 2 ^ (32 - len) -> ~ lo <= n < hi).
    { intros base len lo hi L I%bool_decide_eq_true E1 E2. by eapply private_range. }
    assert (G : forall a b c d len lo hi, lo = quad a b c d -> 0 <= len <= 32 ->
      bool_decide ((quad a b c d, len) ∈ v4_private) = true -> bool_decide (quad a b c d mod 2 ^ (32 - len) = 0) = true ->
      hi = quad a b c d + 2 ^ (32 - len) -> ~ lo <= n < hi).
    { intros a b c d len lo hi -> L I E%bool_decide_eq_true ->. apply (K (quad a b c d) len); [done|done| |];
        pose proof (Z.div_mod (quad a b c d) (2 ^ (32 - len)) ltac:(lia)); lia. }
    split; [by apply (G 0 0 0 0 8)|]. split; [by apply (G 10 0 0 0 8)|]. split; [by apply (G 127 0 0 0 8)|].
    split; [by apply (G 169 254 0 0 16)|]. split; [by apply (G 172 16 0 0 12)|]. split; [by apply (G 192 168 0 0 16)|].
    intros R. assert (in_net 32 (quad 224 0 0 0, 4) n = true \/ in_net 32 (quad 240 0 0 0, 4) n = true) as [H|H];
      [|congruence|congruence].
    destruct (decide (n < quad 240 0 0 0)); [left|right]; by_range; [|]; unfold quad in *; lia.
Qed.

(** The networks of a list end below a bound. *)
Lemma in_nets_below width nets bound n :
  Forall (fun net => 0 <= net.2 <= width /\ (net.1 / 2 ^ (width - net.2) + 1) * 2 ^ (width - net.2) <= bound) nets ->
  in_nets width nets n = true -> n < bound.
Proof.
  intros F I. unfold in_nets in I. apply existsb_exists in I as ([b l] & I%list_elem_of_In & R).
  rewrite Forall_forall in F. destruct (F _ I) as [L B]. apply in_net_range in R; [|done]. cbn in *. lia.
Qed.

Lemma unblocked_public a : is_blocked_ip a = false -> public a.
Proof.
  destruct a as [n|n sc]; [apply unblocked_v4|].
  unfold is_blocked_ip, is_loopback, is_link_local, is_unspecified, is_multicast, is_reserved.
  rewrite !orb_false_iff, !Z.eqb_neq. intros (((((L1 & Ll) & P) & L0) & Mc) & Rs).
  unfold public. split; [done|]. split; [done|]. split; [|split; [|split]].
  - intros R. enough (in_net 128 (six 0xfe80 0 0 0 0 0 0 0, 10) n = true) by congruence. by_range. exact R.
  - intros R. unfold is_private in P. assert (M : ipv4_mapped (V6 n sc) = None).
    { unfold ipv4_mapped. destruct (n / 4294967296 =? 65535) eqn:E; [|done]. exfalso. bool_prop.
      pose proof (Z.div_mod n 4294967296 ltac:(done)). pose proof (Z.mod_pos_bound n 4294967296 ltac:(done)).
      assert (65536 * 4294967296 <= six 0xfc00 0 0 0 0 0 0 0) by (by vm_compute). lia. }
    rewrite M, (in_nets_elem 128 (six 0xfc00 0 0 0 0 0 0 0, 7)) in P;
      [|apply (bool_decide_eq_true_1 _); by vm_compute|by_range; exact R].
    cbn [andb] in P. apply negb_false_iff, (in_nets_below _ _ (six 0x2002 0 0 0 0 0 0 0)) in P.
    + assert (six 0x2002 0 0 0 0 0 0 0 <= six 0xfc00 0 0 0 0 0 0 0) by (by vm_compute). lia.
    + apply (bool_decide_eq_true_1 _). by vm_compute.
  - intros R. enough (in_net 128 (six 0xff00 0 0 0 0 0 0 0, 8) n = true) by congruence. by_range. exact R.
  - intros R. enough (in_nets 128 v6_reserved n = true) by congruence.
    apply (in_nets_elem 128 (0, 8)); [apply (bool_decide_eq_true_1 _); by vm_compute|].
    apply (range_in_net 128 0 8 n 0 (2 ^ 120)); [lia|by vm_compute|by vm_compute|].
    assert (0 <= six 0 0 0 0 0 65535 0 0) by (by vm_compute). assert (six 0 0 0 0 0 65536 0 0 <= 2 ^ 120) by (by vm_compute). lia.
Qed.

Section Dialled.
Context (nfkc : text -> text) (resolve : text -> resolution).

Definition unblocked (raw : text) : Prop := exists a, ip_address raw = Some a /\ is_blocked_ip a = false.

Lemma validate_all validated addrs l :
  validate validated addrs = inr l -> Forall unblocked validated ->
  Forall unblocked addrs /\ Forall unblocked l /\ (forall raw, raw ∈ l <-> raw ∈ validated \/ raw ∈ addrs) /\
  exists more, l = validated ++ more.
Proof.
  revert validated. induction addrs as [|raw addrs IH]; intros validated E F; cbn in E.
  - injection E as <-. split; [constructor|]. split; [done|]. split; [|exists []; by rewrite app_nil_r].
    intros r. split; [auto|]. intros [|I]; [done|by apply elem_of_nil in I].
  - destruct (ip_address raw) as [a|] eqn:A; [|done]. destruct (is_blocked_ip a) eqn:B; [done|].
    assert (U : unblocked raw) by (by exists a). case_bool_decide as K.
    + destruct (IH _ E F) as (F1 & F2 & M & more). split; [by constructor|]. split; [done|]. split; [|done].
      intros r. rewrite M, elem_of_cons. naive_solver.
    + destruct (IH _ E) as (F1 & F2 & M & more & ->).
      { apply Forall_app. split; [done|by constructor]. }
      split; [by constructor|]. split; [done|]. split.
      * intros r. rewrite M, elem_of_app, list_elem_of_singleton, elem_of_cons. naive_solver.
      * exists (raw :: more). by rewrite <- app_assoc.
Qed.

(** What the checks before resolution leave. *)
Lemma assert_safe_url_inv url l :
  assert_safe_url nfkc resolve url = inr l ->
  exists host addrs, resolve host = Addresses addrs /\ addrs <> [] /\ validate [] addrs = inr l.
Proof.
  unfold assert_safe_url. repeat (case_match; try done). intros E. eauto.
Qed.

(** The address a fleet request is dialled at is a public one, it is one the name resolved to, and every
    other address of that answer is public too: one internal address among public ones is a refusal.
    Since the transport dials this address, what the name resolves to later does not matter. *)
Theorem dialled_is_public url addr :
  resolve_and_pin nfkc resolve url = inr addr ->
  exists host addrs, resolve host = Addresses addrs /\ addr ∈ addrs /\
    forall raw, raw ∈ addrs -> exists a, ip_address raw = Some a /\ public a.
Proof.
  unfold resolve_and_pin. destruct (assert_safe_url nfkc resolve url) as [e|[|pinned l]] eqn:E; [done|done|].
  intros H. assert (pinned = addr) as -> by (repeat (case_match; try done); congruence). clear H.
  apply assert_safe_url_inv in E as (host & addrs & R & _ & V).
  apply validate_all in V as (F & _ & M & _); [|constructor]. exists host, addrs. split; [done|]. split.
  - assert (I : addr ∈ addr :: l) by (by left). apply M in I as [I|]; [by apply elem_of_nil in I|done].
  - intros raw I. rewrite Forall_forall in F. destruct (F raw I) as (a & A & B). exists a. split; [done|]. by apply unblocked_public.
Qed.
End Dialled.

Lemma dialled_is_public_witness :
  let resolve _ := Addresses [points "93.184.216.34"; points "2606:2800:21f::1"] in
  resolve_and_pin id resolve (points "https://Hub.example.com:8443/api") = inr (points "93.184.216.34") /\
  exists a, ip_address (points "2606:2800:21f::1") = Some a /\ public a.
Proof.
  intros resolve.
  assert (E : resolve_and_pin id resolve (points "https://Hub.example.com:8443/api") = inr (points "93.184.216.34"))
    by (by vm_compute).
  split; [done|]. destruct (dialled_is_public id resolve _ _ E) as (host & addrs & R & _ & P). injection R as <-.
  apply P. right. by left.
Defined.

(** Shared address space (100.64.0.0/10) passes the guard, the metadata address of the classifier's own table
    in it included: [is_private] does not hold there. *)
Theorem shared_space_dialled n :
  quad 100 64 0 0 <= n < quad 100 128 0 0 -> is_blocked_ip (V4 n) = false.
Proof.
  intros R. assert (G : forall b l, 0 <= l <= 32 -> (b / 2 ^ (32 - l) + 1) * 2 ^ (32 - l) <= quad 100 64 0 0
                                 \/ quad 100 128 0 0 <= b / 2 ^ (32 - l) * 2 ^ (32 - l) -> in_net 32 (b, l) n = false).
  { intros b l L H. apply not_true_is_false. rewrite in_net_range by done. lia. }
  assert (P : in_nets 32 v4_private n = false).
  { unfold in_nets, v4_private. cbn [existsb]. repeat (apply orb_false_iff; split; [apply G; [lia|]|]); [..|done];
      ((left; by vm_compute) || (right; by vm_compute)). }
  unfold is_blocked_ip, is_loopback, is_link_local, is_private, v4_is_private, is_unspecified, is_multicast, is_reserved.
  rewrite P, !G; [|lia|right; by vm_compute|lia|right; by vm_compute|lia|right; by vm_compute|lia|right; by vm_compute].
  cbn [andb orb]. rewrite !orb_false_r. apply Z.eqb_neq. unfold quad in R. lia.
Qed.

Lemma shared_space_dialled_witness :
  is_blocked_ip (V4 (quad 100 100 100 200)) = false /\ classify_host (points "100.100.100.200") = Some Metadata.
Proof. split; [apply shared_space_dialled; unfold quad; lia|by vm_compute]. Defined.

(** A zone makes the IPv6 metadata address another text, so it is classed as merely private. *)
Example zoned_metadata_is_private :
  classify_host (points "fd00:ec2::254") = Some Metadata /\ classify_host (points "fd00:ec2::254%1") = Some Private.
Proof. by vm_compute. Qed.

(** [is_safe_url] raises where the URL has an unclosed bracket. *)
Example is_safe_url_raises resolve : is_safe_url id resolve (points "http://[::1") = None.
Proof. by vm_compute. Qed.
