(* ===== verification/Sidecar.v ===== *)
(** * The sidecar: the enforcement point injected beside an application

    [norviq/sidecar/proxy.py] answers a request on the pod's socket with "forward" or "drop";
    [norviq/sidecar/http_fallback.py] does so over HTTP, for the pod itself and, where the operator accepts
    them, for callers outside the pod that prove who they are; [norviq/startup_retry.py] bounds the wait for
    the stores at start.  The interceptor is the one of [Interceptor], over any evaluator; authentication is
    the one of [Auth].

    A request is its decoded JSON; numbers that JSON cannot carry but Python's decoder accepts ([Infinity],
    [NaN], an exponent too large) may stand at the top level, where [call_depth] is read.  [repr] of a float
    or a container, the text of a tool name that is none, is a parameter. *)

From S2P Require Import Prelude.
From S2P Require Import Text.
From S2P Require Import Config.
From S2P Require Import Decisions.
From S2P Require Import Effects.
From S2P Require Import Interceptor.
From S2P Require Import RemoteEvaluator.
From S2P Require Import Json.
From S2P Require Import JsonParse.
From S2P Require Import Identity.
From S2P Require Import Revocation.
From S2P Require Import Auth.
From S2P Require Import IpAddress.

(** ** Requests *)

Inductive item : Type :=
  | Val (j : json)
  | Infinite (negative : bool)
  | NotANumber.

Notation body := (list (string * item)).

Definition MAX_DEPTH : Z := 1000.

(** [int(s)] of a text: white space around, a sign, decimal digits with single underscores between them. *)
Fixpoint int_digits (fresh : bool) (acc : Z) (s : text) : option Z :=
  match s with
  | [] => if fresh then None else Some acc
  | c :: s' =>
      if c =? 95 then if fresh then None else int_digits true acc s'
      else if is_num c then int_digits false (acc * 10 + (c - 48)) s' else None
  end.
Definition int_of_text (s : string) : option Z :=
  let t := tstrip (points s) in
  let '(sign, t) := match t with 45 :: t' => (-1, t') | 43 :: t' => (1, t') | _ => (1, t) end in
  if INT_MAX_STR_DIGITS <? Z.of_nat (length (filter (fun c => is_num c = true) t)) then None
  else Z.mul sign <$> int_digits true 0 t.

Inductive int_result := Int (n : Z) | BadInt (* TypeError, ValueError *) | Overflow.

(** [int(raw)]. *)
Definition int_of_item (v : item) : int_result :=
  match v with
  | Val (JInt n) => Int n
  | Val (JBool b) => Int (if b then 1 else 0)
  | Val (JFloat q) => Int (Z.quot (Qnum q) (Zpos (Qden q)))
  | Val (JStr s) => match int_of_text s with Some n => Int n | None => BadInt end
  | Val _ | NotANumber => BadInt
  | Infinite _ => Overflow
  end.

(** [_coerce_depth]; [None]: it raises. *)
Definition coerce_depth (raw : option item) : option Z :=
  match raw with
  | None | Some (Val JNull) => Some 0
  | Some v =>
      match int_of_item v with
      | Int n => Some (if n <? 0 then 0 else if MAX_DEPTH <? n then MAX_DEPTH else n)
      | BadInt => Some 0
      | Overflow => None
      end
  end.

(** What the sidecar answers. *)
Inductive Response : Type :=
  | Forward (d : PolicyDecision)
  | Drop (d : PolicyDecision)
  | DropError (error : string).

Definition respond (d : PolicyDecision) : Response := if is_allowed d then Forward d else Drop d.

Section Sidecar.
Context {S : Type} `{!SupportsEvaluate S}.
(** The pod's own identity as the resolver finds it, the id and the instant of the event, and [repr]. *)
Context (resolved : option AgentIdentity) (id : string) (instant : Z) (repr : json -> string).

(** [str(v)]. *)
Definition str_item (v : item) : string :=
  match v with
  | Val (JStr s) => s
  | Val JNull => "None"
  | Val (JBool b) => if b then "True" else "False"
  | Val (JInt n) => fmt_int n
  | Val j => repr j
  | Infinite n => if n then "-inf" else "inf"
  | NotANumber => "nan"
  end.
Definition str_field (k : string) (d : body) : string := match assoc k d with Some v => str_item v | None => "" end.

Record Sidecar := mkSidecar {
  host : Host S;
  emitted : option (list (ToolCallEvent * PolicyDecision));   (* the audit emitter, in embedded mode *)
}.

(** [_tool_params]. *)
Definition tool_params_of (d : body) : list (string * json) :=
  match assoc "tool_params" d with Some (Val (JObj fs)) => fs | _ => [] end.

(** [self._emitter.emit(event, decision)]. *)
Definition emit (ev : ToolCallEvent) (d : PolicyDecision) (s : Sidecar) : Sidecar :=
  mkSidecar (host s) (match emitted s with Some l => Some (l ++ [(ev, d)]) | None => None end).

(** [_emit_audit], its failures caught. *)
Definition emit_audit (tool : string) (params : list (string * json)) (session : string) (d : PolicyDecision) (s : Sidecar) : Sidecar :=
  match emitted s, resolved with
  | Some _, Some who =>
      match make_event id tool params who session instant "sidecar" 0 None [] "" "" "" with
      | Some ev => emit ev d s
      | None => s
      end
  | _, _ => s
  end.

(** [_process_request]; [None]: the line is no JSON object. *)
Definition process_request (raw : option body) (s : Sidecar) : Sidecar * Response :=
  let failed := DropError "request_processing_failed" in
  match raw with
  | None => (s, failed)
  | Some d =>
      let tool := str_field "tool_name" d in
      let params := tool_params_of d in
      let session := str_field "session_id" d in
      match coerce_depth (assoc "call_depth" d) with
      | None => (s, failed)
      | Some depth =>
          match intercept resolved id instant (mkCall tool params session "sidecar" depth None [] "" "" "") (host s) with
          | (h, inl _) => (mkSidecar h (emitted s), failed)
          | (h, inr d) => (emit_audit tool params session d (mkSidecar h (emitted s)), respond d)
          end
      end
  end.

(** [_handle_connection]: one line after another, until the client closes or a line is not UTF-8 ([None]). *)
Fixpoint handle_connection (lines : list (option (option body))) (s : Sidecar) : Sidecar * list Response :=
  match lines with
  | Some raw :: lines' =>
      let '(s, r) := process_request raw s in
      let '(s, rs) := handle_connection lines' s in
      (s, r :: rs)
  | _ => (s, [])
  end.

End Sidecar.
Arguments mkSidecar {S} _ _.
Arguments host {S} _.
Arguments emitted {S} _.

(** ** Over HTTP *)

(** A request: the peer's address, the authorization header, and the body, [None] if it is no JSON object;
    its [agent_identity] member, if that is an object, apart. *)
Record HttpRequest := mkHttpRequest {
  rq_peer : option text;
  rq_auth : option text;
  rq_body : option body;
  rq_identity : option (list (text * value));
}.

Inductive HttpResponse : Type :=
  | Answered (r : Response)
  | Refused (status : Z) (error : string)   (* [JSONResponse] with "drop" *)
  | ServerError.                            (* an exception that leaves the handler *)

(** [_is_loopback]. *)
Definition is_loopback_host (h : text) : bool :=
  match ip_address (partition 37 h).1 with Some a => is_loopback a | None => false end.

(** [AgentIdentity.model_validate]. *)
Definition required_str (k : string) (i : list (text * value)) : option text :=
  match field (points k) i with Some (VStr t) => Some t | _ => None end.
Definition optional_str (k : string) (i : list (text * value)) : option string :=
  match field (points k) i with Some (VStr t) => Some (unpoints t) | None => Some "" | _ => None end.
Definition validate_identity (i : list (text * value)) : option AgentIdentity :=
  sp ← required_str "spiffe_id" i; ns ← required_str "namespace" i;
  sa ← optional_str "service_account" i; cls ← optional_str "agent_class" i; fw ← optional_str "framework" i;
  pod ← optional_str "pod_name" i; cl ← optional_str "cluster_id" i; wl ← optional_str "workload" i;
  Some (mkIdentity sp (unpoints ns) sa cls fw pod cl wl).

Section HttpFallback.
Context {S : Type} `{!SupportsEvaluate S} `{JwtLibrary}.
Context (resolved : option AgentIdentity) (id : string) (instant : Z) (repr : json -> string).
Context (cfg : AuthSettings) (mappings : list (text * Mapping)) (str_of : value -> text) (sha256 : list Z -> text).
(** [sidecar_remote_callers], and whether the evaluator has a cache to check revocation with. *)
Context (remote_callers : text) (has_cache : bool).

Record HttpState := mkHttpState { sidecar : Sidecar (S := S); node : Node }.

(** The credential of an off-pod caller: [Some] where the header is a bearer token. *)
Definition bearer (auth : option text) : option text :=
  let '(scheme, rest) := partition 32 (default [] auth) in
  let token := tstrip (default [] rest) in
  if bool_decide (lower scheme = points "bearer") && negb (bool_decide (token = [])) then Some token else None.

(** [_remote_identity]. *)
Definition remote_identity (rq : HttpRequest) (n : Node) : Node * (HttpResponse + AgentIdentity) :=
  if negb (bool_decide (lower remote_callers = points "token")) then (n, inl (Refused 403 "remote_callers_not_accepted"))
  else match bearer (rq_auth rq) with
  | None => (n, inl (Refused 401 "missing_bearer_token"))
  | Some token =>
      match decode_token cfg mappings sha256 has_cache token n with
      | (n', inl _) | (n', inr None) => (n', inl (Refused 401 "invalid_token"))
      | (n', inr (Some user)) =>
          (n', match bind_caller_identity str_of cfg user (rq_identity rq) with
               | inl e => inl (Refused (code e) "identity_not_permitted")
               | inr bound =>
                   match validate_identity bound with
                   | Some who => inr who
                   | None => inl (Refused 422 "invalid_agent_identity")
                   end
               end)
      end
  end.

(** The call of the handler, under the caller's identity or the pod's own. *)
Definition http_intercept (d : body) (depth : Z) (caller : option AgentIdentity) (s : Sidecar (S := S))
    : Sidecar (S := S) * Response :=
  let failed := DropError "request_processing_failed" in
  let tool := str_field repr "tool_name" d in
  let session := str_field repr "session_id" d in
  match match assoc "tool_params" d with None => Some [] | Some (Val (JObj fs)) => Some fs | Some _ => None end with
  | None => (s, failed)
  | Some params =>
      match intercept resolved id instant (mkCall tool params session "sidecar-http" depth caller [] "" "" "") (host s) with
      | (h, inl _) => (mkSidecar h (emitted s), failed)
      | (h, inr d) =>
          let s := mkSidecar h (emitted s) in
          match who ← match caller with Some who => Some who | None => resolved end;
                make_event id tool params who session instant "sidecar-http" 0 None [] "" "" "" with
          | None => (s, failed)
          | Some ev => (emit ev d s, respond d)
          end
      end
  end.

(** [evaluate]. *)
Definition http_evaluate (rq : HttpRequest) (s : HttpState) : HttpState * HttpResponse :=
  match rq_body rq with
  | None => (s, Answered (DropError "invalid_json_body"))
  | Some d =>
      match coerce_depth (assoc "call_depth" d) with
      | None => (s, ServerError)
      | Some depth =>
          if is_loopback_host (default [] (rq_peer rq)) then
            let '(sc, r) := http_intercept d depth None (sidecar s) in (mkHttpState sc (node s), Answered r)
          else
            match remote_identity rq (node s) with
            | (n, inl r) => (mkHttpState (sidecar s) n, r)
            | (n, inr who) =>
                let '(sc, r) := http_intercept d depth (Some who) (sidecar s) in (mkHttpState sc n, Answered r)
            end
      end
  end.

(** ** Lemmas *)

Lemma remote_identity_inv rq n n' who :
  remote_identity rq n = (n', inr who) ->
  lower remote_callers = points "token" /\
  exists token user bound, bearer (rq_auth rq) = Some token /\
    decode_token cfg mappings sha256 has_cache token n = (n', inr (Some user)) /\
    bind_caller_identity str_of cfg user (rq_identity rq) = inr bound /\ validate_identity bound = Some who.
Proof.
  unfold remote_identity. destruct (decide (lower remote_callers = points "token")) as [T|T];
    [rewrite bool_decide_true by done|by rewrite bool_decide_false]. cbn [negb].
  destruct (bearer (rq_auth rq)) as [token|]; [|done].
  destruct (decode_token cfg mappings sha256 has_cache token n) as [n1 [e|[user|]]] eqn:D; try done.
  destruct (bind_caller_identity str_of cfg user (rq_identity rq)) as [e|bound] eqn:B; [done|].
  destruct (validate_identity bound) as [w|] eqn:V; [|done]. intros [= <- <-]. split; [done|]. by exists token, user, bound.
Qed.

Lemma validate_identity_fields i who : validate_identity i = Some who ->
  field (points "spiffe_id") i = Some (VStr (spiffe_id who)) /\
  exists ns, field (points "namespace") i = Some (VStr ns) /\ namespace who = unpoints ns.
Proof.
  unfold validate_identity, required_str. intros E.
  destruct (field (points "spiffe_id") i) as [[]|]; try discriminate E.
  destruct (field (points "namespace") i) as [[]|]; try discriminate E. cbn [mbind option_bind] in E.
  repeat match type of E with context [optional_str ?k i] =>
    destruct (optional_str k i); cbn [mbind option_bind] in E; [|discriminate E] end.
  injection E as <-. split; [done|]. eauto.
Qed.

Lemma http_intercept_forward d depth caller s s' dec :
  http_intercept d depth caller s = (s', Forward dec) ->
  is_allowed dec = true /\ exists params h,
    intercept resolved id instant
      (mkCall (str_field repr "tool_name" d) params (str_field repr "session_id" d) "sidecar-http" depth caller [] "" "" "")
      (host s) = (h, inr dec).
Proof.
  unfold http_intercept, respond. cbv zeta.
  match goal with |- context [match ?x with Some _ => _ | None => (s, _) end] => destruct x as [params|] end; [|done].
  destruct (intercept _ _ _ _ _) as [h [e|d0]] eqn:I; [done|].
  destruct (is_allowed d0) eqn:A; (case_match; intros E; [|discriminate E]); [|discriminate E]. injection E as <- <-. split; [done|]. by exists params, h.
Qed.

(** C15: A caller outside the pod is evaluated as itself: its call is forwarded only where the operator accepts
    such callers, for a bearer token that verifies and is not revoked, under an identity the credential
    backs (its namespace and SPIFFE id wherever it claims them), and on a decision that allows.  The body
    cannot choose another tenant's agent. *)
Theorem off_pod_caller_is_itself rq s s' dec :
  is_loopback_host (default [] (rq_peer rq)) = false -> http_evaluate rq s = (s', Answered (Forward dec)) ->
  is_allowed dec = true /\ lower remote_callers = points "token" /\
  exists token user who k h, bearer (rq_auth rq) = Some token /\
    decode_token cfg mappings sha256 has_cache token (node s) = (node s', inr (Some user)) /\
    k_identity k = Some who /\ intercept resolved id instant k (host (sidecar s)) = (h, inr dec) /\
    (is_role "admin" user = false ->
       (c_namespace user <> [] -> namespace who = unpoints (c_namespace user)) /\
       (c_spiffe_id user <> [] -> spiffe_id who = c_spiffe_id user)).
Proof.
  intros Off. unfold http_evaluate. destruct (rq_body rq) as [d|]; [|done]. destruct (coerce_depth _) as [depth|]; [|done].
  rewrite Off. destruct (remote_identity rq (node s)) as [n [r|who]] eqn:R.
  { destruct r; intros [= <- ->]. exfalso. revert R. unfold remote_identity. repeat (case_match; try done). }
  destruct (http_intercept d depth (Some who) (sidecar s)) as [sc r] eqn:I. intros [= <- ->].
  apply remote_identity_inv in R as (T & token & user & bound & Bt & D & B & V).
  apply http_intercept_forward in I as (A & params & h & I). split; [done|]. split; [done|].
  exists token, user, who. eexists _, h. split; [done|]. split; [done|]. split; [|split; [exact I|]]; [done|].
  intros Ad. destruct (bind_caller_spec str_of cfg user (rq_identity rq) bound Ad B) as (F & _ & N & _).
  apply validate_identity_fields in V as (Sp & ns & Ns & ->). split.
  - intros Nc. specialize (N Nc). unfold selected, id_get in N. rewrite Ns in N. cbn in N. by injection N as ->.
  - intros Sc. specialize (F SpiffeId Sc). unfold id_get in F. change (name_of SpiffeId) with (points "spiffe_id") in F.
    rewrite Sp in F. cbn in F. by injection F as ->.
Qed.

End HttpFallback.

(** ** The freeze reaches every request of a pod *)

From S2P Require Import World.
From S2P Require Import Evaluator.
From S2P Require Import EvaluatorProps.
From S2P Require Import Enforcement.

Definition dropped (r : Response) : Prop := match r with Forward _ => False | Drop _ | DropError _ => True end.

Section Frozen.
Context `{Externals}.
Context (who : AgentIdentity) (id : string) (instant : Z) (repr : json -> string).

(** A frozen agent's call is blocked, and what blocked it is still there. *)
Lemma wp_frozen_stays event w :
  frozen (spiffe event) w -> not_monitor (namespace (agent_identity event)) w ->
  wp (Evaluator.evaluate event) (fun d w' => decision d = Block /\ stable w w') (fun _ _ => False) w.
Proof.
  intros F N. apply wp_evaluate.
  - intros base tr p d start w' S M C D. apply wp_finish. simpl. intros ms w2 S2 _. split.
    + apply pep_block. apply (frozen_verdict event base tr p d start); auto.
    + by transitivity w'.
  - intros e start t p w' S M. rewrite apply_posture_off by auto. split; [apply failure_block|done].
Qed.

(** In embedded mode: every line a frozen agent's pod writes on a connection to its sidecar, whatever it
    holds, is answered with a drop, while the namespace enforces and whatever fails on the way. *)
Theorem frozen_pod_drops_all lines (s : Sidecar (S := World)) :
  frozen (spiffe_id who) (engine (host s)) -> not_monitor (namespace who) (engine (host s)) ->
  Forall dropped (handle_connection (Some who) id instant repr lines s).2.
Proof.
  revert s. induction lines as [|[raw|] lines IH]; intros s F N; [constructor| |constructor]. cbn [handle_connection].
  assert (P : let r := process_request (Some who) id instant repr raw s in
              dropped r.2 /\ stable (engine (host s)) (engine (host r.1))).
  { unfold process_request. destruct raw as [d|]; [|by split]. destruct (coerce_depth _) as [depth|]; [|by split].
    cbv zeta. unfold intercept. destruct (event_of _ _ _ _ _) as [event|] eqn:E; [|by split].
    assert (Who : agent_identity event = who).
    { unfold event_of in E. cbn [k_identity] in E. cbn [mbind option_bind] in E. unfold make_event in E.
      destruct (tool_name_not_empty _); [|discriminate E]. cbn in E. by injection E as <-. }
    pose proof (wp_frozen_stays event (engine (host s))) as T. unfold spiffe in T. rewrite Who in T. specialize (T F N).
    unfold wp in T. cbn [ask engine_supports]. destruct (Evaluator.evaluate event (engine (host s))) as [e [x|d0]]; [done|].
    destruct T as [B St]. cbn [k_pep_decision]. rewrite apply_pep_denial_noop. unfold respond, is_allowed. rewrite B. cbn [fst snd].
    split; [done|]. unfold emit_audit. repeat case_match; done. }
  destruct (process_request _ _ _ _ raw s) as [s1 r]. cbn [fst snd] in P. destruct P as [D St].
  specialize (IH s1 (stable_frozen _ _ _ St F) (st_posture _ _ St _ N)).
  destruct (handle_connection _ _ _ _ lines s1) as [s2 rs]. cbn [snd] in *. by constructor.
Qed.
End Frozen.

(** ** Waiting for the stores at start ([startup_retry.py], [_warm_cache_once_the_schema_exists]) *)
Module Startup.

(** An attempt: whether it succeeds and how long it takes, in milliseconds. *)
Record Try := mkTry { succeeds : bool; took : Z }.

(** How a start ended: whether it connected, how many attempts it made and how long it took. *)
Record Ended := mkEnded { connected : bool; tries : nat; elapsed : Z }.

(** The loop of [connect_with_backoff]: [left] attempts remain, the next sleep is [delay]. *)
Fixpoint connect (attempt : nat -> Try) (i left : nat) (delay : Z) : Ended :=
  match left with
  | O => mkEnded false 0 0
  | S left' =>
      let t := attempt i in
      if succeeds t then mkEnded true 1 (took t)
      else match left' with
      | O => mkEnded false 1 (took t)
      | S _ =>
          let r := connect attempt (S i) left' (delay * 2) in
          mkEnded (connected r) (S (tries r)) (took t + delay + elapsed r)
      end
  end.
Definition connect_with_backoff (attempts : nat) (attempt : nat -> Try) : Ended := connect attempt 0 attempts 1000.

Definition STARTUP_ATTEMPTS : nat := 5.
Definition WARM_ATTEMPTS : nat := 3.
Definition WARM_ATTEMPT_TIMEOUT : Z := 10000.

(** [warm_with_backoff]: each attempt is cut off, and a failure is no exception. *)
Definition cut_off (timeout : Z) (attempt : nat -> Try) (i : nat) : Try :=
  if timeout <? took (attempt i) then mkTry false timeout else attempt i.
Definition warm_with_backoff (attempts : nat) (timeout : Z) (attempt : nat -> Try) : Ended :=
  connect_with_backoff attempts (cut_off timeout attempt).

(** What loading the policies can end with. *)
Inductive Warm := Warmed | Unreachable | MissingSchema | Failed.

Definition SCHEMA_WAIT : Z := 60000.
Definition SCHEMA_POLL : Z := 2000.

(** [_warm_cache_once_the_schema_exists]: the outcome of each attempt and how long it took; [None]: out of fuel. *)
Fixpoint warm_cache_once_the_schema_exists (attempt : nat -> Warm * Z) (fuel i unreachable : nat) (now : Z) : option Ended :=
  match fuel with
  | O => None
  | S fuel' =>
      let '(r, d) := attempt i in
      let now := now + d in
      match r with
      | Warmed => Some (mkEnded true (S i) now)
      | Unreachable =>
          let unreachable := S unreachable in
          if (STARTUP_ATTEMPTS <=? unreachable)%nat || (SCHEMA_WAIT <=? now) then Some (mkEnded false (S i) now)
          else warm_cache_once_the_schema_exists attempt fuel' (S i) unreachable (now + 1000 * 2 ^ Z.of_nat (unreachable - 1))
      | MissingSchema =>
          if SCHEMA_WAIT <=? now then Some (mkEnded false (S i) now)
          else warm_cache_once_the_schema_exists attempt fuel' (S i) unreachable (now + SCHEMA_POLL)
      | Failed => Some (mkEnded false (S i) now)
      end
  end.

(** Every failed attempt costs its time, and the sleeps double. *)
Lemma connect_bounds attempt timeout i left delay :
  0 <= timeout -> 0 <= delay -> (forall j, took (attempt j) <= timeout) ->
  let r := connect attempt i left delay in
  (tries r <= left)%nat /\ elapsed r <= Z.of_nat left * timeout + delay * (2 ^ Z.of_nat (left - 1) - 1) /\
  (connected r = true <-> exists j, (i <= j < i + left)%nat /\ succeeds (attempt j) = true).
Proof.
  intros T. revert i delay. induction left as [|left IH]; intros i delay D B; cbn [connect].
  - split; [done|]. split; [cbn; lia|]. split; [done|]. intros (j & ? & _). lia.
  - pose proof (B i) as Bi. destruct (succeeds (attempt i)) eqn:Si.
    { split; [cbn; lia|]. split.
      - cbn [elapsed]. assert (0 < 2 ^ Z.of_nat (S left - 1)) by (apply Z.pow_pos_nonneg; lia). nia.
      - split; [|done]. intros _. exists i. split; [lia|done]. }
    destruct left as [|left].
    { cbn. split; [lia|]. split; [lia|]. split; [done|]. intros (j & ? & E). replace j with i in E by lia. congruence. }
    destruct (IH (S i) (delay * 2) ltac:(lia) B) as (I1 & I2 & I3).
    cbn [tries elapsed connected]. split; [lia|]. split.
    + replace (S (S left) - 1)%nat with (S left) by lia. replace (S left - 1)%nat with left in I2 by lia.
      assert (P : 2 ^ Z.of_nat (S left) = 2 * 2 ^ Z.of_nat left) by (rewrite Nat2Z.inj_succ, Z.pow_succ_r; lia).
      rewrite P. clear P I3 I1. lia.
    + rewrite I3. split; intros (j & J & E); exists j; (split; [|done]); [lia|].
      destruct (decide (j = i)) as [->|]; [congruence|lia].
Qed.

(** A start waits no longer than it says: connecting makes at most its attempts, succeeds exactly when one of
    them does, and sleeps 15 s in all; a warm is over after 33 s whatever the store does. *)
Theorem startup_is_bounded attempt :
  let c := connect_with_backoff STARTUP_ATTEMPTS attempt in
  let w := warm_with_backoff WARM_ATTEMPTS WARM_ATTEMPT_TIMEOUT attempt in
  (forall limit, 0 <= limit -> (forall j, took (attempt j) <= limit) ->
     (tries c <= 5)%nat /\ elapsed c <= 5 * limit + 15000 /\
     (connected c = true <-> exists j, (j < 5)%nat /\ succeeds (attempt j) = true)) /\
  (tries w <= 3)%nat /\ elapsed w <= 33000.
Proof.
  intros c w. split.
  - intros limit L B. destruct (connect_bounds attempt limit 0 STARTUP_ATTEMPTS 1000 L ltac:(lia) B) as (T & E & C).
    split; [exact T|]. split; [exact E|]. etransitivity; [exact C|]. split; intros (j & J & S); exists j; (split; [unfold STARTUP_ATTEMPTS in *; lia|done]).
  - destruct (connect_bounds (cut_off WARM_ATTEMPT_TIMEOUT attempt) WARM_ATTEMPT_TIMEOUT 0 WARM_ATTEMPTS 1000) as (T & E & _);
      [done|done| |by split].
    intros j. unfold cut_off. destruct (_ <? _) eqn:X; [done|]. by apply Z.ltb_ge in X.
Qed.

(** The fuel: attempts that find no store, polls of the schema, and the last one. *)
Definition schema_fuel (unreachable : nat) (now : Z) : Z :=
  Z.of_nat (STARTUP_ATTEMPTS - unreachable) + Z.max 0 ((SCHEMA_WAIT - now + SCHEMA_POLL - 1) / SCHEMA_POLL).

Lemma schema_ends attempt fuel i unreachable now :
  (forall j, 0 <= (attempt j).2) -> (unreachable < STARTUP_ATTEMPTS)%nat ->
  schema_fuel unreachable now < Z.of_nat fuel ->
  exists r, warm_cache_once_the_schema_exists attempt fuel i unreachable now = Some r /\
    (tries r <= i + fuel)%nat /\ (connected r = true -> exists j, tries r = S j /\ (attempt j).1 = Warmed).
Proof.
  intros D. revert i unreachable now. induction fuel as [|fuel IH]; intros i u now U F.
  { unfold schema_fuel in F. lia. }
  cbn [warm_cache_once_the_schema_exists]. pose proof (D i) as Di. destruct (attempt i) as [r d] eqn:A. cbn [snd] in Di.
  assert (Stop : forall ok, (ok = true -> r = Warmed) -> exists r0, Some (mkEnded ok (S i) (now + d)) = Some r0 /\
    (tries r0 <= i + S fuel)%nat /\ (connected r0 = true -> exists j, tries r0 = S j /\ (attempt j).1 = Warmed)).
  { intros ok K. eexists. split; [done|]. cbn. split; [lia|]. intros ->. exists i. rewrite A. split; [done|]. by apply K. }
  assert (Mono : forall a b, a <= b -> Z.max 0 ((SCHEMA_WAIT - b + SCHEMA_POLL - 1) / SCHEMA_POLL)
    <= Z.max 0 ((SCHEMA_WAIT - a + SCHEMA_POLL - 1) / SCHEMA_POLL)).
  { intros a b L. apply Z.max_le_compat_l, Z.div_le_mono; unfold SCHEMA_POLL; lia. }
  assert (Next : forall u' now', (u' < STARTUP_ATTEMPTS)%nat -> schema_fuel u' now' < schema_fuel u now ->
    exists r0, warm_cache_once_the_schema_exists attempt fuel (S i) u' now' = Some r0 /\
    (tries r0 <= i + S fuel)%nat /\ (connected r0 = true -> exists j, tries r0 = S j /\ (attempt j).1 = Warmed)).
  { intros u' now' U' F'. destruct (IH (S i) u' now' U' ltac:(lia)) as (r0 & E & T & C). exists r0. split; [done|]. split; [lia|done]. }
  destruct r; [by apply Stop| | |by apply Stop].
  - destruct (_ || _) eqn:S; [by apply Stop|]. apply orb_false_iff in S as [S1 S2]. apply Nat.leb_gt in S1.
    apply Next; [done|]. unfold schema_fuel.
    assert (0 <= 1000 * 2 ^ Z.of_nat (S u - 1)) by (apply Z.mul_nonneg_nonneg; [lia|apply Z.pow_nonneg; lia]).
    pose proof (Mono now (now + d + 1000 * 2 ^ Z.of_nat (S u - 1)) ltac:(lia)). lia.
  - destruct (SCHEMA_WAIT <=? now + d) eqn:S; [by apply Stop|]. apply Z.leb_gt in S. apply Next; [done|]. unfold schema_fuel.
    pose proof (Mono (now + SCHEMA_POLL) (now + d + SCHEMA_POLL) ltac:(lia)) as M.
    replace (SCHEMA_WAIT - (now + SCHEMA_POLL) + SCHEMA_POLL - 1) with (SCHEMA_WAIT - now + SCHEMA_POLL - 1 + (-1) * SCHEMA_POLL) in M by lia.
    rewrite Z.div_add in M by done.
    assert (1 <= (SCHEMA_WAIT - now + SCHEMA_POLL - 1) / SCHEMA_POLL).
    { apply Z.div_le_lower_bound; unfold SCHEMA_POLL, SCHEMA_WAIT in *; lia. }
    lia.
Qed.

(** Waiting for the schema ends within 36 attempts, whatever happens on them, and reports success only for an
    attempt that loaded the policies. *)
Theorem schema_wait_ends attempt :
  (forall j, 0 <= (attempt j).2) ->
  exists r, warm_cache_once_the_schema_exists attempt 36 0 0 0 = Some r /\ (tries r <= 36)%nat /\
    (connected r = true -> exists j, tries r = S j /\ (attempt j).1 = Warmed).
Proof. intros D. apply schema_ends; [done|unfold STARTUP_ATTEMPTS; lia|by vm_compute]. Qed.

Lemma schema_wait_ends_witness :
  exists r, warm_cache_once_the_schema_exists (fun i => if (i =? 30)%nat then (Warmed, 5) else (MissingSchema, 5)) 36 0 0 0
    = Some r /\ (tries r <= 36)%nat.
Proof.
  destruct (schema_wait_ends (fun i => if (i =? 30)%nat then (Warmed, 5) else (MissingSchema, 5))) as (r & E & T & _).
  - intros j. by destruct (j =? 30)%nat.
  - by exists r.
Defined.

End Startup.

(** ** Concrete requests *)
Module Pod.

Definition of_json (_ : json) : string := "".
Definition quiet (l : list Answer) : Sidecar (S := Wire) := mkSidecar (mkHost (RemoteEvaluator.Sample.wire l) 0 None) None.
Definition line (depth : item) : body := [("tool_name", Val (JStr "send_mail")); ("call_depth", depth)].

(** An engine that allows, asked through the thin proxy. *)
#[local] Instance remote : SupportsEvaluate Wire := remote_supports default_settings (fun _ => None).

Example socket_answers : exists s d e, handle_connection (Some RemoteEvaluator.Sample.who) "e1" 0 of_json
    [Some (Some (line (Val (JInt 2)))); Some None; None; Some (Some (line (Val JNull)))]
    (quiet [RemoteEvaluator.Sample.said_allow]) = (s, [Forward d; DropError e]).
Proof. eexists _, _, _. by vm_compute. Qed.

(** A depth that is infinite, which [1e400] decodes to, makes [_coerce_depth] raise: on the socket the request
    is dropped, over HTTP the exception leaves the handler. *)
Theorem infinite_depth_raises (s : Sidecar (S := Wire)) n neg auth :
  coerce_depth (Some (Infinite neg)) = None /\
  (process_request (Some RemoteEvaluator.Sample.who) "e1" 0 of_json (Some (line (Infinite neg))) s).2
    = DropError "request_processing_failed" /\
  (@http_evaluate Wire remote Callers.library (Some RemoteEvaluator.Sample.who) "e1" 0 of_json Callers.settings
     Callers.groups_table Callers.plain Revocation.Sample.sha [] false
     (mkHttpRequest (Some (points "127.0.0.1")) auth (Some (line (Infinite neg))) None) (mkHttpState s n)).2 = ServerError.
Proof. done. Qed.

(** The pod of another tenant asks over HTTP with the token of its own service. *)
Definition service_library : JwtLibrary :=
  {| unverified_alg t := Some (points "HS256", None); hs256_decode t := Some Callers.sidecar;
     jwks_key k := None; oidc_decode k t := None |}.
Definition remote_request : HttpRequest :=
  mkHttpRequest (Some (points "10.0.0.7")) (Some (points "Bearer " ++ Revocation.Sample.token)) (Some (line (Val JNull)))
    (Some Callers.body).
Definition remote_state : HttpState (S := Wire) :=
  mkHttpState (quiet [RemoteEvaluator.Sample.said_allow]) Revocation.Sample.idle.
Definition remote_run := @http_evaluate Wire remote service_library (Some RemoteEvaluator.Sample.who) "e1" 0 of_json
  Callers.settings Callers.groups_table Callers.plain Revocation.Sample.sha (points "Token") true remote_request remote_state.

Lemma off_pod_caller_is_itself_witness : exists s d who k h,
  remote_run = (s, Answered (Forward d)) /\ k_identity k = Some who /\ namespace who = "payments" /\
  intercept (Some RemoteEvaluator.Sample.who) "e1" 0 k (host (sidecar remote_state)) = (h, inr d).
Proof.
  destruct remote_run as [s r] eqn:E. destruct r as [[d|d|e]| |]; try (by vm_compute in E).
  destruct (@off_pod_caller_is_itself Wire remote service_library (Some RemoteEvaluator.Sample.who) "e1" 0 of_json
    Callers.settings Callers.groups_table Callers.plain Revocation.Sample.sha (points "Token") true remote_request remote_state
    s d ltac:(by vm_compute) E) as (_ & _ & token & user & who & k & h & B & D & K & I & F).
  exists s, d, who, k, h. split; [done|]. split; [done|]. split; [|exact I].
  assert (user = Callers.sidecar) as ->.
  { vm_compute in B. injection B as <-. vm_compute in D. by injection D. }
  destruct (F ltac:(by vm_compute)) as [N _]. rewrite N; by vm_compute.
Defined.

Lemma frozen_pod_drops_all_witness :
  Forall dropped (handle_connection (SupportsEvaluate0 := engine_supports (H := demo)) (Some sample_agent) "e1" 0 of_json
    [Some (Some (line (Val (JInt 2)))); Some None; Some (Some (line (Infinite true)))]
    (mkSidecar sample_host (Some []))).2.
Proof.
  apply (frozen_pod_drops_all (H := demo) sample_agent "e1" 0 of_json); [apply sample_frozen|apply sample_not_monitor].
Defined.

End Pod.
