(* ===== verification/RateLimit.v ===== *)
(** * The HTTP rate limit ([norviq/api/rate_limit.py])

    In front of every route: a request is counted in the bucket of its route class and its caller, and
    refused past the ceiling of the window.  The caller is the (unverified) subject of its token or its
    address, and which address that is, behind proxies that write [X-Forwarded-For], is the delicate part.
    The counter is the one the engine uses ([incr_call_count]), in the same store.  Header values are decoded
    text; what a token says of its subject, unverified, is an argument. *)

From S2P Require Import Prelude.
From S2P Require Import Text.
From S2P Require Import Json.
From S2P Require Import JsonParse.
From S2P Require Import IpAddress.
From S2P Require Import Effects.
From S2P Require Import World.
From S2P Require Import Evaluator.

Record Limits := mkLimits {
  rl_enabled : bool;
  rl_window_s : Z;
  rl_exclude_paths : list text;
  rl_evaluate : Z;
  rl_auth_login : Z;
  rl_dry_run : Z;
  rl_redteam : Z;
  rl_default : Z;
  rl_trusted_cidrs : list text;
  rl_trusted_hops : Z;
}.

Definition shipped_limits : Limits := {|
  rl_enabled := true; rl_window_s := 60; rl_exclude_paths := map points ["/healthz"; "/readyz"; "/metrics"];
  rl_evaluate := 3000; rl_auth_login := 20; rl_dry_run := 20; rl_redteam := 15; rl_default := 300;
  rl_trusted_cidrs := map points ["127.0.0.0/8"; "::1/128"]; rl_trusted_hops := 1;
|}.

(** ** Route classes *)

Inductive route := REvaluate | RAuthLogin | RDryRun | RRedteam | RDefault.
#[export] Instance route_eq_dec : EqDecision route.
Proof. solve_decision. Defined.

Definition ROUTE_RULES : list (text * route) :=
  [(points "/api/v1/evaluate", REvaluate); (points "/api/v1/auth/login", RAuthLogin);
   (points "/api/v1/policies/dry-run", RDryRun); (points "/api/v1/redteam/suite", RRedteam);
   (points "/api/v1/redteam/run", RRedteam)].

(** [_route_class]. *)
Fixpoint route_by (rules : list (text * route)) (path : text) : route :=
  match rules with
  | [] => RDefault
  | (prefix, cls) :: rules' =>
      if bool_decide (path = prefix) || tstarts (prefix ++ [47]) path || tstarts (prefix ++ [63]) path then cls
      else route_by rules' path
  end.
Definition route_class (path : text) : route := route_by ROUTE_RULES path.

Definition route_text (r : route) : text :=
  points (match r with REvaluate => "evaluate" | RAuthLogin => "auth_login" | RDryRun => "dry_run"
                     | RRedteam => "redteam" | RDefault => "default" end).

(** ** The caller's address *)

(** One connection and request, as ASGI describes it. *)
Record Scope := mkScope {
  sc_http : bool;                        (* the type is "http" *)
  sc_path : text;
  sc_client : option text;               (* the address of the TCP peer *)
  sc_headers : list (text * text);
}.

(** [_prefix_from_ip_int] of an IPv4 mask. *)
Definition mask_prefix (m : Z) : option Z :=
  head (filter (fun p => m = 2 ^ 32 - 2 ^ (32 - p)) (seqZ 0 33)).

(** [ip_network(raw, strict=False)], as family, base and prefix; [None]: [ValueError]. *)
Definition prefix_len (width : Z) (t : text) : option Z :=
  if all_num t then if digits_value t <=? width then Some (digits_value t) else None
  else if width =? 32 then
    m ← v4_of t;
    match mask_prefix m with Some p => Some p | None => mask_prefix (2 ^ 32 - 1 - m) end
  else None.
Definition ip_network (raw : text) : option (Z * (Z * Z)) :=
  let net a len :=
    match ip_address a with
    | Some (V4 n) => p ← match len with None => Some 32 | Some l => prefix_len 32 l end; Some (32, (n, p))
    | Some (V6 n _) => p ← match len with None => Some 128 | Some l => prefix_len 128 l end; Some (128, (n, p))
    | None => None
    end in
  match split_on 47 raw with
  | [a] => net a None
  | [a; l] => net a (Some l)
  | _ => None
  end.

(** [addr in net]. *)
Definition in_network (a : ip) (net : Z * (Z * Z)) : bool :=
  match a with
  | V4 n => (net.1 =? 32) && in_net 32 net.2 n
  | V6 n _ => (net.1 =? 128) && in_net 128 net.2 n
  end.

(** [_normalize_ip]. *)
Definition count_char (c : Z) (t : text) : nat := length (filter (fun x => x = c) t).
Definition normalize_ip (raw : text) : text :=
  let v := tstrip raw in
  let v := match v with
           | 91 :: v' => (partition 93 v').1
           | _ => if (count_char 58 v =? 1)%nat then (partition 58 v).1 else v
           end in
  match ip_address v with Some a => ip_text a | None => [] end.

Section Limiter.
Context (cfg : Limits).
(** The subject a bearer token names, its signature unchecked; [None]: the token is malformed or names none. *)
Context (peek_sub : text -> option text).

Definition trusted_networks : list (Z * (Z * Z)) := omap (fun raw => ip_network (tstrip raw)) (rl_trusted_cidrs cfg).

Definition peer_ip (s : Scope) : text := default (points "unknown") (sc_client s).
Definition peer_is_trusted (peer : text) : bool :=
  match ip_address peer with None => false | Some a => existsb (in_network a) trusted_networks end.

(** The entries of the forwarding chain, all header lines joined. *)
Definition forwarded (s : Scope) : list text :=
  map snd (filter (fun h => h.1 = points "x-forwarded-for") (sc_headers s)).
Definition chain_parts (chain : text) : list text :=
  filter (fun p => p <> []) (map tstrip (split_on 44 chain)).

(** [_client_ip]. *)
Definition client_ip (s : Scope) : text :=
  let peer := peer_ip s in
  let hops := rl_trusted_hops cfg in
  if (hops <=? 0) || negb (peer_is_trusted peer) then peer
  else
    let chain := join [44] (forwarded s) in
    if bool_decide (chain = []) then peer
    else
      let parts := chain_parts chain in
      if Z.of_nat (length parts) <? hops then peer
      else
        let ip := normalize_ip (default [] (parts !! (length parts - Z.to_nat hops)%nat)) in
        if bool_decide (ip = []) then peer else ip.

(** [_unverified_sub]. *)
Definition unverified_sub (s : Scope) : option text :=
  match head (filter (fun h => h.1 = points "authorization") (sc_headers s)) with
  | None => None
  | Some (_, raw) =>
      if tstarts (points "bearer ") (Text.lower raw) then peek_sub (tstrip (drop 7 raw)) else None
  end.

(** ** The middleware *)

Definition limit_for (r : route) : Z :=
  match r with
  | REvaluate => rl_evaluate cfg
  | RAuthLogin => rl_auth_login cfg
  | RDryRun => rl_dry_run cfg
  | RRedteam => rl_redteam cfg
  | RDefault => rl_default cfg
  end.

Definition identity_of (s : Scope) : text :=
  let by_ip := points "ip:" ++ client_ip s in
  if bool_decide (route_class (sc_path s) = RAuthLogin) then by_ip
  else match unverified_sub s with
       | Some ((_ :: _) as sub) => points "id:" ++ sub
       | _ => by_ip
       end.
Definition bucket_key (s : Scope) : text :=
  points "http:" ++ route_text (route_class (sc_path s)) ++ 58 :: identity_of s.

Inductive Outcome := PassedOn | TooMany (class : text) (retry_after : Z).
#[export] Instance outcome_eq_dec : EqDecision Outcome.
Proof. solve_decision. Defined.

Definition excluded (s : Scope) : bool :=
  existsb (fun p => bool_decide (sc_path s = p) || tstarts p (sc_path s)) (rl_exclude_paths cfg).

(** [__call__]; [has_cache]: the store is wired. *)
Definition limit_request (has_cache : bool) (s : Scope) : M World Outcome :=
  if negb (sc_http s) || negb (rl_enabled cfg) || excluded s || negb has_cache then mret PassedOn
  else
    let r := route_class (sc_path s) in
    n ← try_with (count ← incr_call_count (bucket_key s) (rl_window_s cfg); mret (Some count)) (fun _ => mret None);
    mret (match n with
          | Some count => if limit_for r <? count then TooMany (route_text r) (rl_window_s cfg) else PassedOn
          | None => PassedOn
          end).

(** ** The forwarding header *)

Lemma chain_parts_app a b : chain_parts (a ++ 44 :: b) = chain_parts a ++ chain_parts b.
Proof. unfold chain_parts. by rewrite split_on_app_any, map_app, filter_app. Qed.

(** What a caller writes into the forwarding header does not move it to another bucket: with a peer that is
    no trusted proxy the header is not read at all, and behind trusted proxies that wrote their entries,
    whatever stands before them, in the same line or in lines of its own, changes nothing. *)
Theorem forged_forwarding_ignored s s' :
  sc_client s' = sc_client s ->
  (peer_is_trusted (peer_ip s) = false -> client_ip s' = peer_ip s) /\
  (forall junk, join [44] (forwarded s') = junk ++ 44 :: join [44] (forwarded s) ->
     rl_trusted_hops cfg <= Z.of_nat (length (chain_parts (join [44] (forwarded s)))) ->
     client_ip s' = client_ip s).
Proof.
  intros C. assert (P : peer_ip s' = peer_ip s) by (unfold peer_ip; by rewrite C).
  unfold client_ip. rewrite P. split.
  - intros T. by rewrite T, orb_true_r.
  - intros junk E L. destruct (_ || _) eqn:G; [done|]. apply orb_false_iff in G as [H _]. apply Z.leb_gt in H.
    set (chain := join [44] (forwarded s)) in *. rewrite E.
    rewrite (bool_decide_false (junk ++ 44 :: chain = [])) by (by destruct junk).
    rewrite (bool_decide_false (chain = [])) by (intros X; rewrite X in L; change (length (chain_parts [])) with O in L; lia).
    rewrite chain_parts_app, length_app.
    replace (Z.of_nat (length (chain_parts junk) + length (chain_parts chain)) <? rl_trusted_hops cfg) with false
      by (symmetry; apply Z.ltb_ge; lia).
    replace (Z.of_nat (length (chain_parts chain)) <? rl_trusted_hops cfg) with false by (symmetry; by apply Z.ltb_ge).
    rewrite lookup_app_r by lia.
    replace (length (chain_parts junk) + length (chain_parts chain) - Z.to_nat (rl_trusted_hops cfg) - length (chain_parts junk))%nat
      with (length (chain_parts chain) - Z.to_nat (rl_trusted_hops cfg))%nat by lia. done.
Qed.

(** ** Buckets *)

Lemma route_text_no_colon r : 58 ∉ route_text r.
Proof. destruct r; apply (bool_decide_eq_true_1 _); by vm_compute. Qed.

Lemma prefix_split_at (c : Z) a a' b b' : c ∉ a -> c ∉ a' -> a ++ c :: b = a' ++ c :: b' -> a = a' /\ b = b'.
Proof.
  revert a'. induction a as [|x a IH]; intros [|x' a'] N N' E; cbn in E.
  - by injection E.
  - injection E as <- _. exfalso. apply N'. by left.
  - injection E as -> _. exfalso. apply N. by left.
  - injection E as <- E. rewrite not_elem_of_cons in N, N'. destruct (IH a') as [-> ->]; naive_solver.
Qed.

Lemma route_text_inj r r' : route_text r = route_text r' -> r = r'.
Proof. destruct r, r'; try done; intros E; by vm_compute in E. Qed.

(** Two requests share a bucket only if they have the same route class and the same caller. *)
Lemma bucket_key_inj s s' : bucket_key s = bucket_key s' ->
  route_class (sc_path s) = route_class (sc_path s') /\ identity_of s = identity_of s'.
Proof.
  unfold bucket_key. intros E. apply (inj (app (points "http:"))) in E.
  apply prefix_split_at in E as [R I]; [|apply route_text_no_colon..]. split; [by apply route_text_inj|done].
Qed.

(** ** The window *)

(** The live count of a key at an instant. *)
Definition live (k : text) (t : Z) (w : World) : option (Z * option Z) :=
  match rd_calls (redis w) !! k with
  | Some (n, Some expires) => if t <? expires then Some (n, Some expires) else None
  | o => o
  end.

(** What one count leaves of a key: the count it answers and the expiry. *)
Definition counted (k : text) (window t : Z) (w : World) : Z * option Z :=
  match live k t w with
  | Some (n, e) => (n + 1, if n + 1 =? 1 then Some (t + window * 1000000) else e)
  | None => (1, Some (t + window * 1000000))
  end.

Lemma wp_incr k window w (Q : Z -> World -> Prop) (E : exc -> World -> Prop) :
  faults w = [] ->
  (forall t w', clock w <= t -> clock w' = t -> faults w' = [] ->
     rd_calls (redis w') = <[k := counted k window t w]> (rd_calls (redis w)) -> Q (counted k window t w).1 w') ->
  wp (incr_call_count k window) Q E w.
Proof.
  intros F HQ. unfold incr_call_count. apply wp_bind, wp_now. intros t ts w1 L E1.
  assert (C1 : rd_calls (redis w1) = rd_calls (redis w)) by (by subst).
  assert (F1 : faults w1 = []) by (by subst). assert (T1 : clock w1 = t) by (by subst). clear E1.
  apply wp_bind, wp_io_ok; [done|]. apply wp_bind, wp_get. cbv zeta. rewrite C1.
  specialize (HQ t). unfold counted, live in HQ.
  apply wp_bind, wp_upd. intros w2 E2. apply wp_bind.
  match goal with |- wp (if ?c =? 1 then _ else _) _ _ _ => set (count := c) in * end.
  assert (F2 : faults w2 = []) by (by subst w2). assert (T2 : clock w2 = t) by (by subst w2).
  destruct (count =? 1) eqn:C.
  - apply wp_bind, wp_io_ok; [done|]. apply wp_upd. intros w3 E3. apply wp_ret. subst w3 w2.
    unfold count in *. destruct (rd_calls (redis w) !! k) as [[n [e|]]|]; [destruct (t <? e)| |]; world_cbn;
      try rewrite C in HQ; apply HQ; try done; world_cbn; rewrite C1; by rewrite insert_insert_eq.
  - apply wp_ret. apply wp_ret. subst w2. unfold count in *.
    destruct (rd_calls (redis w) !! k) as [[n [e|]]|]; [destruct (t <? e)| |]; try done; world_cbn;
      rewrite C in HQ; apply HQ; try done; world_cbn; by rewrite C1.
Qed.

(** Requests one after another. *)
Definition serve (ss : list Scope) : M World (list Outcome) := for_each ss (limit_request true).

(** A request the limiter counts. *)
Definition counts (s : Scope) : Prop := sc_http s = true /\ rl_enabled cfg = true /\ excluded s = false.

Lemma wp_limit s w (Q : Outcome -> World -> Prop) (E : exc -> World -> Prop) :
  counts s -> faults w = [] ->
  (forall t w', clock w <= t -> clock w' = t -> faults w' = [] ->
     rd_calls (redis w') = <[bucket_key s := counted (bucket_key s) (rl_window_s cfg) t w]> (rd_calls (redis w)) ->
     Q (if limit_for (route_class (sc_path s)) <? (counted (bucket_key s) (rl_window_s cfg) t w).1
        then TooMany (route_text (route_class (sc_path s))) (rl_window_s cfg) else PassedOn) w') ->
  wp (limit_request true s) Q E w.
Proof.
  intros (H1 & H2 & H3) F HQ. unfold limit_request. rewrite H1, H2, H3. cbn [negb orb].
  apply wp_bind, wp_try, wp_bind, wp_incr; [done|]. intros t w' L T F' C. apply wp_ret, wp_ret. by apply (HQ t).
Qed.

Lemma limit_runs s w : counts s -> faults w = [] ->
  exists t w1, limit_request true s w =
    (w1, inr (if limit_for (route_class (sc_path s)) <? (counted (bucket_key s) (rl_window_s cfg) t w).1
              then TooMany (route_text (route_class (sc_path s))) (rl_window_s cfg) else PassedOn)) /\
    clock w <= t /\ clock w1 = t /\ faults w1 = [] /\
    rd_calls (redis w1) = <[bucket_key s := counted (bucket_key s) (rl_window_s cfg) t w]> (rd_calls (redis w)).
Proof.
  intros C F. assert (T : wp (limit_request true s) (fun o w1 => exists t,
    o = (if limit_for (route_class (sc_path s)) <? (counted (bucket_key s) (rl_window_s cfg) t w).1
         then TooMany (route_text (route_class (sc_path s))) (rl_window_s cfg) else PassedOn) /\
    clock w <= t /\ clock w1 = t /\ faults w1 = [] /\
    rd_calls (redis w1) = <[bucket_key s := counted (bucket_key s) (rl_window_s cfg) t w]> (rd_calls (redis w)))
    (fun _ _ => False) w).
  { apply wp_limit; [done|done|]. intros t w' L T F' R. by exists t. }
  unfold wp in T. destruct (limit_request true s w) as [w1 [e|o]]; [done|]. destruct T as (t & -> & ?). by exists t, w1.
Qed.

Lemma serve_cons s ss w w1 o w2 os :
  limit_request true s w = (w1, inr o) -> serve ss w1 = (w2, inr os) -> serve (s :: ss) w = (w2, inr (o :: os)).
Proof. intros E1 E2. unfold serve in *. cbn [for_each]. unfold mbind, M_bind. by rewrite E1, E2. Qed.

Lemma serve_runs ss w : Forall counts ss -> faults w = [] ->
  exists w' os, serve ss w = (w', inr os) /\ clock w <= clock w' /\ length os = length ss.
Proof.
  intros C. revert w. induction C as [|s ss Cs _ IH]; intros w F.
  - exists w, []. split; [done|]. split; [lia|done].
  - destruct (limit_runs s w Cs F) as (t & w1 & E & L & T & F1 & _). destruct (IH w1 F1) as (w' & os & E' & L' & Len).
    eexists w', (_ :: os). split; [by eapply serve_cons|]. split; [lia|]. cbn. by rewrite Len.
Qed.

(** What the store holds of the bucket after [n] requests of the window that began at [c0]. *)
Definition window_entry (k : text) (c0 n : Z) (w : World) : Prop :=
  (n = 0 /\ live k c0 w = None) \/
  (0 < n /\ exists e, rd_calls (redis w) !! k = Some (n, Some e) /\ c0 + rl_window_s cfg * 1000000 <= e).

Lemma live_later k t t' w : t <= t' -> live k t w = None -> live k t' w = None.
Proof.
  intros L. unfold live. destruct (rd_calls (redis w) !! k) as [[n [e|]]|]; try done. destruct (Z.ltb_spec t e); [done|]. by rewrite (proj2 (Z.ltb_ge t' e)) by lia.
Qed.

Lemma window_counts k c0 n w t :
  window_entry k c0 n w -> c0 <= t -> t < c0 + rl_window_s cfg * 1000000 ->
  exists e, counted k (rl_window_s cfg) t w = (n + 1, Some e) /\ c0 + rl_window_s cfg * 1000000 <= e.
Proof.
  intros [[-> N]|(P & e & N & Le)] L D; unfold counted.
  - rewrite (live_later k c0 t w L N). eexists. split; [done|]. lia.
  - unfold live. rewrite N, (proj2 (Z.ltb_lt t e)) by lia. replace (n + 1 =? 1) with false by (symmetry; apply Z.eqb_neq; lia). eauto.
Qed.

(** How many requests of a list are of the bucket, and what becomes of the one with [n] before it. *)
Definition mine (k : text) (ss : list Scope) : nat := length (filter (fun s => bucket_key s = k) ss).
Definition verdict_at (r : route) (n : Z) : Outcome := if n <? limit_for r then PassedOn else TooMany (route_text r) (rl_window_s cfg).

Lemma mine_cons k s ss i : mine k (take (S i) (s :: ss)) = ((if bool_decide (bucket_key s = k) then 1 else 0) + mine k (take i ss))%nat.
Proof. unfold mine. cbn [take]. case_bool_decide; [by rewrite filter_cons_True|by rewrite filter_cons_False]. Qed.

Lemma serve_window k r c0 ss w n :
  Forall counts ss -> (forall s, s ∈ ss -> bucket_key s = k -> route_class (sc_path s) = r) ->
  faults w = [] -> c0 <= clock w -> window_entry k c0 n w ->
  exists w' os, serve ss w = (w', inr os) /\ length os = length ss /\
    (clock w' < c0 + rl_window_s cfg * 1000000 ->
     forall i s o, ss !! i = Some s -> os !! i = Some o -> bucket_key s = k -> o = verdict_at r (n + Z.of_nat (mine k (take i ss)))).
Proof.
  intros C. revert w n. induction C as [|s ss Cs Css IH]; intros w n Rt F L0 W.
  { exists w, []. split; [done|]. split; [done|]. intros _ i s o Ei. by rewrite lookup_nil in Ei. }
  destruct (limit_runs s w Cs F) as (t & w1 & E & L & T & F1 & R).
  destruct (decide (t < c0 + rl_window_s cfg * 1000000)) as [D|D].
  2:{ destruct (serve_runs ss w1 Css F1) as (w' & os & E' & L' & Len). eexists w', (_ :: os).
      split; [by eapply serve_cons|]. split; [cbn; by rewrite Len|]. lia. }
  assert (Rt' : forall s', s' ∈ ss -> bucket_key s' = k -> route_class (sc_path s') = r) by (intros s' I; apply Rt; by right).
  assert (W1 : window_entry k c0 (if bool_decide (bucket_key s = k) then n + 1 else n) w1).
  { case_bool_decide as K.
    - subst k. destruct (window_counts (bucket_key s) c0 n w t W ltac:(lia) D) as (e & Ct & Le). rewrite Ct in R.
      right. split; [destruct W as [[-> _]|[? _]]; lia|]. exists e. split; [rewrite R; apply lookup_insert_eq|done].
    - destruct W as [[-> N]|(Pn & e & N & Le)]; [left|right]; (split; [done|]).
      + unfold live in *. by rewrite R, lookup_insert_ne.
      + exists e. split; [by rewrite R, lookup_insert_ne|done]. }
  destruct (IH w1 _ Rt' F1 ltac:(lia) W1) as (w' & os & E' & Len & P).
  eexists w', (_ :: os). split; [by eapply serve_cons|]. split; [cbn; by rewrite Len|]. intros Dw [|i] s' o Es Eo K.
  - apply (inj Some) in Es as ->. apply (inj Some) in Eo as <-. subst k. destruct (window_counts (bucket_key s') c0 n w t W ltac:(lia) D) as (e & Ct & _). rewrite Ct. cbn [fst].
    rewrite (Rt s' ltac:(by left) eq_refl). unfold verdict_at, mine. cbn [take filter list_filter length].
    destruct (Z.ltb_spec (limit_for r) (n + 1)), (Z.ltb_spec (n + Z.of_nat 0) (limit_for r)); try done; lia.
  - rewrite (P Dw i s' o Es Eo K), mine_cons. f_equal. case_bool_decide; lia.
Qed.

(** C39: The ceiling holds: while the store answers, of the requests of one bucket within a window, from a moment on at which the bucket
    has no live count, exactly the first ones up to the ceiling of its route class are passed on and each later one is refused
    with the class and the window to wait, whatever requests of other buckets come between them. *)
Theorem ceiling_holds s0 ss w :
  let k := bucket_key s0 in let r := route_class (sc_path s0) in
  Forall counts ss -> faults w = [] -> live k (clock w) w = None ->
  exists w' os, serve ss w = (w', inr os) /\ length os = length ss /\
    (clock w' < clock w + rl_window_s cfg * 1000000 ->
     forall i s o, ss !! i = Some s -> os !! i = Some o -> bucket_key s = k ->
       o = if Z.of_nat (mine k (take i ss)) <? limit_for r then PassedOn else TooMany (route_text r) (rl_window_s cfg)).
Proof.
  intros k r C F N. destruct (serve_window k r (clock w) ss w 0) as (w' & os & E & Len & P); [done| |done|lia|by left|].
  - intros s _ K. by apply bucket_key_inj in K as [? _].
  - exists w', os. by split_and!.
Qed.

(** A failing store never stops a request, and an excluded path is never counted. *)
Theorem limiter_fails_open has_cache s w :
  (exists w' o, limit_request has_cache s w = (w', inr o) /\
     (forall e fs, faults w = Some e :: fs -> o = PassedOn) /\
     (excluded s = true \/ has_cache = false -> o = PassedOn /\ w' = w)).
Proof.
  unfold limit_request. destruct (negb (sc_http s) || negb (rl_enabled cfg) || excluded s || negb has_cache) eqn:G.
  { exists w, PassedOn. done. }
  rewrite !orb_false_iff, !negb_false_iff in G. destruct G as [[_ X] ->].
  unfold mbind, M_bind, try_with. destruct (incr_call_count (bucket_key s) (rl_window_s cfg) w) as [w1 [e|n]] eqn:I.
  - exists w1, PassedOn. split; [done|]. split; [done|]. intros [?|?]; congruence.
  - eexists w1, _. split; [done|]. split; [|intros [?|?]; congruence].
    intros e fs Fl. exfalso. revert I. unfold incr_call_count, now, mbind, M_bind, io.
    destruct (ticks w); cbn; by rewrite Fl.
Qed.

(** A counter whose expiry was lost refuses its caller for ever: past the ceiling every further request is
    refused, whenever it comes, and the counter stays without an expiry. *)
Theorem lost_expiry_locks_out s w n :
  counts s -> faults w = [] -> rd_calls (redis w) !! bucket_key s = Some (n, None) ->
  0 < n -> limit_for (route_class (sc_path s)) <= n ->
  exists w', limit_request true s w = (w', inr (TooMany (route_text (route_class (sc_path s))) (rl_window_s cfg))) /\
    faults w' = [] /\ rd_calls (redis w') !! bucket_key s = Some (n + 1, None).
Proof.
  intros C F N P Lm. destruct (limit_runs s w C F) as (t & w1 & E & _ & _ & F1 & R). exists w1.
  assert (Ct : counted (bucket_key s) (rl_window_s cfg) t w = (n + 1, None)).
  { unfold counted, live. rewrite N. by replace (n + 1 =? 1) with false by (symmetry; apply Z.eqb_neq; lia). }
  rewrite Ct in E, R. cbn [fst] in E. rewrite (proj2 (Z.ltb_lt _ _)) in E by lia. split; [done|]. split; [done|].
  rewrite R. apply lookup_insert_eq.
Qed.

End Limiter.

(** ** Concrete requests *)
Module Traffic.

Definition no_sub (_ : text) : option text := None.
Definition login (peer : string) (fwd : list string) : Scope :=
  mkScope true (points "/api/v1/auth/login") (Some (points peer)) (map (fun v => (points "x-forwarded-for", points v)) fwd).
Definition key_of_login (peer : string) (fwd : list string) : text := bucket_key shipped_limits no_sub (login peer fwd).

(** Behind the in-pod proxy: the entry it wrote counts, whatever the caller wrote before it. *)
Lemma forged_forwarding_ignored_witness :
  client_ip shipped_limits (login "127.0.0.1" ["6.6.6.6, 7.7.7.7"; "203.0.113.9"]) = points "203.0.113.9" /\
  client_ip shipped_limits (login "10.1.2.3" ["6.6.6.6"]) = points "10.1.2.3".
Proof.
  split.
  - rewrite (proj2 (forged_forwarding_ignored shipped_limits (login "127.0.0.1" ["203.0.113.9"])
      (login "127.0.0.1" ["6.6.6.6, 7.7.7.7"; "203.0.113.9"]) eq_refl) (points "6.6.6.6, 7.7.7.7"));
      [by vm_compute|by vm_compute|by apply Z.leb_le].
  - apply (proj1 (forged_forwarding_ignored shipped_limits (login "10.1.2.3" ["6.6.6.6"]) (login "10.1.2.3" ["6.6.6.6"]) eq_refl)).
    by vm_compute.
Defined.

Definition flood : list Scope := replicate 22 (login "10.1.2.3" []).

(** Twenty logins from one address are passed on, the rest refused. *)
Lemma ceiling_holds_witness : exists w' os, serve shipped_limits no_sub flood empty_world = (w', inr os) /\
  os !! 19%nat = Some PassedOn /\ os !! 20%nat = Some (TooMany (points "auth_login") 60).
Proof.
  destruct (ceiling_holds shipped_limits no_sub (login "10.1.2.3" []) flood empty_world) as (w' & os & E & Len & P).
  - apply Forall_forall. intros s I. apply elem_of_replicate_inv in I as ->. by vm_compute.
  - reflexivity.
  - by vm_compute.
  - exists w', os. split; [done|].
    assert (Cw : clock w' < clock empty_world + rl_window_s shipped_limits * 1000000).
    { apply (f_equal (fun r => clock r.1)) in E. cbn [fst] in E. rewrite <- E. by vm_compute. }
    assert (At : forall i, (i < 22)%nat -> exists o, os !! i = Some o).
    { intros i L. apply lookup_lt_is_Some. by rewrite Len. }
    split; [destruct (At 19%nat) as [o Eo]|destruct (At 20%nat) as [o Eo]]; try lia; rewrite Eo; f_equal;
      [rewrite (P Cw 19%nat (login "10.1.2.3" []) o eq_refl Eo eq_refl)|rewrite (P Cw 20%nat (login "10.1.2.3" []) o eq_refl Eo eq_refl)]; by vm_compute.
Defined.

(** The store that answers the count and loses the expiry of the first request of a window. *)
Definition lossy : World := set_faults [None; Some EOther] empty_world.
Definition after_loss : World := (limit_request shipped_limits no_sub true (login "10.1.2.3" []) lossy).1.
Definition worn : World := (serve shipped_limits no_sub (replicate 19 (login "10.1.2.3" [])) after_loss).1.
Definition much_later : World := set_clock 86400000000 worn.

Lemma lost_expiry_locks_out_witness : exists w',
  limit_request shipped_limits no_sub true (login "10.1.2.3" []) much_later = (w', inr (TooMany (points "auth_login") 60)).
Proof.
  destruct (lost_expiry_locks_out shipped_limits no_sub (login "10.1.2.3" []) much_later 20) as (w' & E & _).
  - by vm_compute.
  - by vm_compute.
  - by vm_compute.
  - lia.
  - by vm_compute.
  - by exists w'.
Defined.

(** A zone is part of the address, so an address that differs only there has another bucket. *)
Example zone_splits_bucket :
  normalize_ip (points "fe80::1%a") = points "fe80::1%a" /\ normalize_ip (points "FE80:0::1%b") = points "fe80::1%b".
Proof. by vm_compute. Qed.

(** Spellings that are one bucket: a port, brackets, leading zeros, capitals. *)
Example spellings_one_bucket :
  map normalize_ip (map points ["203.0.113.9:41022"; " 203.0.113.9 "; "[2001:db8::1]:443"; "2001:DB8:0:0::0001"; "host"]) =
  map points ["203.0.113.9"; "203.0.113.9"; "2001:db8::1"; "2001:db8::1"; ""].
Proof. by vm_compute. Qed.

End Traffic.
