(* ===== verification/Protocol.v ===== *)
(** * The MCP wire ([mcp/protocol.py])

    Decoding one framed line into a message, the shapes of a message, and the answers the proxy writes
    itself.  A message is decoded data next to the bytes it came from; an allowed message is forwarded as
    those bytes, so the proxy's reading of them must be the only one: [decode] refuses objects whose keys
    another parser could fold together, numbers that are no finite doubles, and nesting past a bound.

    Unicode normalisation and case folding are Python's tables ([unicodedata]) and a parameter. *)

From S2P Require Import Prelude.
From S2P Require Import Text.
From S2P Require Import Json.
From S2P Require Import JsonParse.

Notation bytes := (list Z) (only parsing).

(** ** From bytes to text: [json.loads] of a byte string *)

Inductive Encoding := Utf8 | Utf16 (big : bool) | Utf32 (big : bool).

(** [json.detect_encoding], with the length of the byte-order mark to skip. *)
Definition detect_encoding (b : bytes) : Encoding * nat :=
  if tstarts [0; 0; 254; 255] b then (Utf32 true, 4%nat)
  else if tstarts [255; 254; 0; 0] b then (Utf32 false, 4%nat)
  else if tstarts [254; 255] b then (Utf16 true, 2%nat)
  else if tstarts [255; 254] b then (Utf16 false, 2%nat)
  else if tstarts [239; 187; 191] b then (Utf8, 3%nat)
  else match b with
  | b0 :: b1 :: b2 :: b3 :: _ =>
      if b0 =? 0 then (if b1 =? 0 then Utf32 true else Utf16 true, 0%nat)
      else if b1 =? 0 then (if (b2 =? 0) && (b3 =? 0) then Utf32 false else Utf16 false, 0%nat)
      else (Utf8, 0%nat)
  | [b0; b1] => (if b0 =? 0 then Utf16 true else if b1 =? 0 then Utf16 false else Utf8, 0%nat)
  | _ => (Utf8, 0%nat)
  end.

Definition is_cont (b : Z) : bool := (128 <=? b) && (b <? 192).

Definition before_text (c : Z) (t : option text) : option text := match t with Some t => Some (c :: t) | None => None end.

(** UTF-8 with [surrogatepass]: encoded surrogates are let through. *)
Fixpoint utf8_decode (b : bytes) : option text :=
  match b with
  | [] => Some []
  | x :: r =>
      if (0 <=? x) && (x <? 128) then before_text x (utf8_decode r)
      else if (194 <=? x) && (x <? 224) then
        match r with
        | y :: r' => if is_cont y then before_text ((x - 192) * 64 + (y - 128)) (utf8_decode r') else None
        | _ => None
        end
      else if (224 <=? x) && (x <? 240) then
        match r with
        | y :: z :: r' =>
            let c := (x - 224) * 4096 + (y - 128) * 64 + (z - 128) in
            if is_cont y && is_cont z && (2048 <=? c) then before_text c (utf8_decode r') else None
        | _ => None
        end
      else if (240 <=? x) && (x <? 245) then
        match r with
        | y :: z :: w :: r' =>
            let c := (x - 240) * 262144 + (y - 128) * 4096 + (z - 128) * 64 + (w - 128) in
            if is_cont y && is_cont z && is_cont w && (65536 <=? c) && (c <? 1114112)
            then before_text c (utf8_decode r') else None
        | _ => None
        end
      else None
  end.

(** Two-byte units; [None]: a byte is left over. *)
Fixpoint units16 (big : bool) (b : bytes) : option (list Z) :=
  match b with
  | [] => Some []
  | x :: y :: r => before_text (if big then x * 256 + y else y * 256 + x) (units16 big r)
  | _ => None
  end.

Fixpoint units32 (big : bool) (b : bytes) : option (list Z) :=
  match b with
  | [] => Some []
  | x :: y :: z :: w :: r =>
      let c := if big then ((x * 256 + y) * 256 + z) * 256 + w else ((w * 256 + z) * 256 + y) * 256 + x in
      if c <? 1114112 then before_text c (units32 big r) else None
  | _ => None
  end.

Definition decode_bytes (b : bytes) : option text :=
  let '(enc, bom) := detect_encoding b in
  let b := drop bom b in
  match enc with
  | Utf8 => utf8_decode b
  | Utf16 big => us ← units16 big b; Some (join_units us)
  | Utf32 big => units32 big b
  end.

(** [bytes.strip()]. *)
Definition is_byte_ws (c : Z) : bool := (c =? 32) || ((9 <=? c) && (c <=? 13)).

Section Decode.
Context (float_of : text -> option double).     (* [_finite_float] *)
Context (fold_key : text -> text).              (* [_fold]: NFKC, then [casefold] *)

(** ASCII without an upper-case letter: what the fast path of [_unique_keys] lets through. *)
Definition plain_key (k : text) : bool := forallb (fun c => (0 <=? c) && (c <? 128) && negb (is_upper c)) k.

(** [_unique_keys]; [false]: it raises. *)
Definition unique_keys (ks : list text) : bool :=
  bool_decide (NoDup ks) &&
  (if (1 <? length ks)%nat then plain_key (concat ks) || bool_decide (NoDup (map fold_key ks)) else true).

Definition MAX_DEPTH : nat := 128.

Definition children (v : value) : list value :=
  match v with VArr l => l | VObj fs => fs.*2 | _ => [] end.
Definition is_container (v : value) : bool := match v with VArr _ | VObj _ => true | _ => false end.

(** The loop of [_deeper_than]: one step per level of containers. *)
Fixpoint levels_exceed (limit : nat) (level : list value) : bool :=
  match level with
  | [] => false
  | _ => match limit with
         | O => true
         | S k => levels_exceed k (filter (fun v => is_container v = true) (flat_map children level))
         end
  end.

Definition deeper_than (data : value) (limit : nat) : bool :=
  levels_exceed limit (if is_container data then [data] else []).

Record JsonRpcMessage := { data : value; raw : bytes }.

Definition framed (m : JsonRpcMessage) : bytes := raw m ++ [10].

(** [decode]: [None] for a blank line and for everything the decoder refuses. *)
Definition decode (line : bytes) : option JsonRpcMessage :=
  let stripped := strip_of is_byte_ws line in
  if bool_decide (stripped = []) then None
  else
    t ← decode_bytes stripped;
    d ← loads float_of unique_keys t;
    if (MAX_DEPTH <? brackets stripped)%nat && deeper_than d MAX_DEPTH then None
    else Some {| data := d; raw := stripped |}.

End Decode.

(** [encode]: compact JSON and the frame delimiter. *)
Definition encode `{PyFloat} (payload : value) : bytes := dump payload ++ [10].

(** ** Shapes of a message *)

Definition is_dict (v : value) : bool := match v with VObj _ => true | _ => false end.

(** [data.get(k)] and [k in data], of an object. *)
Definition member_of (k : string) (v : value) : option value :=
  match v with VObj fs => field (points k) fs | _ => None end.
Definition has_member (k : string) (v : value) : bool := bool_decide (is_Some (member_of k v)).

Definition is_batch (d : value) : bool := match d with VArr _ => true | _ => false end.
Definition method (d : value) : text := match member_of "method" d with Some (VStr s) => s | _ => [] end.
Definition carries_answer (d : value) : bool := has_member "result" d || has_member "error" d.
Definition id_of (d : value) : value := default VNull (member_of "id" d).
Definition has_id (d : value) : bool := match member_of "id" d with None | Some VNull => false | Some _ => true end.

Definition is_request (d : value) : bool := negb (bool_decide (method d = [])) && has_id d && negb (carries_answer d).
Definition is_notification (d : value) : bool :=
  negb (bool_decide (method d = [])) && negb (has_id d) && negb (carries_answer d).
Definition is_response (d : value) : bool :=
  is_dict d && negb (has_member "method" d) && has_member "id" d && carries_answer d.

(** A sub-object, empty when it is none. *)
Definition dict_member (k : string) (v : value) : value :=
  match member_of k v with Some (VObj fs) => VObj fs | _ => VObj [] end.
Definition params (d : value) : value := dict_member "params" d.
Definition result (d : value) : value := dict_member "result" d.

Definition meta (d : value) : value :=
  match member_of "_meta" (params d), member_of "_meta" (result d) with
  | Some (VObj fs), _ => VObj fs
  | _, Some (VObj fs) => VObj fs
  | _, _ => VObj []
  end.

Definition protocol_version (d : value) : text :=
  match member_of "io.modelcontextprotocol/protocolVersion" (meta d) with Some (VStr s) => s | _ => [] end.

Definition result_type (d : value) : text :=
  if negb (is_response d) then []
  else match member_of "resultType" (result d) with Some (VStr s) => s | _ => points "complete" end.

Definition is_input_required (d : value) : bool := bool_decide (result_type d = points "input_required").

Definition input_requests (d : value) : list value :=
  match member_of "inputRequests" (result d) with Some (VArr l) => l | _ => [] end.

Definition input_responses (d : value) : option value :=
  match member_of "inputResponses" (params d) with
  | None | Some VNull | Some (VObj []) | Some (VArr []) => None
  | v => v
  end.

(** [cache_hints]: the keys that are present and of the right type. *)
Definition cache_hints (d : value) : list (text * value) :=
  match member_of "ttlMs" (result d) with
  | Some (VInt n) => [(points "ttl_ms", VInt n)]
  | Some (VFloat x) => [(points "ttl_ms", VFloat x)]
  | _ => []
  end ++
  match member_of "cacheScope" (result d) with Some (VStr s) => [(points "cache_scope", VStr s)] | _ => [] end.

(** ** Answers the proxy writes *)

Definition obj (fs : list (string * value)) : value := VObj (map (fun f => (points f.1, f.2)) fs).
Definition str (s : string) : value := VStr (points s).

(** [error_response]; an empty [extra] adds nothing. *)
Definition error_response (msg_id : value) (code : Z) (message : text) (extra : list (text * value)) : value :=
  obj [("jsonrpc", str "2.0"); ("id", msg_id);
       ("error", obj ([("code", VInt code); ("message", VStr message)] ++
                      if bool_decide (extra = []) then [] else [("data", VObj extra)]))].

(** [tool_error_result]. *)
Definition tool_error_result (msg_id : value) (t : text) (extra : list (text * value)) : value :=
  obj [("jsonrpc", str "2.0"); ("id", msg_id);
       ("result", obj ([("content", VArr [obj [("type", str "text"); ("text", VStr t)]]); ("isError", VBool true)] ++
                       if bool_decide (extra = []) then [] else [("_meta", obj [("norviq", VObj extra)])]))].

(** ** The depth check *)

Lemma list_max_cons x l : list_max (x :: l) = Nat.max x (list_max l).
Proof. done. Qed.

Lemma list_max_app l l' : list_max (l ++ l') = Nat.max (list_max l) (list_max l').
Proof. induction l as [|x l IH]; [done|]. cbn [app]. rewrite !list_max_cons, IH. lia. Qed.

Lemma depth_container v : is_container v = true -> depth v = S (list_max (map depth (children v))).
Proof. destruct v; try done. intros _. cbn [depth children]. do 2 f_equal. symmetry. apply map_map. Qed.

Lemma list_max_containers l : list_max (map depth (filter (fun v => is_container v = true) l)) = list_max (map depth l).
Proof.
  induction l as [|v l IH]; [done|]. rewrite filter_cons. destruct (decide (is_container v = true)) as [C|C];
    cbn [map]; rewrite !list_max_cons, IH; [done|]. by destruct v.
Qed.

Lemma list_max_children l : Forall (fun v => is_container v = true) l ->
  list_max (map depth (flat_map children l)) = pred (list_max (map depth l)).
Proof.
  induction 1 as [|v l C F IH]; [done|]. cbn [flat_map map]. rewrite map_app, list_max_app, list_max_cons, IH.
  rewrite (depth_container v C). destruct F as [|w l Cw F]; [cbn; lia|].
  cbn [map]. rewrite list_max_cons, (depth_container w Cw). lia.
Qed.

Lemma levels_exceed_depth limit level : Forall (fun v => is_container v = true) level ->
  levels_exceed limit level = (limit <? list_max (map depth level))%nat.
Proof.
  revert level. induction limit as [|k IH]; intros level F; destruct F as [|v l C F]; try done.
  - cbn [levels_exceed map]. symmetry. rewrite list_max_cons, (depth_container v C). apply Nat.ltb_lt. lia.
  - cbn [levels_exceed]. rewrite IH by (apply Forall_forall; intros x [? _]%list_elem_of_filter; done).
    rewrite list_max_containers, list_max_children by (by constructor). cbn [map]. rewrite list_max_cons, (depth_container v C).
    apply eq_true_iff_eq. rewrite !Nat.ltb_lt. lia.
Qed.

(** [_deeper_than] compares the nesting with the limit. *)
Lemma deeper_than_exact d limit : deeper_than d limit = (limit <? depth d)%nat.
Proof.
  unfold deeper_than. destruct (is_container d) eqn:C.
  - rewrite levels_exceed_depth by (by repeat constructor). cbn [map]. rewrite list_max_cons. by rewrite Nat.max_0_r.
  - destruct limit, d; done.
Qed.

(** ** Brackets survive the decoding of bytes *)

Lemma brackets_cons c t : brackets (c :: t) = ((if decide (c = 91 \/ c = 123)%Z then 1 else 0) + brackets t)%nat.
Proof. unfold brackets. rewrite filter_cons. by case_decide. Qed.

Lemma before_text_inv c o t : before_text c o = Some t -> exists t', o = Some t' /\ t = c :: t'.
Proof. destruct o; [|done]. intros [= <-]. eauto. Qed.

(** A character that is a bracket is spelled by a byte that is one. *)
Lemma brackets_step c p t b : (c = 91 \/ c = 123 -> exists x, x ∈ p /\ (x = 91 \/ x = 123)) ->
  (brackets t <= brackets b -> brackets (c :: t) <= brackets (p ++ b))%nat.
Proof.
  intros S L. rewrite brackets_cons. unfold brackets at 2. rewrite filter_app, length_app. fold (brackets b).
  case_decide as C; [|lia]. destruct (S C) as (x & I & X).
  assert (J : x ∈ filter (fun c => c = 91 \/ c = 123) p) by (by apply list_elem_of_filter).
  destruct (filter _ p); [by apply elem_of_nil in J|]. cbn. lia.
Qed.

Definition is_byte (x : Z) : Prop := 0 <= x < 256.

Lemma utf8_brackets b t : utf8_decode b = Some t -> (brackets t <= brackets b)%nat.
Proof.
  revert t. induction (Wf_nat.well_founded_ltof _ (@length Z) b) as [b _ IH]; intros t E.
  assert (step : forall c p r, b = p ++ r -> p <> [] -> (c = 91 \/ c = 123 -> exists x, x ∈ p /\ (x = 91 \/ x = 123)) ->
    before_text c (utf8_decode r) = Some t -> (brackets t <= brackets b)%nat).
  { intros c p r -> N S (t' & Er & ->)%before_text_inv. apply brackets_step; [done|]. apply IH; [|done].
    unfold Wf_nat.ltof. rewrite length_app. destruct p; [done|]. cbn. lia. }
  destruct b as [|x r]; [by injection E as <-|]. cbn [utf8_decode] in E.
  destruct ((0 <=? x) && (x <? 128)) eqn:E0; bool_prop.
  { apply (step x [x] r); try done. intros C. exists x. split; [left|done]. }
  destruct ((194 <=? x) && (x <? 224)) eqn:E1; bool_prop.
  { destruct r as [|y r]; [done|]. destruct (is_cont y) eqn:Cy; [|done]. eapply (step _ [x; y] r); try done.
    unfold is_cont in Cy. bool_prop. lia. }
  destruct ((224 <=? x) && (x <? 240)) eqn:E2; bool_prop.
  { destruct r as [|y [|z r]]; try done. destruct (_ && _) eqn:Cy in E; [|done]. eapply (step _ [x; y; z] r); try done.
    bool_prop. lia. }
  destruct ((240 <=? x) && (x <? 245)) eqn:E3; bool_prop; [|done].
  destruct r as [|y [|z [|w r]]]; try done. destruct (_ && _) eqn:Cy in E; [|done]. eapply (step _ [x; y; z; w] r); try done.
  bool_prop. lia.
Qed.

Lemma units16_brackets big b us : Forall is_byte b -> units16 big b = Some us -> (brackets us <= brackets b)%nat.
Proof.
  revert us. induction (Wf_nat.well_founded_ltof _ (@length Z) b) as [b _ IH]; intros us F E.
  destruct b as [|x [|y r]]; [by injection E as <-|done|]. apply before_text_inv in E as (us' & E & ->).
  apply Forall_cons in F as [Fx F]. apply Forall_cons in F as [Fy F]. unfold is_byte in *.
  change (x :: y :: r) with ([x; y] ++ r). apply brackets_step; [|apply IH; [unfold Wf_nat.ltof; cbn; lia|done|done]].
  intros C. destruct big.
  - exists y. split; [right; left|]. destruct C; [left|right]; lia.
  - exists x. split; [left|]. destruct C; [left|right]; lia.
Qed.

Lemma units32_brackets big b us : Forall is_byte b -> units32 big b = Some us -> (brackets us <= brackets b)%nat.
Proof.
  revert us. induction (Wf_nat.well_founded_ltof _ (@length Z) b) as [b _ IH]; intros us F E.
  destruct b as [|x [|y [|z [|w r]]]]; try done; [by injection E as <-|]. cbn [units32] in E.
  destruct (_ <? _); [|done]. apply before_text_inv in E as (us' & E & ->).
  apply Forall_cons in F as [Fx F]. apply Forall_cons in F as [Fy F]. apply Forall_cons in F as [Fz F].
  apply Forall_cons in F as [Fw F]. unfold is_byte in *.
  change (x :: y :: z :: w :: r) with ([x; y; z; w] ++ r).
  apply brackets_step; [|apply IH; [unfold Wf_nat.ltof; cbn; lia|done|done]].
  intros C. destruct big.
  - exists w. split; [do 3 right; left|]. destruct C; [left|right]; lia.
  - exists x. split; [left|]. destruct C; [left|right]; lia.
Qed.

Lemma join_units_brackets us : Forall (fun u => 0 <= u) us -> (brackets (join_units us) <= brackets us)%nat.
Proof.
  induction (Wf_nat.well_founded_ltof _ (@length Z) us) as [us _ IH]; intros F.
  destruct us as [|u [|u' us]]; [done|done|]. apply Forall_cons in F as [Fu F]. cbn [join_units].
  destruct (is_high u && is_low u') eqn:P.
  - unfold is_high, is_low in P. bool_prop. change (u :: u' :: us) with ([u; u'] ++ us). apply brackets_step; [lia|].
    apply IH; [unfold Wf_nat.ltof; cbn; lia|by apply Forall_cons in F as [_ ?]].
  - change (u :: u' :: us) with ([u] ++ u' :: us). apply brackets_step; [intros; exists u; split; [left|done]|].
    apply (IH (u' :: us)); [unfold Wf_nat.ltof; cbn; lia|done].
Qed.

Lemma units16_nonneg big b us : Forall is_byte b -> units16 big b = Some us -> Forall (fun u => 0 <= u) us.
Proof.
  revert us. induction (Wf_nat.well_founded_ltof _ (@length Z) b) as [b _ IH]; intros us F E.
  destruct b as [|x [|y r]]; [by injection E as <-|done|]. apply before_text_inv in E as (us' & E & ->).
  apply Forall_cons in F as [Fx F]. apply Forall_cons in F as [Fy F]. unfold is_byte in *.
  constructor; [destruct big; lia|]. apply (IH r); [unfold Wf_nat.ltof; cbn; lia|done|done].
Qed.

Lemma decode_bytes_brackets b t : Forall is_byte b -> decode_bytes b = Some t -> (brackets t <= brackets b)%nat.
Proof.
  intros F. unfold decode_bytes. destruct (detect_encoding b) as [enc bom].
  assert (Fd : Forall is_byte (drop bom b)) by (by apply Forall_drop).
  assert (Ld : (brackets (drop bom b) <= brackets b)%nat) by (apply brackets_suffix, suffix_drop).
  destruct enc as [|big|big].
  - intros E%utf8_brackets. lia.
  - unfold mbind, option_bind. destruct (units16 big (drop bom b)) as [us|] eqn:E; [|done]. intros [= <-].
    pose proof (join_units_brackets us (units16_nonneg _ _ _ Fd E)). apply units16_brackets in E; [lia|done].
  - intros E. apply units32_brackets in E; [lia|done].
Qed.

(** ** What a decoded message guarantees *)

Section Guarantees.
Context (float_of : text -> option double) (fold_key : text -> text).
(** Case folding and normalisation leave ASCII without upper-case letters as it is. *)
Context (fold_plain : forall k, plain_key k = true -> fold_key k = k).

Lemma unique_keys_fold ks : unique_keys fold_key ks = true -> NoDup (map fold_key ks).
Proof.
  unfold unique_keys. intros U. bool_prop. destruct (1 <? length ks)%nat eqn:L.
  - match goal with X : _ || _ = true |- _ => apply orb_true_iff in X as [P|P] end; [|by apply bool_decide_eq_true in P].
    replace (map fold_key ks) with ks; [done|]. unfold plain_key in P. rewrite forallb_all in P.
    rewrite <- (map_id ks) at 1. apply map_ext_in. intros k I%list_elem_of_In. symmetry. apply fold_plain. apply forallb_all.
    rewrite Forall_forall in P |- *. intros c J. apply P. apply list_elem_of_In, in_concat. exists k.
    split; by apply list_elem_of_In.
  - apply Nat.ltb_ge in L. destruct ks as [|k [|k' ks]]; cbn in *; [constructor| |lia]. apply NoDup_singleton.
Qed.

Lemma unique_keys_nodup ks : unique_keys fold_key ks = true -> NoDup ks.
Proof. unfold unique_keys. intros U. by bool_prop. Qed.

Lemma objects_ok_impl (P Q : list text -> bool) v :
  (forall ks, P ks = true -> Q ks = true) -> objects_ok P v = true -> objects_ok Q v = true.
Proof.
  intros I. induction v as [|b|n|d|s|l IH|fs IH] using value_ind'; try done; cbn; intros O.
  - rewrite forallb_all in O |- *. rewrite Forall_forall in *. auto.
  - bool_prop. rewrite forallb_all in *. rewrite Forall_forall in *. apply andb_true_iff. split; [auto|].
    apply forallb_all, Forall_forall. auto.
Qed.

(** C17: One reading only: whatever bytes a peer sends, a message that is decoded has in no object two keys that
    become equal under normalisation and case folding, nests at most [MAX_DEPTH] levels, and is kept with
    exactly the bytes it was read from.  (The count of brackets that decides whether the tree is walked
    never hides a deeper one.) *)
Theorem decoded_reads_one_way line m :
  Forall is_byte line -> decode float_of fold_key line = Some m ->
  objects_ok (fun ks => bool_decide (NoDup (map fold_key ks))) (data m) = true /\
  (depth (data m) <= MAX_DEPTH)%nat /\ raw m = strip_of is_byte_ws line.
Proof.
  intros F. unfold decode. set (s := strip_of is_byte_ws line).
  assert (Fs : Forall is_byte s).
  { assert (Dw : forall p t, Forall is_byte t -> Forall is_byte (drop_while p t)).
    { intros p t. induction 1 as [|c t C Ft IH]; cbn; [constructor|]. destruct (p c); [done|by constructor]. }
    unfold s, strip_of. apply Forall_reverse, Dw, Forall_reverse, Dw, F. }
  case_bool_decide; [done|]. unfold mbind, option_bind.
  destruct (decode_bytes s) as [t|] eqn:Et; [|done]. destruct (loads float_of _ t) as [d|] eqn:El; [|done].
  destruct (_ && _) eqn:Ed; [done|]. intros [= <-]. cbn [data raw]. split_and!; [| |done].
  - eapply objects_ok_impl; [|apply (loads_keys _ _ unique_keys_nodup _ _ El)].
    intros ks U. by apply bool_decide_eq_true, unique_keys_fold.
  - apply loads_depth in El. apply decode_bytes_brackets in Et; [|done]. rewrite deeper_than_exact in Ed.
    apply andb_false_iff in Ed as [Ed|Ed]; apply Nat.ltb_ge in Ed; lia.
Qed.

End Guarantees.

(** ** What the proxy encodes reads back *)

Definition printable (c : Z) : Prop := 32 <= c <= 126.

Lemma token_plain c : is_token c = true -> printable c /\ is_byte_ws c = false.
Proof.
  unfold is_token, is_alnum, is_upper, is_lower, is_num, printable, is_byte_ws. intros T.
  assert (43 <= c <= 122).
  { repeat (apply orb_true_iff in T as [T|T]); bool_prop; lia. }
  split; [lia|]. apply orb_false_iff. split; [apply Z.eqb_neq; lia|]. apply andb_false_iff. right. apply Z.leb_gt. lia.
Qed.

Section RoundTrip.
Context `{JsonFloat} (fold_key : text -> text).
Context (fold_plain : forall k, plain_key k = true -> fold_key k = k).

Lemma dump_ascii v : value_ok v = true -> Forall printable (dump v).
Proof. intros O. eapply Forall_impl; [by apply dump_printable|]. intros c C. cbn beta in C. unfold printable. lia. Qed.

Lemma dump_last v : value_ok v = true -> exists t c, dump v = t ++ [c] /\ is_byte_ws c = false.
Proof.
  intros O. destruct (scalar v) eqn:S.
  - pose proof (scalar_token v O S) as T. pose proof (scalar_nonempty v O S) as N.
    destruct (dump v) as [|c t _] eqn:E using rev_ind; [done|]. exists t, c. split; [done|].
    rewrite forallb_app in T. cbn in T. bool_prop. by apply token_plain.
  - destruct v; try done; cbn [dump]; unfold dump_str; [|by exists (91 :: join [44] (map dump l)), 93|].
    + exists (34 :: flat_map esc1 (units s)), 34. done.
    + by exists (123 :: join [44] (map (fun f => dump_str f.1 ++ 58 :: dump f.2) fields)), 125.
Qed.

Lemma utf8_decode_ascii b : Forall printable b -> utf8_decode b = Some b.
Proof.
  induction 1 as [|c b C F IH]; [done|]. cbn [utf8_decode]. unfold printable in C.
  assert ((0 <=? c) && (c <? 128) = true) as -> by (apply andb_true_iff; split; [apply Z.leb_le|apply Z.ltb_lt]; lia).
  by rewrite IH.
Qed.

Lemma detect_ascii b : Forall printable b -> detect_encoding b = (Utf8, 0%nat).
Proof.
  intros F. assert (Z0 : forall c, printable c -> (c =? 0) = false) by (intros c C; apply Z.eqb_neq; unfold printable in C; lia).
  assert (T : forall a p, a = 0 \/ 127 < a -> tstarts (a :: p) b = false).
  { intros a p A. destruct F as [|c b C F]; [done|]. cbn. unfold printable in C. by rewrite (proj2 (Z.eqb_neq _ _)) by lia. }
  unfold detect_encoding. rewrite !T by lia.
  destruct F as [|b0 b P0 F]; [done|]. destruct F as [|b1 b P1 F]; [done|]. destruct F as [|b2 b P2 F]; [by rewrite !Z0|].
  destruct F as [|b3 b P3 F]; [done|]. by rewrite !Z0.
Qed.

Lemma strip_framed v : value_ok v = true -> strip_of is_byte_ws (dump v ++ [10]) = dump v.
Proof.
  intros O. destruct (dump_last v O) as (t & c & E & W). pose proof (dump_head v O) as Hd. unfold strip_of.
  assert (Dr : drop_while is_byte_ws (dump v ++ [10]) = dump v ++ [10]).
  { destruct (dump v) as [|x r]; [done|]. cbn. assert (is_byte_ws x = false) as ->; [|done].
    destruct (scalar v); [by apply token_plain|]. by destruct v; subst. }
  rewrite Dr, E, !reverse_app. change (reverse [10]) with [10]. change (reverse [c]) with [c]. cbn [app drop_while].
  change (is_byte_ws 10) with true. cbn iota. rewrite W. by rewrite reverse_cons, reverse_involutive.
Qed.

(** C18: Framing a value and decoding the frame gives the value back, and the frame is the compact text: for every
    value that [decode] could have produced (distinct folded keys, integers within Python's literal limit,
    strings without a split surrogate pair) and that nests no deeper than the bound. *)
Theorem encode_decode v :
  readable (unique_keys fold_key) v = true -> (depth v <= MAX_DEPTH)%nat ->
  decode float_of fold_key (encode v) = Some {| data := v; raw := dump v |}.
Proof.
  intros R D. pose proof (readable_ok _ _ R) as O. unfold decode, encode. rewrite strip_framed by done.
  pose proof (dump_ascii v O) as P. rewrite bool_decide_false.
  2:{ pose proof (dump_head v O) as Hd. intros Q. by rewrite Q in Hd. }
  unfold decode_bytes. rewrite detect_ascii by done. rewrite drop_0,  utf8_decode_ascii by done. cbn [mbind option_bind].
  rewrite loads_dump; [|done]. cbn [mbind option_bind].
  rewrite deeper_than_exact, (proj2 (Nat.ltb_ge _ _) D). by rewrite andb_false_r.
Qed.

End RoundTrip.

(** ** Shapes exclude each other *)

(** A message is at most one of batch, request, notification and response; whatever mixes a method with an
    answer is none of them. *)
Theorem one_shape d :
  (if is_batch d then 1 else 0) + (if is_request d then 1 else 0) + (if is_notification d then 1 else 0)
    + (if is_response d then 1 else 0) <= 1 /\
  (method d <> [] -> carries_answer d = true ->
     is_batch d = false /\ is_request d = false /\ is_notification d = false /\ is_response d = false).
Proof.
  assert (Ba : is_batch d = true -> method d = [] /\ is_response d = false) by (by destruct d).
  assert (Me : has_member "method" d = false -> method d = []).
  { unfold has_member, method. intros E. destruct (member_of "method" d); [by rewrite bool_decide_true in E|done]. }
  unfold is_request, is_notification. split.
  - destruct (is_batch d); [destruct (Ba eq_refl) as [-> ->]; cbn; lia|].
    destruct (is_response d) eqn:Er; [|destruct (bool_decide _), (has_id d), (carries_answer d); cbn; lia].
    unfold is_response in Er. bool_prop. rewrite Me by done. cbn. lia.
  - intros M A. rewrite A. cbn [negb]. rewrite !andb_false_r. split_and!; try done.
    + destruct (is_batch d); [|done]. by destruct (Ba eq_refl).
    + destruct (is_response d) eqn:Er; [|done]. unfold is_response in Er. bool_prop. by rewrite Me in M.
Qed.

(** ** A refusal is an answer to its request *)

(** Both refusals the proxy writes are responses, and nothing else, with the id of the request they answer;
    a tool refusal is a completed result flagged as an error, a protocol refusal has no result at all. *)
Theorem refusals_answer msg_id code message t extra :
  let e := error_response msg_id code message extra in
  let r := tool_error_result msg_id t extra in
  (is_response e = true /\ id_of e = msg_id /\ is_request e = false /\ is_notification e = false /\
   member_of "result" e = None) /\
  (is_response r = true /\ id_of r = msg_id /\ is_request r = false /\ is_notification r = false /\
   result_type r = points "complete" /\ member_of "isError" (result r) = Some (VBool true)).
Proof.
  intros e r. split; [by split_and!|]. split_and!; try done; unfold r, tool_error_result; by case_bool_decide.
Qed.

(** ** Concrete messages *)

Module Wire.
Import LiteralFloat.

Definition fold_ascii (k : text) : text := map (fun c => if is_upper c then c + 32 else c) k.

Lemma fold_ascii_plain k : plain_key k = true -> fold_ascii k = k.
Proof.
  unfold plain_key, fold_ascii. rewrite forallb_all. induction 1 as [|c k C F IH]; [done|]. cbn. rewrite IH.
  bool_prop. by destruct (is_upper c).
Qed.

Definition ping : value := obj [("jsonrpc", str "2.0"); ("id", VInt 1); ("method", str "ping"); ("params", obj [("N", VFloat (Double true 3 (-1)))])].

Lemma encode_decode_witness :
  decode read fold_ascii (@encode literal_float ping) = Some {| data := ping; raw := @dump literal_float ping |}.
Proof. apply (@encode_decode literal_float literal_json_float fold_ascii ping); [by vm_compute|]. unfold MAX_DEPTH. cbn. lia. Defined.

(** A line with a key that another parser would read as a second [name] is refused; without it, it is read. *)
Definition quotes (s : string) : text := map (fun c => if c =? 39 then 34 else c) (points s).

Lemma folded_key_refused : decode read fold_ascii (quotes "{'name': 'read_file', 'Name': 'delete_all'}") = None.
Proof. by vm_compute. Qed.

Lemma decoded_reads_one_way_witness :
  exists m, decode read fold_ascii (quotes " {'name': 'read_file', 'Args': [1, {}]} ") = Some m /\
    objects_ok (fun ks => bool_decide (NoDup (map fold_ascii ks))) (data m) = true /\ (depth (data m) <= MAX_DEPTH)%nat.
Proof.
  destruct (decode read fold_ascii (quotes " {'name': 'read_file', 'Args': [1, {}]} ")) as [m|] eqn:E; [|by vm_compute in E].
  exists m. split; [done|]. 
  destruct (decoded_reads_one_way read fold_ascii fold_ascii_plain (quotes " {'name': 'read_file', 'Args': [1, {}]} ") m)
    as (O & D & _); [|exact E|done].
  apply (bool_decide_unpack (Forall (fun x => 0 <= x < 256) _)). by vm_compute.
Defined.

Lemma one_shape_witness :
  let d := obj [("id", VInt 3); ("method", str "x"); ("result", obj [])] in
  is_batch d = false /\ is_request d = false /\ is_notification d = false /\ is_response d = false.
Proof. apply one_shape; [by vm_compute|reflexivity]. Defined.

End Wire.
