(* ===== verification/McpPins.v ===== *)
(** * Pins in the control plane, and their way back to a proxy

    [api/routers/mcp.py] keeps the durable pins: a proxy reports what a server served ([observe]), an
    administrator approves or withdraws ([approve_pin], [revoke_pin]), and a proxy reads the rows back
    ([list_pins], [ControlPlanePinStore.load] of [mcp/pins.py]).  The registry of [Pins] runs on what was
    loaded, so the theorems here follow a decision from the console to the verdict of a running proxy.

    A database session is atomic: its changes land together at the commit or not at all; whether a commit
    succeeds is an input. *)

From stdpp Require Import sorting.
From S2P Require Import Prelude.
From S2P Require Import Text.
From S2P Require Import Json.
From S2P Require Import Pins.
From S2P Require Import Auth.

(** ** Rows *)

(** A row of [mcp_tool_pins]; its key is (namespace, server, tool). *)
Record PinRow := {
  pr_approved_digest : text;
  pr_last_digest : text;
  pr_approved_canonical : text;
  pr_last_canonical : text;
  pr_approved : bool;
  pr_approved_by : text;
  pr_approved_at : option Z;
  pr_scan_severity : text;
  pr_findings : list value;
  pr_drift_count : Z;
  pr_transport : text;
  pr_first_seen_at : Z;
  pr_last_seen_at : Z;
}.

(** The table: the rows of one server of one namespace, by tool name. *)
Notation PinTable := (gmap (text * text) (gmap text PinRow)).

Definition pins_of (ns server : text) (t : PinTable) : gmap text PinRow := default ∅ (t !! (ns, server)).
Definition row_at (ns server tool : text) (t : PinTable) : option PinRow := pins_of ns server t !! tool.
Definition put_row (ns server tool : text) (r : PinRow) (t : PinTable) : PinTable :=
  <[(ns, server) := <[tool := r]> (pins_of ns server t)]> t.

(** How a request ends when it does not answer: refused, or an exception that reaches the framework. *)
Inductive Failure := Refused (e : HttpError) | Crashed.
Notation Reply := (sum Failure).

Definition checked {A} (r : R A) : Reply A := match r with inl e => inl (Refused e) | inr a => inr a end.

Definition by_user (u : Claims) : text := if bool_decide (c_sub u = []) then points "admin" else c_sub u.

(** ** Observing a catalog *)

Record ObservedTool := { o_name : text; o_digest : text; o_canonical : text; o_severity : text; o_findings : list value }.

Record ObserveRequest := {
  ob_namespace : text; ob_server : text; ob_transport : text; ob_mode : string; ob_tools : list ObservedTool;
}.

(** The row of a tool never seen before. *)
Definition new_row (mode : Mode) (transport : text) (now : Z) (t : ObservedTool) : PinRow :=
  let ok := bool_decide (mode = Tofu) in
  {| pr_approved_digest := o_digest t; pr_last_digest := o_digest t; pr_approved_canonical := o_canonical t;
     pr_last_canonical := o_canonical t; pr_approved := ok; pr_approved_by := if ok then points "tofu" else [];
     pr_approved_at := if ok then Some now else None; pr_scan_severity := o_severity t; pr_findings := o_findings t;
     pr_drift_count := 0; pr_transport := transport; pr_first_seen_at := now; pr_last_seen_at := now |}.

(** A known row, seen again: what is approved stays. *)
Definition seen_again (now : Z) (t : ObservedTool) (r : PinRow) : PinRow :=
  {| pr_approved_digest := pr_approved_digest r; pr_last_digest := o_digest t;
     pr_approved_canonical := pr_approved_canonical r; pr_last_canonical := o_canonical t; pr_approved := pr_approved r;
     pr_approved_by := pr_approved_by r; pr_approved_at := pr_approved_at r; pr_scan_severity := o_severity t;
     pr_findings := o_findings t;
     pr_drift_count := if bool_decide (o_digest t = pr_approved_digest r) then pr_drift_count r else pr_drift_count r + 1;
     pr_transport := pr_transport r; pr_first_seen_at := pr_first_seen_at r; pr_last_seen_at := now |}.

Record Verdict := { v_status : Status; v_approved_digest : text; v_severity : text }.

(** The session while the catalog is walked: the rows that were read (and are changed in place), the rows
    added, and the answer so far.  A row that is added is not entered in [existing]. *)
Record Session := { existing : gmap text PinRow; added : list (text * PinRow); verdicts : list (text * Verdict) }.

Definition observe_tool (mode : Mode) (transport : text) (now : Z) (s : Session) (t : ObservedTool) : Session :=
  match existing s !! o_name t with
  | None =>
      let r := new_row mode transport now t in
      {| existing := existing s; added := added s ++ [(o_name t, r)];
         verdicts := put_field (o_name t)
           {| v_status := if pr_approved r then PIN_FIRST_SEEN else PIN_QUARANTINED;
              v_approved_digest := pr_approved_digest r; v_severity := o_severity t |} (verdicts s) |}
  | Some r =>
      let r' := seen_again now t r in
      {| existing := <[o_name t := r']> (existing s); added := added s;
         verdicts := put_field (o_name t)
           {| v_status := if bool_decide (o_digest t = pr_approved_digest r)
                          then (if pr_approved r then PIN_OK else PIN_QUARANTINED) else PIN_DRIFT;
              v_approved_digest := pr_approved_digest r'; v_severity := o_severity t |} (verdicts s) |}
  end.

(** The commit: two added rows with one primary key, or a failing database, raise and nothing lands. *)
Definition commit_session (ns server : text) (s : Session) (committed : bool) (t : PinTable) : option PinTable :=
  if committed && bool_decide (NoDup (added s).*1)
  then Some (<[(ns, server) := list_to_map (added s) ∪ existing s]> t) else None.

Definition observe (u : Claims) (body : ObserveRequest) (now : Z) (committed : bool) (t : PinTable)
  : PinTable * Reply (text * Mode * list (text * Verdict)) :=
  match checked (require_admin_or_service u),
        checked (scoped_namespace u (if bool_decide (ob_namespace body = []) then VNull else VStr (ob_namespace body))) with
  | inl e, _ | _, inl e => (t, inl e)
  | inr _, inr v =>
      let ns := match v with VStr n => if bool_decide (n = []) then ob_namespace body else n | _ => ob_namespace body end in
      if bool_decide (ns = []) then (t, inl (Refused (Http 400 "namespace is required")))
      else if bool_decide (ob_server body = []) then (t, inl (Refused (Http 400 "server_id is required")))
      else
        let mode := mode_of (ob_mode body) in
        let s := foldl (observe_tool mode (ob_transport body) now)
                       {| existing := pins_of ns (ob_server body) t; added := []; verdicts := [] |} (ob_tools body) in
        match commit_session ns (ob_server body) s committed t with
        | None => (t, inl Crashed)
        | Some t' => (t', inr (ns, mode, verdicts s))
        end
  end.

(** ** The administrator's acts *)

Definition status_of (r : PinRow) : Status :=
  if negb (bool_decide (pr_last_digest r = [])) && negb (bool_decide (pr_last_digest r = pr_approved_digest r)) then PIN_DRIFT
  else if negb (pr_approved r) then PIN_QUARANTINED
  else PIN_OK.

Definition status_text (s : Status) : text :=
  points (match s with
          | PIN_OK => "pinned" | PIN_FIRST_SEEN => "first_seen" | PIN_DRIFT => "drift" | PIN_QUARANTINED => "quarantined"
          end).

Definition approve_row (d by_ : text) (now : Z) (r : PinRow) : PinRow :=
  {| pr_approved_digest := d; pr_last_digest := pr_last_digest r;
     pr_approved_canonical := if bool_decide (d = pr_last_digest r) then pr_last_canonical r else pr_approved_canonical r;
     pr_last_canonical := pr_last_canonical r; pr_approved := true; pr_approved_by := by_; pr_approved_at := Some now;
     pr_scan_severity := pr_scan_severity r; pr_findings := pr_findings r; pr_drift_count := pr_drift_count r;
     pr_transport := pr_transport r; pr_first_seen_at := pr_first_seen_at r; pr_last_seen_at := pr_last_seen_at r |}.

Definition revoke_row (r : PinRow) : PinRow :=
  {| pr_approved_digest := pr_approved_digest r; pr_last_digest := pr_last_digest r;
     pr_approved_canonical := pr_approved_canonical r; pr_last_canonical := pr_last_canonical r; pr_approved := false;
     pr_approved_by := []; pr_approved_at := None; pr_scan_severity := pr_scan_severity r; pr_findings := pr_findings r;
     pr_drift_count := pr_drift_count r; pr_transport := pr_transport r; pr_first_seen_at := pr_first_seen_at r;
     pr_last_seen_at := pr_last_seen_at r |}.

(** An administrator's change of one row: role, namespace, the row, a check on it, the commit. *)
Definition change_row (u : Claims) (ns server tool : text) (admits : PinRow -> R unit) (change : PinRow -> PinRow)
    (committed : bool) (t : PinTable) : PinTable * Reply PinRow :=
  match checked (require_admin u), checked (scoped_namespace u (VStr ns)) with
  | inl e, _ | _, inl e => (t, inl e)
  | inr _, inr _ =>
      match row_at ns server tool t with
      | None => (t, inl (Refused (Http 404 "pin not found")))
      | Some r =>
          match checked (admits r) with
          | inl e => (t, inl e)
          | inr _ => if committed then (put_row ns server tool (change r) t, inr (change r)) else (t, inl Crashed)
          end
      end
  end.

Definition approve_pin (u : Claims) (ns server tool d : text) (now : Z) (committed : bool) (t : PinTable)
  : PinTable * Reply PinRow :=
  change_row u ns server tool
    (fun r => if bool_decide (d ∈ [pr_approved_digest r; pr_last_digest r]) then mret tt
              else inl (Http 409 "digest does not match the approved or the currently-served definition"))
    (approve_row d (by_user u) now) committed t.

Definition revoke_pin (u : Claims) (ns server tool : text) (committed : bool) (t : PinTable) : PinTable * Reply PinRow :=
  change_row u ns server tool (fun _ => mret tt) revoke_row committed t.

(** [forget_server], its effect on the pins: the decision about the server is in [McpServers]. *)
Definition forget_pins (u : Claims) (ns server : text) (committed : bool) (t : PinTable) : PinTable * Reply Z :=
  match checked (require_admin u), checked (scoped_namespace u (VStr ns)) with
  | inl e, _ | _, inl e => (t, inl e)
  | inr _, inr _ =>
      if committed then (delete (ns, server) t, inr (Z.of_nat (size (pins_of ns server t)))) else (t, inl Crashed)
  end.

(** ** Reading the pins back *)

Record Listed := { li_namespace : text; li_server : text; li_tool : text; li_row : PinRow }.

Definition rows_of (ns server : text) (m : gmap text PinRow) : list Listed :=
  map (fun e => {| li_namespace := ns; li_server := server; li_tool := e.1; li_row := e.2 |}) (map_to_list m).
Definition all_rows (t : PinTable) : list Listed := flat_map (fun e => rows_of e.1.1 e.1.2 e.2) (map_to_list t).

(** [order_by(server_id, tool_name)]. *)
Definition listed_before (a b : Listed) : Prop :=
  (bool_decide (li_server a = li_server b) && text_leb (li_tool a) (li_tool b)
   || negb (bool_decide (li_server a = li_server b)) && text_leb (li_server a) (li_server b)) = true.
#[export] Instance listed_before_dec : RelDecision listed_before.
Proof. intros a b. unfold listed_before. apply _. Defined.

Definition matches (filter : option text) (t : text) : bool :=
  match filter with Some f => bool_decide (f = []) || bool_decide (f = t) | None => true end.

(** [list_pins]: the query parameters, each [None] when absent; an empty one filters nothing. *)
Definition list_pins (u : Claims) (namespace server : option text) (status : option text) (t : PinTable)
  : Reply (list Listed) :=
  match checked (read_namespace u (match namespace with Some n => VStr n | None => VNull end)) with
  | inl e => inl e
  | inr v =>
      let ns := match v with VStr n => Some n | _ => None end in
      let rows := merge_sort listed_before
        (filter (fun l => matches ns (li_namespace l) && matches server (li_server l) = true) (all_rows t)) in
      inr (filter (fun l => matches status (status_text (status_of (li_row l))) = true) rows)
  end.

(** The record [load] builds from a row. *)
Definition loaded_pin (sha256 : text -> text) (server name : text) (r : PinRow) : ToolPin :=
  {| pin := pin_id sha256 server name; server_id := server; tool_name := name; digest := pr_approved_digest r;
     first_seen_at := 0%Q; approved := pr_approved r; scan_severity := pr_scan_severity r;
     canonical := pr_approved_canonical r; drift_count := pr_drift_count r; last_digest := pr_last_digest r |}.

(** What the control plane answers: nothing usable (no connection, an error status, a body that is no JSON),
    a JSON value that is no list, or rows; [None] among the rows is a value [row.get] or [int] raises on. *)
Inductive Response := Unreachable | NotAList | Rows (rows : list (option (text * PinRow))).

Section ControlPlane.
Context (sha256 : text -> text) (server : text).

Definition set_degraded (b : bool) (s : ControlPlanePinStore) : ControlPlanePinStore :=
  {| cp_pins := cp_pins s; pending := pending s; degraded := b |}.

Fixpoint load_rows (rows : list (option (text * PinRow))) (h : Heap) (s : ControlPlanePinStore)
  : Heap * ControlPlanePinStore * bool :=
  match rows with
  | [] => (h, set_degraded false s, false)
  | None :: _ => (h, s, true)
  | Some (name, r) :: rows' =>
      let h' := h ++ [loaded_pin sha256 server name r] in
      load_rows rows' h'
        {| cp_pins := put_pin h' (length h) (cp_pins s); pending := pending s; degraded := degraded s |}
  end.

(** [load]; the flag: it raised. *)
Definition load (resp : Response) (st : State ControlPlanePinStore) : State ControlPlanePinStore * bool :=
  match resp with
  | Unreachable => ({| heap := heap st; store := set_degraded true (store st) |}, false)
  | NotAList => ({| heap := heap st; store := set_degraded false (store st) |}, false)
  | Rows rows => let '(h, s, raised) := load_rows rows (heap st) (store st) in ({| heap := h; store := s |}, raised)
  end.

(** What [flush] sends for a record when it is given no catalog. *)
Definition pending_tool (r : ToolPin) : ObservedTool :=
  {| o_name := tool_name r; o_digest := if bool_decide (last_digest r = []) then digest r else last_digest r;
     o_canonical := canonical r; o_severity := scan_severity r; o_findings := [] |}.

(** [flush]: the report that is sent, if any.  The queue is emptied either way, and a failing request is
    only logged. *)
Definition flush (catalog : option (list ObservedTool)) (st : State ControlPlanePinStore)
  : State ControlPlanePinStore * option (list ObservedTool) :=
  let s := store st in
  ({| heap := heap st; store := {| cp_pins := cp_pins s; pending := []; degraded := degraded s |} |},
   if degraded s || bool_decide (pending s = []) then None
   else Some (default (map (fun l => pending_tool (heap st !!! l)) (pending s)) catalog)).

(** [catalog_report_due] of the firewall: the fingerprint of the catalog reported last, and whether this one
    is to be reported.  The fingerprint is taken over [json.dumps] of the pairs of name and digest. *)
Definition dump_pair (t : ObservedTool) : text := 91 :: dump_str (o_name t) ++ [44; 32] ++ dump_str (o_digest t) ++ [93].
Definition fingerprint (catalog : list ObservedTool) : text := sha256 (91 :: join [44; 32] (map dump_pair catalog) ++ [93]).

Definition catalog_report_due (catalog : list ObservedTool) (reported : option text)
  : option text * option (list ObservedTool) :=
  if bool_decide (catalog = []) then (reported, None)
  else if bool_decide (reported = Some (fingerprint catalog)) then (reported, None)
  else (Some (fingerprint catalog), Some catalog).

(** [_report_catalog] of both transports: what reaches the wire. *)
Definition report_catalog (catalog : list ObservedTool) (reported : option text) (st : State ControlPlanePinStore)
  : option text * State ControlPlanePinStore * option (list ObservedTool) :=
  match catalog_report_due catalog reported with
  | (reported', None) => (reported', st, None)
  | (reported', Some c) => let '(st', sent) := flush (Some c) st in (reported', st', sent)
  end.

End ControlPlane.

(** ** Only an administrator changes what is approved *)

(** The later row approves no more than the earlier one. *)
Definition no_more (r r' : PinRow) : Prop :=
  pr_approved_digest r' = pr_approved_digest r /\ pr_approved_canonical r' = pr_approved_canonical r /\
  (pr_approved r' = true -> pr_approved r = true).

#[export] Instance no_more_preorder : PreOrder no_more.
Proof. split; [by intros r|]. intros r1 r2 r3 (A1 & B1 & C1) (A2 & B2 & C2). split_and!; [congruence|congruence|auto]. Qed.

Lemma observe_tool_keeps mode transport now s t k r :
  existing s !! k = Some r ->
  exists r', existing (observe_tool mode transport now s t) !! k = Some r' /\ no_more r r'.
Proof.
  intros E. unfold observe_tool. destruct (existing s !! o_name t) as [r0|] eqn:E0; cbn; [|by exists r].
  destruct (decide (o_name t = k)) as [<-|N]; [|rewrite lookup_insert_ne by done; by exists r].
  rewrite lookup_insert_eq. simplify_eq. eexists. split; [done|]. by split_and!.
Qed.

(** Walking a catalog never touches the approval of a known row, and adds rows only for unknown tools. *)
Lemma observe_tools_keep mode transport now ts s k r :
  existing s !! k = Some r -> k ∉ (added s).*1 ->
  let s' := foldl (observe_tool mode transport now) s ts in
  (exists r', existing s' !! k = Some r' /\ no_more r r') /\ k ∉ (added s').*1.
Proof.
  revert s r. induction ts as [|t ts IH]; intros s r E N; [by split; [exists r|]|]. cbn.
  destruct (observe_tool_keeps mode transport now s t k r E) as (r1 & E1 & M1).
  assert (N1 : k ∉ (added (observe_tool mode transport now s t)).*1).
  { unfold observe_tool. destruct (existing s !! o_name t) eqn:E0; cbn; [done|]. rewrite fmap_app, elem_of_app.
    intros [I|I]; [done|]. apply list_elem_of_singleton in I as ->. cbn in E. congruence. }
  destruct (IH _ _ E1 N1) as [(r2 & E2 & M2) N2]. split; [|done]. exists r2. split; [done|by etransitivity].
Qed.

Lemma observe_keeps u body now committed t ns server tool r :
  row_at ns server tool t = Some r ->
  exists r', row_at ns server tool (observe u body now committed t).1 = Some r' /\ no_more r r'.
Proof.
  intros E. unfold observe. destruct (checked (require_admin_or_service u)); [by exists r|].
  destruct (checked (scoped_namespace _ _)) as [?|v]; [by exists r|].
  set (ns' := match v with VStr n => _ | _ => _ end). case_bool_decide; [by exists r|]. case_bool_decide; [by exists r|].
  unfold commit_session. destruct (committed && _); [|by exists r]. cbn [fst]. unfold row_at, pins_of in *.
  destruct (decide ((ns', ob_server body) = (ns, server))) as [Q|Q]; [|rewrite lookup_insert_ne by done; by exists r].
  rewrite Q, lookup_insert_eq. cbn [default from_option id].
  destruct (observe_tools_keep (mode_of (ob_mode body)) (ob_transport body) now (ob_tools body)
    {| existing := default ∅ (t !! (ns, server)); added := []; verdicts := [] |} tool r) as [(r' & E' & M) N].
  { done. } { apply not_elem_of_nil. }
  exists r'. split; [|done]. rewrite lookup_union_r; [done|]. by apply not_elem_of_list_to_map_1.
Qed.

(** What happens at the control plane. *)
Inductive CpOp :=
  | Observe (u : Claims) (body : ObserveRequest) (now : Z) (committed : bool)
  | ApprovePin (u : Claims) (ns server tool d : text) (now : Z) (committed : bool)
  | RevokePin (u : Claims) (ns server tool : text) (committed : bool)
  | ForgetServer (u : Claims) (ns server : text) (committed : bool).

Definition cp_step (t : PinTable) (op : CpOp) : PinTable :=
  match op with
  | Observe u body now c => (observe u body now c t).1
  | ApprovePin u ns server tool d now c => (approve_pin u ns server tool d now c t).1
  | RevokePin u ns server tool c => (revoke_pin u ns server tool c t).1
  | ForgetServer u ns server c => (forget_pins u ns server c t).1
  end.

(** An administrator's decision on the pin: an approval, or forgetting its server. *)
Definition decides (ns server tool : text) (op : CpOp) : Prop :=
  match op with
  | ApprovePin u ns' server' tool' _ _ _ => is_role "admin" u = true /\ ns' = ns /\ server' = server /\ tool' = tool
  | ForgetServer u ns' server' _ => is_role "admin" u = true /\ ns' = ns /\ server' = server
  | _ => False
  end.

Lemma change_row_keeps u ns' server' tool' admits change committed t ns server tool r :
  row_at ns server tool t = Some r ->
  (is_role "admin" u = true -> ns' = ns -> server' = server -> tool' = tool -> no_more r (change r)) ->
  exists r', row_at ns server tool (change_row u ns' server' tool' admits change committed t).1 = Some r' /\ no_more r r'.
Proof.
  intros E C. unfold change_row, require_admin. destruct (is_role "admin" u) eqn:A; cbn; [|by exists r].
  destruct (checked (scoped_namespace _ _)); [by exists r|]. destruct (row_at ns' server' tool' t) as [r0|] eqn:E0; [|by exists r].
  destruct (checked (admits r0)); [by exists r|]. destruct committed; [|by exists r]. cbn. unfold row_at, put_row, pins_of in *.
  destruct (decide ((ns', server') = (ns, server))) as [Q|Q]; [|rewrite lookup_insert_ne by done; by exists r].
  rewrite Q, lookup_insert_eq. injection Q as -> ->. cbn [default from_option id].
  destruct (decide (tool' = tool)) as [->|Nt]; [|rewrite lookup_insert_ne by done; by exists r].
  rewrite lookup_insert_eq. simplify_eq. eauto.
Qed.

Lemma cp_step_keeps op t ns server tool r :
  row_at ns server tool t = Some r -> ~ decides ns server tool op ->
  exists r', row_at ns server tool (cp_step t op) = Some r' /\ no_more r r'.
Proof.
  intros E N. destruct op as [u body now c|u ns' server' tool' d now c|u ns' server' tool' c|u ns' server' c]; cbn in *.
  - by apply observe_keeps.
  - apply change_row_keeps; [done|]. naive_solver.
  - apply change_row_keeps; [done|]. intros _ _ _ _. by split_and!.
  - unfold forget_pins, require_admin. destruct (is_role "admin" u) eqn:A; cbn; [|by exists r].
    destruct (checked _); [by exists r|]. destruct c; [|by exists r]. cbn. exists r. split; [|done].
    unfold row_at, pins_of in *. rewrite lookup_delete_ne; [done|]. naive_solver.
Qed.

(** C33: What is approved is a human decision: whatever proxies report, whoever calls whatever with any credential,
    and whether or not commits succeed, a pin that exists keeps its approved digest and text and never
    becomes approved, until an administrator approves that pin or forgets its server. *)
Theorem approvals_are_human ops t ns server tool r :
  row_at ns server tool t = Some r -> Forall (fun op => ~ decides ns server tool op) ops ->
  exists r', row_at ns server tool (foldl cp_step t ops) = Some r' /\
    pr_approved_digest r' = pr_approved_digest r /\ pr_approved_canonical r' = pr_approved_canonical r /\
    (pr_approved r' = true -> pr_approved r = true).
Proof.
  intros E F. revert t r E. induction F as [|op ops N F IH]; intros t r E; [by exists r|]. cbn.
  destruct (cp_step_keeps op t ns server tool r E N) as (r1 & E1 & A1 & B1 & C1).
  destruct (IH _ _ E1) as (r2 & E2 & A2 & B2 & C2). exists r2. split_and!; [done|congruence|congruence|auto].
Qed.

(** ** A report stays in its tenant *)

(** A report changes rows of one server of one namespace only: for a credential that is not an
    administrator's and carries a namespace, of that namespace; and it takes an administrator's or a service
    credential to change anything at all. *)
Theorem report_stays_in_tenant u body now committed t :
  is_role "admin" u = false ->
  (is_role "service" u = false -> (observe u body now committed t).1 = t) /\
  (c_namespace u <> [] -> forall ns server, (ns, server) <> (c_namespace u, ob_server body) ->
     (observe u body now committed t).1 !! (ns, server) = t !! (ns, server)).
Proof.
  intros A. unfold observe, require_admin_or_service. rewrite A. cbn [orb].
  destruct (is_role "service" u) eqn:Sv; [|done]. split; [done|]. intros N ns server Q. cbn [checked mret R_ret].
  destruct (scoped_namespace u _) as [e|v] eqn:Es; [done|]. cbn [checked].
  apply scoped_namespace_spec in Es as [Es _]; [|done]. rewrite (Es N). cbn zeta iota beta. rewrite !(bool_decide_false _ N).
  cbn iota. case_bool_decide; [done|]. unfold commit_session. destruct (committed && _); [|done]. cbn [fst].
  by rewrite lookup_insert_ne.
Qed.

(** ** From the console to a running proxy *)

Section Load.
Context `{PyFloat} (sha256 : text -> text) (str_of : value -> text) (server : text).

(** What the registry answers from depends on the heap and the map only. *)
Lemma abs_ext h (s s' : ControlPlanePinStore) : cp_pins s = cp_pins s' ->
  (wf {| heap := h; store := s |} -> wf {| heap := h; store := s' |}) /\
  forall p, abs {| heap := h; store := s |} p = abs {| heap := h; store := s' |} p.
Proof. intros E. unfold wf, abs. cbn. by rewrite E. Qed.

(** The table of values after a sequence of rows. *)
Definition load_table (rows : list (text * PinRow)) (t : Spec.Table) : Spec.Table :=
  foldl (fun t row => Spec.set (pin_id sha256 server row.1) (loaded_pin sha256 server row.1 row.2) t) t rows.

#[local] Instance load_table_proper rows : Proper (pointwise_relation _ eq ==> pointwise_relation _ eq) (load_table rows).
Proof.
  induction rows as [|[n r] rows IH]; intros t t' E; [done|]. cbn. apply IH. intros q. unfold Spec.set. by rewrite E.
Qed.

Lemma load_rows_spec rows h s :
  wf {| heap := h; store := s |} ->
  let '(h', s', raised) := load_rows sha256 server (map Some rows) h s in
  raised = false /\ wf {| heap := h'; store := s' |} /\ degraded s' = false /\
  forall p, abs {| heap := h'; store := s' |} p = load_table rows (abs {| heap := h; store := s |}) p.
Proof.
  revert h s. induction rows as [|[n r] rows IH]; intros h s W; cbn [map load_rows].
  - destruct (abs_ext h s (set_degraded false s) eq_refl) as [Wd Ad]. split_and!; [done|by apply Wd|done|done].
  - set (x := loaded_pin sha256 server n r). set (h1 := h ++ [x]).
    set (s1 := {| cp_pins := put_pin h1 (length h) (cp_pins s); pending := pending s; degraded := degraded s |}).
    set (s2 := (put h1 s (length h)).1).
    destruct (put_new h s x {| heap := h1; store := s2 |} false W) as [W2 A2]; [done|done|].
    destruct (abs_ext h1 s2 s1 eq_refl) as [W1 A1]. specialize (IH h1 s1 (W1 W2)).
    destruct (load_rows _ _ _ h1 s1) as [[h' s'] raised]. destruct IH as (R & W' & D & A'). split_and!; [done..|].
    intros p. rewrite A'. unfold load_table. cbn [foldl fst snd]. apply load_table_proper. intros q. by rewrite <- A1, A2.
Qed.

(** A row that is listed, under a pin no other listed tool has, is what the proxy holds. *)
Lemma load_table_row rows t name r :
  (name, r) ∈ rows -> (forall n' r', (n', r') ∈ rows -> pin_id sha256 server n' = pin_id sha256 server name -> r' = r /\ n' = name) ->
  load_table rows t (pin_id sha256 server name) = Some (loaded_pin sha256 server name r).
Proof.
  revert t. induction rows as [|[n0 r0] rows IH] using rev_ind; intros t I U; [by apply elem_of_nil in I|].
  unfold load_table. rewrite foldl_snoc. cbn [fst snd]. fold (load_table rows t). unfold Spec.set. case_bool_decide as Q.
  - destruct (U n0 r0) as [-> ->]; [|done|done]. apply elem_of_app. right. left.
  - apply IH; [|intros; apply U; [apply elem_of_app; by left|done]].
    apply elem_of_app in I as [I|I]; [done|]. apply list_elem_of_singleton in I as [= <- <-]. done.
Qed.

(** The control-plane store never raises. *)
Lemma check_returns mode tool sev now (st : State ControlPlanePinStore) srv :
  (step sha256 str_of mode (Check srv tool sev now) st).2 <> Raised.
Proof. cbn. unfold check. by repeat case_match; simplify_eq/=. Qed.

End Load.

Lemma all_rows_elem t l : l ∈ all_rows t <-> row_at (li_namespace l) (li_server l) (li_tool l) t = Some (li_row l).
Proof.
  unfold all_rows, row_at, pins_of. rewrite list_elem_of_In, in_flat_map. split.
  - intros (((ns, srv), m) & I%list_elem_of_In%elem_of_map_to_list & J). unfold rows_of in J.
    apply in_map_iff in J as ((tool, r) & <- & J%list_elem_of_In%elem_of_map_to_list). cbn. by rewrite I.
  - destruct (t !! (li_namespace l, li_server l)) as [m|] eqn:E; cbn; [|by rewrite lookup_empty]. intros R.
    exists ((li_namespace l, li_server l), m). split; [by apply list_elem_of_In, elem_of_map_to_list|].
    unfold rows_of. apply in_map_iff. exists (li_tool l, li_row l). split; [by destruct l|].
    by apply list_elem_of_In, elem_of_map_to_list.
Qed.

Lemma merge_sort_elem {A} (R : relation A) `{!RelDecision R} l x : x ∈ merge_sort R l <-> x ∈ l.
Proof. by rewrite (merge_sort_Permutation R l). Qed.

(** A reader that names its namespace reads that namespace. *)
Lemma read_own_namespace u ns v : ns <> [] -> ns <> points "all" -> read_namespace u (VStr ns) = inr v -> v = VStr ns.
Proof.
  intros N Na. unfold read_namespace. cbn [is_text]. rewrite (bool_decide_false _ Na). cbn [orb]. intros Ev.
  destruct (is_role "admin" u) eqn:A; [unfold scoped_namespace in Ev; rewrite A in Ev; by injection Ev as <-|].
  pose proof (scoped_namespace_spec u (VStr ns) v A Ev) as [P1 P2].
  destruct (decide (c_namespace u = [])) as [Z0|Z0]; [by apply P2|]. rewrite (P1 Z0).
  unfold scoped_namespace in Ev. rewrite A, (bool_decide_false _ Z0), andb_false_r in Ev. cbn [truthy is_text] in Ev.
  rewrite (bool_decide_false _ N) in Ev. cbn [negb andb] in Ev. case_bool_decide as Q; [by rewrite Q|done].
Qed.

(** What a proxy reads with its namespace and its server: exactly the rows of that server there. *)
Lemma list_pins_rows u ns server t rows :
  ns <> [] -> ns <> points "all" -> server <> [] -> list_pins u (Some ns) (Some server) None t = inr rows ->
  forall l, l ∈ rows <-> li_namespace l = ns /\ li_server l = server /\ row_at ns server (li_tool l) t = Some (li_row l).
Proof.
  intros N Na Ns E l. unfold list_pins in E.
  destruct (read_namespace u (VStr ns)) as [e|v] eqn:Er; [done|]. cbn [checked] in E. rewrite (read_own_namespace u ns v N Na Er) in E.
  injection E as <-. rewrite list_elem_of_filter, merge_sort_elem, list_elem_of_filter, all_rows_elem. unfold matches.
  rewrite (bool_decide_false _ N), (bool_decide_false _ Ns). cbn [orb]. rewrite andb_true_iff, !bool_decide_eq_true.
  split; [intros (_ & (-> & ->) & R); done|intros (-> & -> & R); done].
Qed.

(** The rows as [load] receives them. *)
Definition as_response (rows : list Listed) : Response := Rows (map (fun l => Some (li_tool l, li_row l)) rows).

Section Reach.
Context `{PyFloat} (sha256 : text -> text) (str_of : value -> text).

(** After a load, and until the next, the proxy's verdict on a tool is the control plane's. *)
Lemma loaded_verdict u ns server name r t rows st mode ops tool sev now :
  let pid := pin_id sha256 server name in
  ns <> [] -> ns <> points "all" -> server <> [] -> list_pins u (Some ns) (Some server) None t = inr rows ->
  row_at ns server name t = Some r ->
  (forall n' r', row_at ns server n' t = Some r' -> pin_id sha256 server n' = pid -> n' = name) ->
  wf st -> Forall (fun op => ~ approves sha256 pid op) ops -> tool_name_of str_of tool = name ->
  let st' := (load sha256 server (as_response rows) st).1 in
  (step sha256 str_of mode (Check server tool sev now) (run sha256 str_of mode ops st').1).2 =
    if bool_decide (pr_approved_digest r = definition_digest sha256 tool)
    then Pins.Verdict (if pr_approved r then PIN_OK else PIN_QUARANTINED) [] else Pins.Verdict PIN_DRIFT (pr_approved_canonical r).
Proof.
  intros pid N Na Ns El Er U W F Nm st'. pose proof (list_pins_rows u ns server t rows N Na Ns El) as L.
  set (ps := map (fun l => (li_tool l, li_row l)) rows).
  assert (E : (load sha256 server (as_response rows) st).1 =
    let '(h, s, _) := load_rows sha256 server (map Some ps) (heap st) (store st) in {| heap := h; store := s |}).
  { unfold load, as_response, ps. rewrite map_map. by destruct (load_rows _ _ _ _ _) as [[h s] b]. }
  pose proof (load_rows_spec sha256 server ps (heap st) (store st)) as Sp. destruct st as [h0 s0]. specialize (Sp W).
  cbn [heap store] in *. destruct (load_rows _ _ _ h0 s0) as [[h s] b]. destruct Sp as (_ & W' & _ & A').
  assert (Ap : abs {| heap := h; store := s |} pid = Some (loaded_pin sha256 server name r)).
  { rewrite A'. apply load_table_row.
    - apply list_elem_of_fmap. exists {| li_namespace := ns; li_server := server; li_tool := name; li_row := r |}.
      split; [done|]. by apply L.
    - intros n' r' I P. apply list_elem_of_fmap in I as (l & [= -> ->] & I). apply L in I as (_ & _ & R).
      pose proof (U _ _ R P) as Q. rewrite Q in R. split; [congruence|done]. }
  subst st'. rewrite E. clear E.
  destruct (run_keeps sha256 str_of mode ops _ pid _ W' Ap) as (W2 & r2 & A2 & D2 & C2 & _ & P2).
  { eapply Forall_impl; [exact F|]. intros [] Q; cbn in *; [tauto|]. naive_solver. }
  assert (A3 : abs (run sha256 str_of mode ops {| heap := h; store := s |}).1 (pin_id sha256 server (tool_name_of str_of tool)) = Some r2)
    by (by rewrite Nm).
  destruct (check_answer sha256 str_of mode server tool sev now _ r2 W2 A3) as [Q|Q]; [|by apply check_returns in Q].
  rewrite Q, D2, C2, (P2 F). done.
Qed.

End Reach.

Section Decisions.
Context `{PyFloat} (sha256 : text -> text) (str_of : value -> text).

(** A withdrawn approval reaches the proxy with its next load: from then on, whatever the server serves under
    that name and however often, the verdict is quarantine or drift, never a pass. *)
Theorem revoke_reaches_proxy admin proxy ns server name t r rows st mode ops tool sev now :
  let pid := pin_id sha256 server name in
  ns <> [] -> ns <> points "all" -> server <> [] ->
  (revoke_pin admin ns server name true t).2 = inr r ->
  let t' := (revoke_pin admin ns server name true t).1 in
  list_pins proxy (Some ns) (Some server) None t' = inr rows ->
  (forall n' r', row_at ns server n' t' = Some r' -> pin_id sha256 server n' = pid -> n' = name) ->
  wf st -> Forall (fun op => ~ approves sha256 pid op) ops -> tool_name_of str_of tool = name ->
  let st' := (load sha256 server (as_response rows) st).1 in
  (step sha256 str_of mode (Check server tool sev now) (run sha256 str_of mode ops st').1).2 ∈
    [Pins.Verdict PIN_QUARANTINED []; Pins.Verdict PIN_DRIFT (pr_approved_canonical r)].
Proof.
  intros pid N Na Ns Rv t' El U W F Nm st'.
  assert (Er : row_at ns server name t' = Some r /\ pr_approved r = false).
  { unfold t'. unfold revoke_pin, change_row in *. destruct (checked (require_admin admin)); [done|].
    destruct (checked _); [done|]. destruct (row_at ns server name t) as [r0|]; [|done]. cbn in *. injection Rv as <-.
    split; [|done]. unfold row_at, put_row, pins_of. rewrite lookup_insert_eq. cbn. by rewrite lookup_insert_eq. }
  destruct Er as [Er Ap]. unfold st'.
  rewrite (loaded_verdict sha256 str_of proxy ns server name r t' rows st mode ops tool sev now) by done.
  rewrite Ap. case_bool_decide; [left|right; left].
Qed.

(** An approval reaches the proxy with its next load: a definition with the digest that was named passes, and
    any other is a drift.  The console takes only a digest it holds as approved or as served last. *)
Theorem approval_reaches_proxy admin proxy ns server name d at_ t r rows st mode ops tool sev now :
  let pid := pin_id sha256 server name in
  ns <> [] -> ns <> points "all" -> server <> [] ->
  (approve_pin admin ns server name d at_ true t).2 = inr r ->
  let t' := (approve_pin admin ns server name d at_ true t).1 in
  list_pins proxy (Some ns) (Some server) None t' = inr rows ->
  (forall n' r', row_at ns server n' t' = Some r' -> pin_id sha256 server n' = pid -> n' = name) ->
  wf st -> Forall (fun op => ~ approves sha256 pid op) ops -> tool_name_of str_of tool = name ->
  let st' := (load sha256 server (as_response rows) st).1 in
  (step sha256 str_of mode (Check server tool sev now) (run sha256 str_of mode ops st').1).2 =
    (if bool_decide (d = definition_digest sha256 tool) then Pins.Verdict PIN_OK []
     else Pins.Verdict PIN_DRIFT (pr_approved_canonical r)) /\
  exists r0, row_at ns server name t = Some r0 /\ d ∈ [pr_approved_digest r0; pr_last_digest r0].
Proof.
  intros pid N Na Ns Av t' El U W F Nm st'.
  assert (Er : row_at ns server name t' = Some r /\ pr_approved r = true /\ pr_approved_digest r = d /\
    exists r0, row_at ns server name t = Some r0 /\ d ∈ [pr_approved_digest r0; pr_last_digest r0]).
  { unfold t'. unfold approve_pin, change_row in *. destruct (checked (require_admin admin)); [done|].
    destruct (checked _); [done|]. destruct (row_at ns server name t) as [r0|] eqn:E0; [|done].
    case_bool_decide as I; [|done]. cbn [checked mret R_ret] in *. injection Av as <-. split_and!; [|done|done|by exists r0].
    unfold row_at, put_row, pins_of. cbn [fst]. rewrite lookup_insert_eq. cbn [default from_option id]. by rewrite lookup_insert_eq. }
  destruct Er as (Er & Ap & <- & X). split; [|done]. unfold st'.
  rewrite (loaded_verdict sha256 str_of proxy ns server name r t' rows st mode ops tool sev now) by done. by rewrite Ap.
Qed.

End Decisions.

(** ** What a report can lose *)

(** A catalog that could not be sent is not sent again: its fingerprint counts as reported before the request
    is made, so until the catalog changes nothing more is due for it, also after the control plane is back. *)
Lemma lost_report_is_final sha256 catalog reported st :
  catalog <> [] -> reported <> Some (fingerprint sha256 catalog) -> degraded (store st) = true ->
  let '(reported', st', sent) := report_catalog sha256 catalog reported st in
  sent = None /\ forall resp, let st2 := (load sha256 (points "s") resp st').1 in
    report_catalog sha256 catalog reported' st2 = (reported', st2, None).
Proof.
  intros N R D. unfold report_catalog, catalog_report_due. rewrite (bool_decide_false _ N), (bool_decide_false _ R).
  unfold flush. rewrite D. cbn [orb]. split; [done|]. intros resp. by rewrite bool_decide_true.
Qed.

(** A tool that goes back to its approved definition is not reported, since checking it stores nothing: the
    console keeps showing the drift. *)
Lemma return_is_not_reported sha256 catalog reported (st : State ControlPlanePinStore) :
  pending (store st) = [] -> (report_catalog sha256 catalog reported st).2 = None.
Proof.
  intros E. unfold report_catalog, catalog_report_due. destruct (bool_decide _); [done|]. destruct (bool_decide _); [done|].
  unfold flush. rewrite E. by rewrite orb_true_r.
Qed.

(** Walking a catalog enters no row for an unknown tool, and adds one for each time it is named. *)
Lemma observe_adds mode transport now ts s name :
  existing s !! name = None ->
  let s' := foldl (observe_tool mode transport now) s ts in
  existing s' !! name = None /\
  exists l, (added s').*1 = (added s).*1 ++ l /\ ((exists a, a ∈ ts /\ o_name a = name) -> name ∈ l).
Proof.
  revert s. induction ts as [|a ts IH]; intros s E; cbn [foldl].
  { split; [done|]. exists []. rewrite app_nil_r. split; [done|]. by intros (a & I%elem_of_nil & _). }
  set (s1 := observe_tool mode transport now s a).
  assert (E1 : existing s1 !! name = None /\ exists l, (added s1).*1 = (added s).*1 ++ l /\ (o_name a = name -> name ∈ l)).
  { unfold s1, observe_tool. destruct (existing s !! o_name a) as [r|] eqn:Ea; cbn.
    - assert (o_name a <> name) by congruence. split; [by rewrite lookup_insert_ne|]. exists []. by rewrite app_nil_r.
    - split; [done|]. rewrite fmap_app. eexists. split; [done|]. intros <-. left. }
  destruct E1 as (E1 & l & El & Il). destruct (IH s1 E1) as (E2 & l2 & El2 & Il2). split; [done|].
  exists (l ++ l2). rewrite El2, El, app_assoc. split; [done|]. intros (b & [->|I]%elem_of_cons & Nb); apply elem_of_app.
  - left. auto.
  - right. apply Il2. eauto.
Qed.

(** A report that names a new tool twice is lost whole: both rows are added under one key. *)
Lemma repeated_tool_loses_report u body now committed t tl tl' name :
  ob_tools body = tl ++ tl' -> (exists a, a ∈ tl /\ o_name a = name) -> (exists b, b ∈ tl' /\ o_name b = name) ->
  (forall ns, row_at ns (ob_server body) name t = None) -> (observe u body now committed t).1 = t.
Proof.
  intros Et Ha Hb Nr. unfold observe. destruct (checked (require_admin_or_service u)); [done|].
  destruct (checked (scoped_namespace _ _)) as [?|v]; [done|].
  set (ns := match v with VStr n => _ | _ => _ end). case_bool_decide; [done|]. case_bool_decide; [done|].
  unfold commit_session. set (s0 := {| existing := _; added := _; verdicts := _ |}).
  assert (E0 : existing s0 !! name = None) by apply (Nr ns). rewrite Et, foldl_app.
  destruct (observe_adds (mode_of (ob_mode body)) (ob_transport body) now tl s0 name E0) as (E1 & l & El & Il).
  destruct (observe_adds (mode_of (ob_mode body)) (ob_transport body) now tl' _ name E1) as (_ & l2 & El2 & Il2).
  rewrite bool_decide_false; [by rewrite andb_false_r|]. rewrite El2, El. intros (_ & D & _)%NoDup_app.
  apply (D name); [|auto]. apply elem_of_app. right. auto.
Qed.

(** A forgotten server is not forgotten by a running proxy: a load only adds and replaces. *)
Lemma forgotten_pin_stays sha256 server (st : State ControlPlanePinStore) :
  let st' := (load sha256 server (Rows []) st).1 in cp_pins (store st') = cp_pins (store st) /\ heap st' = heap st.
Proof. done. Qed.

(** One value among the rows that is no object makes [load] raise, with the rows before it loaded. *)
Lemma load_raises sha256 server rows (st : State ControlPlanePinStore) :
  (load sha256 server (Rows (map Some rows ++ [None])) st).2 = true.
Proof.
  unfold load. cbn. generalize (heap st), (store st). induction rows as [|[n r] rows IH]; intros h s; cbn; [done|]. apply IH.
Qed.

(** ** Concrete runs *)

Module Console.

Definition ns : text := points "payments".
Definition srv : text := points "mail".
Definition sha (t : text) : text := 35 :: t.
Definition prn (v : value) : text := dump v.

Definition admin : Claims := Callers.caller "admin" "" "" "".
Definition proxy : Claims := Callers.caller "service" "payments" "bot" "".
Definition tool : Tool := [(points "name", VStr (points "send"))].
Definition served (t : Tool) : ObservedTool :=
  {| o_name := points "send"; o_digest := definition_digest sha t; o_canonical := canonical_definition t;
     o_severity := points "none"; o_findings := [] |}.
Definition changed : Tool := [(points "name", VStr (points "send")); (points "title", VStr (points "now evil"))].

Definition report (t : Tool) : ObserveRequest :=
  {| ob_namespace := ns; ob_server := srv; ob_transport := points "http"; ob_mode := "tofu"; ob_tools := [served t] |}.

Definition after_report : PinTable := (observe proxy (report tool) 5 true ∅).1.
Definition fresh : State ControlPlanePinStore := {| heap := []; store := {| cp_pins := []; pending := []; degraded := false |} |}.

Lemma fresh_console_wf : wf fresh.
Proof. by intros p l. Qed.

Lemma approvals_are_human_witness :
  exists r r', row_at ns srv (points "send") after_report = Some r /\
    row_at ns srv (points "send") (foldl cp_step after_report [Observe proxy (report changed) 6 true; RevokePin admin ns srv (points "send") true; ApprovePin proxy ns srv (points "send") (definition_digest sha changed) 7 true]) = Some r' /\
    pr_approved_digest r' = pr_approved_digest r.
Proof.
  destruct (row_at ns srv (points "send") after_report) as [r|] eqn:E; [|by vm_compute in E].
  destruct (approvals_are_human [Observe proxy (report changed) 6 true; RevokePin admin ns srv (points "send") true;
    ApprovePin proxy ns srv (points "send") (definition_digest sha changed) 7 true] after_report ns srv (points "send") r E)
    as (r' & E' & D & _).
  { repeat constructor; cbn; try tauto. intros [A _]. by vm_compute in A. }
  exists r, r'. split; [reflexivity|]. split; [exact E'|exact D].
Defined.

Lemma report_stays_in_tenant_witness :
  (observe proxy (report changed) 6 true after_report).1 !! (points "other", srv) = after_report !! (points "other", srv).
Proof.
  apply (report_stays_in_tenant proxy (report changed) 6 true after_report); [by vm_compute|by vm_compute|].
  intros Q. by apply (f_equal fst) in Q.
Defined.

(** One tool is pinned, so no other has its pin. *)
Lemma only_send t n' r' : map_fold (fun k _ b => bool_decide (k = points "send") && b) true (pins_of ns srv t) = true ->
  row_at ns srv n' t = Some r' -> n' = points "send".
Proof.
  unfold row_at. generalize (pins_of ns srv t). intros m D E. revert D E. revert n' r'.
  induction m as [|k x m N Fa IH] using map_first_key_ind; intros n' r' D E; [by rewrite lookup_empty in E|].
  rewrite map_fold_insert_first_key in D by done. bool_prop.
  destruct (decide (k = n')) as [<-|Q]; [done|]. rewrite lookup_insert_ne in E by done. by eapply IH.
Qed.

Definition revoked : PinTable * Reply PinRow := revoke_pin admin ns srv (points "send") true after_report.
Definition approved_changed : PinTable * Reply PinRow :=
  approve_pin admin ns srv (points "send") (definition_digest sha changed) 8 true (observe proxy (report changed) 6 true after_report).1.

Lemma revoke_reaches_proxy_witness :
  exists r rows, revoked.2 = inr r /\ list_pins proxy (Some ns) (Some srv) None revoked.1 = inr rows /\
    (step sha prn Tofu (Check srv tool [] 0%Q) (run sha prn Tofu [Check srv changed [] 0%Q] (load sha srv (as_response rows) fresh).1).1).2 ∈
      [Pins.Verdict PIN_QUARANTINED []; Pins.Verdict PIN_DRIFT (pr_approved_canonical r)].
Proof.
  destruct revoked.2 as [f|r] eqn:Er; [by vm_compute in Er|].
  destruct (list_pins proxy (Some ns) (Some srv) None revoked.1) as [f|rows] eqn:El; [by vm_compute in El|].
  exists r, rows. split; [done|]. split; [done|].
  apply (revoke_reaches_proxy sha prn admin proxy ns srv (points "send") after_report r rows fresh Tofu [Check srv changed [] 0%Q] tool [] 0%Q).
  - done.
  - done.
  - done.
  - exact Er.
  - exact El.
  - intros n' r' E _. eapply only_send; [|exact E]. by vm_compute.
  - exact fresh_console_wf.
  - repeat constructor. intros [].
  - reflexivity.
Defined.

Lemma approval_reaches_proxy_witness :
  exists r rows, approved_changed.2 = inr r /\ list_pins proxy (Some ns) (Some srv) None approved_changed.1 = inr rows /\
    (step sha prn Tofu (Check srv changed [] 0%Q) (run sha prn Tofu [Check srv tool [] 0%Q] (load sha srv (as_response rows) fresh).1).1).2 =
      (if bool_decide (definition_digest sha changed = definition_digest sha changed) then Pins.Verdict PIN_OK []
       else Pins.Verdict PIN_DRIFT (pr_approved_canonical r)).
Proof.
  destruct approved_changed.2 as [f|r] eqn:Er; [by vm_compute in Er|].
  destruct (list_pins proxy (Some ns) (Some srv) None approved_changed.1) as [f|rows] eqn:El; [by vm_compute in El|].
  exists r, rows. split; [done|]. split; [done|].
  apply (approval_reaches_proxy sha prn admin proxy ns srv (points "send") (definition_digest sha changed) 8
    (observe proxy (report changed) 6 true after_report).1 r rows fresh Tofu [Check srv tool [] 0%Q] changed [] 0%Q).
  - done.
  - done.
  - done.
  - exact Er.
  - exact El.
  - intros n' r' E _. eapply only_send; [|exact E]. by vm_compute.
  - exact fresh_console_wf.
  - repeat constructor. intros [].
  - reflexivity.
Defined.

End Console.
