(* ===== verification/McpServers.v ===== *)
(** * The MCP server registry

    What an operator decided about a server: the rows and handlers of [api/routers/mcp.py], the policy module
    compiled from them ([api/mcp_controls.py]), and the registry a proxy loads ([mcp/servers.py]).  A decision
    is enforced twice: the module is saved through the policy loader and evaluated with every call, and a
    blocked server's tools are withheld by the proxies at discovery. *)

From stdpp Require Import sorting.
From S2P Require Import Prelude.
From S2P Require Import Text.
From S2P Require Import ModuleText.
From S2P Require Import Baseline.
From S2P Require Import Effects.
From S2P Require Import World.
From S2P Require Import Loader.
From S2P Require Import Json.
From S2P Require Import Pins.
From S2P Require Import Auth.
From S2P Require Import McpPins.

(** ** The generated module ([api/mcp_controls.py]) *)

Definition SCOPE : string := "__mcp__".
Definition RULE_UNREGISTERED : text := points "mcp_unregistered_server".
Definition RULE_UNAPPROVED_WRITE : text := points "mcp_unapproved_write_server".
Definition HEADER : text := points "# nrvq-mcp-registry/v1:".
Definition MAX_SERVERS : nat := 512.

(** [_SERVER_RE]. *)
Definition server_char (c : Z) : bool := is_alnum c || (c =? 46) || (c =? 95) || (c =? 58) || (c =? 45).
Definition server_ok (s : text) : bool := (1 <=? length s)%nat && (length s <=? 255)%nat && forallb server_char s.

(** [normalise]; [None]: [InvalidServerId]. *)
Definition normalise (ids : list text) : option (list text) :=
  let ss := filter (fun s => s <> []) (map tstrip ids) in
  if forallb server_ok ss then
    let out := merge_sort text_le (remove_dups ss) in
    if (MAX_SERVERS <? length out)%nat then None else Some out
  else None.

(** [base64.b64encode]. *)
Definition b64_char_of (n : Z) : Z :=
  if n <? 26 then 65 + n else if n <? 52 then 71 + n else if n <? 62 then n - 4 else if n =? 62 then 43 else 47.

Fixpoint b64encode (b : list Z) : text :=
  match b with
  | [] => []
  | [x] => [b64_char_of (x / 4); b64_char_of (x mod 4 * 16); 61; 61]
  | [x; y] => [b64_char_of (x / 4); b64_char_of (x mod 4 * 16 + y / 16); b64_char_of (y mod 16 * 4); 61]
  | x :: y :: z :: r =>
      b64_char_of (x / 4) :: b64_char_of (x mod 4 * 16 + y / 16) :: b64_char_of (y mod 16 * 4 + z / 64)
        :: b64_char_of (z mod 64) :: b64encode r
  end.

(** [json.dumps] of the registry, with the default separators. *)
Definition dump_list (l : list text) : text := 91 :: join (points ", ") (map dump_str l) ++ [93].
Definition registry_json (known write_ok : list text) (unregistered_decision write_decision : string) : text :=
  let item (k : string) (v : text) := dump_str (points k) ++ points ": " ++ v in
  123 :: join (points ", ")
    [item "registered" (dump_list known); item "writable" (dump_list write_ok);
     item "unregistered_decision" (dump_str (points unregistered_decision));
     item "write_decision" (dump_str (points write_decision))] ++ [125].

(** [empty_literals.braces]. *)
Definition braces_of (rendered : list text) : text :=
  match rendered with [] => EMPTY_OBJECT | _ => 123 :: join (points ", ") rendered ++ [125] end.
Definition quoted_id (s : text) : text := 34 :: s ++ [34].

(** The text of the template: [~] stands for a quote and [@] for an em dash. *)
Definition template (s : string) : text :=
  map (fun c => if c =? 126 then 34 else if c =? 64 then 8212 else c) (points s).

Definition registry_module (known write_ok : list text) (unregistered_decision write_decision : string) : text :=
  let blob := b64encode (registry_json known write_ok unregistered_decision write_decision) in
  let known_lit := braces_of (map quoted_id known) in
  let write_lit := braces_of (map quoted_id write_ok) in
  let unreg_head := points (if bool_decide (unregistered_decision = "block") then "blocks" else "audits") in
  let write_head := points (if bool_decide (write_decision = "block") then "blocks" else "audits") in
  template "# Generated by norviq/api/mcp_controls.py @ DO NOT HAND-EDIT.
# Hand edits are overwritten the next time a server decision is saved, and desynchronise the header
# below, which is what the console reads the registry back from.
" ++
  HEADER ++
  template " " ++
  blob ++
  template "
package norviq.mcp_registry

# The two MCP controls that need the customer's own list. The other five read only `input.mcp.*` and
# live in the preset's CONTROLS region.
#
# `input.mcp` is PEP-REPORTED. It is a POLICY input and never a TRUST input: nothing here decides WHO
# is calling. Identity comes from the attested SVID and is never read from an MCP message.

default decision = ~allow~
default rule_id = ~default_allow~
default reason = ~Allowed~

registered_servers = " ++
  known_lit ++
  template "
writable_servers = " ++
  write_lit ++
  template "

# Only ever true for a call that CAME THROUGH the MCP proxy. Every other call in the estate @ SDK,
# sidecar, webhook @ has no `input.mcp` and is untouched by this module.
_is_mcp { input.mcp.server != ~~ }

# INERT ON AN EMPTY REGISTRY. Not ~everything is unregistered~: a fresh install would then flag every
# MCP call, and the first thing an operator would do is switch the control off. The registry fills as
# servers are discovered; registering one is what gives this control something to say.
_registry_populated { count(registered_servers) > 0 }

_unregistered {
    _is_mcp
    _registry_populated
    not registered_servers[input.mcp.server]
}

# A write through a server the operator did not mark writable. `derived.verb` is the engine's own
# classifier, so this agrees with every other verb-keyed rule in the product rather than re-deriving
# ~is this a write~ from the tool name. `unknown` is excluded: the classifier saying ~I cannot tell~
# is not evidence of a write, and treating it as one would refuse ordinary reads it failed to label.
_unapproved_write {
    _is_mcp
    _registry_populated
    registered_servers[input.mcp.server]
    not writable_servers[input.mcp.server]
    input.derived.verb != ~read~
    input.derived.verb != ~unknown~
}

" ++
  unreg_head ++
  template "[~" ++
  RULE_UNREGISTERED ++
  template "~] { _unregistered }
" ++
  write_head ++
  template "[~" ++
  RULE_UNAPPROVED_WRITE ++
  template "~] { _unapproved_write }

decision = ~" ++
  points unregistered_decision ++
  template "~ { _unregistered }
rule_id = ~" ++
  RULE_UNREGISTERED ++
  template "~ { _unregistered }
reason = msg {
    _unregistered
    msg := sprintf(~MCP server %v is not registered for this namespace~, [input.mcp.server])
}

decision = ~" ++
  points write_decision ++
  template "~ { _unapproved_write; not _unregistered }
rule_id = ~" ++
  RULE_UNAPPROVED_WRITE ++
  template "~ { _unapproved_write; not _unregistered }
reason = msg {
    _unapproved_write
    not _unregistered
    msg := sprintf(~writes are not permitted through MCP server %v~, [input.mcp.server])
}
".

(** [compile]; [None]: it raises. *)
Definition compile_registry (registered writable : list text) (unregistered_decision write_decision : string) : option text :=
  if bool_decide (unregistered_decision ∈ ["audit"; "block"]) && bool_decide (write_decision ∈ ["audit"; "block"]) then
    known ← normalise registered;
    writes ← normalise writable;
    Some (registry_module known (filter (fun s => s ∈ known) writes) unregistered_decision write_decision)
  else None.

(** ** Decisions ([api/routers/mcp.py]) *)

Definition STATUS_DISCOVERED : string := "discovered".
Definition STATUS_REGISTERED : string := "registered".
Definition STATUS_BLOCKED : string := "blocked".

(** A row of [mcp_servers]; its key is (namespace, server). *)
Record ServerRow := {
  sv_status : string;
  sv_writable : bool;
  sv_decided_by : text;
  sv_decided_at : option Z;
  sv_note : text;
  sv_identity_drift_count : Z;
  sv_transport : text;
}.

Notation ServerTable := (gmap (text * text) ServerRow).

(** The rows of one namespace. *)
Definition servers_of (ns : text) (t : ServerTable) : list (text * ServerRow) :=
  omap (fun e => if bool_decide (e.1.1 = ns) then Some (e.1.2, e.2) else None) (map_to_list t).

Definition is_registered (r : ServerRow) : bool := bool_decide (sv_status r = STATUS_REGISTERED).
Definition registered_in (ns : text) (t : ServerTable) : list text :=
  map fst (filter (fun e => is_registered e.2 = true) (servers_of ns t)).
Definition writable_in (ns : text) (t : ServerTable) : list text :=
  map fst (filter (fun e => is_registered e.2 && sv_writable e.2 = true) (servers_of ns t)).

Definition MCP_SCOPE_PRIORITY : Z := 2.

Section Handlers.
Context `{Externals} (keep_count : nat) (keep_us : Z).

(** [_materialize_mcp_registry]: the number of registered servers, or -1 after any failure. *)
Definition materialize_mcp_registry (t : ServerTable) (ns : string) : W Z :=
  try_with
    (io;;
     let registered := registered_in (points ns) t in
     let writable := writable_in (points ns) t in
     match compile_registry registered writable "audit" "block" with
     | None => raise EOther
     | Some rego =>
         create keep_count keep_us ns SCOPE rego "mcp-registry" MCP_SCOPE_PRIORITY "block";;
         invalidate_eval_scope ns None;;
         mret (Z.of_nat (length registered))
     end)
    (fun _ => mret (-1)).

Record ServerDecisionBody := { sd_namespace : string; sd_server : text; sd_status : string; sd_writable : bool; sd_note : text }.

Definition decided_row (u : Claims) (body : ServerDecisionBody) (now : Z) (old : option ServerRow) : ServerRow :=
  {| sv_status := sd_status body;
     sv_writable := sd_writable body && bool_decide (sd_status body = STATUS_REGISTERED);
     sv_decided_by := c_sub u; sv_decided_at := Some now; sv_note := sd_note body;
     sv_identity_drift_count := match old with Some r => sv_identity_drift_count r | None => 0 end;
     sv_transport := match old with Some r => sv_transport r | None => points "stdio" end |}.

Record DecisionReply := { dr_row : ServerRow; dr_previous : string; dr_registered : Z }.

(** [decide_server]: the decision is committed, then the module is rebuilt from it; a select or a commit that fails is not caught. *)
Definition decide_server (u : Claims) (body : ServerDecisionBody) (now : Z) (committed : bool) (t : ServerTable)
  : W (ServerTable * Reply DecisionReply) :=
  match checked (require_admin u), checked (scoped_namespace u (VStr (points (sd_namespace body)))) with
  | inl e, _ | _, inl e => mret (t, inl e)
  | inr _, inr _ =>
      let key := (points (sd_namespace body), sd_server body) in
      let old := t !! key in
      let row := decided_row u body now old in
      if negb committed then raise EOther
      else
        let t' := <[key := row]> t in
        n ← materialize_mcp_registry t' (sd_namespace body);
        mret (t', inr {| dr_row := row;
                         dr_previous := match old with Some r => sv_status r | None => STATUS_DISCOVERED end;
                         dr_registered := n |})
  end.

(** [forget_server]: the pins go, a refusal stays, any other decision goes with them. *)
Definition forget_server (u : Claims) (ns : string) (server : text) (committed : bool) (pins : PinTable) (t : ServerTable)
  : W (PinTable * ServerTable * Reply (Z * bool)) :=
  match forget_pins u (points ns) server committed pins with
  | (pins', inl e) => mret (pins', t, inl e)
  | (pins', inr removed) =>
      let key := (points ns, server) in
      let kept := match t !! key with Some r => bool_decide (sv_status r = STATUS_BLOCKED) | None => false end in
      let t' := if kept then t else delete key t in
      materialize_mcp_registry t' ns;;
      mret (pins', t', inr (removed, kept))
  end.

End Handlers.

(** ** The inventory ([list_servers]) *)

Definition severity_order (s : text) : Z :=
  if bool_decide (s = points "low") then 1 else if bool_decide (s = points "medium") then 2
  else if bool_decide (s = points "high") then 3 else if bool_decide (s = points "critical") then 4 else 0.

(** One server of the inventory.  Instants are compared as instants: for times of one zone their ISO texts
    compare the same way. *)
Record ServerEntry := {
  en_namespace : text; en_server : text; en_transport : text;
  en_tools : Z; en_drifted : Z; en_quarantined : Z; en_flagged : Z;
  en_worst : text; en_last_seen : option Z; en_first_seen : option Z;
}.

Definition new_entry (ns server transport : text) : ServerEntry :=
  {| en_namespace := ns; en_server := server; en_transport := transport; en_tools := 0; en_drifted := 0;
     en_quarantined := 0; en_flagged := 0; en_worst := points "none"; en_last_seen := None; en_first_seen := None |}.

Definition later (a : option Z) (b : Z) : option Z := match a with Some x => if x <? b then Some b else a | None => Some b end.
Definition sooner (a : option Z) (b : Z) : option Z := match a with Some x => if b <? x then Some b else a | None => Some b end.

Definition count_row (r : PinRow) (e : ServerEntry) : ServerEntry :=
  let st := status_of r in
  let sev := severity_order (pr_scan_severity r) in
  {| en_namespace := en_namespace e; en_server := en_server e; en_transport := en_transport e;
     en_tools := en_tools e + 1;
     en_drifted := match st with PIN_DRIFT => en_drifted e + 1 | _ => en_drifted e end;
     en_quarantined := match st with PIN_QUARANTINED => en_quarantined e + 1 | _ => en_quarantined e end;
     en_flagged := if 0 <? sev then en_flagged e + 1 else en_flagged e;
     en_worst := if severity_order (en_worst e) <? sev then pr_scan_severity r else en_worst e;
     en_last_seen := later (en_last_seen e) (pr_last_seen_at r);
     en_first_seen := sooner (en_first_seen e) (pr_first_seen_at r) |}.

(** A dict keyed by (namespace, server), in insertion order. *)
Fixpoint entry_at (k : text * text) (d : list ((text * text) * ServerEntry)) : option ServerEntry :=
  match d with
  | [] => None
  | (k', e) :: d' => if bool_decide (k = k') then Some e else entry_at k d'
  end.
Fixpoint put_entry (k : text * text) (e : ServerEntry) (d : list ((text * text) * ServerEntry)) : list ((text * text) * ServerEntry) :=
  match d with
  | [] => [(k, e)]
  | (k', e') :: d' => if bool_decide (k = k') then (k', e) :: d' else (k', e') :: put_entry k e d'
  end.

Definition add_pin (d : list ((text * text) * ServerEntry)) (l : Listed) : list ((text * text) * ServerEntry) :=
  let k := (li_namespace l, li_server l) in
  put_entry k (count_row (li_row l) (default (new_entry (li_namespace l) (li_server l) (pr_transport (li_row l))) (entry_at k d))) d.

Definition add_decision (d : list ((text * text) * ServerEntry)) (e : (text * text) * ServerRow)
  : list ((text * text) * ServerEntry) :=
  put_entry e.1 (default (new_entry e.1.1 e.1.2 (sv_transport e.2)) (entry_at e.1 d)) d.

(** An entry with the decision about it. *)
Record ListedServer := { ls_entry : ServerEntry; ls_status : string; ls_writable : bool; ls_note : text }.

Definition listed_server (t : ServerTable) (k : text * text) (e : ServerEntry) : ListedServer :=
  match t !! k with
  | Some r => {| ls_entry := e; ls_status := sv_status r; ls_writable := sv_writable r; ls_note := sv_note r |}
  | None => {| ls_entry := e; ls_status := STATUS_DISCOVERED; ls_writable := false; ls_note := [] |}
  end.

Definition observed_health (s : ListedServer) : string :=
  let e := ls_entry s in
  if negb (en_drifted e =? 0) then "drift"
  else if negb (en_quarantined e =? 0) then "quarantined"
  else if negb (en_flagged e =? 0) then "flagged"
  else if bool_decide (ls_status s = STATUS_DISCOVERED) then "unreviewed"
  else "ok".

Definition health (s : ListedServer) : string :=
  if bool_decide (ls_status s = STATUS_BLOCKED) then "blocked" else observed_health s.

Definition HEALTH_ORDER : list string := ["blocked"; "drift"; "quarantined"; "flagged"; "unreviewed"; "ok"].
Fixpoint index_of (i : Z) (h : string) (l : list string) : Z :=
  match l with [] => -1 | x :: l' => if bool_decide (x = h) then i else index_of (i + 1) h l' end.
Definition health_rank (h : string) : Z := index_of 0 h HEALTH_ORDER.

Definition listed_worse (a b : ListedServer) : Prop :=
  ((health_rank (health a) <? health_rank (health b))
   || (health_rank (health a) =? health_rank (health b)) && text_leb (en_server (ls_entry a)) (en_server (ls_entry b))) = true.
#[export] Instance listed_worse_dec : RelDecision listed_worse.
Proof. intros a b. unfold listed_worse. apply _. Defined.

(** [list_servers]. *)
Definition list_servers (u : Claims) (namespace : option text) (pins : PinTable) (t : ServerTable) : Reply (list ListedServer) :=
  match checked (read_namespace u (match namespace with Some n => VStr n | None => VNull end)) with
  | inl e => inl e
  | inr v =>
      let ns := match v with VStr n => Some n | _ => None end in
      let d := foldl add_pin [] (filter (fun l => matches ns (li_namespace l) = true) (all_rows pins)) in
      let decisions := filter (fun e => matches ns e.1.1 = true) t in
      let d := foldl add_decision d (map_to_list decisions) in
      inr (merge_sort listed_worse (map (fun p => listed_server decisions p.1 p.2) d))
  end.

(** ** The registry of a proxy ([mcp/servers.py]) *)

Record ServerDecision := { de_status : string; de_writable : bool; de_note : text }.

Definition undecided : ServerDecision := {| de_status := STATUS_DISCOVERED; de_writable := false; de_note := [] |}.

Record ServerRegistry := { decisions : gmap text ServerDecision; reg_degraded : bool }.

(** [get] and [reachable]. *)
Definition decision_of (reg : ServerRegistry) (server : text) : ServerDecision := default undecided (decisions reg !! server).
Definition reachable (d : ServerDecision) : bool := negb (bool_decide (de_status d = STATUS_BLOCKED)).

(** [from_rows]: an empty id is skipped, an unknown status counts as unreviewed; [None] among the rows is a
    value [row.get] raises on. *)
Definition known_status (s : string) : string :=
  if bool_decide (s ∈ [STATUS_DISCOVERED; STATUS_REGISTERED; STATUS_BLOCKED]) then s else STATUS_DISCOVERED.

Fixpoint from_rows (rows : list (option (text * ServerDecision))) (acc : gmap text ServerDecision)
  : option (gmap text ServerDecision) :=
  match rows with
  | [] => Some acc
  | None :: _ => None
  | Some (sid, d) :: rows' =>
      from_rows rows'
        (if bool_decide (sid = []) then acc
         else <[sid := {| de_status := known_status (or_else (de_status d) STATUS_DISCOVERED);
                          de_writable := de_writable d; de_note := de_note d |}]> acc)
  end.

(** [ControlPlaneServerStore]. *)
Record ServerStore := { registry : ServerRegistry; loaded : bool; st_degraded : bool }.

Inductive ServerResponse := NoAnswer | NoList | ServerRows (rows : list (option (text * ServerDecision))).

(** [load]; [None] for its answer: it raised, before anything was replaced. *)
Definition load_servers (resp : ServerResponse) (s : ServerStore) : ServerStore * option bool :=
  let fresh := match resp with
               | NoAnswer => None
               | NoList => Some (from_rows [] ∅)
               | ServerRows rows => Some (from_rows rows ∅)
               end in
  match fresh with
  | None => ({| registry := {| decisions := decisions (registry s); reg_degraded := true |}; loaded := loaded s;
                st_degraded := true |}, Some false)
  | Some None => (s, None)
  | Some (Some ds) => ({| registry := {| decisions := ds; reg_degraded := false |}; loaded := true; st_degraded := false |}, Some true)
  end.

Definition as_server_response (l : list ListedServer) : ServerResponse :=
  ServerRows (map (fun s => Some (en_server (ls_entry s), {| de_status := ls_status s; de_writable := ls_writable s; de_note := ls_note s |})) l).

(** ** A decision takes effect *)

Section Effect.
Context `{Externals} (keep_count : nat) (keep_us : Z).

(** The registry module of a namespace is in force in every layer, and no older decision of it is cached. *)
Record registry_in_force (ns : string) (rego : text) (w : World) : Prop := {
  rf_memory : policies (loader w) !! key_of ns SCOPE = Some (mkEntry rego MCP_SCOPE_PRIORITY "block");
  rf_row : exists row, db w !! (ns, SCOPE) = Some row /\ entry_of_row row = mkEntry rego MCP_SCOPE_PRIORITY "block";
  rf_index : index (ev w) !! key_of ns SCOPE = Some (mkIndex rego MCP_SCOPE_PRIORITY (extract_package_name rego));
  rf_cache : InprocCache.data (inproc_eval_cache (ev w)) = [] /\ forall k, in_eval_scope ns None k -> rd_eval (redis w) !! k = None;
}.

Lemma wp_materialize t ns w :
  wp (materialize_mcp_registry keep_count keep_us t ns)
     (fun n w' => n = -1 \/
        exists rego, compile_registry (registered_in (points ns) t) (writable_in (points ns) t) "audit" "block" = Some rego /\
          n = Z.of_nat (length (registered_in (points ns) t)) /\ registry_in_force ns rego w')
     (fun _ _ => False) w.
Proof.
  unfold materialize_mcp_registry. apply wp_try. apply wp_bind. apply wp_io; [|intros; apply wp_ret; by left].
  intros fs w1 E1. destruct (compile_registry _ _ _ _) as [rego|] eqn:Ec; [|apply wp_raise, wp_ret; by left].
  apply wp_bind. eapply wp_mono; [apply wp_create; done| |intros; apply wp_ret; by left].
  intros v w2 [[Sm (row & Sr & Se & _) Si _ _] _]. unfold invalidate_eval_scope, on_eval_invalidated.
  wp_steps; [|by left]. right. exists rego. split; [done|]. split; [done|]. constructor.
  - by world_simpl.
  - exists row. by world_simpl.
  - by world_simpl.
  - split; [by world_simpl|]. intros k K. world_simpl. by apply filter_scope_lookup.
Qed.

Lemma decide_returns u body now committed t w :
  wp (decide_server keep_count keep_us u body now committed t)
     (fun '(t', reply) w' => match reply with
        | inl _ => t' = t /\ w' = w
        | inr d => t' = <[(points (sd_namespace body), sd_server body) := decided_row u body now (t !! (points (sd_namespace body), sd_server body))]> t /\
            is_role "admin" u = true /\
            (dr_registered d = -1 \/ exists rego,
               compile_registry (registered_in (points (sd_namespace body)) t') (writable_in (points (sd_namespace body)) t') "audit" "block" = Some rego /\
               dr_registered d = Z.of_nat (length (registered_in (points (sd_namespace body)) t')) /\
               registry_in_force (sd_namespace body) rego w')
        end) (fun _ w' => committed = false /\ w' = w) w.
Proof.
  unfold decide_server, require_admin. destruct (is_role "admin" u) eqn:A; [|by apply wp_ret]. cbn [checked mret R_ret].
  destruct (checked (scoped_namespace _ _)); [by apply wp_ret|]. destruct committed; cbn [negb]; [|by apply wp_raise].
  apply wp_bind. eapply wp_mono; [apply wp_materialize| |done]. intros n w' Hn. apply wp_ret. cbn. auto.
Qed.


(** ** One bad id stops the registry of its namespace *)

Lemma bad_id_not_compiled ns t server :
  server ∈ registered_in ns t -> tstrip server <> [] -> server_ok (tstrip server) = false ->
  compile_registry (registered_in ns t) (writable_in ns t) "audit" "block" = None.
Proof.
  intros I N B. unfold compile_registry. cbn [mbind option_bind].
  assert (normalise (registered_in ns t) = None) as ->; [|by destruct (_ && _)].
  unfold normalise. assert (forallb server_ok (filter (fun s => s <> []) (map tstrip (registered_in ns t))) = false) as ->; [|done].
  apply not_true_iff_false. rewrite forallb_forall. intros Al. specialize (Al (tstrip server)). rewrite B in Al.
  discriminate Al. apply list_elem_of_In, list_elem_of_filter. split; [done|]. apply list_elem_of_fmap. eauto.
Qed.

(** The decision handler takes any server id, the compiler only ids of [_SERVER_RE]: once a server with
    another id is registered, no decision in that namespace is enforced any more.  Each is saved and
    answered with -1, and every module stays as it was. *)
Theorem bad_id_stops_registry u body now t w bad :
  let t' := <[(points (sd_namespace body), sd_server body) := decided_row u body now (t !! (points (sd_namespace body), sd_server body))]> t in
  is_role "admin" u = true ->
  bad ∈ registered_in (points (sd_namespace body)) t' -> tstrip bad <> [] -> server_ok (tstrip bad) = false ->
  exists w' d, decide_server keep_count keep_us u body now true t w = (w', inr (t', inr d)) /\
    dr_registered d = -1 /\ same_store w w'.
Proof.
  intros t' A I N B. unfold decide_server, require_admin. rewrite A. cbn [checked mret R_ret].
  unfold scoped_namespace. rewrite A. cbn [checked mret R_ret negb]. fold t'.
  pose proof (bad_id_not_compiled _ t' bad I N B) as Ec. unfold materialize_mcp_registry, mbind, M_bind, try_with.
  unfold io. destruct (faults w) as [|[e|] fs] eqn:F; rewrite ?Ec; cbn; do 2 eexists;
    (split; [reflexivity|]); (split; [reflexivity|]); unfold same_store; by split_and!.
Qed.

End Effect.

(** ** A write grant is a registration *)

Definition grants_ok (t : ServerTable) : Prop := map_Forall (fun _ r => sv_writable r = true -> sv_status r = STATUS_REGISTERED) t.

(** Operations on the registry, with the world they act on. *)
Inductive RegOp :=
  | Decide (u : Claims) (body : ServerDecisionBody) (now : Z) (committed : bool)
  | Forget (u : Claims) (ns : string) (server : text) (committed : bool).

Section Registry.
Context `{Externals} (keep_count : nat) (keep_us : Z).

Definition reg_step (s : PinTable * ServerTable * World) (op : RegOp) : PinTable * ServerTable * World :=
  let '(pins, t, w) := s in
  match op with
  | Decide u body now c =>
      match decide_server keep_count keep_us u body now c t w with
      | (w', inr (t', _)) => (pins, t', w')
      | (w', inl _) => (pins, t, w')
      end
  | Forget u ns server c =>
      match forget_server keep_count keep_us u ns server c pins t w with
      | (w', inr (pins', t', _)) => (pins', t', w')
      | (w', inl _) => (pins, t, w')
      end
  end.

Lemma forget_returns u ns server committed pins t w :
  wp (forget_server keep_count keep_us u ns server committed pins t)
     (fun '(pins', t', reply) w' => match reply with
        | inl _ => pins' = pins /\ t' = t /\ w' = w
        | inr (_, kept) => pins' = delete (points ns, server) pins /\
            kept = (match t !! (points ns, server) with Some r => bool_decide (sv_status r = STATUS_BLOCKED) | None => false end) /\
            t' = if kept then t else delete (points ns, server) t
        end) (fun _ _ => False) w.
Proof.
  unfold forget_server, forget_pins. destruct (checked (require_admin u)); [by apply wp_ret|].
  destruct (checked _); [by apply wp_ret|]. destruct committed; [|by apply wp_ret].
  apply wp_bind. eapply wp_mono; [apply wp_materialize| |done]. intros n w' _. by apply wp_ret.
Qed.

(** A server may be written through only while it is registered, through any decisions and forgettings, by
    anyone, with any failures: a block keeps no latent grant. *)
Theorem grants_are_registrations ops pins t w :
  grants_ok t -> grants_ok (foldl reg_step (pins, t, w) ops).1.2.
Proof.
  revert pins t w. induction ops as [|op ops IH]; intros pins t w G; [done|]. cbn [foldl].
  assert (G' : grants_ok (reg_step (pins, t, w) op).1.2); [|by destruct (reg_step _ op) as [[p' t'] w']; apply IH].
  destruct op as [u body now c|u ns server c]; cbn.
  - pose proof (decide_returns keep_count keep_us u body now c t w) as D. unfold wp in D.
    destruct (decide_server _ _ _ _ _ _ _ w) as [w' [e|[t' [f|d]]]]; [done|by destruct D as [-> _]|].
    destruct D as (-> & _). apply map_Forall_insert_2; [|done]. cbn. rewrite andb_true_iff, bool_decide_eq_true. tauto.
  - pose proof (forget_returns u ns server c pins t w) as D. unfold wp in D.
    destruct (forget_server _ _ _ _ _ _ _ _ w) as [w' [e|[[p' t'] [f|[n kept]]]]]; [done|by destruct D as (_ & -> & _)|].
    destruct D as (_ & _ & ->). destruct kept; [done|]. by apply map_Forall_delete.
Qed.

(** Forgetting a server clears what it was seen to serve and drops a registration, but a refusal stays: a
    blocked server is blocked after any number of forgettings, with any outcome. *)
Theorem refusal_survives_forgetting pins t w ns server ops :
  (exists r, t !! (points ns, server) = Some r /\ sv_status r = STATUS_BLOCKED) ->
  Forall (fun op => match op with Forget _ _ _ _ => True | Decide _ _ _ _ => False end) ops ->
  exists r, (foldl reg_step (pins, t, w) ops).1.2 !! (points ns, server) = Some r /\ sv_status r = STATUS_BLOCKED.
Proof.
  intros B F. revert pins t w B. induction F as [|op ops Fo F IH]; intros pins t w B; [done|]. cbn [foldl].
  destruct op as [|u ns' server' c]; [done|]. cbn [reg_step].
  pose proof (forget_returns u ns' server' c pins t w) as D. unfold wp in D.
  destruct (forget_server _ _ _ _ _ _ _ _ w) as [w' [e|[[p' t'] [f|[n kept]]]]]; [by apply IH| |].
  - destruct D as (_ & -> & _). by apply IH.
  - destruct D as (_ & Ek & ->). apply IH. destruct B as (r & E & S). exists r. split; [|done].
    destruct (decide ((points ns', server') = (points ns, server))) as [Q|Q].
    + rewrite Q, E, bool_decide_true in Ek by done. by subst kept.
    + destruct kept; [done|]. by rewrite lookup_delete_ne.
Qed.

End Registry.

(** ** The inventory is complete and sorted *)

Lemma entry_at_put k e k' d : entry_at k' (put_entry k e d) = if bool_decide (k' = k) then Some e else entry_at k' d.
Proof.
  induction d as [|[k0 e0] d IH]; cbn; [done|]. destruct (bool_decide (k = k0)) eqn:B; cbn.
  - apply bool_decide_eq_true in B as ->. by destruct (bool_decide (k' = k0)).
  - rewrite IH. apply bool_decide_eq_false in B. destruct (bool_decide (k' = k0)) eqn:B0; [|done].
    apply bool_decide_eq_true in B0 as ->. by rewrite bool_decide_false by congruence.
Qed.

Lemma put_entry_keys k e d : (put_entry k e d).*1 = if bool_decide (k ∈ d.*1) then d.*1 else d.*1 ++ [k].
Proof.
  induction d as [|[k0 e0] d IH]; cbn; [done|]. destruct (bool_decide (k = k0)) eqn:B; cbn.
  - apply bool_decide_eq_true in B as ->. by rewrite bool_decide_true by left.
  - apply bool_decide_eq_false in B. rewrite IH. destruct (bool_decide (k ∈ d.*1)) eqn:I.
    + apply bool_decide_eq_true in I. by rewrite bool_decide_true by (by right).
    + apply bool_decide_eq_false in I. by rewrite bool_decide_false by (rewrite elem_of_cons; tauto).
Qed.

(** What the two walks keep: one entry per key, and each entry is of its key. *)
Record inventory_ok (d : list ((text * text) * ServerEntry)) : Prop := {
  inv_keys : NoDup d.*1;
  inv_names : Forall (fun p => en_server p.2 = p.1.2 /\ en_namespace p.2 = p.1.1) d;
}.

Lemma put_entry_ok k e d : inventory_ok d -> en_server e = k.2 -> en_namespace e = k.1 -> inventory_ok (put_entry k e d).
Proof.
  intros [N F] S Ns. split.
  - rewrite put_entry_keys. case_bool_decide; [done|]. apply NoDup_app. split_and!; [done| |apply NoDup_singleton].
    by intros x I ->%list_elem_of_singleton.
  - clear N. induction F as [|[k0 e0] d [F1 F2] F IH]; cbn; [by repeat constructor|].
    case_bool_decide; subst; by repeat constructor.
Qed.

Lemma entry_at_ok k e d : inventory_ok d -> entry_at k d = Some e -> en_server e = k.2 /\ en_namespace e = k.1.
Proof.
  intros [_ F]. induction F as [|[k0 e0] d [F1 F2] F IH]; cbn; [done|]. case_bool_decide; [by intros [= <-]; subst|done].
Qed.

Lemma add_pin_ok d l : inventory_ok d -> inventory_ok (add_pin d l).
Proof.
  intros O. unfold add_pin. destruct (entry_at _ d) as [e|] eqn:E; cbn; apply put_entry_ok; try done;
    by destruct (entry_at_ok _ _ _ O E).
Qed.

Lemma add_decision_ok d e : inventory_ok d -> inventory_ok (add_decision d e).
Proof.
  intros O. unfold add_decision. destruct (entry_at _ d) as [x|] eqn:E; cbn; apply put_entry_ok; try done;
    by destruct (entry_at_ok _ _ _ O E).
Qed.

Lemma add_keys {X} (f : X -> text * text) (step : list ((text * text) * ServerEntry) -> X -> list ((text * text) * ServerEntry)) xs d k :
  (forall d x, exists e, step d x = put_entry (f x) e d) ->
  k ∈ (foldl step d xs).*1 <-> k ∈ d.*1 \/ exists x, x ∈ xs /\ f x = k.
Proof.
  intros P. revert d. induction xs as [|x xs IH]; intros d; cbn.
  - split; [by left|]. intros [?|(x & I%elem_of_nil & _)]; done.
  - rewrite IH. destruct (P d x) as [e ->]. rewrite put_entry_keys.
    assert (Q : k ∈ (if bool_decide (f x ∈ d.*1) then d.*1 else d.*1 ++ [f x]) <-> k ∈ d.*1 \/ f x = k).
    { case_bool_decide as B; [|rewrite elem_of_app, list_elem_of_singleton]; split; try tauto.
      - intros [?|<-]; done.
      - intros [?|<-]; [by left|by right].
      - intros [?|<-]; [by left|by right]. }
    rewrite Q. setoid_rewrite elem_of_cons. naive_solver.
Qed.

Lemma add_pins_ok xs d : inventory_ok d -> inventory_ok (foldl add_pin d xs).
Proof. revert d. induction xs as [|x xs IH]; intros d O; [done|]. by apply IH, add_pin_ok. Qed.
Lemma add_decisions_ok xs d : inventory_ok d -> inventory_ok (foldl add_decision d xs).
Proof. revert d. induction xs as [|x xs IH]; intros d O; [done|]. by apply IH, add_decision_ok. Qed.

#[export] Instance listed_worse_total : Total listed_worse.
Proof.
  intros a b. unfold listed_worse.
  destruct (Z.lt_trichotomy (health_rank (health a)) (health_rank (health b))) as [L|[L|L]].
  - left. apply orb_true_iff. left. by apply Z.ltb_lt.
  - destruct (text_leb_total (en_server (ls_entry a)) (en_server (ls_entry b))); [left|right];
      apply orb_true_iff; right; apply andb_true_iff; (split; [apply Z.eqb_eq; lia|done]).
  - right. apply orb_true_iff. left. by apply Z.ltb_lt.
Qed.

(** What [list_servers] lists, for one namespace. *)
Lemma list_servers_rows u ns pins t rows :
  ns <> [] -> ns <> points "all" -> list_servers u (Some ns) pins t = inr rows ->
  Sorted listed_worse rows /\
  (forall s, s ∈ rows -> en_namespace (ls_entry s) = ns /\
     ls_status s = match t !! (ns, en_server (ls_entry s)) with Some r => sv_status r | None => STATUS_DISCOVERED end) /\
  (forall server, (exists s, s ∈ rows /\ en_server (ls_entry s) = server) <->
     is_Some (t !! (ns, server)) \/ exists tool, is_Some (row_at ns server tool pins)).
Proof.
  intros N Na E. unfold list_servers in E. destruct (read_namespace u (VStr ns)) as [e|v] eqn:Er; [done|].
  cbn [checked] in E.
  assert (v = VStr ns) as -> by (by eapply read_own_namespace). clear Er.
  set (xs := filter (fun l => matches (Some ns) (li_namespace l) = true) (all_rows pins)) in E.
  set (ds := filter (fun e => matches (Some ns) e.1.1 = true) t) in E.
  set (d := foldl add_decision (foldl add_pin [] xs) (map_to_list ds)) in E. injection E as <-.
  assert (Mt : forall n, matches (Some ns) n = true <-> n = ns).
  { intros n. unfold matches. rewrite (bool_decide_false _ N). cbn [orb]. rewrite bool_decide_eq_true. split; congruence. }
  assert (Od : inventory_ok d) by (apply add_decisions_ok, add_pins_ok; split; constructor).
  assert (Kd : forall k, k ∈ d.*1 <-> k.1 = ns /\ (is_Some (t !! k) \/ exists tool, is_Some (row_at k.1 k.2 tool pins))).
  { intros k. unfold d. rewrite (add_keys fst) by (intros; by eexists).
    rewrite (add_keys (fun l => (li_namespace l, li_server l))) by (intros; by eexists). split.
    - intros [[I%elem_of_nil|(l & I & <-)]|([k' r] & I & <-)]; [done| |].
      + unfold xs in I. apply list_elem_of_filter in I as [M I]. apply Mt in M. apply all_rows_elem in I. cbn. split; [done|].
        right. eauto.
      + apply elem_of_map_to_list in I. unfold ds in I. apply map_lookup_filter_Some in I as [I M]. apply Mt in M. cbn in *.
        split; [done|]. left. eauto.
    - intros [Kn [[r R]|(tool & r & R)]].
      + right. exists (k, r). split; [|done]. apply elem_of_map_to_list, map_lookup_filter_Some. split; [done|]. by apply Mt.
      + left. right. exists {| li_namespace := k.1; li_server := k.2; li_tool := tool; li_row := r |}. cbn.
        split; [|by destruct k]. apply list_elem_of_filter. split; [by apply Mt|]. by apply all_rows_elem. }
  assert (Ks : forall k e, (k, e) ∈ d -> en_server e = k.2 /\ en_namespace e = k.1).
  { intros k e I. destruct Od as [_ F]. rewrite Forall_forall in F. by apply (F (k, e)). }
  split_and!.
  - apply Sorted_merge_sort, _.
  - intros s I. apply merge_sort_elem in I. apply list_elem_of_fmap in I as ([k e] & -> & I). cbn [fst snd].
    destruct (Ks k e I) as [S1 S2]. assert (Kk : k ∈ d.*1) by (apply list_elem_of_fmap; by exists (k, e)).
    apply Kd in Kk as [Kn _]. destruct k as [kn ksv]. cbn [fst snd] in *. rewrite Kn in *. clear Kn kn.
    unfold listed_server. assert (ds !! (ns, ksv) = t !! (ns, ksv)) as Eds.
    { unfold ds. destruct (t !! (ns, ksv)) as [r|] eqn:Et.
      - apply map_lookup_filter_Some. split; [done|]. by apply Mt.
      - apply map_lookup_filter_None. by left. }
    rewrite Eds. destruct (t !! (ns, ksv)) as [r|] eqn:Et; cbn; rewrite S1, Et; done.
  - intros server. split.
    + intros (s & I & <-). apply merge_sort_elem in I. apply list_elem_of_fmap in I as ([k e] & -> & I). cbn [fst snd].
      destruct (Ks k e I) as [S1 S2]. assert (Kk : k ∈ d.*1) by (apply list_elem_of_fmap; by exists (k, e)).
      apply Kd in Kk as [Kn Kc]. destruct k as [kn ksv]. cbn [fst snd] in *. rewrite Kn in *. clear Kn kn.
      assert (en_server (ls_entry (listed_server ds (ns, ksv) e)) = ksv) as -> by (unfold listed_server; case_match; done). done.
    + intros C. assert (Kk : (ns, server) ∈ d.*1) by (by apply Kd).
      apply list_elem_of_fmap in Kk as ([k e] & Ek & I). cbn in Ek. subst k. destruct (Ks _ _ I) as [S1 _].
      exists (listed_server ds (ns, server) e). split.
      * apply merge_sort_elem, list_elem_of_fmap. by exists ((ns, server), e).
      * unfold listed_server. by case_match.
Qed.

(** The inventory of a namespace lists exactly the servers that were seen or decided there, worst first: a
    blocked server before every other, then by what was observed. *)
Theorem inventory_complete_and_sorted u ns pins t rows :
  ns <> [] -> ns <> points "all" -> list_servers u (Some ns) pins t = inr rows ->
  Sorted listed_worse rows /\
  (forall server, (exists s, s ∈ rows /\ en_server (ls_entry s) = server) <->
     is_Some (t !! (ns, server)) \/ exists tool, is_Some (row_at ns server tool pins)) /\
  (forall s, s ∈ rows -> health_rank (health s) = 0 <->
     exists r, t !! (ns, en_server (ls_entry s)) = Some r /\ sv_status r = STATUS_BLOCKED).
Proof.
  intros N Na E. destruct (list_servers_rows u ns pins t rows N Na E) as (S & St & C). split_and!; [done|done|].
  intros s I. destruct (St s I) as [_ Es]. unfold health. rewrite Es.
  assert (Ob : health_rank (observed_health s) <> 0) by (unfold observed_health; by repeat case_match).
  destruct (t !! _) as [r|] eqn:Et; [case_bool_decide as B|].
  - split; [eauto|done].
  - split; [done|]. intros (r' & [= <-] & B'). done.
  - split; [done|]. by intros (r' & ? & _).
Qed.

(** ** A block reaches the proxies *)

Lemma from_rows_status rows acc server st ds :
  server <> [] -> from_rows (map Some rows) acc = Some ds ->
  (forall d, (server, d) ∈ rows -> de_status d = st) ->
  (exists d, (server, d) ∈ rows) \/ (exists d, acc !! server = Some d /\ de_status d = known_status (or_else st STATUS_DISCOVERED)) ->
  exists d, ds !! server = Some d /\ de_status d = known_status (or_else st STATUS_DISCOVERED).
Proof.
  intros N. revert acc. induction rows as [|[sid d0] rows IH]; intros acc E U C; cbn in E.
  - injection E as <-. destruct C as [(d & I%elem_of_nil)|C]; done.
  - eapply IH; [exact E| |].
    + intros d I. apply U. by right.
    + destruct (decide (sid = server)) as [->|Q].
      * right. rewrite (bool_decide_false _ N), lookup_insert_eq. eexists. split; [done|]. cbn. rewrite (U d0) by left. done.
      * destruct C as [(d & [J|I]%elem_of_cons)|(d & A & D)]; [congruence|left; eauto|].
        right. exists d. split; [|done]. case_bool_decide; [done|]. by rewrite lookup_insert_ne.
Qed.

Lemma from_rows_some rows acc : is_Some (from_rows (map Some rows) acc).
Proof. revert acc. induction rows as [|[sid d] rows IH]; intros acc; cbn; [done|]. apply IH. Qed.

(** An answer that does not replace the decisions: none at all, or rows that cannot be read. *)
Definition fails_to_load (resp : ServerResponse) : Prop :=
  match resp with NoAnswer => True | NoList => False | ServerRows rows => from_rows rows ∅ = None end.

Lemma failed_load_keeps resp s : fails_to_load resp -> decisions (registry (load_servers resp s).1) = decisions (registry s).
Proof. destruct resp as [| |rows]; cbn; [done|done|]. by intros ->. Qed.

(** A blocked server is unreachable for every proxy of the namespace from its next successful load on, and
    stays so through any number of loads that fail; one without a decision is reachable. *)
Theorem block_reaches_proxies u ns server pins t r rows s fails :
  ns <> [] -> ns <> points "all" -> server <> [] ->
  t !! (ns, server) = Some r -> sv_status r = STATUS_BLOCKED ->
  list_servers u (Some ns) pins t = inr rows -> Forall fails_to_load fails ->
  let s' := (load_servers (as_server_response rows) s).1 in
  let s'' := foldl (fun s resp => (load_servers resp s).1) s' fails in
  loaded s' = true /\ reachable (decision_of (registry s'') server) = false.
Proof.
  intros N Na Ns Et B El F s' s''. destruct (list_servers_rows u ns pins t rows N Na El) as (_ & St & C).
  set (ps := map (fun s => (en_server (ls_entry s), {| de_status := ls_status s; de_writable := ls_writable s; de_note := ls_note s |})) rows).
  assert (Er : as_server_response rows = ServerRows (map Some ps)) by (unfold as_server_response, ps; by rewrite map_map).
  destruct (from_rows_some ps ∅) as [ds Ed].
  assert (Es : s' = {| registry := {| decisions := ds; reg_degraded := false |}; loaded := true; st_degraded := false |}).
  { unfold s'. rewrite Er. cbn. by rewrite Ed. }
  assert (K : decisions (registry s'') = ds).
  { unfold s''. rewrite Es. clear -F. set (s0 := {| registry := _; loaded := _; st_degraded := _ |}).
    assert (G : forall s1, decisions (registry s1) = ds -> decisions (registry (foldl (fun s resp => (load_servers resp s).1) s1 fails)) = ds).
    { induction F as [|x fails Fx F IH]; intros s1 D; [done|]. cbn. apply IH. by rewrite failed_load_keeps. }
    by apply G. }
  destruct (from_rows_status ps ∅ server STATUS_BLOCKED ds Ns Ed) as (d & Dd & Dst).
  - intros d I. apply list_elem_of_fmap in I as (x & [= -> ->] & I). cbn. destruct (St x I) as [_ ->]. by rewrite Et.
  - left. destruct (proj2 (C server)) as (x & I & <-); [left; by rewrite Et|].
    eexists. apply list_elem_of_fmap. by exists x.
  - split; [by rewrite Es|]. unfold decision_of. rewrite K, Dd. cbn. unfold reachable. by rewrite Dst.
Qed.

(** ** Concrete decisions *)

Module Registry.

Definition admin : Claims := Callers.caller "admin" "" "" "".
Definition decision (server status : string) : ServerDecisionBody :=
  {| sd_namespace := "prod"; sd_server := points server; sd_status := status; sd_writable := true; sd_note := [] |}.
Definition blocked_row : ServerRow := decided_row admin (decision "mail" "blocked") 5 None.
Definition one_blocked : ServerTable := {[(points "prod", points "mail") := blocked_row]}.
Definition empty_store : ServerStore :=
  {| registry := {| decisions := ∅; reg_degraded := false |}; loaded := false; st_degraded := false |}.

Lemma decision_counts :
  match decide_server (H := demo) 5 0 admin (decision "mail" "registered") 5 true ∅ empty_world with
  | (_, inr (_, inr d)) => dr_registered d
  | _ => -2
  end = 1.
Proof. by vm_compute. Qed.

Lemma bad_id_stops_registry_witness :
  exists w' t' d, decide_server (H := demo) 5 0 admin (decision "mail" "blocked") 6 true
    {[(points "prod", points "my server") := decided_row admin (decision "my server" "registered") 5 None]} empty_world = (w', inr (t', inr d)) /\
    dr_registered d = -1 /\ same_store empty_world w'.
Proof.
  destruct (bad_id_stops_registry (H := demo) 5 0 admin (decision "mail" "blocked") 6
    {[(points "prod", points "my server") := decided_row admin (decision "my server" "registered") 5 None]} empty_world
    (points "my server")) as (w' & d & E & R & S).
  - by vm_compute.
  - apply (bool_decide_unpack _). by vm_compute.
  - done.
  - by vm_compute.
  - exists w'. eexists. exists d. split; [exact E|]. split; [exact R|exact S].
Defined.

Lemma grants_are_registrations_witness :
  grants_ok (foldl (reg_step (H := demo) 5 0) (∅, one_blocked, empty_world)
    [Decide admin (decision "mail" "registered") 6 true; Forget admin "prod" (points "mail") true]).1.2.
Proof.
  apply (grants_are_registrations (H := demo) 5 0
    [Decide admin (decision "mail" "registered") 6 true; Forget admin "prod" (points "mail") true] ∅ one_blocked empty_world).
  apply map_Forall_singleton. by intros X.
Defined.

Lemma refusal_survives_forgetting_witness :
  exists r, (foldl (reg_step (H := demo) 5 0) (∅, one_blocked, empty_world) [Forget admin "prod" (points "mail") true]).1.2
      !! (points "prod", points "mail") = Some r /\ sv_status r = STATUS_BLOCKED.
Proof.
  apply (refusal_survives_forgetting (H := demo) 5 0 ∅ one_blocked empty_world "prod" (points "mail") [Forget admin "prod" (points "mail") true]).
  - exists blocked_row. split; [apply lookup_singleton_eq|done].
  - by repeat constructor.
Defined.

Lemma inventory_complete_and_sorted_witness :
  exists rows, list_servers admin (Some (points "prod")) ∅ one_blocked = inr rows /\ Sorted listed_worse rows.
Proof.
  destruct (list_servers admin (Some (points "prod")) ∅ one_blocked) as [f|rows] eqn:E; [by vm_compute in E|].
  exists rows. split; [done|]. apply (inventory_complete_and_sorted admin (points "prod") ∅ one_blocked rows); [done..|exact E].
Defined.

Lemma block_reaches_proxies_witness :
  exists rows, list_servers admin (Some (points "prod")) ∅ one_blocked = inr rows /\
    let s' := (load_servers (as_server_response rows) empty_store).1 in
    let s'' := foldl (fun s resp => (load_servers resp s).1) s' [NoAnswer; ServerRows [None]] in
    loaded s' = true /\ reachable (decision_of (registry s'') (points "mail")) = false.
Proof.
  destruct (list_servers admin (Some (points "prod")) ∅ one_blocked) as [f|rows] eqn:E; [by vm_compute in E|].
  exists rows. split; [done|].
  apply (block_reaches_proxies admin (points "prod") (points "mail") ∅ one_blocked blocked_row rows empty_store [NoAnswer; ServerRows [None]]);
    [done|done|done|apply lookup_singleton_eq|done|exact E|by repeat constructor].
Defined.

End Registry.
