(* ===== verification/Masking.v ===== *)
(** * Masking of sensitive values ([engine/masking.py])

    Card and social-security numbers are masked in tool results ([mask_text], [mask_structure_counted]) and
    in the parameters an audit row keeps ([mask_params]); connection and webhook URLs are redacted before
    they are logged.  The regular expressions are matched as Python does: leftmost, without overlap, with
    [\d] and [\b] over Unicode (whose tables are parameters). *)

From S2P Require Import Prelude.
From S2P Require Import Text.
From S2P Require Import Json.
From S2P Require Import JsonParse.

(** ** [re.sub] with a pattern of single-character steps *)

Section Sub.
Context (m : option Z -> text -> option nat).   (* the length of the match here, given the character before *)
Context (repl : text -> text).

(** [pattern.sub(repl, t)]; [skip] characters belong to the match already replaced. *)
Fixpoint sub (skip : nat) (prev : option Z) (t : text) : text :=
  match t with
  | [] => []
  | c :: t' =>
      match skip with
      | S k => sub k (Some c) t'
      | O => match m prev t with
             | Some (S n) => repl (take (S n) t) ++ sub n (Some c) t'
             | _ => c :: sub 0 (Some c) t'
             end
      end
  end.
End Sub.

Section Patterns.
Context (is_digit : Z -> bool).    (* [\d]: decimal digits of any script *)
Context (is_wordc : Z -> bool).    (* [\w] *)

(** One step of a pattern: a digit, a digit after an optional space or hyphen, a hyphen, a word boundary
    after a word character. *)
Inductive Step := D | SD | Hyphen | Boundary.

Definition eat_digit (t : text) : option text :=
  match t with c :: r => if is_digit c then Some r else None | [] => None end.

Definition is_sep (c : Z) : bool := (c =? 32) || (c =? 45).

Definition eat (s : Step) (t : text) : option text :=
  match s with
  | D => eat_digit t
  | SD => match t with c :: r => if is_sep c then eat_digit r else eat_digit t | [] => None end
  | Hyphen => match t with c :: r => if c =? 45 then Some r else None | [] => None end
  | Boundary => match t with c :: _ => if is_wordc c then None else Some t | [] => Some [] end
  end.

Fixpoint eat_all (p : list Step) (t : text) : option text :=
  match p with [] => Some t | s :: p' => r ← eat s t; eat_all p' r end.

(** The pattern at a position: [\b] before its first digit, then its steps. *)
Definition match_at (p : list Step) (prev : option Z) (t : text) : option nat :=
  if match prev with Some c => is_wordc c | None => false end then None
  else r ← eat_all p t; Some (length t - length r)%nat.

(** [_PAN_RE] and [_SSN_RE]. *)
Definition PAN : list Step := [D; D; D; D; SD; D; D; D; SD; D; D; D; SD; D; D; D; Boundary].
Definition SSN : list Step := [D; D; D; Hyphen; D; D; Hyphen; D; D; D; D; Boundary].

Definition last4 (t : text) : text := drop (length t - 4) t.
Definition stars : text := points "****".

(** [_mask_pan]'s replacement: the separators are removed first. *)
Definition hide_pan (x : text) : text := stars ++ last4 (filter (fun c => is_sep c = false) x).

(** [_LONG_DIGITS_RE.match(t)]: [$] also matches before a final newline. *)
Definition long_digits (t : text) : bool :=
  let n := length (take_while is_digit t) in
  (13 <=? n)%nat && (n <=? 19)%nat && bool_decide (drop_while is_digit t ∈ [[]; [10]]).

(** [_mask_pan]. *)
Definition mask_pan (t : text) : text :=
  let masked := sub (match_at PAN) hide_pan 0 None t in
  if long_digits masked then stars ++ last4 masked else masked.

(** [_mask_string], which [mask_text] is on strings. *)
Definition mask_string (t : text) : text :=
  sub (match_at SSN) (fun x => points "***-**-" ++ last4 x) 0 None (mask_pan t).

(** ** Structures *)

Definition SENSITIVE_KEYS : list text :=
  map points ["password"; "secret"; "api_key"; "token"; "private_key"; "authorization"; "ssn"; "pin"; "cvv"].

(** [mask_value]. *)
Fixpoint mask_value (key : text) (v : value) : value :=
  match v with
  | VObj fs => VObj (map (fun f => (f.1, mask_value f.1 f.2)) fs)
  | VArr l => VArr (map (mask_value key) l)
  | VStr s => if bool_decide (lower key ∈ SENSITIVE_KEYS) then VStr stars else VStr (mask_string s)
  | _ => v
  end.

(** [mask_params]. *)
Definition mask_params (params : value) : list (text * value) :=
  match params with VObj fs => map (fun f => (f.1, mask_value f.1 f.2)) fs | _ => [] end.

Definition MASK_MAX_NODES : Z := 4096.
Definition MASK_MAX_DEPTH : Z := 24.

(** How far a walk has got. *)
Record Walk := { visited : Z; redacted : Z }.

Section Over.
Context (f : value -> Walk -> value * Walk).

Fixpoint walk_list (l : list value) (w : Walk) : list value * Walk :=
  match l with
  | [] => ([], w)
  | v :: l' => let '(v', w1) := f v w in let '(l2, w2) := walk_list l' w1 in (v' :: l2, w2)
  end.

Fixpoint walk_fields (fs : list (text * value)) (w : Walk) : list (text * value) * Walk :=
  match fs with
  | [] => ([], w)
  | (k, v) :: fs' => let '(v', w1) := f v w in let '(fs2, w2) := walk_fields fs' w1 in ((k, v') :: fs2, w2)
  end.
End Over.

(** The walk of [mask_structure_counted]. *)
Fixpoint walk (depth : Z) (v : value) (w : Walk) : value * Walk :=
  if (MASK_MAX_NODES <=? visited w) || (MASK_MAX_DEPTH <? depth) then (v, w)
  else
    let w := {| visited := visited w + 1; redacted := redacted w |} in
    match v with
    | VStr s => let out := mask_string s in
                (VStr out, {| visited := visited w; redacted := redacted w + if bool_decide (out = s) then 0 else 1 |})
    | VObj fs => let '(fs', w') := walk_fields (walk (depth + 1)) fs w in (VObj fs', w')
    | VArr l => let '(l', w') := walk_list (walk (depth + 1)) l w in (VArr l', w')
    | _ => (v, w)
    end.

Definition mask_structure_counted (v : value) : value * Z :=
  let '(v', w) := walk 0 v {| visited := 0; redacted := 0 |} in (v', redacted w).

End Patterns.

(** ** [luhn_ok] and [is_sensitive_key] *)

Section Luhn.
Context (isdigit : Z -> bool).     (* [str.isdigit] per character *)

Definition luhn_digit (alt : bool) (c : Z) : Z :=
  let d := c - 48 in if alt then (let e := 2 * d in if 9 <? e then e - 9 else e) else d.

(** The sum over the reversed digits. *)
Fixpoint luhn_sum (alt : bool) (t : text) : Z :=
  match t with [] => 0 | c :: t' => luhn_digit alt c + luhn_sum (negb alt) t' end.

Definition luhn_ok (t : text) : bool :=
  forallb isdigit t && (12 <=? length t)%nat && (length t <=? 19)%nat && (luhn_sum false (reverse t) mod 10 =? 0).

Context (casefold : text -> text).

Definition SENSITIVE_KEY_PARTS : list text :=
  map points
    ["password"; "passwd"; "pwd"; "secret"; "apikey"; "apikey"; "privatekey"; "privatekey"; "authorization"; "credential";
     "ssn"; "cvv"; "accesskey"; "accesskey"; "accesstoken"; "accesstoken"; "refreshtoken"; "refreshtoken"; "clientsecret";
     "clientsecret"; "bearertoken"; "bearertoken"; "sessiontoken"; "sessiontoken"].   (* underscores removed *)

Definition is_sensitive_key (name : text) : bool :=
  let flat := filter (fun c => is_lower c || is_num c = true) (casefold (tstrip name)) in
  bool_decide (flat ∈ map points ["pin"; "token"; "ssn"; "cvv"]) || existsb (fun part => tcontains part flat) SENSITIVE_KEY_PARTS.
End Luhn.

(** ** URLs *)

(** [t.rpartition(sep)] as what is before the last separator, if there is one, and what is after it. *)
Fixpoint rpartition (sep : Z) (t : text) : option text * text :=
  match t with
  | [] => (None, [])
  | c :: t' =>
      match rpartition sep t' with
      | (Some a, b) => (Some (c :: a), b)
      | (None, b) => if c =? sep then (Some [], b) else (None, c :: b)
      end
  end.

Definition SCHEME_SEP : text := points "://".

(** [url.find("://")] with the scheme it ends and the rest. *)
Definition split_scheme (url : text) : option (text * text) :=
  i ← tindex SCHEME_SEP url; Some (take (i + 3) url, drop (i + 3) url).

Definition redact_url_credentials (url : text) : text :=
  if bool_decide (64 ∉ url) then url
  else match split_scheme url with
       | None => points "***"
       | Some (scheme, rest) =>
           match rpartition 64 rest with
           | (None, _) | (Some [], _) => url
           | (Some userinfo, hostpart) =>
               let user := (partition 58 userinfo).1 in
               if bool_decide (user = []) then scheme ++ points "***@" ++ hostpart
               else scheme ++ user ++ points ":***@" ++ hostpart
           end
       end.

Definition redact_url_to_origin (url : text) : text :=
  if bool_decide (url = []) then url
  else match split_scheme url with
       | None => points "***"
       | Some (scheme, rest) =>
           let host := (partition 63 (partition 47 (rpartition 64 rest).2).1).1 in
           if bool_decide (host = []) then points "***" else scheme ++ host
       end.

(** ** A masked card number shows its last four digits and nothing else *)

Section Cards.
Context (is_digit is_wordc : Z -> bool).
(** The space and the hyphen are no digits. *)
Context (sep_not_digit : forall c, is_sep c = true -> is_digit c = false).

Notation eat := (eat is_digit is_wordc).
Notation eat_all := (eat_all is_digit is_wordc).
Notation match_at := (match_at is_digit is_wordc).

(** A character no match of [PAN] contains. *)
Definition blocks (c : Z) : Prop := is_digit c = false /\ is_sep c = false.

(** What a step does before such a character does not depend on what is behind it. *)
Definition local (f : text -> option text) : Prop := forall a c, blocks c ->
  (exists a2, (length a2 <= length a)%nat /\ forall r, f (a ++ c :: r) = Some (a2 ++ c :: r)) \/ (forall r, f (a ++ c :: r) = None).

Lemma eat_digit_local : local (eat_digit is_digit).
Proof.
  intros [|d a] c [N _]; cbn; [right; by rewrite N|]. destruct (is_digit d); [left; exists a; split; [lia|done]|by right].
Qed.

Lemma eat_local s : local (eat s).
Proof.
  destruct s; cbn [Masking.eat].
  - apply eat_digit_local.
  - intros [|d a] c B; cbn.
    + destruct B as [N S]. right. intros r. by rewrite S, N.
    + destruct (is_sep d).
      * destruct (eat_digit_local a c B) as [(a2 & L & E)|E]; [left; exists a2; split; [lia|exact E]|by right].
      * apply (eat_digit_local (d :: a) c B).
  - intros [|d a] c [_ S]; cbn.
    + right. unfold is_sep in S. bool_prop. intros r. by rewrite (proj2 (Z.eqb_neq c 45)).
    + destruct (d =? 45); [left; exists a; split; [lia|done]|by right].
  - intros [|d a] c B; cbn.
    + destruct (is_wordc c); [by right|left; by exists []].
    + destruct (is_wordc d); [by right|left; by exists (d :: a)].
Qed.

Lemma eat_all_local p : local (eat_all p).
Proof.
  induction p as [|s p IH]; intros a c B; [left; by exists a|]. cbn [Masking.eat_all]. unfold mbind, option_bind.
  destruct (eat_local s a c B) as [(a1 & L1 & E1)|E1]; [|right; intros r; by rewrite E1].
  destruct (IH a1 c B) as [(a2 & L2 & E2)|E2].
  - left. exists a2. split; [lia|]. intros r. by rewrite E1, E2.
  - right. intros r. by rewrite E1, E2.
Qed.

(** A match before such a character ends before it. *)
Lemma match_at_local p prev a c : blocks c ->
  (exists n, (n <= length a)%nat /\ forall r, match_at p prev (a ++ c :: r) = Some n) \/ (forall r, match_at p prev (a ++ c :: r) = None).
Proof.
  intros B. unfold Masking.match_at. destruct (match prev with Some d => is_wordc d | None => false end); [by right|].
  unfold mbind, option_bind. destruct (eat_all_local p a c B) as [(a2 & L & E)|E].
  - left. exists (length a - length a2)%nat. split; [lia|]. intros r. rewrite E. f_equal. rewrite !length_app. cbn. lia.
  - right. intros r. by rewrite E.
Qed.

(** Substitution splits at such a character. *)
Lemma sub_split p repl skip prev a c r : blocks c -> (skip <= length a)%nat ->
  sub (match_at p) repl skip prev (a ++ c :: r) = sub (match_at p) repl skip prev (a ++ [c]) ++ sub (match_at p) repl 0 (Some c) r.
Proof.
  intros B. revert skip prev. induction a as [|d a IH]; intros skip prev L.
  - destruct skip; [|cbn in L; lia]. cbn [app sub].
    destruct (match_at_local p prev [] c B) as [(n & Ln & E)|E].
    + cbn in Ln. rewrite (E r : match_at p prev (c :: r) = _), (E [] : match_at p prev [c] = _).
      by replace n with 0%nat by lia.
    + by rewrite (E r : match_at p prev (c :: r) = _), (E [] : match_at p prev [c] = _).
  - cbn [app sub]. destruct skip as [|k]; [|apply IH; cbn in L; lia].
    destruct (match_at_local p prev (d :: a) c B) as [(n & Ln & E)|E].
    + rewrite (E r : match_at p prev (d :: a ++ c :: r) = _), (E [] : match_at p prev (d :: a ++ [c]) = _).
      destruct n as [|n]; [by rewrite IH by lia|]. cbn [length] in Ln.
      rewrite IH by lia. rewrite app_assoc. f_equal. f_equal. f_equal.
      rewrite !app_comm_cons. change (d :: a ++ c :: r) with ((d :: a) ++ c :: r). rewrite !take_app_le; [done|cbn; lia..].
    + rewrite (E r : match_at p prev (d :: a ++ c :: r) = _), (E [] : match_at p prev (d :: a ++ [c]) = _). by rewrite IH by lia.
Qed.

(** A card number: sixteen digits in groups of four. *)
Definition CARD : list Step := [D; D; D; D; SD; D; D; D; SD; D; D; D; SD; D; D; D].
Definition is_card (x : text) : Prop := eat_all CARD x = Some [].

(** What stands before and after it does not run into it. *)
Definition open_left (a : text) : Prop :=
  match last a with Some c => blocks c /\ is_wordc c = false | None => True end.
Definition open_right (b : text) : Prop := match b with c :: _ => is_wordc c = false | [] => True end.

Lemma eat_ext s x y b : s <> Boundary -> eat s x = Some y -> eat s (x ++ b) = Some (y ++ b).
Proof.
  intros N. destruct s; cbn [Masking.eat]; [| | |done]; destruct x as [|c x]; try done; cbn.
  - destruct (is_digit c); [by intros [= ->]|done].
  - destruct (is_sep c); [destruct x as [|d x]; [done|]; cbn; destruct (is_digit d); [by intros [= ->]|done]|].
    destruct (is_digit c); [by intros [= ->]|done].
  - destruct (c =? 45); [by intros [= ->]|done].
Qed.

Lemma eat_all_ext p x y b : Boundary ∉ p -> eat_all p x = Some y -> eat_all p (x ++ b) = Some (y ++ b).
Proof.
  revert x. induction p as [|s p IH]; intros x N; cbn [Masking.eat_all]; [by intros [= ->]|].
  apply not_elem_of_cons in N as [Ns Np]. unfold mbind, option_bind. destruct (eat s x) as [z|] eqn:E; [|done].
  rewrite (eat_ext s x z b) by done. by apply IH.
Qed.

Lemma eat_all_app p q x : eat_all (p ++ q) x = y ← eat_all p x; eat_all q y.
Proof.
  revert x. induction p as [|s p IH]; intros x; [done|]. cbn [app Masking.eat_all]. unfold mbind, option_bind in *.
  destruct (eat s x); [apply IH|done].
Qed.

Lemma match_card prev x b : is_card x -> open_right b -> match prev with Some c => is_wordc c = false | None => True end ->
  match_at PAN prev (x ++ b) = Some (length x).
Proof.
  intros X R P. unfold Masking.match_at. replace (match prev with Some c => is_wordc c | None => false end) with false by (by destruct prev).
  change PAN with (CARD ++ [Boundary]). rewrite eat_all_app. unfold mbind, option_bind.
  assert (N : Boundary ∉ CARD) by (intros I; repeat (apply elem_of_cons in I as [I|I]; [done|]); by apply elem_of_nil in I).
  rewrite (eat_all_ext CARD x [] b N X). cbn [app Masking.eat_all Masking.eat]. unfold mbind, option_bind.
  destruct b as [|c b]; [|cbn in R; rewrite R]; rewrite ?length_app; f_equal; cbn; lia.
Qed.

(** Skipping over a match. *)
Lemma sub_skip m repl x prev b : sub m repl (length x) prev (x ++ b) = sub m repl 0 (match last x with Some c => Some c | None => prev end) b.
Proof.
  revert prev. induction x as [|c x IH]; intros prev; [done|]. cbn [app length sub]. rewrite IH, last_cons. by destruct (last x).
Qed.

Lemma card_nonempty x : is_card x -> exists c x', x = c :: x'.
Proof. destruct x; [done|eauto]. Qed.

Lemma sub_card repl prev x b : is_card x -> open_right b -> match prev with Some c => is_wordc c = false | None => True end ->
  sub (match_at PAN) repl 0 prev (x ++ b) = repl x ++ sub (match_at PAN) repl 0 (last x) b.
Proof.
  intros X R P. pose proof (match_card prev x b X R P) as E. destruct (card_nonempty x X) as (c & x' & ->).
  cbn [app sub] in *. rewrite E. cbn [length]. f_equal.
  - f_equal. apply (take_app_length (c :: x') b).
  - by rewrite sub_skip, last_cons.
Qed.

(** A card number in a text becomes asterisks and its last four digits; the rest is masked by itself. *)
Lemma card_masked a x b : is_card x -> open_left a -> open_right b ->
  sub (match_at PAN) hide_pan 0 None (a ++ x ++ b) =
    sub (match_at PAN) hide_pan 0 None a ++ hide_pan x ++ sub (match_at PAN) hide_pan 0 (last x) b.
Proof.
  intros X L R. destruct a as [|c a _] using rev_ind.
  - cbn [app]. by apply sub_card.
  - unfold open_left in L. rewrite last_snoc in L. destruct L as [B W]. rewrite <- app_assoc. cbn [app].
    rewrite (sub_split PAN hide_pan 0 None a c (x ++ b)) by (done || lia). f_equal. by apply sub_card.
Qed.

Lemma eat_suffix s x y : eat s x = Some y -> exists z, x = z ++ y.
Proof.
  assert (E1 : forall x y, eat_digit is_digit x = Some y -> exists z, x = z ++ y).
  { intros [|c w] v; [done|]. cbn. destruct (is_digit c); [|done]. intros [= <-]. by exists [c]. }
  destruct s; cbn [Masking.eat].
  - apply E1.
  - destruct x as [|c x]; [done|]. destruct (is_sep c); [|apply E1]. intros [z ->]%E1. by exists (c :: z).
  - destruct x as [|c x]; [done|]. destruct (c =? 45); [|done]. intros [= <-]. by exists [c].
  - destruct x as [|c x]; [|destruct (is_wordc c); [done|]]; intros [= <-]; by exists [].
Qed.

Lemma eat_all_suffix p x y : eat_all p x = Some y -> exists z, x = z ++ y.
Proof.
  revert x. induction p as [|s p IH]; intros x; cbn [Masking.eat_all]; [intros [= <-]; by exists []|].
  unfold mbind, option_bind. destruct (eat s x) as [w|] eqn:E; [|done]. apply eat_suffix in E as [z ->].
  intros [z' ->]%IH. exists (z ++ z'). by rewrite <- app_assoc.
Qed.

Lemma eat_all_last p x y : eat_all (p ++ [D]) x = Some y -> exists z c, x = z ++ c :: y /\ is_digit c = true.
Proof.
  rewrite eat_all_app. unfold mbind, option_bind. destruct (eat_all p x) as [u|] eqn:E; [|done].
  apply eat_all_suffix in E as [z ->]. cbn. unfold mbind, option_bind. destruct u as [|c u]; [done|].
  cbn [eat_digit]. destruct (is_digit c) eqn:C; [|done]. intros [= ->]. eauto.
Qed.

Lemma card_last x : is_card x -> exists z c, x = z ++ [c] /\ is_digit c = true.
Proof. apply (eat_all_last [D; D; D; D; SD; D; D; D; SD; D; D; D; SD; D; D]). Qed.

Lemma card_last_digit x x' : is_card x -> is_card x' -> hide_pan x = hide_pan x' -> last x = last x'.
Proof.
  intros X X'. destruct (card_last x X) as (z & c & -> & C), (card_last x' X') as (z' & c' & -> & C').
  unfold hide_pan. intros E%app_inv_head. rewrite !last_snoc.
  assert (F : forall z c, is_digit c = true -> last (last4 (filter (fun c => is_sep c = false) (z ++ [c]))) = Some c).
  { intros w d Dd. rewrite filter_app, filter_cons, filter_nil. rewrite decide_True.
    - unfold last4. rewrite length_app. cbn [length]. destruct (decide (length (filter (fun c => is_sep c = false) w) + 1 - 4 <= length (filter (fun c => is_sep c = false) w))%nat) as [Le|]; [|lia].
      rewrite drop_app_le by lia. apply last_snoc.
    - destruct (is_sep d) eqn:S; [|done]. apply sep_not_digit in S. congruence. }
  apply (f_equal last) in E. by rewrite (F z c C), (F z' c' C') in E.
Qed.

(** A masked card shows its last four digits and nothing else: two card numbers (sixteen digits, grouped by
    spaces, hyphens or not at all) with the same last four digits, in the same place of a text that does
    not run into them, give the same masked text. *)
Theorem card_hidden a x x' b :
  is_card x -> is_card x' -> hide_pan x = hide_pan x' -> open_left a -> open_right b ->
  mask_string is_digit is_wordc (a ++ x ++ b) = mask_string is_digit is_wordc (a ++ x' ++ b).
Proof.
  intros X X' E L R. unfold mask_string, mask_pan. rewrite !card_masked by done.
  by rewrite (card_last_digit x x' X X' E), E.
Qed.

End Cards.

(** ** The walk over a structure *)

Section Structures.
Context (is_digit is_wordc : Z -> bool).

Notation mask := (mask_string is_digit is_wordc).
Notation walk := (walk is_digit is_wordc).

(** The reference: every string masked, and how many of them change. *)
Fixpoint mask_all (v : value) : value :=
  match v with
  | VStr s => VStr (mask s)
  | VArr l => VArr (map mask_all l)
  | VObj fs => VObj (map (fun f => (f.1, mask_all f.2)) fs)
  | _ => v
  end.

Definition Zsum (l : list Z) : Z := foldr Z.add 0 l.

Fixpoint changes (v : value) : Z :=
  match v with
  | VStr s => if bool_decide (mask s = s) then 0 else 1
  | VArr l => Zsum (map changes l)
  | VObj fs => Zsum (map (fun f => changes f.2) fs)
  | _ => 0
  end.

(** Far enough within the bounds, the walk is the reference. *)
Definition walked (d : Z) (v : value) : Prop := forall w,
  visited w + Z.of_nat (nodes v) <= MASK_MAX_NODES -> d + Z.of_nat (depth v) <= MASK_MAX_DEPTH ->
  walk d v w = (mask_all v, {| visited := visited w + Z.of_nat (nodes v); redacted := redacted w + changes v |}).

Lemma walk_list_spec d l w : Forall (walked d) l ->
  visited w + Z.of_nat (list_sum (map nodes l)) <= MASK_MAX_NODES -> d + Z.of_nat (list_max (map depth l)) <= MASK_MAX_DEPTH ->
  walk_list (walk d) l w =
    (map mask_all l, {| visited := visited w + Z.of_nat (list_sum (map nodes l)); redacted := redacted w + Zsum (map changes l) |}).
Proof.
  intros F. revert w. induction F as [|v l V F IH]; intros w N D; cbn [walk_list map].
  - destruct w as [a b]. cbn. by rewrite !Z.add_0_r.
  - cbn [map list_sum foldr list_max] in N, D. fold (list_sum (map nodes l)) in N. fold (list_max (map depth l)) in D.
    rewrite V by lia. rewrite IH by (cbn [visited]; lia). cbn [visited redacted list_sum foldr Zsum].
    fold (list_sum (map nodes l)). fold (Zsum (map changes l)). do 2 f_equal; lia.
Qed.

Lemma walk_fields_list d (fs : list (text * value)) w :
  walk_fields (walk d) fs w = let '(l, w') := walk_list (walk d) fs.*2 w in (zip fs.*1 l, w').
Proof.
  revert w. induction fs as [|[k v] fs IH]; intros w; [done|]. cbn [walk_fields]. rewrite !fmap_cons. cbn [walk_list fst snd].
  destruct (walk d v w) as [v' w1]. rewrite IH. by destruct (walk_list (walk d) fs.*2 w1).
Qed.

Lemma zip_map_fields (g : value -> value) (fs : list (text * value)) : zip fs.*1 (map g fs.*2) = map (fun f => (f.1, g f.2)) fs.
Proof. induction fs as [|[k v] fs IH]; [done|]. cbn. f_equal. exact IH. Qed.

Lemma map_fields {A} (g : value -> A) (fs : list (text * value)) : map g fs.*2 = map (fun f => g f.2) fs.
Proof. apply map_map. Qed.

Lemma walk_spec v : forall d, walked d v.
Proof.
  induction v as [|b|n|x|s|l IH|fs IH] using value_ind'; intros d w N Dp; cbn [Masking.walk nodes depth] in *;
    (destruct (_ || _) eqn:E; [exfalso; apply orb_true_iff in E as [E|E]; bool_prop; lia|]); try done;
    cbn [mask_all changes visited redacted]; rewrite ?Z.add_0_r; try done.
  - rewrite (walk_list_spec (d + 1) l); [| |cbn [visited]; lia|lia].
    + cbn [visited redacted]. do 2 f_equal; lia.
    + eapply Forall_impl; [exact IH|]. intros v H. apply H.
  - rewrite walk_fields_list. rewrite <- !map_fields in N. rewrite <- map_fields in Dp.
    rewrite (walk_list_spec (d + 1) fs.*2); [| |cbn [visited]; lia|lia].
    + cbn [visited redacted]. rewrite zip_map_fields, !map_fields. do 2 f_equal; lia.
    + apply Forall_fmap. eapply Forall_impl; [exact IH|]. intros f H. apply H.
Qed.

(** A result is masked whole: up to 4096 nodes and 24 levels of nesting, the bounded walk gives the value with every
    string in it masked, at any depth, its shape kept, and counts exactly the strings that changed. *)
Theorem structure_masked v :
  Z.of_nat (nodes v) <= MASK_MAX_NODES -> Z.of_nat (depth v) <= MASK_MAX_DEPTH ->
  mask_structure_counted is_digit is_wordc v = (mask_all v, changes v).
Proof. intros N D. unfold mask_structure_counted. by rewrite walk_spec. Qed.

End Structures.

(** ** URLs: what a redacted URL does not depend on *)

Lemma rpartition_last sep a b : sep ∉ b -> rpartition sep (a ++ sep :: b) = (Some a, b).
Proof.
  intros N. assert (Nb : rpartition sep b = (None, b)).
  { induction b as [|c b IH]; [done|]. apply not_elem_of_cons in N as [Nc Nb]. cbn [rpartition]. rewrite IH by done.
    by rewrite (proj2 (Z.eqb_neq c sep)). }
  induction a as [|c a IH]; cbn [app rpartition]; [by rewrite Nb, Z.eqb_refl|by rewrite IH].
Qed.

Lemma rpartition_none sep b : sep ∉ b -> rpartition sep b = (None, b).
Proof.
  intros N. induction b as [|c b IH]; [done|]. apply not_elem_of_cons in N as [Nc Nb]. cbn [rpartition]. rewrite IH by done.
  by rewrite (proj2 (Z.eqb_neq c sep)).
Qed.

Lemma partition_first sep a b : sep ∉ a -> (partition sep (a ++ b)).1 = a ++ (partition sep b).1.
Proof.
  induction a as [|c a IH]; intros N; [done|]. apply not_elem_of_cons in N as [Nc Na]. cbn [app partition].
  rewrite (proj2 (Z.eqb_neq c sep)) by done. specialize (IH Na). destruct (partition sep (a ++ b)). cbn in *. by rewrite IH.
Qed.

Lemma split_scheme_at s rest : 58 ∉ s -> split_scheme (s ++ SCHEME_SEP ++ rest) = Some (s ++ SCHEME_SEP, rest).
Proof.
  intros N. unfold split_scheme.
  assert (I : tindex SCHEME_SEP (s ++ SCHEME_SEP ++ rest) = Some (length s)).
  { induction s as [|c s IH].
    - done.
    - apply not_elem_of_cons in N as [Nc Ns]. cbn [app length]. change SCHEME_SEP with (58 :: [47; 47]) at 1. cbn [tindex tstarts].
      rewrite (proj2 (Z.eqb_neq 58 c)) by done. change (58 :: [47; 47]) with SCHEME_SEP. cbn [andb]. by rewrite IH. }
  rewrite I. cbn [mbind option_bind]. f_equal. rewrite app_assoc. f_equal.
  - rewrite take_app_length'; [done|]. rewrite length_app. done.
  - rewrite drop_app_length'; [done|]. rewrite length_app. done.
Qed.

(** A logged connection URL tells nothing about the password: whatever the password is (an [@] in it included),
    the redacted URL is the scheme, the user if there is one, three asterisks and the host part. *)
Theorem password_redacted s user password host :
  58 ∉ s -> 58 ∉ user -> 64 ∉ host ->
  redact_url_credentials (s ++ SCHEME_SEP ++ user ++ 58 :: password ++ 64 :: host) =
    s ++ SCHEME_SEP ++ (if bool_decide (user = []) then points "***@" else user ++ points ":***@") ++ host.
Proof.
  intros Ns Nu Nh. unfold redact_url_credentials. rewrite bool_decide_false by (intros N; apply N; set_solver).
  rewrite split_scheme_at by done. rewrite app_comm_cons, app_assoc, rpartition_last by done.
  destruct (user ++ 58 :: password) as [|c u] eqn:E; [by destruct user|]. rewrite <- E.
  rewrite partition_first by done. cbn [partition]. rewrite Z.eqb_refl. cbn [fst]. rewrite app_nil_r, <- !app_assoc.
  by case_bool_decide; [subst|rewrite <- ?app_assoc].
Qed.

(** Only the origin of a webhook URL is published, as long as no [@] follows the host: neither the credentials before it
    nor the path and query after it show. *)
Theorem origin_published s credentials host tail :
  58 ∉ s -> host <> [] -> Forall (fun c => c ∉ [47; 63; 64]) host -> 64 ∉ tail ->
  match tail with c :: _ => c ∈ [47; 63] | [] => True end ->
  redact_url_to_origin (s ++ SCHEME_SEP ++ credentials ++ 64 :: host ++ tail) = s ++ SCHEME_SEP ++ host.
Proof.
  intros Ns H F Nt T. unfold redact_url_to_origin. rewrite bool_decide_false by (by destruct s).
  rewrite split_scheme_at by done.
  assert (N : forall x, x ∈ [47; 63; 64] -> x ∉ host) by (intros x I J; rewrite Forall_forall in F; by apply (F x)).
  rewrite rpartition_last by (intros [?|?]%elem_of_app; [by apply (N 64); [in_list|]|done]). cbn [snd].
  rewrite partition_first by (apply N; in_list).
  assert (E : exists t', (partition 47 tail).1 = t' /\ (t' = [] \/ exists r, t' = 63 :: r)).
  { destruct tail as [|c tl]; [exists []; split; [done|by left]|]. cbn [partition].
    apply elem_of_cons in T as [->|T]; [exists []; split; [done|by left]|]. apply list_elem_of_singleton in T as ->.
    destruct (partition 47 tl) as [p q]. exists (63 :: p). split; [done|right; eauto]. }
  destruct E as (t' & -> & E). rewrite partition_first by (apply N; in_list).
  assert ((partition 63 t').1 = []) as -> by (by destruct E as [->|[r ->]]).
  rewrite app_nil_r, bool_decide_false by done. by rewrite <- app_assoc.
Qed.

(** An [@] in the path or query moves the origin: what follows the last one is published in its place. *)
Theorem origin_after_at s host path secret :
  58 ∉ s -> secret <> [] -> Forall (fun c => c ∉ [47; 63; 64]) secret ->
  redact_url_to_origin (s ++ SCHEME_SEP ++ host ++ 47 :: path ++ 64 :: secret) = s ++ SCHEME_SEP ++ secret.
Proof.
  intros Ns H F. unfold redact_url_to_origin. rewrite bool_decide_false by (by destruct s). rewrite split_scheme_at by done.
  assert (N : forall x, x ∈ [47; 63; 64] -> x ∉ secret) by (intros x I J; rewrite Forall_forall in F; by apply (F x)).
  rewrite app_comm_cons, app_assoc, rpartition_last by (apply N; in_list). cbn [snd].
  assert (P : forall sep, sep ∈ [47; 63; 64] -> (partition sep secret).1 = secret).
  { intros sep I. rewrite <- (app_nil_r secret) at 1. rewrite partition_first by (by apply N). cbn. by rewrite app_nil_r. }
  rewrite P by in_list. rewrite P by in_list. rewrite bool_decide_false by done. by rewrite <- app_assoc.
Qed.

(** ** The check digit *)

Definition is_ascii_digit (c : Z) : Prop := 48 <= c <= 57.

Lemma luhn_digit_inj alt c c' : is_ascii_digit c -> is_ascii_digit c' ->
  luhn_digit alt c mod 10 = luhn_digit alt c' mod 10 -> c = c'.
Proof.
  unfold is_ascii_digit, luhn_digit. intros B B'.
  assert (I : c ∈ seqZ 48 10) by (apply elem_of_seqZ; lia). assert (I' : c' ∈ seqZ 48 10) by (apply elem_of_seqZ; lia).
  clear B B'. cbn in I, I'. repeat (apply elem_of_cons in I as [->|I]; [|try by apply elem_of_nil in I]);
    repeat (apply elem_of_cons in I' as [->|I']; [|try by apply elem_of_nil in I']); destruct alt; vm_compute; done.
Qed.

Lemma luhn_sum_app alt a : exists alt', forall b, luhn_sum alt (a ++ b) = luhn_sum alt a + luhn_sum alt' b.
Proof.
  revert alt. induction a as [|c a IH]; intros alt; [by exists alt|]. destruct (IH (negb alt)) as [alt' E].
  exists alt'. intros b. cbn [app luhn_sum]. rewrite E. lia.
Qed.

(** One wrong digit is caught: a number that passes the check does not pass it with one digit changed. *)
Theorem luhn_catches_one_digit isdigit a b c c' :
  is_ascii_digit c -> is_ascii_digit c' -> c <> c' -> luhn_ok isdigit (a ++ c :: b) = true -> luhn_ok isdigit (a ++ c' :: b) = false.
Proof.
  intros B B' N. unfold luhn_ok. intros E. bool_prop. apply andb_false_iff. right. apply Z.eqb_neq.
  match goal with X : luhn_sum _ _ mod 10 = 0 |- _ => revert X end. rewrite !reverse_app, !reverse_cons, <- !app_assoc. cbn [app].
  destruct (luhn_sum_app false (reverse b)) as [alt S]. rewrite !S. cbn [luhn_sum].
  intros X Y. apply N. apply (luhn_digit_inj alt); [done|done|].
  set (p := luhn_sum false (reverse b)) in *. set (q := luhn_sum (negb alt) (reverse a)) in *.
  set (u := luhn_digit alt c) in *. set (v := luhn_digit alt c') in *. clearbody p q u v. Z.to_euclidean_division_equations. lia.
Qed.

(** ** Examples *)

Module Ascii.

Notation mask := (mask_string is_num is_word).

Lemma sep_not_digit c : is_sep c = true -> is_num c = false.
Proof. unfold is_sep. intros [E|E]%orb_true_iff; bool_prop; by subst. Qed.

Example card_hidden_witness :
  mask (points "pay 4111 1111 1111 1111 now") = points "pay ****1111 now" /\
  mask (points "(4111 1111 1111 1111)") = mask (points "(5500-0000-0000-1111)").
Proof.
  split; [by vm_compute|].
  apply (card_hidden is_num is_word sep_not_digit (points "(") (points "4111 1111 1111 1111")
           (points "5500-0000-0000-1111") (points ")")); by vm_compute.
Defined.

Example structure_masked_witness :
  let v := VArr [VObj [(points "a", VStr (points "123-45-6789"))]; VStr (points "ok"); VInt 5] in
  mask_structure_counted is_num is_word v =
    (VArr [VObj [(points "a", VStr (points "***-**-6789"))]; VStr (points "ok"); VInt 5], 1).
Proof. cbv zeta. rewrite (structure_masked is_num is_word); [by vm_compute|by vm_compute..]. Defined.

Example password_redacted_witness :
  redact_url_credentials (points "redis://:p@ss:word@cache:6379/0") = points "redis://***@cache:6379/0".
Proof.
  apply (password_redacted (points "redis") [] (points "p@ss:word") (points "cache:6379/0"));
    by apply (bool_decide_unpack _); vm_compute.
Defined.

Example origin_published_witness :
  redact_url_to_origin (points "https://u@hooks.example/services/T0/SECRET?token=x") = points "https://hooks.example".
Proof.
  apply (origin_published (points "https") (points "u") (points "hooks.example") (points "/services/T0/SECRET?token=x"));
    by apply (bool_decide_unpack _); vm_compute.
Defined.

Example origin_after_at_witness :
  redact_url_to_origin (points "https://splunk.example/collector?token=x@SECRET") = points "https://SECRET".
Proof.
  apply (origin_after_at (points "https") (points "splunk.example") (points "collector?token=x") (points "SECRET"));
    by apply (bool_decide_unpack _); vm_compute.
Defined.

Example luhn_catches_one_digit_witness :
  luhn_ok is_num (points "4111111111111111") = true /\ luhn_ok is_num (points "4111111112111111") = false.
Proof.
  split; [by vm_compute|].
  apply (luhn_catches_one_digit is_num (points "411111111") (points "111111") 49 50); by vm_compute.
Defined.

(** What the audit copy keeps: a credential under a key outside the exact list, a card number sent as a number, a
    fifteen-digit card inside a sentence, and a credential one level below a sensitive key. *)
Theorem audit_keeps_raw :
  let params := [(points "access_token", VStr (points "s3cr3t")); (points "card", VInt 4111111111111111);
                 (points "note", VStr (points "use 378282246310005"));
                 (points "authorization", VObj [(points "value", VStr (points "s3cr3t"))])] in
  mask_params is_num is_word (VObj params) = params /\
  is_sensitive_key lower (points "access_token") = true.
Proof. cbv zeta. split; by vm_compute. Qed.

End Ascii.
