(* ===== verification/Correlate.v ===== *)
(** * Which server message answers which client request ([mcp/firewall.py], [_PendingMap] and [Correlation])

    The proxy mediates a server's response as the answer to the client request it answers, so it must
    decide that question the way the client will.  A request is first HELD (read, not yet forwarded) and
    then PENDING (forwarded); only a pending request can be answered, once, by a well-formed response whose
    id the client would read as that request's.  Everything else is dropped.

    Module [Open] is the abstract bookkeeping (an unbounded map of the requests that were forwarded and are
    not answered); the bounded map refines it. *)

From S2P Require Import Prelude.
From S2P Require Import Text.
From S2P Require Import Json.
From S2P Require Import JsonParse.
From S2P Require Import Protocol.

(** ** The numbers a string id can be read as *)

(** The digits of [int(text)] after the first: single underscores may stand between digits. *)
Section Readings.
Context (decimal : Z -> option Z).        (* [unicodedata.decimal]: the value of a decimal digit of any script *)
Context (float_of : text -> option double).  (* [float()] of a decimal literal; [None]: it overflows *)

Fixpoint int_digits (acc : Z) (t : text) : option Z :=
  match t with
  | [] => Some acc
  | c :: r =>
      if c =? 95 then match r with
                      | d :: r' => match decimal d with Some n => int_digits (acc * 10 + n) r' | None => None end
                      | [] => None
                      end
      else match decimal c with Some n => int_digits (acc * 10 + n) r | None => None end
  end.

Definition unsigned_int (t : text) : option Z :=
  match t with
  | c :: r => match decimal c with Some n => int_digits n r | None => None end
  | [] => None
  end.

Definition signed_int (b : text) : option Z :=
  match b with
  | 45 :: r => Z.opp <$> unsigned_int r
  | 43 :: r => unsigned_int r
  | _ => unsigned_int b
  end.

(** [int(text)]; [None]: [ValueError]. *)
Definition py_int (t : text) : option Z := signed_int (strip_of is_white t).

(** [_JS_WHITESPACE]. *)
Definition is_js_white (c : Z) : bool :=
  bool_decide (c ∈ [9; 10; 11; 12; 13; 32; 160; 5760; 8232; 8233; 8239; 8287; 12288; 65279]) ||
  ((8192 <=? c) && (c <=? 8202)).

Definition hex_value (c : Z) : option Z :=
  if is_num c then Some (c - 48)
  else if (97 <=? c) && (c <=? 102) then Some (c - 87)
  else if (65 <=? c) && (c <=? 70) then Some (c - 55)
  else None.

Definition radix_digit (base : Z) (c : Z) : option Z :=
  match hex_value c with Some n => if n <? base then Some n else None | None => None end.

Fixpoint radix_digits (base acc : Z) (t : text) : option Z :=
  match t with
  | [] => Some acc
  | c :: r => match radix_digit base c with Some n => radix_digits base (acc * base + n) r | None => None end
  end.

(** [_JS_RADIX] and the value it spells. *)
Definition js_radix (t : text) : option Z :=
  match t with
  | 48 :: x :: ((_ :: _) as ds) =>
      if bool_decide (x ∈ [120; 88]) then radix_digits 16 0 ds
      else if bool_decide (x ∈ [111; 79]) then radix_digits 8 0 ds
      else if bool_decide (x ∈ [98; 66]) then radix_digits 2 0 ds
      else None
  | _ => None
  end.

Definition drop_digits (t : text) : text := drop_while is_num t.
Definition starts_digit (t : text) : bool := match t with c :: _ => is_num c | [] => false end.
Definition drop_sign (t : text) : text := match t with 43 :: r | 45 :: r => r | _ => t end.

Definition js_exponent (t : text) : bool :=
  match t with
  | [] => true
  | c :: r => ((c =? 101) || (c =? 69)) && starts_digit (drop_sign r) && bool_decide (drop_digits (drop_sign r) = [])
  end.

(** [_JS_DECIMAL], its [Infinity] apart. *)
Definition js_decimal (t : text) : bool :=
  let t := drop_sign t in
  if starts_digit t then
    match drop_digits t with 46 :: r => js_exponent (drop_digits r) | r => js_exponent r end
  else match t with 46 :: r => starts_digit r && js_exponent (drop_digits r) | _ => false end.

(** The double nearest to an integer, ties to even ([float(n)]), as an integer. *)
Definition nearest (n : Z) : Z :=
  let m := Z.abs n in
  let k := Z.log2 m - 52 in
  if k <=? 0 then n
  else
    let q := m / 2 ^ k in
    let r := m mod 2 ^ k in
    let half := 2 ^ (k - 1) in
    let q' := if (half <? r) || ((half =? r) && Z.odd q) then q + 1 else q in
    Z.sgn n * (q' * 2 ^ k).

(** What [_js_number] gives, as far as it is used: [Some] of the integer it is. *)
Definition js_integer (t : text) : option Z :=
  match strip_of is_js_white t with
  | [] => Some 0
  | body =>
      match js_radix body with
      | Some n => if Z.log2 n <? 1023 then Some (nearest n) else None
      | None =>
          if js_decimal body then
            match float_of body with Some d => if is_integer d then Some (int_of d) else None | None => None end
          else None
      end
  end.

Definition MAX_NUMERIC_ID_CHARS : nat := 64.

(** [sorted(_numeric_readings(text))]. *)
Definition numeric_readings (t : text) : list Z :=
  if (MAX_NUMERIC_ID_CHARS <? length t)%nat then []
  else match py_int t, js_integer t with
       | Some a, Some b => if a =? b then [a] else if a <? b then [a; b] else [b; a]
       | Some a, None => [a]
       | None, Some b => [b]
       | None, None => []
       end.

(** ** [_PendingMap] *)

Context `{PyFloat} (str_of : value -> text).     (* [str()] of a container *)

(** [_key]. *)
Definition num_key (n : Z) : text := points "num:" ++ dump_int n.
Definition str_key (s : text) : text := points "str:" ++ s.

Definition key (msg_id : value) : text :=
  match msg_id with
  | VBool b => points (if b then "bool:True" else "bool:False")
  | VInt n => num_key n
  | VFloat d => if is_integer d then num_key (int_of d) else points "num:" ++ frepr d
  | VStr s => str_key s
  | VNull => points "NoneType:None"
  | VArr _ => points "list:" ++ str_of msg_id
  | VObj _ => points "dict:" ++ str_of msg_id
  end.

(** [_candidates]. *)
Definition candidates (msg_id : value) : list text :=
  key msg_id ::
  match msg_id with
  | VStr s => map num_key (numeric_readings s)
  | VInt n => [str_key (dump_int n)]
  | VFloat d => if is_integer d then [str_key (dump_int (int_of d))] else []
  | _ => []
  end.

Record PendingMap := { entries : list (text * text); cap : nat }.

Definition new_map (cap : nat) : PendingMap := {| entries := []; cap := Nat.max 16 cap |}.

Definition put (msg_id : value) (m : text) (p : PendingMap) : PendingMap :=
  let k := key msg_id in
  let kept := if negb (bool_decide (k ∈ (entries p).*1)) && (cap p <=? length (entries p))%nat
              then tail (entries p) else entries p in
  {| entries := put_field k m kept; cap := cap p |}.

Fixpoint first_found (ks : list text) (es : list (text * text)) : option (text * text) :=
  match ks with
  | [] => None
  | k :: ks' => match field k es with Some m => Some (k, m) | None => first_found ks' es end
  end.

(** [match]: the key and the method of the request this id answers. *)
Definition match_id (msg_id : value) (p : PendingMap) : option (text * text) :=
  first_found (candidates msg_id) (entries p).

Definition pop (k : text) (p : PendingMap) : PendingMap := {| entries := del_field k (entries p); cap := cap p |}.
Definition discard (msg_id : value) (p : PendingMap) : PendingMap := pop (key msg_id) p.

(** ** [_response_defect] *)

Inductive Defect := CarriesMethod | NotVersion2 | NotOneOutcome | BadError | ResultNotObject | NoList.

Definition M_TOOLS_LIST : text := points "tools/list".
Definition M_TOOLS_CALL : text := points "tools/call".
Definition M_RESOURCES_LIST : text := points "resources/list".
Definition M_RESOURCES_READ : text := points "resources/read".
Definition M_RESOURCES_TEMPLATES : text := points "resources/templates/list".
Definition M_PROMPTS_LIST : text := points "prompts/list".
Definition M_PROMPTS_GET : text := points "prompts/get".

(** [_LIST_RESULT_KEYS.get(method)]. *)
Definition list_result_key (m : text) : option string :=
  if bool_decide (m = M_TOOLS_LIST) then Some "tools"
  else if bool_decide (m = M_PROMPTS_LIST) then Some "prompts"
  else if bool_decide (m = M_RESOURCES_LIST) then Some "resources"
  else if bool_decide (m = M_RESOURCES_TEMPLATES) then Some "resourceTemplates"
  else None.

Definition is_error_object (v : value) : bool :=
  match member_of "code" v, member_of "message" v with Some (VInt _), Some (VStr _) => true | _, _ => false end.

Definition is_version_2 (d : value) : bool :=
  match member_of "jsonrpc" d with Some (VStr s) => bool_decide (s = points "2.0") | _ => false end.

Definition is_list_member (k : string) (v : value) : bool := match member_of k v with Some (VArr _) => true | _ => false end.

Definition response_defect (d : value) (m : text) : option Defect :=
  if has_member "method" d then Some CarriesMethod
  else if negb (is_version_2 d) then Some NotVersion2
  else match member_of "result" d, member_of "error" d with
       | None, None | Some _, Some _ => Some NotOneOutcome
       | None, Some e => if is_error_object e then None else Some BadError
       | Some r, None =>
           if negb (is_dict r) then Some ResultNotObject
           else match list_result_key m with
                | Some k => if is_list_member k r then None else Some NoList
                | None => None
                end
       end.

(** ** [Correlation] *)

(** The maps, shared between a POST's scope and the streams that resume it. *)
Record Scope := { held : PendingMap; pending : PendingMap }.

Definition new_scope (cap : nat) : Scope := {| held := new_map cap; pending := new_map cap |}.

(** Where a message arrived: the scope itself, a GET stream, or a GET that resumes the scope's stream, with
    the request id it had when it was resumed. *)
Inductive Stream := Direct | GetStream | Resumed (request_id : option value).

(** [note_client_request]. *)
Definition note_client_request (d : value) (s : Scope) : Scope :=
  if is_request d then {| held := put (id_of d) (method d) (held s); pending := pending s |} else s.

(** The end of [on_client_message]: the request leaves HELD, and is PENDING if it was forwarded. *)
Definition settle (d : value) (forwarded : bool) (s : Scope) : Scope :=
  if is_request d then
    {| held := discard (id_of d) (held s);
       pending := if forwarded then put (id_of d) (method d) (pending s) else pending s |}
  else s.

(** The refusal of an ambiguous message: what was held under its id is let go. *)
Definition forget_held (d : value) (s : Scope) : Scope := {| held := discard (id_of d) (held s); pending := pending s |}.

Definition COLD_LIST_ID_PREFIX : text := points "norviq-cold-list-".
Definition is_cold_list_id (v : value) : bool := match v with VStr s => tstarts COLD_LIST_ID_PREFIX s | _ => false end.

Inductive Dropped := ColdList | OnGetStream | AlreadyAnswered | NotForwarded | NotAsked | Malformed (why : Defect).

(** A response is dropped, or it is the answer to the request with this key and method. *)
Inductive Outcome := Drop (why : Dropped) | Answers (k : text) (m : text) (msg : JsonRpcMessage).

(** [{**msg.data, "id": id}] and its bytes. *)
Definition with_id (id : value) (msg : JsonRpcMessage) : JsonRpcMessage :=
  let d := match data msg with VObj fs => VObj (put_field (points "id") id fs) | v => v end in
  {| data := d; raw := dump d |}.

(** The pending request found under the id of the message. *)
Definition answer (msg : JsonRpcMessage) (s : Scope) : Scope * Outcome :=
  match match_id (id_of (data msg)) (pending s) with
  | None => (s, Drop (if bool_decide (is_Some (match_id (id_of (data msg)) (held s))) then NotForwarded else NotAsked))
  | Some (k, m) =>
      match response_defect (data msg) m with
      | Some why => (s, Drop (Malformed why))
      | None => ({| held := held s; pending := pop k (pending s) |}, Answers k m msg)
      end
  end.

(** The response branch of [on_server_message], up to the dispatch on the method. *)
Definition correlate (st : Stream) (msg : JsonRpcMessage) (s : Scope) : Scope * Outcome :=
  if is_cold_list_id (id_of (data msg)) then (s, Drop ColdList)
  else match st with
       | GetStream => (s, Drop OnGetStream)
       | Resumed None => (s, Drop AlreadyAnswered)
       | Resumed (Some rid) =>
           match match_id rid (pending s) with
           | None => (s, Drop AlreadyAnswered)
           | Some _ => answer (with_id rid msg) s
           end
       | Direct => answer msg s
       end.

End Readings.

(** ** The bound on a map *)

Section MapLemmas.
Context `{PyFloat} (str_of : value -> text).

Record map_ok (p : PendingMap) : Prop := {
  keys_once : NoDup (entries p).*1;
  within_cap : (length (entries p) <= cap p)%nat;
  cap_positive : (0 < cap p)%nat;
}.

Lemma new_map_ok c : map_ok (new_map c).
Proof. split; cbn; [constructor|lia|lia]. Qed.

Lemma put_field_length {B} k (v : B) d :
  length (put_field k v d) = (length d + if bool_decide (k ∈ d.*1) then 0 else 1)%nat.
Proof.
  rewrite <- (length_fmap fst (put_field k v d)), put_field_keys.
  case_bool_decide; [|rewrite length_app]; rewrite length_fmap; cbn; lia.
Qed.

Lemma put_ok i m p : map_ok p -> map_ok (put str_of i m p).
Proof.
  intros [ND L C]. unfold put. split; cbn [entries cap].
  - apply put_field_nodup. destruct (_ && _); [|done]. destruct (entries p) as [|e es]; [done|]. by inversion ND.
  - rewrite put_field_length. destruct (bool_decide (key str_of i ∈ (entries p).*1)) eqn:K; cbn [negb andb].
    + rewrite K. lia.
    + destruct (cap p <=? _)%nat eqn:F.
      * apply Nat.leb_le in F. destruct (entries p) as [|e es]; cbn [length tail] in *; [lia|]. case_match; lia.
      * apply Nat.leb_gt in F. rewrite K. lia.
  - done.
Qed.

Lemma pop_ok k p : map_ok p -> map_ok (pop k p).
Proof.
  intros [ND L C]. split; cbn [entries cap pop]; [| |done].
  - by eapply sublist_NoDup, del_field_sub.
  - pose proof (sublist_length _ _ (del_field_sub k (entries p))) as S. rewrite !length_fmap in S. lia.
Qed.

Lemma field_tail_sub {B} k (v : B) d : NoDup d.*1 -> field k (tail d) = Some v -> field k d = Some v.
Proof.
  destruct d as [|[k0 v0] d]; [done|]. cbn [tail field]. rewrite fmap_cons. intros [N _]%NoDup_cons F.
  case_bool_decide; [|done]. subst. destruct N. apply field_key. eauto.
Qed.

(** What is found after a [put] is what was put, or was there. *)
Lemma field_of_put i m p k v : map_ok p -> field k (entries (put str_of i m p)) = Some v ->
  (k = key str_of i /\ v = m) \/ (k <> key str_of i /\ field k (entries p) = Some v).
Proof.
  intros O. unfold put. cbn [entries]. rewrite field_put. case_bool_decide as E; [intros [= <-]; by left|].
  intros F. right. split; [done|]. destruct (_ && _); [|done]. by apply field_tail_sub in F; [|apply O].
Qed.

Lemma field_of_pop k p k' : map_ok p -> field k' (entries (pop k p)) = if bool_decide (k = k') then None else field k' (entries p).
Proof. intros O. apply field_del, O. Qed.

Lemma first_found_elem ks es k m : first_found ks es = Some (k, m) -> k ∈ ks /\ field k es = Some m.
Proof.
  induction ks as [|k0 ks IH]; [done|]. cbn [first_found]. destruct (field k0 es) as [m0|] eqn:F.
  - intros [= <- <-]. split; [left|done].
  - intros [I G]%IH. split; [by right|done].
Qed.

End MapLemmas.

#[export] Hint Resolve new_map_ok put_ok pop_ok : norviq.

(** ** Traces of a scope *)

(** What happens to a scope over time: a message is read from the client, its mediation ends (forwarded
    or not), or it is refused before that, and a response arrives on one of the streams. *)
Inductive Event :=
  | Read (d : value)
  | Settled (d : value) (forwarded : bool)
  | Refused (d : value)
  | Arrived (st : Stream) (msg : JsonRpcMessage).

Section Traces.
Context (decimal : Z -> option Z) (float_of : text -> option double) `{PyFloat} (str_of : value -> text).

Notation correlate := (correlate decimal float_of str_of).

(** The request an event answers, if it delivers an answer. *)
Definition step (e : Event) (s : Scope) : Scope * option (text * text) :=
  match e with
  | Read d => (note_client_request str_of d s, None)
  | Settled d f => (settle str_of d f s, None)
  | Refused d => (forget_held str_of d s, None)
  | Arrived st msg =>
      let '(s', o) := correlate st msg s in (s', match o with Answers k m _ => Some (k, m) | Drop _ => None end)
  end.

Fixpoint run (es : list Event) (s : Scope) : Scope * list (option (text * text)) :=
  match es with
  | [] => (s, [])
  | e :: es' => let '(s1, a) := step e s in let '(s2, l) := run es' s1 in (s2, a :: l)
  end.

Record scope_ok (s : Scope) : Prop := { held_ok : map_ok (held s); pending_ok : map_ok (pending s) }.

Lemma answer_cases msg s :
  let '(s', o) := answer decimal float_of str_of msg s in
  match o with
  | Drop _ => s' = s
  | Answers k m msg' =>
      msg' = msg /\ match_id decimal float_of str_of (id_of (data msg)) (pending s) = Some (k, m) /\
      response_defect (data msg) m = None /\ s' = {| held := held s; pending := pop k (pending s) |}
  end.
Proof. unfold answer. destruct (match_id _ _ _ _ (pending s)) as [[k m]|]; [|done]. by destruct (response_defect _ m) eqn:D. Qed.

(** The message that is answered: on a resumed stream, under the id of its request. *)
Definition effective (st : Stream) (msg : JsonRpcMessage) : JsonRpcMessage :=
  match st with Resumed (Some rid) => with_id rid msg | _ => msg end.

Lemma correlate_cases st msg s :
  let '(s', o) := correlate st msg s in
  match o with
  | Drop _ => s' = s
  | Answers k m msg' =>
      msg' = effective st msg /\ match_id decimal float_of str_of (id_of (data msg')) (pending s) = Some (k, m) /\
      response_defect (data msg') m = None /\ s' = {| held := held s; pending := pop k (pending s) |}
  end.
Proof.
  unfold Correlate.correlate. destruct (is_cold_list_id _); [done|]. destruct st as [| |[rid|]]; try done.
  - pose proof (answer_cases msg s) as A. destruct (answer _ _ _ _ _) as [s' [w|k m msg']]; [done|]. cbn [effective].
    destruct A as (-> & A). done.
  - destruct (match_id _ _ _ rid _); [|done].
    pose proof (answer_cases (with_id rid msg) s) as A. destruct (answer _ _ _ _ _) as [s' [w|k m msg']]; [done|].
    cbn [effective]. destruct A as (-> & A). done.
Qed.

Lemma step_ok e s : scope_ok s -> scope_ok (step e s).1.
Proof.
  intros [Hh Hp]. destruct e as [d|d f|d|st msg]; cbn [step fst].
  - unfold note_client_request. destruct (is_request d); split; cbn; eauto with norviq.
  - unfold settle. destruct (is_request d); [|done]. split; cbn; [by apply pop_ok|]. destruct f; eauto with norviq.
  - split; cbn; [by apply pop_ok|done].
  - pose proof (correlate_cases st msg s) as A. destruct (correlate st msg s) as [s' [w|k m msg']]; cbn [fst].
    + by subst.
    + destruct A as (_ & _ & _ & ->). split; cbn; eauto with norviq.
Qed.

Lemma run_ok es s : scope_ok s -> scope_ok (run es s).1.
Proof.
  revert s. induction es as [|e es IH]; intros s O; [done|]. cbn [run].
  pose proof (step_ok e s O) as O1. destruct (step e s) as [s1 a]. specialize (IH s1 O1). by destruct (run es s1).
Qed.

Lemma step_caps e s : cap (held (step e s).1) = cap (held s) /\ cap (pending (step e s).1) = cap (pending s).
Proof.
  destruct e as [d|d f|d|st msg]; cbn [step fst].
  - unfold note_client_request. by destruct (is_request d).
  - unfold settle. destruct (is_request d); [|done]. by destruct f.
  - done.
  - pose proof (correlate_cases st msg s) as A. destruct (correlate st msg s) as [s' [w|k m msg']]; cbn [fst].
    + by subst.
    + by destruct A as (_ & _ & _ & ->).
Qed.

Lemma run_caps es s : cap (held (run es s).1) = cap (held s) /\ cap (pending (run es s).1) = cap (pending s).
Proof.
  revert s. induction es as [|e es IH]; intros s; [done|]. cbn [run]. pose proof (step_caps e s) as [A B].
  destruct (step e s) as [s1 a]. specialize (IH s1). destruct (run es s1). cbn in *. by rewrite <- A, <- B.
Qed.

Lemma new_scope_ok c : scope_ok (new_scope c).
Proof. split; apply new_map_ok. Qed.

(** No peer can make the proxy remember more: however many requests are opened, under whatever ids, and
    never answered, neither map ever holds more than [max(16, cap)] entries. *)
Theorem pending_bounded c es :
  let s := (run es (new_scope c)).1 in
  (length (entries (held s)) <= Nat.max 16 c)%nat /\ (length (entries (pending s)) <= Nat.max 16 c)%nat.
Proof.
  cbv zeta. destruct (run_ok es _ (new_scope_ok c)) as [[_ Lh _] [_ Lp _]].
  destruct (run_caps es (new_scope c)) as [Ch Cp]. rewrite Ch in Lh. rewrite Cp in Lp. done.
Qed.

(** *** The abstract bookkeeping *)

(** The requests that were forwarded and are not answered, by key, with their methods. *)
Notation Ledger := (gmap text text).

Definition ledger_step (e : Event) (a : option (text * text)) (l : Ledger) : Ledger :=
  match e, a with
  | Settled d true, _ => if is_request d then <[key str_of (id_of d) := method d]> l else l
  | Arrived _ _, Some (k, _) => delete k l
  | _, _ => l
  end.

(** A sequence of deliveries is legal when each answers a request that is open in the ledger, as that
    request's method, under an id the response can be read as. *)
Inductive legal : Ledger -> list Event -> list (option (text * text)) -> Prop :=
  | legal_nil l : legal l [] []
  | legal_silent l e es outs :
      legal (ledger_step e None l) es outs -> legal l (e :: es) (None :: outs)
  | legal_answer l st msg k m es outs :
      l !! k = Some m -> k ∈ candidates decimal float_of str_of (id_of (data (effective st msg))) ->
      response_defect (data (effective st msg)) m = None ->
      legal (ledger_step (Arrived st msg) (Some (k, m)) l) es outs ->
      legal l (Arrived st msg :: es) (Some (k, m) :: outs).

(** The bounded map holds only what the ledger has open. *)
Definition tracks (s : Scope) (l : Ledger) : Prop := forall k m, field k (entries (pending s)) = Some m -> l !! k = Some m.

Lemma step_tracks e s l : scope_ok s -> tracks s l -> tracks (step e s).1 (ledger_step e (step e s).2 l).
Proof.
  intros [_ Op] T. destruct e as [d|d f|d|st msg]; cbn [step fst snd ledger_step].
  - unfold note_client_request. by destruct (is_request d).
  - unfold settle. destruct (is_request d), f; try done. intros k m. cbn [pending].
    intros [[-> ->]|[N F]]%field_of_put; [by rewrite lookup_insert_eq| |done]. rewrite lookup_insert_ne by done. by apply T.
  - exact T.
  - pose proof (correlate_cases st msg s) as A. destruct (correlate st msg s) as [s' [w|k m msg']]; cbn [fst snd].
    + by subst.
    + destruct A as (_ & _ & _ & ->). intros k' m'. cbn [pending]. rewrite field_of_pop by done.
      case_bool_decide as E; [done|]. rewrite lookup_delete_ne by done. apply T.
Qed.

Lemma run_legal es s l : scope_ok s -> tracks s l -> legal l es (run es s).2.
Proof.
  revert s l. induction es as [|e es IH]; intros s l O T; [constructor|]. cbn [run].
  pose proof (step_ok e s O) as O1. pose proof (step_tracks e s l O T) as T1.
  destruct (step e s) as [s1 a] eqn:E. specialize (IH s1 _ O1 T1). destruct (run es s1) as [s2 outs].
  cbn [fst snd] in *. destruct a as [[k m]|]; [|by apply legal_silent].
  destruct e as [d|d f|d|st msg]; cbn [step] in E; try (by simplify_eq).
  pose proof (correlate_cases st msg s) as A. destruct (correlate st msg s) as [s' [w|k' m' msg']]; simplify_eq.
  destruct A as (-> & [I F]%first_found_elem & D & _). apply legal_answer; auto.
Qed.

(** A response reaches the client only as the answer to a request: in every order in which
    requests are read, decided and answered, over every kind of stream, each response that is not dropped
    is well-formed, is delivered as the method of a request that was forwarded to the server under an id the
    response's id can be read as, and closes it: the same request is not answered again, and one that
    was held back or refused is never answered. *)
Theorem answers_follow_requests c es : legal ∅ es (run es (new_scope c)).2.
Proof. apply run_legal; [apply new_scope_ok|]. intros k m F. done. Qed.

(** *** Below the bound nothing is lost *)

Definition exact (s : Scope) (l : Ledger) : Prop := forall k, field k (entries (pending s)) = l !! k.

Lemma field_list_to_map (d : list (text * text)) k : NoDup d.*1 -> (list_to_map d : Ledger) !! k = field k d.
Proof.
  induction d as [|[k0 v0] d IH]; intros ND; [done|]. rewrite fmap_cons in ND. apply NoDup_cons in ND as [_ ND]. cbn [field].
  rewrite list_to_map_cons. case_bool_decide as E; [subst; apply lookup_insert_eq|]. etransitivity; [by apply lookup_insert_ne|]. by apply IH.
Qed.

Lemma exact_size s l : scope_ok s -> exact s l -> size l = length (entries (pending s)).
Proof.
  intros [_ [ND _ _]] X. replace l with (list_to_map (entries (pending s)) : Ledger).
  - rewrite map_size_list_to_map; [done|exact ND].
  - apply map_eq. intros k. by rewrite field_list_to_map, X.
Qed.

Lemma step_exact e s l : scope_ok s -> exact s l ->
  (size (ledger_step e (step e s).2 l) <= cap (pending s))%nat -> exact (step e s).1 (ledger_step e (step e s).2 l).
Proof.
  intros O X Z. pose proof (exact_size s l O X) as Sz. destruct e as [d|d f|d|st msg]; cbn [step fst snd ledger_step] in *.
  - unfold note_client_request. by destruct (is_request d).
  - unfold settle. destruct (is_request d), f; try done. intros k. cbn [pending put entries].
    assert (K : negb (bool_decide (key str_of (id_of d) ∈ (entries (pending s)).*1)) &&
                (cap (pending s) <=? length (entries (pending s)))%nat = false).
    { apply andb_false_iff. case_bool_decide as I; [by left|]. right. apply Nat.leb_gt.
      rewrite map_size_insert_None in Z; [lia|]. rewrite <- X. apply eq_None_not_Some. by rewrite field_key. }
    rewrite K, field_put. clear K. case_bool_decide as E; [subst; by rewrite lookup_insert_eq|]. by rewrite lookup_insert_ne.
  - exact X.
  - pose proof (correlate_cases st msg s) as A. destruct (correlate st msg s) as [s' [w|k m msg']]; cbn [fst snd].
    + by subst.
    + destruct A as (_ & _ & _ & ->). intros k'. cbn [pending]. rewrite field_of_pop by apply O.
      case_bool_decide as E; [subst; by rewrite lookup_delete_eq|]. by rewrite lookup_delete_ne.
Qed.

(** The ledger after a trace, and that it never held more than [n] requests on the way. *)
Fixpoint ledger (es : list Event) (outs : list (option (text * text))) (l : Ledger) : Ledger :=
  match es, outs with e :: es', a :: outs' => ledger es' outs' (ledger_step e a l) | _, _ => l end.

Fixpoint never_above (n : nat) (es : list Event) (outs : list (option (text * text))) (l : Ledger) : bool :=
  match es, outs with
  | e :: es', a :: outs' => let l' := ledger_step e a l in (size l' <=? n)%nat && never_above n es' outs' l'
  | _, _ => true
  end.

Lemma run_exact es s l : scope_ok s -> exact s l ->
  never_above (cap (pending s)) es (run es s).2 l = true -> exact (run es s).1 (ledger es (run es s).2 l).
Proof.
  revert s l. induction es as [|e es IH]; intros s l O X; [done|]. cbn [run].
  pose proof (step_ok e s O) as O1. pose proof (step_exact e s l O X) as X1. destruct (step_caps e s) as [_ C].
  destruct (step e s) as [s1 a]. specialize (IH s1 (ledger_step e a l) O1). destruct (run es s1) as [s2 outs].
  cbn [fst snd ledger never_above] in *. rewrite C in IH. intros [Z%Nat.leb_le B]%andb_true_iff.
  auto.
Qed.

(** C22: Every real answer gets through: as long as no more requests were open at once than the map holds, a
    well-formed response that carries the id of an open request is delivered as that request's answer,
    whatever else the server sent before it (malformed answers to the same id included). *)
Theorem open_request_answered c es msg m :
  let s := (run es (new_scope c)).1 in
  let outs := (run es (new_scope c)).2 in
  never_above (Nat.max 16 c) es outs ∅ = true ->
  ledger es outs ∅ !! key str_of (id_of (data msg)) = Some m ->
  is_cold_list_id (id_of (data msg)) = false -> response_defect (data msg) m = None ->
  (correlate Direct msg s).2 = Answers (key str_of (id_of (data msg))) m msg.
Proof.
  cbv zeta. intros B L N D.
  pose proof (run_exact es (new_scope c) ∅ (new_scope_ok c)) as X. specialize (X ltac:(done) B).
  unfold Correlate.correlate. rewrite N. unfold answer, match_id, candidates. cbn [first_found]. rewrite X, L, D. done.
Qed.

End Traces.

(** ** The proxy reads an id the way the client does *)

Section Sdk.
Context (decimal : Z -> option Z) (float_of : text -> option double) `{PyFloat} (str_of : value -> text).

(** The request a client SDK takes a response for, when the ids of its requests are integers: the TypeScript
    SDK looks up [Number(response.id)], the Python SDK [int(response.id)]. *)
Inductive Sdk := TypeScript | Python.

Definition reads_as (c : Sdk) (msg_id : value) : option Z :=
  match msg_id, c with
  | VStr s, TypeScript => js_integer float_of s
  | VStr s, Python => py_int decimal s
  | VInt n, TypeScript => Some (nearest n)
  | VInt n, Python => Some n
  | VFloat d, _ => if is_integer d then Some (int_of d) else None
  | _, _ => None
  end.

(** Decimal digits are no white space, and the only ASCII ones are 0 to 9 (Unicode). *)
Context (decimal_ascii : forall c, 0 <= c < 128 -> decimal c = if is_num c then Some (c - 48) else None).
Context (decimal_dark : forall c n, decimal c = Some n -> is_white c = false /\ is_js_white c = false).

(** The value of an integer literal: a sign and ASCII digits. *)
Definition digits_value (acc : Z) (t : text) : Z := foldl (fun a c => a * 10 + (c - 48)) acc t.
Definition is_int_literal (t : text) : bool :=
  starts_digit (drop_sign t) && bool_decide (drop_digits (drop_sign t) = []).
Definition literal_value (t : text) : Z :=
  match t with 45 :: r => - digits_value 0 r | 43 :: r => digits_value 0 r | _ => digits_value 0 t end.

(** [float()] is correctly rounded: of an integer literal it is the nearest double. *)
Context (float_of_int : forall t d, is_int_literal t = true -> float_of t = Some d ->
  is_integer d = true /\ int_of d = nearest (literal_value t)).

Definition safe (n : Z) : Prop := Z.abs n < 2 ^ 53.

Lemma nearest_safe n : safe n -> nearest n = n.
Proof.
  unfold safe, nearest. intros S. cbv zeta. destruct (_ <=? 0) eqn:E; [done|]. bool_prop.
  assert (Z.log2 (Z.abs n) < 53); [|lia].
  destruct (decide (n = 0)) as [->|N]; [done|]. apply Z.log2_lt_pow2; lia.
Qed.

Lemma nearest_unsafe n : safe (nearest n) -> safe n.
Proof.
  unfold safe, nearest. cbv zeta. destruct (_ <=? 0) eqn:E; [done|]. bool_prop. intros S.
  set (m := Z.abs n) in *. set (k := Z.log2 m - 52) in *. exfalso.
  assert (P : 0 < m). { destruct (decide (m <= 0)) as [L|]; [|lia]. pose proof (Z.log2_nonpos m L). unfold k in *. lia. }
  destruct (Z.log2_spec m P) as [Lo _]. replace (Z.log2 m) with (52 + k) in Lo by (unfold k; lia).
  rewrite Z.pow_add_r in Lo by lia.
  assert (Q : 2 ^ 52 <= m / 2 ^ k) by (apply Z.div_le_lower_bound; lia).
  assert (T : 2 <= 2 ^ k) by (change 2 with (2 ^ 1) at 1; apply Z.pow_le_mono_r; lia).
  assert (Sg : Z.abs (Z.sgn n) = 1) by (destruct n; cbn in *; lia).
  rewrite Z.abs_mul, Sg, Z.mul_1_l in S.
  match type of S with Z.abs (?q * _) < _ => assert (W : 2 ^ 52 <= q) by (case_match; lia); set (w := q) in * end.
  rewrite Z.abs_eq in S by nia. change (2 ^ 53) with (2 ^ 52 * 2) in S. nia.
Qed.

(** *** Both readings of one text *)

Lemma drop_while_agree (p q : Z -> bool) t :
  match drop_while p t with c :: _ => q c = false | [] => False end ->
  match drop_while q t with c :: _ => p c = false | [] => False end -> drop_while p t = drop_while q t.
Proof.
  induction t as [|c t IH]; [done|]. cbn [drop_while]. destruct (p c) eqn:P, (q c) eqn:Q; auto; intros; congruence.
Qed.

Lemma drop_while_keeps (p : Z -> bool) (Q : Z -> Prop) t : Forall Q t -> Forall Q (drop_while p t).
Proof. induction 1 as [|c t C F IH]; cbn; [constructor|]. destruct (p c); [done|by constructor]. Qed.

(** The head of the stripped text is the head of what is left after the leading characters are dropped. *)
Lemma strip_of_head (p : Z -> bool) t c r : strip_of p t = c :: r -> exists r', drop_while p t = c :: r'.
Proof.
  unfold strip_of. intros E. set (u := drop_while p t) in *.
  destruct (drop_while_suffix p (reverse u)) as (x & X & _).
  apply (f_equal reverse) in E. rewrite reverse_involutive in E. rewrite E in X.
  apply (f_equal reverse) in X. rewrite reverse_involutive, reverse_app, reverse_involutive in X. rewrite X. cbn. eauto.
Qed.

Lemma strip_last (p : Z -> bool) t c r : strip_of p t = r ++ [c] -> exists r', drop_while p (reverse (drop_while p t)) = c :: r'.
Proof.
  unfold strip_of. intros E. apply (f_equal reverse) in E. rewrite reverse_involutive, reverse_app in E. rewrite E. cbn. eauto.
Qed.

Lemma strip_agree (p q : Z -> bool) t :
  strip_of p t <> [] -> strip_of q t <> [] ->
  Forall (fun c => q c = false) (strip_of p t) -> Forall (fun c => p c = false) (strip_of q t) ->
  strip_of p t = strip_of q t.
Proof.
  intros Np Nq Fp Fq.
  assert (D : drop_while p t = drop_while q t).
  { apply drop_while_agree.
    - destruct (strip_of p t) as [|c r] eqn:E; [done|]. apply strip_of_head in E as [r' ->]. by apply Forall_cons in Fp as [? _].
    - destruct (strip_of q t) as [|c r] eqn:E; [done|]. apply strip_of_head in E as [r' ->]. by apply Forall_cons in Fq as [? _]. }
  assert (L : drop_while p (reverse (drop_while p t)) = drop_while q (reverse (drop_while q t))).
  { rewrite D. apply drop_while_agree.
    - destruct (exists_last Np) as (r & c & E). rewrite E in Fp. apply strip_last in E as [r' E]. rewrite D in E. rewrite E.
      apply Forall_app in Fp as [_ Fp]. by apply Forall_cons in Fp as [? _].
    - destruct (exists_last Nq) as (r & c & E). rewrite E in Fq. apply strip_last in E as [r' ->].
      apply Forall_app in Fq as [_ Fq]. by apply Forall_cons in Fq as [? _]. }
  unfold strip_of. by rewrite L.
Qed.

Definition int_char (c : Z) : Prop := c = 95 \/ c = 45 \/ c = 43 \/ is_Some (decimal c).

Lemma int_char_dark c : int_char c -> is_white c = false /\ is_js_white c = false.
Proof. intros [->|[->|[->|[n D]]]]; [done..|]. by eapply decimal_dark. Qed.

Lemma int_digits_chars acc t n : int_digits decimal acc t = Some n -> Forall (fun c => c = 95 \/ is_Some (decimal c)) t.
Proof.
  revert acc. induction (Wf_nat.well_founded_ltof _ (@length Z) t) as [t _ IH]; intros acc E.
  destruct t as [|c r]; [constructor|]. cbn [int_digits] in E. destruct (c =? 95) eqn:U; bool_prop.
  - subst. destruct r as [|d r]; [done|]. destruct (decimal d) as [k|] eqn:D; [|done].
    constructor; [by left|]. constructor; [right; eauto|]. eapply IH; [unfold Wf_nat.ltof; cbn; lia|done].
  - destruct (decimal c) as [k|] eqn:D; [|done]. constructor; [right; eauto|].
    eapply IH; [unfold Wf_nat.ltof; cbn; lia|done].
Qed.

Lemma unsigned_int_chars t n : unsigned_int decimal t = Some n ->
  t <> [] /\ Forall (fun c => c = 95 \/ is_Some (decimal c)) t.
Proof.
  destruct t as [|c r]; [done|]. cbn. destruct (decimal c) as [k|] eqn:D; [|done]. intros E%int_digits_chars.
  split; [done|]. constructor; [right; eauto|done].
Qed.

Lemma signed_int_cases b n : signed_int decimal b = Some n ->
  exists s r k, b = s ++ r /\ r = drop_sign b /\ s ∈ [[]; [45]; [43]] /\ unsigned_int decimal r = Some k /\
    n = (if bool_decide (s = [45]) then - k else k).
Proof.
  unfold signed_int, drop_sign. destruct b as [|c r]; [done|].
  destruct (decide (c = 45)) as [->|N1]; [|destruct (decide (c = 43)) as [->|N2]].
  - destruct (unsigned_int decimal r) as [k|] eqn:E; [|done]. intros [= <-]. exists [45], r, k.
    split_and!; try done. right; left.
  - intros E. exists [43], r, n. split_and!; try done. do 2 right; left.
  - intros E. assert (S : drop_sign (c :: r) = c :: r) by (unfold drop_sign; repeat (case_match; try done; subst; try lia)).
    exists [], (c :: r), n. unfold drop_sign in S. rewrite S. split_and!; try done; [left|].
    revert E. repeat (case_match; subst; try lia; try done).
Qed.

Lemma signed_int_dark b n : signed_int decimal b = Some n -> b <> [] /\ Forall (fun c => is_js_white c = false) b.
Proof.
  intros (s & r & k & -> & _ & S & [Nr F]%unsigned_int_chars & _)%signed_int_cases. split; [by destruct s, r|].
  apply Forall_app. split.
  - repeat (apply elem_of_cons in S as [->|S]; [repeat constructor|]). by apply elem_of_nil in S.
  - eapply Forall_impl; [done|]. intros c C. apply int_char_dark. unfold int_char. naive_solver.
Qed.

Definition js_char (c : Z) : Prop := is_num c = true \/ c ∈ [43; 45; 46; 101; 69].

Lemma js_char_dark c : js_char c -> is_white c = false.
Proof.
  intros [N|I].
  - unfold is_num in N. bool_prop. apply decimal_dark with (n := c - 48). rewrite decimal_ascii by lia.
    unfold is_num. rewrite (proj2 (Z.leb_le 48 c)), (proj2 (Z.leb_le c 57)) by lia. done.
  - repeat (apply elem_of_cons in I as [->|I]; [done|]). by apply elem_of_nil in I.
Qed.

Lemma drop_digits_js t : Forall js_char (drop_digits t) -> Forall js_char t.
Proof.
  intros F. destruct (drop_while_suffix is_num t) as (ds & -> & D). apply Forall_app. split; [|done].
  eapply Forall_impl; [done|]. intros c C. by left.
Qed.

Lemma drop_sign_js t : Forall js_char (drop_sign t) -> Forall js_char t.
Proof.
  unfold drop_sign. destruct t as [|c r]; [done|].
  destruct (decide (c = 45)) as [->|N1]; [|destruct (decide (c = 43)) as [->|N2]].
  - intros F. constructor; [right; in_list|done].
  - intros F. constructor; [right; in_list|done].
  - repeat (case_match; subst; try lia; try done).
Qed.

Lemma js_exponent_js t : js_exponent t = true -> Forall js_char t.
Proof.
  destruct t as [|c r]; [constructor|]. cbn [js_exponent]. intros E. bool_prop. constructor.
  - right. match goal with X : _ || _ = true |- _ => apply orb_true_iff in X as [X|X] end; bool_prop; subst; in_list.
  - apply drop_sign_js, drop_digits_js. match goal with X : drop_digits _ = [] |- _ => rewrite X end. constructor.
Qed.

Lemma js_decimal_js t : js_decimal t = true -> t <> [] /\ Forall js_char t.
Proof.
  unfold js_decimal. cbv zeta. intros E. split; [by destruct t|]. apply drop_sign_js.
  destruct (starts_digit (drop_sign t)).
  - apply drop_digits_js. destruct (drop_digits (drop_sign t)) as [|c r]; [constructor|].
    destruct (decide (c = 46)) as [->|N].
    + constructor; [right; in_list|]. by apply drop_digits_js, js_exponent_js.
    + apply js_exponent_js. revert E. repeat (case_match; subst; try lia; try done).
  - destruct (drop_sign t) as [|c r]; [done|]. destruct (decide (c = 46)) as [->|N].
    + bool_prop. constructor; [right; in_list|]. by apply drop_digits_js, js_exponent_js.
    + revert E. repeat (case_match; subst; try lia; try done).
Qed.

Lemma digit_value c : is_num c = true -> decimal c = Some (c - 48).
Proof. intros N. pose proof N as B. unfold is_num in B. bool_prop. by rewrite decimal_ascii, N by lia. Qed.

Lemma int_digits_plain acc t : Forall (fun c => is_num c = true) t -> int_digits decimal acc t = Some (digits_value acc t).
Proof.
  intros F. revert acc. induction F as [|c t C F IH]; intros acc; [done|]. cbn [int_digits].
  assert (c =? 95 = false) as -> by (unfold is_num in C; bool_prop; apply Z.eqb_neq; lia).
  rewrite (digit_value c C), IH. done.
Qed.

Lemma unsigned_int_plain t k : Forall (fun c => is_num c = true) t -> unsigned_int decimal t = Some k -> k = digits_value 0 t.
Proof.
  destruct t as [|c t]; [done|]. intros [C F]%Forall_cons. cbn [unsigned_int]. rewrite (digit_value c C), int_digits_plain by done.
  intros [= <-]. done.
Qed.

(** A character outside the digits and the underscore stops [int()]. *)
Lemma unsigned_int_stops t k c : unsigned_int decimal t = Some k -> c ∈ t -> 0 <= c < 128 -> c <> 95 -> is_num c = true.
Proof.
  intros [_ F]%unsigned_int_chars I B N. rewrite Forall_forall in F. destruct (F c I) as [->|[n D]]; [done|].
  rewrite decimal_ascii in D by done. by destruct (is_num c).
Qed.

(** A text both readings take is an integer literal. *)
Lemma both_literal b n : js_decimal b = true -> signed_int decimal b = Some n ->
  is_int_literal b = true /\ n = literal_value b.
Proof.
  intros J (s & r & k & E & Er & S & U & ->)%signed_int_cases.
  assert (D : drop_digits r = []).
  { unfold js_decimal in J. cbv zeta in J. rewrite <- Er in J. destruct (drop_while_suffix is_num r) as (ds & Rr & _).
    fold (drop_digits r) in Rr. destruct (drop_digits r) as [|c w] eqn:Dr; [done|]. exfalso.
    assert (Ic : c ∈ r) by (rewrite Rr; apply elem_of_app; right; left).
    pose proof (drop_while_head is_num r) as H0. fold (drop_digits r) in H0. rewrite Dr in H0.
    assert (Cc : c = 46 \/ c = 101 \/ c = 69).
    { destruct (starts_digit r) eqn:Sd.
      - destruct (decide (c = 46)) as [->|N]; [by left|]. right.
        assert (X : js_exponent (c :: w) = true) by (revert J; repeat (case_match; subst; try lia; try done)).
        cbn [js_exponent] in X. bool_prop.
        match goal with X : _ || _ = true |- _ => apply orb_true_iff in X as [X|X] end; bool_prop; auto.
      - destruct r as [|c0 r0]; [done|]. cbn [starts_digit] in Sd. unfold drop_digits in Dr. cbn [drop_while] in Dr.
        rewrite Sd in Dr. injection Dr as <- <-. left. revert J. repeat (case_match; subst; try lia; try done). }
    rewrite (unsigned_int_stops r k c) in H0; try done; lia. }
  assert (F : Forall (fun c => is_num c = true) r).
  { destruct (drop_while_suffix is_num r) as (ds & Rr & F). fold (drop_digits r) in Rr. rewrite D, app_nil_r in Rr. by subst. }
  pose proof (unsigned_int_plain r k F U) as ->. destruct r as [|c r]; [done|]. split.
  - unfold is_int_literal. rewrite <- Er, D. apply Forall_cons in F as [C _]. cbn [starts_digit]. rewrite C. done.
  - apply Forall_cons in F as [C _]. unfold is_num in C. bool_prop. subst b.
    repeat (apply elem_of_cons in S as [->|S]; [|try by apply elem_of_nil in S]); try done.
    cbn [app]. rewrite bool_decide_false by done. unfold literal_value. repeat (case_match; subst; try lia; try done).
Qed.

Lemma radix_chars t n : js_radix t = Some n ->
  exists x ds, t = 48 :: x :: ds /\ x ∈ [120; 88; 111; 79; 98; 66] /\ Forall (fun c => is_Some (hex_value c)) ds.
Proof.
  assert (D : forall base acc ds n, radix_digits base acc ds = Some n -> Forall (fun c => is_Some (hex_value c)) ds).
  { intros base acc ds. revert acc. induction ds as [|c ds IH]; intros acc m E; [constructor|]. cbn [radix_digits] in E.
    unfold radix_digit in E. destruct (hex_value c) as [v|] eqn:V; [|done]. destruct (v <? base); [|done].
    constructor; eauto. }
  unfold js_radix. intros E. repeat (case_match; try done); simplify_eq; bool_prop;
    do 2 eexists; (split; [done|split; [|by eapply D]]); set_solver.
Qed.

(** One text, two readings: JavaScript's is the nearest double of Python's. *)
Lemma readings_agree t a b : py_int decimal t = Some a -> js_integer float_of t = Some b -> b = nearest a.
Proof.
  intros A B. unfold py_int in A. pose proof (signed_int_dark _ _ A) as [Na Fa].
  assert (core : strip_of is_js_white t <> [] -> Forall (fun c => is_white c = false) (strip_of is_js_white t) ->
                 strip_of is_white t = strip_of is_js_white t) by (intros; by apply strip_agree).
  unfold js_integer in B. destruct (strip_of is_js_white t) as [|c r] eqn:Ej.
  - exfalso. destruct (strip_of_split is_js_white t) as (x & y & Et & Fx & Fy). rewrite Ej in Et. cbn [app] in Et.
    destruct (strip_of_split is_white t) as (x' & y' & Et' & _). destruct (strip_of is_white t) as [|d s]; [done|].
    apply Forall_cons in Fa as [Fd _]. assert (I : d ∈ t) by (rewrite Et'; set_solver).
    rewrite Et in I. rewrite Forall_forall in Fx, Fy. apply elem_of_app in I as [I|I]; [apply Fx in I|apply Fy in I]; congruence.
  - rewrite <- Ej in *. destruct (js_radix (strip_of is_js_white t)) as [n|] eqn:R.
    + exfalso. destruct (radix_chars _ _ R) as (x & ds & E & Ix & Fd).
      assert (Hd : forall d, is_Some (hex_value d) -> is_white d = false).
      { intros d [v V]. unfold hex_value in V. destruct (is_num d) eqn:Nd; [by eapply decimal_dark, digit_value|].
        repeat case_match; try done; bool_prop; unfold is_white; repeat (rewrite ?andb_false_iff, ?orb_false_iff);
          repeat split; try (apply bool_decide_eq_false; set_solver by lia); lia. }
      assert (W : strip_of is_white t = strip_of is_js_white t).
      { apply core; rewrite E; [done|]. repeat constructor.
        - repeat (apply elem_of_cons in Ix as [->|Ix]; [done|]). by apply elem_of_nil in Ix.
        - eapply Forall_impl; [done|exact Hd]. }
      rewrite W, E in A. cbn [signed_int unsigned_int] in A. rewrite decimal_ascii in A by lia. cbn [int_digits] in A.
      repeat (apply elem_of_cons in Ix as [->|Ix]; [by cbn in A; rewrite decimal_ascii in A by lia|]). by apply elem_of_nil in Ix.
    + destruct (js_decimal _) eqn:J; [|done]. destruct (js_decimal_js _ J) as [Nj Fj].
      rewrite core in A; [|done|by eapply Forall_impl; [|apply js_char_dark]].
      destruct (both_literal _ _ J A) as [L ->]. destruct (float_of _) as [d|] eqn:Fo; [|done].
      destruct (float_of_int _ _ L Fo) as [Id Iv]. rewrite Id, Iv in B. by injection B as <-.
Qed.

(** A safe reading is the only one. *)
Lemma safe_reading_only t n : safe n -> (length t <= MAX_NUMERIC_ID_CHARS)%nat ->
  py_int decimal t = Some n \/ js_integer float_of t = Some n -> numeric_readings decimal float_of t = [n].
Proof.
  intros S L R. unfold numeric_readings. rewrite (proj2 (Nat.ltb_ge _ _) L).
  destruct (py_int decimal t) as [a|] eqn:A, (js_integer float_of t) as [b|] eqn:B; try (by destruct R; simplify_eq).
  pose proof (readings_agree t a b A B) as ->.
  assert (a = n) as ->.
  { destruct R as [R|R]; injection R as <-; [done|]. symmetry. apply nearest_safe, nearest_unsafe, S. }
  rewrite nearest_safe by done. by rewrite Z.eqb_refl.
Qed.

(** What the client accepts is what is mediated: take a client of either reference SDK, whose requests have
    integer ids (below 2^53).  If it reads a response's id, number or string, as its open request [n], then
    the proxy matches the response to that very request and mediates it as that request's method; a
    spelling too long to be read is matched to nothing, and dropped. *)
Theorem client_reading_mediated c msg_id n m p :
  safe n -> Forall (fun k => exists i, k = num_key i) (entries p).*1 ->
  reads_as c msg_id = Some n -> field (num_key n) (entries p) = Some m ->
  match_id decimal float_of str_of msg_id p =
    match msg_id with
    | VStr s => if (MAX_NUMERIC_ID_CHARS <? length s)%nat then None else Some (num_key n, m)
    | _ => Some (num_key n, m)
    end.
Proof.
  intros S F R M. unfold match_id, candidates.
  assert (NoStr : forall s, field (str_key s) (entries p) = None).
  { intros s. apply eq_None_not_Some. rewrite field_key. intros I. rewrite Forall_forall in F. by destruct (F _ I) as [i E]. }
  destruct msg_id as [|b|i|d|s|l|fs]; try (by destruct c).
  - assert (i = n) as ->.
    { destruct c; cbn in R; injection R as <-; [|done]. symmetry. apply nearest_safe, nearest_unsafe, S. }
    cbn [first_found key]. by rewrite M.
  - cbn [first_found key]. destruct c; cbn in R; (destruct (is_integer d); [|done]); injection R as ->; by rewrite M.
  - cbn [first_found key]. rewrite NoStr. destruct (_ <? length s)%nat eqn:L.
    + unfold numeric_readings. rewrite L. done.
    + apply Nat.ltb_ge in L. rewrite (safe_reading_only s n S L) by (destruct c; auto). cbn [map first_found]. by rewrite M.
Qed.

End Sdk.

(** ** An example session *)

Module Session.

Definition decimal (c : Z) : option Z := if is_num c then Some (c - 48) else None.
Definition float_of (t : text) : option double :=
  if is_int_literal t then let n := nearest (literal_value t) in Some (Double (n <? 0) (Z.abs n) 0) else None.
Definition prn (v : value) : text := [].

Lemma decimal_ascii c : 0 <= c < 128 -> decimal c = if is_num c then Some (c - 48) else None.
Proof. done. Qed.

Lemma decimal_dark c n : decimal c = Some n -> is_white c = false /\ is_js_white c = false.
Proof.
  unfold decimal. destruct (is_num c) eqn:N; [|done]. intros _. unfold is_num in N. bool_prop.
  assert (I : c ∈ seqZ 48 10) by (apply elem_of_seqZ; lia). cbn in I.
  repeat (apply elem_of_cons in I as [->|I]; [done|]). by apply elem_of_nil in I.
Qed.

Lemma float_of_int t d : is_int_literal t = true -> float_of t = Some d ->
  is_integer d = true /\ int_of d = nearest (literal_value t).
Proof.
  unfold float_of. intros ->. cbv zeta. set (n := nearest _). intros [= <-]. split; [done|]. unfold int_of. cbn [neg mant expo].
  destruct (n <? 0) eqn:E; bool_prop; lia.
Qed.

Definition msg (fs : list (string * value)) : JsonRpcMessage := {| data := obj fs; raw := [] |}.
Definition request (i : Z) (m : string) : value := obj [("jsonrpc", str "2.0"); ("id", VInt i); ("method", str m)].
Definition response (i : value) : JsonRpcMessage := msg [("jsonrpc", str "2.0"); ("id", i); ("result", obj [])].

(** Request 1 is forwarded, request 2 is still held; the server answers 1 malformed, then 2. *)
Definition events : list Event :=
  [Read (request 1 "tools/call"); Settled (request 1 "tools/call") true; Read (request 2 "tools/call");
   Arrived Direct (msg [("jsonrpc", str "1.0"); ("id", VInt 1); ("result", obj [])]);
   Arrived Direct (response (VInt 2))].

(** The answer to 1 is still delivered, the answer to 2 was dropped. *)
Example open_request_answered_witness :
  (run decimal float_of prn events (new_scope 0)).2 = [None; None; None; None; None] /\
  (correlate decimal float_of prn Direct (response (VInt 1)) (run decimal float_of prn events (new_scope 0)).1).2 =
    Answers (num_key 1) (points "tools/call") (response (VInt 1)).
Proof.
  split; [by vm_compute|].
  apply (open_request_answered decimal float_of prn 0 events (response (VInt 1)) (points "tools/call")); by vm_compute.
Defined.

(** A string id that either SDK reads as 7. *)
Example client_reading_mediated_witness :
  match_id decimal float_of prn (VStr (points " 07 ")) {| entries := [(num_key 7, points "tools/list")]; cap := 16 |} =
    Some (num_key 7, points "tools/list").
Proof.
  apply (client_reading_mediated decimal float_of prn decimal_ascii decimal_dark float_of_int Python (VStr (points " 07 ")) 7).
  - by vm_compute.
  - repeat constructor. by exists 7.
  - by vm_compute.
  - by vm_compute.
Defined.

End Session.
