(* ===== verification/McpSchema.v ===== *)
(** * Checks on the arguments of a [tools/call] ([mcp/firewall.py])

    Two guards read only the message and the tool's own declaration: [_sets_transport_headers], a bounded
    walk that looks for a parameter which sets an outbound HTTP header, and the subset of JSON Schema
    ([_schema_violations]) that holds a call to the [inputSchema] the server published for the tool. *)

From S2P Require Import Prelude.
From S2P Require Import Text.
From S2P Require Import Json.
From S2P Require Import JsonParse.
From S2P Require Import Protocol.

(** ** [_sets_transport_headers] *)

Definition X_MCP_HEADER : text := points "x-mcp-header".
Definition HEADER_WALK_NODES : nat := N.to_nat 65536.

Section Headers.
Context (fold_key : text -> text).     (* [P._fold] *)

Definition is_header_key (k : text) : bool := bool_decide (fold_key k = X_MCP_HEADER).

(** The loop, over the stack with its top first; [budget] is what is left of the node count. *)
Fixpoint header_walk (budget : nat) (stack : list value) : bool :=
  match stack with
  | [] => false
  | node :: stack' =>
      match budget with
      | O => true
      | S b =>
          match node with
          | VObj fs => if existsb (fun f => is_header_key f.1) fs then true else header_walk b (reverse fs.*2 ++ stack')
          | VArr l => header_walk b (reverse l ++ stack')
          | _ => header_walk b stack'
          end
      end
  end.

Definition sets_transport_headers (arguments : value) : bool := header_walk HEADER_WALK_NODES [arguments].

(** What it looks for: a key of any object at any depth. *)
Fixpoint names_header (v : value) : bool :=
  match v with
  | VArr l => existsb names_header l
  | VObj fs => existsb (fun f => is_header_key f.1) fs || existsb (fun f => names_header f.2) fs
  | _ => false
  end.

Definition stack_nodes (l : list value) : nat := list_sum (map nodes l).

Lemma stack_nodes_cons v l : stack_nodes (v :: l) = (nodes v + stack_nodes l)%nat.
Proof. done. Qed.

Lemma stack_nodes_app l l' : stack_nodes (l ++ l') = (stack_nodes l + stack_nodes l')%nat.
Proof. unfold stack_nodes. by rewrite map_app, list_sum_app. Qed.

Lemma stack_nodes_reverse l : stack_nodes (reverse l) = stack_nodes l.
Proof. induction l as [|v l IH]; [done|]. rewrite reverse_cons, stack_nodes_app, IH, !stack_nodes_cons. cbn. lia. Qed.

Lemma existsb_reverse {A} (p : A -> bool) l : existsb p (reverse l) = existsb p l.
Proof.
  induction l as [|x l IH]; [done|]. rewrite reverse_cons, existsb_app, IH. cbn. by rewrite orb_false_r, orb_comm.
Qed.

Lemma existsb_fields (p : value -> bool) (fs : list (text * value)) : existsb p fs.*2 = existsb (fun f => p f.2) fs.
Proof. induction fs as [|f fs IH]; [done|]. cbn. by rewrite IH. Qed.

Lemma stack_nodes_fields (fs : list (text * value)) : stack_nodes fs.*2 = list_sum (map (fun f => nodes f.2) fs).
Proof. unfold stack_nodes. f_equal. apply map_map. Qed.

(** The walk answers by the reference definition, or refuses because the tree is too large. *)
Lemma header_walk_spec b stack :
  header_walk b stack = existsb names_header stack \/ (b < stack_nodes stack)%nat /\ header_walk b stack = true.
Proof.
  revert stack. induction b as [|b IH]; intros [|v stack]; [by left| |by left|].
  { right. split; [|done]. rewrite stack_nodes_cons. destruct v; cbn; lia. }
  cbn [header_walk existsb]. destruct v as [|?|?|?|?|l|fs]; cbn [names_header orb];
    try (destruct (IH stack) as [->|[L ->]]; [by left|right; split; [|done]; rewrite stack_nodes_cons; cbn; lia]).
  - destruct (IH (reverse l ++ stack)) as [->|[L ->]]; [left; by rewrite existsb_app, existsb_reverse|].
    right. split; [|done]. rewrite stack_nodes_app, stack_nodes_reverse in L. rewrite stack_nodes_cons. cbn [nodes]. fold (stack_nodes l). lia.
  - destruct (existsb (fun f => is_header_key f.1) fs); [by left|].
    destruct (IH (reverse fs.*2 ++ stack)) as [->|[L ->]].
    + left. by rewrite existsb_app, existsb_reverse, existsb_fields.
    + right. split; [|done]. rewrite stack_nodes_app, stack_nodes_reverse, stack_nodes_fields in L.
      rewrite stack_nodes_cons. cbn [nodes]. lia.
Qed.

(** The header guard misses nothing: the walk refuses every argument tree in which some object, at any depth,
    has a key that folds to [x-mcp-header]; it refuses another tree only when that tree has more nodes
    than the walk may visit. *)
Theorem header_guard_exact arguments :
  (names_header arguments = true -> sets_transport_headers arguments = true) /\
  ((nodes arguments <= HEADER_WALK_NODES)%nat -> sets_transport_headers arguments = names_header arguments).
Proof.
  unfold sets_transport_headers. destruct (header_walk_spec HEADER_WALK_NODES [arguments]) as [->|[L ->]]; cbn [existsb].
  - by rewrite orb_false_r.
  - split; [done|]. rewrite stack_nodes_cons in L. change (stack_nodes []) with 0%nat in L. lia.
Qed.

End Headers.

(** ** [_schema_violations] *)

Notation Fields := (list (text * value)).

Definition get_field (k : string) (fs : Fields) : option value := field (points k) fs.

(** [_admits_object]. *)
Definition is_str_value (s : string) (v : value) : bool := match v with VStr t => bool_decide (t = points s) | _ => false end.

Definition admits_object (declared : option value) : bool :=
  match declared with
  | None | Some VNull => true
  | Some (VArr l) => existsb (is_str_value "object") l
  | Some v => is_str_value "object" v
  end.

Definition strings_of (l : list value) : list text := omap (fun v => match v with VStr s => Some s | _ => None end) l.

(** [[k for k in (schema.get("required") or []) if isinstance(k, str)]]; [None]: what is there is true and
    cannot be iterated over, [TypeError]. *)
Definition required_names (schema : Fields) : option (list text) :=
  match get_field "required" schema with
  | None | Some VNull | Some (VBool false) => Some []
  | Some (VArr l) => Some (strings_of l)
  | Some (VStr s) => Some (map (fun c => [c]) s)
  | Some (VObj fs) => Some fs.*1
  | Some (VInt n) => if n =? 0 then Some [] else None
  | Some (VFloat d) => if mant d =? 0 then Some [] else None
  | Some (VBool true) => None
  end.

Definition known_of (schema : Fields) : Fields := match get_field "properties" schema with Some (VObj fs) => fs | _ => [] end.

Definition is_closed (schema : Fields) : bool :=
  match get_field "additionalProperties" schema with Some (VBool false) => true | _ => false end.

(** The Python types a JSON value is an instance of: [bool] is a subclass of [int]. *)
Inductive PyType := TStr | TInt | TFloat | TBool | TList | TDict | TNone.
#[export] Instance PyType_eq_dec : EqDecision PyType.
Proof. solve_decision. Defined.

Definition is_instance (v : value) (ts : list PyType) : bool :=
  match v with
  | VNull => bool_decide (TNone ∈ ts)
  | VBool _ => bool_decide (TBool ∈ ts) || bool_decide (TInt ∈ ts)
  | VInt _ => bool_decide (TInt ∈ ts)
  | VFloat _ => bool_decide (TFloat ∈ ts)
  | VStr _ => bool_decide (TStr ∈ ts)
  | VArr _ => bool_decide (TList ∈ ts)
  | VObj _ => bool_decide (TDict ∈ ts)
  end.

(** [_JSON_TYPES.get(name, ())]; [None]: the name is not hashable, [TypeError]. *)
Definition JSON_TYPES : list (text * list PyType) :=
  [(points "string", [TStr]); (points "number", [TInt; TFloat]); (points "integer", [TInt]); (points "boolean", [TBool]);
   (points "array", [TList]); (points "object", [TDict]); (points "null", [TNone])].

Definition types_of (name : value) : option (list PyType) :=
  match name with
  | VStr s => Some (default [] (field s JSON_TYPES))
  | VArr _ | VObj _ => None
  | _ => Some []
  end.

Fixpoint allowed_types (wanted : list value) : option (list PyType) :=
  match wanted with
  | [] => Some []
  | n :: ns => ts ← types_of n; us ← allowed_types ns; Some (ts ++ us)
  end.

(** [wanted], when there is a list of types to check. *)
Definition wanted_of (spec : Fields) : option (list value) :=
  match get_field "type" spec with
  | Some (VStr s) => Some [VStr s]
  | Some (VArr (v :: l)) => Some (v :: l)
  | _ => None
  end.

Definition wants (name : string) (wanted : list value) : bool := existsb (is_str_value name) wanted.

Definition type_ok (wanted : list value) (allowed : list PyType) (v : value) : bool :=
  let ok := is_instance v allowed in
  let ok := match v with VBool _ => ok && wants "boolean" wanted | _ => ok end in
  ok || (wants "integer" wanted && match v with VFloat d => is_integer d | _ => false end).

(** What is reported; the texts name the argument and, for a type, [wanted]. *)
Inductive Violation := MissingArgument (k : text) | UndeclaredArgument (k : text) | WrongType (k : text) (wanted : list text).

(** One property: no violation, a violation, or [None]: [TypeError]. *)
Definition property_violation (arguments : Fields) (key : text) (spec : value) : option (list Violation) :=
  match field key arguments, spec with
  | Some v, VObj sp =>
      match wanted_of sp with
      | None => Some []
      | Some wanted =>
          allowed ← allowed_types wanted;
          if bool_decide (allowed = []) || type_ok wanted allowed v then Some []
          else if forallb (fun n => match n with VStr _ => true | _ => false end) wanted   (* ['/'.join(wanted)] *)
          then Some [WrongType key (strings_of wanted)] else None
      end
  | _, _ => Some []
  end.

Fixpoint property_violations (arguments : Fields) (known : Fields) : option (list Violation) :=
  match known with
  | [] => Some []
  | (k, spec) :: known' =>
      a ← property_violation arguments k spec; b ← property_violations arguments known'; Some (a ++ b)
  end.

Definition has_key (k : text) (fs : Fields) : bool := bool_decide (k ∈ fs.*1).

Definition missing (required : list text) (arguments : Fields) : list Violation :=
  map MissingArgument (filter (fun k => has_key k arguments = false) required).

Definition undeclared (schema : Fields) (required : list text) (arguments : Fields) : list Violation :=
  if is_closed schema then
    map UndeclaredArgument
      (filter (fun k => has_key k (known_of schema) = false /\ bool_decide (k ∈ required) = false) arguments.*1)
  else [].

(** [_schema_violations]; [None]: it raises. *)
Definition schema_violations (schema arguments : Fields) : option (list Violation) :=
  if negb (admits_object (get_field "type" schema)) then Some []
  else
    required ← required_names schema;
    typed ← property_violations arguments (known_of schema);
    Some (take 16 (missing required arguments ++ undeclared schema required arguments ++ typed)).

(** ** [_schema_enforceability] *)

Definition UNCHECKABLE_KEYWORDS : list string :=
  ["$ref"; "$dynamicRef"; "anyOf"; "oneOf"; "allOf"; "not"; "if"; "then"; "else"; "dependentSchemas"; "dependentRequired";
   "patternProperties"; "propertyNames"; "unevaluatedProperties"].
Definition MAX_SCHEMA_PROPERTIES : nat := 256.

(** The notes, one constructor per message. *)
Inductive Note :=
  | NotAnArgumentsObject (declared : value)
  | PropertiesUnreadable
  | Uses (keywords : list string)
  | PatternsIgnored
  | PropertiesUse (count : Z) (names : list text)
  | OnlySomeExamined.

Definition keywords_in (fs : Fields) : list string := filter (fun k => has_key (points k) fs = true) UNCHECKABLE_KEYWORDS.

Definition uses_keyword (spec : value) : bool :=
  match spec with VObj fs => negb (bool_decide (keywords_in fs = [])) | _ => false end.

Definition offending (props : Fields) : list text :=
  map fst (filter (fun p => uses_keyword p.2 = true) (take MAX_SCHEMA_PROPERTIES props)).

Definition schema_enforceability (schema : Fields) : list Note :=
  let declared := get_field "type" schema in
  if negb (admits_object declared) then [NotAnArgumentsObject (default VNull declared)]
  else
    let props := get_field "properties" schema in
    match props with None | Some VNull | Some (VObj _) => [] | Some _ => [PropertiesUnreadable] end ++
    (if bool_decide (keywords_in schema = []) then [] else [Uses (keywords_in schema)]) ++
    (if has_key (points "patternProperties") schema && is_closed schema then [PatternsIgnored] else []) ++
    match props with
    | Some (VObj fs) =>
        (if bool_decide (offending fs = []) then []
         else [PropertiesUse (Z.of_nat (length (offending fs))) (take 8 (offending fs))]) ++
        (if (MAX_SCHEMA_PROPERTIES <? length fs)%nat then [OnlySomeExamined] else [])
    | _ => []
    end.

(** ** What the check accepts *)

(** The types of JSON Schema (draft 6 on: an integer is a number without a fractional part). *)
Definition has_type (name : value) (v : value) : bool :=
  match name with
  | VStr s =>
      if bool_decide (s = points "string") then match v with VStr _ => true | _ => false end
      else if bool_decide (s = points "number") then match v with VInt _ | VFloat _ => true | _ => false end
      else if bool_decide (s = points "integer") then
        match v with VInt _ => true | VFloat d => is_integer d | _ => false end
      else if bool_decide (s = points "boolean") then match v with VBool _ => true | _ => false end
      else if bool_decide (s = points "array") then match v with VArr _ => true | _ => false end
      else if bool_decide (s = points "object") then match v with VObj _ => true | _ => false end
      else if bool_decide (s = points "null") then match v with VNull => true | _ => false end
      else false
  | _ => false
  end.

(** A property's type is checked when its declaration names a type the checker knows. *)
Definition recognised (n : value) : bool := match types_of n with Some (_ :: _) => true | _ => false end.

Lemma is_instance_app v ts us : is_instance v (ts ++ us) = is_instance v ts || is_instance v us.
Proof.
  assert (D : forall t, bool_decide (t ∈ ts ++ us) = bool_decide (t ∈ ts) || bool_decide (t ∈ us)).
  { intros t. apply eq_true_iff_eq. rewrite orb_true_iff, !bool_decide_eq_true. apply elem_of_app. }
  destruct v; cbn [is_instance]; rewrite ?D; try done. repeat case_bool_decide; done.
Qed.

Lemma allowed_types_instance wanted allowed v : allowed_types wanted = Some allowed ->
  is_instance v allowed = existsb (fun n => is_instance v (default [] (types_of n))) wanted.
Proof.
  revert allowed. induction wanted as [|n wanted IH]; intros allowed E; [injection E as <-; by destruct v|].
  cbn [allowed_types] in E. unfold mbind, option_bind in E. destruct (types_of n) as [ts|] eqn:T; [|done].
  destruct (allowed_types wanted) as [us|]; [|done]. injection E as <-. cbn [existsb]. by rewrite is_instance_app, (IH us), T.
Qed.

Lemma allowed_types_none wanted allowed : allowed_types wanted = Some allowed ->
  bool_decide (allowed = []) = negb (existsb recognised wanted).
Proof.
  revert allowed. induction wanted as [|n wanted IH]; intros allowed E; [by injection E as <-|].
  cbn [allowed_types] in E. unfold mbind, option_bind in E. destruct (types_of n) as [ts|] eqn:T; [|done].
  destruct (allowed_types wanted) as [us|]; [|done]. injection E as <-. specialize (IH us eq_refl). cbn [existsb].
  unfold recognised at 1. rewrite T. destruct ts as [|t ts]; [exact IH|done].
Qed.

(** One type name: what [isinstance] says of a value that is neither a bool nor a float, is [has_type]. *)
Lemma instance_of_name n v :
  let i := is_instance v (default [] (types_of n)) in
  match v with
  | VBool _ => has_type n v = is_str_value "boolean" n /\ (is_str_value "boolean" n = true -> i = true)
  | VFloat d => has_type n v = i || (is_str_value "integer" n && is_integer d)
  | _ => has_type n v = i
  end.
Proof.
  cbv zeta. destruct n as [|?|?|?|s|?|?]; try (by destruct v).
  assert (C : s ∈ JSON_TYPES.*1 \/ field s JSON_TYPES = None).
  { destruct (field s JSON_TYPES) as [x|] eqn:F; [left; apply field_key; eauto|by right]. }
  destruct C as [C|F].
  - repeat (apply elem_of_cons in C as [->|C]; [destruct v as [|?|?|d|?|?|?]; try (destruct (is_integer d) eqn:?); vm_compute; done|]). by apply elem_of_nil in C.
  - assert (N : forall k, k ∈ JSON_TYPES.*1 -> s <> k).
    { intros k I ->. apply field_key in I as [? I]. congruence. }
    unfold types_of. rewrite F. cbn [default from_option]. unfold has_type, is_str_value.
    rewrite !bool_decide_false by (apply N; in_list). by destruct v.
Qed.

Lemma existsb_ext_all {A} (p q : A -> bool) l : (forall x, p x = q x) -> existsb p l = existsb q l.
Proof. intros E. induction l as [|x l IH]; [done|]. cbn. by rewrite E, IH. Qed.

Lemma existsb_orb {A} (p q : A -> bool) l : existsb (fun x => p x || q x) l = existsb p l || existsb q l.
Proof. induction l as [|x l IH]; [done|]. cbn. rewrite IH. by destruct (p x), (q x), (existsb p l). Qed.

Lemma existsb_andb_r {A} (p : A -> bool) b l : existsb (fun x => p x && b) l = existsb p l && b.
Proof. induction l as [|x l IH]; [done|]. cbn. rewrite IH. by destruct (p x), b, (existsb p l). Qed.

(** [isinstance] with its corrections for bools and whole floats is the JSON Schema type. *)
Lemma type_ok_spec wanted allowed v : allowed_types wanted = Some allowed ->
  type_ok wanted allowed v = existsb (fun n => has_type n v) wanted.
Proof.
  intros E. unfold type_ok. cbv zeta. rewrite (allowed_types_instance _ _ v E). unfold wants.
  assert (plain : forall v, match v with VBool _ | VFloat _ => True | _ =>
    existsb (fun n => is_instance v (default [] (types_of n))) wanted = existsb (fun n => has_type n v) wanted end).
  { intros w. destruct w as [|?|?|?|?|?|?]; try done; apply existsb_ext_all; intros m; symmetry;
      [apply (instance_of_name m VNull)|apply (instance_of_name m (VInt _))|apply (instance_of_name m (VStr _))
      |apply (instance_of_name m (VArr _))|apply (instance_of_name m (VObj _))]. }
  destruct v as [|b|i|d|s|l|fs]; rewrite ?andb_false_r, ?orb_false_r;
    [apply (plain VNull)| |apply (plain (VInt i))| |apply (plain (VStr s))|apply (plain (VArr l))|apply (plain (VObj fs))].
  - rewrite (existsb_ext_all (fun n => has_type n (VBool b)) (is_str_value "boolean"))
      by (intros n; apply (instance_of_name n (VBool b))).
    destruct (existsb (is_str_value "boolean") wanted) eqn:W; [|by rewrite andb_false_r]. rewrite andb_true_r.
    apply existsb_exists in W as (n & I & B). apply existsb_exists. exists n. split; [done|].
    by apply (instance_of_name n (VBool b)).
  - rewrite (existsb_ext_all (fun n => has_type n (VFloat d)) _ wanted (fun n => instance_of_name n (VFloat d))).
    by rewrite existsb_orb, existsb_andb_r.
Qed.

(** The three statements of the declaration that the check is there to enforce: every required argument is there; a closed declaration has
    no arguments that are neither declared nor required; each declared argument has one of the types declared for it, as JSON Schema
    reads types, where one is known.  Nothing else of the declaration is read, and nothing below the first level. *)
Record checked_statements (schema : Fields) (required : list text) (arguments : Fields) : Prop := {
  all_required : Forall (fun k => k ∈ arguments.*1) required;
  none_undeclared : is_closed schema = true -> Forall (fun k => k ∈ (known_of schema).*1 \/ k ∈ required) arguments.*1;
  types_match : Forall (fun p : text * value => forall v sp wanted, field p.1 arguments = Some v -> p.2 = VObj sp ->
      wanted_of sp = Some wanted -> existsb recognised wanted = true -> existsb (fun n => has_type n v) wanted = true)
    (known_of schema);
}.

Lemma property_violation_nil arguments k spec vs : property_violation arguments k spec = Some vs ->
  vs = [] <-> forall v sp wanted, field k arguments = Some v -> spec = VObj sp ->
      wanted_of sp = Some wanted -> existsb recognised wanted = true -> existsb (fun n => has_type n v) wanted = true.
Proof.
  assert (vacuous : forall P : Prop, P -> Some [] = Some vs -> vs = [] <-> P) by (intros P p [= <-]; by split).
  unfold property_violation. destruct (field k arguments) as [v|]; [|apply vacuous; by intros].
  destruct spec as [| | | | | |sp]; try (apply vacuous; by intros).
  destruct (wanted_of sp) as [wanted|] eqn:W; [|apply vacuous; intros v1 sp1 w1 [= <-] [= <-] W1; congruence].
  unfold mbind, option_bind. destruct (allowed_types wanted) as [allowed|] eqn:A; [|done].
  rewrite (type_ok_spec _ _ v A), (allowed_types_none _ _ A).
  destruct (existsb recognised wanted) eqn:R; cbn [negb orb]; [|apply vacuous; intros v1 sp1 w1 [= <-] [= <-] W1; congruence].
  destruct (existsb (fun n => has_type n v) wanted) eqn:T; [apply vacuous; intros v1 sp1 w1 [= <-] [= <-] W1 _; rewrite W in W1; by injection W1 as <-|].
  destruct (forallb _ wanted); [|done]. intros [= <-]. split; [done|]. intros X.
  specialize (X v sp wanted eq_refl eq_refl W R). congruence.
Qed.

Lemma property_violations_nil arguments known vs : property_violations arguments known = Some vs ->
  vs = [] <-> Forall (fun p : text * value => forall v sp wanted, field p.1 arguments = Some v -> p.2 = VObj sp ->
      wanted_of sp = Some wanted -> existsb recognised wanted = true -> existsb (fun n => has_type n v) wanted = true) known.
Proof.
  revert vs. induction known as [|[k spec] known IH]; intros vs E; [injection E as <-; by split|].
  cbn [property_violations] in E. unfold mbind, option_bind in E.
  destruct (property_violation arguments k spec) as [a|] eqn:P; [|done].
  destruct (property_violations arguments known) as [b|]; [|done]. injection E as <-.
  rewrite Forall_cons, <- (IH b), <- (property_violation_nil _ _ _ _ P) by done. split.
  - intros [-> ->]%app_eq_nil. done.
  - by intros [-> ->].
Qed.

Lemma map_filter_nil {A B} (f : A -> B) (P : A -> Prop) `{!forall x, Decision (P x)} l :
  map f (filter P l) = [] <-> Forall (fun x => ~ P x) l.
Proof.
  induction l as [|x l IH]; [by split|]. rewrite filter_cons, Forall_cons. case_decide as D; [by split; [|intros [? _]]|].
  rewrite IH. tauto.
Qed.

(** What JSON Schema says of these keywords, at every level: a value is valid only if it has a declared type and, where it is an object, all that is
    required, no members but the declared ones where they are closed (patterns may admit others), and valid members. *)
Fixpoint json_valid (s v : value) : bool :=
  match s with
  | VBool b => b
  | VObj fs =>
      match wanted_of fs with Some wanted => existsb (fun n => has_type n v) wanted | None => true end &&
      match v with
      | VObj args =>
          forallb (fun k => has_key k args) (default [] (required_names fs)) &&
          (negb (is_closed fs) || has_key (points "patternProperties") fs || forallb (fun k => has_key k (known_of fs)) args.*1) &&
          forallb (fun f => negb (bool_decide (f.1 = points "properties")) ||
            match f.2 with
            | VObj ps => forallb (fun p => match field p.1 args with Some x => json_valid p.2 x | None => true end) ps
            | _ => true
            end) fs
      | _ => true
      end
  | _ => true
  end.

Lemma valid_statements schema arguments required : required_names schema = Some required -> has_key (points "patternProperties") schema = false ->
  json_valid (VObj schema) (VObj arguments) = true -> checked_statements schema required arguments.
Proof.
  intros R Np V. cbn [json_valid] in V. rewrite R, Np, orb_false_r in V. cbn [default from_option id] in V. bool_prop.
  repeat match goal with X : forallb _ _ = true |- _ => rewrite forallb_all in X end. split.
  - eapply Forall_impl; [eassumption|]. intros k K. unfold has_key in K. by apply bool_decide_eq_true in K.
  - intros C. match goal with X : negb _ || _ = true |- _ => rewrite C in X; cbn in X; rewrite forallb_all in X; eapply Forall_impl; [exact X|] end.
    intros k K. unfold has_key in K. apply bool_decide_eq_true in K. by left.
  - unfold known_of. destruct (get_field "properties" schema) as [[| | | | | |ps]|] eqn:G; try constructor.
    unfold get_field in G. apply field_elem in G.
    match goal with X : Forall _ schema |- _ => rewrite Forall_forall in X; specialize (X _ G) end.
    cbn [fst snd] in *. rewrite bool_decide_true in * by done. cbn [negb orb] in *. match goal with X : forallb _ ps = true |- _ => rewrite forallb_all in X; eapply Forall_impl; [exact X|] end.
    intros [k spec] K v sp wanted Fk Es W _. cbn [fst snd] in *. subst spec. rewrite Fk in K. cbn [json_valid] in K. rewrite W in K. by apply andb_true_iff in K as [K _].
Qed.

(** C21: The check decides what it is there to decide: when the tool's declared schema admits an arguments object and the check does not
    raise, no violation is reported exactly when the three statements it enforces hold, types being those of JSON Schema (a bool is no number, a whole
    float is an integer); at most sixteen violations are; and a call that is valid under the schema, as JSON
    Schema reads these keywords at every level, is never refused, unless the schema has patterns for its names. *)
Theorem schema_check_exact schema arguments required vs :
  admits_object (get_field "type" schema) = true -> required_names schema = Some required ->
  schema_violations schema arguments = Some vs ->
  (vs = [] <-> checked_statements schema required arguments) /\ (length vs <= 16)%nat /\
  (has_key (points "patternProperties") schema = false -> json_valid (VObj schema) (VObj arguments) = true -> vs = []).
Proof.
  intros A R V. assert (Ex : vs = [] <-> checked_statements schema required arguments).
  { revert V. unfold schema_violations. rewrite A, R. cbn [negb]. unfold mbind, option_bind.
    destruct (property_violations arguments (known_of schema)) as [typed|] eqn:P; [|done]. intros [= <-].
    assert (T : forall l : list Violation, take 16 l = [] <-> l = []) by (by intros []).
    rewrite T. split.
    - intros [M [U ->]%app_eq_nil]%app_eq_nil. split.
      + apply map_filter_nil in M. eapply Forall_impl; [done|]. intros k K. unfold has_key in K.
        case_bool_decide; [done|by destruct K].
      + intros C. unfold undeclared in U. rewrite C in U. apply map_filter_nil in U. eapply Forall_impl; [done|].
        intros k K. unfold has_key in K. repeat case_bool_decide; tauto.
      + by apply (property_violations_nil _ _ _ P).
    - intros [M U F]. apply (property_violations_nil _ _ _ P) in F as ->. rewrite app_nil_r.
      unfold missing. rewrite (proj2 (map_filter_nil _ _ required)).
      2:{ eapply Forall_impl; [done|]. intros k K. unfold has_key. by rewrite bool_decide_true. }
      cbn [app]. unfold undeclared. destruct (is_closed schema); [|done]. apply map_filter_nil.
      eapply Forall_impl; [by apply U|]. intros k K. unfold has_key. intros [X Y]. bool_prop. by destruct K. }
  split_and!; [exact Ex| |intros Np J; by apply Ex, valid_statements].
  revert V. unfold schema_violations. rewrite A, R. cbn [negb]. unfold mbind, option_bind.
  destruct (property_violations _ _); [|done]. intros [= <-]. rewrite length_take. lia.
Qed.

(** A constraint the check does not read goes without a note: with [enum], [pattern], bounds or nested properties alone the schema counts as
    enforced in full, and a call outside them is accepted. *)
Example unread_without_note :
  let schema := [(points "type", str "object");
                 (points "properties", obj [("mode", obj [("type", str "string"); ("enum", VArr [str "read"])]);
                                            ("at", obj [("type", str "object"); ("properties", obj [("id", obj [("type", str "integer")])])])])] in
  let arguments := [(points "mode", str "write"); (points "at", obj [("id", str "x")])] in
  schema_enforceability schema = [] /\ schema_violations schema arguments = Some [] /\ json_valid (VObj schema) (VObj arguments) = false.
Proof. cbv zeta. split_and!; vm_compute; reflexivity. Qed.

(** A declaration the check cannot read makes it raise: a [required] that is a number, a type name that is an
    object, or a mismatched type next to a type name that is no string. *)
Theorem unreadable_schema_raises :
  schema_violations [(points "required", VInt 1)] [] = None /\
  schema_violations [(points "properties", obj [("q", obj [("type", VArr [obj []])])])] [(points "q", str "x")] = None /\
  schema_violations [(points "properties", obj [("q", obj [("type", VArr [str "integer"; VNull])])])] [(points "q", str "x")]
    = None.
Proof. split_and!; reflexivity. Qed.

(** A tool that declares one required string and nothing else. *)
Example schema_check_exact_witness :
  let schema := [(points "type", str "object"); (points "required", VArr [str "q"]);
                 (points "properties", obj [("q", obj [("type", VArr [str "string"; str "null"])])]);
                 (points "additionalProperties", VBool false)] in
  schema_violations schema [(points "q", str "x")] = Some [] /\
  checked_statements schema [points "q"] [(points "q", str "x")] /\
  schema_violations schema [(points "p", VInt 1); (points "q", VInt 1)] =
    Some [UndeclaredArgument (points "p"); WrongType (points "q") [points "string"; points "null"]].
Proof.
  cbv zeta. split_and!; [reflexivity| |reflexivity].
  match goal with |- checked_statements ?s ?r ?a => apply (proj1 (schema_check_exact s a r [] eq_refl eq_refl eq_refl)); reflexivity end.
Defined.
