(* ===== verification/ParamPaths.v ===== *)
(** * The paths of a call's arguments ([engine/evaluator.py]: [_walk_paths], [_mints_a_path], [_fold_path])

    A policy names an argument by a dotted path, [message.to[0]].  The walk publishes a map from paths to
    the strings found there, and the paths it would not vouch for.  The theorems are about what a caller
    can do with the keys it chooses: it cannot make a path that is vouched for say something else than what
    the tool receives there, and an ordinary call is not doubted. *)

From stdpp Require Import sorting.
From S2P Require Import Prelude.
From S2P Require Import Text.
From S2P Require Import Json.
From S2P Require Import JsonParse.

Definition MAX_PATH_DEPTH : Z := 12.
Definition MAX_PATHS : nat := 256.
Definition MAX_PATH_KEY_LEN : nat := 256.
Definition MAX_PATH_VALUE_LEN : nat := N.to_nat 4096.

(** The characters the path grammar uses: a dot and the brackets ([_PATH_HEAD_RE]). *)
Definition is_structural (c : Z) : bool := (c =? 46) || (c =? 91) || (c =? 93).

(** [_PATH_HEAD_RE.split(key, 1)[0]]. *)
Definition path_head (key : text) : text := take_while (fun c => negb (is_structural c)) key.

(** [_mints_a_path]. *)
Definition mints_a_path (key : text) (siblings : list text) : bool :=
  if bool_decide (key = []) then true
  else if bool_decide (path_head key = key) then false
  else bool_decide (path_head key ∈ siblings).

Definition child_prefix (prefix key : text) : text := if bool_decide (prefix = []) then key else prefix ++ 46 :: key.
Definition index_prefix (prefix : text) (i : nat) : text := prefix ++ 91 :: dump_int (Z.of_nat i) ++ [93].

(** The map built so far, and the paths in doubt. *)
Record Paths := { out : list (text * text); doubted : list text }.

Definition full (s : Paths) : bool := (MAX_PATHS <=? length (out s))%nat.

(** A string leaf at a path. *)
Definition leaf (prefix : text) (forged : bool) (v : text) (s : Paths) : Paths :=
  let clipped := take MAX_PATH_VALUE_LEN v in
  let clash := match field prefix (out s) with Some w => negb (bool_decide (w = clipped)) | None => false end in
  let cut := forged || (MAX_PATH_VALUE_LEN <? length v)%nat in
  {| out := put_field prefix clipped (out s); doubted := doubted s ++ (if clash then [prefix] else []) ++ (if cut then [prefix] else []) |}.

(** The loop over the members of an object, and over the elements of a list. *)
Section Loops.
Context (walk : value -> text -> Z -> bool -> Paths -> Paths).

Fixpoint walk_members (siblings : list text) (prefix : text) (depth : Z) (forged : bool) (fs : list (text * value)) (s : Paths) : Paths :=
  match fs with
  | [] => s
  | (key, child) :: fs' =>
      if full s then s
      else
        let cp := child_prefix prefix key in
        let s' := walk child (take MAX_PATH_KEY_LEN cp) (depth + 1) (forged || mints_a_path key siblings || (MAX_PATH_KEY_LEN <? length cp)%nat) s in
        walk_members siblings prefix depth forged fs' s'
  end.

Fixpoint walk_elements (prefix : text) (depth : Z) (forged : bool) (i : nat) (l : list value) (s : Paths) : Paths :=
  match l with
  | [] => s
  | child :: l' => if full s then s else walk_elements prefix depth forged (S i) l' (walk child (index_prefix prefix i) (depth + 1) forged s)
  end.
End Loops.

Fixpoint walk (v : value) (prefix : text) (depth : Z) (forged : bool) (s : Paths) : Paths :=
  if full s || (MAX_PATH_DEPTH <? depth) then s
  else match v with
       | VObj fs => walk_members walk fs.*1 prefix depth forged fs s
       | VArr l => walk_elements walk prefix depth forged 0 l s
       | VStr t => if bool_decide (prefix = []) then s else leaf prefix forged t s
       | _ => s
       end.

Section Twins.
Context (skeleton : text -> text).

(** [_fold_path]. *)
Definition fold_path (p : text) : text := if forallb (fun c => c <? 128) p then lower p else skeleton p.

(** The loop over [out]: paths that read alike. *)
Fixpoint twins (paths : list text) (folded : list (text * text)) : list text :=
  match paths with
  | [] => []
  | p :: ps =>
      match field (fold_path p) folded with
      | Some t => (if bool_decide (t = p) then [] else [p; t]) ++ twins ps folded
      | None => twins ps (put_field (fold_path p) p folded)
      end
  end.

(** [_walk_paths]: the map, and the doubted paths sorted and without repetition. *)
Definition walk_paths (params : value) : list (text * text) * list text :=
  let s := walk params [] 0 false {| out := []; doubted := [] |} in
  (out s, merge_sort text_le (remove_dups (doubted s ++ twins (out s).*1 []))).

(** ** What the map says of the arguments *)

(** A position in the arguments. *)
Inductive Seg := Key (k : text) | Index (i : nat).

Fixpoint value_at (segs : list Seg) (v : value) : option value :=
  match segs, v with
  | [], _ => Some v
  | Key k :: segs', VObj fs => child ← field k fs; value_at segs' child
  | Index i :: segs', VArr l => child ← l !! i; value_at segs' child
  | _, _ => None
  end.

(** The path an operator sees for it. *)
Fixpoint render (prefix : text) (segs : list Seg) : text :=
  match segs with
  | [] => prefix
  | Key k :: segs' => render (child_prefix prefix k) segs'
  | Index i :: segs' => render (index_prefix prefix i) segs'
  end.

(** A name without path syntax. *)
Definition plain (k : text) : Prop := k <> [] /\ Forall (fun c => is_structural c = false) k.
Definition plain_seg (g : Seg) : Prop := match g with Key k => plain k | Index _ => True end.

(** Objects as Python has them: no key twice. *)
Inductive dict_like : value -> Prop :=
  | dl_obj fs : NoDup fs.*1 -> Forall (fun f => dict_like f.2) fs -> dict_like (VObj fs)
  | dl_arr l : Forall dict_like l -> dict_like (VArr l)
  | dl_str t : dict_like (VStr t)
  | dl_null : dict_like VNull
  | dl_bool b : dict_like (VBool b)
  | dl_int n : dict_like (VInt n)
  | dl_float d : dict_like (VFloat d).

(** The leaves the walk can come to from a node, with the path and the doubt it has there. *)
Inductive reaches : value -> text -> bool -> text -> bool -> text -> Prop :=
  | reach_leaf p f t : p <> [] -> reaches (VStr t) p f p f t
  | reach_member fs prefix f key child p f' t :
      (key, child) ∈ fs ->
      reaches child (take MAX_PATH_KEY_LEN (child_prefix prefix key))
        (f || mints_a_path key fs.*1 || (MAX_PATH_KEY_LEN <? length (child_prefix prefix key))%nat) p f' t ->
      reaches (VObj fs) prefix f p f' t
  | reach_element l prefix f i child p f' t :
      l !! i = Some child -> reaches child (index_prefix prefix i) f p f' t -> reaches (VArr l) prefix f p f' t.

(** What a step adds comes from a leaf it can reach, and what is cut or forged is doubted. *)
Definition explained (from : text -> bool -> text -> Prop) (s s' : Paths) : Prop :=
  (forall p, p ∈ doubted s -> p ∈ doubted s') /\
  (forall p w, field p (out s') = Some w -> field p (out s) = Some w \/
     exists f t, from p f t /\ w = take MAX_PATH_VALUE_LEN t /\ (f || (MAX_PATH_VALUE_LEN <? length t)%nat = true -> p ∈ doubted s')).

Lemma explained_refl from s : explained from s s.
Proof. split; [done|]. by left. Qed.

Lemma explained_trans from s s1 s2 : explained from s s1 -> explained from s1 s2 -> explained from s s2.
Proof.
  intros [D1 O1] [D2 O2]. split; [auto|]. intros p w F. apply O2 in F as [F|(f & t & R & W & C)]; [|right; by exists f, t].
  apply O1 in F as [F|(f & t & R & W & C)]; [by left|]. right. exists f, t. auto.
Qed.

Lemma explained_mono (from from' : text -> bool -> text -> Prop) s s' :
  (forall p f t, from p f t -> from' p f t) -> explained from s s' -> explained from' s s'.
Proof.
  intros I [D O]. split; [done|]. intros p w F. apply O in F as [F|(f & t & R & W & C)]; [by left|]. right. exists f, t. auto.
Qed.

Lemma leaf_explained prefix f t s : prefix <> [] -> explained (reaches (VStr t) prefix f) s (leaf prefix f t s).
Proof.
  intros N. unfold leaf. split; [intros p I; cbn [doubted]; apply elem_of_app; by left|]. cbn [out doubted]. intros p w.
  rewrite field_put. case_bool_decide as E; [subst p|by left]. intros [= <-]. right. exists f, t.
  split_and!; [by constructor|done|]. intros ->. apply elem_of_app. right. apply elem_of_app. right. by left.
Qed.

(** The loops, given what the walk does to each child. *)
Lemma members_explained all prefix depth f fs s :
  (forall f0, f0 ∈ fs -> forall p d b s0, explained (reaches f0.2 p b) s0 (walk f0.2 p d b s0)) -> fs ⊆ all ->
  explained (reaches (VObj all) prefix f) s (walk_members walk all.*1 prefix depth f fs s).
Proof.
  revert s. induction fs as [|[key child] fs IH]; intros s W Sub; cbn [walk_members]; [apply explained_refl|].
  destruct (full s); [apply explained_refl|]. eapply explained_trans; [|apply IH].
  - eapply explained_mono; [|apply (W (key, child)); by left]. intros p b t R. eapply reach_member; [|exact R]. apply Sub. by left.
  - intros f0 I. apply W. by right.
  - intros x I. apply Sub. by right.
Qed.

Lemma elements_explained all prefix depth f l i s :
  (forall v, v ∈ l -> forall p d b s0, explained (reaches v p b) s0 (walk v p d b s0)) -> (forall j v, l !! j = Some v -> all !! (i + j)%nat = Some v) ->
  explained (reaches (VArr all) prefix f) s (walk_elements walk prefix depth f i l s).
Proof.
  revert i s. induction l as [|child l IH]; intros i s W Sub; cbn [walk_elements]; [apply explained_refl|].
  destruct (full s); [apply explained_refl|]. eapply explained_trans; [|apply IH].
  - eapply explained_mono; [|apply (W child); by left]. intros p b t R. eapply reach_element; [|exact R].
    rewrite <- (Nat.add_0_r i). by apply Sub.
  - intros v I. apply W. by right.
  - intros j v E. replace (S i + j)%nat with (i + S j)%nat by lia. by apply Sub.
Qed.

Lemma walk_explained v : forall prefix depth f s, explained (reaches v prefix f) s (walk v prefix depth f s).
Proof.
  induction v as [|b|n|d|t|l IH|fs IH] using value_ind'; intros prefix depth f s; cbn [walk]; (destruct (_ || _); [apply explained_refl|]);
    try apply explained_refl.
  - case_bool_decide; [apply explained_refl|by apply leaf_explained].
  - apply elements_explained; [|done]. rewrite Forall_forall in IH. intros v I p d b s0. by apply IH.
  - apply members_explained; [|done]. rewrite Forall_forall in IH. intros f0 I p d b s0. by apply IH.
Qed.

(** Doubt is inherited. *)
Lemma reaches_forged v prefix p f t : reaches v prefix true p f t -> f = true.
Proof. intros R. remember true as b. induction R; subst; auto. Qed.

(** A path extends the prefix it was reached from by more path syntax, or not at all. *)
Definition extends_path (p q : text) : Prop := q = p \/ exists c r, is_structural c = true /\ q = p ++ c :: r.

Lemma extends_path_child prefix key q : prefix <> [] -> extends_path (child_prefix prefix key) q -> extends_path prefix q.
Proof.
  intros N. unfold child_prefix. rewrite bool_decide_false by done. intros [->|(c & r & S & ->)]; right; exists 46.
  - by exists key.
  - exists (key ++ c :: r). split; [done|]. by rewrite <- app_assoc.
Qed.

Lemma extends_path_index prefix i q : extends_path (index_prefix prefix i) q -> extends_path prefix q.
Proof.
  unfold index_prefix. intros [->|(c & r & S & ->)]; right; exists 91; [by eexists|].
  eexists. split; [done|]. rewrite <- app_assoc. cbn. done.
Qed.

Lemma reaches_extends v prefix p f t : reaches v prefix f p false t -> prefix <> [] -> extends_path prefix p.
Proof.
  intros R. remember false as f' eqn:E. induction R as [p f t|fs prefix f key child p f' t I R IH|l prefix f i child p f' t L R IH]; intros N; subst.
  - by left.
  - assert (B : f || mints_a_path key fs.*1 || (MAX_PATH_KEY_LEN <? length (child_prefix prefix key))%nat = false).
    { destruct (_ || _ || _); [|done]. by apply reaches_forged in R. }
    apply orb_false_iff in B as [_ B]. apply Nat.ltb_ge in B. rewrite take_ge in IH by lia.
    eapply extends_path_child; [done|]. apply IH; [done|]. unfold child_prefix. rewrite bool_decide_false by done. by destruct prefix.
  - eapply extends_path_index. apply IH; [done|]. unfold index_prefix. by destruct prefix.
Qed.

Lemma render_extends segs : forall prefix, prefix <> [] -> extends_path prefix (render prefix segs).
Proof.
  induction segs as [|[k|i] segs IH]; intros prefix N; cbn [render]; [by left| |].
  - eapply extends_path_child; [done|]. apply IH. unfold child_prefix. rewrite bool_decide_false by done. by destruct prefix.
  - eapply extends_path_index. apply IH. unfold index_prefix. by destruct prefix.
Qed.


Lemma path_head_app k x : x = [] \/ (exists c r, is_structural c = true /\ x = c :: r) -> path_head (k ++ x) = path_head k.
Proof.
  unfold path_head. intros X. induction k as [|c k IH]; cbn [app take_while].
  - destruct X as [->|(c & r & S & ->)]; [done|]. cbn [take_while]. by rewrite S.
  - destruct (negb (is_structural c)); [by rewrite IH|done].
Qed.

Lemma path_head_plain k : plain k -> path_head k = k.
Proof.
  intros [_ F]. unfold path_head. induction F as [|c k S F IH]; cbn [take_while]; [done|]. by rewrite S, IH.
Qed.

(** Two keys that can begin one path from the same object have the same head. *)
Lemma same_head prefix k k' p :
  extends_path (child_prefix prefix k) p -> extends_path (child_prefix prefix k') p -> path_head k = path_head k'.
Proof.
  assert (A : forall k0, extends_path (child_prefix prefix k0) p -> exists x, p = (if bool_decide (prefix = []) then [] else prefix ++ [46]) ++ k0 ++ x /\
    (x = [] \/ exists c r, is_structural c = true /\ x = c :: r)).
  { intros k0. unfold child_prefix. case_bool_decide; intros [->|(c & r & S & ->)]; cbn [app].
    - exists []. rewrite app_nil_r. auto.
    - exists (c :: r). eauto 6.
    - exists []. rewrite app_nil_r, <- app_assoc. auto.
    - exists (c :: r). rewrite <- !app_assoc. eauto 6. }
  intros (x & E & X)%A (x' & E' & X')%A. rewrite E in E'. apply app_inv_head in E'.
  by rewrite <- (path_head_app k x X), <- (path_head_app k' x' X'), E'.
Qed.

Lemma index_prefix_inj prefix i j x y : index_prefix prefix i ++ x = index_prefix prefix j ++ y -> i = j.
Proof.
  unfold index_prefix. rewrite <- !app_assoc. intros E%app_inv_head. cbn [app] in E. injection E as E.
  rewrite <- !app_assoc in E. cbn [app] in E.
  assert (N : forall n, 93 ∉ dump_int n).
  { intros n I%list_elem_of_In. pose proof (dump_int_like n) as L. unfold int_like in L. rewrite forallb_forall in L. by apply L in I. }
  apply split_unique in E as [E _]; [|apply N..]. apply dump_int_inj in E. lia.
Qed.

Lemma same_index prefix i j p : extends_path (index_prefix prefix i) p -> extends_path (index_prefix prefix j) p -> i = j.
Proof.
  assert (A : forall n, extends_path (index_prefix prefix n) p -> exists x, p = index_prefix prefix n ++ x).
  { intros n [->|(c & r & _ & ->)]; [exists []; by rewrite app_nil_r|by eexists]. }
  intros [x E]%A [y E']%A. rewrite E in E'. by eapply index_prefix_inj.
Qed.

(** A leaf reached without doubt under the path of a plain position is the one at that position. *)
Lemma reaches_position segs : forall v prefix t s,
  dict_like v -> Forall plain_seg segs -> value_at segs v = Some (VStr s) -> reaches v prefix false (render prefix segs) false t -> t = s.
Proof.
  induction segs as [|[k|i] segs IH]; intros v prefix t s D Pl V R; cbn [value_at render] in *.
  - injection V as ->. by inversion R.
  - destruct v as [| | | | | |fs]; try done. apply Forall_cons in Pl as [[Nk Fk] Pl].
    destruct (field k fs) as [c|] eqn:Fc; [|done]. cbn [mbind option_bind] in V. inversion D as [? ND Ds| | | | | |]; subst.
    inversion R as [|? ? ? key child ? ? ? I R'|]; subst.
    cbn [orb] in R'. assert (B : mints_a_path key fs.*1 || (MAX_PATH_KEY_LEN <? length (child_prefix prefix key))%nat = false).
    { destruct (_ || _); [|done]. by apply reaches_forged in R'. }
    rewrite B in R'. apply orb_false_iff in B as [M L]. apply Nat.ltb_ge in L. rewrite take_ge in R' by lia.
    assert (Ne : forall x, x <> [] -> child_prefix prefix x <> []).
    { intros x Nx. unfold child_prefix. case_bool_decide; [done|]. by destruct prefix. }
    unfold mints_a_path in M. case_bool_decide as K0; [done|].
    assert (Hd : path_head k = path_head key).
    { eapply same_head; [apply render_extends, Ne, Nk|]. eapply reaches_extends; [exact R'|by apply Ne]. }
    rewrite (path_head_plain k) in Hd by done. case_bool_decide as Kp.
    + rewrite <- Hd in Kp. subst key. assert (child = c) as ->.
      { pose proof (elem_field k child fs ND I). congruence. }
      eapply IH; [|done|exact V|exact R']. rewrite Forall_forall in Ds. by apply (Ds (k, c)).
    + case_bool_decide as Ks; [done|]. destruct Ks. rewrite <- Hd. apply field_key. by eexists.
  - destruct v as [| | | | |l|]; try done. apply Forall_cons in Pl as [_ Pl]. destruct (l !! i) as [c|] eqn:Lc; [|done].
    cbn [mbind option_bind] in V. inversion D as [|? Ds| | | | |]; subst. inversion R as [| |? ? ? j child ? ? ? Lj R']; subst.
    assert (i = j) as <-.
    { assert (Ne : forall n, index_prefix prefix n <> []) by (intros n; unfold index_prefix; by destruct prefix).
      eapply same_index; [apply render_extends, Ne|]. eapply reaches_extends; [exact R'|apply Ne]. }
    assert (child = c) as -> by congruence. eapply IH; [|done|exact V|exact R']. rewrite Forall_forall in Ds. apply Ds. by eapply list_elem_of_lookup_2.
Qed.

(** The value of a path that is not in doubt. *)
Lemma vouched_value params segs s w :
  dict_like params -> Forall plain_seg segs -> value_at segs params = Some (VStr s) ->
  field (render [] segs) (walk_paths params).1 = Some w -> render [] segs ∉ (walk_paths params).2 -> w = s.
Proof.
  intros D Pl V F N. unfold walk_paths in *. cbn [fst snd] in *.
  set (st := walk params [] 0 false _) in *.
  assert (Nd : render [] segs ∉ doubted st).
  { intros I. apply N. rewrite merge_sort_Permutation, elem_of_remove_dups. apply elem_of_app. by left. }
  destruct (walk_explained params [] 0 false {| out := []; doubted := [] |}) as [_ O]. fold st in O.
  apply O in F as [F|(f & t & R & -> & C)]; [done|]. destruct f; [by destruct Nd; apply C|].
  destruct (MAX_PATH_VALUE_LEN <? length t)%nat eqn:L; [by destruct Nd; apply C|]. apply Nat.ltb_ge in L.
  rewrite take_ge by lia. by eapply reaches_position.
Qed.

(** C23: A path that is vouched for says what the tool receives: take any position of the arguments named by plain keys and
    indices, and the path an operator sees for it.  If the map has that path and does not doubt it, the map's
    value is the string at that very position, whatever other keys the caller put anywhere in the call. *)
Theorem vouched_path_is_the_value params segs s w :
  dict_like params -> Forall plain_seg segs -> value_at segs params = Some (VStr s) ->
  field (render [] segs) (walk_paths params).1 = Some w -> render [] segs ∉ (walk_paths params).2 -> w = s.
Proof. apply vouched_value. Qed.

(** ** An ordinary call is not doubted *)

(** Every key is a plain name. *)
Inductive plain_keys : value -> Prop :=
  | pk_obj fs : Forall (fun f => plain f.1) fs -> Forall (fun f => plain_keys f.2) fs -> plain_keys (VObj fs)
  | pk_arr l : Forall plain_keys l -> plain_keys (VArr l)
  | pk_str t : plain_keys (VStr t)
  | pk_null : plain_keys VNull
  | pk_bool b : plain_keys (VBool b)
  | pk_int n : plain_keys (VInt n)
  | pk_float d : plain_keys (VFloat d).

(** Nothing is cut: every path and every string fits. *)
Definition fits (prefix : text) (v : value) : Prop :=
  forall segs c, Forall plain_seg segs -> value_at segs v = Some c ->
  (length (render prefix segs) <= MAX_PATH_KEY_LEN)%nat /\ forall t, c = VStr t -> (length t <= MAX_PATH_VALUE_LEN)%nat.

Lemma plain_not_minted k siblings : plain k -> mints_a_path k siblings = false.
Proof.
  intros P. unfold mints_a_path. rewrite bool_decide_false by (by destruct P). rewrite bool_decide_true; [done|]. by apply path_head_plain.
Qed.

Lemma reaches_plain v prefix f p f' t : reaches v prefix f p f' t -> dict_like v -> plain_keys v -> fits prefix v ->
  f' = f /\ exists segs, Forall plain_seg segs /\ value_at segs v = Some (VStr t) /\ p = render prefix segs.
Proof.
  intros R. induction R as [p f t N|fs prefix f key child p f' t I R IH|l prefix f i child p f' t L R IH]; intros D K F.
  - split; [done|]. by exists [].
  - inversion K as [? Kk Kc| | | | | |]; subst. inversion D as [? ND Dc| | | | | |]; subst. rewrite Forall_forall in Kk, Kc, Dc.
    pose proof (Kk _ I) as Pk. cbn [fst] in Pk.
    assert (Fi : field key fs = Some child) by (by apply elem_field).
    assert (Le : (length (child_prefix prefix key) <= MAX_PATH_KEY_LEN)%nat).
    { destruct (F [Key key] child) as [Le _]; [by apply Forall_singleton|cbn [value_at]; by rewrite Fi|exact Le]. }
    rewrite (plain_not_minted key) in IH by done. rewrite (proj2 (Nat.ltb_ge _ _) Le), take_ge, !orb_false_r in IH by lia.
    destruct IH as [-> (segs & Ps & V & ->)]; [by apply (Dc (key, child))|by apply (Kc (key, child))| |].
    { intros segs c Ps V. apply (F (Key key :: segs) c); [by constructor|]. cbn [value_at]. by rewrite Fi. }
    split; [done|]. exists (Key key :: segs). split_and!; [by constructor| |done]. cbn [value_at]. by rewrite Fi.
  - inversion K as [|? Kc| | | | |]; subst. inversion D as [|? Dc| | | | |]; subst. rewrite Forall_forall in Kc, Dc.
    pose proof (list_elem_of_lookup_2 _ _ _ L) as I.
    destruct IH as [-> (segs & Ps & V & ->)]; [by apply Dc|by apply Kc| |].
    { intros segs c Ps V. apply (F (Index i :: segs) c); [by constructor|]. cbn [value_at]. by rewrite L. }
    split; [done|]. exists (Index i :: segs). split_and!; [by constructor| |done]. cbn [value_at]. by rewrite L.
Qed.

(** *** The walk over leaves none of which is in doubt *)

Section Undoubted.
Context (root : text -> bool -> text -> Prop).
Context (root_clear : forall p f t, root p f t -> f = false /\ (length t <= MAX_PATH_VALUE_LEN)%nat).
Context (root_one : forall p f t f' t', root p f t -> root p f' t' -> t = t').

Definition clear (s : Paths) : Prop := doubted s = [] /\ forall p w, field p (out s) = Some w -> exists f, root p f w.

Lemma leaf_clear p f t s : root p f t -> clear s -> clear (leaf p f t s).
Proof.
  intros R [D O]. destruct (root_clear _ _ _ R) as [-> L]. unfold leaf. rewrite take_ge by done. split; cbn [doubted out].
  - rewrite D, (proj2 (Nat.ltb_ge _ _) L). cbn [orb app]. rewrite app_nil_r. destruct (field p (out s)) as [w|] eqn:F; [|done].
    apply O in F as [f' R']. by rewrite bool_decide_true by (by eapply root_one).
  - intros q w. rewrite field_put. case_bool_decide as E; [|apply O]. intros [= <-]. subst. by eexists.
Qed.

Lemma members_clear all prefix depth f fs s :
  (forall f0, f0 ∈ fs -> forall p d b s0, (forall q b' t, reaches f0.2 p b q b' t -> root q b' t) -> clear s0 -> clear (walk f0.2 p d b s0)) ->
  fs ⊆ all -> (forall q b' t, reaches (VObj all) prefix f q b' t -> root q b' t) -> clear s ->
  clear (walk_members walk all.*1 prefix depth f fs s).
Proof.
  revert s. induction fs as [|[key child] fs IH]; intros s W Sub Rt C; cbn [walk_members]; [done|]. destruct (full s); [done|].
  apply IH; [intros f0 I; apply W; by right|intros x I; apply Sub; by right|done|].
  apply (W (key, child)); [by left| |done]. intros q b' t R. apply Rt. eapply reach_member; [|exact R]. apply Sub. by left.
Qed.

Lemma elements_clear all prefix depth f l i s :
  (forall v, v ∈ l -> forall p d b s0, (forall q b' t, reaches v p b q b' t -> root q b' t) -> clear s0 -> clear (walk v p d b s0)) ->
  (forall j v, l !! j = Some v -> all !! (i + j)%nat = Some v) -> (forall q b' t, reaches (VArr all) prefix f q b' t -> root q b' t) -> clear s ->
  clear (walk_elements walk prefix depth f i l s).
Proof.
  revert i s. induction l as [|child l IH]; intros i s W Sub Rt C; cbn [walk_elements]; [done|]. destruct (full s); [done|].
  apply IH; [intros v I; apply W; by right| |done|].
  - intros j v E. replace (S i + j)%nat with (i + S j)%nat by lia. by apply Sub.
  - apply (W child); [by left| |done]. intros q b' t R. apply Rt. eapply reach_element; [|exact R].
    rewrite <- (Nat.add_0_r i). by apply Sub.
Qed.

Lemma walk_clear v : forall prefix depth f s, (forall q b' t, reaches v prefix f q b' t -> root q b' t) -> clear s -> clear (walk v prefix depth f s).
Proof.
  induction v as [|b|n|d|t|l IH|fs IH] using value_ind'; intros prefix depth f s Rt C; cbn [walk]; (destruct (_ || _); [done|]); try done.
  - case_bool_decide as E; [done|]. apply leaf_clear; [|done]. apply Rt. by constructor.
  - apply (elements_clear l); [|done|done|done]. rewrite Forall_forall in IH. intros v I p d b s0. by apply IH.
  - apply members_clear; [|done|done|done]. rewrite Forall_forall in IH. intros f0 I p d b s0. by apply IH.
Qed.
End Undoubted.

Lemma twins_nil paths : forall folded,
  (forall p, p ∈ paths -> match field (fold_path p) folded with Some t => t = p | None => True end) ->
  (forall p q, p ∈ paths -> q ∈ paths -> fold_path p = fold_path q -> p = q) -> twins paths folded = [].
Proof.
  induction paths as [|p ps IH]; intros folded Fo In; cbn [twins]; [done|].
  assert (In' : forall p0 q, p0 ∈ ps -> q ∈ ps -> fold_path p0 = fold_path q -> p0 = q) by (intros ? ? I1 I2; apply In; by right).
  pose proof (Fo p ltac:(by left)) as Fp. destruct (field (fold_path p) folded) as [t|].
  - subst t. rewrite bool_decide_true by done. apply IH; [|done]. intros q I. apply Fo. by right.
  - apply IH; [|done]. intros q I. rewrite field_put. case_bool_decide as E; [|apply Fo; by right].
    apply In; [by left|by right|done].
Qed.

(** An ordinary call is not doubted: with plain keys, nothing cut off, and no two paths that read alike, the walk doubts no
    path. *)
Theorem ordinary_call_not_doubted params :
  dict_like params -> plain_keys params -> fits [] params ->
  (forall p q, p ∈ (walk_paths params).1.*1 -> q ∈ (walk_paths params).1.*1 -> fold_path p = fold_path q -> p = q) ->
  (walk_paths params).2 = [].
Proof.
  intros D K F Tw. unfold walk_paths in *. cbn [fst snd] in *. set (st := walk params [] 0 false _) in *.
  assert (C : clear (fun p f t => reaches params [] false p f t) st).
  { apply walk_clear; [..|done|split; [done|by intros]].
    - intros p f t R. destruct (reaches_plain _ _ _ _ _ _ R D K F) as [-> (segs & Ps & V & _)]. split; [done|]. by apply (F segs (VStr t)).
    - intros p f t f' t' R R'. destruct (reaches_plain _ _ _ _ _ _ R D K F) as [-> _].
      destruct (reaches_plain _ _ _ _ _ _ R' D K F) as [-> (segs & Ps & V & ->)]. by eapply reaches_position. }
  destruct C as [-> _]. rewrite twins_nil; [done|done|done].
Qed.

(** ** Within the bounds, every string is published *)

Fixpoint strings (v : value) : nat :=
  match v with
  | VStr _ => 1
  | VArr l => list_sum (map strings l)
  | VObj fs => list_sum (map (fun f => strings f.2) fs)
  | _ => 0
  end.

Lemma list_sum_elem (l : list nat) n : n ∈ l -> (n <= list_sum l)%nat.
Proof. induction l as [|m l IH]; intros I; [by apply elem_of_nil in I|].
  change (list_sum (m :: l)) with (m + list_sum l)%nat. apply elem_of_cons in I as [->|I]; [lia|]. apply IH in I. lia. Qed.

Lemma reaches_strings v prefix f p f' t : reaches v prefix f p f' t -> (0 < strings v)%nat.
Proof.
  induction 1 as [|fs prefix f key child p f' t I R IH|l prefix f i child p f' t L R IH]; cbn [strings]; [lia| |].
  - eapply Nat.lt_le_trans; [exact IH|]. apply list_sum_elem, list_elem_of_In, in_map_iff. exists (key, child). split; [done|by apply list_elem_of_In].
  - eapply Nat.lt_le_trans; [exact IH|]. apply list_sum_elem, list_elem_of_In, in_map_iff. exists child. split; [done|].
    by apply list_elem_of_lookup_2, list_elem_of_In in L.
Qed.

(** A step publishes the paths of [from], keeps those there were, and counts at most [n]. *)
Definition publishes (from : text -> Prop) (n : nat) (s s' : Paths) : Prop :=
  (forall p, from p -> p ∈ (out s').*1) /\ (forall p, p ∈ (out s).*1 -> p ∈ (out s').*1) /\ (length (out s') <= length (out s) + n)%nat.

Definition reached_from (v : value) (prefix : text) (f : bool) (p : text) : Prop := exists f' t, reaches v prefix f p f' t.

(** What holds of the walk of one node. *)
Definition publishing (v : value) : Prop := forall prefix depth f s,
  depth + Z.of_nat (JsonParse.depth v) <= MAX_PATH_DEPTH -> (length (out s) + strings v <= MAX_PATHS)%nat ->
  publishes (reached_from v prefix f) (strings v) s (walk v prefix depth f s).

Lemma full_publishes (from : text -> Prop) n s : full s = true -> (length (out s) + n <= MAX_PATHS)%nat -> (forall p, from p -> (0 < n)%nat) -> publishes from n s s.
Proof. intros F L P. unfold full in F. apply Nat.leb_le in F. split_and!; [|done|lia]. intros p I. apply P in I. lia. Qed.

Lemma leaf_publishes prefix f t s : publishes (reached_from (VStr t) prefix f) 1 s (leaf prefix f t s).
Proof.
  unfold leaf, publishes. cbn [out]. rewrite put_field_keys. split_and!.
  - intros p (f' & t' & R). inversion R; subst. case_bool_decide; [done|]. apply elem_of_snoc.
  - intros p I. case_bool_decide; [done|]. apply elem_of_app. by left.
  - rewrite <- (length_fmap fst), put_field_keys. case_bool_decide; rewrite ?length_app, length_fmap; cbn; lia.
Qed.

Lemma publishes_step (from1 from2 : text -> Prop) n1 n2 s s1 s2 :
  publishes from1 n1 s s1 -> publishes from2 n2 s1 s2 -> publishes (fun p => from1 p \/ from2 p) (n1 + n2) s s2.
Proof. intros (P1 & K1 & L1) (P2 & K2 & L2). split_and!; [intros p [I|I]; auto|auto|lia]. Qed.

Lemma publishes_mono (from from' : text -> Prop) n s s' : (forall p, from' p -> from p) -> publishes from n s s' -> publishes from' n s s'.
Proof. intros I (P & K & L). split_and!; auto. Qed.

Lemma members_publish all prefix depth f fs : Forall (fun f0 => publishing f0.2) fs -> forall s,
  (forall f0, f0 ∈ fs -> depth + 1 + Z.of_nat (JsonParse.depth f0.2) <= MAX_PATH_DEPTH) ->
  (length (out s) + list_sum (map (fun f0 => strings f0.2) fs) <= MAX_PATHS)%nat ->
  publishes (fun p => exists key child, (key, child) ∈ fs /\ reached_from child (take MAX_PATH_KEY_LEN (child_prefix prefix key))
      (f || mints_a_path key all || (MAX_PATH_KEY_LEN <? length (child_prefix prefix key))%nat) p)
    (list_sum (map (fun f0 => strings f0.2) fs)) s (walk_members walk all prefix depth f fs s).
Proof.
  induction 1 as [|[key child] fs Pc _ IH]; intros s De Le; cbn [walk_members].
  { split_and!; [|done|cbn; lia]. intros p (k & c & I & _). by apply elem_of_nil in I. }
  change (list_sum (map (fun f0 => strings f0.2) ((key, child) :: fs))) with (strings child + list_sum (map (fun f0 => strings f0.2) fs))%nat in *.
  destruct (full s) eqn:Fu.
  { apply full_publishes; [done..|]. intros p (k & c & I & f' & t & R). apply reaches_strings in R.
    assert (M : strings c ∈ map (fun f0 : text * value => strings f0.2) ((key, child) :: fs)).
    { apply list_elem_of_In, in_map_iff. exists (k, c). split; [done|by apply list_elem_of_In]. }
    apply list_sum_elem in M.
    change (list_sum (map (fun f0 => strings f0.2) ((key, child) :: fs))) with (strings child + list_sum (map (fun f0 => strings f0.2) fs))%nat in M. lia. }
  cbn [snd] in Pc. eapply publishes_mono; [|eapply publishes_step; [apply Pc|apply IH]].
  - intros p (k & c & I & R). apply elem_of_cons in I as [I|I]; [injection I as -> ->; left; exact R|right; by exists k, c].
  - apply (De (key, child)). by left.
  - lia.
  - intros f0 I. apply De. by right.
  - destruct (Pc (take MAX_PATH_KEY_LEN (child_prefix prefix key)) (depth + 1)
      (f || mints_a_path key all || (MAX_PATH_KEY_LEN <? length (child_prefix prefix key))%nat) s) as (_ & _ & L);
      [apply (De (key, child)); by left|lia|]. lia.
Qed.

Lemma elements_publish prefix depth f l : Forall publishing l -> forall i s,
  (forall v, v ∈ l -> depth + 1 + Z.of_nat (JsonParse.depth v) <= MAX_PATH_DEPTH) ->
  (length (out s) + list_sum (map strings l) <= MAX_PATHS)%nat ->
  publishes (fun p => exists j child, l !! j = Some child /\ reached_from child (index_prefix prefix (i + j)) f p)
    (list_sum (map strings l)) s (walk_elements walk prefix depth f i l s).
Proof.
  induction 1 as [|child l Pc _ IH]; intros i s De Le; cbn [walk_elements].
  { split_and!; [|done|cbn; lia]. by intros p (j & c & I & _). }
  change (list_sum (map strings (child :: l))) with (strings child + list_sum (map strings l))%nat in *.
  destruct (full s) eqn:Fu.
  { apply full_publishes; [done..|]. intros p (j & c & I & f' & t & R). apply reaches_strings in R.
    assert (M : strings c ∈ map strings (child :: l)).
    { apply list_elem_of_In, in_map_iff. exists c. split; [done|by apply list_elem_of_lookup_2, list_elem_of_In in I]. }
    apply list_sum_elem in M. change (list_sum (map strings (child :: l))) with (strings child + list_sum (map strings l))%nat in M. lia. }
  eapply publishes_mono; [|eapply publishes_step; [apply Pc|apply (IH (S i))]].
  - intros p (j & c & I & R). destruct j as [|j]; cbn in I.
    + injection I as ->. rewrite Nat.add_0_r in R. left. exact R.
    + right. exists j, c. split; [done|]. by replace (S i + j)%nat with (i + S j)%nat by lia.
  - apply De. by left.
  - lia.
  - intros v I. apply De. by right.
  - destruct (Pc (index_prefix prefix i) (depth + 1) f s) as (_ & _ & L); [apply De; by left|lia|]. lia.
Qed.

Lemma depth_elem (l : list value) v : v ∈ l -> (JsonParse.depth v <= list_max (map JsonParse.depth l))%nat.
Proof.
  induction l as [|x l IH]; intros I; [by apply elem_of_nil in I|]. change (list_max (map JsonParse.depth (x :: l))) with (Nat.max (JsonParse.depth x) (list_max (map JsonParse.depth l))).
  apply elem_of_cons in I as [->|I]; [lia|]. apply IH in I. lia.
Qed.

Lemma walk_publishing v : publishing v.
Proof.
  induction v as [|b|n|d|t|l IH|fs IH] using value_ind'; intros prefix depth f s De Le; cbn [walk];
    (destruct (full s) eqn:Fu; cbn [orb]; [apply full_publishes; [done|done|intros p (f' & t' & R); by eapply reaches_strings]|]);
    (assert (MAX_PATH_DEPTH <? depth = false) as -> by (apply Z.ltb_ge; lia)); cbn [strings];
    try (split_and!; [intros p (f' & t' & R); inversion R|done|lia]).
  - case_bool_decide as E; [|apply leaf_publishes]. split_and!; [|done|lia]. intros p (f' & t' & R). by inversion R; subst.
  - cbn [JsonParse.depth strings] in *. eapply publishes_mono; [|apply elements_publish; [exact IH| |done]].
    + intros p (f' & t & R). inversion R as [| |? ? ? i child ? ? ? L R']; subst. exists i, child. split; [done|]. by exists f', t.
    + intros v I. apply depth_elem in I. lia.
  - cbn [JsonParse.depth strings] in *. eapply publishes_mono; [|apply (members_publish fs.*1); [exact IH| |done]].
    + intros p (f' & t & R). inversion R as [|? ? ? key child ? ? ? I R'|]; subst. exists key, child. split; [done|]. by exists f', t.
    + intros f0 I. assert (M : f0.2 ∈ map snd fs) by (apply list_elem_of_In, in_map_iff; exists f0; split; [done|by apply list_elem_of_In]).
      apply depth_elem in M. rewrite map_map in M. lia.
Qed.

(** The leaf at a position is reached, when the path is not cut. *)
Lemma position_reached segs : forall v prefix f s, value_at segs v = Some (VStr s) -> (length (render prefix segs) <= MAX_PATH_KEY_LEN)%nat ->
  render prefix segs <> [] -> exists f', reaches v prefix f (render prefix segs) f' s.
Proof.
  assert (Mono : forall segs prefix, (length prefix <= length (render prefix segs))%nat).
  { induction segs0 as [|[k|i] segs0 IH]; intros prefix; cbn [render]; [lia| |]; (etransitivity; [|apply IH]).
    - unfold child_prefix. case_bool_decide; subst; rewrite ?length_app; cbn; lia.
    - unfold index_prefix. rewrite length_app. lia. }
  induction segs as [|[k|i] segs IH]; intros v prefix f s V L N; cbn [value_at render] in *.
  - injection V as ->. exists f. by constructor.
  - destruct v as [| | | | | |fs]; try done. destruct (field k fs) as [c|] eqn:Fc; [|done]. cbn [mbind option_bind] in V.
    pose proof (Mono segs (child_prefix prefix k)) as Mo.
    destruct (IH c (child_prefix prefix k) (f || mints_a_path k fs.*1 || (MAX_PATH_KEY_LEN <? length (child_prefix prefix k))%nat) s V L N) as [f' R].
    exists f'. eapply reach_member; [by apply field_elem|]. rewrite take_ge by lia. exact R.
  - destruct v as [| | | | |l|]; try done. destruct (l !! i) as [c|] eqn:Lc; [|done]. cbn [mbind option_bind] in V.
    destruct (IH c (index_prefix prefix i) f s V L N) as [f' R].
    exists f'. by eapply reach_element.
Qed.

(** Within the bounds every string is published: with at most 256 strings, nested at most twelve deep, each position named by
    plain keys whose path is not cut is in the map, under its path and with its value, or its path is doubted. *)
Theorem position_published params segs s :
  dict_like params -> (strings params <= MAX_PATHS)%nat -> Z.of_nat (JsonParse.depth params) <= MAX_PATH_DEPTH ->
  Forall plain_seg segs -> value_at segs params = Some (VStr s) -> render [] segs <> [] -> (length (render [] segs) <= MAX_PATH_KEY_LEN)%nat ->
  field (render [] segs) (walk_paths params).1 = Some s \/ render [] segs ∈ (walk_paths params).2.
Proof.
  intros D St De Pl V N L. destruct (decide (render [] segs ∈ (walk_paths params).2)) as [I|I]; [by right|left].
  destruct (position_reached segs params [] false s V L N) as [f' R].
  destruct (walk_publishing params [] 0 false {| out := []; doubted := [] |}) as (P & _ & _); [lia|done|].
  assert (K : render [] segs ∈ (walk_paths params).1.*1) by (apply P; by exists f', s). apply field_key in K as [w K].
  rewrite K. f_equal. by eapply vouched_value.
Qed.

End Twins.

(** ** An example *)

Module Mail.

Definition addr (s : string) : value := VObj [(points "emailAddress", VObj [(points "address", VStr (points s))])].

(** The recipient nested as the tool reads it, and a key that spells the same path. *)
Definition forged : value :=
  VObj [(points "message", VObj [(points "toRecipients", VArr [addr "collector@attacker.example"])]);
        (points "message.toRecipients[0].emailAddress.address", VStr (points "ops@acme.com"))].
Definition honest : value :=
  VObj [(points "to", VStr (points "ops@acme.com")); (points "attributes", VObj [(points "http.method", VStr (points "GET"))])].

Definition segs : list Seg := [Key (points "message"); Key (points "toRecipients"); Index 0; Key (points "emailAddress"); Key (points "address")].

Example forgery_doubted : walk_paths id forged =
  ([(render [] segs, points "ops@acme.com")], [render [] segs]).
Proof. vm_compute. reflexivity. Qed.

Example attributes_not_doubted : (walk_paths id honest).2 = [].
Proof. vm_compute. reflexivity. Qed.

Lemma honest_dict : dict_like honest.
Proof.
  apply dl_obj; [by apply (bool_decide_unpack _); vm_compute|]. apply Forall_cons. split; [apply dl_str|]. apply Forall_cons.
  split; [|by apply Forall_nil]. apply dl_obj; [by apply (bool_decide_unpack _); vm_compute|]. apply Forall_singleton, dl_str.
Qed.

Lemma plain_to : Forall plain_seg [Key (points "to")].
Proof. apply Forall_singleton. split; [done|]. repeat (apply Forall_cons; split; [done|]). by apply Forall_nil. Qed.

Lemma vouched_path_is_the_value_witness :
  exists w, field (points "to") (walk_paths id honest).1 = Some w /\ w = points "ops@acme.com".
Proof.
  exists (points "ops@acme.com"). split; [vm_compute; reflexivity|].
  apply (vouched_path_is_the_value id honest [Key (points "to")] (points "ops@acme.com") (points "ops@acme.com"));
    [apply honest_dict|apply plain_to|vm_compute; reflexivity|vm_compute; reflexivity|].
  apply (bool_decide_unpack _). vm_compute. exact I.
Defined.

Lemma position_published_witness :
  field (points "to") (walk_paths id honest).1 = Some (points "ops@acme.com") \/ points "to" ∈ (walk_paths id honest).2.
Proof.
  apply (position_published id honest [Key (points "to")] (points "ops@acme.com"));
    [apply honest_dict|vm_compute; lia|vm_compute; discriminate|apply plain_to|vm_compute; reflexivity|discriminate|vm_compute; lia].
Defined.

End Mail.
