(* ===== verification/Regex.v ===== *)
(** * Regular expressions as Python's [re] runs them

    A backtracking matcher: alternatives in order, repetitions greedy, a match being the first one found
    from the leftmost position.  The patterns of the source are terms of [regex]; only what they use is
    here (character classes, repetition of what takes at least one character, groups, word boundaries, a
    one-character look-behind, the end of the text). *)

From S2P Require Import Prelude.
From S2P Require Import Text.

Inductive regex :=
  | Eps
  | Chr (p : Z -> bool)
  | Cat (a b : regex)
  | Alt (a b : regex)
  | Rep (lo : nat) (hi : option nat) (a : regex)
  | Cap (n : nat) (a : regex)            (* a group *)
  | Bound                                (* [\b] *)
  | NotAfter (p : Z -> bool)             (* [(?<![...])] *)
  | AtEnd.                               (* [$]: the end, or before a final newline *)

Declare Scope regex_scope.
Delimit Scope regex_scope with re.
Notation "a ⋅ b" := (Cat a b) (at level 40, left associativity) : regex_scope.
Notation "a ∣ b" := (Alt a b) (at level 45, left associativity) : regex_scope.
Notation "a ⁇" := (Rep 0 (Some 1%nat) a) (at level 35, format "a ⁇") : regex_scope.
Notation "a ⁺" := (Rep 1 None a) (at level 35, format "a ⁺") : regex_scope.
Notation "a ∗" := (Rep 0 None a) (at level 35, format "a ∗") : regex_scope.

Definition Groups := list (nat * text).
Definition group (n : nat) (g : Groups) : option text := snd <$> find (fun x => bool_decide (x.1 = n)) g.

Section Matching.
Context (is_wordc : Z -> bool).    (* [\w] *)
Context {A : Type}.

Definition starts_word (t : text) : bool := match t with c :: _ => is_wordc c | [] => false end.
Definition after_word (prev : option Z) : bool := match prev with Some c => is_wordc c | None => false end.

Notation Cont := (option Z -> text -> Groups -> option A).

(** The repetition: [lo] times more, then at most [extra] times, as often as it goes. *)
Section Loop.
Context (body : option Z -> text -> Groups -> Cont -> option A).

Fixpoint must (lo : nat) (p : option Z) (t : text) (g : Groups) (k : Cont) : option A :=
  match lo with
  | O => k p t g
  | S n => body p t g (fun p' t' g' => must n p' t' g' k)
  end.

Fixpoint may (extra : nat) (p : option Z) (t : text) (g : Groups) (k : Cont) : option A :=
  match extra with
  | O => k p t g
  | S n => match body p t g (fun p' t' g' => may n p' t' g' k) with Some a => Some a | None => k p t g end
  end.
End Loop.

Fixpoint run (r : regex) (p : option Z) (t : text) (g : Groups) (k : Cont) : option A :=
  match r with
  | Eps => k p t g
  | Chr f => match t with c :: t' => if f c then k (Some c) t' g else None | [] => None end
  | Cat a b => run a p t g (fun p' t' g' => run b p' t' g' k)
  | Alt a b => match run a p t g k with Some x => Some x | None => run b p t g k end
  | Rep lo hi a =>
      must (run a) lo p t g (fun p' t' g' =>
        may (run a) (match hi with Some h => h - lo | None => length t' end)%nat p' t' g' k)
  | Cap n a => run a p t g (fun p' t' g' => k p' t' ((n, take (length t - length t') t) :: g'))
  | Bound => if xorb (after_word p) (starts_word t) then k p t g else None
  | NotAfter f => if match p with Some c => f c | None => false end then None else k p t g
  | AtEnd => if bool_decide (t ∈ [[]; [10]]) then k p t g else None
  end.
End Matching.

Section Search.
Context (is_wordc : Z -> bool) (r : regex).

(** [r.match] from a position: the rest and the groups. *)
Definition match_from (p : option Z) (t : text) : option (text * Groups) := run is_wordc r p t [] (fun _ t' g => Some (t', g)).

Definition re_match (t : text) : option Groups := snd <$> match_from None t.

(** [r.finditer]: the matches that do not overlap, with their groups. *)
Fixpoint finditer (skip : nat) (p : option Z) (t : text) : list (text * Groups) :=
  match t with
  | [] => []
  | c :: t' =>
      match skip with
      | S n => finditer n (Some c) t'
      | O => match match_from p t with
             | Some (rest, g) => let n := (length t - length rest)%nat in (take n t, g) :: finditer (n - 1) (Some c) t'
             | None => finditer 0 (Some c) t'
             end
      end
  end.

Definition matches (t : text) : list (text * Groups) := finditer 0 None t.
Definition findall (t : text) : list text := (matches t).*1.

(** [r.search]. *)
Definition found (t : text) : bool := negb (bool_decide (length (matches t) = 0%nat)).
End Search.

(** [r.sub(repl, t)] with a fixed text. *)
Section Sub.
Context (is_wordc : Z -> bool) (r : regex) (repl : text).

Fixpoint sub_from (skip : nat) (p : option Z) (t : text) : text :=
  match t with
  | [] => []
  | c :: t' =>
      match skip with
      | S n => sub_from n (Some c) t'
      | O => match match_from is_wordc r p t with
             | Some (rest, _) => repl ++ sub_from (length t - length rest - 1) (Some c) t'
             | None => c :: sub_from 0 (Some c) t'
             end
      end
  end.
Definition re_sub (t : text) : text := sub_from 0 None t.
End Sub.

(** Patterns of fixed text, and a pattern under [re.IGNORECASE] given the other cases of a character. *)
Fixpoint lit_of (t : text) : regex := match t with [] => Eps | c :: t' => Cat (Chr (Z.eqb c)) (lit_of t') end.
Definition lit (s : string) : regex := lit_of (points s).
Definition alts (rs : list regex) : regex := match rs with [] => Chr (fun _ => false) | r :: rs' => foldl Alt r rs' end.
Definition one_of (s : string) : Z -> bool := fun c => bool_decide (c ∈ points s).

Fixpoint ignore_case (variants : Z -> list Z) (r : regex) : regex :=
  match r with
  | Chr p => Chr (fun c => existsb p (c :: variants c))
  | Cat a b => Cat (ignore_case variants a) (ignore_case variants b)
  | Alt a b => Alt (ignore_case variants a) (ignore_case variants b)
  | Rep lo hi a => Rep lo hi (ignore_case variants a)
  | Cap n a => Cap n (ignore_case variants a)
  | _ => r
  end.

(** A name with a space at each place where a capital follows a small letter or a digit:
    [re.sub(r"(?<=[a-z0-9])(?=[A-Z])", " ", t)]. *)
Fixpoint spaced_after (prev : option Z) (t : text) : text :=
  match t with
  | [] => []
  | c :: t' =>
      (if match prev with Some p => is_lower p || is_num p | None => false end && is_upper c then [32; c] else [c]) ++ spaced_after (Some c) t'
  end.
Definition camel_spaced : text -> text := spaced_after None.

(** The runs of characters of a class: [re.split] on the runs of the others, without the empty pieces. *)
Fixpoint pieces (keep : Z -> bool) (cur : text) (t : text) : list text :=
  match t with
  | [] => [reverse cur]
  | c :: t' => if keep c then pieces keep (c :: cur) t' else reverse cur :: pieces keep [] t'
  end.
Definition runs_of (keep : Z -> bool) (t : text) : list text := filter (fun x => x <> []) (pieces keep [] t).

(** ** Reasoning *)

Section Classes.
Context (is_wordc : Z -> bool) {A : Type} (k : option Z -> text -> Groups -> option A).
Notation run := (run is_wordc).

Definition last_of (p : option Z) (t : text) : option Z := match last t with Some c => Some c | None => p end.

Lemma run_chr f p c t g (k' : option Z -> text -> Groups -> option A) : run (Chr f) p (c :: t) g k' = if f c then k' (Some c) t g else None.
Proof. done. Qed.

Lemma last_of_cons p c t : last_of p (c :: t) = last_of (Some c) t.
Proof. unfold last_of. rewrite last_cons. by destruct (last t). Qed.

(** As many as there must be are taken one by one. *)
Lemma must_class f n p a t g : Forall (fun c => f c = true) a -> length a = n ->
  must (run (Chr f)) n p (a ++ t) g k = k (last_of p a) t g.
Proof.
  intros F. revert n p. induction F as [|c a Fc F IH]; intros [|n] p L; try discriminate; [done|].
  cbn [must app]. rewrite run_chr, Fc, last_of_cons. apply IH. by injection L.
Qed.

(** A greedy repetition of a class takes the whole run if the rest then matches. *)
Lemma may_class f n p a t g x : Forall (fun c => f c = true) a -> match t with c :: _ => f c = false | [] => True end ->
  (length a <= n)%nat -> k (last_of p a) t g = Some x -> may (run (Chr f)) n p (a ++ t) g k = Some x.
Proof.
  intros F Stop. revert n p. induction F as [|c a Fc F IH]; intros n p L K; cbn [app].
  - destruct n as [|n]; cbn [may]; [done|]. destruct t as [|c t]; [done|]. by rewrite run_chr, Stop.
  - destruct n as [|n]; cbn [length] in L; [lia|]. cbn [may]. rewrite run_chr, Fc.
    rewrite (IH n (Some c)); [done|lia|]. by rewrite last_of_cons in K.
Qed.

End Classes.

Section Repeats.
Context (is_wordc : Z -> bool) {A : Type} (k : option Z -> text -> Groups -> option A).

Lemma last_of_app p a b : last_of (last_of p a) b = last_of p (a ++ b).
Proof. unfold last_of. rewrite last_app. by destruct (last b). Qed.

Lemma may_class_none f n q b t g : Forall (fun c => f c = true) b -> match t with c :: _ => f c = false | [] => True end ->
  (length b <= n)%nat -> (forall b1 b2, b = b1 ++ b2 -> k (last_of q b1) (b2 ++ t) g = None) -> may (run is_wordc (Chr f)) n q (b ++ t) g k = None.
Proof.
  intros F Stop. revert n q. induction F as [|c b Fc F IH]; intros n q L K; cbn [app].
  - destruct n as [|n]; cbn [may]; [by apply (K [] [])|]. pose proof (K [] [] eq_refl) as K0. cbn [app] in K0. unfold last_of in K0. cbn in K0.
    destruct t as [|ct t]; [done|]. by rewrite run_chr, Stop.
  - destruct n as [|n]; cbn [length] in L; [lia|]. cbn [may]. rewrite run_chr, Fc.
    rewrite IH; [by apply (K [] (c :: b))|lia|]. intros b1 b2 ->. rewrite <- (last_of_cons q). by apply (K (c :: b1) b2).
Qed.

(** A greedy repetition of a class gives back what the rest needs: it takes the longest prefix of the run at which the rest
    matches. *)
Lemma may_class_back f n p a b t g x : Forall (fun c => f c = true) (a ++ b) -> match t with c :: _ => f c = false | [] => True end ->
  (length (a ++ b) <= n)%nat -> (forall b1 b2, b = b1 ++ b2 -> b1 <> [] -> k (last_of p (a ++ b1)) (b2 ++ t) g = None) ->
  k (last_of p a) (b ++ t) g = Some x -> may (run is_wordc (Chr f)) n p ((a ++ b) ++ t) g k = Some x.
Proof.
  intros F Stop. revert n p. induction a as [|c a IH]; intros n p L Fail K; cbn [app] in *.
  - destruct b as [|c b]; cbn [app] in *.
    + destruct n as [|n]; cbn [may]; [done|]. destruct t as [|c t]; [done|]. by rewrite run_chr, Stop.
    + destruct n as [|n]; cbn [length] in L; [lia|]. apply Forall_cons in F as [Fc F]. cbn [may]. rewrite run_chr, Fc.
      rewrite may_class_none; [done|done|done|lia|]. intros b1 b2 ->. rewrite <- (last_of_cons p). by apply (Fail (c :: b1) b2).
  - destruct n as [|n]; cbn [length] in L; [lia|]. apply Forall_cons in F as [Fc F]. cbn [may]. rewrite run_chr, Fc.
    rewrite (IH F n (Some c)); [done|lia| |by rewrite last_of_cons in K]. intros b1 b2 E N. rewrite <- (last_of_cons p). by apply Fail.
Qed.

Lemma run_rep lo hi a p t g : run is_wordc (Rep lo hi a) p t g k =
  must (run is_wordc a) lo p t g (fun p' t' g' => may (run is_wordc a) (match hi with Some h => h - lo | None => length t' end)%nat p' t' g' k).
Proof. done. Qed.

Lemma rep_class f lo p a t g x : Forall (fun c => f c = true) a -> match t with c :: _ => f c = false | [] => True end ->
  (lo <= length a)%nat -> k (last_of p a) t g = Some x -> run is_wordc (Rep lo None (Chr f)) p (a ++ t) g k = Some x.
Proof.
  intros F Stop L K. rewrite run_rep. rewrite <- (take_drop lo a) in F. apply Forall_app in F as [F1 F2].
  rewrite <- (take_drop lo a) at 1. rewrite <- app_assoc. rewrite must_class; [|done|rewrite length_take; lia].
  apply may_class; [done|done|rewrite length_app; lia|]. by rewrite last_of_app, take_drop.
Qed.

Lemma rep_class_back f lo p a b t g x : Forall (fun c => f c = true) (a ++ b) -> match t with c :: _ => f c = false | [] => True end ->
  (lo <= length a)%nat -> (forall b1 b2, b = b1 ++ b2 -> b1 <> [] -> k (last_of p (a ++ b1)) (b2 ++ t) g = None) ->
  k (last_of p a) (b ++ t) g = Some x -> run is_wordc (Rep lo None (Chr f)) p ((a ++ b) ++ t) g k = Some x.
Proof.
  intros F Stop L Fail K. rewrite run_rep. rewrite <- (take_drop lo a) in F. rewrite <- (take_drop lo a) at 1. rewrite <- !app_assoc in *.
  apply Forall_app in F as [F1 F2]. rewrite must_class; [|done|rewrite length_take; lia]. rewrite app_assoc.
  apply may_class_back; [done|done|rewrite !length_app; lia| |by rewrite last_of_app, take_drop].
  intros b1 b2 E N. rewrite last_of_app, app_assoc, take_drop. by apply Fail.
Qed.
End Repeats.

Section Whole.
Context (is_wordc : Z -> bool).

Lemma finditer_skip r t : forall n p, (length t <= n)%nat -> finditer is_wordc r n p t = [].
Proof. induction t as [|c t IH]; intros [|n] p L; cbn [finditer length] in *; try done; [lia|]. apply IH. lia. Qed.

(** A text that matches to its end is its only match. *)
Lemma findall_whole r t g : t <> [] -> match_from is_wordc r None t = Some ([], g) -> findall is_wordc r t = [t].
Proof.
  intros N M. unfold findall, matches. destruct t as [|c t]; [done|]. cbn [finditer]. rewrite M. cbv zeta. rewrite take_ge by (cbn; lia).
  rewrite finditer_skip by (cbn; lia). done.
Qed.
End Whole.

(** ** What a match is *)

(** The texts of a pattern, its assertions taken for granted. *)
Fixpoint lang (r : regex) (t : text) : Prop :=
  match r with
  | Chr p => exists c, t = [c] /\ p c = true
  | Cat a b => exists u v, t = u ++ v /\ lang a u /\ lang b v
  | Alt a b => lang a t \/ lang b t
  | Rep lo _ a => exists us, t = concat us /\ Forall (lang a) us /\ (lo <= length us)%nat
  | Cap _ a => lang a t
  | Eps | Bound | NotAfter _ | AtEnd => t = []
  end.

Section Sound.
Context (is_wordc : Z -> bool) {A : Type}.
Notation Cont := (option Z -> text -> Groups -> option A).

(** Whatever continues a match continues after a text of the pattern. *)
Definition sound (P : text -> Prop) (body : option Z -> text -> Groups -> Cont -> option A) : Prop :=
  forall p t g k x, body p t g k = Some x -> exists a t' g', t = a ++ t' /\ P a /\ k (last_of p a) t' g' = Some x.

Lemma must_sound P body n : sound P body -> sound (fun t => exists us, t = concat us /\ Forall P us /\ length us = n) (must body n).
Proof.
  intros Sb. induction n as [|n IH]; intros p t g k x E; cbn [must] in E.
  - exists [], t, g. split; [done|]. split; [by exists []|done].
  - apply Sb in E as (a & t' & g' & -> & Pa & E). apply IH in E as (b & t'' & g'' & -> & (us & -> & F & L) & E).
    exists (a ++ concat us), t'', g''. rewrite <- app_assoc, <- last_of_app. split; [done|]. split; [|done].
    exists (a :: us). split; [done|]. split; [by apply Forall_cons|]. simpl. by rewrite L.
Qed.

Lemma may_sound P body n : sound P body -> sound (fun t => exists us, t = concat us /\ Forall P us) (may body n).
Proof.
  intros Sb. induction n as [|n IH]; intros p t g k x E; cbn [may] in E.
  - exists [], t, g. split; [done|]. split; [by exists []|done].
  - destruct (body p t g _) as [y|] eqn:B.
    + injection E as ->. apply Sb in B as (a & t' & g' & -> & Pa & B). apply IH in B as (b & t'' & g'' & -> & (us & -> & F) & B).
      exists (a ++ concat us), t'', g''. rewrite <- app_assoc, <- last_of_app. split; [done|]. split; [|done].
      exists (a :: us). split; [done|]. by apply Forall_cons.
    + exists [], t, g. split; [done|]. split; [by exists []|done].
Qed.

Lemma run_sound r : sound (lang r) (run is_wordc r).
Proof.
  induction r as [|f|a IHa b IHb|a IHa b IHb|lo hi a IHa|n a IHa| |f|]; intros p t g k x E; cbn [run] in E.
  - by exists [], t, g.
  - destruct t as [|c t]; [done|]. destruct (f c) eqn:Fc; [|done]. exists [c], t, g. split; [done|]. split; [by exists c|done].
  - apply IHa in E as (u & t' & g' & -> & Lu & E). apply IHb in E as (v & t'' & g'' & -> & Lv & E).
    exists (u ++ v), t'', g''. rewrite <- app_assoc, <- last_of_app. split; [done|]. split; [by exists u, v|done].
  - destruct (run is_wordc a p t g k) as [y|] eqn:B.
    + injection E as ->. apply IHa in B as (u & t' & g' & -> & Lu & B). exists u, t', g'. split; [done|]. split; [by left|done].
    + apply IHb in E as (u & t' & g' & -> & Lu & E). exists u, t', g'. split; [done|]. split; [by right|done].
  - apply (must_sound _ _ _ IHa) in E as (u & t' & g' & -> & (us & -> & F & L) & E).
    apply (may_sound _ _ _ IHa) in E as (v & t'' & g'' & -> & (vs & -> & F') & E).
    exists (concat us ++ concat vs), t'', g''. rewrite <- app_assoc, <- last_of_app. split; [done|]. split; [|done].
    exists (us ++ vs). rewrite concat_app. split; [done|]. split; [by apply Forall_app|]. rewrite length_app. lia.
  - apply IHa in E as (u & t' & g' & -> & Lu & E). by eexists u, t', _.
  - destruct (xorb _ _); [|done]. by exists [], t, g.
  - destruct (match p with Some c => f c | None => false end); [done|]. by exists [], t, g.
  - case_bool_decide; [|done]. by exists [], t, g.
Qed.
End Sound.

Section Found.
Context (is_wordc : Z -> bool) (r : regex).

Lemma finditer_none t : forall p, finditer is_wordc r 0 p t = [] ->
  forall a b, t = a ++ b -> b <> [] -> match_from is_wordc r (last_of p a) b = None.
Proof.
  induction t as [|c t IH]; intros p E a b Et Nb; [destruct a, b; done|]. cbn [finditer] in E.
  destruct (match_from is_wordc r p (c :: t)) as [[rest g]|] eqn:M; [done|]. destruct a as [|d a].
  - simpl in Et. subst b. exact M.
  - injection Et as <- ->. rewrite last_of_cons. by apply (IH (Some c)).
Qed.

Lemma finditer_some t : forall n p, finditer is_wordc r n p t <> [] -> exists a b, t = a ++ b /\ is_Some (match_from is_wordc r (last_of p a) b).
Proof.
  induction t as [|c t IH]; intros n p E; [done|]. cbn [finditer] in E. destruct n as [|n].
  - destruct (match_from is_wordc r p (c :: t)) as [[rest g]|] eqn:M.
    + exists [], (c :: t). split; [done|]. unfold last_of. simpl. rewrite M. eauto.
    + apply IH in E as (a & b & -> & S). exists (c :: a), b. split; [done|]. by rewrite last_of_cons.
  - apply IH in E as (a & b & -> & S). exists (c :: a), b. split; [done|]. by rewrite last_of_cons.
Qed.

(** [r.search] finds a match exactly where there is one. *)
Lemma found_false t : found is_wordc r t = false -> forall a b, t = a ++ b -> b <> [] -> match_from is_wordc r (last_of None a) b = None.
Proof.
  unfold found, matches. intros E. apply negb_false_iff, bool_decide_eq_true in E. apply length_zero_iff_nil in E. by apply finditer_none.
Qed.

Lemma found_lang t : found is_wordc r t = true -> exists a u b, t = a ++ u ++ b /\ lang r u.
Proof.
  unfold found, matches. intros E%negb_true_iff%bool_decide_eq_false. destruct (finditer_some t 0 None) as (a & b & -> & [[rest g] M]).
  { intros N. by rewrite N in E. }
  apply run_sound in M as (u & t' & g' & -> & Lu & _). by exists a, u, t'.
Qed.
End Found.

(** The texts of a fixed text, of a run of a class, of alternatives. *)
Lemma lang_lit_of u t : lang (lit_of u) t <-> t = u.
Proof.
  revert t. induction u as [|c u IH]; intros t; simpl; [done|]. split.
  - intros (a & b & -> & (d & -> & ->%Z.eqb_eq) & ->%IH). done.
  - intros ->. exists [c], u. split; [done|]. split; [exists c; split; [done|by apply Z.eqb_eq]|by apply IH].
Qed.

Lemma lang_class lo hi p t : lang (Rep lo hi (Chr p)) t -> Forall (fun c => p c = true) t /\ (lo <= length t)%nat.
Proof.
  intros (us & -> & F & L). induction F as [|u us (c & -> & Pc) F IH] in lo, L |- *; simpl in *; [split; [by apply Forall_nil|done]|].
  destruct (IH (pred lo)) as [Fa Le]; [lia|]. split; [by apply Forall_cons|simpl; lia].
Qed.
