(* ===== verification/Destinations.v ===== *)
(** * Where a call goes ([engine/evaluator.py])

    The destinations published to policies: addresses, URLs and hosts found in the values
    ([_destinations]), hosts under a key that names a network location ([_destination_keyed_hosts]) and
    the domains of addresses under a key that names a recipient ([_recipient_domains]).

    A rule reads these as sets: every destination must be on an allowlist.  The theorems are about what
    such a rule then knows. *)

From stdpp Require Import sorting.
From S2P Require Import Prelude.
From S2P Require Import Text.
From S2P Require Import Json.
From S2P Require Import JsonParse.
From S2P Require Import IpAddress.
From S2P Require Import Ssrf.
From S2P Require Import Regex.
From S2P Require Import ParamPaths.

Definition MAX_DESTINATIONS : nat := 64.

(** ** Sets, as lists without repetition *)

Definition add (x : text) (l : list text) : list text := if bool_decide (x ∈ l) then l else l ++ [x].
Definition add_all (xs l : list text) : list text := foldl (fun l x => add x l) l xs.
Definition published (l : list text) : list text := take MAX_DESTINATIONS (merge_sort text_le l).

(** ** Names of arguments *)

Definition RECIPIENT_KEY_TOKENS : list text :=
  map points ["to"; "cc"; "bcc"; "recipient"; "recipients"; "addressee"; "addressees"; "mailto"; "sendto"].
Definition DESTINATION_KEY_TOKENS : list text :=
  map points
    ["host"; "hosts"; "hostname"; "hostnames"; "url"; "urls"; "uri"; "uris"; "endpoint"; "endpoints"; "domain"; "domains"; "fqdn"; "netloc";
     "webhook"; "webhooks"; "callback"; "callbacks"; "origin"; "origins"; "server"; "servers"; "destination"; "destinations"; "dest";
     "upstream"; "upstreams"; "proxy"; "proxies"; "href"; "link"; "links"; "redirect"; "ip"; "ips"; "ipaddress"; "addr"; "address"; "addresses"].

Definition key_tokens (key : text) : list text := runs_of is_alnum (camel_spaced key).

Definition key_names (tokens : list text) (key : text) : bool := existsb (fun x => bool_decide (lower x ∈ tokens)) (key_tokens key).
Definition key_names_a_recipient : text -> bool := key_names RECIPIENT_KEY_TOKENS.
Definition key_names_a_destination : text -> bool := key_names DESTINATION_KEY_TOKENS.

Section Patterns.
Context (is_wordc is_digit : Z -> bool) (nfkc : text -> text).

Open Scope regex_scope.

Definition local_char (c : Z) : bool := is_alnum c || one_of "._%+-" c.
Definition domain_char (c : Z) : bool := is_alnum c || one_of ".-" c.

(** [_EMAIL_RE]. *)
Definition EMAIL : regex :=
  NotAfter local_char ⋅ Chr local_char ⁺ ⋅ Chr (Z.eqb 64) ⋅ Chr domain_char ⁺ ⋅ Chr (Z.eqb 46) ⋅ Rep 2 None (Chr is_alpha) ⋅ Bound.

(** [_URL_RE]. *)
Definition url_char (c : Z) : bool := negb (is_white c || bool_decide (c ∈ [34; 39; 60; 62; 92])).
Definition URL : regex :=
  Bound ⋅ Chr is_alpha ⋅ Rep 1 (Some 31%nat) (Chr scheme_char) ⋅ lit "://" ⋅ Chr url_char ⁺.

(** The optional ends of a bare destination. *)
Definition REL : regex := (Cap 1 (lit "//")) ⁇.
Definition PORT : regex := (Cap 2 (Chr (Z.eqb 58) ⋅ Rep 1 (Some 5%nat) (Chr is_digit))) ⁇.
Definition PATH : regex := (Cap 3 (Chr (one_of "/?#") ⋅ Chr url_char ∗)) ⁇.
Definition marked (g : Groups) : bool :=
  existsb (fun n => match group n g with Some (_ :: _) => true | _ => false end) [1%nat; 2%nat; 3%nat].

(** [_IP_HOST_RE]: group 0 is the host. *)
Definition octet : regex := Rep 0 (Some 8%nat) (Chr (Z.eqb 48)) ⋅ Rep 1 (Some 3%nat) (Chr is_digit).
Definition hex_colon (c : Z) : bool := is_hex c || one_of ":." c.
Definition IP_HOST : regex :=
  REL ⋅ Cap 0 ((octet ⋅ Rep 3 (Some 3%nat) (Chr (Z.eqb 46) ⋅ octet)) ∣ (Chr (Z.eqb 91) ⋅ Rep 2 (Some 45%nat) (Chr hex_colon) ⋅ Chr (Z.eqb 93)))
  ⋅ PORT ⋅ PATH ⋅ AtEnd.

(** [_IPV6_CHARS_RE]. *)
Definition IPV6_CHARS : regex := Rep 2 (Some 45%nat) (Chr hex_colon) ⋅ AtEnd.

(** [_BARE_HOST_RE]. *)
Definition label : regex :=
  Chr is_alnum ⋅ (Rep 0 (Some 61%nat) (Chr (fun c => is_alnum c || (c =? 45))) ⋅ Chr is_alnum) ⁇ ⋅ Chr (Z.eqb 46).
Definition BARE_HOST : regex :=
  REL ⋅ Cap 0 (label ⁺ ⋅ Rep 2 (Some 24%nat) (Chr is_alpha)) ⋅ (Chr (Z.eqb 46)) ⁇ ⋅ PORT ⋅ PATH ⋅ AtEnd.

Close Scope regex_scope.

(** [_emails]. *)
Definition email_of (m : text) : list text :=
  match partition 64 m with
  | (local, dom) => match drop_while (one_of ".%+-") local with [] => [] | l => [lower (l ++ 64 :: default [] dom)] end
  end.
Definition emails (t : text) : list text := flat_map email_of (findall is_wordc EMAIL t).

(** [_parse_bare_destination]. *)
Definition parse_bare_destination (v : text) : option (text * bool) :=
  let c := tstrip v in
  if bool_decide (c = []) then None
  else match re_match is_wordc IP_HOST c with
       | Some g =>
           let host := default [] (group 0 g) in
           let inner := if tstarts [91] host then take (length host - 2) (drop 1 host) else host in
           Some (match ip_address inner with Some a => lower (ip_text a) | None => lower inner end, marked g)
       | None =>
           match (if bool_decide (58 ∈ c) && bool_decide (is_Some (re_match is_wordc IPV6_CHARS c)) then ip_address c else None) with
           | Some a => Some (lower (ip_text a), false)
           | None => match re_match is_wordc BARE_HOST c with
                     | Some g => Some (lower (default [] (group 0 g)), marked g)
                     | None => None
                     end
           end
       end.

(** ** The walks by key *)

Section Keyed.
Context (names : text -> bool) (read : text -> list text).

Definition spent (found : list text) : bool := (MAX_DESTINATIONS <=? length found)%nat.

Fixpoint add_until (xs found : list text) : list text :=
  match xs with
  | [] => found
  | x :: xs' => let f := add x found in if spent f then f else add_until xs' f
  end.

Section Loops.
Context (keyed : value -> text -> Z -> list text -> list text).

Fixpoint keyed_members (depth : Z) (fs : list (text * value)) (found : list text) : list text :=
  match fs with
  | [] => found
  | (k, child) :: fs' => let f := keyed child k (depth + 1) found in if spent f then f else keyed_members depth fs' f
  end.

Fixpoint keyed_elements (key : text) (depth : Z) (l : list value) (found : list text) : list text :=
  match l with
  | [] => found
  | child :: l' => let f := keyed child key (depth + 1) found in if spent f then f else keyed_elements key depth l' f
  end.
End Loops.

Fixpoint keyed (v : value) (key : text) (depth : Z) (found : list text) : list text :=
  if (MAX_PATH_DEPTH <? depth) || spent found then found
  else match v with
       | VObj fs => keyed_members keyed depth fs found
       | VArr l => keyed_elements keyed key depth l found
       | VStr s =>
           let c := tstrip s in
           if names key && negb (MAX_PATH_VALUE_LEN <? length c)%nat then add_until (read c) found else found
       | _ => found
       end.
End Keyed.

(** [_destination_keyed_hosts]. *)
Definition host_of (c : text) : list text := match parse_bare_destination c with Some (h, _) => [h] | None => [] end.
Definition destination_keyed_hosts (params : value) : list text := keyed key_names_a_destination host_of params [] 0 [].

(** [_recipient_domains]. *)
Definition domain_of (addr : text) : list text :=
  match rstrip_dots (lower (after_last 64 addr)) with [] => [] | d => [d] end.
Definition domains_in (c : text) : list text := flat_map domain_of (emails c).
Definition recipient_domains (params : value) : list text := published (keyed key_names_a_recipient domains_in params [] 0 []).

(** ** Destinations anywhere *)

Record Harvest := { h_emails : list text; h_urls : list text; h_hosts : list text; h_schemes : list text }.
Definition nothing : Harvest := {| h_emails := []; h_urls := []; h_hosts := []; h_schemes := [] |}.

(** One URL; [None]: [urlsplit] raises. *)
Definition take_url (m : text) (h : Harvest) : option Harvest :=
  u ← urlsplit nfkc m;
  Some {| h_emails := h_emails h; h_urls := add m (h_urls h);
          h_hosts := match u_hostname u with Some n => add (rstrip_dots (lower n)) (h_hosts h) | None => h_hosts h end;
          h_schemes := match u_scheme u with [] => h_schemes h | s => add (lower s) (h_schemes h) end |}.

Fixpoint take_urls (ms : list text) (h : Harvest) : option Harvest :=
  match ms with [] => Some h | m :: ms' => h' ← take_url m h; take_urls ms' h' end.

(** One value. *)
Definition take_value (dest_keyed : list text) (raw : text) (h : Harvest) : option Harvest :=
  let h := {| h_emails := add_all (emails raw) (h_emails h); h_urls := h_urls h; h_hosts := h_hosts h; h_schemes := h_schemes h |} in
  h ← take_urls (findall is_wordc URL raw) h;
  Some match parse_bare_destination raw with
       | Some (host, m) =>
           if (m || bool_decide (host ∈ dest_keyed)) && (length (h_hosts h) <? MAX_DESTINATIONS)%nat
           then {| h_emails := h_emails h; h_urls := h_urls h; h_hosts := add host (h_hosts h); h_schemes := h_schemes h |} else h
       | None => h
       end.

Fixpoint harvest (dest_keyed : list text) (values : list text) (h : Harvest) : option Harvest :=
  match values with
  | [] => Some h
  | raw :: vs =>
      h' ← take_value dest_keyed raw h;
      if (MAX_DESTINATIONS <? length (h_emails h') + length (h_urls h'))%nat then Some h' else harvest dest_keyed vs h'
  end.

(** [_destinations]. *)
Record Destinations := {
  d_emails : list text; d_urls : list text; d_hosts : list text; d_schemes : list text; d_internal : list (text * list text) }.

Definition destinations (values dest_keyed : list text) : option Destinations :=
  h ← harvest dest_keyed values nothing;
  let hosts := published (h_hosts h) in
  Some {| d_emails := published (h_emails h); d_urls := published (h_urls h); d_hosts := hosts; d_schemes := published (h_schemes h);
          d_internal := classify_hosts hosts |}.

(** ** Addresses *)

(** An address as people write it: a local part that does not begin with punctuation, a host and a top-level domain. *)
Record address (local host tld : text) : Prop := {
  ad_local : Forall (fun c => local_char c = true) local;
  ad_head : drop_while (one_of ".%+-") local = local;
  ad_some : local <> [];
  ad_host : Forall (fun c => domain_char c = true) host;
  ad_named : host <> [];
  ad_tld : Forall (fun c => is_alpha c = true) tld;
  ad_long : (2 <= length tld)%nat;
}.

Definition spelled (local host tld : text) : text := local ++ 64 :: (host ++ 46 :: tld).

Lemma alpha_domain c : is_alpha c = true -> domain_char c = true /\ (46 =? c) = false.
Proof.
  intros A. split; [unfold domain_char, is_alnum; unfold is_alpha in A; by rewrite A|]. destruct (Z.eqb_spec 46 c) as [<-|]; done.
Qed.

Lemma partition_local local rest : Forall (fun c => local_char c = true) local -> partition 64 (local ++ 64 :: rest) = (local, Some rest).
Proof.
  induction 1 as [|c local Fc F IH]; cbn [app partition]; [done|]. rewrite IH. destruct (Z.eqb_spec c 64) as [->|]; [by vm_compute in Fc|done].
Qed.

(** Where an address begins and ends in a longer text: no character before it can belong to an address, none after it can go on with
    its domain. *)
Definition mail_char (c : Z) : bool := local_char c || (c =? 64).
Definition begins_after (p : option Z) : Prop := forall c, p = Some c -> mail_char c = false.
Definition ends_before (after : text) : Prop := match after with c :: _ => domain_char c = false /\ is_wordc c = false | [] => True end.

Lemma address_matches p local host tld after : (forall c, is_alpha c = true -> is_wordc c = true) -> address local host tld ->
  begins_after p -> ends_before after -> match_from is_wordc EMAIL p (spelled local host tld ++ after) = Some (after, []).
Proof.
  intros W [Fl _ Nl Fh Nh Ft Lt] Bp Ea.
  assert (Np : (match p with Some c => local_char c | None => false end) = false).
  { destruct p as [c|]; [|done]. specialize (Bp c eq_refl). unfold mail_char in Bp. by apply orb_false_iff in Bp as [? _]. }
  unfold match_from, EMAIL, spelled. cbn [run]. rewrite Np. rewrite <- app_assoc. cbn [app].
  change (run is_wordc (Rep 1 None (Chr local_char)) p (local ++ 64 :: (host ++ 46 :: tld) ++ after) []
    (fun p t g => run is_wordc (Chr (Z.eqb 64)) p t g (fun p t g => run is_wordc (Rep 1 None (Chr domain_char)) p t g
      (fun p t g => run is_wordc (Chr (Z.eqb 46)) p t g (fun p t g => run is_wordc (Rep 2 None (Chr is_alpha)) p t g
        (fun p t g => run is_wordc Bound p t g (fun _ t' g => Some (t', g))))))) = Some (after, [])).
  apply rep_class; [done|done|destruct local; [done|cbn; lia]|]. rewrite run_chr. change (64 =? 64) with true. cbv iota.
  apply rep_class_back; [|by destruct after as [|c after]; [|apply Ea]|destruct host; [done|cbn; lia]| |].
  - apply Forall_app. split; [done|]. constructor; [done|]. eapply Forall_impl; [exact Ft|]. intros c A. by apply alpha_domain.
  - intros [|c b1] b2 E N; [done|]. injection E as <- ->. destruct b2 as [|c b2]; cbn [app].
    + destruct after as [|c after]; [done|]. rewrite run_chr. destruct (Z.eqb_spec 46 c) as [<-|]; [by destruct Ea|done].
    + apply Forall_app in Ft as [_ Ft]. apply Forall_cons in Ft as [A _]. rewrite run_chr. by destruct (alpha_domain c A) as [_ ->].
  - cbn [app]. rewrite run_chr. change (46 =? 46) with true. cbv iota. apply rep_class; [done| |done|].
    { destruct after as [|c after]; [done|]. destruct (is_alpha c) eqn:A; [|done]. destruct Ea as [_ Ea]. by rewrite (W c A) in Ea. }
    cbn [run]. destruct tld as [|c tld _] using rev_ind; [cbn in Lt; lia|]. unfold last_of. rewrite last_snoc.
    apply Forall_app in Ft as [_ Ft]. apply Forall_cons in Ft as [A _]. cbn [after_word]. rewrite (W c A).
    assert (starts_word is_wordc after = false) as -> by (by destruct after as [|d after]; [|apply Ea]). done.
Qed.

(** The characters a pattern accepts; a text it matches has no other. *)
Fixpoint accepts (r : regex) (c : Z) : bool :=
  match r with
  | Chr f => f c
  | Cat a b | Alt a b => accepts a c || accepts b c
  | Rep _ _ a | Cap _ a => accepts a c
  | _ => false
  end.

Lemma lang_accepts r t : lang r t -> Forall (fun c => accepts r c = true) t.
Proof.
  revert t. induction r as [|f|a IHa b IHb|a IHa b IHb|lo hi a IHa|n a IHa| |f|]; intros t; cbn [lang accepts].
  - by intros ->.
  - intros (c & -> & E). by constructor.
  - intros (u & v & -> & Lu%IHa & Lv%IHb). apply Forall_app. split; (eapply Forall_impl; [eassumption|]); intros c ->; [done|apply orb_true_r].
  - intros [L%IHa|L%IHb]; (eapply Forall_impl; [exact L|]); intros c ->; [done|apply orb_true_r].
  - intros (us & -> & F & _). apply Forall_concat. eapply Forall_impl; [exact F|]. exact IHa.
  - apply IHa.
  - by intros ->.
  - by intros ->.
  - by intros ->.
Qed.

Lemma email_accepts c : accepts EMAIL c = true -> mail_char c = true.
Proof.
  cbn [accepts EMAIL]. unfold mail_char, local_char, domain_char, is_alpha, is_alnum, is_upper, is_lower, is_num, one_of.
  rewrite !orb_true_iff, !andb_true_iff, !bool_decide_eq_true. change (points "._%+-") with [46; 95; 37; 43; 45]. change (points ".-") with [46; 45].
  rewrite !elem_of_cons, !elem_of_nil, !Z.leb_le, !Z.eqb_eq. intros E. destruct E as [[[[[[]|]|]|]|]|]; try lia; try done.
Qed.

(** So a match that begins before the address ends before it. *)
Lemma address_found local host tld after before :
  (forall c, is_alpha c = true -> is_wordc c = true) -> address local host tld -> ends_before after ->
  forall n p, (n <= length before)%nat -> begins_after (last_of p before) ->
  spelled local host tld ∈ (finditer is_wordc EMAIL n p (before ++ spelled local host tld ++ after)).*1.
Proof.
  intros W A Ea. set (s := spelled local host tld). assert (Ns : s <> []) by (unfold s, spelled; by destruct local).
  induction before as [|c before IH]; intros n p L Bp.
  - destruct n; [|cbn in L; lia]. cbn [app]. pose proof (address_matches p local host tld after W A Bp Ea) as M. fold s in M.
    destruct s as [|d s'] eqn:Es; [done|]. cbn [app] in *. cbn [finditer]. rewrite M. cbv zeta. rewrite fmap_cons. apply elem_of_cons. left. cbn [fst].
    change (d :: s' ++ after) with ((d :: s') ++ after). rewrite length_app, Nat.add_sub, take_app_length. done.
  - cbn [app finditer]. rewrite last_of_cons in Bp. destruct n as [|n]; [|apply IH; [cbn in L; lia|done]].
    destruct (match_from is_wordc EMAIL p (c :: before ++ s ++ after)) as [[rest g]|] eqn:M; [|apply IH; [lia|done]].
    cbv zeta. rewrite fmap_cons. apply elem_of_cons. right. apply IH; [|done].
    apply run_sound in M as (u & t' & g' & E & Lu & K). injection K as -> _. rewrite E, length_app, Nat.add_sub.
    destruct (decide (length u <= S (length before))%nat) as [|N]; [lia|]. exfalso.
    apply lang_accepts in Lu. destruct (app_eq_inv (c :: before) (s ++ after) u rest E) as [(k & E1 & _)|(k & E1 & _)].
    + apply (f_equal length) in E1. rewrite length_app in E1. cbn in E1. lia.
    + assert (Forall (fun c => accepts EMAIL c = true) (c :: before)) as F by (rewrite E1 in Lu; by apply Forall_app in Lu as [? _]).
      destruct (last (c :: before)) as [d|] eqn:Ld; [|by apply last_None in Ld].
      specialize (Bp d). rewrite <- last_of_cons with (p := p) in Bp. unfold last_of in Bp. rewrite Ld in Bp. specialize (Bp eq_refl).
      apply last_Some in Ld as [l El]. rewrite El in F. apply Forall_app in F as [_ F]. apply Forall_cons in F as [F%email_accepts _]. congruence.
Qed.

(** A text that holds an address: by itself, in a list, after a display name, in brackets. *)
Definition holds_address (c local host tld : text) : Prop :=
  exists before after, c = before ++ spelled local host tld ++ after /\ begins_after (last before) /\ ends_before after.

(** It is read there, whatever its case. *)
Lemma address_read c local host tld : (forall x, is_alpha x = true -> is_wordc x = true) -> address local host tld -> holds_address c local host tld ->
  lower (spelled local host tld) ∈ emails c.
Proof.
  intros W A (before & after & -> & Bb & Ea). unfold emails. apply list_elem_of_In, in_flat_map. exists (spelled local host tld). split.
  - apply list_elem_of_In. unfold findall, matches. apply address_found; [done..|lia|]. unfold last_of. by destruct (last before).
  - apply list_elem_of_In. unfold email_of, spelled. rewrite partition_local by apply A. rewrite (ad_head _ _ _ A).
    destruct local as [|d l] eqn:E; [by destruct (ad_some _ _ _ A)|]. by left.
Qed.

(** The domain of an address, in lower case. *)
Definition low (c : Z) : Z := if is_upper c then c + 32 else c.

Lemma lower_ascii t : Forall (fun c => c < 128) t -> lower t = map low t.
Proof.
  induction 1 as [|c t A F IH]; [done|]. unfold lower in *. cbn [flat_map map]. rewrite IH. unfold lower1, low. destruct (is_upper c); [done|].
  destruct (Z.eqb_spec c 8490); [lia|]. destruct (Z.eqb_spec c 304); [lia|]. done.
Qed.

Lemma low_ascii c : c < 128 -> low c < 128.
Proof. unfold low, is_upper. destruct (_ && _) eqn:E; lia. Qed.

Lemma low_low c : low (low c) = low c.
Proof.
  unfold low, is_upper. destruct ((65 <=? c) && (c <=? 90)) eqn:E; [|by rewrite E].
  apply andb_true_iff in E as [E1%Z.leb_le E2%Z.leb_le]. destruct (Z.leb_spec (c + 32) 90); [lia|]. by rewrite andb_false_r.
Qed.

Lemma low_back c d : is_upper d = false -> ~ 97 <= d <= 122 -> low c = d -> c = d.
Proof. unfold low, is_upper. intros U R. destruct ((65 <=? c) && (c <=? 90)) eqn:E; lia. Qed.

Lemma domain_char_ascii c : domain_char c = true -> c < 128 /\ c <> 64.
Proof.
  unfold domain_char, is_alnum, is_upper, is_lower, is_num, one_of. rewrite !orb_true_iff, !andb_true_iff, bool_decide_eq_true.
  change (points ".-") with [46; 45]. rewrite !elem_of_cons, elem_of_nil. lia.
Qed.

Lemma local_char_ascii c : local_char c = true -> c < 128.
Proof.
  unfold local_char, is_alnum, is_upper, is_lower, is_num, one_of. rewrite !orb_true_iff, !andb_true_iff, bool_decide_eq_true.
  change (points "._%+-") with [46; 95; 37; 43; 45]. rewrite !elem_of_cons, elem_of_nil. lia.
Qed.

Lemma address_domain local host tld : address local host tld ->
  domain_of (lower (spelled local host tld)) = [lower (host ++ 46 :: tld)].
Proof.
  intros [Fl _ _ Fh _ Ft Lt]. assert (Fd : Forall (fun c => domain_char c = true) (host ++ 46 :: tld)).
  { apply Forall_app. split; [done|]. constructor; [done|]. eapply Forall_impl; [exact Ft|]. intros c A. by apply alpha_domain. }
  assert (Ad : Forall (fun c => c < 128) (host ++ 46 :: tld)).
  { eapply Forall_impl; [exact Fd|]. intros c A. by apply domain_char_ascii. }
  assert (Al : Forall (fun c => c < 128) local) by (eapply Forall_impl; [exact Fl|exact local_char_ascii]).
  unfold domain_of, spelled. rewrite (lower_ascii (local ++ _)) by (apply Forall_app; split; [done|constructor; [lia|done]]).
  rewrite map_app. cbn [map]. change (low 64) with 64. unfold after_last. rewrite split_on_app_any.
  rewrite (split_on_fresh _ (map low (host ++ 46 :: tld))).
  2: { rewrite list_elem_of_fmap. intros (c & E & I). symmetry in E. apply low_back in E as ->; [|done|lia]. rewrite Forall_forall in Fd.
       by apply Fd, domain_char_ascii in I as [_ []]. }
  rewrite last_snoc. cbn [default id]. rewrite (lower_ascii (map low _)).
  2: { apply Forall_fmap. eapply Forall_impl; [exact Ad|]. intros c. apply low_ascii. }
  rewrite map_map, (map_ext (fun c => low (low c)) low), (lower_ascii _ Ad) by apply low_low.
  rewrite rstrip_dots_id; [by destruct host|]. destruct tld as [|c tld _] using rev_ind; [cbn in Lt; lia|].
  change (46 :: tld ++ [c]) with ((46 :: tld) ++ [c]). rewrite app_assoc, map_app. change (map low [c]) with [low c]. rewrite last_snoc. intros [= E]. apply low_back in E as ->; [|done|lia].
  apply Forall_app in Ft as [_ Ft]. by apply Forall_cons in Ft as [? _].
Qed.

(** ** Sets *)

Lemma add_elem x y l : y ∈ add x l <-> y = x \/ y ∈ l.
Proof.
  unfold add. case_bool_decide as I; [split; [by right|by intros [->|?]]|]. rewrite elem_of_app, list_elem_of_singleton.
  split; (intros [?|?]; [by right|by left]).
Qed.

Lemma add_nodup x l : NoDup l -> NoDup (add x l).
Proof.
  intros N. unfold add. case_bool_decide as I; [done|]. apply NoDup_app. split_and!; [done| |apply NoDup_singleton].
  intros y Iy ->%list_elem_of_singleton. done.
Qed.

Lemma add_length x l : (length l <= length (add x l) <= S (length l))%nat.
Proof. unfold add. case_bool_decide; rewrite ?length_app; cbn; lia. Qed.

Lemma add_all_elem xs l y : y ∈ add_all xs l <-> y ∈ xs \/ y ∈ l.
Proof.
  unfold add_all. revert l. induction xs as [|x xs IH]; intros l; cbn [foldl]; [split; [by right|by intros [?%elem_of_nil|?]]|].
  rewrite IH, add_elem, elem_of_cons. tauto.
Qed.

Lemma add_all_nodup xs l : NoDup l -> NoDup (add_all xs l).
Proof. unfold add_all. revert l. induction xs as [|x xs IH]; intros l N; cbn [foldl]; [done|]. by apply IH, add_nodup. Qed.

Lemma add_all_length xs l : (length l <= length (add_all xs l))%nat.
Proof.
  unfold add_all. revert l. induction xs as [|x xs IH]; intros l; cbn [foldl]; [lia|]. etransitivity; [|apply IH]. apply add_length.
Qed.

Lemma published_length l : length (published l) = (length l `min` MAX_DESTINATIONS)%nat.
Proof. unfold published. rewrite length_take, merge_sort_Permutation. lia. Qed.

Lemma published_all l : (length l <= MAX_DESTINATIONS)%nat -> forall x, x ∈ published l <-> x ∈ l.
Proof. intros L x. unfold published. rewrite take_ge by (rewrite merge_sort_Permutation; lia). by rewrite merge_sort_Permutation. Qed.

(** A set that fills the budget does not fit into a smaller allowlist, so a set that fits was published whole. *)
Lemma allowlist_unspent l allow : NoDup l -> (length allow < MAX_DESTINATIONS)%nat -> (forall x, x ∈ published l -> x ∈ allow) ->
  (length l < MAX_DESTINATIONS)%nat /\ forall x, x ∈ l -> x ∈ allow.
Proof.
  intros N La Sub. assert (P : NoDup (published l)).
  { unfold published. eapply sublist_NoDup; [|apply sublist_take]. by rewrite merge_sort_Permutation. }
  assert (L : (length l < MAX_DESTINATIONS)%nat).
  { assert (I : published l ⊆+ allow) by (apply NoDup_submseteq; done). apply submseteq_length in I. rewrite published_length in I. lia. }
  split; [done|]. intros x I. apply Sub, published_all; [lia|done].
Qed.

(** ** The walk by key finds every value, or fills the budget *)

Section KeyedProps.
Context (names : text -> bool) (read : text -> list text).

(** The values under a key that counts, within the bounds on depth and length. *)
Inductive keyed_value : value -> text -> Z -> text -> Prop :=
  | kv_str s key depth : depth <= MAX_PATH_DEPTH -> names key = true -> (length (tstrip s) <= MAX_PATH_VALUE_LEN)%nat ->
      keyed_value (VStr s) key depth (tstrip s)
  | kv_member fs key depth k child c : depth <= MAX_PATH_DEPTH -> (k, child) ∈ fs -> keyed_value child k (depth + 1) c -> keyed_value (VObj fs) key depth c
  | kv_element l key depth child c : depth <= MAX_PATH_DEPTH -> child ∈ l -> keyed_value child key (depth + 1) c -> keyed_value (VArr l) key depth c.

(** What a step may do to the set: keep it a set within the budget, add only what is read, and miss nothing unless spent. *)
Record gathers (from : text -> Prop) (found r : list text) : Prop := {
  g_set : NoDup r;
  g_bound : (length r <= MAX_DESTINATIONS)%nat;
  g_keeps : forall x, x ∈ found -> x ∈ r;
  g_sound : forall x, x ∈ r -> x ∈ found \/ from x;
  g_complete : spent r = true \/ forall x, from x -> x ∈ r;
}.

Lemma gathers_refl (from : text -> Prop) found : NoDup found -> (length found <= MAX_DESTINATIONS)%nat ->
  spent found = true \/ (forall x, from x -> x ∈ found) -> gathers from found found.
Proof. intros N L C. split; auto. Qed.

Lemma gathers_mono (from from' : text -> Prop) found r : (forall x, from x <-> from' x) -> gathers from found r -> gathers from' found r.
Proof.
  intros E [N L K S C]. split; try done.
  - intros x I. apply S in I as [I|I]; [by left|right; by apply E].
  - destruct C as [C|C]; [by left|right]. intros x F. by apply C, E.
Qed.

(** A step, then the rest unless the budget is spent. *)
Lemma gathers_then (from1 from2 : text -> Prop) found r r2 : gathers from1 found r -> gathers from2 r r2 ->
  gathers (fun x => from1 x \/ from2 x) found (if spent r then r else r2).
Proof.
  intros [N1 L1 K1 S1 C1] [N2 L2 K2 S2 C2]. destruct (spent r) eqn:Sp.
  - split; auto. intros x I. apply S1 in I as [I|I]; auto.
  - destruct C1 as [C1|C1]; [congruence|]. split; auto.
    + intros x I. apply S2 in I as [I|I]; [|auto]. apply S1 in I as [I|I]; auto.
    + destruct C2 as [C2|C2]; [by left|right]. intros x [F|F]; auto.
Qed.

Lemma add_gathers x found : NoDup found -> (length found <= MAX_DESTINATIONS)%nat -> spent found = false -> gathers (eq x) found (add x found).
Proof.
  intros N L S. unfold spent in S. apply Nat.leb_gt in S. split.
  - by apply add_nodup.
  - pose proof (add_length x found). lia.
  - intros y I. apply add_elem. by right.
  - intros y [->|I]%add_elem; [by right|by left].
  - right. intros y <-. apply add_elem. by left.
Qed.

Lemma add_until_gathers xs : forall found, NoDup found -> (length found <= MAX_DESTINATIONS)%nat -> spent found = false ->
  gathers (fun x => x ∈ xs) found (add_until xs found).
Proof.
  induction xs as [|x xs IH]; intros found N L S; cbn [add_until].
  { apply gathers_refl; [done..|]. right. by intros x ?%elem_of_nil. }
  pose proof (add_gathers x found N L S) as G. cbv zeta. destruct (spent (add x found)) eqn:Sp.
  - destruct G as [N1 L1 K1 S1 C1]. split; auto. intros y I. apply S1 in I as [I|<-]; [by left|right; by left].
  - eapply gathers_mono; [|pose proof (gathers_then (eq x) (fun y => y ∈ xs) found _ _ G (IH _ (g_set _ _ _ G) (g_bound _ _ _ G) Sp)) as T; by rewrite Sp in T].
    intros y. cbv beta. rewrite elem_of_cons. split; intros [?|?]; auto.
Qed.

Definition gathering (v : value) : Prop := forall key depth found, NoDup found -> (length found <= MAX_DESTINATIONS)%nat ->
  gathers (fun x => exists c, keyed_value v key depth c /\ x ∈ read c) found (keyed names read v key depth found).

Lemma members_gather depth fs : Forall (fun f => gathering f.2) fs -> forall found, NoDup found -> (length found <= MAX_DESTINATIONS)%nat ->
  gathers (fun x => exists k child c, (k, child) ∈ fs /\ keyed_value child k (depth + 1) c /\ x ∈ read c) found (keyed_members (keyed names read) depth fs found).
Proof.
  induction 1 as [|[k child] fs Gc _ IH]; intros found N L; cbn [keyed_members].
  { apply gathers_refl; [done..|]. right. by intros x (k & child & c & ?%elem_of_nil & _). }
  cbn [snd] in Gc. pose proof (Gc k (depth + 1) found N L) as G.
  eapply gathers_mono; [|apply (gathers_then _ _ _ _ _ G (IH _ (g_set _ _ _ G) (g_bound _ _ _ G)))].
  intros x. cbv beta. split.
  - intros [(c & V & I)|(k' & child' & c & I & V & R)]; [exists k, child, c|exists k', child', c]; (split; [|done]); [by left|by right].
  - intros (k' & child' & c & [I|I]%elem_of_cons & V & R); [injection I as -> ->; left; by exists c|right; by exists k', child', c].
Qed.

Lemma elements_gather key depth l : Forall gathering l -> forall found, NoDup found -> (length found <= MAX_DESTINATIONS)%nat ->
  gathers (fun x => exists child c, child ∈ l /\ keyed_value child key (depth + 1) c /\ x ∈ read c) found (keyed_elements (keyed names read) key depth l found).
Proof.
  induction 1 as [|child l Gc _ IH]; intros found N L; cbn [keyed_elements].
  { apply gathers_refl; [done..|]. right. by intros x (child & c & ?%elem_of_nil & _). }
  pose proof (Gc key (depth + 1) found N L) as G.
  eapply gathers_mono; [|apply (gathers_then _ _ _ _ _ G (IH _ (g_set _ _ _ G) (g_bound _ _ _ G)))].
  intros x. cbv beta. split.
  - intros [(c & V & I)|(child' & c & I & V & R)]; [exists child, c|exists child', c]; (split; [|done]); [by left|by right].
  - intros (child' & c & [->|I]%elem_of_cons & V & R); [left; by exists c|right; by exists child', c].
Qed.

Lemma keyed_gathering v : gathering v.
Proof.
  induction v as [|b|n|d|t|l IH|fs IH] using value_ind'; intros key depth found N L; cbn [keyed];
    (destruct (MAX_PATH_DEPTH <? depth) eqn:De; cbn [orb];
      [apply gathers_refl; [done..|]; right; intros x (c & V & _); apply Z.ltb_lt in De; inversion V; lia|]); apply Z.ltb_ge in De;
    (destruct (spent found) eqn:Sp; [apply gathers_refl; [done..|by left]|]);
    try (apply gathers_refl; [done..|]; right; intros x (c & V & _); by inversion V).
  - destruct (names key && negb (MAX_PATH_VALUE_LEN <? length (tstrip t))%nat) eqn:E.
    + apply andb_true_iff in E as [E1 E2]. apply negb_true_iff, Nat.ltb_ge in E2.
      eapply gathers_mono; [|apply add_until_gathers; done]. intros x. split; [intros I; exists (tstrip t); split; [by constructor|done]|].
      intros (c & V & I). by inversion V; subst.
    + apply gathers_refl; [done..|]. right. intros x (c & V & I). inversion V as [? ? ? D1 N1 L1| |]; subst. rewrite N1 in E. cbn [andb] in E.
      apply negb_false_iff, Nat.ltb_lt in E. lia.
  - eapply gathers_mono; [|apply elements_gather; [exact IH|done..]]. intros x. split.
    + intros (child & c & I & V & R). exists c. split; [by eapply kv_element|done].
    + intros (c & V & R). inversion V; subst. by eexists _, c.
  - eapply gathers_mono; [|apply members_gather; [exact IH|done..]]. intros x. split.
    + intros (k & child & c & I & V & R). exists c. split; [by eapply kv_member|done].
    + intros (c & V & R). inversion V; subst. by eexists _, _, c.
Qed.
End KeyedProps.

(** The domains a call writes to, by the names of its arguments. *)
Definition writes_to (params : value) (domain : text) : Prop :=
  exists c, keyed_value key_names_a_recipient params [] 0 c /\ domain ∈ domains_in c.

(** An allowlist of recipients holds: if every published recipient domain is on a list of fewer than 64, every address under
    a key that names a recipient, nested up to twelve deep in a value of up to 4096 characters, is at a domain
    on the list.  Whatever else the call carries, and however often it spells a domain, it cannot push a
    recipient out of view. *)
Lemma named_recipients_allowed params allow domain :
  (length allow < MAX_DESTINATIONS)%nat -> (forall d, d ∈ recipient_domains params -> d ∈ allow) -> writes_to params domain -> domain ∈ allow.
Proof.
  intros La Sub (c & V & I).
  destruct (keyed_gathering key_names_a_recipient domains_in params [] 0 []) as [N _ _ _ C]; [apply NoDup_nil_2|cbn; unfold MAX_DESTINATIONS; lia|].
  destruct (allowlist_unspent _ allow N La Sub) as [L A]. destruct C as [C|C].
  - unfold spent in C. apply Nat.leb_le in C. lia.
  - apply A, C. by exists c.
Qed.

(** C24: So mail goes only where the list says: a plain ASCII address (a local part of letters, digits, '.', '_', '%', '+' and '-'
    that begins with a letter, a digit or '_', a host and a top-level domain of two letters or more) that stands in the value of an
    argument whose key names a recipient - alone, in a list, after a display name, in angle brackets - is at a domain of the list,
    compared without case.  The list has fewer than 64 domains, the argument is nested at most twelve deep and its value, stripped,
    has at most 4096 characters; the character before the address, if any, is not one an address can hold, and the one after it is
    neither a character of a domain nor of a word. *)
Theorem mail_stays_on_list params allow c local host tld :
  (forall x, is_alpha x = true -> is_wordc x = true) ->
  (length allow < MAX_DESTINATIONS)%nat -> (forall d, d ∈ recipient_domains params -> d ∈ allow) ->
  keyed_value key_names_a_recipient params [] 0 c -> address local host tld -> holds_address c local host tld ->
  lower (host ++ 46 :: tld) ∈ allow.
Proof.
  intros W La Sub V A H. apply (named_recipients_allowed params); [done|done|]. exists c. split; [done|].
  unfold domains_in. apply list_elem_of_In, in_flat_map. exists (lower (spelled local host tld)).
  split; apply list_elem_of_In; [by apply address_read|]. rewrite (address_domain _ _ _ A). by left.
Qed.

(** And nothing else is published. *)
Theorem recipients_are_named params domain : domain ∈ recipient_domains params -> writes_to params domain.
Proof.
  intros I.
  destruct (keyed_gathering key_names_a_recipient domains_in params [] 0 []) as [_ L _ S _]; [apply NoDup_nil_2|cbn; unfold MAX_DESTINATIONS; lia|].
  unfold recipient_domains in I. apply (published_all _ L) in I. apply S in I as [I|I]; [by apply elem_of_nil in I|exact I].
Qed.

(** ** Destinations anywhere: what a rule on hosts knows *)

(** The hosts a value names: of its URLs, and of the value itself where it is marked or its key names a destination. *)
Definition names_host (dest_keyed : list text) (raw host : text) : Prop :=
  (exists m u n, m ∈ findall is_wordc URL raw /\ urlsplit nfkc m = Some u /\ u_hostname u = Some n /\ host = rstrip_dots (lower n)) \/
  (exists m, parse_bare_destination raw = Some (host, m) /\ (m = true \/ host ∈ dest_keyed)).

Record grows (h h' : Harvest) : Prop := {
  gr_emails : (length (h_emails h) <= length (h_emails h'))%nat;
  gr_urls : (length (h_urls h) <= length (h_urls h'))%nat;
  gr_hosts : forall x, x ∈ h_hosts h -> x ∈ h_hosts h';
  gr_count : (length (h_hosts h) <= length (h_hosts h'))%nat;
  gr_set : NoDup (h_hosts h) -> NoDup (h_hosts h');
}.

#[local] Instance grows_preorder : PreOrder grows.
Proof.
  split; [intros h; split; auto|]. intros a b c [] []. split; auto; lia.
Qed.

Lemma take_url_grows m h h' : take_url m h = Some h' ->
  grows h h' /\ forall u n, urlsplit nfkc m = Some u -> u_hostname u = Some n -> rstrip_dots (lower n) ∈ h_hosts h'.
Proof.
  unfold take_url. destruct (urlsplit nfkc m) as [u|]; [|done]. cbn [mbind option_bind]. intros [= <-]. split.
  - split; cbn; [lia|apply add_length| | |]; destruct (u_hostname u); try done.
    + intros x I. apply add_elem. by right.
    + apply add_length.
    + by apply add_nodup.
  - intros u' n [= <-] E. cbn. rewrite E. apply add_elem. by left.
Qed.

Lemma take_urls_grow ms : forall h h', take_urls ms h = Some h' ->
  grows h h' /\ forall m u n, m ∈ ms -> urlsplit nfkc m = Some u -> u_hostname u = Some n -> rstrip_dots (lower n) ∈ h_hosts h'.
Proof.
  induction ms as [|m ms IH]; intros h h'; cbn [take_urls].
  - intros [= <-]. split; [reflexivity|]. by intros m u n ?%elem_of_nil.
  - destruct (take_url m h) as [h1|] eqn:T; [|done]. cbn [mbind option_bind]. intros R.
    destruct (take_url_grows _ _ _ T) as [G1 U1], (IH _ _ R) as [G2 U2]. split; [by transitivity h1|].
    intros m' u n [->|I]%elem_of_cons E H; [|by eapply U2]. apply (gr_hosts _ _ G2). by eapply U1.
Qed.

Lemma take_value_grows dk raw h h' : take_value dk raw h = Some h' ->
  grows h h' /\ ((length (h_hosts h') < MAX_DESTINATIONS)%nat -> forall host, names_host dk raw host -> host ∈ h_hosts h').
Proof.
  unfold take_value. set (h0 := Build_Harvest _ _ _ _). destruct (take_urls _ h0) as [h1|] eqn:T; [|done]. cbn [mbind option_bind]. intros [= <-].
  destruct (take_urls_grow _ _ _ T) as [G U]. assert (G0 : grows h h0) by (split; cbn; try lia; try done; apply add_all_length).
  assert (Gb : forall host, grows h1 {| h_emails := h_emails h1; h_urls := h_urls h1; h_hosts := add host (h_hosts h1); h_schemes := h_schemes h1 |}).
  { intros host. split; cbn; try lia; [|apply add_length|by apply add_nodup]. intros x I. apply add_elem. by right. }
  assert (G1 : grows h h1) by (by transitivity h0).
  split.
  - destruct (parse_bare_destination raw) as [[host m]|]; [|done]. destruct (_ && _); [|done]. etransitivity; [exact G1|apply Gb].
  - intros L host [(m & u & n & I & E & En & ->)|(m & P & K)].
    + pose proof (U m u n I E En) as I1. destruct (parse_bare_destination raw) as [[host m']|]; [|done].
      destruct (_ && _); [apply add_elem; by right|done].
    + rewrite P in *. assert (m || bool_decide (host ∈ dk) = true) as Mk by (destruct K as [->|K]; [done|rewrite bool_decide_true by done; apply orb_true_r]).
      rewrite Mk in *. cbn [andb] in *. destruct (length (h_hosts h1) <? MAX_DESTINATIONS)%nat eqn:Lt; [cbn; apply add_elem; by left|].
      apply Nat.ltb_ge in Lt. lia.
Qed.

Lemma harvest_grows dk values : forall h h', harvest dk values h = Some h' ->
  grows h h' /\ ((length (h_emails h') + length (h_urls h') <= MAX_DESTINATIONS)%nat -> (length (h_hosts h') < MAX_DESTINATIONS)%nat ->
    forall v host, v ∈ values -> names_host dk v host -> host ∈ h_hosts h').
Proof.
  induction values as [|raw vs IH]; intros h h'; cbn [harvest].
  - intros [= <-]. split; [reflexivity|]. by intros _ _ v host ?%elem_of_nil.
  - destruct (take_value dk raw h) as [h1|] eqn:T; [|done]. cbn [mbind option_bind].
    destruct (take_value_grows _ _ _ _ T) as [G1 N1]. destruct (_ <? _)%nat eqn:St.
    + intros [= <-]. split; [done|]. apply Nat.ltb_lt in St. lia.
    + intros R. destruct (IH _ _ R) as [G2 N2]. split; [by transitivity h1|]. intros B L v host [->|I]%elem_of_cons Nh.
      * apply (gr_hosts _ _ G2). apply N1; [|done]. pose proof (gr_count _ _ G2). lia.
      * by eapply N2.
Qed.

(** A rule on hosts holds while the call carries few addresses and URLs: if fewer than 64 of them are published together,
    and every published host is on a list of fewer than 64, then so is the host of every URL in every value, and
    every bare host that is marked as a destination or sits under a key that names one. *)
Theorem host_allowlist_holds values dk d allow :
  destinations values dk = Some d -> (length (d_emails d) + length (d_urls d) < MAX_DESTINATIONS)%nat -> (length allow < MAX_DESTINATIONS)%nat ->
  (forall h, h ∈ d_hosts d -> h ∈ allow) -> forall v host, v ∈ values -> names_host dk v host -> host ∈ allow.
Proof.
  unfold destinations. destruct (harvest dk values nothing) as [h|] eqn:Hv; [|done]. cbn [mbind option_bind]. intros [= <-]. cbn [d_emails d_urls d_hosts].
  rewrite !published_length. intros B La Sub v host I N. destruct (harvest_grows _ _ _ _ Hv) as [G F].
  destruct (allowlist_unspent (h_hosts h) allow) as [L A]; [apply (gr_set _ _ G), NoDup_nil_2|done|done|].
  apply A, (F ltac:(lia) L v); done.
Qed.

End Patterns.

(** ** Examples *)

Module Calls.

Definition dests : list text -> list text -> option Destinations := destinations is_word is_num id.

Definition forward : value :=
  VObj [(points "sendTo", VArr [VStr (points " Ada <ada@acme.com>, Ops <ops@ACME.com> ")]); (points "body", VStr (points "from ada@customer.example"))].

Lemma ops_address : address (points "ops") (points "ACME") (points "com").
Proof. split; [by repeat constructor|done|done|by repeat constructor|done|by repeat constructor|vm_compute; lia]. Qed.

(** The recipients are published, the customer's address in the body is not. *)
Example forward_recipients : recipient_domains is_word forward = [points "acme.com"].
Proof. vm_compute. reflexivity. Qed.

Lemma mail_stays_on_list_witness : points "acme.com" ∈ [points "acme.com"].
Proof.
  apply (mail_stays_on_list is_word forward [points "acme.com"] (points "Ada <ada@acme.com>, Ops <ops@ACME.com>") (points "ops") (points "ACME") (points "com")).
  - intros c A. unfold is_word, is_alnum. unfold is_alpha in A. by rewrite A.
  - vm_compute; lia.
  - intros d. by rewrite forward_recipients.
  - eapply kv_member; [vm_compute; discriminate|by left|]. eapply kv_element; [vm_compute; discriminate|by left|].
    apply (kv_str _ (points " Ada <ada@acme.com>, Ops <ops@ACME.com> ")); [vm_compute; discriminate|vm_compute; reflexivity|vm_compute; lia].
  - exact ops_address.
  - exists (points "Ada <ada@acme.com>, Ops <"), (points ">"). split; [reflexivity|]. split; [intros d [= <-]; reflexivity|by split].
Defined.

Definition fetch : list text := [points "see https://api.acme.com./v1 and more"; points "//cdn.acme.com:443/x"].

Lemma host_allowlist_holds_witness : points "cdn.acme.com" ∈ [points "api.acme.com"; points "cdn.acme.com"].
Proof.
  destruct (dests fetch []) as [d|] eqn:E; [|vm_compute in E; discriminate].
  apply (host_allowlist_holds is_word is_num id fetch [] d _ E) with (v := points "//cdn.acme.com:443/x").
  - vm_compute in E. injection E as <-. vm_compute; lia.
  - vm_compute; lia.
  - vm_compute in E. injection E as <-. by intros h.
  - right; left.
  - right. exists true. split; [vm_compute; reflexivity|by left].
Defined.

(** Sixty-five addresses stop the harvest: a URL in a later value is not published. *)
Definition two_digits (n : nat) : text := [48 + Z.of_nat (n / 10); 48 + Z.of_nat (n mod 10)].
Definition padding : text := flat_map (fun i => points "u" ++ two_digits i ++ points "@pad.example ") (seq 0 65).
Definition exfil : text := points "https://evil.example/collect".

Example padding_evicts_url : (fun d => (d_urls d, d_hosts d)) <$> dests [padding; exfil] [] = Some ([], []) /\
  (fun d => (d_urls d, d_hosts d)) <$> dests [exfil; padding] [] = Some ([exfil], [points "evil.example"]).
Proof. vm_compute. done. Qed.

(** And the last addresses in order are cut off, wherever they stand. *)
Example padding_evicts_address : (fun d => bool_decide (points "z@evil.example" ∈ d_emails d)) <$> dests [points "z@evil.example"; padding] [] = Some false.
Proof. vm_compute. reflexivity. Qed.

(** A recipient in a value of more than 4096 characters is not published. *)
Example long_recipient_unseen :
  recipient_domains is_word (VObj [(points "to", VStr (points "x@evil.example" ++ repeat 44 4096))]) = [].
Proof. vm_compute. reflexivity. Qed.

(** A placeholder in brackets is not a URL [urlsplit] accepts: the evaluation raises. *)
Example placeholder_raises : dests [points "curl http://[your-host]/"] [] = None.
Proof. vm_compute. reflexivity. Qed.

End Calls.
