(* ===== verification/Confusables.v ===== *)
(** * Look-alike letters ([engine/confusables.py])

    [skeleton] maps a text to what it looks like: decomposed, without marks and invisible characters,
    case-folded, and with the letters of other scripts that look like Latin ones replaced.  The Unicode
    data it reads ([unicodedata], [str.casefold]) is a parameter; what the theorems need of it is in
    [UnicodeLaws]. *)

From S2P Require Import Prelude.
From S2P Require Import Text.
From S2P Require Import Ssrf.

Class Unicode := {
  nfkd : text -> text;           (* [unicodedata.normalize("NFKD", _)] *)
  casefold : text -> text;       (* [str.casefold] *)
  is_mark : Z -> bool;           (* the category is one of Mn, Mc, Me, Cf, Cc *)
}.

Definition TABLE : list (Z * string) :=
  [ (1072, "a"); (1073, "b"); (1074, "b"); (1075, "r"); (1076, "d"); (1077, "e"); (1109, "s"); (1079, "3"); (1080, "u"); (1110, "i");
     (1111, "i"); (1081, "u"); (1082, "k"); (1083, "n"); (1084, "m"); (1085, "h"); (1086, "o"); (1087, "n"); (1088, "p"); (1089, "c");
     (1090, "t"); (1091, "y"); (1092, "o"); (1093, "x"); (1094, "u"); (1095, "y"); (1096, "w"); (1098, "b"); (1099, "bi"); (1100, "b");
     (1101, "e"); (1102, "io"); (1103, "r"); (1112, "j"); (1281, "d"); (1307, "q"); (1309, "w"); (1211, "h"); (1231, "l"); (1141, "v");
     (1121, "w"); (1145, "oy"); (1171, "f"); (1213, "e"); (945, "a"); (946, "b"); (947, "y"); (948, "d"); (949, "e"); (950, "z");
     (951, "n"); (952, "o"); (953, "i"); (954, "k"); (955, "a"); (956, "u"); (957, "v"); (958, "e"); (959, "o"); (960, "n");
     (961, "p"); (963, "o"); (962, "c"); (964, "t"); (965, "u"); (966, "o"); (967, "x"); (968, "w"); (969, "w"); (1010, "c");
     (1011, "j"); (1009, "p"); (1016, "p"); (1413, "o"); (1400, "n"); (1405, "u"); (1409, "g"); (1412, "f"); (609, "g"); (617, "i");
     (671, "l"); (593, "a"); (603, "e"); (8560, "i"); (8572, "l"); (8573, "c"); (8574, "d"); (8575, "m"); (8564, "v"); (8569, "x");
     (248, "o"); (322, "l"); (305, "i"); (610, "g"); (628, "n"); (640, "r"); (655, "y"); (1104, "e")].

Definition is_control (c : Z) : bool := (c <=? 31) || (c =? 127).

Section Skeleton.
Context `{Unicode}.

(** [_strip_marks]. *)
Definition strip_marks (t : text) : text :=
  if is_ascii t then List.filter (fun c => negb (is_control c)) t else List.filter (fun c => negb (is_mark c)) t.

(** [str.translate(_TABLE)]. *)
Definition look (c : Z) : text := match find (fun e => e.1 =? c) TABLE with Some (_, s) => points s | None => [c] end.

Definition skeleton (t : text) : text :=
  match t with
  | [] => []
  | _ => let folded := casefold (strip_marks (nfkd t)) in if is_ascii folded then folded else flat_map look folded
  end.
End Skeleton.

(** What is used of the Unicode data. *)
Class UnicodeLaws `(Unicode) : Prop := {
  nfkd_ascii : forall t, is_ascii t = true -> nfkd t = t;
  casefold_ascii : forall t, is_ascii t = true -> casefold t = lower t;
  mark_ascii : forall c, 0 <= c < 128 -> is_mark c = is_control c;
}.

Section Props.
Context `{UnicodeLaws}.

Definition printable (t : text) : Prop := Forall (fun c => is_control c = false) t.

Lemma strip_none (p : Z -> bool) t : Forall (fun c => p c = false) t -> List.filter (fun c => negb (p c)) t = t.
Proof. induction 1 as [|c t C _ IH]; [done|]. cbn [List.filter]. by rewrite C, IH. Qed.

(** An ASCII text without controls is its own skeleton but for case. *)
Lemma skeleton_ascii t : is_ascii t = true -> is_ascii (lower t) = true -> printable t -> skeleton t = lower t.
Proof.
  intros A L C. destruct t as [|c t]; [done|]. unfold skeleton. rewrite nfkd_ascii by done. unfold strip_marks. rewrite A.
  rewrite (strip_none is_control) by done. cbv zeta. by rewrite casefold_ascii, L.
Qed.

(** A text the normalisation leaves alone. *)
Definition settled (t : text) : Prop := nfkd t = t /\ casefold t = t /\ Forall (fun c => is_mark c = false) t /\ printable t.

(** [c'] is [c] or a letter the table lists as looking like it. *)
Definition looks_like (c c' : Z) : Prop := c' = c \/ look c' = [c].

Lemma table_keys : forallb (fun e => 128 <=? e.1) TABLE = true.
Proof. vm_compute. reflexivity. Qed.

Lemma look_ascii c : c < 128 -> look c = [c].
Proof.
  intros A. unfold look. destruct (find _ TABLE) as [[k s]|] eqn:F; [|done]. apply find_some in F as [I E]. apply Z.eqb_eq in E. cbn in E. subst k.
  pose proof (proj1 (forallb_forall _ _) table_keys _ I) as K. apply Z.leb_le in K. cbn in K. lia.
Qed.

(** Replacing letters by look-alikes does not change the skeleton of an ASCII text. *)
Theorem homoglyphs_unmasked t t' : is_ascii t = true -> settled t -> settled t' -> Forall2 looks_like t t' -> skeleton t' = skeleton t.
Proof.
  intros A (N1 & C1 & M1 & P1) (N2 & C2 & M2 & P2) L. assert (E : flat_map look t' = t).
  { clear -A L. induction L as [|c c' t t' [->|Lk] L IH]; [done|..]; cbn [is_ascii forallb] in A; apply andb_true_iff in A as [Ac A]; apply Z.ltb_lt in Ac.
    - cbn [flat_map]. rewrite look_ascii by done. cbn [app]. f_equal. by apply IH.
    - cbn [flat_map]. rewrite Lk. cbn [app]. f_equal. by apply IH. }
  assert (S : skeleton t = t).
  { destruct t as [|c t0] eqn:Et; [done|]. unfold skeleton. rewrite N1. unfold strip_marks. rewrite A. rewrite (strip_none is_control) by done. cbv zeta.
    by rewrite C1, A. }
  rewrite S. destruct t' as [|c' t0'] eqn:Et; [by inversion L|]. unfold skeleton. rewrite N2. unfold strip_marks.
  destruct (is_ascii (c' :: t0')) eqn:A'.
  - rewrite (strip_none is_control) by done. cbv zeta. rewrite C2, A'. rewrite <- E. clear -A'. induction (c' :: t0') as [|c l IH]; [done|].
    cbn [is_ascii forallb] in A'. apply andb_true_iff in A' as [Ac A']. apply Z.ltb_lt in Ac. cbn [flat_map]. rewrite look_ascii by done. cbn [app]. f_equal. by apply IH.
  - rewrite (strip_none is_mark) by done. cbv zeta. by rewrite C2, A'.
Qed.
End Props.

(** Data that is right on ASCII and leaves everything else alone. *)
#[export] Instance ascii_only : Unicode := {| nfkd := id; casefold := lower; is_mark := fun c => is_control c |}.

Lemma ascii_only_laws : UnicodeLaws ascii_only.
Proof. split; done. Qed.

Lemma homoglyphs_unmasked_witness : skeleton [1077; 108; 1077] = skeleton (points "ele").
Proof.
  apply (homoglyphs_unmasked (H := ascii_only)); [done|repeat split; by repeat constructor|repeat split; by repeat constructor|].
  constructor; [by right|]. constructor; [by left|]. constructor; [by right|]. constructor.
Defined.
