(* ===== verification/Capability.v ===== *)
(** * What a tool does ([engine/capability/source_registry.py], the classifier)

    [classify_tool] reads the name of a tool, and its arguments where the name says nothing or says only
    that something is run, and answers with a verb and a risk.  Policies see the verb, so what it can and
    cannot be is what they rely on.

    The theorems give the verb in closed form: the name decides by a fixed precedence, and the arguments
    can raise what the name says but never lower it. *)

From S2P Require Import Prelude.
From S2P Require Import Text.
From S2P Require Import Json.
From S2P Require Import JsonParse.
From S2P Require Import Ssrf.
From S2P Require Import Regex.
From S2P Require Import Confusables.

Inductive Verb := READ | WRITE | DELETE | SEND | UNKNOWN.
Inductive RiskLevel := CRITICAL | HIGH | MEDIUM | LOW.

#[export] Instance Verb_eq_dec : EqDecision Verb.
Proof. solve_decision. Defined.
#[export] Instance RiskLevel_eq_dec : EqDecision RiskLevel.
Proof. solve_decision. Defined.

Definition RISK_ORDER (r : RiskLevel) : Z := match r with LOW => 0 | MEDIUM => 1 | HIGH => 2 | CRITICAL => 3 end.
Definition VERB_ORDER (v : Verb) : Z := match v with DELETE => 3 | SEND => 2 | WRITE => 1 | READ => 0 | UNKNOWN => -1 end.
Definition ENFORCEMENT_ORDER (v : Verb) : Z := match v with DELETE => 4 | SEND => 3 | WRITE => 1 | READ => 0 | UNKNOWN => -1 end.
Definition EXEC_QUALIFIER_RANK : Z := 2.
Definition RUN_QUALIFIER_RANK : Z := -1.

(** The lexicon, in the order of its registrations. *)
Definition DESTRUCTION_TOKENS : list text :=
  map points
    ["delete"; "del"; "drop"; "truncate"; "purge"; "destroy"; "remove"; "rm"; "erase"; "wipe"; "revoke"; "terminate";
     "kill"; "deprovision"; "teardown"; "uninstall"; "expire"; "invalidate"; "flush"].
Definition EXEC_TOKENS : list text :=
  map points
    ["exec"; "execute"; "eval"; "invoke"; "run"; "spawn"; "shell"; "sh"; "bash"; "cmd"; "system"; "actuate"; "trip";
     "detonate"; "fire"; "launch"; "reboot"; "restart"; "shutdown"; "halt"; "detach"].
Definition WRITE_TOKENS : list text :=
  map points
    ["write"; "update"; "insert"; "put"; "upsert"; "patch"; "modify"; "set"; "create"; "add"; "append"; "grant"; "approve";
     "issue"; "provision"; "mint"; "sign"; "rotate"; "enable"; "disable"; "configure"; "register"; "attach"; "bind";
     "apply"; "commit"; "save"; "store"; "tag"; "label"].
Definition SEND_TOKENS : list text :=
  map points
    ["send"; "post"; "upload"; "publish"; "webhook"; "email"; "mail"; "sms"; "notify"; "export"; "transfer"; "push"; "sync";
     "forward"; "relay"; "emit"; "dispatch"; "share"; "leak"; "exfiltrate"; "deliver"; "transmit"; "submit"; "broadcast";
     "escalate"; "ship"; "outbound"; "egress"; "exfil"; "cc"; "bcc"].
Definition READ_TOKENS : list text :=
  map points
    ["read"; "get"; "list"; "search"; "query"; "fetch"; "scan"; "describe"; "select"; "lookup"; "view"; "show"; "find";
     "count"; "head"; "exists"; "meter"; "monitor"; "watch"; "tail"; "retrieve"; "load"; "peek"; "download"; "poll";
     "check"; "inspect"; "status"].
Definition RUN_QUALIFIERS : list text :=
  map points
    ["run"; "execute"; "invoke"].
Definition EXECUTION_OBJECTS : list text :=
  map points
    ["command"; "commands"; "script"; "scripts"; "code"; "program"; "programs"; "subprocess"; "terminal"; "console"; "zsh";
     "python"; "python3"; "js"; "javascript"; "typescript"; "node"; "nodejs"; "deno"; "powershell"; "pwsh"; "ruby"; "perl";
     "php"; "lua"; "process"; "processes"; "kernel"; "sandbox"; "repl"; "notebook"; "notebooks"; "cell"; "cells"; "snippet";
     "snippets"; "lambda"; "function"; "functions"; "test"; "tests"].
Definition ACTUATION_NOUNS : list text :=
  map points
    ["breaker"; "valve"; "relay"; "switch"; "actuator"; "damper"; "motor"; "pump"; "throttle"; "circuit"; "grid"; "turbine";
     "reactor"; "solenoid"; "contactor"].
Definition CONTROL_VERBS : list text :=
  map points
    ["open"; "close"; "toggle"; "set"; "adjust"; "override"; "reset"; "engage"; "disengage"].
Definition PAYLOAD_DESTRUCTIVE : list text :=
  map points
    ["delete"; "drop"; "truncate"; "destroy"; "remove"; "purge"; "erase"; "wipe"; "revoke"; "kill"; "shutdown"; "reassign";
     "detach"; "terminate"; "deprovision"; "discard"; "flush"; "reconfigure"; "dbcc"; "restore"; "backup"; "reset"; "exec";
     "execute"; "call"; "do"; "sp"; "xp"; "_delete_by_query"; "delete_by_query"].
Definition PAYLOAD_WRITE : list text :=
  map points
    ["update"; "insert"; "set"; "create"; "alter"; "merge"; "replace"; "upsert"; "copy"; "load"; "grant"; "into"; "lock";
     "notify"; "vacuum"; "cluster"; "reindex"; "refresh"; "comment"; "rename"; "install"; "import"; "bulk"; "add"; "modify";
     "write"; "mutation"; "script"; "_update"; "_bulk"; "_update_by_query"; "update_by_query"].

Definition among (l : list text) (t : text) : bool := bool_decide (t ∈ l).
Definition meets (tokens l : list text) : bool := existsb (among l) tokens.

(** [_reg]: a later registration hides an earlier one. *)
Definition reg (v : Verb) (r : RiskLevel) (tokens : list text) (lexicon : list (text * (Verb * RiskLevel))) : list (text * (Verb * RiskLevel)) :=
  map (fun t => (t, (v, r))) tokens ++ lexicon.
Definition VERB_LEXICON : list (text * (Verb * RiskLevel)) :=
  reg READ LOW READ_TOKENS (reg SEND HIGH SEND_TOKENS (reg WRITE HIGH WRITE_TOKENS (reg DELETE CRITICAL EXEC_TOKENS (reg DELETE CRITICAL DESTRUCTION_TOKENS [])))).
Definition lexicon_get (t : text) : option (Verb * RiskLevel) := snd <$> find (fun e => bool_decide (e.1 = t)) VERB_LEXICON.

(** [max(l, key=...)]: the first of the largest. *)
Definition key_lt (a b : Z * Z) : bool := (a.1 <? b.1) || ((a.1 =? b.1) && (a.2 <? b.2)).
Fixpoint max_by {A} (key : A -> Z * Z) (best : A) (l : list A) : A :=
  match l with [] => best | x :: l' => max_by key (if key_lt (key best) (key x) then x else best) l' end.

Definition Match : Type := Verb * RiskLevel * option text.

(** [_enforcement_rank]. *)
Definition enforcement_rank (v : Verb) (token : option text) (executes_code : bool) : Z :=
  match token with
  | Some t =>
      if among RUN_QUALIFIERS t && negb executes_code then RUN_QUALIFIER_RANK
      else if among EXEC_TOKENS t then EXEC_QUALIFIER_RANK
      else ENFORCEMENT_ORDER v
  | None => ENFORCEMENT_ORDER v
  end.

(** [_classify_params]. *)
Definition EGRESS_KEYS : list text := map points ["destination"; "recipient"; "to"; "url"; "endpoint"; "webhook"; "email"; "callback"].
Definition begins (heads : list string) (t : text) : bool := existsb (fun h => tstarts (points h) t) heads.

Definition classify_member (key : text) (v : value) : option (Verb * RiskLevel) :=
  if among EGRESS_KEYS (lower key) then Some (SEND, HIGH)
  else match v with
       | VStr s =>
           let low := lower (tstrip s) in
           if begins ["drop "; "delete "; "truncate "] low || tcontains (points "; drop") low || tcontains (points "; delete") low then Some (DELETE, CRITICAL)
           else if begins ["insert "; "update "; "merge "; "alter "; "create "] low then Some (WRITE, HIGH)
           else if begins ["select "] low then Some (READ, LOW)
           else if begins ["http://"; "https://"] low then Some (SEND, HIGH)
           else None
       | _ => None
       end.
Fixpoint classify_members (fs : list (text * value)) : option (Verb * RiskLevel) :=
  match fs with [] => None | (k, v) :: fs' => match classify_member k v with Some h => Some h | None => classify_members fs' end end.
Definition classify_params (params : option value) : option (Verb * RiskLevel) :=
  match params with Some (VObj fs) => classify_members fs | _ => None end.

(** [_payload_tokens]. *)
Definition payload_tokens (t : text) : list text := map lower (runs_of is_word (if existsb is_upper t then camel_spaced t else t)).

Definition destructive (t : text) : bool := meets (payload_tokens t) PAYLOAD_DESTRUCTIVE.
Definition writing (t : text) : bool := meets (payload_tokens t) PAYLOAD_WRITE.

(** [_payload_write_signal]: a stack of nodes still to read, its top first.  Decoded JSON shares no containers, so the set of
    visited ones never stops a visit. *)
Definition note (t : text) (worst : option Verb) : option Verb :=
  match worst with Some w => Some w | None => if writing t then Some WRITE else None end.

Fixpoint scan_keys (fs : list (text * value)) (worst : option Verb) : option (option Verb) :=
  match fs with
  | [] => Some worst
  | (k, _) :: fs' => if destructive k then None else scan_keys fs' (note k worst)
  end.

Definition push (children stack : list value) : list value := reverse children ++ stack.

Fixpoint signal (fuel : nat) (stack : list value) (worst : option Verb) : option (option Verb) :=
  match fuel with
  | O => None
  | S n =>
      match stack with
      | [] => Some worst
      | VStr s :: st => if destructive s then Some (Some DELETE) else signal n st (note s worst)
      | VObj fs :: st => match scan_keys fs worst with None => Some (Some DELETE) | Some w => signal n (push fs.*2 st) w end
      | VArr l :: st => signal n (push l st) worst
      | _ :: st => signal n st worst
      end
  end.

Definition payload_write_signal (params : value) : option Verb := default None (signal (S (nodes params)) [params] None).

Section Classify.
Context `{Unicode}.

(** [_tokenize_tool]. *)
Definition tokenize_tool (name : text) : list text :=
  map lower (filter (fun t => negb (forallb is_num t)) (runs_of is_alnum (skeleton (camel_spaced name)))).

Definition name_matches (tokens : list text) : list Match :=
  flat_map (fun t => match lexicon_get t with Some (v, r) => [(v, r, Some t)] | None => [] end) tokens.

(** What the classification of the arguments may do to the verb of a name that runs something. *)
Definition raised (tokens : list text) (params : option value) (v : Verb) : Verb :=
  match params with
  | Some p =>
      if bool_decide (v = READ \/ v = WRITE) && meets tokens RUN_QUALIFIERS
      then match payload_write_signal p with Some stated => if VERB_ORDER v <? VERB_ORDER stated then stated else v | None => v end
      else v
  | None => v
  end.

Definition classify_tool (name : text) (params : option value) : Verb * option RiskLevel :=
  let tokens := tokenize_tool name in
  if meets tokens ACTUATION_NOUNS && meets tokens CONTROL_VERBS then (DELETE, Some CRITICAL)
  else
    let matches :=
      match name_matches tokens with
      | [] => match classify_params params with Some (v, r) => [(v, r, None)] | None => [] end
      | ms => ms
      end in
    match matches with
    | [] => (UNKNOWN, None)
    | m :: ms =>
        let risk := (max_by (fun x : Match => (RISK_ORDER x.1.2, 0)) m ms).1.2 in
        let executes_code := meets tokens EXECUTION_OBJECTS in
        let verb := (max_by (fun x : Match => (enforcement_rank x.1.1 x.2 executes_code, VERB_ORDER x.1.1)) m ms).1.1 in
        (raised tokens params verb, Some risk)
    end.
End Classify.

Definition DEFAULT_VERB_RISK (v : Verb) : option RiskLevel :=
  match v with READ => Some LOW | WRITE | SEND => Some HIGH | DELETE => Some CRITICAL | UNKNOWN => None end.

(** ** The arguments of a call, read whole *)

(** Every string of a value, keys included. *)
Fixpoint strings_of (v : value) : list text :=
  match v with
  | VStr s => [s]
  | VArr l => flat_map strings_of l
  | VObj fs => flat_map (fun f => f.1 :: strings_of f.2) fs
  | _ => []
  end.

Definition weighed (strings : list text) (worst : option Verb) : option Verb :=
  if existsb destructive strings then Some DELETE
  else match worst with Some w => Some w | None => if existsb writing strings then Some WRITE else None end.

Lemma existsb_perm {A} (p : A -> bool) l l' : l ≡ₚ l' -> existsb p l = existsb p l'.
Proof.
  intros P. apply eq_bool_prop_intro. rewrite !Is_true_true, !existsb_exists. split; intros (x & I & E); exists x; (split; [|done]);
    apply list_elem_of_In; apply list_elem_of_In in I; [by rewrite <- P|by rewrite P].
Qed.

Lemma strings_push p l st : existsb p (flat_map strings_of (push l st)) = existsb p (flat_map strings_of l) || existsb p (flat_map strings_of st).
Proof.
  rewrite <- existsb_app, <- flat_map_app. apply existsb_perm. rewrite !flat_map_concat_map. unfold push. by rewrite reverse_Permutation.
Qed.

Lemma strings_obj p fs : existsb p (strings_of (VObj fs)) = existsb p fs.*1 || existsb p (flat_map strings_of fs.*2).
Proof.
  cbn [strings_of]. induction fs as [|[k v] fs IH]; [done|]. cbn. rewrite !existsb_app, IH. cbn. destruct (p k), (existsb p (strings_of v)), (existsb p fs.*1); done.
Qed.

Lemma nodes_list_sum n (l : list nat) : list_sum (n :: l) = (n + list_sum l)%nat.
Proof. done. Qed.

Lemma nodes_fields (fs : list (text * value)) : list_sum (map nodes fs.*2) = list_sum (map (fun f => nodes f.2) fs).
Proof. induction fs as [|f fs IH]; [done|]. rewrite fmap_cons. cbn [map]. by rewrite !nodes_list_sum, IH. Qed.

Lemma nodes_push l st : list_sum (map nodes (push l st)) = (list_sum (map nodes l) + list_sum (map nodes st))%nat.
Proof.
  unfold push. rewrite map_app, list_sum_app. f_equal. induction l as [|x l IH]; [done|]. rewrite reverse_cons, map_app, list_sum_app, IH.
  cbn [map]. rewrite !nodes_list_sum. cbn [list_sum foldr]. lia.
Qed.

Lemma scan_keys_exact fs worst : scan_keys fs worst =
  if existsb destructive fs.*1 then None else Some (match worst with Some w => Some w | None => if existsb writing fs.*1 then Some WRITE else None end).
Proof.
  revert worst. induction fs as [|[k v] fs IH]; intros worst; [by destruct worst|]. rewrite fmap_cons. cbn [scan_keys existsb fst].
  destruct (destructive k); [done|]. cbn [orb]. rewrite IH.
  destruct (existsb destructive _); [done|]. unfold note. destruct worst; [done|]. by destruct (writing k).
Qed.

Lemma signal_exact fuel : forall stack worst, (list_sum (map nodes stack) < fuel)%nat ->
  signal fuel stack worst = Some (weighed (flat_map strings_of stack) worst).
Proof.
  induction fuel as [|n IH]; intros stack worst L; [lia|]. destruct stack as [|v st]; [by destruct worst|]. cbn [map] in L.
  rewrite nodes_list_sum in L.
  destruct v as [|b|z|d|s|l|fs]; cbn [signal]; try (rewrite IH by (cbn [nodes] in L; lia); done).
  - unfold weighed. cbn [flat_map strings_of app existsb]. destruct (destructive s); [done|]. rewrite IH by (cbn [nodes] in L; lia). unfold weighed. cbn [orb].
    destruct (existsb destructive _); [done|]. unfold note. destruct worst; [done|]. by destruct (writing s).
  - rewrite IH by (rewrite nodes_push; cbn [nodes] in L; lia). unfold weighed. cbn [flat_map strings_of]. by rewrite !strings_push, !existsb_app.
  - rewrite scan_keys_exact. unfold weighed. cbn [flat_map]. rewrite !existsb_app, !strings_obj. destruct (existsb destructive fs.*1); [done|].
    rewrite IH by (rewrite nodes_push; rewrite nodes_fields; cbn [nodes] in L; lia). unfold weighed. rewrite !strings_push. cbn [orb].
    destruct (existsb destructive _ || _); [done|]. destruct worst; [done|]. by destruct (existsb writing fs.*1).
Qed.

(** The walk ends, and what it says is what the strings say. *)
Lemma payload_write_signal_exact params : payload_write_signal params = weighed (strings_of params) None.
Proof.
  unfold payload_write_signal. rewrite signal_exact by (cbn [map]; rewrite nodes_list_sum; cbn [list_sum foldr]; lia). cbn [flat_map default id]. by rewrite app_nil_r.
Qed.

Definition keyword (t : text) : bool := among PAYLOAD_DESTRUCTIVE t || among PAYLOAD_WRITE t.

Lemma meets_exists tokens l : meets tokens l = true <-> exists t, t ∈ tokens /\ t ∈ l.
Proof.
  unfold meets, among. rewrite existsb_exists. split; intros (t & I & E); exists t; [|split; [by apply list_elem_of_In|by apply bool_decide_eq_true]].
  split; [by apply list_elem_of_In|by apply bool_decide_eq_true in E].
Qed.

Lemma no_signal params : payload_write_signal params = None ->
  forall s t, s ∈ strings_of params -> t ∈ payload_tokens s -> keyword t = false.
Proof.
  rewrite payload_write_signal_exact. unfold weighed. destruct (existsb destructive _) eqn:D; [done|]. destruct (existsb writing _) eqn:W; [done|].
  intros _ s t Is It. unfold keyword. apply orb_false_iff.
  assert (F : forall p, existsb p (strings_of params) = false -> p s = false).
  { intros p E. destruct (p s) eqn:P; [|done]. rewrite <- E. symmetry. apply existsb_exists. exists s. split; [by apply list_elem_of_In|done]. }
  split; [apply F in D|apply F in W]; (destruct (among _ t) eqn:A; [|done]); apply bool_decide_eq_true in A.
  - rewrite <- D. symmetry. apply meets_exists. by exists t.
  - rewrite <- W. symmetry. apply meets_exists. by exists t.
Qed.

(** ** The name of a tool, by precedence *)

Lemma key_lt_irrefl a : key_lt a a = false.
Proof. unfold key_lt. rewrite !Z.ltb_irrefl. by rewrite andb_false_r. Qed.

Lemma key_lt_spec a b : key_lt a b = true <-> a.1 < b.1 \/ (a.1 = b.1 /\ a.2 < b.2).
Proof. unfold key_lt. rewrite orb_true_iff, andb_true_iff, !Z.ltb_lt, Z.eqb_eq. done. Qed.

Lemma key_le_trans a b c : key_lt b a = false -> key_lt c b = false -> key_lt c a = false.
Proof. rewrite <- !not_true_iff_false, !key_lt_spec. lia. Qed.

(** [max] returns one of the list, and none is above it. *)
Lemma max_by_spec {A} (key : A -> Z * Z) l : forall best,
  (max_by key best l = best \/ max_by key best l ∈ l) /\ key_lt (key (max_by key best l)) (key best) = false /\
  forall x, x ∈ l -> key_lt (key (max_by key best l)) (key x) = false.
Proof.
  induction l as [|y l IH]; intros best; cbn [max_by].
  { split_and!; [by left|apply key_lt_irrefl|by intros x ?%elem_of_nil]. }
  set (b := if key_lt (key best) (key y) then y else best). destruct (IH b) as (M & B & R).
  assert (Bb : key_lt (key b) (key best) = false /\ key_lt (key b) (key y) = false).
  { subst b. destruct (key_lt (key best) (key y)) eqn:E; (split; [|]); try apply key_lt_irrefl; try done.
    apply key_lt_spec in E. rewrite <- not_true_iff_false, key_lt_spec. lia. }
  split_and!.
  - destruct M as [M|M]; [|right; by right]. rewrite M. clear. subst b. destruct (key_lt (key best) (key y)); [right; by left|by left].
  - apply (key_le_trans _ (key b)); [apply Bb|done].
  - intros x [->|I]%elem_of_cons; [|by apply R]. apply (key_le_trans _ (key b)); [apply Bb|done].
Qed.

(** What one token says, with the rank it says it at. *)
Inductive says (code : bool) (t : text) : Z -> Verb -> RiskLevel -> Prop :=
  | says_destroys : t ∈ DESTRUCTION_TOKENS -> says code t 4 DELETE CRITICAL
  | says_sends : t ∈ SEND_TOKENS -> says code t 3 SEND HIGH
  | says_executes : t ∈ EXEC_TOKENS -> code = true \/ t ∉ RUN_QUALIFIERS -> says code t 2 DELETE CRITICAL
  | says_writes : t ∈ WRITE_TOKENS -> says code t 1 WRITE HIGH
  | says_reads : t ∈ READ_TOKENS -> says code t 0 READ LOW
  | says_runs : t ∈ RUN_QUALIFIERS -> code = false -> says code t (-1) DELETE CRITICAL.

Definition apart (a b : list text) : bool := forallb (fun t => negb (among b t)) a.
Lemma apart_spec a b t : apart a b = true -> t ∈ a -> among b t = false.
Proof. unfold apart. rewrite forallb_forall. intros F I. apply list_elem_of_In, F in I. by apply negb_true_iff in I. Qed.

Ltac apart_from := match goal with
  | I : ?t ∈ ?a |- context [among ?b ?t] => rewrite (apart_spec a b t ltac:(vm_compute; reflexivity) I)
  end.

(** The lexicon, registration by registration, the last first. *)
Lemma find_reg v r tokens lexicon t : find (fun e : text * (Verb * RiskLevel) => bool_decide (e.1 = t)) (reg v r tokens lexicon) =
  if among tokens t then Some (t, (v, r)) else find (fun e => bool_decide (e.1 = t)) lexicon.
Proof.
  unfold reg, among. induction tokens as [|x l IH]; [done|]. cbn [map app find fst]. destruct (decide (x = t)) as [->|N].
  - rewrite (bool_decide_true (t = t)) by done. rewrite bool_decide_true; [done|by left].
  - rewrite (bool_decide_false (x = t)) by done. rewrite IH. destruct (decide (t ∈ l)) as [I|I].
    + rewrite !bool_decide_true; [done|by right|done].
    + rewrite !bool_decide_false; [done|intros [->|?]%elem_of_cons; done|done].
Qed.

Lemma lexicon_get_cases t : lexicon_get t =
  if among READ_TOKENS t then Some (READ, LOW) else if among SEND_TOKENS t then Some (SEND, HIGH)
  else if among WRITE_TOKENS t then Some (WRITE, HIGH) else if among EXEC_TOKENS t then Some (DELETE, CRITICAL)
  else if among DESTRUCTION_TOKENS t then Some (DELETE, CRITICAL) else None.
Proof.
  unfold lexicon_get, VERB_LEXICON. rewrite !find_reg. cbn [find]. by repeat (case_match; [done|]).
Qed.

Lemma among_elem l t : among l t = true <-> t ∈ l.
Proof. apply bool_decide_eq_true. Qed.

Lemma run_executes t : t ∈ RUN_QUALIFIERS -> t ∈ EXEC_TOKENS.
Proof.
  intros I. assert (F : forallb (among EXEC_TOKENS) RUN_QUALIFIERS = true) by (vm_compute; reflexivity). rewrite forallb_forall in F.
  by apply among_elem, F, list_elem_of_In.
Qed.

Lemma says_get code t k v r : says code t k v r -> lexicon_get t = Some (v, r) /\ enforcement_rank v (Some t) code = k.
Proof.
  rewrite lexicon_get_cases. unfold enforcement_rank. intros [I|I|I C|I|I|I ->].
  - repeat apart_from. cbn [andb]. by rewrite (proj2 (among_elem _ _) I).
  - repeat apart_from. cbn [andb]. by rewrite (proj2 (among_elem _ _) I).
  - repeat apart_from. rewrite (proj2 (among_elem _ _) I). split; [done|]. destruct (among RUN_QUALIFIERS t) eqn:R; [|done].
    apply among_elem in R. destruct C as [->|C]; [done|done].
  - repeat apart_from. cbn [andb]. by rewrite (proj2 (among_elem _ _) I).
  - repeat apart_from. cbn [andb]. by rewrite (proj2 (among_elem _ _) I).
  - rewrite (proj2 (among_elem RUN_QUALIFIERS t) I). apply run_executes in I. repeat apart_from. by rewrite (proj2 (among_elem _ _) I).
Qed.

Lemma get_says code t v r : lexicon_get t = Some (v, r) -> says code t (enforcement_rank v (Some t) code) v r.
Proof.
  intros G. assert (S : exists k, says code t k v r).
  { rewrite lexicon_get_cases in G. repeat (destruct (among _ t) eqn:?; [apply among_elem in Heqb; injection G as <- <-|clear Heqb]); [..|done].
    - eexists. by apply says_reads.
    - eexists. by apply says_sends.
    - eexists. by apply says_writes.
    - destruct code; [eexists; apply says_executes; auto|]. destruct (decide (t ∈ RUN_QUALIFIERS)); eexists; [by apply says_runs|apply says_executes; auto].
    - eexists. by apply says_destroys. }
  destruct S as [k S]. by destruct (says_get _ _ _ _ _ S) as [_ ->].
Qed.

Section Names.
Context `{Unicode}.

Lemma name_matches_elem tokens v r o : (v, r, o) ∈ name_matches tokens <-> exists t, o = Some t /\ t ∈ tokens /\ lexicon_get t = Some (v, r).
Proof.
  unfold name_matches. rewrite list_elem_of_In, in_flat_map. split.
  - intros (t & I & E). apply list_elem_of_In in I. destruct (lexicon_get t) as [[v' r']|] eqn:G; [|done]. destruct E as [E|[]]. injection E as -> -> <-. eauto.
  - intros (t & -> & I & G). exists t. split; [by apply list_elem_of_In|]. rewrite G. by left.
Qed.

(** The verb a name says: destruction first, then what leaves, then code that is run, then writing, then reading, and last that
    something is run. *)
Definition actuates (tokens : list text) : bool := meets tokens ACTUATION_NOUNS && meets tokens CONTROL_VERBS.
Definition executes (tokens : list text) : bool :=
  existsb (fun t => among EXEC_TOKENS t && (meets tokens EXECUTION_OBJECTS || negb (among RUN_QUALIFIERS t))) tokens.
Definition spoken (tokens : list text) : Verb :=
  if actuates tokens || meets tokens DESTRUCTION_TOKENS then DELETE
  else if meets tokens SEND_TOKENS then SEND
  else if executes tokens then DELETE
  else if meets tokens WRITE_TOKENS then WRITE
  else if meets tokens READ_TOKENS then READ
  else if meets tokens RUN_QUALIFIERS then DELETE
  else UNKNOWN.

Lemma meets_says tokens l : meets tokens l = true -> exists t, t ∈ tokens /\ t ∈ l.
Proof. apply meets_exists. Qed.

Lemma meets_not tokens l t : meets tokens l = false -> t ∈ tokens -> t ∈ l -> False.
Proof. intros M I L. assert (meets tokens l = true) by (apply meets_exists; eauto). congruence. Qed.

Lemma executes_exists tokens : executes tokens = true <-> exists t, t ∈ tokens /\ t ∈ EXEC_TOKENS /\ (meets tokens EXECUTION_OBJECTS = true \/ t ∉ RUN_QUALIFIERS).
Proof.
  unfold executes. rewrite existsb_exists. split.
  - intros (t & I & E). apply list_elem_of_In in I. apply andb_true_iff in E as [E C]. apply among_elem in E. exists t. split_and!; [done|done|].
    apply orb_true_iff in C as [C|C]; [by left|right]. apply negb_true_iff in C. by apply bool_decide_eq_false in C.
  - intros (t & I & E & C). exists t. split; [by apply list_elem_of_In|]. apply andb_true_iff. split; [by apply among_elem|]. apply orb_true_iff.
    destruct C as [C|C]; [by left|right]. apply negb_true_iff. by apply bool_decide_eq_false.
Qed.

(** No token says what the name does not. *)
Ltac unsaid := match goal with
  | M : meets ?ts ?l = false, I : ?t ∈ ?ts, L : ?t ∈ ?l |- _ => destruct (meets_not _ _ _ M I L)
  | M : executes ?ts = false, I : ?t ∈ ?ts, L : ?t ∈ EXEC_TOKENS, C : _ \/ ?t ∉ RUN_QUALIFIERS |- _ =>
      rewrite (proj2 (executes_exists ts) (ex_intro _ t (conj I (conj L C)))) in M; discriminate M
  end.

(** The token of the highest rank says the verb of the name. *)
Lemma top_token_speaks tokens t k v r : let code := meets tokens EXECUTION_OBJECTS in
  actuates tokens = false -> t ∈ tokens -> says code t k v r -> (forall t' k' v' r', t' ∈ tokens -> says code t' k' v' r' -> k' <= k) -> v = spoken tokens.
Proof.
  intros code Ac I S Top. unfold spoken. rewrite Ac. cbn [orb].
  assert (At : forall l rank w g, (forall t', t' ∈ l -> says code t' rank w g) -> meets tokens l = true -> rank <= k).
  { intros l rank w g Sl M. apply meets_exists in M as (t' & I' & L). by eapply Top, Sl. }
  destruct (meets tokens DESTRUCTION_TOKENS) eqn:MD; [apply (At _ 4 DELETE CRITICAL (says_destroys code)) in MD; inversion S; subst; (done || lia)|].
  destruct (meets tokens SEND_TOKENS) eqn:MS; [apply (At _ 3 SEND HIGH (says_sends code)) in MS; inversion S; subst; (done || lia || unsaid)|].
  destruct (executes tokens) eqn:ME.
  { apply executes_exists in ME as (t' & I' & L & C). pose proof (Top _ _ _ _ I' (says_executes code t' L C)). inversion S; subst; (done || lia || unsaid). }
  destruct (meets tokens WRITE_TOKENS) eqn:MW; [apply (At _ 1 WRITE HIGH (says_writes code)) in MW; inversion S; subst; (done || lia || unsaid)|].
  destruct (meets tokens READ_TOKENS) eqn:MR; [apply (At _ 0 READ LOW (says_reads code)) in MR; inversion S; subst; (done || lia || unsaid)|].
  inversion S; subst; try unsaid. by rewrite (proj2 (meets_exists tokens RUN_QUALIFIERS)) by eauto.
Qed.

Lemma silent_name tokens : actuates tokens = false -> name_matches tokens = [] -> spoken tokens = UNKNOWN.
Proof.
  intros Ac N. assert (F : forall t k v r, t ∈ tokens -> says (meets tokens EXECUTION_OBJECTS) t k v r -> False).
  { intros t k v r I S. apply says_get in S as [G _]. assert (M : (v, r, Some t) ∈ name_matches tokens) by (apply name_matches_elem; eauto).
    rewrite N in M. by apply elem_of_nil in M. }
  assert (M : forall l, (forall t, t ∈ l -> exists k v r, says (meets tokens EXECUTION_OBJECTS) t k v r) -> meets tokens l = false).
  { intros l Sl. destruct (meets tokens l) eqn:Ml; [|done]. apply meets_exists in Ml as (t & I & L). destruct (Sl t L) as (k & v & r & S). by destruct (F t k v r I). }
  assert (E : meets tokens EXEC_TOKENS = false).
  { apply M. intros t L. destruct (get_says (meets tokens EXECUTION_OBJECTS) t DELETE CRITICAL); [|eauto using says..].
    rewrite lexicon_get_cases. repeat apart_from. by rewrite (proj2 (among_elem _ _) L). }
  assert (X : executes tokens = false).
  { destruct (executes tokens) eqn:X; [|done]. apply executes_exists in X as (t & I & L & _). by destruct (meets_not _ _ _ E I L). }
  assert (R : meets tokens RUN_QUALIFIERS = false).
  { destruct (meets tokens RUN_QUALIFIERS) eqn:R; [|done]. apply meets_exists in R as (t & I & L). by destruct (meets_not _ _ _ E I (run_executes _ L)). }
  unfold spoken. rewrite Ac, X, R, !M; [done|..]; intros t L; eauto using says.
Qed.

(** ** The verb, in closed form *)

Definition argued (params : option value) : Verb := match classify_params params with Some (v, _) => v | None => UNKNOWN end.
Definition said (name : text) (params : option value) : Verb :=
  match spoken (tokenize_tool name) with UNKNOWN => argued params | v => v end.

Lemma raised_other tokens params v : v <> READ -> v <> WRITE -> raised tokens params v = v.
Proof. intros R W. unfold raised. destruct params; [|done]. rewrite bool_decide_false by tauto. done. Qed.

(** The verb of a call is what its name says, by the precedence above; what its arguments say where the name says nothing;
    and, where the name says it runs a read or a write, whatever worse thing a string of the arguments says. *)
Lemma classify_verb name params :
  (classify_tool name params).1 = raised (tokenize_tool name) params (said name params).
Proof.
  unfold classify_tool, said. set (tokens := tokenize_tool name). fold (actuates tokens). destruct (actuates tokens) eqn:Ac.
  { unfold spoken. rewrite Ac. cbn [orb fst]. by rewrite raised_other. }
  destruct (name_matches tokens) as [|m ms] eqn:N.
  - rewrite (silent_name tokens) by done. unfold argued. destruct (classify_params params) as [[v r]|]; [done|]. cbn [fst]. by rewrite raised_other.
  - cbn [fst]. f_equal. set (key := fun x : Match => (enforcement_rank x.1.1 x.2 (meets tokens EXECUTION_OBJECTS), VERB_ORDER x.1.1)).
    destruct (max_by_spec key ms m) as (M & B & R). set (x := max_by key m ms) in *.
    assert (Ix : x ∈ name_matches tokens) by (rewrite N; destruct M as [->|M]; [by left|by right]).
    assert (Top : forall y, y ∈ name_matches tokens -> key_lt (key x) (key y) = false).
    { rewrite N. intros y [->|Iy]%elem_of_cons; [done|by apply R]. }
    destruct x as [[v r] o]. apply name_matches_elem in Ix as (t & -> & I & G). cbn [fst].
    assert (V : v = spoken tokens).
    { apply (top_token_speaks tokens t _ v r Ac I (get_says _ _ _ _ G)). intros t' k' v' r' I' S'. apply says_get in S' as [G' <-].
      specialize (Top (v', r', Some t') (proj2 (name_matches_elem _ _ _ _) (ex_intro _ t' (conj eq_refl (conj I' G'))))).
      rewrite <- not_true_iff_false, key_lt_spec in Top. cbn in Top. cbn. lia. }
    apply (get_says false) in G. rewrite <- V. by inversion G.
Qed.

(** The risk of a call is the worst its name says, and what its arguments say where the name says nothing. *)
Definition graded (tokens : list text) : option RiskLevel :=
  if actuates tokens || meets tokens DESTRUCTION_TOKENS || meets tokens EXEC_TOKENS then Some CRITICAL
  else if meets tokens SEND_TOKENS || meets tokens WRITE_TOKENS then Some HIGH
  else if meets tokens READ_TOKENS then Some LOW
  else None.

Lemma lexicon_tokens t v r : lexicon_get t = Some (v, r) ->
  (r = CRITICAL /\ (t ∈ DESTRUCTION_TOKENS \/ t ∈ EXEC_TOKENS)) \/ (r = HIGH /\ (t ∈ SEND_TOKENS \/ t ∈ WRITE_TOKENS)) \/ (r = LOW /\ t ∈ READ_TOKENS).
Proof. intros G. apply (get_says true) in G. inversion G; subst; auto 6 using run_executes. Qed.

Definition tokens_at (l : list text) (r : RiskLevel) : Prop :=
  (r = CRITICAL /\ (l = DESTRUCTION_TOKENS \/ l = EXEC_TOKENS)) \/ (r = HIGH /\ (l = SEND_TOKENS \/ l = WRITE_TOKENS)) \/ (r = LOW /\ l = READ_TOKENS).

Lemma lexicon_worst t l r : tokens_at l r ->
  t ∈ l -> exists v, lexicon_get t = Some (v, r).
Proof.
  intros C I. rewrite lexicon_get_cases. destruct C as [[-> [->| ->]]|[[-> [->| ->]]|[-> ->]]]; repeat apart_from; rewrite (proj2 (among_elem _ _) I); eauto.
Qed.

Lemma name_risk tokens m ms : actuates tokens = false -> name_matches tokens = m :: ms ->
  graded tokens = Some (max_by (fun x : Match => (RISK_ORDER x.1.2, 0)) m ms).1.2.
Proof.
  intros Ac N. set (key := fun x : Match => (RISK_ORDER x.1.2, 0)). destruct (max_by_spec key ms m) as (M & B & R). set (x := max_by key m ms) in *.
  assert (Ix : x ∈ name_matches tokens) by (rewrite N; destruct M as [->|M]; [by left|by right]).
  assert (Top : forall v r t, t ∈ tokens -> lexicon_get t = Some (v, r) -> RISK_ORDER r <= RISK_ORDER x.1.2).
  { intros v r t I G. assert (Iy : (v, r, Some t) ∈ name_matches tokens) by (apply name_matches_elem; eauto). rewrite N in Iy.
    assert (K : key_lt (key x) (key (v, r, Some t)) = false) by (apply elem_of_cons in Iy as [->|Iy]; [done|by apply R]).
    rewrite <- not_true_iff_false, key_lt_spec in K. cbn in K. lia. }
  clearbody x. destruct x as [[v r] o]. apply name_matches_elem in Ix as (t & -> & I & G). cbn [fst snd] in *.
  assert (At : forall l r', tokens_at l r' ->
    meets tokens l = true -> RISK_ORDER r' <= RISK_ORDER r).
  { intros l r' C Ml. apply meets_exists in Ml as (t' & I' & L). destruct (lexicon_worst t' l r' C L) as [v' G']. by eapply Top. }
  apply lexicon_tokens in G. unfold graded. rewrite Ac. cbn [orb].
  destruct (meets tokens DESTRUCTION_TOKENS) eqn:MD; [apply (At _ CRITICAL) in MD; [|unfold tokens_at; tauto]; destruct G as [[-> _]|[[-> _]|[-> _]]]; cbn in *; (done || lia)|].
  destruct (meets tokens EXEC_TOKENS) eqn:ME; [apply (At _ CRITICAL) in ME; [|unfold tokens_at; tauto]; destruct G as [[-> _]|[[-> _]|[-> _]]]; cbn in *; (done || lia)|].
  cbn [orb]. destruct (meets tokens SEND_TOKENS) eqn:MS; [apply (At _ HIGH) in MS; [|unfold tokens_at; tauto]; destruct G as [[-> [?|?]]|[[-> _]|[-> _]]]; try unsaid; cbn in *; (done || lia)|].
  destruct (meets tokens WRITE_TOKENS) eqn:MW; [apply (At _ HIGH) in MW; [|unfold tokens_at; tauto]; destruct G as [[-> [?|?]]|[[-> _]|[-> _]]]; try unsaid; cbn in *; (done || lia)|].
  destruct G as [[_ [?|?]]|[[_ [?|?]]|[-> L]]]; try unsaid. by rewrite (proj2 (meets_exists tokens READ_TOKENS)) by eauto.
Qed.

Lemma ungraded_name tokens : actuates tokens = false -> name_matches tokens = [] -> graded tokens = None.
Proof.
  intros Ac N. assert (M : forall l r, tokens_at l r ->
    meets tokens l = false).
  { intros l r C. destruct (meets tokens l) eqn:Ml; [|done]. apply meets_exists in Ml as (t & I & L). destruct (lexicon_worst t l r C L) as [v G].
    assert (Iy : (v, r, Some t) ∈ name_matches tokens) by (apply name_matches_elem; eauto). rewrite N in Iy. by apply elem_of_nil in Iy. }
  unfold graded. rewrite Ac, (M DESTRUCTION_TOKENS CRITICAL), (M EXEC_TOKENS CRITICAL), (M SEND_TOKENS HIGH), (M WRITE_TOKENS HIGH), (M READ_TOKENS LOW) by (unfold tokens_at; tauto). done.
Qed.

(** C26: The classification in closed form.  The verb is what the name says, in the order destruction, egress, execution, writing,
    reading, and last that something is run; what the arguments say where the name says nothing; and, where the
    name runs a read or a write, whatever worse thing a string of the arguments says.  The risk is the worst
    of what the name says, and of the arguments only where the name says nothing. *)
Theorem classification_exact name params :
  classify_tool name params =
  (raised (tokenize_tool name) params (said name params),
   match graded (tokenize_tool name) with Some r => Some r | None => snd <$> classify_params params end).
Proof.
  rewrite (surjective_pairing (classify_tool name params)), classify_verb. f_equal. unfold classify_tool. set (tokens := tokenize_tool name).
  fold (actuates tokens). destruct (actuates tokens) eqn:Ac; [by unfold graded; rewrite Ac|]. destruct (name_matches tokens) as [|m ms] eqn:N.
  - rewrite ungraded_name by done. by destruct (classify_params params) as [[v r]|].
  - rewrite (name_risk _ _ _ Ac N). done.
Qed.

Lemma spoken_run tokens : meets tokens RUN_QUALIFIERS = true -> spoken tokens <> UNKNOWN.
Proof. intros R. unfold spoken. rewrite R. by repeat case_match. Qed.

Lemma signal_writes p v : payload_write_signal p = Some v -> v = DELETE \/ v = WRITE.
Proof. rewrite payload_write_signal_exact. unfold weighed. repeat case_match; intros [= <-]; auto. Qed.

(** C25: A read through a tool that runs what it is given is a proved read: if the name says that something is run and the verb
    is still [read], no string of the arguments, key or value and at any depth, contains a word that writes or destroys. *)
Theorem read_is_proved name params :
  (classify_tool name (Some params)).1 = READ -> meets (tokenize_tool name) RUN_QUALIFIERS = true ->
  forall s w, s ∈ strings_of params -> w ∈ payload_tokens s -> keyword w = false.
Proof.
  rewrite classify_verb. intros V R. apply no_signal. destruct (payload_write_signal params) as [stated|] eqn:E; [|done].
  unfold raised in V. rewrite E, R, andb_true_r in V. case_bool_decide as C.
  - destruct (_ <? _) eqn:L in V; [subst; by apply signal_writes in E as [?|?]|]. apply Z.ltb_ge in L. rewrite V in L.
    apply signal_writes in E as [->| ->]; cbn in L; lia.
  - destruct C. by left.
Qed.

(** The arguments never lower what the name says: where the name says anything, the verb with the arguments is at least as
    consequential as the verb of the name alone. *)
Theorem arguments_only_raise name params : (classify_tool name None).1 <> UNKNOWN ->
  VERB_ORDER (classify_tool name None).1 <= VERB_ORDER (classify_tool name (Some params)).1.
Proof.
  rewrite !classify_verb. unfold said. cbn [raised]. intros N.
  assert (E : forall p, match spoken (tokenize_tool name) with UNKNOWN => argued p | v => v end = spoken (tokenize_tool name)).
  { intros p. destruct (spoken _); done. }
  rewrite !E in *. unfold raised. destruct (_ && _); [|lia]. destruct (payload_write_signal params); [|lia]. destruct (Z.ltb_spec (VERB_ORDER (spoken (tokenize_tool name))) (VERB_ORDER v)); lia.
Qed.

Lemma spaced_after_small t : existsb is_upper t = false -> forall p, spaced_after p t = t.
Proof.
  induction t as [|c t IH]; intros U p; [done|]. cbn [existsb] in U. apply orb_false_iff in U as [C U]. cbn [spaced_after]. rewrite C, andb_false_r, IH by done. done.
Qed.

(** A name in small letters with some of them replaced by look-alikes is classified as the name it looks like. *)
Theorem disguised_tool_classified name name' params :
  is_ascii name = true -> settled name -> settled name' -> Forall2 looks_like name name' ->
  existsb is_upper name = false -> existsb is_upper name' = false -> classify_tool name' params = classify_tool name params.
Proof.
  intros A S S' L U U'. assert (T : tokenize_tool name' = tokenize_tool name).
  { unfold tokenize_tool, camel_spaced. rewrite !spaced_after_small by done. by rewrite (homoglyphs_unmasked name name'). }
  unfold classify_tool. by rewrite T.
Qed.
End Names.

(** ** Examples *)

Module Tools.

Definition verb (name : string) (params : option value) : Verb := (classify_tool (points name) params).1.
Definition sql (s : string) : option value := Some (VObj [(points "query", VStr (points s))]).

Example names : map (fun n => verb n None) ["aws_s3_DeleteObject"; "run_export"; "shell_get_env"; "delete_email"; "run_query"; "run_report"; "open_relay"; "acme_widget"] =
  [DELETE; SEND; DELETE; DELETE; READ; DELETE; DELETE; UNKNOWN].
Proof. vm_compute. reflexivity. Qed.

Example statements : map (fun q => verb "run_query" (sql q)) ["select id from orders"; "SELECT 1; /* x */UPDATE/**/users"; "MATCH (n) DETACH DELETE n"; "select update_count"] =
  [READ; WRITE; DELETE; READ].
Proof. vm_compute. reflexivity. Qed.

(** Ranked by its tokens alone, a relay that is opened would be a message that is relayed. *)
Example ranking_alone_sends : match name_matches (tokenize_tool (points "open_relay")) with
  | m :: ms => (max_by (fun x : Match => (enforcement_rank x.1.1 x.2 false, VERB_ORDER x.1.1)) m ms).1.1
  | [] => UNKNOWN
  end = SEND /\ verb "open_relay" None = DELETE.
Proof. vm_compute. done. Qed.

Lemma read_is_proved_witness : keyword (points "orders") = false.
Proof.
  apply (read_is_proved (points "run_query") (VObj [(points "query", VStr (points "select id from orders"))])) with (s := points "select id from orders").
  - vm_compute. reflexivity.
  - vm_compute. reflexivity.
  - right. left.
  - apply (bool_decide_unpack _). vm_compute. exact I.
Defined.

Lemma arguments_only_raise_witness : VERB_ORDER (verb "run_query" None) <= VERB_ORDER (verb "run_query" (sql "drop table orders")).
Proof.
  apply (arguments_only_raise (points "run_query") (VObj [(points "query", VStr (points "drop table orders"))])). vm_compute. discriminate.
Defined.

(** [dеlete_rеcords], with a Cyrillic letter for each e but two. *)
Definition disguised : text := [100; 1077; 108; 101; 116; 101; 95; 114; 1077; 99; 111; 114; 100; 115].

Lemma disguised_tool_classified_witness : classify_tool disguised None = (DELETE, Some CRITICAL).
Proof.
  rewrite (disguised_tool_classified (points "delete_records") disguised None); [vm_compute; reflexivity|done|..].
  - repeat split; by repeat constructor.
  - repeat split; by repeat constructor.
  - unfold disguised. change (points "delete_records") with [100; 101; 108; 101; 116; 101; 95; 114; 101; 99; 111; 114; 100; 115].
    repeat (constructor; [first [by left|by right]|]). constructor.
  - reflexivity.
  - reflexivity.
Defined.

End Tools.
