(* ===== verification/Sources.v ===== *)
(** * What a source exposes ([engine/capability/source_registry.py], the registry)

    The verbs a kind of data source offers, with their risks, and how a console reads them: which verb of
    a source a tool exercises, which verbs are undefended or granted without use, and what a defence that
    takes verbs away has to match. *)

From stdpp Require Import sorting.
From S2P Require Import Prelude.
From S2P Require Import Text.
From S2P Require Import Json.
From S2P Require Import Capability.

Inductive SourceClass := DATASTORE | EGRESS | OBJECT_STORE | UNKNOWN_CLASS.
Inductive CapabilityStatus := UNDEFENDED | DORMANT_GRANT | DEFENDED | LATENT | NOT_EXPOSED.

#[export] Instance CapabilityStatus_eq_dec : EqDecision CapabilityStatus.
Proof. solve_decision. Defined.

Record VerbSpec := {
  vs_verb : Verb; vs_risk : RiskLevel; vs_technique : option string; vs_label : string; vs_fragments : list string; vs_fix : text }.
Record SourceSpec := {
  ss_type : string; ss_class : SourceClass; ss_display : string; ss_wave : Z; ss_verbs : list VerbSpec }.
Record VerbFinding := {
  f_verb : Verb; f_risk : RiskLevel; f_technique : option string; f_label : string; f_status : CapabilityStatus;
  f_granted : bool; f_observed : bool; f_defended : bool; f_recommendation : text }.

(** The values of the enumerations. *)
Definition verb_value (v : Verb) : string :=
  match v with READ => "read" | WRITE => "write" | DELETE => "delete" | SEND => "send" | UNKNOWN => "unknown" end.
Definition risk_value (r : RiskLevel) : string := match r with CRITICAL => "critical" | HIGH => "high" | MEDIUM => "medium" | LOW => "low" end.
Definition status_value (s : CapabilityStatus) : string :=
  match s with UNDEFENDED => "undefended" | DORMANT_GRANT => "dormant_grant" | DEFENDED => "defended" | LATENT => "latent" | NOT_EXPOSED => "not_exposed" end.
Definition class_value (c : SourceClass) : string :=
  match c with DATASTORE => "datastore" | EGRESS => "egress" | OBJECT_STORE => "object_store" | UNKNOWN_CLASS => "unknown" end.

Definition dash : text := [32; 8212; 32].
Definition str (s : string) : value := VStr (points s).

Definition as_dict (f : VerbFinding) : value :=
  VObj [(points "verb", str (verb_value (f_verb f))); (points "risk", str (risk_value (f_risk f)));
        (points "technique", match f_technique f with Some t => str t | None => VNull end); (points "label", str (f_label f));
        (points "status", str (status_value (f_status f))); (points "granted", VBool (f_granted f)); (points "observed", VBool (f_observed f));
        (points "defended", VBool (f_defended f)); (points "recommendation", VStr (f_recommendation f))].

(** ** The registry *)

Definition READ_SPEC : VerbSpec :=
  {| vs_verb := READ; vs_risk := LOW; vs_technique := None; vs_label := "read / search";
     vs_fragments := ["search"; "read"; "get"; "list"; "query"; "fetch"; "select"; "scan"]; vs_fix := points "keep read-only and namespace-scoped" |}.

Definition es_specs : list VerbSpec :=
  [READ_SPEC;
   {| vs_verb := WRITE; vs_risk := HIGH; vs_technique := Some "AML.T0018"; vs_label := "write / index (knowledge poisoning)";
      vs_fragments := ["index"; "write"; "update"; "put"; "upsert"; "bulk"];
      vs_fix := points "block writes to the retrieval index" ++ dash ++ points "a poisoned KB steers every downstream agent" |};
   {| vs_verb := DELETE; vs_risk := CRITICAL; vs_technique := Some "AML.T0048"; vs_label := "delete / drop (availability)";
      vs_fragments := ["delete"; "drop"; "purge"; "truncate"; "clear"];
      vs_fix := points "block destructive verbs" ++ dash ++ points "deletion of the index is an availability attack" |}].

Definition pg_specs : list VerbSpec :=
  [READ_SPEC;
   {| vs_verb := WRITE; vs_risk := HIGH; vs_technique := None; vs_label := "write / update";
      vs_fragments := ["insert"; "write"; "update"; "put"; "upsert"; "modify"]; vs_fix := points "constrain writes to the intended tables/columns" |};
   {| vs_verb := DELETE; vs_risk := CRITICAL; vs_technique := Some "AML.T0048"; vs_label := "delete / drop / truncate";
      vs_fragments := ["delete"; "drop"; "truncate"; "purge"]; vs_fix := points "block destructive SQL (DROP/DELETE/TRUNCATE) for this class" |}].

Definition egress_specs : list VerbSpec :=
  [{| vs_verb := SEND; vs_risk := HIGH; vs_technique := Some "AML.T0040"; vs_label := "send / egress (data exfiltration)";
      vs_fragments := ["send"; "post"; "upload"; "publish"; "webhook"; "http"; "email"; "sms"; "export"];
      vs_fix := points "restrict egress to allowed destinations and scan payloads for secrets/PII" |}].

Definition object_store_specs : list VerbSpec :=
  [READ_SPEC;
   {| vs_verb := WRITE; vs_risk := HIGH; vs_technique := None; vs_label := "put / upload";
      vs_fragments := ["put"; "write"; "upload"; "post"]; vs_fix := points "constrain object writes to intended buckets/prefixes" |};
   {| vs_verb := DELETE; vs_risk := CRITICAL; vs_technique := Some "AML.T0048"; vs_label := "delete object";
      vs_fragments := ["delete"; "remove"; "purge"]; vs_fix := points "block object deletion for this class" |}].

Definition source (t : string) (c : SourceClass) (d : string) (w : Z) (vs : list VerbSpec) : string * SourceSpec :=
  (t, {| ss_type := t; ss_class := c; ss_display := d; ss_wave := w; ss_verbs := vs |}).
Definition REGISTRY : list (string * SourceSpec) :=
  [source "elasticsearch" DATASTORE "Elasticsearch" 1 es_specs; source "postgresql" DATASTORE "PostgreSQL" 1 pg_specs;
   source "smtp" EGRESS "SMTP / email" 2 egress_specs; source "webhook" EGRESS "Webhook" 2 egress_specs;
   source "s3" OBJECT_STORE "S3" 2 object_store_specs; source "filesystem" OBJECT_STORE "Filesystem" 2 object_store_specs].
Definition ALIASES : list (string * string) :=
  [("postgres", "postgresql"); ("psql", "postgresql"); ("pg", "postgresql"); ("es", "elasticsearch"); ("opensearch", "elasticsearch");
   ("mail", "smtp"); ("email", "smtp"); ("ses", "smtp"); ("http", "webhook"); ("https", "webhook"); ("gcs", "s3"); ("blob", "s3");
   ("minio", "s3"); ("fs", "filesystem"); ("file", "filesystem")].

Definition text_get {A} (t : text) (l : list (string * A)) : option A := snd <$> find (fun e => bool_decide (points e.1 = t)) l.
Definition registry_get (source_type : text) : option SourceSpec := text_get source_type REGISTRY.

(** [source_type_of]; the empty text: unknown. *)
Definition before (sep : text) (t : text) : text := match tindex sep t with Some n => take n t | None => t end.
Definition source_type_of (data_uri : text) : text :=
  match data_uri with
  | [] => []
  | _ =>
      let head := lower (tstrip (if tcontains (points "://") data_uri then before (points "://") data_uri else before (points "/") data_uri)) in
      match registry_get head with
      | Some _ => head
      | None => match text_get head ALIASES with Some s => points s | None => [] end
      end
  end.

(** The most dangerous verbs first, in the order of the specification otherwise. *)
Definition by_risk (a b : VerbSpec) : Prop := RISK_ORDER (vs_risk b) <= RISK_ORDER (vs_risk a).
#[export] Instance by_risk_dec : RelDecision by_risk.
Proof. intros a b. unfold by_risk. apply _. Defined.

Definition indicates (name : text) (vs : VerbSpec) : bool := existsb (fun frag => tcontains (points frag) name) (vs_fragments vs).
Definition verb_of_tool (tool_name source_type : text) : Verb :=
  match registry_get source_type with
  | None => UNKNOWN
  | Some spec => match find (indicates (lower tool_name)) (merge_sort by_risk (ss_verbs spec)) with Some vs => vs_verb vs | None => UNKNOWN end
  end.

Definition default_risk_of_verb (v : Verb) : option RiskLevel := DEFAULT_VERB_RISK v.
Definition verb_risk (source_type : text) (v : Verb) : option RiskLevel :=
  spec ← registry_get source_type; vs_risk <$> find (fun vs => bool_decide (vs_verb vs = v)) (ss_verbs spec).

(** ** Findings *)

Definition STATUS_ORDER (s : CapabilityStatus) : Z :=
  match s with UNDEFENDED => 0 | DORMANT_GRANT => 1 | DEFENDED => 2 | LATENT => 3 | NOT_EXPOSED => 4 end.

Definition status_of (granted observed defended : bool) : CapabilityStatus :=
  if observed && negb defended then UNDEFENDED
  else if granted && negb observed then DORMANT_GRANT
  else if observed && defended then DEFENDED
  else LATENT.

Definition finding (spec : SourceSpec) (granted observed defended : list Verb) (vs : VerbSpec) : VerbFinding :=
  let is_granted := bool_decide (vs_verb vs ∈ granted) || bool_decide (vs_verb vs ∈ observed) in
  let is_observed := bool_decide (vs_verb vs ∈ observed) in
  let is_defended := bool_decide (vs_verb vs ∈ defended) in
  let status := status_of is_granted is_observed is_defended in
  {| f_verb := vs_verb vs; f_risk := vs_risk vs; f_technique := vs_technique vs; f_label := vs_label vs; f_status := status;
     f_granted := is_granted; f_observed := is_observed; f_defended := is_defended;
     f_recommendation :=
       match status with
       | UNDEFENDED => vs_fix vs ++ dash ++ points (ss_display spec)
       | DORMANT_GRANT => points "grant is unused" ++ dash ++ points ("revoke " +:+ verb_value (vs_verb vs) +:+ " on " +:+ ss_display spec +:+ " (least privilege)")
       | _ => []
       end |}.

(** The order of the findings: worst first. *)
Definition worse (a b : VerbFinding) : Prop :=
  STATUS_ORDER (f_status a) < STATUS_ORDER (f_status b) \/
  (STATUS_ORDER (f_status a) = STATUS_ORDER (f_status b) /\ RISK_ORDER (f_risk b) <= RISK_ORDER (f_risk a)).
#[export] Instance worse_dec : RelDecision worse.
Proof. intros a b. unfold worse. apply _. Defined.

Definition classify_source (source_type : text) (granted observed defended : list Verb) : list VerbFinding :=
  match registry_get source_type with
  | None => []
  | Some spec => merge_sort worse (map (finding spec granted observed defended) (ss_verbs spec))
  end.

Definition is_open (f : VerbFinding) : bool := bool_decide (f_status f = UNDEFENDED \/ f_status f = DORMANT_GRANT).
Definition worst_open_verb (findings : list VerbFinding) : option VerbFinding :=
  match List.filter is_open findings with
  | [] => None
  | f :: fs => Some (max_by (fun f => (RISK_ORDER (f_risk f), if bool_decide (f_status f = UNDEFENDED) then 1 else 0)) f fs)
  end.

Definition source_meta (source_type : text) : option value :=
  spec ← registry_get source_type;
  Some (VObj [(points "source_type", str (ss_type spec)); (points "source_class", str (class_value (ss_class spec)));
              (points "display", str (ss_display spec)); (points "wave", VInt (ss_wave spec))]).

(** ** Defences *)

Definition MUTATING : list Verb := [WRITE; DELETE; SEND].
Definition verb_display (v : Verb) : string := match v with READ => "read" | WRITE => "write" | DELETE => "delete" | SEND => "send" | UNKNOWN => "?" end.

Definition mutating_verbs_of (source_type : text) : list Verb :=
  match registry_get source_type with
  | None => []
  | Some spec => filter (fun v => v ∈ map vs_verb (ss_verbs spec)) MUTATING
  end.

(** Fragments: a set, the longest first. *)
Definition longer (a b : text) : Prop := (length b < length a)%nat \/ (length a = length b /\ text_le a b).
#[export] Instance longer_dec : RelDecision longer.
Proof. intros a b. unfold longer. apply _. Defined.

Definition spec_fragments (want : list Verb) (vs : VerbSpec) : list text :=
  if bool_decide (vs_verb vs ∈ want)
  then map (fun f => lower (tstrip (points f))) (filter (fun f => tstrip (points f) <> []) (vs_fragments vs)) else [].
Definition verb_fragments (source_type : text) (verbs : list Verb) : list text :=
  match registry_get source_type with
  | None => []
  | Some spec => merge_sort longer (remove_dups (flat_map (spec_fragments (filter (fun v => v ∈ MUTATING) verbs)) (ss_verbs spec)))
  end.

(** [defense_meta]. *)
Definition by_verb (spec : SourceSpec) (v : Verb) : option VerbSpec := find (fun vs => bool_decide (vs_verb vs = v)) (reverse (ss_verbs spec)).
Definition target_risk (spec : SourceSpec) (v : Verb) : Z := match by_verb spec v with Some vs => RISK_ORDER (vs_risk vs) | None => 0 end.
Definition riskier (spec : SourceSpec) (a b : Verb) : Prop := target_risk spec b <= target_risk spec a.
#[export] Instance riskier_dec spec : RelDecision (riskier spec).
Proof. intros a b. unfold riskier. apply _. Defined.

Fixpoint join_with (sep : string) (l : list string) : string :=
  match l with [] => "" | [x] => x | x :: l' => x +:+ sep +:+ join_with sep l' end.

Record DefenseMeta := {
  d_verbs : list Verb; d_rule_id : text; d_reason : text; d_risk : RiskLevel; d_technique : option string; d_display : string; d_read_only : bool }.

Definition same_verbs (a b : list Verb) : bool := bool_decide (Forall (fun v => v ∈ b) a) && bool_decide (Forall (fun v => v ∈ a) b).

Definition defense_meta (source_type : text) (verbs : list Verb) : option DefenseMeta :=
  spec ← registry_get source_type;
  match merge_sort (riskier spec) (filter (fun v => is_Some (by_verb spec v) /\ v ∈ MUTATING) verbs) with
  | [] => None
  | (v :: _) as targets =>
      worst ← by_verb spec v;
      Some {| d_verbs := targets;
              d_rule_id := points "capability:" ++ source_type ++ points ":" ++ points (join_with "+" (map verb_display targets));
              d_reason := points ("Blocked: " +:+ join_with "/" (map verb_display targets) +:+ " on " +:+ ss_display spec +:+ " for this class (capability policy") ++ dash ++ points "least privilege)";
              d_risk := vs_risk worst; d_technique := vs_technique worst; d_display := ss_display spec;
              d_read_only := same_verbs targets (mutating_verbs_of source_type) |}
  end.

(** ** What the console reads *)

(** Every finding says whether its verb is open, and that is exactly whether it was used without a defence or granted without
    use. *)
Lemma open_exact spec granted observed defended vs : let f := finding spec granted observed defended vs in
  is_open f = true <-> (vs_verb vs ∈ observed /\ vs_verb vs ∉ defended) \/ (vs_verb vs ∈ granted /\ vs_verb vs ∉ observed).
Proof.
  cbn. unfold is_open, finding, status_of. cbn [f_status]. rewrite bool_decide_eq_true.
  repeat case_bool_decide; cbn [andb orb negb]; naive_solver.
Qed.

#[local] Instance worse_trans : Transitive worse.
Proof. intros a b c. unfold worse. lia. Qed.
#[local] Instance worse_total : Total worse.
Proof. intros a b. unfold worse. lia. Qed.

(** The findings of a known source: one for each verb it exposes, the worst first. *)
Theorem findings_complete_and_sorted source_type spec granted observed defended :
  registry_get source_type = Some spec ->
  classify_source source_type granted observed defended ≡ₚ map (finding spec granted observed defended) (ss_verbs spec) /\
  StronglySorted worse (classify_source source_type granted observed defended).
Proof.
  intros R. unfold classify_source. rewrite R. split; [apply merge_sort_Permutation|apply StronglySorted_merge_sort; apply _].
Qed.

Lemma worst_open_spec findings :
  match worst_open_verb findings with
  | Some f => f ∈ findings /\ is_open f = true /\ forall g, g ∈ findings -> is_open g = true -> RISK_ORDER (f_risk g) <= RISK_ORDER (f_risk f)
  | None => forall g, g ∈ findings -> is_open g = false
  end.
Proof.
  unfold worst_open_verb. assert (F : forall g, g ∈ List.filter is_open findings <-> g ∈ findings /\ is_open g = true).
  { intros g. by rewrite !list_elem_of_In, filter_In. }
  destruct (List.filter is_open findings) as [|f fs].
  - intros g I. destruct (is_open g) eqn:O; [|done]. assert (N : g ∈ @nil VerbFinding) by (by apply F). by apply elem_of_nil in N.
  - destruct (max_by_spec (fun f => (RISK_ORDER (f_risk f), if bool_decide (f_status f = UNDEFENDED) then 1 else 0)) fs f) as (M & B & R).
    set (x := max_by _ f fs) in *. assert (Ix : x ∈ f :: fs) by (destruct M as [->|M]; [by left|by right]). apply F in Ix as [Ix Ox]. split_and!; [done|done|].
    intros g Ig Og. assert (K : key_lt (RISK_ORDER (f_risk x), if bool_decide (f_status x = UNDEFENDED) then 1 else 0)
      (RISK_ORDER (f_risk g), if bool_decide (f_status g = UNDEFENDED) then 1 else 0) = false).
    { assert (J : g ∈ f :: fs) by (by apply F). apply elem_of_cons in J as [->|J]; [done|by apply R]. }
    rewrite <- not_true_iff_false, key_lt_spec in K. cbn in K. lia.
Qed.

(** The severity a source carries is that of its gravest gap: a verb used without a defence, or granted without use, and none
    graver; and no severity at all only if the source has no gap. *)
Theorem severity_is_gravest_gap source_type spec granted observed defended :
  registry_get source_type = Some spec ->
  let gap vs := (vs_verb vs ∈ observed /\ vs_verb vs ∉ defended) \/ (vs_verb vs ∈ granted /\ vs_verb vs ∉ observed) in
  match worst_open_verb (classify_source source_type granted observed defended) with
  | Some f => (exists vs, vs ∈ ss_verbs spec /\ gap vs /\ f_verb f = vs_verb vs /\ f_risk f = vs_risk vs) /\
              forall vs, vs ∈ ss_verbs spec -> gap vs -> RISK_ORDER (vs_risk vs) <= RISK_ORDER (f_risk f)
  | None => forall vs, vs ∈ ss_verbs spec -> ~ gap vs
  end.
Proof.
  intros R gap. pose proof (worst_open_spec (classify_source source_type granted observed defended)) as W.
  assert (P : forall g, g ∈ classify_source source_type granted observed defended <-> exists vs, g = finding spec granted observed defended vs /\ vs ∈ ss_verbs spec).
  { intros g. unfold classify_source. rewrite R, merge_sort_Permutation. apply list_elem_of_fmap. }
  assert (G : forall vs, is_open (finding spec granted observed defended vs) = true <-> gap vs) by (intros vs; apply open_exact).
  destruct (worst_open_verb _) as [f|].
  - destruct W as (I & O & T). apply P in I as (vs & -> & I). split; [exists vs; split_and!; [done|by apply G|done|done]|].
    intros vs' I' G'. apply (T (finding spec granted observed defended vs')); [apply P; eauto|by apply G].
  - intros vs I Gv. apply G in Gv. rewrite W in Gv; [done|]. apply P. eauto.
Qed.

(** ** What a defence matches *)

Lemma registry_specs source_type spec : registry_get source_type = Some spec -> spec ∈ map snd REGISTRY.
Proof.
  unfold registry_get, text_get. destruct (find _ REGISTRY) as [e|] eqn:F; [|done]. intros [= <-]. apply find_some in F as [I _].
  apply list_elem_of_fmap. exists e. split; [done|by apply list_elem_of_In].
Qed.

Definition fragments_clean (spec : SourceSpec) : bool :=
  forallb (fun vs => forallb (fun f => bool_decide (tstrip (points f) <> [] /\ lower (tstrip (points f)) = points f)) (vs_fragments vs)) (ss_verbs spec).

Lemma registry_clean : forallb fragments_clean (map snd REGISTRY) = true.
Proof. vm_compute. reflexivity. Qed.

Lemma not_mutating : READ ∉ MUTATING /\ UNKNOWN ∉ MUTATING.
Proof. split; by apply (bool_decide_eq_false _). Qed.

(** A defence is a forward guard: a tool, known or not yet seen, whose name says it would use one of the verbs taken away
    contains one of the fragments the defence blocks. *)
Theorem defence_covers_tools source_type verbs tool_name :
  verb_of_tool tool_name source_type ∈ verbs -> verb_of_tool tool_name source_type ∈ MUTATING ->
  exists frag, frag ∈ verb_fragments source_type verbs /\ tcontains frag (lower tool_name) = true.
Proof.
  unfold verb_of_tool, verb_fragments. destruct (registry_get source_type) as [spec|] eqn:R; [|intros _ M; by destruct not_mutating].
  destruct (find _ _) as [vs|] eqn:F; [|intros _ M; by destruct not_mutating].
  intros V M. apply find_some in F as [I D]. apply list_elem_of_In in I. rewrite merge_sort_Permutation in I.
  unfold indicates in D. apply existsb_exists in D as (frag & If & C). exists (points frag). split; [|done].
  assert (Cl : tstrip (points frag) <> [] /\ lower (tstrip (points frag)) = points frag).
  { pose proof registry_clean as K. rewrite forallb_forall in K. specialize (K spec). rewrite <- list_elem_of_In in K. specialize (K (registry_specs _ _ R)).
    unfold fragments_clean in K. rewrite forallb_forall in K. specialize (K vs (proj1 (list_elem_of_In _ _) I)). rewrite forallb_forall in K.
    specialize (K frag If). by apply bool_decide_eq_true in K. }
  rewrite merge_sort_Permutation, elem_of_remove_dups. apply list_elem_of_In, in_flat_map. exists vs. split; [by apply list_elem_of_In|].
  apply list_elem_of_In. unfold spec_fragments. rewrite bool_decide_true by (by apply list_elem_of_filter). apply list_elem_of_fmap. exists frag.
  split; [symmetry; apply Cl|]. apply list_elem_of_filter. split; [apply Cl|by apply list_elem_of_In].
Qed.

(** And reading is never taken away. *)
Lemma defence_spares_reads source_type : READ ∉ mutating_verbs_of source_type.
Proof. unfold mutating_verbs_of. destruct (registry_get source_type); [|apply not_elem_of_nil]. rewrite list_elem_of_filter. intros [_ M]. by destruct not_mutating. Qed.

Module Postgres.

Definition pg : text := points "postgresql".

Example uri : source_type_of (points "PG://orders") = pg /\ verb_of_tool (points "drop_old_rows") pg = DELETE.
Proof. vm_compute. done. Qed.

Lemma severity_is_gravest_gap_witness : option_map f_verb (worst_open_verb (classify_source pg [DELETE] [READ] [READ])) = Some DELETE.
Proof.
  destruct (registry_get pg) as [spec|] eqn:R; [|vm_compute in R; discriminate].
  pose proof (severity_is_gravest_gap pg spec [DELETE] [READ] [READ] R) as W. cbv zeta in W.
  destruct (worst_open_verb _) as [f|] eqn:E in W |- *; [|vm_compute in E; discriminate].
  vm_compute in E. injection E as <-. reflexivity.
Defined.

Lemma defence_covers_tools_witness : exists frag, frag ∈ verb_fragments pg [DELETE; WRITE] /\ tcontains frag (points "purge_audit_log") = true.
Proof.
  apply (defence_covers_tools pg [DELETE; WRITE] (points "purge_audit_log")); apply (bool_decide_unpack _); vm_compute; exact I.
Defined.

End Postgres.
