(* ===== verification/Base64.v ===== *)
(** * Base64 and UTF-8 as Python decodes them

    [binascii.a2b_base64] in its lenient mode, [bytes.decode("utf-8")] in its strict one, and, to say what
    is read back, the encoder of RFC 4648. *)

From S2P Require Import Prelude.
From S2P Require Import Text.

(** ** Decoding *)

(** The value of a character of the alphabet. *)
Definition sextet (c : Z) : option Z :=
  if is_upper c then Some (c - 65) else if is_lower c then Some (c - 71) else if is_num c then Some (c + 4)
  else if c =? 43 then Some 62 else if c =? 47 then Some 63 else None.

(** [quad]: how many characters of a group of four were read; [left]: the bits not yet given out; [pads]: the run of padding.
    Other characters are skipped, and a group completed by padding ends the input.  [None]: [binascii.Error]. *)
Fixpoint a2b (quad left pads : Z) (t : text) : option (list Z) :=
  match t with
  | [] => if quad =? 0 then Some [] else None
  | c :: t' =>
      if c =? 61 then
        if 2 <=? quad then (if 4 <=? quad + (pads + 1) then Some [] else a2b quad left (pads + 1) t') else a2b quad left pads t'
      else match sextet c with
           | None => a2b quad left pads t'
           | Some v =>
               if quad =? 0 then a2b 1 v 0 t'
               else if quad =? 1 then cons (left * 4 + v / 16) <$> a2b 2 (v mod 16) 0 t'
               else if quad =? 2 then cons (left * 16 + v / 4) <$> a2b 3 (v mod 4) 0 t'
               else cons (left * 64 + v) <$> a2b 0 0 0 t'
           end
  end.
Definition b64decode (t : text) : option (list Z) := a2b 0 0 0 t.

(** Strict UTF-8: no overlong form, no surrogate, nothing above U+10FFFF. *)
Definition tail_byte (b : Z) : bool := (128 <=? b) && (b <=? 191).
Fixpoint utf8_strict (bs : list Z) : option text :=
  match bs with
  | [] => Some []
  | a :: r =>
      if (0 <=? a) && (a <? 128) then cons a <$> utf8_strict r
      else match r with
           | b :: r1 =>
               if (194 <=? a) && (a <=? 223) then
                 if tail_byte b then cons ((a - 192) * 64 + (b - 128)) <$> utf8_strict r1 else None
               else match r1 with
                    | c :: r2 =>
                        if (224 <=? a) && (a <=? 239) then
                          let p := (a - 224) * 4096 + (b - 128) * 64 + (c - 128) in
                          if tail_byte b && tail_byte c && (2048 <=? p) && negb ((55296 <=? p) && (p <=? 57343)) then cons p <$> utf8_strict r2 else None
                        else match r2 with
                             | d :: r3 =>
                                 let p := (a - 240) * 262144 + (b - 128) * 4096 + (c - 128) * 64 + (d - 128) in
                                 if (240 <=? a) && (a <=? 244) && tail_byte b && tail_byte c && tail_byte d && (65536 <=? p) && (p <=? 1114111)
                                 then cons p <$> utf8_strict r3 else None
                             | [] => None
                             end
                    | [] => None
                    end
           | [] => None
           end
  end.

Lemma utf8_ascii t : Forall (fun c => 0 <= c < 128) t -> utf8_strict t = Some t.
Proof.
  induction 1 as [|c t C _ IH]; [done|]. cbn [utf8_strict]. rewrite (proj2 (andb_true_iff _ _)) by (split; lia). by rewrite IH.
Qed.

(** ** The encoder *)

Definition digit64 (v : Z) : Z :=
  if v <? 26 then v + 65 else if v <? 52 then v + 71 else if v <? 62 then v - 4 else if v =? 62 then 43 else 47.

Fixpoint b64encode (bs : list Z) : text :=
  match bs with
  | [] => []
  | [a] => [digit64 (a / 4); digit64 (a mod 4 * 16); 61; 61]
  | [a; b] => [digit64 (a / 4); digit64 (a mod 4 * 16 + b / 16); digit64 (b mod 16 * 4); 61]
  | a :: b :: c :: r => digit64 (a / 4) :: digit64 (a mod 4 * 16 + b / 16) :: digit64 (b mod 16 * 4 + c / 64) :: digit64 (c mod 64) :: b64encode r
  end.

Definition is_byte (b : Z) : Prop := 0 <= b < 256.

(** A character of the alphabet is not padding and has its value. *)
Lemma digit64_sextet v : 0 <= v < 64 -> sextet (digit64 v) = Some v /\ (digit64 v =? 61) = false.
Proof.
  intros B. unfold digit64, sextet, is_upper, is_lower, is_num.
  destruct (Z.ltb_spec v 26); [|destruct (Z.ltb_spec v 52); [|destruct (Z.ltb_spec v 62); [|destruct (Z.eqb_spec v 62)]]].
  - rewrite (proj2 (andb_true_iff _ _)) by (split; lia). split; [f_equal; lia|lia].
  - replace ((65 <=? v + 71) && (v + 71 <=? 90)) with false by lia. rewrite (proj2 (andb_true_iff _ _)) by (split; lia). split; [f_equal; lia|lia].
  - replace ((65 <=? v - 4) && (v - 4 <=? 90)) with false by lia. replace ((97 <=? v - 4) && (v - 4 <=? 122)) with false by lia.
    rewrite (proj2 (andb_true_iff _ _)) by (split; lia). split; [f_equal; lia|lia].
  - by subst.
  - by replace v with 63 by lia.
Qed.

Lemma a2b_step quad left pads v t : 0 <= v < 64 -> a2b quad left pads (digit64 v :: t) =
  if quad =? 0 then a2b 1 v 0 t else if quad =? 1 then cons (left * 4 + v / 16) <$> a2b 2 (v mod 16) 0 t
  else if quad =? 2 then cons (left * 16 + v / 4) <$> a2b 3 (v mod 4) 0 t else cons (left * 64 + v) <$> a2b 0 0 0 t.
Proof. intros B. cbn [a2b]. destruct (digit64_sextet v B) as [-> ->]. done. Qed.

Section Triples.
Context (P : list Z -> Prop) (P0 : P []) (P1 : forall a, P [a]) (P2 : forall a b, P [a; b]) (P3 : forall a b c r, P r -> P (a :: b :: c :: r)).
Fixpoint triples_ind (l : list Z) : P l :=
  match l with
  | [] => P0
  | [a] => P1 a
  | [a; b] => P2 a b
  | a :: b :: c :: r => P3 a b c r (triples_ind r)
  end.
End Triples.

(** What was encoded is decoded. *)
Lemma b64_roundtrip bs : Forall is_byte bs -> b64decode (b64encode bs) = Some bs.
Proof.
  unfold b64decode. induction bs as [|a|a b|a b c r IH] using triples_ind; intros F; [done|..];
    repeat (apply Forall_cons in F as [? F]); unfold is_byte in *; cbn [b64encode].
  - rewrite !a2b_step by (Z.div_mod_to_equations; lia). change (Some [a / 4 * 4 + a mod 4 * 16 / 16] = Some [a]).
    do 2 f_equal. Z.div_mod_to_equations; lia.
  - rewrite !a2b_step by (Z.div_mod_to_equations; lia).
    change (Some [a / 4 * 4 + (a mod 4 * 16 + b / 16) / 16; (a mod 4 * 16 + b / 16) mod 16 * 16 + b mod 16 * 4 / 4] = Some [a; b]).
    f_equal. f_equal; [|f_equal]; Z.div_mod_to_equations; lia.
  - rewrite !a2b_step by (Z.div_mod_to_equations; lia). rewrite IH by done.
    change (Some (a / 4 * 4 + (a mod 4 * 16 + b / 16) / 16 :: (a mod 4 * 16 + b / 16) mod 16 * 16 + (b mod 16 * 4 + c / 64) / 4
      :: (b mod 16 * 4 + c / 64) mod 4 * 64 + c mod 64 :: r) = Some (a :: b :: c :: r)).
    f_equal. f_equal; [|f_equal; [|f_equal]]; Z.div_mod_to_equations; lia.
Qed.

Definition in_alphabet (c : Z) : bool := is_alnum c || (c =? 43) || (c =? 47) || (c =? 61).

Lemma digit64_alphabet v : 0 <= v < 64 -> in_alphabet (digit64 v) = true.
Proof.
  intros B. unfold digit64, in_alphabet, is_alnum, is_upper, is_lower, is_num.
  destruct (Z.ltb_spec v 26); [|destruct (Z.ltb_spec v 52); [|destruct (Z.ltb_spec v 62); [|destruct (Z.eqb_spec v 62); [done|done]]]];
    rewrite !orb_true_iff, !andb_true_iff; lia.
Qed.

Lemma b64encode_alphabet bs : Forall is_byte bs -> Forall (fun c => in_alphabet c = true) (b64encode bs).
Proof.
  induction bs as [|a|a b|a b c r IH] using triples_ind; intros F; [by apply Forall_nil|..];
    repeat (apply Forall_cons in F as [? F]); unfold is_byte in *; cbn [b64encode];
    repeat (apply Forall_cons; split; [(done || (apply digit64_alphabet; Z.div_mod_to_equations; lia))|]); (by apply Forall_nil) || by apply IH.
Qed.

(** Four characters for every three bytes begun. *)
Lemma b64encode_length bs : length (b64encode bs) = (4 * ((length bs + 2) / 3))%nat.
Proof.
  induction bs as [|a|a b|a b c r IH] using triples_ind; [done..|]. cbn [b64encode length]. rewrite IH.
  replace (S (S (S (length r))) + 2)%nat with (length r + 2 + 1 * 3)%nat by lia. rewrite Nat.div_add by lia. lia.
Qed.
