(* ===== verification/Content.v ===== *)
(** * The spellings of a value ([engine/content_norm.py]) and what they give away ([engine/entropy.py],
    [engine/evaluator.py]: [_data_classes])

    Every detector of sensitive content looks at a value in several views: normalised, with its separators
    made uniform, case-folded, and decoded from base64 or hexadecimal up to two levels.  The classes of data
    a request carries are what the detectors find in the views of its values and keys.

    The theorems say that spelling does not hide: whatever separates the groups of a number, whatever
    invisible characters are strewn in, and whether or not the whole is in base64, it is classified. *)

From S2P Require Import Prelude.
From S2P Require Import Text.
From S2P Require Import Json.
From S2P Require Import JsonParse.
From S2P Require Import Masking.
From S2P Require Import IpAddress.
From S2P Require Import Ssrf.
From S2P Require Import Regex.
From S2P Require Import ParamPaths.
From S2P Require Import Base64.

(** Python's tables. *)
Class Chars := {
  nfkc : text -> text;              (* [unicodedata.normalize("NFKC", _)] *)
  fold : text -> text;              (* [str.casefold] *)
  isprintable : Z -> bool;          (* [str.isprintable] of a character *)
  wordc : Z -> bool;                (* [\w] *)
  digitc : Z -> bool;               (* [\d] *)
  isdigit : Z -> bool;              (* [str.isdigit] of a character *)
  cases : Z -> list Z;              (* the other characters [re.IGNORECASE] takes for one *)
  float_text : double -> text;      (* [str] of a float *)
  entropy_high : text -> bool;      (* [shannon_entropy(_) >= 4.2], in doubles *)
  caseless : text -> bool;          (* [islower] or [isupper] *)
}.

Definition INVISIBLE : list Z := [8203; 8204; 8205; 8288; 65279; 173; 8234; 8235; 8236; 8237; 8238; 8294; 8295; 8296; 8297].
Definition SEPARATOR_CHARS : list Z :=
  [32; 160; 8199; 8201; 8239; 12288; 46; 8228; 65294; 45; 8208; 8209; 8210; 8211; 8212; 8213; 8722; 65112; 65293; 95; 65343].

Definition MAX_VALUE_LEN : nat := Z.to_nat 8192.
Definition MAX_DECODE_DEPTH : nat := 2.
Definition MAX_VIEWS : nat := 12.

Definition is_separator (c : Z) : bool := bool_decide (c ∈ SEPARATOR_CHARS).

Definition strip_invisible (t : text) : text := List.filter (fun c => negb (bool_decide (c ∈ INVISIBLE))) t.

(** [_SEPARATORS.sub("-", t)]: each run of separators becomes one hyphen. *)
Fixpoint hyphenate (inside : bool) (t : text) : text :=
  match t with
  | [] => []
  | c :: t' => if is_separator c then (if inside then hyphenate true t' else 45 :: hyphenate true t') else c :: hyphenate false t'
  end.
Definition canonical_separators (t : text) : text := hyphenate false t.

(** [_SEPARATORS.sub("", t)]. *)
Definition desep (t : text) : text := List.filter (fun c => negb (is_separator c)) t.

Section Views.
Context `{Chars}.
Open Scope regex_scope.

Definition normalize (t : text) : text := strip_invisible (nfkc (take MAX_VALUE_LEN t)).
Definition digits_only (t : text) : text := List.filter isdigit t.

(** ** Decoding *)

Definition b64_char (c : Z) : bool := is_alnum c || one_of "+/=_-" c.
Definition B64 : regex := Rep 12 None (Chr b64_char).
Definition HEX : regex := Rep 8 None (Chr is_hex ⋅ Chr is_hex).

(** At least nine characters in ten are printable; the quotient of two small integers is at least the double 0.9 exactly if it
    is at least nine tenths. *)
Definition mostly_printable (t : text) : bool := (9 * length t <=? 10 * length (List.filter isprintable t))%nat.
Definition readable (bytes : option (list Z)) : list text :=
  match (bs ← bytes; utf8_strict bs) with
  | Some ((_ :: _) as t) => if mostly_printable t then [t] else []
  | _ => []
  end.

Definition url_safe (c : Z) : Z := if c =? 45 then 43 else if c =? 95 then 47 else c.
Definition padded (t : text) : text := t ++ repeat 61 ((4 - length t mod 4) mod 4).
Definition hex_of (c : Z) : Z := if is_num c then c - 48 else if is_lower c then c - 87 else c - 55.
Fixpoint fromhex (t : text) : list Z := match t with a :: b :: t' => hex_of a * 16 + hex_of b :: fromhex t' | _ => [] end.

Definition decode_candidates (t : text) : list text :=
  flat_map (fun m => readable (b64decode (padded (map url_safe m)))) (take 4 (findall wordc B64 t)) ++
  flat_map (fun m => readable (Some (fromhex m))) (take 4 (findall wordc HEX t)).

(** ** Views *)

Fixpoint absorb (found out : list text) : list text :=
  match found with
  | [] => out
  | x :: found' =>
      let out' := if bool_decide (x ∈ out) then out else out ++ [x] in
      if (MAX_VIEWS <=? length out')%nat then out' else absorb found' out'
  end.

Definition spellings (t : text) : list text :=
  let base := normalize t in
  let canon := canonical_separators base in
  let folded := fold base in
  base :: (if bool_decide (canon = base) then [] else [canon]) ++ (if bool_decide (folded = base) then [] else [folded]).

(** [views] of a string, [left] levels of decoding being allowed. *)
Fixpoint views_at (left : nat) (t : text) : list text :=
  match t with
  | [] => []
  | _ =>
      take MAX_VIEWS match left with
                     | O => spellings t
                     | S n => absorb (flat_map (views_at n) (decode_candidates (normalize t))) (spellings t)
                     end
  end.

(** A leaf as text; [None]: it has no views. *)
Definition leaf_text (v : value) : option text :=
  match v with VStr s => Some s | VInt n => Some (dump_int n) | VFloat d => Some (float_text d) | _ => None end.
Definition views_of (t : text) : list text := views_at MAX_DECODE_DEPTH t.
Definition views (v : value) : list text := match leaf_text v with Some t => views_of t | None => [] end.

Definition credential_views_of (t : text) : list text :=
  let out := views_of t in
  take MAX_VIEWS (out ++ flat_map (fun v => let stripped := desep v in if bool_decide (stripped = v \/ stripped ∈ out) then [] else [stripped]) out).
Definition search_any (pattern : text -> bool) (v : value) : bool := existsb pattern (views v).
Definition credential_views (v : value) : list text := match leaf_text v with Some t => credential_views_of t | None => [] end.

(** ** Detectors *)

(** [pattern.search] for the patterns of [Masking]. *)
Fixpoint searches (p : list Step) (prev : option Z) (t : text) : bool :=
  match t with
  | [] => false
  | c :: t' => bool_decide (is_Some (match_at digitc wordc p prev t)) || searches p (Some c) t'
  end.

(** [_PAN_ALT_RE], with four or with five last digits. *)
Definition PAN_ALT4 : list Step := [D; D; D; D; SD; D; D; D; D; D; SD; D; D; D; Boundary].
Definition PAN_ALT5 : list Step := [D; D; D; D; SD; D; D; D; D; D; SD; D; D; D; D; Boundary].

Definition DIGIT_RUN : regex := Chr digitc ⋅ Rep 10 (Some 22%nat) (Chr (fun c => digitc c || one_of " -" c)) ⋅ Chr digitc.
Definition digit_runs (t : text) : list text := map (List.filter isdigit) (findall wordc DIGIT_RUN t).

Definition is_pan (t : text) : bool :=
  (searches PAN None t || searches PAN_ALT4 None t || searches PAN_ALT5 None t) && existsb (luhn_ok isdigit) (digit_runs t).
Definition is_ssn (t : text) : bool := searches SSN None t.

(** [_SECRET_VALUE_RE]. *)
Definition upper_num (c : Z) : bool := is_upper c || is_num c.
Definition token_char (c : Z) : bool := is_alnum c || one_of "_-" c.
Definition SECRET_VALUE : regex :=
  alts
    [Bound ⋅ alts (map lit ["AKIA"; "ASIA"; "AGPA"; "AIDA"; "AROA"; "AIPA"; "ANPA"; "ANVA"]) ⋅ Rep 16 (Some 16%nat) (Chr upper_num) ⋅ Bound;
     lit "-----BEGIN" ⋅ (Chr (fun c => is_upper c || (c =? 32))) ∗ ⋅ lit "PRIVATE KEY-----";
     Bound ⋅ lit "gh" ⋅ Chr (one_of "pousr") ⋅ lit "_" ⋅ Rep 16 None (Chr is_alnum) ⋅ Bound;
     Bound ⋅ lit "xox" ⋅ Chr (one_of "baprs") ⋅ lit "-" ⋅ Rep 10 None (Chr (fun c => is_alnum c || (c =? 45))) ⋅ Bound;
     Bound ⋅ lit "sk-" ⋅ Rep 20 None (Chr is_alnum) ⋅ Bound;
     Bound ⋅ lit "eyJ" ⋅ Rep 10 None (Chr token_char) ⋅ lit "." ⋅ Rep 10 None (Chr token_char) ⋅ lit "." ⋅ Rep 10 None (Chr token_char) ⋅ Bound;
     Bound ⋅ lit "Bearer" ⋅ (Chr is_white) ⁺ ⋅ Rep 20 None (Chr (fun c => is_alnum c || one_of "._~+/-" c)) ⋅ Rep 0 (Some 2%nat) (Chr (Z.eqb 61))].
Definition SECRET_VALUE_CI : regex := ignore_case cases SECRET_VALUE.
Definition is_secret (t : text) : bool := Regex.found wordc SECRET_VALUE t || Regex.found wordc SECRET_VALUE_CI t.

(** [looks_like_secret_value]. *)
Definition whole (r : regex) (t : text) : bool := bool_decide (is_Some (re_match wordc (r ⋅ AtEnd) t)).
Definition starts (r : regex) (t : text) : bool := bool_decide (is_Some (re_match wordc r t)).
Definition JWT : regex := lit "ey" ⋅ (Chr token_char) ⁺ ⋅ lit "." ⋅ (Chr token_char) ⁺.
Definition URL_LIKE : regex := Chr is_lower ⋅ (Chr (fun c => is_lower c || is_num c || one_of "+.-" c)) ∗ ⋅ lit "://".
Definition PATH_LIKE : regex := lit "/" ∣ (Chr is_alpha ⋅ lit ":\").
Definition looks_like_secret_value (v : text) : bool :=
  let token := tstrip v in
  if negb ((32 <=? length token)%nat && (length token <=? 200)%nat) then false
  else if negb (whole ((Chr b64_char) ⁺) token) then false
  else if whole ((Chr is_hex) ⁺) token || whole (Rep 32 (Some 36%nat) (Chr (fun c => is_hex c || (c =? 45)))) token || whole ((Chr digitc) ⁺) token then false
  else if starts JWT token || starts URL_LIKE token || starts PATH_LIKE token then false
  else if caseless token then false
  else if negb (existsb isdigit token) then false
  else entropy_high token.

(** ** The classes of a request *)

(** [_walk_values]. *)
Fixpoint walk_values (v : value) : list value :=
  match v with
  | VObj fs => flat_map (fun f => walk_values f.2) fs
  | VArr l => flat_map walk_values l
  | _ => [v]
  end.

(** [_walk_keys]. *)
Fixpoint walk_keys (v : value) (depth : Z) : list text :=
  if MAX_PATH_DEPTH <? depth then []
  else match v with
       | VObj fs => flat_map (fun f => f.1 :: walk_keys f.2 (depth + 1)) fs
       | VArr l => flat_map (fun x => walk_keys x (depth + 1)) l
       | _ => []
       end.

(** [_data_classes]; [values] are the string leaves. *)
Definition data_classes (params : value) (values : list text) : list text :=
  let leaves := take MAX_PATHS (walk_values params) in
  let keys := walk_keys params 0 in
  let scanned := flat_map views leaves ++ flat_map views_of values ++ flat_map views_of keys in
  let credentials := flat_map credential_views leaves ++ flat_map credential_views_of values ++ flat_map credential_views_of keys in
  let secret := existsb is_secret scanned || existsb is_secret credentials || existsb (is_sensitive_key fold) keys in
  let suspected := negb secret && existsb (fun v => match v with VStr s => looks_like_secret_value s | _ => false end) (walk_values params) in
  (if existsb is_pan scanned then [points "pci"] else []) ++ (if existsb is_ssn scanned then [points "pii"] else []) ++
  (if secret then [points "secret"] else []) ++ (if suspected then [points "secret_suspected"] else []).
End Views.

(** What is used of the tables: they are right on ASCII. *)
Class CharsLaws `(Chars) : Prop := {
  nfkc_ascii : forall t, Forall (fun c => 0 <= c < 128) t -> nfkc t = t;
  digitc_ascii : forall c, is_num c = true -> digitc c = true;
}.

Section Props.
Context `{CharsLaws}.

(** ** Views *)

Lemma absorb_prefix found : forall out, exists more, absorb found out = out ++ more.
Proof.
  induction found as [|x found IH]; intros out; cbn [absorb]; [exists []; by rewrite app_nil_r|]. cbv zeta.
  assert (E : exists y, (if bool_decide (x ∈ out) then out else out ++ [x]) = out ++ y) by (case_bool_decide; [exists []; by rewrite app_nil_r|by eexists]).
  destruct E as [y ->]. destruct (_ <=? _)%nat; [by eexists|]. destruct (IH (out ++ y)) as [more ->]. rewrite <- app_assoc. by eexists.
Qed.

(** Whatever is found while there is room is kept. *)
Lemma absorb_keeps found : forall out x k, x ∈ take k found -> (length out + k <= MAX_VIEWS)%nat -> x ∈ take MAX_VIEWS (absorb found out).
Proof.
  assert (Keep : forall fs out x, x ∈ out -> (length out <= MAX_VIEWS)%nat -> x ∈ take MAX_VIEWS (absorb fs out)).
  { intros fs out x I L. destruct (absorb_prefix fs out) as [more ->]. rewrite take_app. apply elem_of_app. left. by rewrite take_ge. }
  induction found as [|y found IH]; intros out x [|k] I L; cbn [take] in I; try (by apply elem_of_nil in I). cbn [absorb]. cbv zeta.
  set (out' := if bool_decide (y ∈ out) then out else out ++ [y]).
  assert (Ly : (length out' <= length out + 1)%nat /\ y ∈ out') by (subst out'; case_bool_decide; (split; [rewrite ?length_app; cbn; lia|]); [done|apply elem_of_app; right; by left]).
  destruct (MAX_VIEWS <=? length out')%nat eqn:F.
  - apply Nat.leb_le in F. apply elem_of_cons in I as [->|I]; [rewrite take_ge by lia; by apply Ly|].
    destruct k as [|k]; [by apply elem_of_nil in I|]. lia.
  - apply elem_of_cons in I as [->|I]; [apply Keep; [apply Ly|lia]|]. apply (IH _ _ k); [done|lia].
Qed.

Lemma spellings_length t : (length (spellings t) <= 3)%nat.
Proof. unfold spellings. cbv zeta. repeat case_bool_decide; cbn; lia. Qed.

Lemma spellings_canon t : canonical_separators (normalize t) ∈ spellings t.
Proof. unfold spellings. cbv zeta. case_bool_decide as E; [rewrite E; by left|]. right. apply elem_of_app. left. by left. Qed.

Lemma views_at_eq n t : t <> [] -> views_at 0 t = take MAX_VIEWS (spellings t) /\
  views_at (S n) t = take MAX_VIEWS (absorb (flat_map (views_at n) (decode_candidates (normalize t))) (spellings t)).
Proof. by destruct t. Qed.

(** The spellings come first among the views, at any level. *)
Lemma views_prefix left t : t <> [] -> exists more, views_at left t = spellings t ++ more.
Proof.
  intros N. pose proof (spellings_length t) as L. destruct left as [|n]; [rewrite (proj1 (views_at_eq 0 t N))|rewrite (proj2 (views_at_eq n t N))].
  - exists []. rewrite app_nil_r, take_ge; [done|unfold MAX_VIEWS; lia].
  - destruct (absorb_prefix (flat_map (views_at n) (decode_candidates (normalize t))) (spellings t)) as [more ->].
    rewrite take_app, (take_ge (spellings t)) by (unfold MAX_VIEWS; lia). by eexists.
Qed.

Lemma views_spellings left t v : t <> [] -> v ∈ spellings t -> v ∈ views_at left t.
Proof. intros N I. destruct (views_prefix left t N) as [more ->]. apply elem_of_app. by left. Qed.

(** No value has more than twelve views. *)
Lemma views_bounded v : (length (views v) <= MAX_VIEWS)%nat /\ (length (credential_views v) <= MAX_VIEWS)%nat.
Proof.
  unfold views, credential_views. destruct (leaf_text v) as [t|]; [|cbn; lia]. unfold views_of, credential_views_of. split; [|cbv zeta; rewrite length_take; lia].
  destruct t as [|c t]; [cbn; lia|]. cbn [views_at MAX_DECODE_DEPTH]. rewrite length_take. lia.
Qed.

(** ** A number in groups, however separated *)

(** Three, two and four digits, with any separators between. *)
Record grouped (t g1 s1 g2 s2 g3 : text) : Prop := {
  gr_text : t = g1 ++ s1 ++ g2 ++ s2 ++ g3;
  gr_digits : Forall (fun c => is_num c = true) (g1 ++ g2 ++ g3);
  gr_seps : Forall (fun c => is_separator c = true) (s1 ++ s2);
  gr_apart : s1 <> [] /\ s2 <> [];
  gr_sizes : length g1 = 3%nat /\ length g2 = 2%nat /\ length g3 = 4%nat;
}.

Lemma digit_not_separator c : is_num c = true -> is_separator c = false.
Proof.
  unfold is_num. intros [A%Z.leb_le B%Z.leb_le]%andb_true_iff. apply bool_decide_eq_false. unfold SEPARATOR_CHARS.
  rewrite !elem_of_cons, elem_of_nil. lia.
Qed.

Lemma hyphenate_digits g b t : Forall (fun c => is_num c = true) g -> g <> [] -> hyphenate b (g ++ t) = g ++ hyphenate false t.
Proof.
  intros F. revert b. induction F as [|c g C F IH]; intros b N; [done|]. cbn [app hyphenate]. rewrite (digit_not_separator c C). f_equal.
  destruct g as [|d g]; [done|]. by apply IH.
Qed.

Lemma hyphenate_run s t : Forall (fun c => is_separator c = true) s -> hyphenate true (s ++ t) = hyphenate true t.
Proof. induction 1 as [|c s C F IH]; [done|]. cbn [app hyphenate]. by rewrite C. Qed.

Lemma hyphenate_seps s t : Forall (fun c => is_separator c = true) s -> s <> [] -> hyphenate false (s ++ t) = 45 :: hyphenate true t.
Proof. intros F N. destruct s as [|c s]; [done|]. apply Forall_cons in F as [C F]. cbn [app hyphenate]. rewrite C. f_equal. by apply hyphenate_run. Qed.

Lemma grouped_canonical t g1 s1 g2 s2 g3 : grouped t g1 s1 g2 s2 g3 -> canonical_separators t = g1 ++ 45 :: g2 ++ 45 :: g3.
Proof.
  intros [-> Fd Fs [N1 N2] (L1 & L2 & L3)]. apply Forall_app in Fd as [F1 [F2 F3]%Forall_app]. apply Forall_app in Fs as [S1 S2].
  unfold canonical_separators. rewrite hyphenate_digits by (done || by destruct g1). rewrite hyphenate_seps by done. f_equal. f_equal.
  rewrite hyphenate_digits by (done || by destruct g2). rewrite hyphenate_seps by done. f_equal. f_equal.
  rewrite <- (app_nil_r g3) at 1. rewrite hyphenate_digits by (done || by destruct g3). cbn. by rewrite app_nil_r.
Qed.

Lemma searches_here p t : is_Some (match_at digitc wordc p None t) -> t <> [] -> searches p None t = true.
Proof. intros M N. destruct t as [|c t]; [done|]. cbn [searches]. by rewrite bool_decide_true. Qed.

Lemma eat_D p c t : digitc c = true -> eat_all digitc wordc (D :: p) (c :: t) = eat_all digitc wordc p t.
Proof. intros E. cbn [eat_all eat eat_digit]. by rewrite E. Qed.

Lemma hyphenated_is_ssn g1 g2 g3 : Forall (fun c => is_num c = true) (g1 ++ g2 ++ g3) ->
  length g1 = 3%nat -> length g2 = 2%nat -> length g3 = 4%nat -> is_ssn (g1 ++ 45 :: g2 ++ 45 :: g3) = true.
Proof.
  intros F L1 L2 L3. destruct g1 as [|a [|b [|c []]]]; try done. destruct g2 as [|d [|e []]]; try done. destruct g3 as [|f [|g [|h [|i []]]]]; try done.
  cbn [app] in *. repeat (apply Forall_cons in F as [?%digitc_ascii F]). apply searches_here; [|done]. unfold match_at, SSN. rewrite !eat_D by done.
  change (eat_all digitc wordc (Hyphen :: ?p) (45 :: ?t)) with (eat_all digitc wordc p t). rewrite !eat_D by done.
  change (eat_all digitc wordc (Hyphen :: ?p) (45 :: ?t)) with (eat_all digitc wordc p t). rewrite !eat_D by done. by eexists.
Qed.

Lemma grouped_view t g1 s1 g2 s2 g3 left : t <> [] -> grouped (normalize t) g1 s1 g2 s2 g3 -> exists v, v ∈ spellings t /\ v ∈ views_at left t /\ is_ssn v = true.
Proof.
  intros N G. exists (canonical_separators (normalize t)). split; [apply spellings_canon|]. split; [apply views_spellings; [done|apply spellings_canon]|].
  rewrite (grouped_canonical _ _ _ _ _ _ G). destruct G as [_ F _ _ (L1 & L2 & L3)]. by apply hyphenated_is_ssn.
Qed.

(** The string leaves, as [_compute_derived_input] takes them. *)
Definition string_leaves (params : value) : list text := flat_map (fun v => match v with VStr s => [s] | _ => [] end) (walk_values params).

Lemma string_leaves_elem params t : VStr t ∈ walk_values params -> t ∈ string_leaves params.
Proof. intros I. apply list_elem_of_In, in_flat_map. exists (VStr t). split; [by apply list_elem_of_In|by left]. Qed.

Lemma pii_found params values t v : t ∈ values -> v ∈ views_of t -> is_ssn v = true -> points "pii" ∈ data_classes params values.
Proof.
  intros I V S. unfold data_classes. cbv zeta. apply elem_of_app. right. apply elem_of_app. left.
  rewrite (proj2 (existsb_exists is_ssn _)); [by left|]. exists v. split; [|done]. apply list_elem_of_In.
  apply elem_of_app. right. apply elem_of_app. left. apply list_elem_of_In, in_flat_map. exists t. split; by apply list_elem_of_In.
Qed.

(** ** Base64 *)

Lemma alphabet_b64 c : in_alphabet c = true -> b64_char c = true /\ url_safe c = c /\ 0 <= c < 128.
Proof.
  unfold in_alphabet, b64_char, url_safe, is_alnum, is_upper, is_lower, is_num, one_of.
  rewrite !orb_true_iff, !andb_true_iff, !Z.leb_le, !Z.eqb_eq, bool_decide_eq_true. change (points "+/=_-") with [43; 47; 61; 95; 45].
  rewrite !elem_of_cons. intros C. split; [lia|]. destruct (Z.eqb_spec c 45); [lia|]. destruct (Z.eqb_spec c 95); lia.
Qed.

Lemma strip_ascii t : Forall (fun c => 0 <= c < 128) t -> strip_invisible t = t.
Proof.
  induction 1 as [|c t C _ IH]; [done|]. unfold strip_invisible in *. cbn [List.filter]. rewrite bool_decide_false; [cbn [negb]; by rewrite IH|].
  unfold INVISIBLE. rewrite !elem_of_cons, elem_of_nil. lia.
Qed.

Lemma normalize_ascii t : Forall (fun c => 0 <= c < 128) t -> (length t <= MAX_VALUE_LEN)%nat -> normalize t = t.
Proof. intros F L. unfold normalize. rewrite take_ge by done. by rewrite nfkc_ascii, strip_ascii. Qed.

(** Text that fits into base64 within the bound on a value and is long enough to be looked at. *)
Record encodable (x : text) : Prop := {
  en_ascii : Forall (fun c => 0 <= c < 128) x;
  en_size : (7 <= length x <= Z.to_nat 6144)%nat;
  en_printable : mostly_printable x = true;
}.

Lemma encoded_candidate x : encodable x -> exists more, decode_candidates (normalize (b64encode x)) = x :: more.
Proof.
  intros [A [L1 L2] P]. assert (B : Forall is_byte x) by (eapply Forall_impl; [exact A|]; unfold is_byte; lia).
  pose proof (b64encode_alphabet x B) as Al. pose proof (b64_roundtrip x B) as Rt. pose proof (b64encode_length x) as Le. set (t := b64encode x) in *.
  assert (Lt : (12 <= length t <= MAX_VALUE_LEN)%nat /\ (length t mod 4 = 0)%nat).
  { rewrite Le. unfold MAX_VALUE_LEN. split; [|by rewrite Nat.mul_comm, Nat.Div0.mod_mul].
    pose proof (Nat.div_mod_eq (length x + 2) 3). pose proof (Nat.mod_upper_bound (length x + 2) 3). lia. }
  destruct Lt as [[Lo Hi] Md]. rewrite normalize_ascii; [|eapply Forall_impl; [exact Al|]; intros c C; by apply alphabet_b64|done].
  assert (F : findall wordc B64 t = [t]).
  { apply (findall_whole wordc B64 t []); [intros Q; rewrite Q in Lo; cbn in Lo; lia|]. unfold match_from, B64. rewrite <- (app_nil_r t) at 1.
    apply rep_class; [eapply Forall_impl; [exact Al|]; intros c C; by apply alphabet_b64|done|done|done]. }
  assert (U : map url_safe t = t).
  { clear -Al. induction Al as [|c t C _ IH]; [done|]. cbn [map]. rewrite IH. f_equal. by apply alphabet_b64. }
  unfold decode_candidates. rewrite F. cbn [take flat_map]. rewrite U.
  assert (Pd : padded t = t) by (unfold padded; rewrite Md; apply app_nil_r). rewrite Pd.
  rewrite Rt. unfold readable. cbn [mbind option_bind]. rewrite utf8_ascii by done.
  destruct x as [|c x']; [cbn in L1; lia|]. rewrite P. cbn [app]. by eexists.
Qed.

Lemma encoded_spellings x v : encodable x -> v ∈ spellings x -> v ∈ views_of (b64encode x).
Proof.
  intros E I. destruct (encoded_candidate x E) as [more C]. 
  assert (Nx : x <> []) by (destruct E as [_ [L _] _]; intros ->; cbn in L; lia).
  assert (N : b64encode x <> []) by (destruct x as [|? [|? [|? ?]]]; done).
  unfold views_of, MAX_DECODE_DEPTH. rewrite (proj2 (views_at_eq 1 (b64encode x) N)), C. cbn [flat_map]. destruct (views_prefix 1 x Nx) as [m ->].
  apply (absorb_keeps _ _ v (length (spellings x))).
  - rewrite <- app_assoc, take_app. rewrite (take_ge (spellings x)) by done. apply elem_of_app. by left.
  - pose proof (spellings_length x). pose proof (spellings_length (b64encode x)). unfold MAX_VIEWS. lia.
Qed.

(** Base64 hides nothing: the views of an encoded text include the text itself, normalised, with its separators made
    uniform, and case-folded. *)
Theorem base64_seen_through x v : encodable x -> v ∈ spellings x -> v ∈ views_of (b64encode x).
Proof. apply encoded_spellings. Qed.

(** A number in groups of three, two and four is classified as personal data in whatever string of the arguments it stands
    alone, at any depth; whatever separates the groups, with whatever the normalisation takes away strewn in, and
    in base64 as well as in clear. *)
Theorem grouped_number_classified params x t g1 s1 g2 s2 g3 :
  x <> [] -> grouped (normalize x) g1 s1 g2 s2 g3 -> t = x \/ (encodable x /\ t = b64encode x) ->
  VStr t ∈ walk_values params -> points "pii" ∈ data_classes params (string_leaves params).
Proof.
  intros N G T I. destruct (grouped_view x g1 s1 g2 s2 g3 MAX_DECODE_DEPTH N G) as (v & Sv & Vv & Iv).
  apply (pii_found _ _ t v); [by apply string_leaves_elem| |done]. destruct T as [->|[E ->]]; [done|by apply encoded_spellings].
Qed.
End Props.

(** ** Examples *)

Module Plain.

(** Tables for ASCII. *)
#[export] Instance ascii : Chars :=
  {| nfkc := id; fold := lower; isprintable := fun c => (32 <=? c) && (c <=? 126); wordc := is_word; digitc := is_num; isdigit := is_num;
     cases := fun c => if is_upper c then [c + 32] else if is_lower c then [c - 32] else []; float_text := fun _ => [];
     entropy_high := fun t => (16 <=? length (remove_dups t))%nat; caseless := fun t => negb (existsb is_upper t) || negb (existsb is_lower t) |}.

#[export] Instance ascii_laws : CharsLaws ascii.
Proof. split; done. Qed.

Definition classes (s : string) : list text := let p := VObj [(points "body", VStr (points s))] in data_classes p (string_leaves p).

Example spelled_out : map (fun s => map unpoints (classes s))
  ["123 45..6789"; "MTIzLTQ1LTY3ODk="; "3132332d34352d36373839"; "4111 1111 1111 1111"; "AKIA IOSF ODNN 7EXA MPLE"; "akiaiosfodnn7example";
   "QUtJQUlPU0ZPRE5ON0VYQU1QTEU="; "123456789"; "order 4111 1111 1111 1112"] =
  [["pii"]; ["pii"]; ["pii"]; ["pci"]; ["secret"]; ["secret"]; ["secret"]; []; []].
Proof. vm_compute. reflexivity. Qed.

Definition note : text := points "123" ++ [32; 8203; 160] ++ points "45_6789".
Definition args : value := VObj [(points "body", VArr [VStr note])].

Lemma grouped_number_classified_witness : points "pii" ∈ data_classes args (string_leaves args).
Proof.
  apply (grouped_number_classified args note note (points "123") [32; 160] (points "45") (points "_") (points "6789")).
  - discriminate.
  - split; [vm_compute; reflexivity|by repeat constructor|by repeat constructor|done|done].
  - by left.
  - left.
Defined.

Lemma base64_seen_through_witness : points "123-45-6789" ∈ views_of (points "MTIzLTQ1LTY3ODk=").
Proof.
  apply (base64_seen_through (points "123-45-6789") (points "123-45-6789")).
  - split; [|vm_compute; lia|vm_compute; reflexivity].
    change (points "123-45-6789") with [49; 50; 51; 45; 52; 53; 45; 54; 55; 56; 57]. repeat (apply Forall_cons; split; [lia|]). by apply Forall_nil.
  - vm_compute. left.
Defined.

(** With a name and an equals sign before it, the encoded text is decoded out of step and not seen. *)
Example assignment_hides : classes "data=MTIzLTQ1LTY3ODk=" = [] /\ map unpoints (classes "MTIzLTQ1LTY3ODk=") = ["pii"].
Proof. vm_compute. done. Qed.

(** And behind four other words of twelve characters it is not looked at. *)
Example decoys_hide : classes "aaaabbbbcccc ddddeeeeffff gggghhhhiiii jjjjkkkkllll QUtJQUlPU0ZPRE5ON0VYQU1QTEU=" = [].
Proof. vm_compute. reflexivity. Qed.

End Plain.
