(* ===== verification/Derived.v ===== *)
(** * The derived view of a call ([engine/evaluator.py]: [_compute_derived_input], [_normalize_for_match])

    What a policy reads beside the raw call: the verb with an admin's promotion applied, the values and
    their paths, the statement a call carries and its tables, where the call goes, and what classes of
    data it takes along. *)

From stdpp Require Import sorting.
From S2P Require Import Prelude.
From S2P Require Import Text.
From S2P Require Import Json.
From S2P Require Import JsonParse.
From S2P Require Import Ssrf.
From S2P Require Import ParamPaths.
From S2P Require Import Regex.
From S2P Require Import Destinations.
From S2P Require Import Confusables.
From S2P Require Import Capability.
From S2P Require Import Sources.
From S2P Require Import Content.

(** ** The verb *)

(** The promotions in force, by namespace and tool. *)
Definition Overrides := list ((text * text) * text).
Definition override_get (ns tool : text) (o : Overrides) : option text :=
  snd <$> find (fun e => bool_decide (e.1 = (ns, tool))) o.

(** [_PROMOTION_RANK.get(v, -1)]. *)
Definition promotion_rank (v : text) : Z :=
  if bool_decide (v = points "read") then 0 else if bool_decide (v = points "write") then 1
  else if bool_decide (v = points "send") then 3 else if bool_decide (v = points "delete") then 4 else -1.

Section Verb.
Context `{Unicode}.

Definition derived_verb (overrides : Overrides) (namespace tool : text) (params : value) : text :=
  let v := points (verb_value (classify_tool tool (Some params)).1) in
  match override_get namespace tool overrides with
  | Some ((_ :: _) as promoted) =>
      if bool_decide ((classify_tool tool None).1 = UNKNOWN)
      then (if promotion_rank v <? promotion_rank promoted then promoted else v)
      else v
  | _ => v
  end.
End Verb.

(** ** Statements *)

Definition SQL_TOOL_NAMES : list text := map points ["execute_sql"; "run_sql"; "query"; "run_query"; "sql"; "db_query"].
Definition SQL_TOOL_SUBSTRINGS : list text := map points ["sql"; "query"; "report"; "select"].
Definition tool_kind (tool_name : text) : text :=
  let name := lower tool_name in
  if bool_decide (name ∈ SQL_TOOL_NAMES) || existsb (fun s => tcontains s name) SQL_TOOL_SUBSTRINGS then points "sql" else points "other".

Definition SQL_HEADS : list string := ["select"; "insert"; "update"; "delete"; "drop"; "truncate"; "alter"; "with"].
Definition sql_candidate (values : list text) : text :=
  default [] (find (fun v => begins SQL_HEADS (tstrip (lower v))) values).

Definition rstrip_semicolons (t : text) : text := reverse (drop_while (Z.eqb 59) (reverse t)).
Definition normalize_sql (raw : text) : text := lower (tstrip (rstrip_semicolons (tstrip (join [32] (Text.words raw))))).

Definition sql_statements (sql : text) : list text :=
  map normalize_sql (filter (fun p => tstrip p <> []) (split_on 59 sql)).

Section Tables.
Context `{Chars}.
Open Scope regex_scope.

Definition name_head (c : Z) : bool := is_alpha c || (c =? 95).
Definition name_char (c : Z) : bool := wordc c || (c =? 36).
Definition table_name : regex := Chr name_head ⋅ (Chr name_char) ∗.
Definition SQL_TABLE : regex :=
  ignore_case cases
    (Bound ⋅ alts [lit "from"; lit "join"; lit "into"; lit "update"; lit "truncate" ⋅ (Chr is_white) ⁺ ⋅ lit "table"; lit "truncate"]
     ⋅ (Chr is_white) ⁺ ⋅ Cap 0 (table_name ⋅ (lit "." ⋅ table_name) ⁇)).

Definition table_of (m : text * Groups) : list text :=
  match after_last 46 (lower (strip_of (fun c => one_of "`[] " c || (c =? 34)) (default [] (group 0 m.2)))) with [] => [] | n => [n] end.
Definition sql_tables (sql : text) : list text := take MAX_DESTINATIONS (add_all (flat_map table_of (matches wordc SQL_TABLE sql)) []).
End Tables.

(** ** The document *)

(** [len(v.encode("utf-8", "ignore"))]: a lone surrogate counts for nothing. *)
Definition utf8_length (c : Z) : Z :=
  if c <? 128 then 1 else if c <? 2048 then 2 else if (55296 <=? c) && (c <=? 57343) then 0 else if c <? 65536 then 3 else 4.
Definition text_bytes (t : text) : Z := fold_right (fun c n => utf8_length c + n) 0 t.

Record Derived := {
  dv_verb : text;
  dv_param_values : list text;
  dv_param_values_lower : list text;
  dv_tool_kind : text;
  dv_sql_normalized : text;
  dv_sql_statements : list text;
  dv_param_paths : list (text * text);
  dv_ambiguous : list text;
  dv_destinations : Destinations;
  dv_recipient_domains : list text;
  dv_data_classes : list text;
  dv_sql_tables : list text;
  dv_param_bytes : Z;
}.

Section Document.
Context `{Unicode} `{Chars}.

(** [_compute_derived_input]; [None]: it raises. *)
Definition compute_derived_input (overrides : Overrides) (namespace tool : text) (params : value) : option Derived :=
  let values := string_leaves params in
  let '(paths, ambiguous) := walk_paths skeleton params in
  let sql := sql_candidate values in
  d ← destinations wordc digitc nfkc values (destination_keyed_hosts wordc digitc params);
  Some {| dv_verb := derived_verb overrides namespace tool params;
          dv_param_values := values;
          dv_param_values_lower := map lower values;
          dv_tool_kind := tool_kind tool;
          dv_sql_normalized := match sql with [] => [] | _ => normalize_sql sql end;
          dv_sql_statements := match sql with [] => [] | _ => sql_statements sql end;
          dv_param_paths := paths;
          dv_ambiguous := ambiguous;
          dv_destinations := d;
          dv_recipient_domains := recipient_domains wordc params;
          dv_data_classes := data_classes params values;
          dv_sql_tables := match sql with [] => [] | _ => sql_tables sql end;
          dv_param_bytes := fold_right (fun v n => text_bytes v + n) 0 values |}.

(** [_normalize_for_match], with what is left of the budget. *)
Definition NORMALIZE_MAX_CHARS : Z := 4 * 1024 * 1024.

Section Loops.
Context (norm : value -> Z -> value * Z).
Fixpoint norm_list (l : list value) (budget : Z) : list value * Z :=
  match l with [] => ([], budget) | v :: l' => let '(v', b) := norm v budget in let '(l2, b2) := norm_list l' b in (v' :: l2, b2) end.
Fixpoint norm_fields (fs : list (text * value)) (budget : Z) : list (text * value) * Z :=
  match fs with
  | [] => ([], budget)
  | (k, v) :: fs' => let '(v', b) := norm v budget in let '(fs2, b2) := norm_fields fs' b in ((k, v') :: fs2, b2)
  end.
End Loops.

Fixpoint norm (v : value) (budget : Z) : value * Z :=
  match v with
  | VStr s => if budget <=? 0 then (v, budget) else (VStr (skeleton s), budget - Z.of_nat (length s))
  | VArr l => let '(l', b) := norm_list norm l budget in (VArr l', b)
  | VObj fs => let '(fs', b) := norm_fields norm fs budget in (VObj fs', b)
  | _ => (v, budget)
  end.
Definition normalize_for_match (params : value) : value := (norm params NORMALIZE_MAX_CHARS).1.
End Document.

(** ** What a promotion can do *)

Section VerbProps.
Context `{Unicode}.

Lemma derived_verb_named overrides ns tool params : (classify_tool tool None).1 <> UNKNOWN ->
  derived_verb overrides ns tool params = points (verb_value (classify_tool tool (Some params)).1).
Proof. intros N. unfold derived_verb. cbv zeta. rewrite bool_decide_false by done. by repeat case_match. Qed.

Lemma derived_verb_unnamed overrides ns tool params p : (classify_tool tool None).1 = UNKNOWN -> override_get ns tool overrides = Some p -> p <> [] ->
  let v := points (verb_value (classify_tool tool (Some params)).1) in
  derived_verb overrides ns tool params = if promotion_rank v <? promotion_rank p then p else v.
Proof. intros N O P. unfold derived_verb. cbv zeta. rewrite O, bool_decide_true by done. by destruct p. Qed.

(** A promotion fills in what the name leaves open and nothing else.  Where the name says what the tool does, the published
    verb is the classifier's; where it does not, it is the more consequential of the promotion and the
    arguments, so neither hides the other. *)
Theorem promotion_fills_the_gap overrides ns tool params p :
  override_get ns tool overrides = Some p -> p <> [] ->
  let v := points (verb_value (classify_tool tool (Some params)).1) in
  let out := derived_verb overrides ns tool params in
  ((classify_tool tool None).1 <> UNKNOWN -> out = v) /\
  ((classify_tool tool None).1 = UNKNOWN ->
     (out = v \/ out = p) /\ promotion_rank out = Z.max (promotion_rank v) (promotion_rank p)).
Proof.
  intros O P v out. split; [apply derived_verb_named|]. intros N. subst out. rewrite (derived_verb_unnamed _ _ _ _ _ N O P). fold v.
  destruct (Z.ltb_spec (promotion_rank v) (promotion_rank p)); split; auto; lia.
Qed.

(** What a name says about sending or destroying is published, whatever an admin promoted and whatever the arguments say. *)
Theorem consequential_name_stands overrides ns tool params v :
  spoken (tokenize_tool tool) = v -> v = SEND \/ v = DELETE -> derived_verb overrides ns tool params = points (verb_value v).
Proof.
  intros S C. assert (E : forall p, (classify_tool tool p).1 = v).
  { intros p. rewrite classify_verb. unfold said. rewrite S. destruct C as [->| ->]; by apply raised_other. }
  rewrite derived_verb_named by (rewrite E; by destruct C as [->| ->]). by rewrite E.
Qed.
End VerbProps.

(** ** Folding the arguments *)

Section Folding.
Context `{Unicode}.

(** Every string replaced by its skeleton. *)
Fixpoint fold_all (v : value) : value :=
  match v with
  | VStr s => VStr (skeleton s)
  | VArr l => VArr (map fold_all l)
  | VObj fs => VObj (map (fun f => (f.1, fold_all f.2)) fs)
  | _ => v
  end.

Fixpoint chars (v : value) : Z :=
  match v with
  | VStr s => Z.of_nat (length s)
  | VArr l => fold_right (fun x n => chars x + n) 0 l
  | VObj fs => fold_right (fun f n => chars f.2 + n) 0 fs
  | _ => 0
  end.

Lemma chars_nonneg v : 0 <= chars v.
Proof.
  induction v as [|b|n|d|s|l IH|fs IH] using value_ind'; cbn [chars]; try lia; induction IH as [|x l Hx _ IHl]; cbn [fold_right]; lia.
Qed.

Definition folds (v : value) : Prop := forall budget, chars v < budget -> norm v budget = (fold_all v, budget - chars v).

Lemma norm_list_folds l : Forall folds l -> forall budget, fold_right (fun x n => chars x + n) 0 l < budget ->
  norm_list norm l budget = (map fold_all l, budget - fold_right (fun x n => chars x + n) 0 l).
Proof.
  induction 1 as [|x l Fx _ IH]; intros budget B; cbn [norm_list fold_right map] in *; [by rewrite Z.sub_0_r|].
  assert (N : 0 <= fold_right (fun x n => chars x + n) 0 l) by (clear; induction l as [|y l IHl]; cbn; [lia|pose proof (chars_nonneg y); lia]).
  pose proof (chars_nonneg x). rewrite (Fx budget) by lia. rewrite IH by lia. f_equal. lia.
Qed.

Lemma norm_fields_folds fs : Forall (fun f => folds f.2) fs -> forall budget, fold_right (fun f n => chars f.2 + n) 0 fs < budget ->
  norm_fields norm fs budget = (map (fun f => (f.1, fold_all f.2)) fs, budget - fold_right (fun f n => chars f.2 + n) 0 fs).
Proof.
  induction 1 as [|[k x] fs Fx _ IH]; intros budget B; cbn [norm_fields fold_right map fst snd] in *; [by rewrite Z.sub_0_r|].
  assert (N : 0 <= fold_right (fun f n => chars (snd f) + n) 0 fs) by (clear; induction fs as [|y l IHl]; cbn; [lia|pose proof (chars_nonneg y.2); lia]).
  pose proof (chars_nonneg x). rewrite (Fx budget) by lia. rewrite IH by lia. f_equal. lia.
Qed.

Lemma norm_folds v : folds v.
Proof.
  induction v as [|b|n|d|s|l IH|fs IH] using value_ind'; intros budget B; cbn [norm fold_all chars] in *; try (by rewrite Z.sub_0_r).
  - pose proof (Nat2Z.is_nonneg (length s)). destruct (Z.leb_spec budget 0); [lia|done].
  - by rewrite norm_list_folds.
  - by rewrite norm_fields_folds.
Qed.

(** Arguments of fewer than four million characters are folded whole: every string, at any depth, is replaced by what it looks
    like, and nothing else changes. *)
Theorem arguments_folded_whole params : chars params < NORMALIZE_MAX_CHARS -> normalize_for_match params = fold_all params.
Proof. intros B. unfold normalize_for_match. by rewrite norm_folds. Qed.
End Folding.

(** ** Examples *)

Module Calls.
Import Content.Plain.

Definition query (q : string) : value := VObj [(points "q", VStr (points q))].
Definition promoted : Overrides := [((points "prod", points "acme_widget"), points "delete"); ((points "prod", points "slack_post_message"), points "read")].

Lemma promotion_fills_the_gap_witness :
  derived_verb promoted (points "prod") (points "acme_widget") (query "select 1 from orders") = points "delete".
Proof.
  destruct (promotion_fills_the_gap promoted (points "prod") (points "acme_widget") (query "select 1 from orders") (points "delete")) as [_ H];
    [vm_compute; reflexivity|discriminate|]. cbv zeta in H.
  destruct (H ltac:(vm_compute; reflexivity)) as [[E|E] R]; [|exact E]. exfalso. rewrite E in R. vm_compute in R. discriminate R.
Defined.

Lemma consequential_name_stands_witness :
  derived_verb promoted (points "prod") (points "slack_post_message") (query "select 1") = points "send".
Proof.
  apply (consequential_name_stands promoted (points "prod") (points "slack_post_message") (query "select 1") SEND); [vm_compute; reflexivity|by left].
Defined.

Lemma arguments_folded_whole_witness : normalize_for_match (VObj [(points "body", VArr [VStr [1110; 103; 110; 1086; 114; 101]])]) = VObj [(points "body", VArr [VStr (points "ignore")])].
Proof. rewrite (arguments_folded_whole (VObj [(points "body", VArr [VStr [1110; 103; 110; 1086; 114; 101]])])); vm_compute; reflexivity. Defined.

Definition view (params : value) : option Derived := compute_derived_input promoted (points "prod") (points "run_report") params.

Example statement : (fun d => (dv_sql_normalized d, dv_sql_tables d, dv_sql_statements d)) <$> view (query " SELECT *  FROM public.Orders JOIN users; DROP TABLE x ;") =
  Some (points "select * from public.orders join users; drop table x", [points "orders"; points "users"],
        [points "select * from public.orders join users"; points "drop table x"]).
Proof. vm_compute. reflexivity. Qed.

(** A semicolon after a space after a semicolon survives. *)
Example normal_form_not_reached : normalize_sql (points "select 1; ;") = points "select 1;" /\ normalize_sql (points "select 1;") = points "select 1".
Proof. vm_compute. done. Qed.

(** A placeholder in brackets anywhere in the arguments leaves the call without a derived view. *)
Example placeholder_raises_view : view (query "curl http://[your-host]/") = None.
Proof. vm_compute. reflexivity. Qed.

End Calls.
