(* ===== verification/Promotions.v ===== *)
(** * Promotion of a tool to a verb ([api/routers/threats.py], [engine/evaluator.py]: [refresh_verb_overrides])

    A tool whose name says nothing is observed; an admin may promote it to the verb the evidence shows, or
    take that back.  The promotions are rows of a table, and every API process keeps a copy of them that
    its evaluator reads.  The state here is the table and the copies; a step is a request one process
    serves, or the start of a process. *)

From S2P Require Import Prelude.
From S2P Require Import Text.
From S2P Require Import Json.
From S2P Require Import Auth.
From S2P Require Import Confusables.
From S2P Require Import Capability.
From S2P Require Import Sources.
From S2P Require Import Derived.

(** ** Evidence *)

(** The calls of a tool whose arguments gave an operation away, by operation. *)
Record Evidence := { ev_calls : Z; ev_verbs : list (text * Z) }.

(** A group of audit rows: the tool, the operation if there is one, and how many. *)
Record Observed := { o_tool : text; o_op : option text; o_n : Z }.

Definition add_observed (e : Evidence) (o : Observed) : Evidence :=
  {| ev_calls := ev_calls e + o_n o;
     ev_verbs := match o_op o with
                 | Some ((_ :: _) as op) => put_field op (default 0 (field op (ev_verbs e)) + o_n o) (ev_verbs e)
                 | _ => ev_verbs e
                 end |}.

(** [_verb_evidence], over the groups the query returns. *)
Definition verb_evidence (rows : list Observed) : list (text * Evidence) :=
  foldl (fun out o => put_field (o_tool o) (add_observed (default {| ev_calls := 0; ev_verbs := [] |} (field (o_tool o) out)) o) out) [] rows.

(** [_VERB_RANK.get(v, 0)] and [_top_verb]. *)
Definition VERB_RANK (v : text) : Z :=
  if bool_decide (v = points "write") then 1 else if bool_decide (v = points "send") then 2 else if bool_decide (v = points "delete") then 3 else 0.
Definition top_verb (e : option Evidence) : option text * Z :=
  match e with
  | Some {| ev_verbs := kv :: kvs |} => let '(v, n) := max_by (fun kv => (VERB_RANK kv.1, kv.2)) kv kvs in (Some v, n)
  | _ => (None, 0)
  end.

(** ** The table *)

Record Row := { r_verb : text; r_risk : text; r_by : text; r_evidence : option Evidence }.
Definition Key : Type := text * text.

Section Rows.
Context {A : Type}.
Fixpoint row_get (k : Key) (t : list (Key * A)) : option A :=
  match t with [] => None | (k', r) :: t' => if bool_decide (k' = k) then Some r else row_get k t' end.
Fixpoint row_put (k : Key) (r : A) (t : list (Key * A)) : list (Key * A) :=
  match t with [] => [(k, r)] | (k', r') :: t' => if bool_decide (k' = k) then (k, r) :: t' else (k', r') :: row_put k r t' end.
Fixpoint row_del (k : Key) (t : list (Key * A)) : list (Key * A) :=
  match t with [] => [] | (k', r) :: t' => if bool_decide (k' = k) then row_del k t' else (k', r) :: row_del k t' end.
End Rows.

Definition RISK_RANK (r : text) : Z :=
  if bool_decide (r = points "medium") then 1 else if bool_decide (r = points "high") then 2 else if bool_decide (r = points "critical") then 3 else 0.

(** [_verb_overrides]: what the console shows for a tool over the namespaces in scope ([None]: all). *)
Definition in_scope (namespaces : option (list text)) (k : Key) : bool := match namespaces with None => true | Some l => bool_decide (k.1 ∈ l) end.
Definition show (out : list (text * (text * text))) (e : Key * Row) : list (text * (text * text)) :=
  let tool := e.1.2 in
  match field tool out with
  | Some cur => if RISK_RANK cur.2 <? RISK_RANK (r_risk e.2) then put_field tool (r_verb e.2, r_risk e.2) out else out
  | None => put_field tool (r_verb e.2, r_risk e.2) out
  end.
Definition verb_overrides (namespaces : option (list text)) (t : list (Key * Row)) : list (text * (text * text)) :=
  foldl show [] (List.filter (fun e => in_scope namespaces e.1) t).

(** [refresh_verb_overrides]: the copy is rebuilt from the rows. *)
Definition seed (m : Overrides) (e : Key * Row) : Overrides :=
  let '((ns, tool), r) := e in if bool_decide (ns = [] \/ tool = [] \/ r_verb r = []) then m else row_put (ns, tool) (r_verb r) m.
Definition refresh (rows : list (Key * Row)) : Overrides := foldl seed [] rows.

(** ** The processes *)

Record State := { table : list (Key * Row); copies : list Overrides }.

(** [warm_verb_overrides] in process [i]; the query may fail, and then the copy stays. *)
Definition warm (i : nat) (ok : bool) (s : State) : State :=
  if ok then {| table := table s; copies := <[i := refresh (table s)]> (copies s) |} else s.

Definition PROMOTABLE_VERBS : list text := map points ["read"; "write"; "delete"; "send"].
Definition verb_of_value (v : text) : Verb :=
  default UNKNOWN (find (fun w => bool_decide (points (verb_value w) = v)) [READ; WRITE; DELETE; SEND]).
Definition risk_of (verb : text) : text :=
  match default_risk_of_verb (verb_of_value verb) with Some r => points (risk_value r) | None => points "low" end.

(** [promote_tool_verb], served by process [i]; [username] is the claim used when there is no subject. *)
Definition promote_tool_verb (i : nat) (warmed : bool) (observed : text -> list Observed) (user : Claims) (username ns tool_name verb : text)
    (s : State) : R (text * text) * State :=
  match require_admin user with
  | inl e => (inl e, s)
  | inr _ =>
      let ns := tstrip ns in
      let tool := tstrip tool_name in
      let verb := lower (tstrip verb) in
      if bool_decide (ns = [] \/ tool = []) then (inl (Http 400 "ns and tool_name are required"), s)
      else if negb (bool_decide (verb ∈ PROMOTABLE_VERBS)) then (inl (Http 400 "verb must be one of ['delete', 'read', 'send', 'write']"), s)
      else
        let row := {| r_verb := verb; r_risk := risk_of verb; r_by := if bool_decide (c_sub user = []) then username else c_sub user;
                      r_evidence := field tool (verb_evidence (observed ns)) |} in
        (inr (verb, risk_of verb), warm i warmed {| table := row_put (ns, tool) row (table s); copies := copies s |})
  end.

(** [demote_tool_verb]; the answer says whether there was a row. *)
Definition demote_tool_verb (i : nat) (warmed : bool) (user : Claims) (ns tool_name : text) (s : State) : R bool * State :=
  match require_admin user with
  | inl e => (inl e, s)
  | inr _ =>
      (inr (bool_decide (is_Some (row_get (ns, tool_name) (table s)))),
       warm i warmed {| table := row_del (ns, tool_name) (table s); copies := copies s |})
  end.

(** A process starts with an empty copy and reads the table. *)
Definition start (i : nat) (warmed : bool) (s : State) : State := warm i warmed {| table := table s; copies := <[i := []]> (copies s) |}.

Inductive step : State -> State -> Prop :=
  | step_promote i warmed observed user username ns tool verb s : step s (promote_tool_verb i warmed observed user username ns tool verb s).2
  | step_demote i warmed user ns tool s : step s (demote_tool_verb i warmed user ns tool s).2
  | step_start i warmed s : step s (start i warmed s).

(** ** Properties *)

(** The suggestion is the most destructive operation seen, so an admin who follows it never understates a tool. *)
Theorem suggestion_never_understates e v n op m :
  top_verb (Some e) = (Some v, n) -> (op, m) ∈ ev_verbs e -> VERB_RANK op <= VERB_RANK v.
Proof.
  destruct e as [calls [|kv kvs]]; [done|]. cbn [top_verb ev_verbs]. destruct (max_by_spec (fun kv => (VERB_RANK kv.1, kv.2)) kvs kv) as (_ & B & R).
  destruct (max_by _ kv kvs) as [v' n']. intros [= -> ->] [<-|I]%elem_of_cons.
  - rewrite <- not_true_iff_false, key_lt_spec in B. cbn in B. cbn. lia.
  - apply R in I. rewrite <- not_true_iff_false, key_lt_spec in I. cbn in I. lia.
Qed.

(** *** Dictionaries *)

Section RowProps.
Context {A : Type}.
Implicit Type t : list (Key * A).

Lemma row_get_put k r t k' : row_get k' (row_put k r t) = if bool_decide (k = k') then Some r else row_get k' t.
Proof.
  induction t as [|[k1 r1] t IH]; cbn [row_put row_get]; [done|]. destruct (decide (k1 = k)) as [->|N].
  - rewrite (bool_decide_true (k = k)) by done. cbn [row_get]. by case_bool_decide.
  - rewrite (bool_decide_false (k1 = k)) by done. cbn [row_get]. rewrite IH. repeat case_bool_decide; congruence.
Qed.

Lemma row_get_del k t k' : row_get k' (row_del k t) = if bool_decide (k = k') then None else row_get k' t.
Proof.
  induction t as [|[k1 r1] t IH]; cbn [row_del row_get]; [by case_bool_decide|]. destruct (decide (k1 = k)) as [->|N].
  - rewrite (bool_decide_true (k = k)) by done. rewrite IH. by case_bool_decide.
  - rewrite (bool_decide_false (k1 = k)) by done. cbn [row_get]. rewrite IH. repeat case_bool_decide; congruence.
Qed.

Lemma row_get_elem k r t : row_get k t = Some r -> (k, r) ∈ t.
Proof. induction t as [|[k1 r1] t IH]; cbn [row_get]; [done|]. case_bool_decide; [intros [= ->]; subst; by left|right; auto]. Qed.

Lemma row_put_all (P : Key -> A -> Prop) k r t : P k r -> Forall (fun e => P e.1 e.2) t -> Forall (fun e => P e.1 e.2) (row_put k r t).
Proof.
  intros Pk F. induction F as [|[k1 r1] t H F IH]; cbn [row_put]; [by apply Forall_singleton|]. case_bool_decide; apply Forall_cons; auto.
Qed.

Lemma row_put_keys k r t : NoDup t.*1 -> NoDup (row_put k r t).*1.
Proof.
  induction t as [|[k1 r1] t IH]; intros N; cbn [row_put]; [apply NoDup_singleton|]. rewrite fmap_cons in N. apply NoDup_cons in N as [N1 N2].
  case_bool_decide as E; rewrite fmap_cons; apply NoDup_cons; (split; [|auto]); [by subst|].
  intros I. cbn [fst] in *. apply N1. clear -I E. induction t as [|[k2 r2] t IH]; cbn [row_put] in I; [apply list_elem_of_singleton in I; by subst|].
  case_bool_decide as E2; rewrite fmap_cons in *; apply elem_of_cons in I as [I|I]; apply elem_of_cons; cbn [fst] in *; subst; auto.
Qed.
End RowProps.

Lemma override_get_row ns tool o : override_get ns tool o = row_get (ns, tool) o.
Proof.
  unfold override_get. induction o as [|[k v] o IH]; [done|]. cbn [find row_get fst]. destruct (decide (k = (ns, tool))) as [->|N].
  - by rewrite !bool_decide_true by done.
  - by rewrite !bool_decide_false by done.
Qed.

(** A rebuilt copy has the rows of the table. *)
Definition idle (k : Key) (r : Row) : Prop := k.1 = [] \/ k.2 = [] \/ r_verb r = [].
#[export] Instance idle_dec k r : Decision (idle k r).
Proof. unfold idle. apply _. Defined.

Lemma row_get_none {A} k (t : list (Key * A)) : k ∉ t.*1 -> row_get k t = None.
Proof.
  intros N. destruct (row_get k t) as [r|] eqn:G; [|done]. destruct N. apply row_get_elem in G. apply list_elem_of_fmap. by exists (k, r).
Qed.

Lemma seeds_get rows k : forall m, NoDup rows.*1 ->
  row_get k (foldl seed m rows) = match row_get k rows with Some r => if decide (idle k r) then row_get k m else Some (r_verb r) | None => row_get k m end.
Proof.
  induction rows as [|[[ns tool] r] rows IH]; intros m N; [done|]. rewrite fmap_cons in N. apply NoDup_cons in N as [N1 N2]. cbn [foldl fst] in *. rewrite IH by done.
  cbn [row_get seed]. destruct (decide ((ns, tool) = k)) as [<-|Nk].
  - rewrite (row_get_none _ _ N1), (bool_decide_true ((ns, tool) = (ns, tool))) by done. destruct (decide (idle (ns, tool) r)) as [I|I].
    + by rewrite bool_decide_true.
    + rewrite bool_decide_false by done. rewrite row_get_put. by rewrite bool_decide_true.
  - rewrite (bool_decide_false ((ns, tool) = k)) by done. case_bool_decide; [done|]. by rewrite row_get_put, (bool_decide_false ((ns, tool) = k)).
Qed.

Lemma refresh_get rows k : NoDup rows.*1 ->
  row_get k (refresh rows) = match row_get k rows with Some r => if decide (idle k r) then None else Some (r_verb r) | None => None end.
Proof. intros N. unfold refresh. by rewrite seeds_get. Qed.

(** *** What always holds *)

Definition promotable (k : Key) (v : text) : Prop := k.1 <> [] /\ k.2 <> [] /\ v ∈ PROMOTABLE_VERBS.

Record ok (s : State) : Prop := {
  ok_keys : NoDup (table s).*1;
  ok_rows : Forall (fun e => promotable e.1 (r_verb e.2)) (table s);
  ok_copies : Forall (Forall (fun e => promotable e.1 e.2)) (copies s);
}.

Lemma seeds_promotable rows : Forall (fun e => promotable e.1 (r_verb e.2)) rows -> forall m, Forall (fun e => promotable e.1 e.2) m ->
  Forall (fun e => promotable e.1 e.2) (foldl seed m rows).
Proof.
  induction 1 as [|[[ns tool] r] rows Hr F IH]; intros m M; [done|]. cbn [foldl seed]. apply IH. case_bool_decide; [done|]. by apply row_put_all.
Qed.

Lemma refresh_promotable rows : Forall (fun e => promotable e.1 (r_verb e.2)) rows -> Forall (fun e => promotable e.1 e.2) (refresh rows).
Proof. intros F. apply seeds_promotable; [done|apply Forall_nil_2]. Qed.

Lemma warm_ok i w s : ok s -> ok (warm i w s).
Proof.
  intros [K R C]. unfold warm. destruct w; [|done]. split; cbn; [done|done|]. apply Forall_insert; [done|]. by apply refresh_promotable.
Qed.

Lemma row_del_keys {A} k (t : list (Key * A)) x : x ∈ row_del k t -> x ∈ t.
Proof. induction t as [|[k1 r1] t IH]; cbn [row_del]; [done|]. case_bool_decide; [by right; apply IH|]. intros [->|I]%elem_of_cons; [by left|right; auto]. Qed.

Lemma row_del_nodup {A} k (t : list (Key * A)) : NoDup t.*1 -> NoDup (row_del k t).*1.
Proof.
  induction t as [|[k1 r1] t IH]; cbn [row_del]; [done|]. rewrite fmap_cons. intros [N1 N2]%NoDup_cons. case_bool_decide; [auto|].
  rewrite fmap_cons. apply NoDup_cons. split; [|auto]. intros (x & E & I%row_del_keys)%list_elem_of_fmap. apply N1. rewrite E. apply list_elem_of_fmap. eauto.
Qed.

Lemma promotion_step_ok s s' : step s s' -> ok s -> ok s'.
Proof.
  intros St O. destruct St as [i w obs user username ns tool verb s|i w user ns tool s|i w s].
  - unfold promote_tool_verb. destruct (require_admin user); [done|]. cbv zeta. case_bool_decide as N; [done|]. case_bool_decide as V; cbn [negb]; [|done].
    apply warm_ok. destruct O as [K R C]. split; cbn; [by apply row_put_keys| |done].
    apply (row_put_all (fun k r => promotable k (r_verb r))); [|done]. split_and!; cbn; tauto.
  - unfold demote_tool_verb. destruct (require_admin user); [done|]. apply warm_ok. destruct O as [K R C]. split; cbn; [by apply row_del_nodup| |done].
    rewrite Forall_forall in R |- *. intros x I%row_del_keys. by apply R.
  - apply warm_ok. destruct O as [K R C]. split; cbn; [done|done|]. apply Forall_insert; [done|apply Forall_nil_2].
Qed.

(** [n] processes over an empty table. *)
Definition init (n : nat) : State := {| table := []; copies := replicate n [] |}.

Lemma reachable_ok n s : rtc step (init n) s -> ok s.
Proof.
  intros R. assert (O : ok (init n)).
  { split; cbn; [apply NoDup_nil_2|apply Forall_nil_2|]. apply Forall_replicate, Forall_nil_2. }
  revert O. induction R as [s|s s1 s2 St _ IH]; [done|]. intros O. apply IH. by eapply promotion_step_ok.
Qed.

(** *** What the console shows *)

Lemma show_keeps out e tool x : field tool out = Some x -> exists y, field tool (show out e) = Some y /\ RISK_RANK x.2 <= RISK_RANK y.2.
Proof.
  intros F. destruct e as [[ns t] r]. unfold show. cbn [fst snd]. destruct (decide (t = tool)) as [->|E].
  - rewrite F. destruct (Z.ltb_spec (RISK_RANK x.2) (RISK_RANK (r_risk r))); [|by exists x].
    rewrite field_put_eq. eexists. split; [done|]. cbn. lia.
  - exists x. split; [|done]. destruct (field t out); [case_match; [|done]|]; by rewrite field_put_ne.
Qed.

Lemma show_adds out ns tool r : exists y, field tool (show out ((ns, tool), r)) = Some y /\ RISK_RANK (r_risk r) <= RISK_RANK y.2.
Proof.
  unfold show. cbn [fst snd]. destruct (field tool out) as [cur|] eqn:F; [destruct (Z.ltb_spec (RISK_RANK cur.2) (RISK_RANK (r_risk r)))|].
  - rewrite field_put_eq. by eexists.
  - rewrite F. by eexists.
  - rewrite field_put_eq. by eexists.
Qed.

Lemma shown_keeps rows : forall out tool x, field tool out = Some x -> exists y, field tool (foldl show out rows) = Some y /\ RISK_RANK x.2 <= RISK_RANK y.2.
Proof.
  induction rows as [|e rows IH]; intros out tool x F; cbn [foldl]; [by exists x|]. destruct (show_keeps out e tool x F) as (y & Fy & L).
  destruct (IH _ _ _ Fy) as (z & Fz & L2). exists z. split; [done|lia].
Qed.

(** Over any namespaces in scope, a tool is shown with a risk at least that of each of its promotions: the weaker of two never
    hides the stronger. *)
Theorem console_shows_worst namespaces t ns tool r :
  ((ns, tool), r) ∈ t -> in_scope namespaces (ns, tool) = true ->
  exists shown, field tool (verb_overrides namespaces t) = Some shown /\ RISK_RANK (r_risk r) <= RISK_RANK shown.2.
Proof.
  intros I Sc. unfold verb_overrides. assert (J : ((ns, tool), r) ∈ List.filter (fun e => in_scope namespaces e.1) t) by (by apply list_elem_of_In, filter_In; rewrite <- list_elem_of_In).
  revert J. generalize (List.filter (fun e : Key * Row => in_scope namespaces e.1) t) as rows. generalize (@nil (text * (text * text))) as out. clear.
  intros out rows. revert out. induction rows as [|e rows IH]; intros out J; [by apply elem_of_nil in J|]. apply elem_of_cons in J as [<-|J]; [|by apply IH].
  cbn [foldl]. destruct (show_adds out ns tool r) as (y & F & L). destruct (shown_keeps rows _ _ _ F) as (z & Fz & L2). exists z. split; [done|]. cbn in *. lia.
Qed.

(** *** What a call sees *)

Section Calls.
Context `{Unicode}.

Lemma promotable_rank v : v ∈ PROMOTABLE_VERBS -> v <> [].
Proof. intros I ->. apply (bool_decide_eq_true_2 _) in I. vm_compute in I. discriminate. Qed.

(** C40: Whatever the processes have done, the verb a policy reads is one of the five. *)
Theorem published_verb_is_a_verb n s copy ns tool params : rtc step (init n) s -> copy ∈ copies s ->
  exists v, derived_verb copy ns tool params = points (verb_value v).
Proof.
  intros R I. apply reachable_ok in R as [_ _ C]. rewrite Forall_forall in C. specialize (C copy I).
  unfold derived_verb. cbv zeta. destruct (override_get ns tool copy) as [p|] eqn:O; [|by eexists]. destruct p as [|c p]; [by eexists|].
  case_bool_decide; [|by eexists]. destruct (_ <? _); [|by eexists]. rewrite override_get_row in O. apply row_get_elem in O.
  rewrite Forall_forall in C. destruct (C _ O) as (_ & _ & V). cbn [fst snd] in V. unfold PROMOTABLE_VERBS in V. cbn [map] in V. rewrite !elem_of_cons, elem_of_nil in V.
  destruct V as [->|[->|[->|[->|[]]]]]; [by exists READ|by exists WRITE|by exists DELETE|by exists SEND].
Qed.

(** Process [i] has a promotion of a tool to a verb in force: for a tool whose name says nothing, whatever the arguments, a policy it
    evaluates reads no verb less consequential. *)
Definition in_force (i : nat) (ns tool verb : text) (s : State) : Prop :=
  exists copy, copies s !! i = Some copy /\
    ((classify_tool tool None).1 = UNKNOWN -> forall params, promotion_rank verb <= promotion_rank (derived_verb copy ns tool params)).

(** A step that neither promotes nor demotes this tool in this namespace. *)
Inductive step_but (k : Key) : State -> State -> Prop :=
  | but_promote i warmed observed user username ns tool verb s :
      (tstrip ns, tstrip tool) <> k -> step_but k s (promote_tool_verb i warmed observed user username ns tool verb s).2
  | but_demote i warmed user ns tool s : (ns, tool) <> k -> step_but k s (demote_tool_verb i warmed user ns tool s).2
  | but_start i warmed s : step_but k s (start i warmed s).

Lemma step_but_step k s s' : step_but k s s' -> step s s'.
Proof. intros [i w obs user username ns tool verb s0 _|i w user ns tool s0 _|i w s0]; constructor. Qed.

Lemma warm_table i w s : table (warm i w s) = table s.
Proof. by destruct w. Qed.

Lemma warm_length i w s : length (copies (warm i w s)) = length (copies s).
Proof. destruct w; [|done]. apply length_insert. Qed.

Lemma step_but_keeps k s s' : step_but k s s' -> row_get k (table s') = row_get k (table s) /\ length (copies s') = length (copies s).
Proof.
  intros [i w obs user username ns tool verb s0 N|i w user ns tool s0 N|i w s0].
  - unfold promote_tool_verb. destruct (require_admin user); [done|]. cbv zeta. case_bool_decide; [done|]. destruct (negb _); [done|]. cbn [snd].
    rewrite warm_table, warm_length. cbn [table copies]. by rewrite row_get_put, bool_decide_false.
  - unfold demote_tool_verb. destruct (require_admin user); [done|]. cbn [snd]. rewrite warm_table, warm_length. cbn [table copies].
    by rewrite row_get_del, bool_decide_false.
  - unfold start. rewrite warm_table, warm_length. cbn [table copies]. by rewrite length_insert.
Qed.

Lemma steps_but_keep k s s' : rtc (step_but k) s s' -> row_get k (table s') = row_get k (table s) /\ length (copies s') = length (copies s).
Proof.
  induction 1 as [s|s s1 s2 St _ [IH1 IH2]]; [done|]. apply step_but_keeps in St as [T L]. by rewrite IH1, IH2.
Qed.

(** A copy read from a table with the row has the promotion in force. *)
Lemma warmed_in_force i ns tool r s : ok s -> (i < length (copies s))%nat -> row_get (ns, tool) (table s) = Some r ->
  in_force i ns tool (r_verb r) (warm i true s).
Proof.
  intros [K Rw _] Li G. eexists. split; [by apply list_lookup_insert_eq|]. intros U params.
  pose proof (row_get_elem _ _ _ G) as I. rewrite Forall_forall in Rw. destruct (Rw _ I) as (N & T & V). cbn in N, T, V.
  assert (O : override_get ns tool (refresh (table s)) = Some (r_verb r)).
  { rewrite override_get_row, refresh_get, G by done. rewrite decide_False; [done|]. unfold idle. cbn. pose proof (promotable_rank _ V). tauto. }
  rewrite (derived_verb_unnamed _ _ _ _ _ U O) by (by apply promotable_rank). case_match eqn:L; [lia|]. by apply Z.ltb_ge in L.
Qed.

(** C28: An admin's promotion is answered with the verb and kept: through whatever requests and restarts follow, none of which
    promotes or demotes the tool in that namespace, every process that re-reads the table, by starting or by serving a change, has it
    in force: if the tool's name says nothing, a call it evaluates is read with no verb less consequential than the one promoted.  The
    process that served the request has it in force at once if its own re-read succeeded; if that failed, no copy has changed. *)
Theorem promotion_in_force n s i warmed observed user username ns tool verb :
  rtc step (init n) s -> (i < length (copies s))%nat -> is_role "admin" user = true ->
  tstrip ns <> [] -> tstrip tool <> [] -> lower (tstrip verb) ∈ PROMOTABLE_VERBS ->
  let '(r, s') := promote_tool_verb i warmed observed user username ns tool verb s in
  r = inr (lower (tstrip verb), risk_of (lower (tstrip verb))) /\
  (if warmed then in_force i (tstrip ns) (tstrip tool) (lower (tstrip verb)) s' else copies s' = copies s) /\
  forall s'' j, rtc (step_but (tstrip ns, tstrip tool)) s' s'' -> (j < length (copies s))%nat ->
    in_force j (tstrip ns) (tstrip tool) (lower (tstrip verb)) (warm j true s'').
Proof.
  intros R Li A N T V. destruct (promote_tool_verb _ _ _ _ _ _ _ _ _) as [r s'] eqn:E.
  assert (O' : ok s').
  { replace s' with (promote_tool_verb i warmed observed user username ns tool verb s).2 by (by rewrite E).
    eapply promotion_step_ok; [constructor|by eapply reachable_ok]. }
  apply reachable_ok in R as O. unfold promote_tool_verb, require_admin in E. rewrite A in E. cbn [mret R_ret] in E. cbv zeta in E.
  rewrite bool_decide_false in E by tauto. rewrite bool_decide_true in E by done. cbn [negb] in E. injection E as <- <-.
  set (row := Build_Row _ _ _ _) in *. set (s1 := Build_State _ _) in *.
  assert (G : row_get (tstrip ns, tstrip tool) (table s1) = Some row) by (cbn; by rewrite row_get_put, bool_decide_true).
  assert (O1 : ok s1).
  { destruct O as [K Rw C]. split; cbn; [by apply row_put_keys| |done]. apply (row_put_all (fun k r => promotable k (r_verb r))); [|done]. by split_and!. }
  split; [done|]. split; [destruct warmed; [by apply (warmed_in_force _ _ _ row)|done]|].
  intros s'' j R' Lj. destruct (steps_but_keep _ _ _ R') as [T' L']. rewrite warm_table in T'. rewrite warm_length in L'.
  apply (warmed_in_force j _ _ row); [|by rewrite L'|by rewrite T'].
  clear -R' O'. revert O'. induction R' as [|a b c St _ IH]; [done|]. intros Oa. apply IH. eapply promotion_step_ok; [by eapply step_but_step|done].
Qed.

(** A demotion is in force for the next call: the process that served it reads the classifier's verb. *)
Theorem demotion_in_force n s i user ns tool params :
  rtc step (init n) s -> (i < length (copies s))%nat -> is_role "admin" user = true ->
  let '(r, s') := demote_tool_verb i true user ns tool s in
  r = inr (bool_decide (is_Some (row_get (ns, tool) (table s)))) /\
  exists copy, copies s' !! i = Some copy /\ derived_verb copy ns tool params = points (verb_value (classify_tool tool (Some params)).1).
Proof.
  intros R Li A. apply reachable_ok in R as [K _ _]. unfold demote_tool_verb, require_admin. rewrite A. cbn [mret R_ret warm copies table]. split; [done|].
  eexists. split; [by apply list_lookup_insert_eq|]. unfold derived_verb. cbv zeta. rewrite override_get_row, refresh_get by (by apply row_del_nodup).
  by rewrite row_get_del, bool_decide_true.
Qed.
End Calls.

(** ** Two processes *)

Module Two.

Definition admin : Claims :=
  {| c_sub := points "root"; c_role := points "admin"; c_namespace := []; c_cluster := []; c_agent_class := []; c_spiffe_id := []; c_workload := [];
     c_must_change := false; c_exp := 0; c_iat := 0 |}.
Definition tool : text := points "acme_widget".
Definition prod : text := points "prod".
Definition none : text -> list Observed := fun _ => [].
Definition promoted : State := (promote_tool_verb 0 true none admin [] prod tool (points "Delete") (init 2)).2.

Definition verb_at (i : nat) (s : State) : option text := (fun copy => derived_verb copy prod tool (VObj [])) <$> (copies s !! i).

(** The process that served the promotion sees it; the other, with the same table, does not. *)
Example other_process_stale : verb_at 0 promoted = Some (points "delete") /\ verb_at 1 promoted = Some (points "unknown").
Proof. vm_compute. done. Qed.

(** And a process that did not serve a demotion still enforces what was retracted. *)
Definition both : State := start 1 true promoted.
Example retracted_verb_enforced : let s := (demote_tool_verb 0 true admin prod tool both).2 in
  table s = [] /\ verb_at 0 s = Some (points "unknown") /\ verb_at 1 s = Some (points "delete").
Proof. vm_compute. done. Qed.

Lemma suggestion_never_understates_witness : VERB_RANK (points "read") <= VERB_RANK (points "delete").
Proof.
  apply (suggestion_never_understates {| ev_calls := 6; ev_verbs := [(points "read", 4); (points "delete", 2)] |} (points "delete") 2 (points "read") 4);
    [vm_compute; reflexivity|left].
Defined.

Lemma console_shows_worst_witness : exists shown, field tool (verb_overrides None (table promoted)) = Some shown /\ RISK_RANK (points "critical") <= RISK_RANK shown.2.
Proof.
  apply (console_shows_worst None (table promoted) prod tool {| r_verb := points "delete"; r_risk := points "critical"; r_by := points "root"; r_evidence := None |});
    [vm_compute; left|reflexivity].
Defined.

Lemma published_verb_is_a_verb_witness : exists v, derived_verb (refresh (table promoted)) prod tool (VObj []) = points (verb_value v).
Proof.
  apply (published_verb_is_a_verb 2 promoted (refresh (table promoted)) prod tool (VObj [])); [apply rtc_once, step_promote|vm_compute; left].
Defined.

(** The promotion survives a restart of the other process, which then has it too. *)
Lemma promotion_in_force_witness : in_force 0 prod tool (points "delete") promoted /\
  in_force 1 prod tool (points "delete") (warm 1 true (start 1 false promoted)).
Proof.
  pose proof (promotion_in_force 2 (init 2) 0 true none admin [] prod tool (points "Delete") (rtc_refl _ _) ltac:(vm_compute; lia) eq_refl
    ltac:(discriminate) ltac:(discriminate) ltac:(apply (bool_decide_unpack _); vm_compute; exact I)) as P.
  unfold promoted. destruct (promote_tool_verb _ _ _ _ _ _ _ _ _) as [r s'] eqn:E. destruct P as [_ [F L]]. split; [exact F|].
  apply (L (start 1 false s') 1%nat); [apply rtc_once, but_start|vm_compute; lia].
Defined.

Lemma demotion_in_force_witness : exists copy, copies (demote_tool_verb 0 true admin prod tool promoted).2 !! 0%nat = Some copy /\ derived_verb copy prod tool (VObj []) = points "unknown".
Proof.
  pose proof (demotion_in_force 2 promoted 0 admin prod tool (VObj []) (rtc_once _ _ (step_promote 0 true none admin [] prod tool (points "Delete") (init 2))) ltac:(vm_compute; lia) eq_refl) as P.
  destruct (demote_tool_verb _ _ _ _ _ _) as [r s'] eqn:E. destruct P as [_ (copy & C & D)]. exists copy. split; [exact C|]. rewrite D. vm_compute. reflexivity.
Defined.

End Two.
