(* ===== verification/Wrapping.v ===== *)
(** * Tool wrapping ([sdk/core/wrapping.py])

    An adapter stands between an agent framework and a tool, a Python callable invoked with positional and
    keyword arguments.  Policies address arguments by name, so the adapter binds the call to the tool's
    signature and publishes a dictionary.  The model has Python's [Signature.bind], the test whether a value
    can enter the payload, the choice of the signature to bind to, and the payload itself.  The theorems say
    what of a call the engine is told: for an ordinary call exactly its arguments, each under the name of the
    parameter at its place or under its keyword. *)

From S2P Require Import Prelude.
From S2P Require Import Text.
From S2P Require Import Json.

(** The value of an argument.  A key of a dictionary is [None] when it is not a [str]; an object is anything that
    is not data, known by its identity. *)
Inductive arg : Type :=
  | ANone
  | ABool (b : bool)
  | AInt (n : Z)
  | AFloat (d : double)
  | AStr (s : text)
  | AList (l : list arg)                   (* a [list] or a [tuple] *)
  | ADict (fs : list (option text * arg))
  | AObject (identity : Z).

Section ArgInd.
Context (P : arg -> Prop).
Context (Pnone : P ANone) (Pbool : forall b, P (ABool b)) (Pint : forall n, P (AInt n)) (Pfloat : forall d, P (AFloat d)).
Context (Pstr : forall s, P (AStr s)) (Plist : forall l, Forall P l -> P (AList l)).
Context (Pdict : forall fs, Forall (fun f => P f.2) fs -> P (ADict fs)) (Pobject : forall i, P (AObject i)).

Fixpoint arg_ind' (a : arg) : P a :=
  match a with
  | ANone => Pnone | ABool b => Pbool b | AInt n => Pint n | AFloat d => Pfloat d | AStr s => Pstr s
  | AList l => Plist l (list_ind (Forall P) (Forall_nil_2 P) (fun x l' H => Forall_cons_2 P x l' (arg_ind' x) H) l)
  | ADict fs =>
      Pdict fs (list_ind (Forall (fun f => P f.2)) (Forall_nil_2 _)
                  (fun f fs' H => Forall_cons_2 (fun f => P f.2) f fs' (arg_ind' f.2) H) fs)
  | AObject i => Pobject i
  end.
End ArgInd.

(** ** [_is_representable] *)

Definition REPR_MAX_NODES : nat := 256.
Definition REPR_MAX_DEPTH : nat := 6.

(** Pushing the values of a dictionary, until a key that is not a [str]. *)
Fixpoint push_items (depth : nat) (fs : list (option text * arg)) (stack : list (arg * nat)) : option (list (arg * nat)) :=
  match fs with
  | [] => Some stack
  | (None, _) :: _ => None
  | (Some _, v) :: fs' => push_items depth fs' ((v, S depth) :: stack)
  end.

(** The loop: the top of the stack is the head, and [budget] is what is left of the budget of nodes. *)
Fixpoint repr_loop (budget : nat) (stack : list (arg * nat)) : bool :=
  match stack, budget with
  | [], _ => true
  | _ :: _, O => false
  | (item, depth) :: rest, S budget =>
      if (REPR_MAX_DEPTH <? depth)%nat then false
      else match item with
           | AList l => repr_loop budget (reverse (map (fun v => (v, S depth)) l) ++ rest)
           | ADict fs => match push_items depth fs rest with Some stack => repr_loop budget stack | None => false end
           | AObject _ => false
           | _ => repr_loop budget rest
           end
  end.

Definition is_representable (v : arg) : bool := repr_loop REPR_MAX_NODES [(v, 0%nat)].

(** *** What it decides *)

(** Data all through, the nodes, and the levels below the top. *)
Fixpoint is_data (a : arg) : bool :=
  match a with
  | AList l => forallb is_data l
  | ADict fs => forallb (fun f => match f.1 with Some _ => is_data f.2 | None => false end) fs
  | AObject _ => false
  | _ => true
  end.
Fixpoint arg_nodes (a : arg) : nat :=
  match a with
  | AList l => S (list_sum (map arg_nodes l))
  | ADict fs => S (list_sum (map (fun f => arg_nodes f.2) fs))
  | _ => 1
  end.
Fixpoint within (levels : nat) (a : arg) {struct a} : bool :=
  match a with
  | AList l => forallb (fun v => match levels with O => false | S n => within n v end) l
  | ADict fs => forallb (fun f => match levels with O => false | S n => within n f.2 end) fs
  | _ => true
  end.

(** The promise for one entry of the stack. *)
Definition entry_ok (e : arg * nat) : bool :=
  (e.2 <=? REPR_MAX_DEPTH)%nat && is_data e.1 && within (REPR_MAX_DEPTH - e.2) e.1.
Definition stack_nodes (stack : list (arg * nat)) : nat := list_sum (map (fun e => arg_nodes e.1) stack).

Lemma arg_nodes_pos a : (1 <= arg_nodes a)%nat.
Proof. destruct a; simpl; lia. Qed.

Lemma forallb_reverse {A} (p : A -> bool) l : forallb p (reverse l) = forallb p l.
Proof. induction l as [|x l IH]; [done|]. rewrite reverse_cons, forallb_app, IH. simpl. by rewrite andb_true_r, andb_comm. Qed.

Lemma list_sum_reverse {A} (f : A -> nat) l : list_sum (map f (reverse l)) = list_sum (map f l).
Proof. induction l as [|x l IH]; [done|]. rewrite reverse_cons, map_app, list_sum_app, IH. simpl. lia. Qed.

Lemma entry_step depth (v : arg) : (depth <= REPR_MAX_DEPTH)%nat ->
  entry_ok (v, S depth) = is_data v && match (REPR_MAX_DEPTH - depth)%nat with O => false | S n => within n v end.
Proof.
  intros L. unfold entry_ok. cbn [fst snd]. destruct (REPR_MAX_DEPTH - depth)%nat as [|n] eqn:E.
  - rewrite (proj2 (Nat.leb_gt (S depth) _)) by lia. by rewrite andb_false_r.
  - rewrite (proj2 (Nat.leb_le (S depth) _)) by lia. by replace (REPR_MAX_DEPTH - S depth)%nat with n by lia.
Qed.

Lemma forallb_and {A} (p q r : A -> bool) l : (forall x, r x = p x && q x) -> forallb r l = forallb p l && forallb q l.
Proof. intros H. induction l as [|x l IH]; [done|]. simpl. rewrite H, IH. by destruct (p x), (q x), (forallb p l). Qed.

Lemma forallb_map' {A B} (f : A -> B) (p : B -> bool) l : forallb p (map f l) = forallb (fun x => p (f x)) l.
Proof. induction l as [|x l IH]; [done|]. simpl. by rewrite IH. Qed.

(** A list pushes its elements, a dictionary its values. *)
Lemma pushed_list depth l : (depth <= REPR_MAX_DEPTH)%nat ->
  forallb entry_ok (reverse (map (fun v => (v, S depth)) l)) = entry_ok (AList l, depth) /\
  S (stack_nodes (reverse (map (fun v => (v, S depth)) l))) = arg_nodes (AList l).
Proof.
  intros L. split.
  - rewrite forallb_reverse, forallb_map'. unfold entry_ok at 2. simpl fst. simpl snd. rewrite (proj2 (Nat.leb_le _ _)) by done.
    change (within (REPR_MAX_DEPTH - depth) (AList l))
      with (forallb (fun v => match (REPR_MAX_DEPTH - depth)%nat with O => false | S n => within n v end) l).
    cbn [is_data andb]. apply forallb_and. intros v. by apply entry_step.
  - unfold stack_nodes. rewrite list_sum_reverse, map_map. done.
Qed.

Lemma push_items_spec depth fs : (depth <= REPR_MAX_DEPTH)%nat -> forall stack,
  match push_items depth fs stack with
  | Some s => forallb entry_ok s = entry_ok (ADict fs, depth) && forallb entry_ok stack /\
              S (stack_nodes s) = (arg_nodes (ADict fs) + stack_nodes stack)%nat
  | None => entry_ok (ADict fs, depth) = false
  end.
Proof.
  intros L. assert (E : forall f fs, entry_ok (ADict (f :: fs), depth)
     = match f.1 with Some _ => entry_ok (f.2, S depth) | None => false end && entry_ok (ADict fs, depth)).
  { intros [[k|] v] gs; unfold entry_ok at 1; simpl fst; simpl snd; cbn [is_data within forallb fst snd].
    - rewrite entry_step by done. unfold entry_ok. simpl fst. simpl snd. cbn [is_data within].
      destruct (depth <=? REPR_MAX_DEPTH)%nat, (is_data v), (REPR_MAX_DEPTH - depth)%nat; simpl; try done;
        rewrite ?andb_false_r; try done; by destruct (within _ v), (forallb _ gs), (forallb _ gs).
    - by rewrite andb_false_r. }
  induction fs as [|[[k|] v] fs IH]; intros stack; simpl push_items.
  - split; [|done]. unfold entry_ok at 2. simpl. by rewrite (proj2 (Nat.leb_le _ _)).
  - specialize (IH ((v, S depth) :: stack)). rewrite E. simpl fst. simpl snd. destruct (push_items _ _ _) as [s|].
    + destruct IH as [-> N]. split; [simpl; by destruct (entry_ok _), (entry_ok _)|].
      rewrite N. unfold stack_nodes. simpl. lia.
    + rewrite IH. by rewrite andb_false_r.
  - rewrite E. done.
Qed.

Lemma repr_loop_spec budget : forall stack,
  repr_loop budget stack = forallb entry_ok stack && (stack_nodes stack <=? budget)%nat.
Proof.
  assert (Z : forall (e : arg * nat) stack, (1 <= stack_nodes (e :: stack))%nat).
  { intros e stack. unfold stack_nodes. simpl. pose proof (arg_nodes_pos e.1). lia. }
  assert (Leaf : forall n v depth rest, (depth <= REPR_MAX_DEPTH)%nat -> is_data v = true -> (forall k, within k v = true) ->
    arg_nodes v = 1%nat -> forallb entry_ok rest && (stack_nodes rest <=? n)%nat
      = forallb entry_ok ((v, depth) :: rest) && (stack_nodes ((v, depth) :: rest) <=? S n)%nat).
  { intros n v depth rest Ld D Wi No. simpl forallb. unfold entry_ok at 2. simpl fst. simpl snd.
    rewrite D, Wi, (proj2 (Nat.leb_le depth _)) by done. unfold stack_nodes at 2. cbn [map list_sum foldr fst]. by rewrite No. }
  induction budget as [|budget IH]; intros [|[item depth] rest]; try done.
  - cbn [repr_loop]. rewrite (proj2 (Nat.leb_gt (stack_nodes _) _)) by apply Z. by rewrite andb_false_r.
  - cbn [repr_loop]. destruct (Nat.ltb_spec REPR_MAX_DEPTH depth) as [Dp|Dp].
    { cbn [forallb]. assert (entry_ok (item, depth) = false) as ->; [|done].
      unfold entry_ok. cbn [snd]. by rewrite (proj2 (Nat.leb_gt depth _)). }
    destruct item as [| | | | |l|fs|]; try (rewrite IH; by apply Leaf).
    + rewrite IH, forallb_app. destruct (pushed_list depth l Dp) as [-> N]. simpl forallb. f_equal.
      unfold stack_nodes in *. rewrite map_app, list_sum_app. simpl map. simpl list_sum. simpl arg_nodes in N.
      apply eq_bool_prop_intro. rewrite !Is_true_true, !Nat.leb_le. simpl. lia.
    + pose proof (push_items_spec depth fs Dp rest) as S. destruct (push_items depth fs rest) as [s|].
      * destruct S as [F N]. rewrite IH, F. simpl forallb. f_equal.
        apply eq_bool_prop_intro. rewrite !Is_true_true, !Nat.leb_le. unfold stack_nodes in *. simpl in *. lia.
      * simpl forallb. by rewrite S.
    + simpl forallb. unfold entry_ok at 1. simpl. by rewrite andb_false_r.
Qed.

(** The test answers yes exactly for data of at most 256 nodes and six levels below the top, whatever the order the loop
    takes them in. *)
Theorem representable_exact v :
  is_representable v = true <-> is_data v = true /\ within REPR_MAX_DEPTH v = true /\ (arg_nodes v <= REPR_MAX_NODES)%nat.
Proof.
  unfold is_representable. rewrite repr_loop_spec.
  assert (stack_nodes [(v, 0%nat)] = arg_nodes v) as -> by (unfold stack_nodes; simpl; lia).
  cbn [forallb]. unfold entry_ok. cbn [fst snd]. rewrite (Nat.sub_0_r REPR_MAX_DEPTH), !andb_true_iff, (Nat.leb_le (arg_nodes v)).
  split; [by intros [[[[_ ?] ?] _] ?]|by intros (? & ? & ?)].
Qed.

(** ** Signatures and [Signature.bind] *)

Inductive Kind := PositionalOnly | PositionalOrKeyword | VarPositional | KeywordOnly | VarKeyword.

#[global] Instance Kind_eq_dec : EqDecision Kind.
Proof. solve_decision. Defined.

Record Param := mkParam { p_name : text; p_kind : Kind; p_default : bool }.

Notation Signature := (list Param).

(** What a parameter is bound to: one value, the tuple of a [*args], the dictionary of a [**kwargs]. *)
Inductive Bound :=
  | One (v : arg)
  | Rest (l : list arg)
  | Named (kw : list (text * arg)).

(** [name in kwargs]. *)
Definition has_key {B} (k : text) (d : list (text * B)) : bool := match field k d with Some _ => true | None => false end.

(** The first loop of [Signature._bind]: the positional arguments, left to right.  The second component is the
    parameters that the keyword arguments are for; [None] is a [TypeError]. *)
Fixpoint bind_positional (ps : Signature) (args : list arg) (kw : list (text * arg)) : option (list (text * Bound) * Signature) :=
  match args, ps with
  | [], [] => Some ([], [])
  | [], p :: ps' =>
      match p_kind p with
      | VarPositional => Some ([], ps')
      | k =>
          if has_key (p_name p) kw then (if bool_decide (k = PositionalOnly) then None else Some ([], p :: ps'))
          else if bool_decide (k = VarKeyword) || p_default p then Some ([], p :: ps')
          else None
      end
  | _ :: _, [] => None
  | a :: args', p :: ps' =>
      match p_kind p with
      | VarKeyword | KeywordOnly => None
      | VarPositional => Some ([(p_name p, Rest (a :: args'))], ps')
      | k =>
          if has_key (p_name p) kw && negb (bool_decide (k = PositionalOnly)) then None
          else '(b, ps'') ← bind_positional ps' args' kw; Some ((p_name p, One a) :: b, ps'')
      end
  end.

(** The second loop: the keyword arguments, each taken by its parameter; what no parameter takes is left. *)
Fixpoint bind_keywords (ps : Signature) (kw : list (text * arg)) (kwargs_param : option text)
    : option (list (text * Bound) * list (text * arg) * option text) :=
  match ps with
  | [] => Some ([], kw, kwargs_param)
  | p :: ps' =>
      match p_kind p with
      | VarKeyword => bind_keywords ps' kw (Some (p_name p))
      | VarPositional => bind_keywords ps' kw kwargs_param
      | k =>
          match field (p_name p) kw with
          | None => if p_default p then bind_keywords ps' kw kwargs_param else None
          | Some v =>
              if bool_decide (k = PositionalOnly) then None
              else '(b, kw', kp) ← bind_keywords ps' (del_field (p_name p) kw) kwargs_param;
                   Some ((p_name p, One v) :: b, kw', kp)
          end
      end
  end.

(** [Signature.bind]. *)
Definition bind (sig : Signature) (args : list arg) (kw : list (text * arg)) : option (list (text * Bound)) :=
  '(b1, ps) ← bind_positional sig args kw;
  '(b2, left_over, kp) ← bind_keywords ps kw None;
  if bool_decide (left_over = []) then Some (b1 ++ b2)
  else n ← kp; Some (b1 ++ b2 ++ [(n, Named left_over)]).

(** ** [_tool_params] *)

Definition FRAMEWORK_CONTROL_KWARGS : list text :=
  map points ["config"; "run_manager"; "callbacks"; "callback_manager"; "run_id"; "run_name"; "metadata"; "tags"].
Definition FRAMEWORK_INJECTED_PARAMS : list text := map points ["config"; "run_manager"; "callbacks"; "callback_manager"].
Definition UNREPRESENTABLE : arg := AStr (points "<nrvq:unrepresentable>").

Definition is_control (k : text) : bool := bool_decide (k ∈ FRAMEWORK_CONTROL_KWARGS).
Definition is_injected (k : text) : bool := bool_decide (k ∈ FRAMEWORK_INJECTED_PARAMS).
Definition is_receiver (k : text) : bool := bool_decide (k ∈ [points "self"; points "cls"]).
Definition is_none (a : arg) : bool := match a with ANone => true | _ => false end.

(** [_declared_value]. *)
Definition declared_value (name : text) (v : arg) : bool * arg :=
  if negb (is_control name) then (true, v)
  else if is_injected name && (is_none v || negb (is_representable v)) then (false, ANone)
  else if is_representable v then (true, v)
  else (true, UNREPRESENTABLE).

Definition strip_control (kw : list (text * arg)) : list (text * arg) := filter (fun f => is_control f.1 = false) kw.

(** [out.update(d)]. *)
Definition update_fields (out d : list (text * arg)) : list (text * arg) := fold_left (fun o f => put_field f.1 f.2 o) d out.

(** [out.setdefault(k, v)]. *)
Definition setdefault (k : text) (v : arg) (out : list (text * arg)) : list (text * arg) :=
  if has_key k out then out else put_field k v out.

(** The two attempts to bind, the call as it arrived first. *)
Definition bound_call (sig : Signature) (args : list arg) (kw : list (text * arg)) : option (list (text * Bound)) :=
  match bind sig args kw with
  | Some b => Some b
  | None => if forallb (fun f => negb (is_control f.1)) kw then None else bind sig args (strip_control kw)
  end.

(** The loop over the bound arguments. *)
Fixpoint publish (b : list (text * Bound)) (out : list (text * arg)) (leftover : list arg) : list (text * arg) * list arg :=
  match b with
  | [] => (out, leftover)
  | (name, v) :: b' =>
      if is_receiver name then publish b' out leftover
      else match v with
           | Rest l => publish b' out (leftover ++ l)
           | Named kw => publish b' (update_fields out (strip_control kw)) leftover
           | One a => let '(keep, r) := declared_value name a in publish b' (if keep then put_field name r out else out) leftover
           end
  end.

Definition tool_params (args : list arg) (kw : list (text * arg)) (sig : option Signature) : list (text * arg) :=
  let unnamed := [(points "args", AList args)] in
  let clean := strip_control kw in
  let fallback := if bool_decide (clean = []) then unnamed else clean in
  match sig with
  | None => fallback
  | Some sig =>
      match bound_call sig args kw with
      | None => fallback
      | Some b =>
          let '(out, leftover) := publish b [] [] in
          let out := if bool_decide (leftover = []) then out else setdefault (points "args") (AList leftover) out in
          if bool_decide (out = []) then unnamed else out
      end
  end.

(** ** What a bind says of the call *)

Definition takes_name (k : Kind) : bool := match k with PositionalOrKeyword | KeywordOnly => true | _ => false end.

Definition fits (k : Kind) (v : Bound) : Prop :=
  match v with One _ => takes_name k = true \/ k = PositionalOnly | Rest _ => k = VarPositional | Named _ => k = VarKeyword end.

(** The value of a positional argument is bound, alone or in the tuple. *)
Definition bound_somewhere (b : list (text * Bound)) (a : arg) : Prop :=
  exists n v, (n, v) ∈ b /\ match v with One a' => a' = a | Rest l => a ∈ l | Named _ => False end.

Lemma bound_somewhere_app b1 b2 a : bound_somewhere b1 a \/ bound_somewhere b2 a -> bound_somewhere (b1 ++ b2) a.
Proof. intros [(n & v & I & H)|(n & v & I & H)]; exists n, v; split; try done; apply elem_of_app; auto. Qed.

Lemma has_key_false {B} k (d : list (text * B)) : has_key k d = false <-> k ∉ d.*1.
Proof. unfold has_key. rewrite <- field_key. destruct (field k d) as [v|]; naive_solver. Qed.

(** What the first loop has done: the parameters it used up, and what it bound them to. *)
Record positional_facts (kw : list (text * arg)) (ps : Signature) (args : list arg) (b : list (text * Bound)) (rest used : Signature) : Prop := {
  pf_split : ps = used ++ rest;
  pf_names : b.*1 `sublist_of` map p_name used;
  pf_fits : forall n v, (n, v) ∈ b -> exists p, p ∈ used /\ p_name p = n /\ fits (p_kind p) v /\ p_kind p <> VarKeyword;
  pf_free : forall p, p ∈ used -> takes_name (p_kind p) = true -> p_name p ∉ kw.*1;
  pf_args : forall a, a ∈ args -> bound_somewhere b a;
}.

Lemma positional_done kw ps : positional_facts kw ps [] [] ps [].
Proof. by split; try (intros * ?%elem_of_nil). Qed.

Lemma positional_step kw p ps a args b rest used :
  fits (p_kind p) (One a) -> (takes_name (p_kind p) = true -> p_name p ∉ kw.*1) -> positional_facts kw ps args b rest used ->
  positional_facts kw (p :: ps) (a :: args) ((p_name p, One a) :: b) rest (p :: used).
Proof.
  intros F N [-> Sb Fi Fr Ar]. split; [done|by apply sublist_skip| | |].
  - intros n v [[= -> ->]|I]%elem_of_cons.
    + exists p. split; [by left|]. repeat split; try done. intros K. rewrite K in F. by destruct F.
    + destruct (Fi _ _ I) as (q & Q & H). exists q. split; [by right|done].
  - intros q [->|I]%elem_of_cons; [done|by apply Fr].
  - intros x [->|I]%elem_of_cons; [exists (p_name p), (One a); split; [by left|done]|].
    destruct (Ar x I) as (n & v & J & M). exists n, v. split; [by right|done].
Qed.

Lemma bind_positional_spec kw : forall ps args b rest, bind_positional ps args kw = Some (b, rest) ->
  exists used, positional_facts kw ps args b rest used.
Proof.
  induction ps as [|p ps IH]; intros args b rest; destruct args as [|a args]; cbn [bind_positional]; try done.
  - intros [= <- <-]. eexists. apply positional_done.
  - destruct (p_kind p) eqn:K;
      try (repeat (case_match; try done); intros [= <- <-]; eexists; apply positional_done).
    intros [= <- <-]. exists [p]. split; try (by intros * ?%elem_of_nil); [done|by apply sublist_nil_l|].
    intros q ->%list_elem_of_singleton T. by rewrite K in T.
  - destruct (p_kind p) eqn:K; try done.
    3:{ intros [= <- <-]. exists [p]. split; [done|done| | |].
        - intros n v [= -> ->]%list_elem_of_singleton. exists p. split; [by left|]. by rewrite K.
        - intros q ->%list_elem_of_singleton T. by rewrite K in T.
        - intros x I. exists (p_name p), (Rest (a :: args)). split; [by left|done]. }
    all: case_match eqn:Hk; [done|]; intros E; apply bind_Some in E as ([b' ps''] & E & [= <- <-]); apply IH in E as (used & E);
      exists (p :: used); apply positional_step; [rewrite K; simpl; auto| |done]; rewrite K; try done.
    intros _. apply has_key_false. by destruct (has_key _ kw).
Qed.

(** What the second loop has done. *)
Record keyword_facts (ps : Signature) (kw : list (text * arg)) (kp : option text) (b : list (text * Bound)) (left_over : list (text * arg))
    (kp' : option text) : Prop := {
  kf_names : b.*1 `sublist_of` map p_name ps;
  kf_one : forall n v, (n, v) ∈ b -> exists p a, p ∈ ps /\ p_name p = n /\ v = One a /\ takes_name (p_kind p) = true;
  kf_all : forall k a, (k, a) ∈ kw -> (k, One a) ∈ b \/ (k, a) ∈ left_over;
  kf_left : left_over `sublist_of` kw;
  kf_free : forall p, p ∈ ps -> takes_name (p_kind p) = true -> p_name p ∉ left_over.*1;
  kf_param : kp' = kp \/ exists p, p ∈ ps /\ p_kind p = VarKeyword /\ kp' = Some (p_name p);
}.

Lemma keyword_skip p ps kw kp kp0 b left_over kp' :
  (takes_name (p_kind p) = true -> p_name p ∉ kw.*1) -> (kp0 = kp \/ p_kind p = VarKeyword /\ kp0 = Some (p_name p)) ->
  keyword_facts ps kw kp0 b left_over kp' -> keyword_facts (p :: ps) kw kp b left_over kp'.
Proof.
  intros Na K0 [Sb Fi Kw Sl Nl Kp]. split; [simpl; by apply sublist_cons| |done|done| |].
  - intros n v I. destruct (Fi _ _ I) as (q & x & ? & ?). exists q, x. split; [by right|done].
  - intros q [->|I]%elem_of_cons T; [|by apply Nl]. intros J. apply (Na T).
    apply (fmap_sublist fst) in Sl. by apply (elem_of_sublist _ _ _ J) in Sl.
  - destruct Kp as [->|(q & ? & ?)]; [|right; exists q; split; [by right|done]].
    destruct K0 as [->|[K ->]]; [by left|right; exists p; split; [by left|done]].
Qed.

Lemma del_field_sublist {B} k (d : list (text * B)) : del_field k d `sublist_of` d.
Proof. induction d as [|[k' v] d IH]; simpl; [done|]. case_bool_decide; [by apply sublist_cons|by apply sublist_skip]. Qed.

Lemma keyword_take p ps kw kp v b left_over kp' : NoDup kw.*1 -> takes_name (p_kind p) = true -> field (p_name p) kw = Some v ->
  keyword_facts ps (del_field (p_name p) kw) kp b left_over kp' -> keyword_facts (p :: ps) kw kp ((p_name p, One v) :: b) left_over kp'.
Proof.
  intros ND T F [Sb Fi Kw Sl Nl Kp]. split.
  - simpl. by apply sublist_skip.
  - intros n w [[= -> ->]|I]%elem_of_cons; [exists p, v; split; [by left|done]|].
    destruct (Fi _ _ I) as (q & x & ? & ?). exists q, x. split; [by right|done].
  - intros k a I. destruct (decide (k = p_name p)) as [->|Nk].
    + rewrite (elem_field _ _ _ ND I) in F. injection F as <-. left. by left.
    + destruct (Kw k a) as [J|J]; [|left; by right|by right].
      apply field_elem. rewrite field_del, bool_decide_false by done. by apply elem_field.
  - etrans; [done|apply del_field_sublist].
  - intros q [->|I]%elem_of_cons Tq; [|by apply Nl]. intros J. apply (fmap_sublist fst) in Sl.
    apply (elem_of_sublist _ _ _ J) in Sl. apply field_key in Sl as [w W]. by rewrite field_del, bool_decide_true in W.
  - destruct Kp as [->|(q & ? & ?)]; [by left|right; exists q; split; [by right|done]].
Qed.

Lemma bind_keywords_spec : forall ps kw kp b left_over kp', NoDup kw.*1 -> bind_keywords ps kw kp = Some (b, left_over, kp') ->
  keyword_facts ps kw kp b left_over kp'.
Proof.
  induction ps as [|p ps IH]; intros kw kp b left_over kp' ND; cbn [bind_keywords].
  - intros [= <- <- <-]. split; try done; try (by intros * ?%elem_of_nil); auto.
  - assert (Absent : field (p_name p) kw = None -> p_name p ∉ kw.*1) by (intros F [v Fv]%field_key; congruence).
    destruct (p_kind p) eqn:K.
    3,5: intros E; eapply keyword_skip; [by rewrite K| |by apply IH]; auto.
    all: destruct (field (p_name p) kw) as [v|] eqn:F;
      [|destruct (p_default p); [intros E; eapply keyword_skip; [by intros _; apply Absent| |by apply IH]; auto|done]]; try done.
    all: intros E; apply bind_Some in E as ([[b' kw'] kp1] & E & [= <- <- <-]); apply keyword_take; [done|by rewrite K|done|];
      apply IH; [|done]; (eapply sublist_NoDup; [apply ND|apply del_field_sub]).
Qed.

(** The names of a signature are distinct: [Signature.parameters] is a dictionary. *)
Definition signature_ok (sig : Signature) : Prop := NoDup (map p_name sig).

Lemma same_param sig p q : signature_ok sig -> p ∈ sig -> q ∈ sig -> p_name p = p_name q -> p = q.
Proof.
  intros ND. induction sig as [|r sig IH]; [by intros ?%elem_of_nil|]. unfold signature_ok in *. simpl in ND.
  apply NoDup_cons in ND as [N ND]. assert (Out : forall x, x ∈ sig -> p_name x <> p_name r).
  { intros x I E. apply N. rewrite <- E. by apply (list_elem_of_fmap_2 p_name). }
  intros [->|P]%elem_of_cons [->|Q]%elem_of_cons E; [done| | |by apply IH]; [symmetry in E|]; by apply Out in E.
Qed.

(** What a call that fits its signature is bound to: every parameter at most once, to something of its kind; every
    positional and every keyword value; and a [**kwargs] takes only keywords that no parameter takes by name. *)
Record bind_facts (sig : Signature) (args : list arg) (kw : list (text * arg)) (b : list (text * Bound)) : Prop := {
  bf_once : NoDup b.*1;
  bf_fits : forall n v, (n, v) ∈ b -> exists p, p ∈ sig /\ p_name p = n /\ fits (p_kind p) v;
  bf_args : forall a, a ∈ args -> bound_somewhere b a;
  bf_kw : forall k a, (k, a) ∈ kw -> (k, One a) ∈ b \/ exists n d, (n, Named d) ∈ b /\ (k, a) ∈ d;
  bf_extra : forall n d, (n, Named d) ∈ b -> d `sublist_of` kw /\ forall p, p ∈ sig -> takes_name (p_kind p) = true -> p_name p ∉ d.*1;
}.

Lemma bound_once used rest kw args b1 b2 left_over kp : signature_ok (used ++ rest) ->
  positional_facts kw (used ++ rest) args b1 rest used -> keyword_facts rest kw None b2 left_over kp ->
  NoDup (b1 ++ b2).*1 /\ forall n, kp = Some n -> n ∉ (b1 ++ b2).*1 /\ exists p, p ∈ rest /\ p_name p = n /\ p_kind p = VarKeyword.
Proof.
  intros ND P K. pose proof ND as ND'. unfold signature_ok in ND'. rewrite map_app in ND'. apply NoDup_app in ND' as (N1 & Dj & N2).
  pose proof (pf_names _ _ _ _ _ _ P) as S1. pose proof (kf_names _ _ _ _ _ _ K) as S2. split.
  - rewrite fmap_app. apply NoDup_app. split; [exact (sublist_NoDup _ _ N1 S1)|]. split; [|exact (sublist_NoDup _ _ N2 S2)].
    intros n I1 I2. apply (Dj n); [exact (elem_of_sublist _ _ _ I1 S1)|exact (elem_of_sublist _ _ _ I2 S2)].
  - intros n ->. destruct (kf_param _ _ _ _ _ _ K) as [[=]|(p & I & Kp & [= ->])]. split; [|by exists p].
    rewrite fmap_app. intros [J|J]%elem_of_app.
    + apply (Dj (p_name p)); [exact (elem_of_sublist _ _ _ J S1)|by apply (list_elem_of_fmap_2 p_name)].
    + apply list_elem_of_fmap in J as ([n v] & E & J). simpl in E. subst n.
      destruct (kf_one _ _ _ _ _ _ K _ _ J) as (q & x & Q & E & -> & T).
      assert (p = q) as <- by (eapply same_param; [exact ND|apply elem_of_app; by right|apply elem_of_app; by right|done]).
      by rewrite Kp in T.
Qed.

Lemma bind_spec sig args kw b : signature_ok sig -> NoDup kw.*1 -> bind sig args kw = Some b -> bind_facts sig args kw b.
Proof.
  intros ND NK E. apply bind_Some in E as ([b1 rest] & E1 & E). apply bind_Some in E as ([[b2 left_over] kp] & E2 & E).
  apply bind_positional_spec in E1 as (used & P). apply bind_keywords_spec in E2 as K; [|done].
  pose proof (pf_split _ _ _ _ _ _ P) as ->. destruct (bound_once _ _ _ _ _ _ _ _ ND P K) as [Once Kp].
  assert (Fi : forall n v, (n, v) ∈ b1 ++ b2 -> exists p, p ∈ used ++ rest /\ p_name p = n /\ fits (p_kind p) v /\ (forall d, v <> Named d)).
  { intros n v [I|I]%elem_of_app.
    - destruct (pf_fits _ _ _ _ _ _ P _ _ I) as (p & ? & ? & F & N). exists p. split; [apply elem_of_app; by left|].
      split; [done|]. split; [done|]. intros d ->. done.
    - destruct (kf_one _ _ _ _ _ _ K _ _ I) as (p & x & ? & ? & -> & T). exists p. split; [apply elem_of_app; by right|].
      split; [done|]. split; [by left|done]. }
  assert (Ar : forall a, a ∈ args -> bound_somewhere (b1 ++ b2) a).
  { intros a I. apply bound_somewhere_app. left. by eapply pf_args. }
  case_bool_decide as L.
  - injection E as <-. split; [done| |done| |].
    + intros n v I. destruct (Fi _ _ I) as (p & ? & ? & ? & _). by exists p.
    + intros k a I. destruct (kf_all _ _ _ _ _ _ K _ _ I) as [J|J]; [left; apply elem_of_app; by right|].
      rewrite L in J. by apply elem_of_nil in J.
    + intros n d I. destruct (Fi _ _ I) as (? & _ & _ & _ & N). by destruct (N d).
  - apply bind_Some in E as (n & -> & [= <-]). destruct (Kp n eq_refl) as [New (p & Ip & <- & Kk)]. rewrite app_assoc. split.
    + rewrite fmap_app. apply NoDup_app. split; [done|]. split; [|apply NoDup_singleton]. by intros x I ->%list_elem_of_singleton.
    + intros m v [I|[= -> ->]%list_elem_of_singleton]%elem_of_app; [destruct (Fi _ _ I) as (q & ? & ? & ? & _); by exists q|].
      exists p. split; [apply elem_of_app; by right|done].
    + intros a I. apply bound_somewhere_app. left. by apply Ar.
    + intros k a I. destruct (kf_all _ _ _ _ _ _ K _ _ I) as [J|J].
      * left. apply elem_of_app. left. apply elem_of_app. by right.
      * right. exists (p_name p), left_over. split; [apply elem_of_app; right; by left|done].
    + intros m d [I|[= -> ->]%list_elem_of_singleton]%elem_of_app; [destruct (Fi _ _ I) as (? & _ & _ & _ & N); by destruct (N d)|].
      pose proof (kf_left _ _ _ _ _ _ K) as Sl. split; [done|]. intros q [I|I]%elem_of_app T; [|by eapply kf_free].
      intros J. apply (fmap_sublist fst) in Sl. apply (elem_of_sublist _ _ _ J) in Sl. by apply (pf_free _ _ _ _ _ _ P q I T).
Qed.

(** ** What the loop publishes *)

(** The assignments the loop makes, and the values without a name. *)
Definition writes_of (e : text * Bound) : list (text * arg) :=
  if is_receiver e.1 then []
  else match e.2 with
       | Rest _ => []
       | Named kw => strip_control kw
       | One a => let '(keep, r) := declared_value e.1 a in if keep then [(e.1, r)] else []
       end.
Definition rest_of (e : text * Bound) : list arg := if is_receiver e.1 then [] else match e.2 with Rest l => l | _ => [] end.

Lemma publish_eq b : forall out leftover,
  publish b out leftover = (update_fields out (flat_map writes_of b), leftover ++ flat_map rest_of b).
Proof.
  induction b as [|[n v] b IH]; intros out leftover; simpl; [by rewrite app_nil_r|].
  unfold writes_of, rest_of at 1. cbn [fst snd]. destruct (is_receiver n); [apply IH|]. unfold update_fields. rewrite fold_left_app.
  destruct v as [a|l|kw].
  - destruct (declared_value n a) as [[] r]; apply IH.
  - rewrite IH. by rewrite app_assoc.
  - apply IH.
Qed.

(** A key whose assignments agree has that value at the end. *)
Lemma update_field k v ws : (k, v) ∈ ws -> (forall w, (k, w) ∈ ws -> w = v) -> forall d, field k (update_fields d ws) = Some v.
Proof.
  induction ws as [|[k' v'] ws IH] using rev_ind; intros I A d; [by apply elem_of_nil in I|].
  unfold update_fields. rewrite fold_left_app. simpl. rewrite field_put. case_bool_decide as E.
  - subst k'. f_equal. apply A. apply elem_of_app. right. by left.
  - apply IH; [|intros w J; apply A; apply elem_of_app; by left].
    apply elem_of_app in I as [I|[= -> ->]%list_elem_of_singleton]; [done|by destruct E].
Qed.

Lemma update_other k ws : k ∉ ws.*1 -> forall d, field k (update_fields d ws) = field k d.
Proof.
  induction ws as [|[k' v'] ws IH]; intros N d; [done|]. simpl in N. apply not_elem_of_cons in N as [N1 N2].
  unfold update_fields in *. simpl. rewrite IH by done. by apply field_put_ne.
Qed.

Lemma flat_map_elem {A B} (f : A -> list B) l y : y ∈ flat_map f l <-> exists x, x ∈ l /\ y ∈ f x.
Proof.
  rewrite list_elem_of_In, in_flat_map. split; intros (x & I & J); exists x; by rewrite ?list_elem_of_In in *.
Qed.

Lemma strip_control_elem k a kw : (k, a) ∈ strip_control kw <-> is_control k = false /\ (k, a) ∈ kw.
Proof. unfold strip_control. rewrite list_elem_of_filter. done. Qed.

Lemma strip_control_nodup kw : NoDup kw.*1 -> NoDup (strip_control kw).*1.
Proof. intros N. eapply sublist_NoDup; [exact N|]. apply (fmap_sublist fst), sublist_filter. Qed.

(** Whichever attempt bound the call, its facts hold of the keywords that attempt was made with. *)
Lemma bound_call_spec sig args kw b : signature_ok sig -> NoDup kw.*1 -> bound_call sig args kw = Some b ->
  exists kw', (kw' = kw \/ kw' = strip_control kw) /\ bind_facts sig args kw' b.
Proof.
  intros S N. unfold bound_call. destruct (bind sig args kw) as [b'|] eqn:E.
  - intros [= <-]. exists kw. split; [by left|]. by apply bind_spec.
  - case_match; [done|]. intros E'. exists (strip_control kw). split; [by right|]. apply bind_spec; try done. by apply strip_control_nodup.
Qed.

(** The payload of a bound call: what was assigned stands, and the only other key is [args]. *)
Lemma payload_of sig args kw b k : bound_call sig args kw = Some b ->
  let ws := flat_map writes_of b in
  match field k (update_fields [] ws) with
  | Some v => field k (tool_params args kw (Some sig)) = Some v
  | None => k <> points "args" -> field k (tool_params args kw (Some sig)) = None
  end.
Proof.
  intros E. unfold tool_params. rewrite E, publish_eq. simpl ([] ++ _). set (out := update_fields [] _). set (lo := flat_map rest_of b).
  set (full := if bool_decide (lo = []) then out else setdefault (points "args") (AList lo) out).
  assert (D : forall v, field k out = Some v -> field k full = Some v).
  { intros v F. unfold full. case_bool_decide; [done|]. unfold setdefault, has_key. destruct (field (points "args") out) eqn:A; [done|].
    rewrite field_put. case_bool_decide as Q; [|done]. subst k. congruence. }
  assert (D' : field k out = None -> k <> points "args" -> field k full = None).
  { intros F N. unfold full. case_bool_decide; [done|]. unfold setdefault. case_match; [done|]. by rewrite field_put_ne. }
  clearbody full. destruct (field k out) as [v|].
  - specialize (D v eq_refl). case_bool_decide as Q; [|done]. by rewrite Q in D.
  - intros N. case_bool_decide as Q; [|by apply D']. cbn [field]. by rewrite bool_decide_false by congruence.
Qed.

(** The assignments to a name that a parameter takes are that parameter's. *)
Lemma writes_unique sig args kw b n a : signature_ok sig -> bind_facts sig args kw b -> (n, One a) ∈ b -> is_receiver n = false ->
  (forall d m, (m, Named d) ∈ b -> is_control n = true \/ n ∉ d.*1) ->
  forall w, (n, w) ∈ flat_map writes_of b <-> declared_value n a = (true, w).
Proof.
  intros S F I R X w. rewrite flat_map_elem. split.
  - intros ([m v] & J & W). unfold writes_of in W. cbn [fst snd] in W. destruct (is_receiver m); [by apply elem_of_nil in W|].
    destruct v as [a'|l|d]; [|by apply elem_of_nil in W|].
    + destruct (declared_value m a') as [[] r] eqn:Dv; [|by apply elem_of_nil in W]. apply list_elem_of_singleton in W as [= -> ->].
      apply (elem_field _ _ _ (bf_once _ _ _ _ F)) in I, J. congruence.
    + apply strip_control_elem in W as [C W]. destruct (X _ _ J) as [?|N]; [congruence|]. destruct N. by apply (list_elem_of_fmap_2 fst _ _ W).
  - intros Dv. exists (n, One a). split; [done|]. unfold writes_of. cbn [fst snd]. rewrite R, Dv. by left.
Qed.

(** A declared argument is published under its own name.  Whichever way the call was bound, a parameter that is passed by
    name or by position and is bound to a value appears in the payload under that parameter's name, with that value; only
    under the eight names the framework also uses may it be replaced by the sentinel, or be left out when the framework
    may have injected it.  No other keyword of the call can take its place. *)
Theorem declared_argument_published sig args kw b p a :
  signature_ok sig -> NoDup kw.*1 -> bound_call sig args kw = Some b ->
  p ∈ sig -> takes_name (p_kind p) = true -> (p_name p, One a) ∈ b -> is_receiver (p_name p) = false ->
  field (p_name p) (tool_params args kw (Some sig)) = (let '(keep, v) := declared_value (p_name p) a in if keep then Some v else None).
Proof.
  intros S N E I T J R. destruct (bound_call_spec _ _ _ _ S N E) as (kw' & _ & F).
  pose proof (writes_unique _ _ _ _ _ _ S F J R (fun d m Jd => or_intror (proj2 (bf_extra _ _ _ _ F _ _ Jd) p I T))) as W.
  pose proof (payload_of _ _ _ _ (p_name p) E) as P. cbv zeta in P. destruct (declared_value (p_name p) a) as [[] v] eqn:Dv.
  - rewrite (update_field _ v) in P; [done|by apply W|]. intros w Iw. apply W in Iw. congruence.
  - rewrite update_other in P.
    + apply P. intros Q. unfold declared_value in Dv. rewrite Q in Dv. discriminate Dv.
    + intros ([k w] & Ek & Iw)%list_elem_of_fmap. simpl in Ek. subst k. apply W in Iw. congruence.
Qed.

(** ** Nothing of a call is hidden *)

(** What the engine is to be told of a call, without binding anything: a positional argument under the name of the parameter at its
    own place, up to a [*args]; a keyword argument under its keyword; the positional arguments from a [*args] on as the list
    [args]; the empty list of a call without arguments; and nothing else. *)
Fixpoint fixed (sig : Signature) : Signature :=
  match sig with
  | [] => []
  | p :: sig' => if bool_decide (p_kind p = VarPositional) then [] else p :: fixed sig'
  end.
Definition in_place (sig : Signature) (args : list arg) : list (text * arg) := zip_with (fun p a => (p_name p, a)) (fixed sig) args.
Definition unnamed_rest (sig : Signature) (args : list arg) : list arg := drop (length (fixed sig)) args.

Definition told (sig : Signature) (args : list arg) (kw : list (text * arg)) (k : text) : option arg :=
  match field k (in_place sig args), field k kw with
  | Some a, _ => Some a
  | None, Some a => Some a
  | None, None =>
      if negb (bool_decide (k = points "args")) then None
      else match unnamed_rest sig args with
           | [] => if bool_decide (args = []) && bool_decide (kw = []) then Some (AList []) else None
           | l => Some (AList l)
           end
  end.

(** No parameter is called [self] or [cls], no parameter and no keyword has one of the framework's names or is called
    [args], and no keyword has the name of a positional-only parameter. *)
Definition transparent (sig : Signature) (kw : list (text * arg)) : bool :=
  forallb (fun p => negb (is_receiver (p_name p)) &&
    match p_kind p with
    | VarPositional | VarKeyword => true
    | PositionalOnly => negb (bool_decide (p_name p = points "args")) && negb (is_control (p_name p)) && negb (has_key (p_name p) kw)
    | _ => negb (bool_decide (p_name p = points "args")) && negb (is_control (p_name p))
    end) sig &&
  forallb (fun f => negb (bool_decide (f.1 = points "args")) && negb (is_control f.1)) kw.

Section Transparent.
Context (sig : Signature) (args : list arg) (kw : list (text * arg)) (b : list (text * Bound)).
Context (S : signature_ok sig) (N : NoDup kw.*1) (T : transparent sig kw = true) (F : bind_facts sig args kw b).

Lemma transparent_param p : p ∈ sig -> is_receiver (p_name p) = false /\
  (takes_name (p_kind p) = true \/ p_kind p = PositionalOnly -> p_name p <> points "args" /\ is_control (p_name p) = false) /\
  (p_kind p = PositionalOnly -> p_name p ∉ kw.*1).
Proof.
  intros I. apply andb_true_iff in T as [Tp _]. rewrite forallb_forall in Tp. specialize (Tp p). rewrite <- list_elem_of_In in Tp.
  specialize (Tp I). apply andb_true_iff in Tp as [R Q]. rewrite negb_true_iff in R. split; [done|].
  destruct (p_kind p); simpl in *; rewrite ?andb_true_iff, ?negb_true_iff, ?bool_decide_eq_false, ?has_key_false in Q; naive_solver.
Qed.

Lemma transparent_keyword k : k ∈ kw.*1 -> k <> points "args" /\ is_control k = false.
Proof.
  intros ([k' v] & -> & I)%list_elem_of_fmap. apply andb_true_iff in T as [_ Tk]. rewrite forallb_forall in Tk.
  specialize (Tk (k', v)). rewrite <- list_elem_of_In in Tk. specialize (Tk I). simpl in *.
  by rewrite andb_true_iff, !negb_true_iff, bool_decide_eq_false in Tk.
Qed.

Lemma extra_keyword n d k : (n, Named d) ∈ b -> k ∈ d.*1 -> k ∈ kw.*1.
Proof. intros I J. destruct (bf_extra _ _ _ _ F _ _ I) as [Sl _]. apply (fmap_sublist fst) in Sl. exact (elem_of_sublist _ _ _ J Sl). Qed.

(** A value bound alone is assigned under its parameter's name, and no keyword clashes with it. *)
Lemma one_shown n a : (n, One a) ∈ b -> field n (update_fields [] (flat_map writes_of b)) = Some a.
Proof.
  intros I. destruct (bf_fits _ _ _ _ F _ _ I) as (p & Ip & <- & Fi). destruct (transparent_param p Ip) as (R & C & Po).
  destruct (C Fi) as [_ Nc].
  assert (X : forall d m, (m, Named d) ∈ b -> is_control (p_name p) = true \/ p_name p ∉ d.*1).
  { intros d m J. right. destruct Fi as [Tn|Pk]; [by eapply bf_extra|]. intros K. apply (Po Pk). by eapply extra_keyword. }
  pose proof (writes_unique _ _ _ _ _ _ S F I R X) as W.
  assert (Dv : declared_value (p_name p) a = (true, a)) by (unfold declared_value; by rewrite Nc).
  apply update_field; [by apply W|]. intros w Iw. apply W in Iw. congruence.
Qed.

Lemma keyword_shown n d k a : (n, Named d) ∈ b -> (k, a) ∈ d -> field k (update_fields [] (flat_map writes_of b)) = Some a.
Proof.
  intros I J. destruct (bf_fits _ _ _ _ F _ _ I) as (p & Ip & <- & _). destruct (transparent_param p Ip) as (R & _ & _).
  assert (Kd : k ∈ d.*1) by exact (list_elem_of_fmap_2 fst _ _ J).
  pose proof (extra_keyword _ _ _ I Kd) as Kk. destruct (transparent_keyword k Kk) as [_ Nc].
  apply update_field.
  - apply flat_map_elem. exists (p_name p, Named d). split; [done|]. unfold writes_of. cbn [fst snd]. rewrite R. by apply strip_control_elem.
  - intros w ([m v] & Jv & W)%flat_map_elem. unfold writes_of in W. cbn [fst snd] in W. destruct (is_receiver m); [by apply elem_of_nil in W|].
    destruct v as [a'|l|d']; [|by apply elem_of_nil in W|].
    + destruct (declared_value m a') as [[] r]; [|by apply elem_of_nil in W]. apply list_elem_of_singleton in W as [= -> ->].
      destruct (bf_fits _ _ _ _ F _ _ Jv) as (q & Iq & <- & [Tn|Pk]).
      * by destruct (proj2 (bf_extra _ _ _ _ F _ _ I) q Iq Tn).
      * destruct (transparent_param q Iq) as (_ & _ & Po). by destruct (Po Pk).
    + apply strip_control_elem in W as [_ W].
      pose proof (elem_of_sublist _ _ _ W (proj1 (bf_extra _ _ _ _ F _ _ Jv))) as H1.
      pose proof (elem_of_sublist _ _ _ J (proj1 (bf_extra _ _ _ _ F _ _ I))) as H2.
      apply (elem_field _ _ _ N) in H1, H2. congruence.
Qed.

Lemma args_free : field (points "args") (update_fields [] (flat_map writes_of b)) = None.
Proof.
  rewrite update_other; [done|]. intros ([k w] & Ek & ([m v] & Jv & W)%flat_map_elem)%list_elem_of_fmap. simpl in Ek. subst k.
  unfold writes_of in W. cbn [fst snd] in W. destruct (is_receiver m); [by apply elem_of_nil in W|].
  destruct v as [a'|l|d']; [|by apply elem_of_nil in W|].
  - destruct (declared_value m a') as [[] r]; [|by apply elem_of_nil in W]. apply list_elem_of_singleton in W as [= <- ->].
    destruct (bf_fits _ _ _ _ F _ _ Jv) as (q & Iq & Eq & Fi). destruct (transparent_param q Iq) as (_ & C & _). by destruct (C Fi).
  - apply strip_control_elem in W as [_ W]. pose proof (extra_keyword _ _ _ Jv (list_elem_of_fmap_2 fst _ _ W)) as Kk.
    by destruct (transparent_keyword _ Kk).
Qed.
End Transparent.

Lemma transparent_bound sig args kw b : transparent sig kw = true -> bound_call sig args kw = Some b -> bind sig args kw = Some b.
Proof.
  intros T. unfold bound_call. destruct (bind sig args kw); [done|]. apply andb_true_iff in T as [_ Tk].
  assert (forallb (fun f => negb (is_control f.1)) kw = true) as ->; [|done].
  apply forallb_forall. intros f I. rewrite forallb_forall in Tk. specialize (Tk f I). by apply andb_true_iff in Tk as [_ ?].
Qed.

(** What the two loops bind, spelled out. *)
Lemma bind_positional_form kw : forall ps args b rest, bind_positional ps args kw = Some (b, rest) ->
  exists n, b = zip_with (fun p a => (p_name p, One a)) (fixed ps) args ++ match unnamed_rest ps args with [] => [] | l => [(n, Rest l)] end.
Proof.
  unfold unnamed_rest. induction ps as [|p ps IH]; intros [|a args] b rest; cbn [bind_positional fixed]; try done.
  - intros [= <- <-]. by exists [].
  - intros E. exists []. assert (b = []) as -> by (destruct (p_kind p); repeat (case_match; try done); by injection E).
    rewrite drop_nil. by destruct (bool_decide (p_kind p = VarPositional)).
  - intros E. destruct (decide (p_kind p = VarPositional)) as [K|K]; [rewrite (bool_decide_true (p_kind p = _)) by done|rewrite (bool_decide_false (p_kind p = _)) by done].
    + rewrite K in E. injection E as <- <-. by exists (p_name p).
    + destruct (p_kind p); try done; (destruct (has_key _ kw && _); [done|]); apply bind_Some in E as ([b' ps''] & E & [= <- <-]);
        apply IH in E as (n & ->); by exists n.
Qed.

Lemma bind_keywords_from : forall ps kw kp b left_over kp', bind_keywords ps kw kp = Some (b, left_over, kp') ->
  Forall (fun e => exists a, e.2 = One a /\ (e.1, a) ∈ kw) b.
Proof.
  induction ps as [|p ps IH]; intros kw kp b left_over kp'; cbn [bind_keywords]; [by intros [= <- <- <-]|].
  destruct (p_kind p); try (by apply IH); (destruct (field (p_name p) kw) as [v|] eqn:F; [|destruct (p_default p); [by apply IH|done]]); try done;
    intros E; apply bind_Some in E as ([[b' kw'] kp1] & E & [= <- <- <-]); (constructor; [exists v; split; [done|by apply field_elem]|]);
    (eapply Forall_impl; [by eapply IH|]); intros [n x] (a & -> & I); exists a; (split; [done|]);
    exact (elem_of_sublist _ _ _ I (del_field_sublist _ _)).
Qed.

Lemma in_place_elem sig args k a : (k, a) ∈ in_place sig args <-> (k, One a) ∈ zip_with (fun p a => (p_name p, One a)) (fixed sig) args.
Proof.
  unfold in_place. generalize (fixed sig). intros ps. revert args. induction ps as [|p ps IH]; intros [|x args]; cbn [zip_with]; try (by rewrite !elem_of_nil).
  rewrite !elem_of_cons, IH. naive_solver.
Qed.

(** What a bind that succeeds says of single and unnamed values. *)
Lemma bind_form sig args kw b : bind sig args kw = Some b ->
  (forall k a, (k, a) ∈ in_place sig args -> (k, One a) ∈ b) /\
  (forall k a, (k, One a) ∈ b -> (k, a) ∈ in_place sig args \/ (k, a) ∈ kw) /\
  (Forall (fun e => is_receiver e.1 = false) b -> flat_map rest_of b = unnamed_rest sig args).
Proof.
  intros E. apply bind_Some in E as ([b1 rest] & E1 & E). apply bind_Some in E as ([[b2 left_over] kp] & E2 & E).
  apply bind_positional_form in E1 as (n & ->). apply bind_keywords_from in E2 as Fk.
  assert (R2 : flat_map rest_of b2 = []).
  { clear -Fk. induction Fk as [|[k v] b2 (a & Ea & _) _ IH]; [done|]. cbn [flat_map snd] in *. rewrite Ea, IH. unfold rest_of. cbn. by destruct (is_receiver k). }
  assert (R1 : forall ps l, flat_map rest_of (zip_with (fun p a => (p_name p, One a)) ps l) = []).
  { induction ps as [|p ps IH]; intros [|x l]; cbn [zip_with flat_map]; try done. rewrite IH. unfold rest_of. cbn. by destruct (is_receiver _). }
  assert (B : exists tail, b = (zip_with (fun p a => (p_name p, One a)) (fixed sig) args ++ match unnamed_rest sig args with [] => [] | l => [(n, Rest l)] end) ++ b2 ++ tail
    /\ (tail = [] \/ exists m, tail = [(m, Named left_over)])).
  { case_bool_decide; [injection E as <-; exists []; split; [by rewrite app_nil_r|by left]|].
    apply bind_Some in E as (m & _ & [= <-]). eexists. split; [reflexivity|]. right. by exists m. }
  destruct B as (tail & -> & Tl). split_and!.
  - intros k a I%in_place_elem. by rewrite !elem_of_app; auto.
  - intros k a [[I|I]%elem_of_app|[I|I]%elem_of_app]%elem_of_app.
    + left. by apply in_place_elem.
    + destruct (unnamed_rest sig args); [by apply elem_of_nil in I|by apply list_elem_of_singleton in I].
    + right. rewrite Forall_forall in Fk. destruct (Fk _ I) as (x & [= <-] & J). done.
    + destruct Tl as [->|(m & ->)]; [by apply elem_of_nil in I|by apply list_elem_of_singleton in I].
  - intros Rc. rewrite !flat_map_app, R1, R2. cbn [app].
    assert (flat_map rest_of tail = []) as -> by (destruct Tl as [->|(m & ->)]; [done|]; unfold rest_of; cbn; by destruct (is_receiver m)).
    rewrite app_nil_r. destruct (unnamed_rest sig args) as [|x l]; [done|]. cbn [flat_map]. rewrite app_nil_r.
    apply Forall_app in Rc as [Rc _]. apply Forall_app in Rc as [_ Rc]. apply Forall_cons in Rc as [Rc _]. unfold rest_of. cbn [fst snd] in *. by rewrite Rc.
Qed.

(** The assignments are the named part of what is to be told. *)
Lemma writes_told sig args kw b k : signature_ok sig -> NoDup kw.*1 -> transparent sig kw = true -> bind sig args kw = Some b ->
  field k (update_fields [] (flat_map writes_of b)) = match field k (in_place sig args) with Some a => Some a | None => field k kw end.
Proof.
  intros S N T B. pose proof (bind_spec _ _ _ _ S N B) as F. destruct (bind_form _ _ _ _ B) as (P1 & P2 & _).
  destruct (field k (in_place sig args)) as [a|] eqn:Fp; [by apply (one_shown sig args kw b S T F), P1, field_elem|].
  destruct (field k kw) as [a|] eqn:Fk.
  - apply field_elem in Fk. destruct (bf_kw _ _ _ _ F _ _ Fk) as [J|(n & d & J & Jd)];
      [by apply (one_shown sig args kw b S T F)|by apply (keyword_shown sig args kw b N T F n d)].
  - rewrite update_other; [done|]. intros ([k' w] & -> & ([m v] & Jv & W)%flat_map_elem)%list_elem_of_fmap. cbn [fst] in *.
    unfold writes_of in W. cbn [fst snd] in W. destruct (is_receiver m); [by apply elem_of_nil in W|].
    destruct v as [a'|l|d]; [|by apply elem_of_nil in W|].
    + destruct (declared_value m a') as [[] r]; [|by apply elem_of_nil in W]. apply list_elem_of_singleton in W as [= -> ->].
      destruct (P2 _ _ Jv) as [I|I]; apply (list_elem_of_fmap_2 fst) in I; apply field_key in I as [? ?]; cbn in *; congruence.
    + apply strip_control_elem in W as [_ W]. apply (list_elem_of_fmap_2 fst) in W. apply (extra_keyword sig args kw b F _ _ _ Jv) in W.
      apply field_key in W as [? ?]. cbn in *. congruence.
Qed.

Lemma fields_none {B} (d : list (text * B)) : (forall k, field k d = None) -> d = [].
Proof. destruct d as [|[k v] d]; [done|]. intros E. specialize (E k). cbn in E. by rewrite bool_decide_true in E. Qed.

(** C30: The engine is told of a call that fits exactly what it carries, under the right names.  If the call binds to the signature,
    and no name of the signature or of the call is one of those the wrapping treats specially, the payload has each positional
    argument under the name of the parameter at its own place, each keyword argument under its keyword, the positional
    arguments from a [*args] on in order as the list [args], and no other key. *)
Theorem nothing_hidden sig args kw :
  signature_ok sig -> NoDup kw.*1 -> transparent sig kw = true -> is_Some (bound_call sig args kw) ->
  forall k, field k (tool_params args kw (Some sig)) = told sig args kw k.
Proof.
  intros S N T [b B] k. pose proof (transparent_bound _ _ _ _ T B) as B'. pose proof (bind_spec _ _ _ _ S N B') as F.
  pose proof (fun k => writes_told sig args kw b k S N T B') as W. pose proof (args_free sig args kw b T F) as Fr.
  assert (Rc : Forall (fun e => is_receiver e.1 = false) b).
  { apply Forall_forall. intros [n v] I. destruct (bf_fits _ _ _ _ F _ _ I) as (p & Ip & <- & _). by apply (transparent_param sig kw T). }
  destruct (bind_form _ _ _ _ B') as (_ & _ & R). specialize (R Rc).
  unfold tool_params. rewrite B, publish_eq. simpl ([] ++ _). rewrite R. set (out := update_fields [] (flat_map writes_of b)) in *. clearbody out.
  assert (Wk : told sig args kw k = match field k out with Some a => Some a | None => if negb (bool_decide (k = points "args")) then None else
    match unnamed_rest sig args with [] => if bool_decide (args = []) && bool_decide (kw = []) then Some (AList []) else None | l => Some (AList l) end end).
  { unfold told. rewrite (W k). by destruct (field k (in_place sig args)). }
  rewrite Wk. destruct (unnamed_rest sig args) as [|x l] eqn:Er.
  - rewrite (bool_decide_true (@nil arg = [])) by done. destruct (decide (out = [])) as [->|Ne].
    + rewrite (bool_decide_true (@nil (text * arg) = [])) by done. assert (Ek : kw = []).
      { apply fields_none. intros k'. specialize (W k'). cbn in W. by destruct (field k' (in_place sig args)). }
      assert (Ea : args = []).
      { unfold unnamed_rest in Er. apply length_zero_iff_nil. apply (f_equal length) in Er. rewrite length_drop in Er. cbn in Er.
        assert (Ip : in_place sig args = []) by (apply fields_none; intros k'; specialize (W k'); cbn in W; by destruct (field k' (in_place sig args))).
        apply (f_equal length) in Ip. unfold in_place in Ip. rewrite length_zip_with in Ip. cbn in Ip. lia. }
      rewrite Ek, Ea, (bool_decide_true (@nil arg = [])), (bool_decide_true (@nil (text * arg) = [])) by done. cbn [field andb].
      destruct (decide (k = points "args")) as [->|Nk]; [by rewrite !bool_decide_true|by rewrite !bool_decide_false by congruence].
    + rewrite (bool_decide_false (out = [])) by done. destruct (field k out) eqn:Fk; [done|]. destruct (bool_decide (k = points "args")); [|done]. cbn [negb].
      destruct (decide (args = [])) as [->|Na]; [|by rewrite (bool_decide_false (args = []))].
      destruct (decide (kw = [])) as [->|Nk]; [|by rewrite (bool_decide_false (kw = [])), andb_false_r].
      destruct Ne. apply fields_none. intros k'. rewrite (W k'). unfold in_place. by destruct (fixed sig).
  - rewrite (bool_decide_false (x :: l = [])) by done. unfold setdefault, has_key. rewrite Fr.
    rewrite (bool_decide_false (put_field _ _ _ = [])).
    2: { intros Q. pose proof (field_put_eq (points "args") (AList (x :: l)) out) as P. by rewrite Q in P. }
    rewrite field_put. destruct (decide (k = points "args")) as [->|Nk].
    + by rewrite Fr, !bool_decide_true.
    + rewrite !(bool_decide_false (points "args" = k)), (bool_decide_false (k = _)) by congruence. by destruct (field k out).
Qed.

(** ** The order of positional arguments *)

Lemma bind_positional_nth kw : forall ps args b rest i a p, bind_positional ps args kw = Some (b, rest) ->
  args !! i = Some a -> ps !! i = Some p -> Forall (fun q => p_kind q <> VarPositional) (take (S i) ps) -> (p_name p, One a) ∈ b.
Proof.
  induction ps as [|q ps IH]; intros [|x args] b rest i a p E A P F; try done. cbn [bind_positional] in E.
  simpl in F. apply Forall_cons in F as [Nq F].
  destruct (p_kind q) eqn:K; try done; case_match; try done; apply bind_Some in E as ([b' ps'] & E & [= <- <-]);
    (destruct i as [|i]; simpl in A, P; [injection A as ->; injection P as ->; by left|right; by eapply IH]).
Qed.

(** A positional argument gets the name of the parameter at its own place, whatever keywords go with it: the retry without
    the framework's keywords does not move it. *)
Theorem positional_named_in_place sig args kw b i a p :
  bound_call sig args kw = Some b -> args !! i = Some a -> sig !! i = Some p ->
  Forall (fun q => p_kind q <> VarPositional) (take (S i) sig) -> (p_name p, One a) ∈ b.
Proof.
  intros E A P F. assert (B : exists kw', bind sig args kw' = Some b).
  { unfold bound_call in E. destruct (bind sig args kw) eqn:B; [exists kw; congruence|]. case_match; [done|by eexists]. }
  destruct B as [kw' B]. apply bind_Some in B as ([b1 rest] & E1 & B). apply bind_Some in B as ([[b2 left_over] kp] & _ & B).
  pose proof (bind_positional_nth _ _ _ _ _ _ _ _ E1 A P F) as I.
  case_bool_decide; [injection B as <-|apply bind_Some in B as (n & _ & [= <-])]; apply elem_of_app; by left.
Qed.

(** ** The signature to bind to *)

(** A callable the signature of which may be read ([None]: [inspect.signature] raises). *)
Record Target := mkTarget { t_signature : option Signature }.

(** The object a bound method belongs to: its callables [func] and [coroutine] ([None]: absent or not callable), and the keys
    of [args_schema.model_fields] and [args_schema.__fields__] ([None]: not a dictionary). *)
Record Owner := mkOwner {
  o_func : option Target;
  o_coroutine : option Target;
  o_model_fields : option (list text);
  o_fields : option (list text);
}.

(** The callable of the tool: [_run] or [_arun]. *)
Record Callable := mkCallable { c_signature : option Signature; c_self : option Owner; c_is_coroutine : bool }.

Definition is_named_positional (p : Param) : bool :=
  match p_kind p with PositionalOnly | PositionalOrKeyword => negb (is_receiver (p_name p)) | _ => false end.

(** [_binds_no_names]. *)
Definition binds_no_names (sig : Signature) : bool :=
  if existsb is_named_positional sig then false else existsb (fun p => bool_decide (p_kind p = VarPositional)) sig.

(** [_named_positionals]. *)
Definition named_positionals (sig : Signature) : list text := map p_name (filter (fun p => is_named_positional p = true) sig).

(** [_declared_arg_names]. *)
Definition declared_arg_names (o : Owner) : list text :=
  match o_model_fields o with Some fs => fs | None => default [] (o_fields o) end.

(** [_framework_implementation]. *)
Definition framework_implementation (c : Callable) : option Target :=
  match c_self c with
  | None => None
  | Some o =>
      let attrs := [o_func o; o_coroutine o] in
      head (omap id (if c_is_coroutine c then reverse attrs else attrs))
  end.

Definition callable_signature (c : Callable) : option Signature :=
  match c_signature c with
  | None => None
  | Some sig =>
      if negb (binds_no_names sig) then Some sig
      else match framework_implementation c with
           | None => Some sig
           | Some target =>
               match t_signature target with
               | None => Some sig
               | Some inner =>
                   let declared := match c_self c with Some o => declared_arg_names o | None => [] end in
                   if binds_no_names inner then Some sig
                   else if bool_decide (declared = []) || negb (forallb (fun n => bool_decide (n ∈ declared)) (named_positionals inner)) then Some sig
                   else Some inner
               end
           end
  end.

(** No name is made up for a positional argument.  A name that the chosen signature can put on a positional argument is one
    the callable itself declares, or one that both the implementation behind it and the framework's own schema declare, and
    then the callable names nothing of its own. *)
Theorem positional_names_are_corroborated c sig n :
  callable_signature c = Some sig -> n ∈ named_positionals sig ->
  c_signature c = Some sig \/
  exists own o t, c_signature c = Some own /\ binds_no_names own = true /\ c_self c = Some o /\
    framework_implementation c = Some t /\ t_signature t = Some sig /\ n ∈ declared_arg_names o.
Proof.
  unfold callable_signature. destruct (c_signature c) as [own|]; [|done].
  destruct (binds_no_names own) eqn:B; cbn [negb]; [|intros [= <-]; by left].
  destruct (framework_implementation c) as [t|] eqn:Fi; [|intros [= <-]; by left].
  destruct (t_signature t) as [inner|] eqn:Ti; [|intros [= <-]; by left].
  destruct (binds_no_names inner); [intros [= <-]; by left|].
  case_match eqn:Dc; intros [= <-] I; [by left|]. right. apply orb_false_iff in Dc as [_ Dc]. rewrite negb_false_iff, forallb_forall in Dc.
  rewrite list_elem_of_In in I. apply Dc in I. apply bool_decide_eq_true in I.
  destruct (c_self c) as [o|] eqn:So; [|by unfold framework_implementation in Fi; rewrite So in Fi].
  by exists own, o, t.
Qed.

(** ** Witnesses, and the calls that are not transparent *)

Definition pos (n : string) : Param := mkParam (points n) PositionalOrKeyword false.
Definition str (s : string) : arg := AStr (points s).

(** [send(to, *rest, urgent=False, **extra)] called with [send("a", "b", urgent=True, cc="c")]. *)
Definition send_sig : Signature :=
  [pos "to"; mkParam (points "rest") VarPositional false; mkParam (points "urgent") KeywordOnly true; mkParam (points "extra") VarKeyword false].
Definition send_args : list arg := [str "a"; str "b"].
Definition send_kw : list (text * arg) := [(points "urgent", ABool true); (points "cc", str "c")].

Lemma nothing_hidden_witness :
  (forall k, field k (tool_params send_args send_kw (Some send_sig)) = told send_sig send_args send_kw k) /\
  told send_sig send_args send_kw (points "to") = Some (str "a") /\ told send_sig send_args send_kw (points "args") = Some (AList [str "b"]) /\
  told send_sig send_args send_kw (points "cc") = Some (str "c") /\ told send_sig send_args send_kw (points "rest") = None.
Proof.
  split; [|by vm_compute]. apply (nothing_hidden send_sig send_args send_kw).
  - unfold signature_ok. vm_compute. repeat (constructor; [vm_compute; set_solver|]). constructor.
  - vm_compute. repeat (constructor; [vm_compute; set_solver|]). constructor.
  - vm_compute. reflexivity.
  - eexists. vm_compute. reflexivity.
Defined.

Lemma declared_argument_published_witness :
  field (points "tags") (tool_params [AObject 7] [(points "run_manager", AObject 8)] (Some [pos "tags"])) = Some UNREPRESENTABLE.
Proof.
  apply (declared_argument_published [pos "tags"] [AObject 7] [(points "run_manager", AObject 8)] [(points "tags", One (AObject 7))] (pos "tags") (AObject 7)).
  - apply NoDup_singleton.
  - apply NoDup_singleton.
  - vm_compute. reflexivity.
  - left.
  - reflexivity.
  - left.
  - vm_compute. reflexivity.
Defined.

(** A keyword [args] that the tool takes in its [**kwargs] keeps the unnamed values out: [f("q", "secret", args="x")] for
    [f(query, *rest, **kw)]. *)
Example args_keyword_hides_the_rest :
  tool_params [str "q"; str "secret"] [(points "args", str "x")]
    (Some [pos "query"; mkParam (points "rest") VarPositional false; mkParam (points "kw") VarKeyword false])
  = [(points "query", str "q"); (points "args", str "x")].
Proof. vm_compute. reflexivity. Qed.

(** A positional-only parameter is reported with the value of a keyword of the same name: [f("evil", to="ok")] for
    [f(to, /, **kw)]. *)
Example keyword_replaces_positional_only :
  tool_params [str "evil"] [(points "to", str "ok")]
    (Some [mkParam (points "to") PositionalOnly false; mkParam (points "kw") VarKeyword false])
  = [(points "to", str "ok")].
Proof. vm_compute. reflexivity. Qed.

(** A parameter of a plain function that is called [cls] is not reported. *)
Example parameter_cls_hidden :
  tool_params [str "evil"; str "b"] [] (Some [pos "cls"; pos "body"]) = [(points "body", str "b")].
Proof. vm_compute. reflexivity. Qed.

(** When the call does not fit, or there is no signature, a keyword argument keeps every positional one out. *)
Example unbound_call_loses_positionals :
  tool_params [str "evil"] [(points "mode", str "fast")] None = [(points "mode", str "fast")] /\
  tool_params [str "evil"; str "x"] [(points "mode", str "fast")] (Some [pos "to"; mkParam (points "mode") KeywordOnly true])
  = [(points "mode", str "fast")].
Proof. split; vm_compute; reflexivity. Qed.
