(* ===== verification/Adapters.v ===== *)
(** * The framework adapters ([sdk/crewai/adapter.py], [sdk/langchain/adapter.py], [sdk/autogen/adapter.py],
      [sdk/langgraph/adapter.py], [sdk/semantic_kernel/adapter.py])

    An adapter puts the interceptor in front of a tool's body: the arguments become a payload, the interceptor is
    asked, and only if it returns does the body run, one level deeper, its result masked if that is switched on.
    The wrapper of a tool is modelled for any body, so bodies that call other wrapped tools are covered: the
    main theorem is about a whole tree of such calls, made the way Python binds the wrapper's own keywords.  The frameworks themselves are not modelled; a tool's body
    and LangGraph's node are computations over the host. *)

From S2P Require Import Prelude Text Json Decisions Effects Identity Interceptor Masking Wrapping.

(** The result of a tool: data, or an object the masking leaves alone. *)
Inductive ToolResult := RData (v : value) | RObject (identity : Z).

(** How a guarded call ends: refused by the interceptor, or with what the body returned or raised. *)
Inductive Outcome (X : Type) := Refused (e : Ended) | Finished (r : exc + X).
Arguments Refused {X} _.
Arguments Finished {X} _.

(** ** [_output_dlp] *)

Section Dlp.
Context (sdk_output_dlp_enabled : bool) (is_digit is_wordc : Z -> bool).

Definition output_dlp (r : ToolResult) : ToolResult :=
  if negb sdk_output_dlp_enabled then r
  else match r with
       | RData v => RData (mask_structure_counted is_digit is_wordc v).1
       | RObject i => RObject i
       end.
End Dlp.

Section Adapters.
Context {S : Type} `{!SupportsEvaluate S}.
Context (resolved : option AgentIdentity) (id : string) (instant : Z) (session_id : string).
(** What the event's schema makes of a payload; [None]: it rejects it. *)
Context (params_of : list (text * arg) -> option (list (string * json))).
(** [_output_dlp] with the settings of the process. *)
Context (dlp : ToolResult -> ToolResult).

Implicit Types (h : Host S).

(** [interceptor.intercept_or_raise(tool_name, tool_params, session_id, framework)]. *)
Definition ask_policy (framework name : string) (params : list (text * arg)) (h : Host S) : Host S * Ended :=
  match params_of params with
  | None => (h, Raised)
  | Some ps => intercept_or_raise resolved id instant (mkCall name ps session_id framework 0 None [] "" "" "") h
  end.

(** What every adapter does with the answer: the body, one level deeper, after a return and only then. *)
Definition gate {X} (framework name : string) (params : list (text * arg)) (body : M (Host S) X) (h : Host S) : Host S * Outcome X :=
  match ask_policy framework name params h with
  | (h', Returned _) => let r := depth_scope body h' in (r.1, Finished r.2)
  | (h', e) => (h', Refused e)
  end.

Notation Body := (list arg -> list (text * arg) -> M (Host S) ToolResult).

(** [sync_wrapper] of CrewAI and LangChain and [async_wrapper] of LangChain, with the tool's own name, body and
    signature. *)
Definition wrapper (framework name : string) (orig : Body) (sig : option Signature) (args : list arg) (kw : list (text * arg))
    : Host S -> Host S * Outcome ToolResult :=
  gate framework name (tool_params args kw sig) (r ← orig args kw; mret (dlp r)).

(** The wrapper as Python calls it: [_name], [_orig] and [_sig] are its own keyword parameters, so a call that has such a
    keyword sets them.  A [_sig] without [bind] raises before policy is asked, a [_name] that is no [str] fails the event's
    schema, and an [_orig] that is data cannot be called. *)
Definition call_wrapper (framework name : string) (orig : Body) (sig : option Signature) (args : list arg) (kw : list (text * arg))
    (h : Host S) : Host S * Outcome ToolResult :=
  let kw' := del_field (points "_name") (del_field (points "_orig") (del_field (points "_sig") kw)) in
  let orig := match field (points "_orig") kw with None => orig | Some _ => fun _ _ => raise EOther end in
  match field (points "_sig") kw, field (points "_name") kw with
  | Some ANone, None => wrapper framework name orig None args kw' h
  | Some ANone, Some (AStr n) => wrapper framework (unpoints n) orig None args kw' h
  | None, None => wrapper framework name orig sig args kw' h
  | None, Some (AStr n) => wrapper framework (unpoints n) orig sig args kw' h
  | Some ANone, Some _ | None, Some _ => (h, Refused Raised)
  | Some _, _ => (h, Finished (inl EOther))
  end.

(** ** AutoGen *)

(** The argument object of [run]: a model with its dump ([None]: the dump raises), a dictionary, or anything else with its [str]. *)
Inductive RunArgs := Model (dump : option (list (text * arg))) | Dict (d : list (text * arg)) | OtherArgs (as_str : text).

(** [_run_params]. *)
Definition run_params (args : RunArgs) : option (list (text * arg)) :=
  match args with
  | Model dump => dump
  | Dict d => Some d
  | OtherArgs s => Some [(points "args", AStr s)]
  end.

Definition autogen_wrapper (name : string) (orig : RunArgs -> M (Host S) ToolResult) (args : RunArgs) (h : Host S) : Host S * Outcome ToolResult :=
  match run_params args with
  | None => (h, Finished (inl EOther))
  | Some params => gate "autogen" name params (r ← orig args; mret (dlp r)) h
  end.

(** [_apply_output_dlp] of LangGraph and of Semantic Kernel: only a result that is a [str] is masked. *)
Definition string_dlp (r : ToolResult) : ToolResult := match r with RData (VStr _) => dlp r | _ => r end.

(** ** LangGraph *)

Section LangGraph.
Context (json_loads : text -> option arg).          (* [None]: [ValueError] *)

Definition str_items (fs : list (option text * arg)) : list (text * arg) := omap (fun f => (fun k => (k, f.2)) <$> f.1) fs.

(** [_normalise_tool_args], for dictionaries whose keys are text. *)
Definition normalise_tool_args (args : arg) : list (text * arg) :=
  let unparsed v := [(points "_nrvq_unparsed_args", v)] in
  match args with
  | ADict fs => str_items fs
  | ANone => []
  | AStr t =>
      match json_loads t with
      | None => unparsed (AStr t)
      | Some (ADict fs) => str_items fs
      | Some v => unparsed v
      end
  | v => unparsed v
  end.

(** The loop over the tool calls of a message: it stops at the first that is refused. *)
Fixpoint vet (calls : list (string * arg)) (h : Host S) : Host S * option Ended :=
  match calls with
  | [] => (h, None)
  | (name, args) :: calls' =>
      match ask_policy "langgraph" name (normalise_tool_args args) h with
      | (h', Returned _) => vet calls' h'
      | (h', e) => (h', Some e)
      end
  end.

(** [GuardedToolNode.__call__]: [node] is [self._node.ainvoke(state)], its result the contents of the messages. *)
Definition guarded_node (calls : list (string * arg)) (node : M (Host S) (list ToolResult)) (h : Host S) : Host S * Outcome (list ToolResult) :=
  if bool_decide (calls = []) then let r := node h in (r.1, Finished r.2)
  else match vet calls h with
       | (h', Some e) => (h', Refused e)
       | (h', None) =>
           let r := depth_scope node h' in
           (r.1, Finished (match r.2 with inl e => inl e | inr contents => inr (map string_dlp contents) end))
       end.
End LangGraph.

(** ** Semantic Kernel *)

(** An attribute as it is read: absent (or [None]), there, or raising. *)
Inductive Attr (A : Type) := Absent | There (a : A) | Raises.
Arguments Absent {A}.
Arguments There {A} _.
Arguments Raises {A}.

(** [_extract_tool_name] and [_extract_tool_params]. *)
Definition extract_tool_name (name : Attr string) : string :=
  match name with There n => or_else n "unknown" | Absent | Raises => "unknown" end.
Definition extract_tool_params (arguments : Attr (list (text * arg))) : list (text * arg) :=
  match arguments with There d => d | Absent | Raises => [] end.

(** The filter: [next(context)] is the rest of the chain and the function. *)
Definition policy_filter (name : Attr string) (arguments : Attr (list (text * arg))) (next : M (Host S) ToolResult) : Host S -> Host S * Outcome ToolResult :=
  gate "semantic-kernel" (extract_tool_name name) (extract_tool_params arguments) (r ← next; mret (string_dlp r)).

(** ** Asking policy *)

Lemma ask_depth framework name params h : ambient_depth (ask_policy framework name params h).1 = ambient_depth h.
Proof.
  unfold ask_policy. destruct (params_of _); [|done]. unfold intercept_or_raise, intercept. cbv zeta.
  destruct (event_of _ _ _ _ h); [|done]. destruct (ask _ _) as [e [x|d]]; [done|]. destruct (is_blocked _); [done|]. by destruct (is_escalated _).
Qed.

(** Asking leaves the record of the answer; it returns on an allow or an audit. *)
Lemma ask_outcome framework name params h l :
  recorder h = Some l ->
  let r := ask_policy framework name params h in
  recorder r.1 = Some (l ++ option_list (mkRecorded name <$> ended_decision r.2)) /\
  match r.2 with Returned d => is_allowed d = true | Blocked d | Escalated d => is_allowed d = false | Raised => True end.
Proof.
  intros R. unfold ask_policy. destruct (params_of params) as [ps|]; simpl; [|by rewrite app_nil_r]. set (k := mkCall _ _ _ _ _ _ _ _ _ _).
  pose proof (ended_outcome resolved id instant k h) as O. split; [exact (ended_recorded resolved id instant k h l R)|].
  destruct (intercept_or_raise _ _ _ k h).2 as [d|d|d|]; [done|..|done]; unfold is_allowed; by rewrite O.
Qed.

(** The loop over a message's calls: each is allowed and recorded in order, or the first that is not ends it. *)
Lemma vet_spec json_loads calls : forall h l, recorder h = Some l ->
  match vet json_loads calls h with
  | (h', None) => exists ds, length ds = length calls /\ Forall (fun d => is_allowed d = true) ds /\
      recorder h' = Some (l ++ zip_with mkRecorded calls.*1 ds)
  | (h', Some e) => exists before name args after ds, calls = before ++ (name, args) :: after /\ length ds = length before /\
      Forall (fun d => is_allowed d = true) ds /\ (forall d, ended_decision e = Some d -> is_allowed d = false) /\
      recorder h' = Some (l ++ zip_with mkRecorded before.*1 ds ++ option_list (mkRecorded name <$> ended_decision e))
  end.
Proof.
  induction calls as [|[name args] calls IH]; intros h l R; cbn [vet].
  - exists []. by rewrite app_nil_r.
  - destruct (ask_outcome "langgraph" name (normalise_tool_args json_loads args) h l R) as [Rc O].
    destruct (ask_policy _ _ _ h) as [h' e] eqn:E. simpl in Rc, O.
    assert (Stop : (forall d, e <> Returned d) -> exists before n a after ds, (name, args) :: calls = before ++ (n, a) :: after /\
      length ds = length before /\ Forall (fun d => is_allowed d = true) ds /\ (forall d, ended_decision e = Some d -> is_allowed d = false) /\
      recorder h' = Some (l ++ zip_with mkRecorded before.*1 ds ++ option_list (mkRecorded n <$> ended_decision e))).
    { intros N. exists [], name, args, calls, []. repeat split; try done.
      intros d Ed. destruct e as [d'|d'|d'|]; simpl in Ed; simplify_eq; [by destruct (N d)|done..]. }
    destruct e as [d|d|d|]; try (by apply Stop). simpl in Rc. specialize (IH h' _ Rc).
    destruct (vet json_loads calls h') as [h2 [e2|]].
    + destruct IH as (before & n & a & after & ds & -> & L & F & Nd & Rr).
      exists ((name, args) :: before), n, a, after, (d :: ds). repeat split; [simpl; by rewrite L|by constructor|done|].
      rewrite Rr. by rewrite <- app_assoc.
    + destruct IH as (ds & L & F & Rr). exists (d :: ds). split; [simpl; by rewrite L|]. split; [by constructor|]. rewrite Rr. by rewrite <- app_assoc.
Qed.

(** LangGraph's node runs only when every call of the message was allowed.  If it ran, each call left a record that lets it
    through, in order, before the node was invoked, one level deeper; if not, nothing but the asking happened, and the last
    record, if the call could be evaluated at all, is the refusal of the call named. *)
Theorem node_runs_after_all_allowed json_loads calls node h l : calls <> [] -> recorder h = Some l ->
  match guarded_node json_loads calls node h with
  | (h', Finished _) => exists ds h1, length ds = length calls /\ Forall (fun d => is_allowed d = true) ds /\
      recorder h1 = Some (l ++ zip_with mkRecorded calls.*1 ds) /\ h' = (depth_scope node h1).1
  | (h', Refused e) => exists before name args after ds, calls = before ++ (name, args) :: after /\ length ds = length before /\
      Forall (fun d => is_allowed d = true) ds /\ (forall d, ended_decision e = Some d -> is_allowed d = false) /\
      recorder h' = Some (l ++ zip_with mkRecorded before.*1 ds ++ option_list (mkRecorded name <$> ended_decision e))
  end.
Proof.
  intros N R. unfold guarded_node. rewrite bool_decide_false by done. pose proof (vet_spec json_loads calls h l R) as V.
  destruct (vet json_loads calls h) as [h1 [e|]]; [exact V|]. destruct V as (ds & L & F & Rr). by exists ds, h1.
Qed.

End Adapters.

(** ** [protect] *)

(** A framework's tool object, as far as [protect] changes it: the wrappers around [_run] (or [run]) and, where it has one,
    [_arun]. *)
Record Tool := mkTool { run_wrappers : nat; arun_wrappers : option nat }.

(** What is handed to [protect]: a tool object, by its place in the heap, or something that is no [BaseTool]. *)
Inductive Item := BaseTool (ref : nat) | NotATool.

Section Protect.
Context (wrap : Tool -> Tool).

(** The loop: [None] is the [TypeError]; the tools wrapped before it stay wrapped. *)
Fixpoint protect (allow_unwrapped : bool) (tools : list Item) (heap : list Tool) : list Tool * option (list Item) :=
  match tools with
  | [] => (heap, Some [])
  | NotATool :: tools' =>
      if allow_unwrapped then let r := protect allow_unwrapped tools' heap in (r.1, cons NotATool <$> r.2)
      else (heap, None)
  | BaseTool ref :: tools' =>
      let r := protect allow_unwrapped tools' (alter wrap ref heap) in (r.1, cons (BaseTool ref) <$> r.2)
  end.
End Protect.

Definition crewai_protect := protect (fun t => mkTool (S (run_wrappers t)) (arun_wrappers t)).
Definition autogen_protect := protect (fun t => mkTool (S (run_wrappers t)) (arun_wrappers t)).
Definition langchain_protect := protect (fun t => mkTool (S (run_wrappers t)) (S <$> arun_wrappers t)).

(** Every way a tool can be run has a wrapper. *)
Definition guarded (t : Tool) : Prop := (1 <= run_wrappers t)%nat /\ arun_wrappers t <> Some 0%nat.

Lemma protect_keeps wrap allow tools : (forall t, guarded t -> guarded (wrap t)) -> forall heap i t,
  heap !! i = Some t -> guarded t -> exists t', (protect wrap allow tools heap).1 !! i = Some t' /\ guarded t'.
Proof.
  intros K. induction tools as [|[ref|] tools IH]; intros heap i t L G; simpl; [by exists t| |destruct allow; [by apply (IH _ _ t)|by exists t]].
  destruct (decide (ref = i)) as [->|N]; [apply (IH _ _ (wrap t)); [by rewrite list_lookup_alter_eq, L|by apply K]|].
  apply (IH _ _ t); [by rewrite list_lookup_alter_ne|done].
Qed.

Lemma protect_spec wrap tools : (forall t, guarded (wrap t)) -> forall heap, match protect wrap false tools heap with
  | (heap', Some out) => out = tools /\ NotATool ∉ tools /\
      (forall ref, BaseTool ref ∈ tools -> forall t, heap !! ref = Some t -> exists t', heap' !! ref = Some t' /\ guarded t')
  | (_, None) => NotATool ∈ tools
  end.
Proof.
  intros W. induction tools as [|[ref|] tools IH]; intros heap; simpl; [|specialize (IH (alter wrap ref heap))|by left].
  - split; [done|]. split; [by intros ?%elem_of_nil|by intros ? ?%elem_of_nil].
  - destruct (protect wrap false tools (alter wrap ref heap)) as [heap' [out|]] eqn:E; simpl; [|by right].
    destruct IH as (-> & N & G). split; [done|]. split; [by intros [[=]|?]%elem_of_cons|].
    intros r [[= ->]|I]%elem_of_cons t L.
    + destruct (protect_keeps wrap false tools (fun t _ => W t) (alter wrap ref heap) ref (wrap t)) as (t' & Lt & Gt);
        [by rewrite list_lookup_alter_eq, L|apply W|]. rewrite E in Lt. by exists t'.
    + destruct (decide (ref = r)) as [->|Nr]; [apply (G _ I (wrap t)); by rewrite list_lookup_alter_eq, L|].
      apply (G _ I t). by rewrite list_lookup_alter_ne.
Qed.

(** [protect] raises exactly when something is not a tool; otherwise it returns what it was given, in order, and every tool of
    it is guarded, synchronously and asynchronously. *)
Theorem langchain_protect_guards tools heap :
  match langchain_protect false tools heap with
  | (heap', Some out) => out = tools /\ NotATool ∉ tools /\
      (forall ref, BaseTool ref ∈ tools -> forall t, heap !! ref = Some t -> exists t', heap' !! ref = Some t' /\ guarded t')
  | (_, None) => NotATool ∈ tools
  end.
Proof. apply protect_spec. intros t. split; simpl; [lia|]. by destruct (arun_wrappers t). Qed.

(** ** A tree of tool calls

    To see which bodies run, the state of the evaluator is paired with a log that the bodies write. *)

Definition Entry : Type := string * Z.      (* the tool, and the ambient depth its body sees *)

Section Traced.
Context {S : Type} `{!SupportsEvaluate S}.

Definition traced_ask (event : ToolCallEvent) : M (S * list Entry) PolicyDecision := fun s =>
  let r := ask event s.1 in ((r.1, s.2), r.2).

Lemma traced_total event s : wp (traced_ask event) (fun _ _ => True) (fun _ _ => False) s.
Proof. pose proof (ask_total event s.1) as T. unfold wp, traced_ask in *. by destruct (ask event s.1) as [s' [e|d]]. Qed.

#[local] Instance traced : SupportsEvaluate (S * list Entry) := {| ask := traced_ask; ask_total := traced_total |}.

Context (resolved : option AgentIdentity) (id : string) (instant : Z) (session_id : string).
Context (params_of : list (text * arg) -> option (list (string * json))) (dlp : ToolResult -> ToolResult).

Notation T := (Host (S * list Entry)).
Implicit Types (h : T).

Definition log_of h : list Entry := (engine h).2.

(** A body notes that it runs. *)
Definition enter (name : string) : M T unit :=
  modify (fun h => mkHost ((engine h).1, (engine h).2 ++ [(name, ambient_depth h)]) (ambient_depth h) (recorder h)).

(** The use of a wrapped tool: the call, the tools its body uses in turn, whether it goes on when one of them is refused or
    raises, and what it returns. *)
Inductive Use := mkUse (framework name : string) (sig : option Signature) (args : list arg) (kw : list (text * arg))
  (goes_on : bool) (inner : list Use) (result : exc + ToolResult).

Section Inner.
Context (run : Use -> T -> T * Outcome ToolResult) (goes_on : bool) (result : exc + ToolResult).

Fixpoint run_all (l : list Use) : M T ToolResult :=
  match l with
  | [] => fun h => (h, result)
  | u :: l' => fun h =>
      match run u h with
      | (h', Finished (inr _)) => run_all l' h'
      | (h', _) => if goes_on then run_all l' h' else (h', inl EOther)
      end
  end.
End Inner.

Fixpoint run (u : Use) (h : T) : T * Outcome ToolResult :=
  match u with
  | mkUse framework name sig args kw goes_on inner result =>
      call_wrapper resolved id instant session_id params_of dlp framework name
        (fun _ _ => enter name;; run_all run goes_on result inner) sig args kw h
  end.

(** No call of the tree sets the wrapper's own [_name] or [_orig]. *)
Definition own_keywords (kw : list (text * arg)) : bool :=
  bool_decide (field (points "_name") kw = None) && bool_decide (field (points "_orig") kw = None).
Fixpoint own_calls (u : Use) : bool :=
  match u with mkUse _ _ _ _ kw _ inner _ => own_keywords kw && forallb own_calls inner end.

(** Every use of the tree with its level. *)
Fixpoint levels (depth : Z) (u : Use) : list Entry :=
  match u with mkUse _ name _ _ _ _ inner _ => (name, depth + 1) :: flat_map (levels (depth + 1)) inner end.

Section UseInd.
Context (P : Use -> Prop).
Context (H : forall framework name sig args kw goes_on inner result, Forall P inner -> P (mkUse framework name sig args kw goes_on inner result)).
Fixpoint use_ind (u : Use) : P u :=
  match u with
  | mkUse framework name sig args kw goes_on inner result =>
      H framework name sig args kw goes_on inner result
        (list_ind (Forall P) (Forall_nil_2 P) (fun x l Hl => Forall_cons_2 P x l (use_ind x) Hl) inner)
  end.
End UseInd.

(** The records that let a call through. *)
Definition admitted (rs : list RecordedDecision) : list string := map rec_tool (filter (fun r => is_allowed (rec_decision r) = true) rs).

(** What a run adds: records, and one log entry for each record that let its call through, at places of the tree. *)
Definition adds (places : list Entry) (h h' : T) : Prop :=
  ambient_depth h' = ambient_depth h /\
  forall l, recorder h = Some l -> exists rs es, recorder h' = Some (l ++ rs) /\ log_of h' = log_of h ++ es /\
    map fst es = admitted rs /\ es `sublist_of` places.

Lemma adds_refl h : adds [] h h.
Proof. split; [done|]. intros l R. exists [], []. by rewrite !app_nil_r. Qed.

Lemma admitted_app rs1 rs2 : admitted (rs1 ++ rs2) = admitted rs1 ++ admitted rs2.
Proof. unfold admitted. by rewrite filter_app, map_app. Qed.

Lemma adds_trans p q h1 h2 h3 : adds p h1 h2 -> adds q h2 h3 -> adds (p ++ q) h1 h3.
Proof.
  intros [D1 A1] [D2 A2]. split; [congruence|]. intros l R. destruct (A1 l R) as (rs1 & es1 & R1 & L1 & M1 & S1).
  destruct (A2 _ R1) as (rs2 & es2 & R2 & L2 & M2 & S2). exists (rs1 ++ rs2), (es1 ++ es2).
  split; [by rewrite R2, app_assoc|]. split; [by rewrite L2, L1, app_assoc|].
  split; [rewrite map_app, admitted_app; f_equal; assumption|by apply sublist_app].
Qed.

Lemma adds_weaken p q h h' : p `sublist_of` q -> adds p h h' -> adds q h h'.
Proof.
  intros Sb [D A]. split; [done|]. intros l R. destruct (A l R) as (rs & es & R' & L & Mm & Se). exists rs, es.
  repeat split; try done. by etrans.
Qed.

Lemma ask_log framework name params h :
  log_of (ask_policy resolved id instant session_id params_of framework name params h).1 = log_of h.
Proof.
  unfold ask_policy. destruct (params_of params); [|done]. unfold log_of, intercept_or_raise, intercept. cbv zeta.
  destruct (event_of _ _ _ _ h); [|done]. simpl. unfold traced_ask.
  destruct (ask _ _) as [e [x|d]]; simpl; [done|]. destruct (is_blocked _); [done|]. by destruct (is_escalated _).
Qed.

(** The bodies inside a body. *)
Lemma run_all_adds goes_on result inner d :
  Forall (fun u => forall h, ambient_depth h = d -> adds (levels d u) h (run u h).1) inner ->
  forall h, ambient_depth h = d -> adds (flat_map (levels d) inner) h (run_all run goes_on result inner h).1.
Proof.
  induction inner as [|u inner IH]; intros F h D; cbn [run_all flat_map]; [apply adds_refl|].
  apply Forall_cons in F as [Fu F]. specialize (Fu h D). destruct (run u h) as [h' o] eqn:E. simpl in Fu.
  assert (D' : ambient_depth h' = d) by (rewrite (proj1 Fu); done).
  assert (Go : adds (levels d u ++ flat_map (levels d) inner) h (run_all run goes_on result inner h').1)
    by (eapply adds_trans; [exact Fu|by apply IH]).
  assert (Stop : adds (levels d u ++ flat_map (levels d) inner) h h') by (eapply adds_weaken; [apply sublist_inserts_r; reflexivity|exact Fu]).
  destruct o as [e|[e|r]]; [by destruct goes_on|by destruct goes_on|exact Go].
Qed.

(** One wrapped call, given what its body adds one level down. *)
Lemma wrapper_adds framework name sig args kw (rest : M T ToolResult) places h :
  (forall h1, ambient_depth h1 = ambient_depth h + 1 -> adds places h1 (rest h1).1) ->
  adds ((name, ambient_depth h + 1) :: places) h
    (wrapper resolved id instant session_id params_of dlp framework name (fun _ _ => enter name;; rest) sig args kw h).1.
Proof.
  intros B. unfold wrapper, gate. set (params := tool_params args kw sig).
  pose proof (ask_depth resolved id instant session_id params_of framework name params h) as Dr.
  pose proof (ask_log framework name params h) as Lg.
  pose proof (fun l => ask_outcome resolved id instant session_id params_of framework name params h l) as A.
  destruct (ask_policy _ _ _ _ _ _ _ _ _) as [h' e]. simpl in Dr, Lg, A.
  assert (No : (forall d, e <> Returned d) -> adds ((name, ambient_depth h + 1) :: places) h h').
  { intros Ne. split; [done|]. intros l R. destruct (A l R) as (Rc & Al). exists (option_list (mkRecorded name <$> ended_decision e)), [].
    rewrite Rc, Lg, app_nil_r. repeat split; try done; [|apply sublist_nil_l].
    destruct e as [d|d|d|]; [by destruct (Ne d)|..|done]; unfold admitted; simpl; by rewrite filter_cons_False by (simpl; congruence). }
  destruct e as [d|d|d|]; [clear No|by apply No..].
  split; [exact Dr|]. intros l R. destruct (A l R) as (Rc & Al).
  unfold depth_scope, enter, modify, mbind, M_bind, mret, M_ret. simpl.
  set (h1 := mkHost _ _ _). destruct (B h1) as [_ Bd]; [simpl; by rewrite Dr|].
  destruct (Bd _ Rc) as (rs & es & Rr & Lr & Mr & Sr).
  assert (Same : forall x : T * (exc + ToolResult), recorder (let (s', s) := x in match s with inl e => (s', inl e) | inr a => (s', inr (dlp a)) end).1 = recorder x.1 /\
    (engine (let (s', s) := x in match s with inl e => (s', inl e) | inr a => (s', inr (dlp a)) end).1) = engine x.1) by (by intros [h2 [e|a]]).
  destruct (Same (rest h1)) as [Se Sg]. exists (mkRecorded name d :: rs), ((name, ambient_depth h + 1) :: es).
  unfold log_of in *. simpl. rewrite Se, Sg, Rr, Lr. simpl. rewrite Lg, Dr, <- !app_assoc. repeat split; try done.
  - unfold admitted. rewrite filter_cons_True by done. simpl. f_equal. exact Mr.
  - by apply sublist_skip.
Qed.

(** As Python binds it. *)
Lemma call_wrapper_adds framework name sig args kw (rest : M T ToolResult) places h : own_keywords kw = true ->
  (forall h1, ambient_depth h1 = ambient_depth h + 1 -> adds places h1 (rest h1).1) ->
  adds ((name, ambient_depth h + 1) :: places) h
    (call_wrapper resolved id instant session_id params_of dlp framework name (fun _ _ => enter name;; rest) sig args kw h).1.
Proof.
  intros [N%bool_decide_eq_true O%bool_decide_eq_true]%andb_true_iff B. unfold call_wrapper. rewrite N, O.
  assert (No : adds ((name, ambient_depth h + 1) :: places) h h) by (eapply adds_weaken; [apply sublist_nil_l|apply adds_refl]).
  destruct (field (points "_sig") kw) as [[]|]; try exact No; by apply wrapper_adds.
Qed.

(** C29: No tool body runs without an allow of its own.  For any tree of wrapped tools of CrewAI and LangChain calling wrapped tools, none
    of whose calls carries the keywords [_name] or [_orig] of the wrapper, whatever the bodies do when a call inside them is
    refused and whatever the evaluator is: the bodies that ran are, one for one and in order, the records that let a call
    through, under the tool's own name; each saw the depth of its place in the tree; and the depth is what it was at the
    end. *)
Theorem bodies_run_were_allowed u h l :
  own_calls u = true -> recorder h = Some l ->
  let h' := (run u h).1 in
  ambient_depth h' = ambient_depth h /\
  exists rs es, recorder h' = Some (l ++ rs) /\ log_of h' = log_of h ++ es /\ map fst es = admitted rs /\
    es `sublist_of` levels (ambient_depth h) u.
Proof.
  intros Ow R. assert (A : forall d h, ambient_depth h = d -> adds (levels d u) h (run u h).1).
  { clear R. revert Ow. induction u as [framework name sig args kw goes_on inner result IH] using use_ind.
    intros [K F]%andb_true_iff d h0 D. cbn [run levels]. subst d. apply call_wrapper_adds; [done|]. intros h1 D1. apply run_all_adds; [|done].
    rewrite Forall_forall in IH |- *. intros u I h2 D2. apply IH; [done| |done]. rewrite forallb_forall in F. by apply F, list_elem_of_In. }
  destruct (A _ h eq_refl) as [D Ad]. split; [exact D|]. by apply Ad.
Qed.
End Traced.

(** ** Witnesses *)

(** An evaluator that blocks one tool. *)
Definition verdict_only (v : verdict) : PolicyDecision := mkDecision v "" 0 "" "" 0 "" [] "" "" 0 "" 0.
Definition deny (bad : string) (event : ToolCallEvent) : M unit PolicyDecision := fun s =>
  (s, inr (verdict_only (if bool_decide (tool_name event = bad) then Block else Allow))).
Lemma deny_total bad event s : wp (deny bad event) (fun _ _ => True) (fun _ _ => False) s.
Proof. done. Qed.
Definition denies_one (bad : string) : SupportsEvaluate unit := {| ask := deny bad; ask_total := deny_total bad |}.

Definition an_agent : AgentIdentity := mkIdentity (points "spiffe://norviq/ns/prod/sa/bot") "prod" "bot" "support" "" "" "" "".
Definition no_params : list (text * arg) -> option (list (string * json)) := fun _ => Some [].

(** A tool that calls another one, which is refused, goes on, and calls a third. *)
Definition sample_use : Use :=
  mkUse "crewai" "plan" None [] [] true
    [mkUse "crewai" "delete_all" None [] [] true [] (inr (RObject 1)); mkUse "crewai" "read_file" None [] [] true [] (inr (RObject 2))]
    (inr (RObject 3)).
Definition sample_state : Host (unit * list Entry) := mkHost (tt, []) 0 (Some []).

Lemma bodies_run_were_allowed_witness :
  exists rs es, recorder (run (SupportsEvaluate0 := denies_one "delete_all") (Some an_agent) "e1" 0 "s1" no_params id sample_use sample_state).1 = Some rs /\
    map fst es = admitted rs /\ es = [("plan", 1); ("read_file", 2)] /\ length rs = 3%nat.
Proof.
  destruct (proj2 (bodies_run_were_allowed (SupportsEvaluate0 := denies_one "delete_all") (Some an_agent) "e1" 0 "s1" no_params id
    sample_use sample_state [] eq_refl eq_refl)) as (rs & es & R & L & M & _).
  exists rs, es. vm_compute in R. injection R as <-. vm_compute in L. subst es. repeat split; vm_compute; reflexivity.
Defined.

(** A keyword [_name] decides which tool policy is asked about: the call of [delete_all] is evaluated as [read_file], and the
    body of [delete_all] runs. *)
Example name_keyword_renames :
  let call kw := call_wrapper (SupportsEvaluate0 := denies_one "delete_all") (Some an_agent) "e1" 0 "s1" no_params id "crewai" "delete_all"
                   (fun _ _ h => (h, inr (RObject 1))) None [] kw (mkHost tt 0 (Some [])) in
  (call []).2 = Refused (Blocked (verdict_only Block)) /\
  (call [(points "_name", AStr (points "read_file"))]).2 = Finished (inr (RObject 1)).
Proof. split; vm_compute; reflexivity. Qed.
