(* ===== verification/DeclaredSchema.v ===== *)
(** * Declared argument names ([sdk/langchain/adapter.py]: [DeclaredToolSchema], [_collect], [ingest_declared_schema])

    Every agent framework holds a statement of the arguments of its tools: a pydantic model, a JSON Schema, an
    OpenAI-style envelope or a list of parameter objects.  The adapters read the argument names off it, as the
    paths an operator will see, within bounds, and say when the set is not complete and which names are
    ambiguous.  The theorems: a set that is not marked as incomplete is exactly the declared arguments, one
    name each; names that read alike are all marked; and the registry of records is bounded. *)

From stdpp Require Import sorting gmap.
From S2P Require Import Prelude.
From S2P Require Import Text.
From S2P Require Import Json.
From S2P Require Import JsonParse.
From S2P Require Import ParamPaths.

(** A declaration, as far as it is looked at.  A model class that refers to itself is the tree of its unfoldings, of
    which the walk sees the first thirteen levels. *)
Inductive decl : Type :=
  | DNone                                            (* [None] *)
  | DStr (s : text)
  | DScalar                                          (* a number or a boolean of a JSON document *)
  | DDict (fs : list (text * decl))
  | DList (l : list decl)                            (* a [list] or a [tuple] *)
  | DModel (is_class : bool) (fs : list (text * decl))  (* a pydantic model with the annotations of its fields *)
  | DParam (name : option text) (schema_data : decl) (* an object with [name] and [schema_data]; [None]: no [str], or it raises *)
  | DUnion (args : list decl)                        (* [Union[...]], [X | Y] *)
  | DGeneric (args : list decl)                      (* [list[X]], [dict[K, V]], ... *)
  | DType                                            (* any other class *)
  | DNoneType                                        (* [type(None)] *)
  | DUnreadable.                                     (* [get_args] raises *)

Definition MAX_DECLARED_PARAM_KEYS : nat := 256.
Definition MAX_DECLARED_KEY_LEN : nat := 256.
Definition MAX_DECLARED_DEPTH : nat := 12.
Definition MAX_SCHEMA_NODES : nat := 512.
Definition MAX_ANNOTATION_NODES : nat := 64.

(** [_model_fields]. *)
Definition model_fields (d : decl) : option (list (text * decl)) := match d with DModel _ fs => Some fs | _ => None end.

Definition is_dict (d : decl) : bool := match d with DDict _ => true | _ => false end.

(** [_json_schema_fields]: an object schema, an envelope around one, or a bare map of properties. *)
Definition object_fields (fs : list (text * decl)) : option (list (text * decl)) :=
  match field (points "properties") fs with
  | Some (DDict ps) =>
      if match field (points "type") fs with Some (DStr t) => bool_decide (t = points "object") | _ => false end
         || match field (points "$schema") fs with Some _ => true | None => false end
         || match field (points "required") fs with Some (DList _) => true | _ => false end
      then Some ps else None
  | _ => None
  end.
Definition bare_fields (fs : list (text * decl)) : option (list (text * decl)) :=
  if forallb (fun f => is_dict f.2) fs then Some fs else None.
Definition json_schema_fields (fs : list (text * decl)) : option (list (text * decl)) :=
  match object_fields fs with
  | Some ps => Some ps
  | None =>
      match field (points "parameters") fs, field (points "name") fs with
      | Some (DDict qs), Some (DStr _) => match object_fields qs with Some ps => Some ps | None => bare_fields qs end
      | _, _ => bare_fields fs
      end
  end.

(** [_schema_fields]. *)
Definition schema_fields (d : decl) : option (list (text * decl)) :=
  match model_fields d, d with
  | Some fs, _ => Some fs
  | None, DDict fs => json_schema_fields fs
  | None, DList l => mapM (fun item => match item with DParam (Some name) child => Some (name, child) | _ => None end) l
  | None, _ => None
  end.

(** [_hides_a_model]: the top of the stack is the head, [budget] is what is left of the 64 nodes. *)
Fixpoint hides_loop (budget : nat) (stack : list decl) : bool :=
  match stack, budget with
  | [], _ => false
  | _ :: _, O => true
  | item :: rest, S budget =>
      match item with
      | DModel true _ => true
      | DUnreadable => true
      | DUnion args | DGeneric args => hides_loop budget (reverse args ++ rest)
      | _ => hides_loop budget rest
      end
  end.
Definition hides_a_model (d : decl) : bool := hides_loop MAX_ANNOTATION_NODES [d].

(** A sub-schema that has properties or a reference. *)
Definition names_inside (d : decl) : bool :=
  match d with
  | DDict fs => match field (points "properties") fs, field (points "$ref") fs with None, None => false | _, _ => true end
  | _ => false
  end.

(** [_child_declaration]: what to expand, and whether names may hide behind it. *)
Definition child_declaration (child : decl) : option decl * bool :=
  match child with
  | DNone => (None, false)
  | DDict fs =>
      match field (points "properties") fs with
      | Some (DDict _) => (Some child, false)
      | _ =>
          if match field (points "$ref") fs with Some _ => true | None => false end then (None, true)
          else (None, existsb (fun key => match field (points key) fs with
                                          | Some (DDict gs) => names_inside (DDict gs)
                                          | Some (DList l) => existsb names_inside l
                                          | _ => false
                                          end) ["items"; "additionalProperties"; "anyOf"; "oneOf"; "allOf"])
      end
  | DModel true _ => (Some child, false)
  | DUnion args =>
      match filter (fun a => match a with DNoneType => false | _ => true end = true) args with
      | [DModel true fs] => (Some (DModel true fs), false)
      | _ => (None, hides_a_model child)
      end
  | _ => (None, hides_a_model child)
  end.

(** [_mints_a_path]. *)
Definition mints_a_path (name : text) (siblings : list text) : bool :=
  if bool_decide (path_head name = name) then false else bool_decide (path_head name ∈ siblings).

(** [_Walk]: the sets are lists in the order of insertion. *)
Record SchemaWalk := mkWalk { keys : list text; ambiguous : list text; truncated : bool; nodes : nat }.

Definition truncate (w : SchemaWalk) : SchemaWalk := mkWalk (keys w) (ambiguous w) true (nodes w).
Definition visit (w : SchemaWalk) : SchemaWalk := mkWalk (keys w) (ambiguous w) (truncated w) (S (nodes w)).
Definition doubt (p : text) (w : SchemaWalk) : SchemaWalk := mkWalk (keys w) (ambiguous w ++ [p]) (truncated w) (nodes w).
Definition add_key (p : text) (w : SchemaWalk) : SchemaWalk :=
  mkWalk (if bool_decide (p ∈ keys w) then keys w else keys w ++ [p]) (ambiguous w) (truncated w) (nodes w).

(** The end of an iteration: the path itself is an argument. *)
Definition emit (path : text) (may_hide : bool) (w : SchemaWalk) : SchemaWalk :=
  let w := if may_hide then truncate w else w in
  let w := if bool_decide (path ∈ keys w) then truncate (doubt path w) else w in
  add_key path w.

(** The loop of [_collect] over the fields, for the walk into a nested declaration. *)
Section Fields.
Context (inner : decl -> text -> SchemaWalk -> SchemaWalk * bool) (siblings : list text) (prefix : text).

Fixpoint collect_fields (fields : list (text * decl)) (w : SchemaWalk) (emitted : bool) : SchemaWalk * bool :=
  match fields with
  | [] => (w, emitted)
  | (name, child) :: fields' =>
      let w := visit w in
      if (MAX_SCHEMA_NODES <? nodes w)%nat then (truncate w, emitted)
      else if bool_decide (name = []) then collect_fields fields' (truncate w) emitted
      else
        let path := child_prefix prefix name in
        if (MAX_DECLARED_KEY_LEN <? length path)%nat then collect_fields fields' (truncate w) emitted
        else if (MAX_DECLARED_PARAM_KEYS <=? length (keys w))%nat then (truncate w, emitted)
        else
          let w := if mints_a_path name siblings then doubt path w else w in
          let '(nested, may_hide) := child_declaration child in
          let '(w, took) := match nested with Some d => inner d path w | None => (w, false) end in
          if took then collect_fields fields' w true else collect_fields fields' (emit path may_hide w) true
  end.
End Fields.

(** [_collect]; [levels] is the depth that is left, thirteen at the top. *)
Fixpoint collect (levels : nat) (schema : decl) (prefix : text) (w : SchemaWalk) : SchemaWalk * bool :=
  match levels with
  | O => (truncate w, false)
  | S levels =>
      match schema_fields schema with
      | None => (truncate w, false)
      | Some fields => collect_fields (collect levels) (filter (fun n => n <> []) fields.*1) prefix fields w false
      end
  end.

(** [_fold_path] and [_mixes_latin_with_another_script], over the Unicode data they read. *)
Section Reading.
Context (nfkc casefold : text -> text) (is_mark isalpha : Z -> bool) (script : Z -> text).

Definition is_ascii_text (p : text) : bool := forallb (fun c => c <? 128) p.

Definition fold_path (p : text) : text :=
  if is_ascii_text p then casefold p else filter (fun c => is_mark c = false) (casefold (nfkc p)).

(** The loop over the characters: [scripts] is the set so far. *)
Fixpoint mixes_loop (t : text) (scripts : list text) : bool :=
  match t with
  | [] => false
  | c :: t' =>
      if negb (isalpha c) then mixes_loop t' scripts
      else
        let scripts := if bool_decide (script c ∈ scripts) then scripts else script c :: scripts in
        if (1 <? length scripts)%nat && bool_decide (points "LATIN" ∈ scripts) then true else mixes_loop t' scripts
  end.
Definition mixes_latin_with_another_script (p : text) : bool := if is_ascii_text p then false else mixes_loop p [].

(** The pass over the keys for names that read alike. *)
Fixpoint twin_pass (paths : list text) (folded : list (text * text)) (amb : list text) : list text :=
  match paths with
  | [] => amb
  | p :: ps =>
      let amb := if mixes_latin_with_another_script p then amb ++ [p] else amb in
      match field (fold_path p) folded with
      | Some twin => twin_pass ps folded (if bool_decide (twin = p) then amb else amb ++ [p; twin])
      | None => twin_pass ps (put_field (fold_path p) p folded) amb
      end
  end.

(** [_declared_param_keys]. *)
Definition declared_param_keys (schema : decl) : option (list text) * bool * list text :=
  match schema_fields schema with
  | None => (None, false, [])
  | Some _ =>
      let w := (collect (S MAX_DECLARED_DEPTH) schema [] (mkWalk [] [] false 0)).1 in
      let amb := twin_pass (keys w) [] (ambiguous w) in
      (Some (merge_sort text_le (keys w)), truncated w, merge_sort text_le (remove_dups amb))
  end.
End Reading.

(** ** What the walk finds *)

(** The arguments of a declaration: a nested declaration that declares arguments stands for these, anything else for itself. *)
Fixpoint leaves (levels : nat) (schema : decl) (prefix : text) : list text :=
  match levels with
  | O => []
  | S levels =>
      flat_map (fun f : text * decl =>
        let path := child_prefix prefix f.1 in
        match (child_declaration f.2).1 with
        | None => [path]
        | Some d => match leaves levels d path with [] => [path] | ls => ls end
        end) (default [] (schema_fields schema))
  end.

(** What one step of the walk promises: it never clears the mark; without the mark it has added exactly the leaves, all new, and it
    says whether there were any; and a step that emits nothing adds nothing. *)
Record finds (ls : list text) (w : SchemaWalk) (r : SchemaWalk * bool) (before : bool) : Prop := {
  f_mono : truncated w = true -> truncated r.1 = true;
  f_exact : truncated r.1 = false -> keys r.1 = keys w ++ ls /\ (NoDup (keys w) -> NoDup (keys r.1)) /\ r.2 = before || negb (bool_decide (ls = []));
  f_quiet : before = false -> r.2 = false -> keys r.1 = keys w;
  f_before : before = true -> r.2 = true;
  f_size : (length (keys w) <= MAX_DECLARED_PARAM_KEYS -> length (keys r.1) <= MAX_DECLARED_PARAM_KEYS)%nat;
}.

Lemma finds_none w w' (before : bool) : truncated w' = true -> keys w' = keys w -> forall ls, finds ls w (w', before) before.
Proof. intros T K ls. split; simpl; try done; rewrite ?T, ?K; try done; congruence. Qed.

(** One step after another. *)
Lemma finds_step ls1 ls2 w w' (before : bool) r :
  (truncated w = true -> truncated w' = true) ->
  (truncated w' = false -> keys w' = keys w ++ ls1 /\ (NoDup (keys w) -> NoDup (keys w')) /\ ls1 <> []) ->
  (length (keys w) <= MAX_DECLARED_PARAM_KEYS -> length (keys w') <= MAX_DECLARED_PARAM_KEYS)%nat ->
  finds ls2 w' r true -> finds (ls1 ++ ls2) w r before.
Proof.
  intros T1 E1 S1 [T2 E2 Q2 B2 S2]. split; auto.
  - intros T. destruct (truncated w') eqn:T'; [by rewrite T2 in T|]. destruct (E1 eq_refl) as (K1 & N1 & Ne), (E2 T) as (K2 & N2 & _).
    split; [by rewrite K2, K1, app_assoc|]. split; [auto|]. rewrite B2 by done. rewrite (bool_decide_false (ls1 ++ ls2 = [])); [by rewrite orb_true_r|].
    by intros [-> _]%app_eq_nil.
  - intros _ Q. rewrite B2 in Q by done. done.
Qed.

Lemma emit_spec path may_hide w :
  (truncated w = true -> truncated (emit path may_hide w) = true) /\
  (truncated (emit path may_hide w) = false -> keys (emit path may_hide w) = keys w ++ [path] /\ (NoDup (keys w) -> NoDup (keys (emit path may_hide w)))) /\
  (length (keys (emit path may_hide w)) <= S (length (keys w)))%nat.
Proof.
  unfold emit. set (w1 := if may_hide then truncate w else w).
  assert (K : keys w1 = keys w) by (by unfold w1; destruct may_hide).
  assert (T : truncated w = true -> truncated w1 = true) by (by unfold w1; destruct may_hide).
  destruct (decide (path ∈ keys w1)) as [I|N].
  - rewrite (bool_decide_true (path ∈ keys w1)) by done. unfold add_key. simpl. rewrite bool_decide_true by done. repeat split; try done. rewrite K. lia.
  - rewrite (bool_decide_false (path ∈ keys w1)) by done. unfold add_key. rewrite bool_decide_false by done. simpl. split; [exact T|].
    split; [|rewrite length_app, K; simpl; lia]. intros _. rewrite K in *. split; [done|]. intros ND. apply NoDup_app. split; [done|].
    split; [by intros x Ix ->%list_elem_of_singleton|apply NoDup_singleton].
Qed.

(** The leaves of one field. *)
Definition field_leaves (levels : nat) (prefix : text) (f : text * decl) : list text :=
  let path := child_prefix prefix f.1 in
  match (child_declaration f.2).1 with
  | None => [path]
  | Some d => match leaves levels d path with [] => [path] | ls => ls end
  end.

Lemma collect_fields_finds levels siblings prefix :
  (forall schema path w, finds (leaves levels schema path) w (collect levels schema path w) false) ->
  forall fields w emitted, finds (flat_map (field_leaves levels prefix) fields) w (collect_fields (collect levels) siblings prefix fields w emitted) emitted.
Proof.
  intros IH. induction fields as [|[name child] fields IHf]; intros w emitted; cbn [collect_fields].
  { split; simpl; try done; try (by intros ->). intros _. by rewrite app_nil_r, orb_false_r. }
  set (w1 := visit w). assert (Skip : finds (flat_map (field_leaves levels prefix) ((name, child) :: fields)) w
      (collect_fields (collect levels) siblings prefix fields (truncate w1) emitted) emitted).
  { destruct (IHf (truncate w1) emitted) as [T E Q B Sz]. split; auto.
    - intros F. rewrite T in F by done. done. }
  destruct (MAX_SCHEMA_NODES <? nodes w1)%nat; [by apply finds_none|]. case_bool_decide; [exact Skip|]. cbv zeta.
  set (path := child_prefix prefix name). destruct (MAX_DECLARED_KEY_LEN <? length path)%nat; [exact Skip|]. clear Skip.
  destruct (MAX_DECLARED_PARAM_KEYS <=? length (keys w1))%nat eqn:Full; [by apply finds_none|]. apply Nat.leb_gt in Full.
  set (w2 := if mints_a_path name siblings then doubt path w1 else w1).
  assert (K2 : keys w2 = keys w /\ truncated w2 = truncated w) by (unfold w2; by destruct (mints_a_path name siblings)). clearbody w2.
  destruct K2 as [K2 T2]. cbn [flat_map]. unfold field_leaves at 1. cbn [fst snd]. fold path.
  destruct (child_declaration child) as [nested may_hide]. cbn [fst].
  assert (Leaf : forall w3, (truncated w = true -> truncated w3 = true) ->
    (length (keys w3) < MAX_DECLARED_PARAM_KEYS)%nat -> keys w3 = keys w ->
    finds ([path] ++ flat_map (field_leaves levels prefix) fields) w (collect_fields (collect levels) siblings prefix fields (emit path may_hide w3) true) emitted).
  { intros w3 T3 L3 K3'. destruct (emit_spec path may_hide w3) as (Te & Ee & Le).
    apply (finds_step [path] _ w (emit path may_hide w3)); [auto| |lia|apply IHf].
    intros F. destruct (Ee F) as [Ke Ne]. rewrite Ke, K3'. split; [done|]. split; [|done]. rewrite K3' in Ke, Ne. intros ND. rewrite <- Ke. auto. }
  destruct nested as [d|]; [|apply Leaf; rewrite ?T2, ?K2; auto; done].
  specialize (IH d path w2). destruct (collect levels d path w2) as [w3 took]. destruct IH as [T3 E3 Q3 _ S3]. simpl in *. rewrite T2, K2 in *.
  destruct took.
  - destruct (truncated w3) eqn:Tw.
    + destruct (IHf w3 true) as [T E Q B Sz]. split; auto.
      * intros F. rewrite T in F by done. done.
      * intros _ F. rewrite B in F by done. done.
    + destruct (E3 eq_refl) as (K3 & N3 & Ne). assert (L : leaves levels d path <> []) by (intros L; by rewrite L in Ne).
      destruct (leaves levels d path) as [|x ls] eqn:Ls; [done|]. apply (finds_step (x :: ls) _ w w3); [by rewrite Tw|by intros _|auto|apply IHf].
  - pose proof (Q3 eq_refl eq_refl) as K3. destruct (leaves levels d path) as [|x ls] eqn:Ls.
    + apply Leaf; auto. rewrite K3. exact Full.
    + assert (Tw : truncated w3 = true) by (destruct (truncated w3); [done|]; by destruct (E3 eq_refl) as (_ & _ & ?)).
      destruct (emit_spec path may_hide w3) as (Te & _ & Le). destruct (IHf (emit path may_hide w3) true) as [T E Q B Sz]. split; auto.
      * intros F. rewrite T in F by auto. done.
      * intros _ F. rewrite B in F by done. done.
      * intros _. apply Sz. rewrite K3 in Le. change (keys w1) with (keys w) in Full. lia.
Qed.

Lemma collect_finds levels : forall schema path w, finds (leaves levels schema path) w (collect levels schema path w) false.
Proof.
  induction levels as [|levels IH]; intros schema path w; cbn [collect leaves]; [by apply finds_none|].
  destruct (schema_fields schema) as [fields|]; [|by apply finds_none]. apply collect_fields_finds, IH.
Qed.

(** ** No name is made up, complete or not *)

(** Every path of the declaration, of arguments and of what contains them. *)
Fixpoint routes (levels : nat) (schema : decl) (prefix : text) : list text :=
  match levels with
  | O => []
  | S levels =>
      flat_map (fun f : text * decl =>
        child_prefix prefix f.1 :: match (child_declaration f.2).1 with Some d => routes levels d (child_prefix prefix f.1) | None => [] end)
        (default [] (schema_fields schema))
  end.

Lemma emit_keys path may_hide w k : k ∈ keys (emit path may_hide w) -> k = path \/ k ∈ keys w.
Proof.
  unfold emit. set (w1 := if may_hide then truncate w else w). assert (K : keys w1 = keys w) by (by unfold w1; destruct may_hide).
  set (w2 := if bool_decide (path ∈ keys w1) then truncate (doubt path w1) else w1). assert (K2 : keys w2 = keys w) by (unfold w2; by case_bool_decide).
  unfold add_key. simpl. rewrite K2. case_bool_decide; [by right|]. intros [?| ->%list_elem_of_singleton]%elem_of_app; auto.
Qed.

Lemma collect_routes levels : forall schema prefix w k, k ∈ keys (collect levels schema prefix w).1 -> k ∈ keys w \/ k ∈ routes levels schema prefix.
Proof.
  induction levels as [|levels IH]; intros schema prefix w k; cbn [collect routes]; [by left|].
  destruct (schema_fields schema) as [fields|]; simpl; [|by left]. generalize (filter (fun n => n <> []) fields.*1), false. revert w.
  induction fields as [|[name child] fields IHf]; intros w siblings emitted; cbn [collect_fields flat_map]; [by left|].
  rewrite elem_of_app. cbn [fst snd]. assert (Skip : forall w' e, keys w' = keys w -> k ∈ keys (collect_fields (collect levels) siblings prefix fields w' e).1 -> k ∈ keys w \/
    (k ∈ child_prefix prefix name :: match (child_declaration child).1 with Some d => routes levels d (child_prefix prefix name) | None => [] end \/
     k ∈ flat_map (fun f : text * decl => child_prefix prefix f.1 ::
        match (child_declaration f.2).1 with Some d => routes levels d (child_prefix prefix f.1) | None => [] end) fields)).
  { intros w' e K I. apply IHf in I as [I|I]; [rewrite K in I|]; auto. }
  destruct (_ <? _)%nat; [by left|]. case_bool_decide; [by apply Skip|]. cbv zeta. destruct (_ <? _)%nat; [by apply Skip|].
  destruct (_ <=? _)%nat; [by left|]. set (w2 := if mints_a_path name siblings then _ else _).
  assert (K2 : keys w2 = keys w) by (unfold w2; by destruct (mints_a_path name siblings)).
  destruct (child_declaration child) as [[d|] may_hide]; simpl.
  - specialize (IH d (child_prefix prefix name) w2 k). destruct (collect levels d _ w2) as [w3 took]. simpl in IH. rewrite K2 in IH.
    destruct took; intros I; apply IHf in I as [I|I]; auto; [|apply emit_keys in I as [->|I]; [right; left; by left|]];
      (destruct (IH I) as [?|?]; [by left|right; left; by right]).
  - intros I. apply IHf in I as [I|I]; [|auto]. apply emit_keys in I as [->|I]; [right; left; by left|rewrite K2 in I; auto].
Qed.

(** ** Names that read alike *)

Section ReadingProps.
Context (nfkc casefold : text -> text) (is_mark isalpha : Z -> bool) (script : Z -> text).
Notation fold_path := (fold_path nfkc casefold is_mark).
Notation mixes := (mixes_latin_with_another_script isalpha script).
Notation twin_pass := (twin_pass nfkc casefold is_mark isalpha script).
Notation declared_param_keys := (declared_param_keys nfkc casefold is_mark isalpha script).

(** Everything that is marked stays marked, and so is every mixed name, and every name with a twin, either way. *)
Lemma twin_pass_marks paths : forall folded amb, (forall f t, field f folded = Some t -> fold_path t = f) ->
  (forall x, x ∈ amb -> x ∈ twin_pass paths folded amb) /\
  (forall x, x ∈ paths -> mixes x = true -> x ∈ twin_pass paths folded amb) /\
  (forall x z, x ∈ paths -> field (fold_path x) folded = Some z -> x <> z -> x ∈ twin_pass paths folded amb /\ z ∈ twin_pass paths folded amb) /\
  (forall x y, x ∈ paths -> y ∈ paths -> x <> y -> fold_path x = fold_path y -> x ∈ twin_pass paths folded amb).
Proof.
  induction paths as [|p ps IH]; intros folded amb Inv; cbn [DeclaredSchema.twin_pass];
    [split; [done|]; split; [by intros ? ?%elem_of_nil|]; split; by intros ? ? ?%elem_of_nil|].
  set (amb1 := if mixes p then amb ++ [p] else amb).
  assert (A1 : forall x, x ∈ amb -> x ∈ amb1) by (unfold amb1; intros x I; destruct (mixes p); [apply elem_of_app; by left|done]).
  assert (P1 : mixes p = true -> p ∈ amb1) by (unfold amb1; intros ->; apply elem_of_app; right; by left).
  destruct (field (fold_path p) folded) as [z|] eqn:F.
  - set (amb2 := if bool_decide (z = p) then amb1 else amb1 ++ [p; z]). destruct (IH folded amb2 Inv) as (H1 & H2 & H3 & H4).
    assert (A2 : forall x, x ∈ amb1 -> x ∈ amb2) by (unfold amb2; intros x I; case_bool_decide; [done|apply elem_of_app; by left]).
    assert (P2 : z <> p -> p ∈ amb2 /\ z ∈ amb2) by (unfold amb2; intros N; rewrite bool_decide_false by done; split; apply elem_of_app; right; [by left|right; by left]).
    split; [auto|]. split; [intros x [->|I]%elem_of_cons M; auto|]. split.
    + intros x z' [->|I]%elem_of_cons Fx N; [|auto]. rewrite F in Fx. injection Fx as <-. destruct P2; auto.
    + intros x y [->|Ix]%elem_of_cons [->|Iy]%elem_of_cons N E; [done| | |eauto].
      * destruct (decide (z = p)) as [->|Nz]; [|apply H1, P2; auto]. rewrite E in F. by apply (H3 y p Iy F).
      * destruct (decide (x = z)) as [->|Nx]; [destruct (decide (z = p)); [done|apply H1, P2; auto]|]. rewrite <- E in F. by apply (H3 x z Ix F).
  - destruct (IH (put_field (fold_path p) p folded) amb1) as (H1 & H2 & H3 & H4).
    { intros f t. rewrite field_put. case_bool_decide as E; [intros [= <-]; done|apply Inv]. }
    split; [auto|]. split; [intros x [->|I]%elem_of_cons M; auto|]. split.
    + intros x z [->|I]%elem_of_cons Fx N; [congruence|]. apply (H3 x z I); [|done]. rewrite field_put. case_bool_decide as E; [congruence|done].
    + intros x y [->|Ix]%elem_of_cons [->|Iy]%elem_of_cons N E; [done| | |eauto].
      * destruct (H3 y p Iy) as [_ ?]; [rewrite field_put; by rewrite bool_decide_true|congruence|done].
      * destruct (H3 x p Ix) as [? _]; [rewrite field_put; by rewrite bool_decide_true|done|done].
Qed.

(** A set of names that is not marked as incomplete is the declaration.  It is exactly the arguments the framework declares,
    one name for each; and a name that is not marked as ambiguous is in one script with Latin letters and reads like no other
    name of the set. *)
Theorem declaration_read_exactly schema ks amb :
  declared_param_keys schema = (Some ks, false, amb) ->
  ks ≡ₚ leaves (S MAX_DECLARED_DEPTH) schema [] /\ NoDup ks /\
  forall p, p ∈ ks -> p ∉ amb -> mixes p = false /\ forall q, q ∈ ks -> fold_path q = fold_path p -> q = p.
Proof.
  unfold DeclaredSchema.declared_param_keys. destruct (schema_fields schema) as [fs|]; [|done].
  pose proof (collect_finds (S MAX_DECLARED_DEPTH) schema [] (mkWalk [] [] false 0)) as [_ E _ _ _].
  destruct (collect _ schema [] _) as [w e]. simpl in E |- *. intros [= <- T <-]. destruct (E T) as (K & N & _).
  specialize (N (NoDup_nil_2)). rewrite (merge_sort_Permutation text_le (keys w)). split; [by rewrite K|]. split; [done|].
  intros p Ip Na. rewrite (merge_sort_Permutation text_le (keys w)) in Ip.
  rewrite (merge_sort_Permutation text_le), elem_of_remove_dups in Na.
  destruct (twin_pass_marks (keys w) [] (ambiguous w)) as (_ & M & _ & Tw); [done|]. split.
  - destruct (mixes p) eqn:Mx; [|done]. by destruct Na; apply M.
  - intros q Iq Eq. rewrite (merge_sort_Permutation text_le (keys w)) in Iq. destruct (decide (q = p)) as [|Nq]; [done|].
    destruct Na. by apply (Tw p q).
Qed.

(** Whatever the declaration is, no more than 256 names are published, each of them a path of it. *)
Theorem declared_names_are_paths schema ks trunc amb :
  declared_param_keys schema = (Some ks, trunc, amb) ->
  (length ks <= MAX_DECLARED_PARAM_KEYS)%nat /\ forall p, p ∈ ks -> p ∈ routes (S MAX_DECLARED_DEPTH) schema [].
Proof.
  unfold DeclaredSchema.declared_param_keys. destruct (schema_fields schema) as [fs|]; [|done].
  pose proof (collect_finds (S MAX_DECLARED_DEPTH) schema [] (mkWalk [] [] false 0)) as [_ _ _ _ Sz].
  pose proof (collect_routes (S MAX_DECLARED_DEPTH) schema [] (mkWalk [] [] false 0)) as Ro.
  destruct (collect _ schema [] _) as [w e]. cbn [fst keys] in Sz, Ro |- *. intros [= <- _ _].
  rewrite (merge_sort_Permutation text_le (keys w)). split; [apply Sz; simpl; unfold MAX_DECLARED_PARAM_KEYS; lia|].
  intros p I. rewrite (merge_sort_Permutation text_le (keys w)) in I. destruct (Ro p I) as [H|H]; [by apply elem_of_nil in H|done].
Qed.
End ReadingProps.

(** ** Records and the registry *)

Definition MAX_REGISTERED_TOOLS : nat := 1024.
Definition REASON_ABSENT : string := "no_declared_schema".
Definition REASON_UNREADABLE : string := "schema_unreadable".
Definition REASON_UNRECOGNIZED : string := "schema_shape_unknown".
Definition REASON_REGISTRY_FULL : string := "registry_full".

Record DeclaredToolSchema := mkDeclared {
  d_tool : string;
  d_framework : string;
  d_source : string;
  d_param_keys : option (list text);
  d_truncated : bool;
  d_unavailable_reason : string;
  d_ambiguous : list text;
}.

Definition schema_available (r : DeclaredToolSchema) : bool := match d_param_keys r with Some _ => true | None => false end.

(** [_DECLARED] and [_REGISTRY_FULL_LOGGED], and the warnings logged so far. *)
Record Registry := mkRegistry { declared : gmap (string * string) DeclaredToolSchema; full_logged : bool; warnings : nat }.

Definition declared_tool_schema (framework tool : string) (g : Registry) : option DeclaredToolSchema := declared g !! (framework, tool).
Definition forget_declared_tool_schemas (g : Registry) : Registry := mkRegistry ∅ false (warnings g).

(** [_registry_has_room_for]. *)
Definition registry_has_room_for (framework tool : string) (g : Registry) : Registry * bool :=
  if match declared g !! (framework, tool) with Some _ => true | None => false end || (size (declared g) <? MAX_REGISTERED_TOOLS)%nat then (g, true)
  else (mkRegistry (declared g) true (if full_logged g then warnings g else S (warnings g)), false).

(** [_remember]. *)
Definition remember (r : DeclaredToolSchema) (g : Registry) : Registry :=
  let key := (d_framework r, d_tool r) in
  if negb (nonempty (d_tool r)) then g
  else if match declared g !! key with Some _ => false | None => true end && (MAX_REGISTERED_TOOLS <=? size (declared g))%nat then g
  else mkRegistry (<[key := r]> (declared g)) (full_logged g) (warnings g).

(** [_finish]. *)
Definition finish_record (tool framework source : string) (ks : option (list text)) (trunc : bool) (reason : string) (amb : list text) (g : Registry)
    : Registry * DeclaredToolSchema :=
  let available := match ks with Some _ => true | None => false end in
  let r := mkDeclared tool framework (if available then source else "") ks trunc reason (if available then amb else []) in
  (remember r g, r).

(** An attribute of the tool as it is read: absent or [None], a declaration, or raising. *)
Inductive Source := NoAttr | Declares (d : decl) | Explodes.

(** The loop over [attrs]: the first declaration and where it was found, or whether one raised. *)
Fixpoint read_attrs (attrs : list (string * Source)) (unreadable : bool) : (string * decl) + bool :=
  match attrs with
  | [] => inr unreadable
  | (_, NoAttr) :: attrs' => read_attrs attrs' unreadable
  | (_, Explodes) :: attrs' => read_attrs attrs' true
  | (a, Declares d) :: _ => inl (a, d)
  end.

Section Ingest.
Context (declared_param_keys : decl -> option (list text) * bool * list text).

(** [ingest_declared_schema]: [given] is the argument [schema] with its [source], where the caller passes one. *)
Definition ingest_declared_schema (tool framework : string) (attrs : list (string * Source)) (given : option (decl * string)) (g : Registry)
    : Registry * DeclaredToolSchema :=
  let '(g, room) := if nonempty tool then registry_has_room_for framework tool g else (g, true) in
  if negb room then (g, mkDeclared tool framework "" None false REASON_REGISTRY_FULL [])
  else
    let found := match given with Some (d, source) => inl (source, d) | None => read_attrs attrs false end in
    match found with
    | inr true => finish_record tool framework "" None false REASON_UNREADABLE [] g
    | inr false => finish_record tool framework "" None false REASON_ABSENT [] g
    | inl (source, d) =>
        let '(ks, trunc, amb) := declared_param_keys d in
        finish_record tool framework source ks trunc (match ks with Some _ => "" | None => REASON_UNRECOGNIZED end) amb g
    end.

(** AutoGen's [_ingest_tool_schema]: the published schema, and only if that is not readable the model behind [args_type]. *)
Definition autogen_ingest (tool : string) (schema args_type : Source) (g : Registry) : Registry :=
  let '(g, r) := ingest_declared_schema tool "autogen" [("schema", schema)] None g in
  if schema_available r then g
  else match args_type with
       | Declares d => (ingest_declared_schema tool "autogen" [] (Some (d, "args_type")) g).1
       | NoAttr | Explodes => g
       end.

(** Semantic Kernel's [_ingest_function_schema]: once per function. *)
Definition semantic_kernel_ingest (tool : string) (has_function : bool) (attrs : list (string * Source)) (g : Registry) : Registry :=
  if negb (nonempty tool) || negb has_function then g
  else match declared_tool_schema "semantic-kernel" tool g with
       | Some _ => g
       | None => (ingest_declared_schema tool "semantic-kernel" attrs None g).1
       end.

(** What hosts do to the registry. *)
Inductive Op :=
  | Ingest (tool framework : string) (attrs : list (string * Source))
  | IngestAutogen (tool : string) (schema args_type : Source)
  | IngestKernel (tool : string) (has_function : bool) (attrs : list (string * Source))
  | Forget.

Definition apply_op (o : Op) (g : Registry) : Registry :=
  match o with
  | Ingest tool framework attrs => (ingest_declared_schema tool framework attrs None g).1
  | IngestAutogen tool schema args_type => autogen_ingest tool schema args_type g
  | IngestKernel tool has_function attrs => semantic_kernel_ingest tool has_function attrs g
  | Forget => forget_declared_tool_schemas g
  end.

(** A record of its own key, which says why when there are no names, and only then. *)
Definition record_ok (key : string * string) (r : DeclaredToolSchema) : Prop :=
  key = (d_framework r, d_tool r) /\ d_tool r <> "" /\ (d_param_keys r = None <-> d_unavailable_reason r <> "") /\
  (d_param_keys r = None -> d_truncated r = false /\ d_ambiguous r = []).

Definition registry_ok (g : Registry) : Prop := (size (declared g) <= MAX_REGISTERED_TOOLS)%nat /\ map_Forall record_ok (declared g).

Context (unknown_is_plain : forall d trunc amb, declared_param_keys d = (None, trunc, amb) -> trunc = false).

Lemma remember_ok r g : (d_tool r <> "" -> record_ok (d_framework r, d_tool r) r) -> registry_ok g -> registry_ok (remember r g).
Proof.
  intros R [Sz All]. unfold remember. destruct (nonempty (d_tool r)) eqn:Ne; [|by split]. cbn [negb].
  assert (Rk : record_ok (d_framework r, d_tool r) r) by (apply R; intros E; by rewrite E in Ne).
  destruct (declared g !! (d_framework r, d_tool r)) as [old|] eqn:L; cbn [andb].
  - split; cbn [declared]; [|by apply map_Forall_insert_2]. rewrite map_size_insert_Some; [done|by eexists].
  - destruct (MAX_REGISTERED_TOOLS <=? size (declared g))%nat eqn:F; [by split|]. apply Nat.leb_gt in F.
    split; cbn [declared]; [|by apply map_Forall_insert_2]. rewrite map_size_insert_None by done. lia.
Qed.

Lemma finish_ok tool framework source ks trunc reason amb g :
  (ks = None <-> reason <> "") -> (ks = None -> trunc = false) -> registry_ok g ->
  registry_ok (finish_record tool framework source ks trunc reason amb g).1.
Proof.
  intros Rs Tr G. unfold finish_record. simpl. apply remember_ok; [|done]. simpl. intros Ne. split; [done|]. split; [done|]. simpl.
  split; [done|]. intros ->. auto.
Qed.

Lemma room_ok framework tool g : registry_ok g -> registry_ok (registry_has_room_for framework tool g).1.
Proof. intros G. unfold registry_has_room_for. by case_match. Qed.

Lemma ingest_ok tool framework attrs given g : registry_ok g -> registry_ok (ingest_declared_schema tool framework attrs given g).1.
Proof.
  intros G. unfold ingest_declared_schema.
  assert (G' : registry_ok (if nonempty tool then registry_has_room_for framework tool g else (g, true)).1)
    by (destruct (nonempty tool); [by apply room_ok|done]).
  destruct (if nonempty tool then _ else _) as [g' []]; simpl in *; [|done].
  destruct (match given with Some (d, source) => inl (source, d) | None => read_attrs attrs false end) as [[source d]|[]];
    [|by apply finish_ok..]. destruct (declared_param_keys d) as [[[ks|] trunc] amb] eqn:K; apply finish_ok; try done.
  by intros _; eapply unknown_is_plain.
Qed.

(** The registry stays bounded and honest whatever is ingested: at most 1024 tools, each record under its own framework and
    tool, and no names exactly when a reason is given, in which case nothing is claimed of them. *)
Theorem registry_stays_ok ops g : registry_ok g -> registry_ok (fold_left (fun g o => apply_op o g) ops g).
Proof.
  revert g. induction ops as [|o ops IH]; intros g G; simpl; [done|]. apply IH. destruct o as [t f a|t s a|t h a|]; simpl.
  - by apply ingest_ok.
  - unfold autogen_ingest. pose proof (ingest_ok t "autogen" [("schema", s)] None g G) as G1.
    destruct (ingest_declared_schema _ _ _ _ g) as [g1 r]. destruct (schema_available r); [done|]. destruct a; try done. by apply ingest_ok.
  - unfold semantic_kernel_ingest. destruct (_ || _); [done|]. destruct (declared_tool_schema _ _ g); [done|]. by apply ingest_ok.
  - split; simpl; [rewrite map_size_empty; lia|apply map_Forall_empty].
Qed.
End Ingest.

Lemma unknown_is_plain nfkc casefold is_mark isalpha script d trunc amb :
  declared_param_keys nfkc casefold is_mark isalpha script d = (None, trunc, amb) -> trunc = false.
Proof. unfold declared_param_keys. destruct (schema_fields d); [done|]. by intros [= <-]. Qed.

(** ** Witnesses, and two declarations that are misread *)

(** ASCII only: the rest of Unicode is one script, [OTHER]. *)
Definition ascii_reading : decl -> option (list text) * bool * list text :=
  declared_param_keys (fun t => t) lower (fun _ => false) (fun c => is_upper c || is_lower c || (128 <=? c))
    (fun c => if c <? 128 then points "LATIN" else points "OTHER").

Definition obj (ps : list (string * decl)) : decl :=
  DDict [(points "type", DStr (points "object")); (points "properties", DDict (map (fun p => (points p.1, p.2)) ps))].
Definition leaf_schema : decl := DDict [(points "type", DStr (points "string"))].

(** A transfer with a nested object. *)
Definition transfer : decl := obj [("memo", leaf_schema); ("wire", obj [("destination", leaf_schema); ("amount", leaf_schema)])].

Lemma declaration_read_exactly_witness :
  ascii_reading transfer = (Some [points "memo"; points "wire.amount"; points "wire.destination"], false, []) /\
  [points "memo"; points "wire.amount"; points "wire.destination"] ≡ₚ leaves (S MAX_DECLARED_DEPTH) transfer [].
Proof.
  assert (E : ascii_reading transfer = (Some [points "memo"; points "wire.amount"; points "wire.destination"], false, [])) by (vm_compute; reflexivity).
  split; [exact E|]. exact (proj1 (declaration_read_exactly _ _ _ _ _ transfer _ _ E)).
Defined.

(** A Cyrillic letter in a Latin name, and a name that minted a path, are marked. *)
Example lookalike_marked :
  ascii_reading (DDict [(1072 :: points "mount", leaf_schema); (points "amount", leaf_schema)])
  = (Some [points "amount"; 1072 :: points "mount"], false, [1072 :: points "mount"]).
Proof. vm_compute. reflexivity. Qed.

Example minted_path_marked :
  ascii_reading (obj [("wire", obj [("to", leaf_schema)]); ("wire.to", leaf_schema)])
  = (Some [points "wire.to"], true, [points "wire.to"]).
Proof. vm_compute. reflexivity. Qed.

(** The names of objects in a list of lists are neither published nor reported missing. *)
Example nested_list_hides_names :
  let array items := DDict [(points "type", DStr (points "array")); (points "items", items)] in
  ascii_reading (obj [("rows", array (array (obj [("sku", leaf_schema)])))]) = (Some [points "rows"], false, []) /\
  ascii_reading (obj [("rows", array (obj [("sku", leaf_schema)]))]) = (Some [points "rows"], true, []).
Proof. split; vm_compute; reflexivity. Qed.

(** A nested schema that gives its properties and no type is taken for a map with one argument called [properties]. *)
Example untyped_object_invents_a_name :
  ascii_reading (obj [("wire", DDict [(points "properties", DDict [(points "destination", leaf_schema)])])])
  = (Some [points "wire.properties"], false, []).
Proof. vm_compute. reflexivity. Qed.
