(* ===== verification/Fleet.v ===== *)
(** * Fleet policy distribution ([fleet/routers/fleet_policy.py], [fleet/bundle.py], [fleet_puller.py])

    A hub holds policies with selectors.  For each cluster it resolves the policies that apply to it, gives the
    set a version, signs it and serves it; the cluster's puller verifies the signature against its own trust
    root, checks the addressee, the time window and the version, applies the policies through its loader,
    deletes those of the manifest written last that this one does not bring, and reports.  Signatures, JSON and
    the loader are behind interfaces ([FleetLoader] has the loader's).  The theorems: what the resolution picks; that nothing but a verified, current and
    newer bundle changes a cluster, and never a scope the cluster manages itself; and that a cycle without
    faults puts in force what the hub resolves, whatever happened before, and touches no other key but those of
    the last manifest. *)

From stdpp Require Import sorting.
From S2P Require Import Prelude Text Json Auth.

Notation Key := (text * text)%type.       (* namespace and agent class *)

(** ** [fleet/bundle.py] *)

Definition RESERVED_SCOPES : list text :=
  map points ["__baseline__"; "__pack__"; "__pack_override__"; "__pack_weaken__"; "__controls__"; "__egress__"; "__mcp__"].
Definition is_reserved_scope (agent_class : text) : bool := bool_decide (agent_class ∈ RESERVED_SCOPES).

(** A policy as a bundle carries it, and the payload. *)
Record BundlePolicy := mkBundlePolicy {
  bp_namespace : text;
  bp_agent_class : text;
  bp_rego_source : text;
  bp_priority : Z;
  bp_enforcement_mode : text;
  bp_version : Z;
}.
Definition bp_key (p : BundlePolicy) : Key := (bp_namespace p, bp_agent_class p).

Record Payload := mkPayload {
  pl_cluster_id : text;
  pl_bundle_version : Z;
  pl_not_before : Z;             (* microseconds; a timestamp in a payload has whole seconds *)
  pl_expires_at : Z;
  pl_policies : list BundlePolicy;
}.

(** [rfc3339_z] of a time in microseconds, and [parse_rfc3339] of the text: the whole second. *)
Definition rfc3339_z (t : Z) : Z := t - t mod 1000000.

(** The order by namespace and agent class. *)
Definition key_le (a b : Key) : Prop := if bool_decide (a.1 = b.1) then text_le a.2 b.2 else text_le a.1 b.1.
#[global] Instance key_le_dec : RelDecision key_le.
Proof. intros a b. unfold key_le. destruct (bool_decide _); apply _. Defined.
Definition bp_le (p q : BundlePolicy) : Prop := key_le (bp_key p) (bp_key q).
#[global] Instance bp_le_dec : RelDecision bp_le.
Proof. intros a b. unfold bp_le. apply _. Defined.

(** What is signed: the payload with its policies in order. *)
Definition normalized (p : Payload) : Payload :=
  mkPayload (pl_cluster_id p) (pl_bundle_version p) (pl_not_before p) (pl_expires_at p) (merge_sort bp_le (pl_policies p)).

(** What is used of the JSON and JWS libraries: the canonical bytes of a payload, reading them back, signing with a private key
    and decoding with a public one ([None]: any failure). *)
Class Signing := {
  canonical_bytes : Payload -> text;
  loads : text -> Payload;
  jws_encode : text -> text -> text;              (* key, bytes *)
  jws_decode : text -> text -> option text;       (* public key, token *)
}.

(** The body of an answer: [None] where there is no token. *)
Record Body := mkBody { b_payload : Payload; b_jws : option text }.

Section Bundle.
Context `{Signing}.

Definition sign_bundle (p : Payload) (signing_key : text) : Body := mkBody p (Some (jws_encode signing_key (canonical_bytes p))).

(** [verify_bundle]; [None] is a [BundleVerifyError]. *)
Definition verify_bundle (body : Body) (pubkey : text) : option Payload :=
  if bool_decide (pubkey = []) then None
  else
    token ← b_jws body;
    if bool_decide (token = []) then None
    else
      verified ← jws_decode pubkey token;
      if bool_decide (canonical_bytes (b_payload body) = verified) then Some (loads verified) else None.
End Bundle.

(** ** The hub *)

Record FleetPolicy := mkFleetPolicy {
  fp_name : text;
  fp_namespace : text;
  fp_agent_class : text;
  fp_rego_source : text;
  fp_priority : Z;
  fp_enforcement_mode : text;
  fp_version : Z;
  fp_target_selector : list (text * text);
}.
Record Cluster := mkCluster {
  cl_id : text;
  cl_name : text;
  cl_endpoint : text;
  cl_console_url : text;
  cl_region : text;
  cl_labels : list (text * text);
  cl_bundle_version : Z;
  cl_residency : bool;
  cl_spiffe_id : text;
  cl_last_heartbeat : Z;
}.
Definition bumped (version : Z) (c : Cluster) : Cluster :=
  mkCluster (cl_id c) (cl_name c) (cl_endpoint c) (cl_console_url c) (cl_region c) (cl_labels c) version (cl_residency c) (cl_spiffe_id c) (cl_last_heartbeat c).
Record PolicyRollout := mkRollout { ro_version : Z; ro_state : text; ro_applied_version : Z; ro_detail : text }.

(** The tables; the policies in the order the database gives them. *)
Record Hub := mkHub { policies : list FleetPolicy; clusters : gmap text Cluster; rollouts : gmap text PolicyRollout }.

Definition fp_key (p : FleetPolicy) : Key := (fp_namespace p, fp_agent_class p).

(** The body of a push. *)
Record PolicyAuthorBody := mkAuthorBody {
  pa_name : text; pa_namespace : text; pa_agent_class : text; pa_rego_source : text; pa_priority : Z; pa_enforcement_mode : text;
  pa_target_selector : list (text * text); pa_confirm_fleet_wide : bool;
}.

(** The row with this name, replaced in its place or added. *)
Fixpoint upsert (p : FleetPolicy) (ps : list FleetPolicy) : list FleetPolicy :=
  match ps with
  | [] => [p]
  | q :: ps' => if bool_decide (fp_name q = fp_name p) then p :: ps' else q :: upsert p ps'
  end.

Definition CLUSTER_ID : text := points "cluster_id".

Definition author_policy (user : Claims) (body : PolicyAuthorBody) (h : Hub) : Hub * R (text * Z) :=
  match require_admin user with
  | inl e => (h, inl e)
  | inr _ =>
      let target := default [] (field CLUSTER_ID (pa_target_selector body)) in
      if is_reserved_scope (pa_agent_class body) then (h, inl (Http 422 "managed per-cluster scope"))
      else if bool_decide (target = []) && negb (pa_confirm_fleet_wide body) then (h, inl (Http 422 "requires confirm_fleet_wide"))
      else match (if bool_decide (target = []) then mret VNull else scoped_cluster user (VStr target)) with
           | inl e => (h, inl e)
           | inr _ =>
               let version := match list_find (fun p => fp_name p = pa_name body) (policies h) with
                              | Some (_, p) => fp_version p + 1 | None => 1 end in
               let p := mkFleetPolicy (pa_name body) (pa_namespace body) (pa_agent_class body) (pa_rego_source body) (pa_priority body)
                          (pa_enforcement_mode body) version (pa_target_selector body) in
               (mkHub (upsert p (policies h)) (clusters h) (rollouts h), inr (pa_name body, version))
           end
  end.

Definition retract_policy (user : Claims) (name : text) (h : Hub) : Hub * R unit :=
  match require_admin user with
  | inl e => (h, inl e)
  | inr _ =>
      match list_find (fun p => fp_name p = name) (policies h) with
      | None => (h, inl (Http 404 "fleet policy not found"))
      | Some _ => (mkHub (filter (fun p => fp_name p <> name) (policies h)) (clusters h) (rollouts h), inr tt)
      end
  end.

(** The validators of [HeartbeatBody]: [_SAFE_URL] ignores case, so that the s of its scheme matches the long one too. *)
Definition either_case (lo c : Z) : bool := (c =? lo) || (c =? lo - 32).
Definition safe_url (v : text) : bool :=
  match v with
  | h :: t1 :: t2 :: p :: rest =>
      either_case 104 h && either_case 116 t1 && either_case 116 t2 && either_case 112 p &&
      (tstarts (points "://") rest || match rest with c :: rest' => (either_case 115 c || (c =? 383)) && tstarts (points "://") rest' | [] => false end)
  | _ => false
  end.
Definition validated_url (v : text) : text := let v := tstrip v in if safe_url v then v else [].

Record HeartbeatBody := mkHeartbeat {
  hb_name : text; hb_endpoint : text; hb_region : text; hb_labels : list (text * text); hb_residency : bool; hb_spiffe_id : text; hb_console_url : text;
}.

(** [heartbeat], with the body as it is validated; a new row has the version's default. *)
Definition heartbeat (user : Claims) (cluster_id : text) (body : HeartbeatBody) (now : Z) (h : Hub) : Hub * R unit :=
  match require_admin_or_service user, scoped_cluster user (VStr cluster_id) with
  | inl e, _ | _, inl e => (h, inl e)
  | inr _, inr _ =>
      let version := match clusters h !! cluster_id with Some c => cl_bundle_version c | None => 0 end in
      let c := mkCluster cluster_id (hb_name body) (validated_url (hb_endpoint body)) (validated_url (hb_console_url body)) (hb_region body)
                 (hb_labels body) version (hb_residency body) (hb_spiffe_id body) now in
      (mkHub (policies h) (<[cluster_id := c]> (clusters h)) (rollouts h), inr tt)
  end.

(** A policy for exactly this cluster, and a policy whose selector its labels satisfy. *)
Definition is_override (c : Cluster) (p : FleetPolicy) : bool := bool_decide (field CLUSTER_ID (fp_target_selector p) = Some (cl_id c)).
Definition selects (c : Cluster) (p : FleetPolicy) : bool :=
  if is_override c p then true
  else match field CLUSTER_ID (fp_target_selector p) with
       | Some _ => false
       | None => forallb (fun f => bool_decide (field f.1 (cl_labels c) = Some f.2)) (fp_target_selector p)
       end.

(** The loop of [_resolve_for_cluster]. *)
Fixpoint choose (c : Cluster) (ps : list FleetPolicy) (chosen : gmap Key (bool * FleetPolicy)) : gmap Key (bool * FleetPolicy) :=
  match ps with
  | [] => chosen
  | p :: ps' =>
      if is_reserved_scope (fp_agent_class p) || negb (selects c p) then choose c ps' chosen
      else match chosen !! fp_key p with
           | None => choose c ps' (<[fp_key p := (is_override c p, p)]> chosen)
           | Some (prev, _) =>
               if is_override c p && negb prev then choose c ps' (<[fp_key p := (is_override c p, p)]> chosen) else choose c ps' chosen
           end
  end.

Definition bundle_of (p : FleetPolicy) : BundlePolicy :=
  mkBundlePolicy (fp_namespace p) (fp_agent_class p) (fp_rego_source p) (fp_priority p) (fp_enforcement_mode p) (fp_version p).

Definition resolve_for_cluster (ps : list FleetPolicy) (c : Cluster) : list BundlePolicy :=
  merge_sort bp_le (map (fun kv => bundle_of kv.2.2) (map_to_list (choose c ps ∅))).

Section Hub.
Context `{Signing} (digest : list BundlePolicy -> text).       (* the hex digest of [repr(resolved)] *)
Context (signing_key : text) (ttl : Z).       (* [ttl] in microseconds *)

(** [get_bundle], at the time [now]. *)
Definition get_bundle (user : Claims) (cluster_id : text) (now : Z) (h : Hub) : Hub * R Body :=
  match require_admin_or_service user, scoped_cluster user (VStr cluster_id) with
  | inl e, _ | _, inl e => (h, inl e)
  | inr _, inr _ =>
      if bool_decide (signing_key = []) then (h, inl (Http 503 "fleet signing key not configured"))
      else match clusters h !! cluster_id with
           | None => (h, inl (Http 404 "cluster not registered"))
           | Some c =>
               let resolved := resolve_for_cluster (policies h) c in
               let unchanged := match rollouts h !! cluster_id with Some r => bool_decide (ro_detail r = digest resolved) | None => false end
                                && negb (cl_bundle_version c =? 0) in
               let version := if unchanged then cl_bundle_version c else cl_bundle_version c + 1 in
               let h' := if unchanged then h
                         else mkHub (policies h) (<[cluster_id := bumped version c]> (clusters h))
                                (<[cluster_id := mkRollout version (points "pending")
                                     (match rollouts h !! cluster_id with Some r => ro_applied_version r | None => 0 end) (digest resolved)]> (rollouts h)) in
               (h', inr (sign_bundle (mkPayload cluster_id version (rfc3339_z now) (rfc3339_z (now + ttl)) resolved) signing_key))
           end
  end.

(** What a spoke reports. *)
Record RolloutReport := mkReport { rr_bundle_version : Z; rr_state : text; rr_applied_version : Z; rr_detail : text }.

Definition report_rollout (user : Claims) (cluster_id : text) (body : RolloutReport) (h : Hub) : Hub * R text :=
  match require_admin_or_service user, scoped_cluster user (VStr cluster_id) with
  | inl e, _ | _, inl e => (h, inl e)
  | inr _, inr _ =>
      let expected := match rollouts h !! cluster_id with Some r => ro_version r | None => rr_bundle_version body end in
      let state := if bool_decide (rr_state body = points "applied")
                   then (if rr_applied_version body =? expected then points "applied" else points "diverged")
                   else points "failed" in
      (mkHub (policies h) (clusters h) (<[cluster_id := mkRollout expected state (rr_applied_version body) (rr_detail body)]> (rollouts h)), inr state)
  end.
End Hub.

(** ** The spoke *)

(** A policy as the loader saves it. *)
Record Policy := mkPolicy { po_rego_source : text; po_priority : Z; po_enforcement_mode : text; po_saved_by : text }.

(** What a loader has in force, by key, and a change of one key. *)
Notation InForce := (Key -> option Policy).
#[global] Instance in_force_lookup : Lookup Key Policy InForce := fun k f => f k.
Definition set_policy (k : Key) (p : option Policy) (f : InForce) : InForce := fun k' => if bool_decide (k' = k) then p else f k'.

(** What the puller needs of the loader: saving and deleting, each of which may raise, with or without having taken effect.  [FleetLoader]
    shows that the operations of [engine/policy_loader.py] keep this. *)
Class PolicyLoader (L : Type) := {
  enforced : L -> InForce;
  create_policy : Key -> Policy -> L -> L * bool;       (* [false]: it raised *)
  remove_policy : Key -> L -> L * bool;
  create_done : forall k p l, (create_policy k p l).2 = true -> forall k', enforced (create_policy k p l).1 !! k' = set_policy k (Some p) (enforced l) !! k';
  create_raised : forall k p l, (create_policy k p l).2 = false ->
    (forall k', enforced (create_policy k p l).1 !! k' = enforced l !! k') \/
    (forall k', enforced (create_policy k p l).1 !! k' = set_policy k (Some p) (enforced l) !! k');
  remove_done : forall k l, (remove_policy k l).2 = true -> forall k', enforced (remove_policy k l).1 !! k' = set_policy k None (enforced l) !! k';
  remove_raised : forall k l, (remove_policy k l).2 = false ->
    (forall k', enforced (remove_policy k l).1 !! k' = enforced l !! k') \/
    (forall k', enforced (remove_policy k l).1 !! k' = set_policy k None (enforced l) !! k');
}.

Lemma set_policy_eq k p (f : InForce) : set_policy k p f !! k = p.
Proof. unfold lookup, in_force_lookup, set_policy. by rewrite bool_decide_true. Qed.

Lemma set_policy_ne k k' p (f : InForce) : k' <> k -> set_policy k p f !! k' = f !! k'.
Proof. intros N. unfold lookup, in_force_lookup, set_policy. by rewrite bool_decide_false. Qed.

(** The row of [FleetBundleState]: the version and the manifest of the last bundle applied in full. *)
Record BundleState := mkState { bs_version : Z; bs_manifest : list text }.

(** [f"{namespace}:{agent_class}"], and [key.partition(":")] back. *)
Definition key_text (k : Key) : text := k.1 ++ 58 :: k.2.
Definition unkey (t : text) : Key :=
  (take_while (fun c => negb (c =? 58)) t, tail (drop_while (fun c => negb (c =? 58)) t)).

Section Puller.
Context `{Signing} {L : Type} `{!PolicyLoader L}.
Context (cluster_id pubkey : text).
Context (saved_by : Z -> text) (error_text : text).      (* [f"fleet:bundle:{version}"], [str(exc)[:200]] *)

Record Spoke := mkSpoke { loader : L; row : option BundleState }.

(** How the three statements on the row go: the two reads may raise, the write may raise with or without effect. *)
Inductive Write := Written | Unwritten | Unanswered.
Record Faults := mkFaults { first_read : bool; second_read : bool; write : Write }.
Definition no_faults : Faults := mkFaults true true Written.

Inductive Pull := Applied (version : Z) | NotApplied (reason : string) | PullRaised.

Definition last_applied (s : Spoke) : Z := match row s with Some r => bs_version r | None => 0 end.

Definition policy_of (version : Z) (p : BundlePolicy) : Policy :=
  mkPolicy (bp_rego_source p) (bp_priority p) (bp_enforcement_mode p) (saved_by version).

Fixpoint create_all (version : Z) (ps : list BundlePolicy) (l : L) : L * bool :=
  match ps with
  | [] => (l, true)
  | p :: ps' => match create_policy (bp_key p) (policy_of version p) l with (l', true) => create_all version ps' l' | r => r end
  end.

(** [_dropped_keys]: keys of the last bundle that are not in the new manifest. *)
Definition dropped_keys (manifest : list text) (s : Spoke) : list text :=
  filter (fun k => k ∉ manifest) (match row s with Some r => bs_manifest r | None => [] end).

Fixpoint remove_all (ks : list text) (l : L) : L * bool :=
  match ks with
  | [] => (l, true)
  | k :: ks' =>
      if is_reserved_scope (unkey k).2 then remove_all ks' l
      else match remove_policy (unkey k) l with (l', true) => remove_all ks' l' | r => r end
  end.

Definition applicable (p : Payload) : list BundlePolicy := filter (fun q => is_reserved_scope (bp_agent_class q) = false) (pl_policies p).
Definition manifest_of (ps : list BundlePolicy) : list text := merge_sort text_le (map (fun q => key_text (bp_key q)) ps).

(** [pull_once] from the answer of the hub on, with what it reports. *)
Definition pull_once (fs : Faults) (body : Body) (now : Z) (s : Spoke) : Spoke * Pull * option RolloutReport :=
  match verify_bundle body pubkey with
  | None => (s, NotApplied "verify_failed", None)
  | Some payload =>
      if negb (bool_decide (pl_cluster_id payload = cluster_id)) then (s, NotApplied "wrong_cluster", None)
      else if now <? pl_not_before payload then (s, NotApplied "not_before", None)
      else if pl_expires_at payload <? now then (s, NotApplied "expired", None)
      else if negb (first_read fs) then (s, PullRaised, None)
      else
        let version := pl_bundle_version payload in
        let last := last_applied s in
        if version <=? last then (s, NotApplied "not_newer", None)
        else
          let ps := applicable payload in
          let manifest := manifest_of ps in
          let failed l := (mkSpoke l (row s), NotApplied "apply_failed", Some (mkReport version (points "failed") last error_text)) in
          match create_all version ps (loader s) with
          | (l, false) => failed l
          | (l, true) =>
              if negb (second_read fs) then failed l
              else match remove_all (dropped_keys manifest s) l with
                   | (l, false) => failed l
                   | (l, true) =>
                       let new := mkSpoke l (Some (mkState version manifest)) in
                       match write fs with
                       | Written => (new, Applied version, Some (mkReport version (points "applied") version []))
                       | Unwritten => (mkSpoke l (row s), PullRaised, None)
                       | Unanswered => (new, PullRaised, None)
                       end
                   end
          end
  end.

(** *** What the loops do to the loader *)

Lemma create_step k p l : forall k', k' <> k -> enforced (create_policy k p l).1 !! k' = enforced l !! k'.
Proof.
  intros k' N. destruct (create_policy k p l).2 eqn:E; [rewrite create_done by done|destruct (create_raised k p l E) as [R|R]; rewrite R]; try done;
    by apply set_policy_ne.
Qed.

Lemma remove_step k l : forall k', k' <> k -> enforced (remove_policy k l).1 !! k' = enforced l !! k'.
Proof.
  intros k' N. destruct (remove_policy k l).2 eqn:E; [rewrite remove_done by done|destruct (remove_raised k l E) as [R|R]; rewrite R]; try done;
    by apply set_policy_ne.
Qed.

Lemma create_all_other version ps : forall l k, (forall p, p ∈ ps -> bp_key p <> k) -> enforced (create_all version ps l).1 !! k = enforced l !! k.
Proof.
  induction ps as [|p ps IH]; intros l k N; simpl; [done|]. pose proof (create_step (bp_key p) (policy_of version p) l k) as S.
  destruct (create_policy _ _ l) as [l' []]; simpl in S.
  - rewrite IH by (intros q Iq; apply N; by right). apply S. intros E. by apply (N p); [left|].
  - apply S. intros E. by apply (N p); [left|].
Qed.

Lemma create_all_done version ps : NoDup (map bp_key ps) -> forall l, (create_all version ps l).2 = true ->
  forall p, p ∈ ps -> enforced (create_all version ps l).1 !! bp_key p = Some (policy_of version p).
Proof.
  induction ps as [|q ps IH]; intros ND l E p I; [by apply elem_of_nil in I|]. simpl in *. apply NoDup_cons in ND as [Nq ND].
  pose proof (create_done (bp_key q) (policy_of version q) l) as D. destruct (create_policy _ _ l) as [l' []]; [|done]. simpl in D.
  apply elem_of_cons in I as [->|I]; [|by apply IH]. rewrite create_all_other; [by rewrite D, set_policy_eq|].
  intros r Ir Er. apply Nq. rewrite <- Er. by apply (list_elem_of_fmap_2 bp_key).
Qed.

Lemma remove_all_other ks : forall l k, (forall t, t ∈ ks -> is_reserved_scope (unkey t).2 = false -> unkey t <> k) ->
  enforced (remove_all ks l).1 !! k = enforced l !! k.
Proof.
  induction ks as [|t ks IH]; intros l k N; cbn [remove_all]; [done|].
  assert (N' : forall t', t' ∈ ks -> is_reserved_scope (unkey t').2 = false -> unkey t' <> k) by (intros t' I; apply N; by right).
  destruct (is_reserved_scope (unkey t).2) eqn:R; [by apply IH|]. pose proof (remove_step (unkey t) l k) as S.
  assert (Nt : k <> unkey t) by (intros ->; by apply (N t); [left| |]).
  destruct (remove_policy _ l) as [l' []]; simpl in S; [rewrite IH by done|]; by apply S.
Qed.

Lemma remove_all_done ks : forall l, (remove_all ks l).2 = true ->
  forall t, t ∈ ks -> is_reserved_scope (unkey t).2 = false -> enforced (remove_all ks l).1 !! unkey t = None.
Proof.
  induction ks as [|u ks IH]; intros l E t I R; [by apply elem_of_nil in I|]. cbn [remove_all] in *.
  destruct (is_reserved_scope (unkey u).2) eqn:Ru.
  { apply elem_of_cons in I as [->|I]; [congruence|by apply IH]. }
  pose proof (remove_done (unkey u) l) as D. destruct (remove_policy _ l) as [l' []]; [|done]. simpl in D.
  destruct (decide (t ∈ ks)) as [J|J]; [by apply IH|]. apply elem_of_cons in I as [->|I]; [|done].
  destruct (decide (Exists (fun v => is_reserved_scope (unkey v).2 = false /\ unkey v = unkey u) ks)) as [(v & Iv & Rv & Ev)%Exists_exists|N].
  - rewrite <- Ev. by apply IH.
  - rewrite remove_all_other; [by rewrite D, set_policy_eq|]. intros v Iv Rv Ev. apply N, Exists_exists. by exists v.
Qed.

(** *** Keys as text *)

Lemma key_text_partition t : 58 ∈ t -> key_text (unkey t) = t.
Proof.
  unfold key_text, unkey. cbn [fst snd]. induction t as [|c t IH]; [by intros ?%elem_of_nil|]. cbn [take_while drop_while].
  destruct (c =? 58) eqn:E; cbn [negb]; bool_prop; [by subst|]. intros [Ec|I]%elem_of_cons; [by subst|]. simpl. by rewrite IH.
Qed.

Lemma key_text_colon k : 58 ∈ key_text k.
Proof. unfold key_text. apply elem_of_app. right. by left. Qed.

(** The manifest of the row holds keys. *)
Definition row_ok (s : Spoke) : Prop := match row s with Some r => Forall (fun t => 58 ∈ t) (bs_manifest r) | None => True end.

Lemma manifest_elem ps t : t ∈ manifest_of ps <-> exists q, q ∈ ps /\ t = key_text (bp_key q).
Proof.
  unfold manifest_of. rewrite (merge_sort_Permutation text_le), list_elem_of_fmap. naive_solver.
Qed.

Lemma manifest_colon ps : Forall (fun t => 58 ∈ t) (manifest_of ps).
Proof. apply Forall_forall. intros t (q & _ & ->)%manifest_elem. apply key_text_colon. Qed.

(** A key that is dropped is not one of the new bundle. *)
Lemma dropped_not_new ps s t q : row_ok s -> t ∈ dropped_keys (manifest_of ps) s -> q ∈ ps -> unkey t <> bp_key q.
Proof.
  intros O I J E. unfold dropped_keys in I. apply list_elem_of_filter in I as [N I]. apply N, manifest_elem. exists q. split; [done|].
  unfold row_ok in O. destruct (row s) as [r|]; [|by apply elem_of_nil in I]. rewrite Forall_forall in O.
  rewrite <- E. symmetry. by apply key_text_partition, O.
Qed.

(** *** What a pull does *)

(** The bundle is signed by the trust root, for this cluster, current and newer. *)
Definition accepted (body : Body) (now : Z) (s : Spoke) (p : Payload) : Prop :=
  verify_bundle body pubkey = Some p /\ pl_cluster_id p = cluster_id /\ pl_not_before p <= now <= pl_expires_at p /\
  last_applied s < pl_bundle_version p.

(** The bundle is in force in full. *)
Definition in_force (p : Payload) (s s' : Spoke) : Prop :=
  row s' = Some (mkState (pl_bundle_version p) (manifest_of (applicable p))) /\
  (NoDup (map bp_key (applicable p)) -> row_ok s -> forall q, q ∈ applicable p -> enforced (loader s') !! bp_key q = Some (policy_of (pl_bundle_version p) q)) /\
  (forall t, t ∈ dropped_keys (manifest_of (applicable p)) s -> is_reserved_scope (unkey t).2 = false -> enforced (loader s') !! unkey t = None).

(** What a pull does not touch. *)
Definition untouched (p : Payload) (s : Spoke) (k : Key) : Prop :=
  (forall q, q ∈ applicable p -> bp_key q <> k) /\
  (forall t, t ∈ dropped_keys (manifest_of (applicable p)) s -> is_reserved_scope (unkey t).2 = false -> unkey t <> k).

Inductive pulled (body : Body) (now : Z) (s : Spoke) : Spoke * Pull * option RolloutReport -> Prop :=
  | pulled_nothing o : (forall v, o <> Applied v) -> pulled body now s (s, o, None)
  | pulled_part p s' o rep : accepted body now s p -> row s' = row s -> (forall v, o <> Applied v) ->
      (forall k, untouched p s k -> enforced (loader s') !! k = enforced (loader s) !! k) ->
      (forall r, rep = Some r -> rr_detail r = error_text) ->
      pulled body now s (s', o, rep)
  | pulled_all p s' o rep : accepted body now s p -> in_force p s s' -> (forall v, o = Applied v -> v = pl_bundle_version p) ->
      (forall k, untouched p s k -> enforced (loader s') !! k = enforced (loader s) !! k) ->
      (forall r, rep = Some r -> rr_detail r = []) ->
      pulled body now s (s', o, rep).

Lemma pull_once_spec fs body now s : pulled body now s (pull_once fs body now s).
Proof.
  unfold pull_once. destruct (verify_bundle body pubkey) as [p|] eqn:V; [|by apply pulled_nothing].
  case_bool_decide as Cl; simpl; [|by apply pulled_nothing].
  destruct (now <? pl_not_before p) eqn:Nb; [by apply pulled_nothing|]. destruct (pl_expires_at p <? now) eqn:Ex; [by apply pulled_nothing|].
  destruct (first_read fs); simpl; [|by apply pulled_nothing].
  destruct (pl_bundle_version p <=? last_applied s) eqn:Ve; [by apply pulled_nothing|]. bool_prop.
  assert (A : accepted body now s p) by (repeat split; try done; lia).
  pose proof (create_all_other (pl_bundle_version p) (applicable p) (loader s)) as Co.
  pose proof (fun N => create_all_done (pl_bundle_version p) (applicable p) N (loader s)) as Cd.
  destruct (create_all _ _ (loader s)) as [l []]; simpl in Co, Cd.
  2:{ apply (pulled_part _ _ _ p); try done; [intros k [U _]; by apply Co|by intros r [= <-]]. }
  destruct (second_read fs); simpl.
  2:{ apply (pulled_part _ _ _ p); try done; [intros k [U _]; by apply Co|by intros r [= <-]]. }
  pose proof (remove_all_other (dropped_keys (manifest_of (applicable p)) s) l) as Ro.
  pose proof (remove_all_done (dropped_keys (manifest_of (applicable p)) s) l) as Rd.
  destruct (remove_all _ l) as [l' []]; simpl in Ro, Rd.
  2:{ apply (pulled_part _ _ _ p); try done; [intros k [U1 U2]; simpl; rewrite Ro by done; by apply Co|by intros r [= <-]]. }
  assert (U : forall k, untouched p s k -> enforced l' !! k = enforced (loader s) !! k) by (intros k [U1 U2]; rewrite Ro by done; by apply Co).
  assert (F : in_force p s (mkSpoke l' (Some (mkState (pl_bundle_version p) (manifest_of (applicable p)))))).
  { split; [done|]. split; [|by intros t It Rt; apply Rd]. intros N O q Iq. simpl. rewrite Ro; [by apply Cd|].
    intros t It _. by eapply dropped_not_new. }
  destruct (write fs).
  - apply (pulled_all _ _ _ p); [done|done|by intros v [= <-]|exact U|by intros r [= <-]].
  - by apply (pulled_part _ _ _ p).
  - by apply (pulled_all _ _ _ p).
Qed.

Lemma reserved_untouched p s k : is_reserved_scope k.2 = true -> untouched p s k.
Proof.
  intros R. split; [intros q Iq <-|intros t _ Rt <-; congruence]. apply list_elem_of_filter in Iq as [Nq _]. simpl in R. congruence.
Qed.

(** C35: Nothing but a verified, current and newer bundle changes a cluster.  Whatever the hub or anyone in between answers and
    whatever fails: the policies and the row stay as they are unless the token verifies under the cluster's own trust root and
    covers exactly the payload, which names this cluster, is in its time window and is newer than what was applied; a scope the
    cluster manages itself is never touched; and the applied version never goes back. *)
Theorem bundle_is_guarded fs body now s :
  let r := pull_once fs body now s in let s' := r.1.1 in
  (s' = s \/ exists token, pubkey <> [] /\ b_jws body = Some token /\ jws_decode pubkey token = Some (canonical_bytes (b_payload body)) /\
     let p := loads (canonical_bytes (b_payload body)) in
     pl_cluster_id p = cluster_id /\ pl_not_before p <= now <= pl_expires_at p /\ last_applied s < pl_bundle_version p) /\
  (forall k, is_reserved_scope k.2 = true -> enforced (loader s') !! k = enforced (loader s) !! k) /\
  last_applied s <= last_applied s' /\
  (forall v, r.1.2 = Applied v -> last_applied s < v /\ last_applied s' = v).
Proof.
  cbv zeta. assert (Ac : forall p, accepted body now s p -> exists token, pubkey <> [] /\ b_jws body = Some token /\
    jws_decode pubkey token = Some (canonical_bytes (b_payload body)) /\ pl_cluster_id (loads (canonical_bytes (b_payload body))) = cluster_id /\
    pl_not_before (loads (canonical_bytes (b_payload body))) <= now <= pl_expires_at (loads (canonical_bytes (b_payload body))) /\
    last_applied s < pl_bundle_version (loads (canonical_bytes (b_payload body)))).
  { intros p (V & A). unfold verify_bundle in V. case_bool_decide; [done|]. destruct (b_jws body) as [token|]; [|done]. simpl in V.
    case_bool_decide; [done|]. destruct (jws_decode pubkey token) as [bytes|] eqn:J; [|done]. simpl in V. case_bool_decide; [|done].
    subst bytes. injection V as ->. exists token. by split_and!; try apply A. }
  destruct (pull_once_spec fs body now s) as [o No|p s' o rep A Rw No U _|p s' o rep A F Av U _]; cbn [fst snd].
  - split; [by left|]. split; [done|]. split; [done|]. intros v ->. by destruct (No v).
  - split; [right; by apply (Ac p)|]. split; [intros k R; by apply U, reserved_untouched|].
    unfold last_applied. rewrite Rw. split; [done|]. intros v ->. by destruct (No v).
  - pose proof A as (_ & _ & _ & Nw). assert (Lv : last_applied s' = pl_bundle_version p) by (unfold last_applied; by rewrite (proj1 F)).
    split; [right; by apply (Ac p)|]. split; [intros k R; by apply U, reserved_untouched|]. rewrite Lv. split; [lia|].
    intros v E. by rewrite (Av v E).
Qed.
End Puller.

(** ** What the hub resolves *)

(** The policies for a key of a cluster, and the one that wins: a policy for exactly this cluster before any other, and of these
    the first. *)
Definition candidates_for (c : Cluster) (ps : list FleetPolicy) (k : Key) : list FleetPolicy :=
  filter (fun p => fp_key p = k /\ is_reserved_scope (fp_agent_class p) = false /\ selects c p = true) ps.
Definition pick (c : Cluster) (ps : list FleetPolicy) (k : Key) : option FleetPolicy :=
  match head (filter (fun p => is_override c p = true) (candidates_for c ps k)) with Some p => Some p | None => head (candidates_for c ps k) end.

Lemma choose_lookup c ps k : forall chosen, choose c ps chosen !! k =
  match chosen !! k with
  | Some (true, p) => Some (true, p)
  | Some (false, p) => Some (match head (filter (fun p => is_override c p = true) (candidates_for c ps k)) with Some q => (true, q) | None => (false, p) end)
  | None => (fun p => (is_override c p, p)) <$> pick c ps k
  end.
Proof.
  induction ps as [|p ps IH]; intros chosen; cbn [choose].
  { destruct (chosen !! k) as [[[] q]|]; done. }
  assert (Cs : candidates_for c (p :: ps) k = if bool_decide (fp_key p = k /\ is_reserved_scope (fp_agent_class p) = false /\ selects c p = true)
    then p :: candidates_for c ps k else candidates_for c ps k).
  { unfold candidates_for. case_bool_decide; [by rewrite filter_cons_True|by rewrite filter_cons_False]. }
  unfold pick. rewrite Cs. clear Cs. destruct (is_reserved_scope (fp_agent_class p) || negb (selects c p)) eqn:Sk.
  { rewrite bool_decide_false; [apply IH|]. intros (_ & R & Se). by rewrite R, Se in Sk. }
  apply orb_false_iff in Sk as [R Se%negb_false_iff]. destruct (decide (fp_key p = k)) as [<-|N].
  - rewrite bool_decide_true by done. destruct (is_override c p) eqn:Ov.
    + rewrite filter_cons_True by done. cbn [head]. destruct (chosen !! fp_key p) as [[[] q]|] eqn:L; cbn [andb negb].
      * by rewrite IH, L.
      * by rewrite IH, lookup_insert_eq.
      * rewrite IH, lookup_insert_eq. simpl. by rewrite Ov.
    + rewrite filter_cons_False by (simpl; congruence). cbn [head andb]. destruct (chosen !! fp_key p) as [[[] q]|] eqn:L.
      * by rewrite IH, L.
      * by rewrite IH, L.
      * rewrite IH, lookup_insert_eq. destruct (head (filter _ (candidates_for c ps (fp_key p)))) as [q|] eqn:Hd; simpl; [|by rewrite Ov].
        f_equal. f_equal. symmetry. apply head_Some_elem_of in Hd. by apply list_elem_of_filter in Hd as [? _].
  - rewrite bool_decide_false by naive_solver. fold (pick c ps k).
    destruct (chosen !! fp_key p) as [[prev q]|]; [destruct (is_override c p && negb prev)|]; rewrite IH; by rewrite ?lookup_insert_ne by done.
Qed.

Lemma pick_spec c ps k p : pick c ps k = Some p -> p ∈ ps /\ fp_key p = k /\ is_reserved_scope (fp_agent_class p) = false /\ selects c p = true.
Proof.
  intros E. assert (I : p ∈ candidates_for c ps k).
  { unfold pick in E. destruct (head (filter _ _)) as [q|] eqn:Hd; [injection E as ->|]; apply head_Some_elem_of in Hd || apply head_Some_elem_of in E; [|done].
    by apply list_elem_of_filter in Hd as [_ ?]. }
  unfold candidates_for in I. apply list_elem_of_filter in I as [? ?]. naive_solver.
Qed.

(** The bundle of a cluster has for each key the policy that wins, and nothing else; no key twice, and no managed scope. *)
Theorem resolve_picks ps c :
  (forall q, q ∈ resolve_for_cluster ps c <-> exists p, pick c ps (fp_key p) = Some p /\ q = bundle_of p) /\
  NoDup (map bp_key (resolve_for_cluster ps c)) /\ Forall (fun q => is_reserved_scope (bp_agent_class q) = false) (resolve_for_cluster ps c).
Proof.
  assert (El : forall k b p, (k, (b, p)) ∈ map_to_list (choose c ps ∅) <-> pick c ps k = Some p /\ b = is_override c p).
  { intros k b p. rewrite elem_of_map_to_list, choose_lookup, lookup_empty. destruct (pick c ps k); simpl; naive_solver. }
  assert (Pe : resolve_for_cluster ps c ≡ₚ map (fun kv => bundle_of kv.2.2) (map_to_list (choose c ps ∅))) by apply merge_sort_Permutation.
  assert (Q : forall q, q ∈ resolve_for_cluster ps c <-> exists p, pick c ps (fp_key p) = Some p /\ q = bundle_of p).
  { intros q. rewrite Pe, list_elem_of_fmap. split.
    - intros ([k [b p]] & -> & I). apply El in I as [I _]. exists p. split; [|done]. destruct (pick_spec _ _ _ _ I) as (_ & -> & _). done.
    - intros (p & I & ->). exists (fp_key p, (is_override c p, p)). split; [done|]. by apply El. }
  split; [done|]. split.
  - rewrite Pe, map_map. rewrite (map_ext_in _ fst); [apply NoDup_fst_map_to_list|]. intros [k [b p]] I.
    rewrite <- list_elem_of_In in I. apply El in I as [I _]. by destruct (pick_spec _ _ _ _ I) as (_ & <- & _).
  - apply Forall_forall. intros q (p & I & ->)%Q. by destruct (pick_spec _ _ _ _ I) as (_ & _ & ? & _).
Qed.

(** ** Hub and spoke together *)

(** What is used of the signature and JSON libraries: the spoke's key opens what the hub's key signed, tokens are not empty, and the
    canonical bytes are read back as the payload in canonical order. *)
Class SigningLaws `{Signing} (signing_key pubkey : text) : Prop := {
  pubkey_given : pubkey <> [];
  token_given : forall bytes, jws_encode signing_key bytes <> [];
  jws_round : forall bytes, jws_decode pubkey (jws_encode signing_key bytes) = Some bytes;
  canonical_round : forall p, loads (canonical_bytes p) = normalized p;
}.

Section Joint.
Context `{Signing} {L : Type} `{!PolicyLoader L}.
Context (digest : list BundlePolicy -> text) (signing_key pubkey cluster_id : text) (ttl : Z) (saved_by : Z -> text) (error_text : text).
Context `{!SigningLaws signing_key pubkey}.
Context (digest_inj : forall R R', digest R = digest R' -> R = R') (digest_given : forall R, digest R <> []).

Notation get_bundle := (get_bundle digest signing_key ttl).
Notation pull_once := (pull_once cluster_id pubkey saved_by error_text).

(** What happens: a push, a retraction, a heartbeat of any cluster, or a cycle of the puller with its faults, the clocks of the two sides, and whether the report
    arrives. *)
Inductive Act :=
  | Author (user : Claims) (body : PolicyAuthorBody)
  | Retract (user : Claims) (name : text)
  | Heartbeat (user : Claims) (id : text) (body : HeartbeatBody) (now : Z)
  | Cycle (user : Claims) (fs : Faults) (hub_now spoke_now : Z) (delivered : bool).

Definition cycle (user : Claims) (fs : Faults) (hub_now spoke_now : Z) (delivered : bool) (h : Hub) (s : Spoke) : Hub * Spoke :=
  match get_bundle user cluster_id hub_now h with
  | (h', inl _) => (h', s)
  | (h', inr body) =>
      let '(s', _, rep) := pull_once fs body spoke_now s in
      (match rep with Some r => if delivered then (report_rollout user cluster_id r h').1 else h' | None => h' end, s')
  end.

Definition act (a : Act) (hs : Hub * Spoke) : Hub * Spoke :=
  match a with
  | Author user body => ((author_policy user body hs.1).1, hs.2)
  | Retract user name => ((retract_policy user name hs.1).1, hs.2)
  | Heartbeat user id body now => ((heartbeat user id body now hs.1).1, hs.2)
  | Cycle user fs hub_now spoke_now delivered => cycle user fs hub_now spoke_now delivered hs.1 hs.2
  end.

(** The spoke has this set in force, under the version of its row. *)
Definition agrees (R : list BundlePolicy) (s : Spoke) : Prop :=
  row s = Some (mkState (last_applied s) (manifest_of R)) /\
  forall q, q ∈ R -> enforced (loader s) !! bp_key q = Some (policy_of saved_by (last_applied s) q).

Definition joint_ok (h : Hub) (s : Spoke) : Prop :=
  exists c, clusters h !! cluster_id = Some c /\ 0 <= last_applied s <= cl_bundle_version c /\ row_ok s /\
    forall r R, rollouts h !! cluster_id = Some r -> ro_detail r = digest R -> last_applied s = cl_bundle_version c -> 0 < cl_bundle_version c -> agrees R s.

Lemma author_keeps user body h : clusters (author_policy user body h).1 = clusters h /\ rollouts (author_policy user body h).1 = rollouts h.
Proof. unfold author_policy. repeat (case_match; try done). Qed.

Lemma retract_keeps user name h : clusters (retract_policy user name h).1 = clusters h /\ rollouts (retract_policy user name h).1 = rollouts h.
Proof. unfold retract_policy. repeat (case_match; try done). Qed.

(** The bundle that is served, and the hub after it. *)
Lemma served user now h s h' body : joint_ok h s -> get_bundle user cluster_id now h = (h', inr body) ->
  exists c c' r R, clusters h !! cluster_id = Some c /\ R = resolve_for_cluster (policies h) c /\ policies h' = policies h /\
    clusters h' !! cluster_id = Some c' /\ cl_id c' = cl_id c /\ cl_labels c' = cl_labels c /\
    rollouts h' !! cluster_id = Some r /\ ro_detail r = digest R /\
    body = sign_bundle (mkPayload cluster_id (cl_bundle_version c') (rfc3339_z now) (rfc3339_z (now + ttl)) R) signing_key /\
    0 < cl_bundle_version c' /\ last_applied s <= cl_bundle_version c' /\ (last_applied s = cl_bundle_version c' -> agrees R s).
Proof.
  intros (c & C & [L0 L1] & O & A). unfold Fleet.get_bundle. destruct (require_admin_or_service user); [done|].
  destruct (scoped_cluster user _); [done|]. case_bool_decide; [done|]. rewrite C.
  set (R := resolve_for_cluster (policies h) c). destruct (rollouts h !! cluster_id) as [r|] eqn:Ro; simpl.
  - case_bool_decide as Dg; simpl; [destruct (cl_bundle_version c =? 0) eqn:Z0; simpl; bool_prop|]; intros [= <- <-].
    + exists c, (bumped (cl_bundle_version c + 1) c). eexists _, R. simpl. rewrite !lookup_insert_eq.
      split_and!; try done; simpl; lia.
    + exists c, c, r, R. split_and!; try done; [lia|]. intros E. apply (A r R); try done. lia.
    + exists c, (bumped (cl_bundle_version c + 1) c). eexists _, R. simpl. rewrite !lookup_insert_eq.
      split_and!; try done; simpl; lia.
  - intros [= <- <-]. exists c, (bumped (cl_bundle_version c + 1) c). eexists _, R. simpl. rewrite !lookup_insert_eq.
    split_and!; try done; simpl; lia.
Qed.

(** Such a bundle verifies, and what is applied of it is the resolved set. *)
Lemma served_verifies p : verify_bundle (sign_bundle p signing_key) pubkey = Some (normalized p).
Proof.
  unfold verify_bundle, sign_bundle. rewrite bool_decide_false by apply pubkey_given. simpl. rewrite bool_decide_false by apply token_given.
  rewrite jws_round. simpl. by rewrite bool_decide_true, canonical_round.
Qed.

Lemma filter_all {A} (P : A -> Prop) `{!forall x, Decision (P x)} (l : list A) : Forall P l -> filter P l = l.
Proof. induction 1 as [|x l Px _ IH]; [done|]. by rewrite filter_cons_True, IH. Qed.

Lemma applicable_resolved ps c p : pl_policies p = resolve_for_cluster ps c -> applicable (normalized p) ≡ₚ resolve_for_cluster ps c.
Proof.
  intros E. unfold applicable, normalized. cbn [pl_policies]. rewrite (merge_sort_Permutation bp_le), E, filter_all; [done|]. apply resolve_picks.
Qed.

Lemma manifest_perm ps qs : ps ≡ₚ qs -> manifest_of ps = manifest_of qs.
Proof.
  intros P. unfold manifest_of. apply (StronglySorted_unique text_le); [apply StronglySorted_merge_sort; apply _..|].
  rewrite !(merge_sort_Permutation text_le). by apply Permutation_map.
Qed.

(** A served bundle in force is agreement with what was resolved. *)
Lemma in_force_agrees ps c p s s' : pl_policies p = resolve_for_cluster ps c -> row_ok s -> in_force saved_by (normalized p) s s' ->
  agrees (resolve_for_cluster ps c) s' /\ last_applied s' = pl_bundle_version p.
Proof.
  intros E O (Rw & En & _). pose proof (applicable_resolved ps c p E) as Pe. rewrite (manifest_perm _ _ Pe) in Rw.
  assert (Lv : last_applied s' = pl_bundle_version p) by (unfold last_applied; by rewrite Rw).
  split; [|done]. unfold agrees. rewrite Lv. split; [done|]. intros q Iq. apply (En); [|done|by rewrite Pe].
  rewrite Pe. apply resolve_picks.
Qed.

(** What a report leaves of the hub. *)
Lemma report_keeps user body h :
  let h' := (report_rollout user cluster_id body h).1 in
  clusters h' = clusters h /\ (rollouts h' = rollouts h \/ exists r, rollouts h' !! cluster_id = Some r /\ ro_detail r = rr_detail body).
Proof.
  cbv zeta. unfold report_rollout. destruct (require_admin_or_service user); [by split; [|left]|].
  destruct (scoped_cluster user _); [by split; [|left]|]. split; [done|]. right. eexists. simpl. by rewrite lookup_insert_eq.
Qed.

(** The hub after the report, where the spoke is at most at its version. *)
Lemma settled user delivered rep h s c r R : clusters h !! cluster_id = Some c -> rollouts h !! cluster_id = Some r -> ro_detail r = digest R ->
  0 <= last_applied s <= cl_bundle_version c -> row_ok s -> (last_applied s = cl_bundle_version c -> agrees R s) ->
  (forall x, rep = Some x -> last_applied s < cl_bundle_version c \/ rr_detail x = []) ->
  joint_ok (match rep with Some x => if delivered : bool then (report_rollout user cluster_id x h).1 else h | None => h end) s.
Proof.
  intros C Ro Dg Le O A Rp.
  assert (Same : forall h', clusters h' = clusters h -> rollouts h' = rollouts h -> joint_ok h' s).
  { intros h' Ec Er. exists c. rewrite Ec. split_and!; try done; [lia|lia|]. intros r' R' L' D' E _. rewrite Er, Ro in L'. injection L' as <-.
    rewrite Dg in D'. apply digest_inj in D' as <-. by apply A. }
  destruct rep as [x|]; [|by apply Same]. destruct delivered; [|by apply Same].
  destruct (report_keeps user x h) as [Kc [Kr|(r' & L' & D')]]; [by apply Same|].
  exists c. rewrite Kc. split_and!; try done; [lia|lia|]. intros r'' R'' L'' D'' E _. rewrite L' in L''. injection L'' as <-.
  destruct (Rp x eq_refl) as [Lt|En]; [lia|]. rewrite D', En in D''. by destruct (digest_given R'').
Qed.

Lemma row_ok_same (s s' : Spoke (L:=L)) : row s' = row s -> row_ok s -> row_ok s'.
Proof. unfold row_ok. by intros ->. Qed.

Lemma cycle_ok user fs hub_now spoke_now delivered h s :
  let r := cycle user fs hub_now spoke_now delivered h s in joint_ok h s -> joint_ok r.1 r.2.
Proof.
  intros r J. subst r. unfold cycle. destruct (get_bundle user cluster_id hub_now h) as [h' [e|body]] eqn:G.
  { assert (h' = h) as ->; [|done]. revert G. unfold Fleet.get_bundle. repeat (case_match; try (by intros [= <-])). }
  destruct (served _ _ _ s _ _ J G) as (c & c' & r & R & C & ER & _ & C' & _ & _ & Ro & Dg & -> & Po & Le & A).
  assert (O : row_ok s /\ 0 <= last_applied s) by (destruct J as (? & _ & ? & ? & _); split; [done|lia]). destruct O as [O L0].
  set (p := mkPayload _ _ _ _ R). pose proof (served_verifies p) as V.
  destruct (pull_once_spec cluster_id pubkey saved_by error_text fs (sign_bundle p signing_key) spoke_now s)
    as [o No|p' s' o rep Ac Rw _ _ De|p' s' o rep Ac F _ _ De]; cbn [fst snd].
  - by apply (settled user delivered None h' s c' r R).
  - destruct Ac as (V' & _ & _ & Lt). rewrite V in V'. injection V' as <-. simpl in Lt.
    assert (Ls : last_applied s' = last_applied s) by (unfold last_applied; by rewrite Rw).
    apply (settled user delivered rep h' s' c' r R); try done; rewrite ?Ls; try lia. by apply (row_ok_same s).
  - destruct Ac as (V' & _ & _ & Lt). rewrite V in V'. injection V' as <-. subst R.
    destruct (in_force_agrees (policies h) c p s s' eq_refl O F) as [Ag Lv]. simpl in Lv, Lt.
    apply (settled user delivered rep h' s' c' r (resolve_for_cluster (policies h) c)); try done; rewrite ?Lv; try lia.
    + unfold row_ok. rewrite (proj1 F). apply manifest_colon.
    + intros x Ex. right. by apply De.
Qed.

(** One step of the two: an act, or the database giving its rows in another order. *)
Inductive step : Hub * Spoke -> Hub * Spoke -> Prop :=
  | step_act a hs : step hs (act a hs)
  | step_order ps h s : ps ≡ₚ policies h -> step (h, s) (mkHub ps (clusters h) (rollouts h), s).

Lemma same_tables_ok h h' s : clusters h' = clusters h -> rollouts h' = rollouts h -> joint_ok h s -> joint_ok h' s.
Proof. unfold joint_ok. by intros -> ->. Qed.

Lemma heartbeat_ok user id body now h s : joint_ok h s -> joint_ok (heartbeat user id body now h).1 s.
Proof.
  intros J. unfold heartbeat. destruct (require_admin_or_service user); [done|]. destruct (scoped_cluster user _); [done|].
  destruct J as (c & C & J). unfold joint_ok. cbn [fst clusters rollouts]. destruct (decide (id = cluster_id)) as [->|N].
  - rewrite C, lookup_insert_eq. eexists. split; [done|]. exact J.
  - rewrite lookup_insert_ne by done. eauto.
Qed.

Lemma joint_step_ok hs hs' : step hs hs' -> joint_ok hs.1 hs.2 -> joint_ok hs'.1 hs'.2.
Proof.
  intros [[user body|user name|user id body now|user fs n1 n2 d] [h s]|ps h s P]; simpl.
  - destruct (author_keeps user body h). by apply same_tables_ok.
  - destruct (retract_keeps user name h). by apply same_tables_ok.
  - apply heartbeat_ok.
  - apply cycle_ok.
  - by apply same_tables_ok.
Qed.

Lemma steps_ok hs hs' : rtc step hs hs' -> joint_ok hs.1 hs.2 -> joint_ok hs'.1 hs'.2.
Proof. induction 1; eauto using joint_step_ok. Qed.

(** A registered cluster, and a spoke whose count of versions starts anew: it has applied nothing, or has just joined. *)
Definition fresh (h : Hub) (s : Spoke (L:=L)) : Prop :=
  exists c, clusters h !! cluster_id = Some c /\ 0 <= cl_bundle_version c /\ last_applied s = 0 /\ row_ok s.

Lemma fresh_ok h s : fresh h s -> joint_ok h s.
Proof.
  intros (c & C & V & Z0 & O). exists c. split_and!; try done; lia.
Qed.
(** Loader states from which no save and no deletion raises. *)
Record Quiet (Q : L -> Prop) : Prop := {
  quiet_create : forall k p l, Q l -> (create_policy k p l).2 = true /\ Q (create_policy k p l).1;
  quiet_remove : forall k l, Q l -> (remove_policy k l).2 = true /\ Q (remove_policy k l).1;
}.

Lemma quiet_create_all Q version ps : Quiet Q -> forall l, Q l -> (create_all saved_by version ps l).2 = true /\ Q (create_all saved_by version ps l).1.
Proof.
  intros Qu. induction ps as [|p ps IH]; intros l Ql; simpl; [done|].
  destruct (quiet_create Q Qu (bp_key p) (policy_of saved_by version p) l Ql) as [E Ql']. destruct (create_policy _ _ l) as [l' []]; [|done].
  by apply IH.
Qed.

Lemma quiet_remove_all Q ks : Quiet Q -> forall l, Q l -> (remove_all ks l).2 = true.
Proof.
  intros Qu. induction ks as [|t ks IH]; intros l Ql; cbn [remove_all]; [done|]. destruct (is_reserved_scope _); [by apply IH|].
  destruct (quiet_remove Q Qu (unkey t) l Ql) as [E Ql']. destruct (remove_policy _ l) as [l' []]; [|done]. by apply IH.
Qed.

(** Without faults an accepted bundle is applied. *)
Lemma pull_applies Q body now s p : Quiet Q -> Q (loader s) -> accepted cluster_id pubkey body now s p ->
  (pull_once no_faults body now s).1.2 = Applied (pl_bundle_version p).
Proof.
  intros Qu Ql (V & Cl & [Nb Ex] & Lt). unfold Fleet.pull_once. rewrite V, bool_decide_true by done. simpl.
  rewrite (proj2 (Z.ltb_ge _ _)) by lia. rewrite (proj2 (Z.ltb_ge _ _)) by lia. rewrite (proj2 (Z.leb_gt _ _)) by lia.
  destruct (quiet_create_all Q (pl_bundle_version p) (applicable p) Qu (loader s) Ql) as [E Ql'].
  destruct (create_all _ _ _ _) as [l []]; [|done]. simpl in Ql'.
  pose proof (quiet_remove_all Q (dropped_keys (manifest_of (applicable p)) s) Qu l Ql') as E'.
  by destruct (remove_all _ l) as [l' []].
Qed.

Definition authorised (user : Claims) : bool :=
  match require_admin_or_service user, scoped_cluster user (VStr cluster_id) with inr _, inr _ => true | _, _ => false end.

Lemma get_bundle_serves user now h c : authorised user = true -> signing_key <> [] -> clusters h !! cluster_id = Some c ->
  exists h' body, get_bundle user cluster_id now h = (h', inr body).
Proof.
  unfold authorised, Fleet.get_bundle. intros Au Sk ->. destruct (require_admin_or_service user); [done|].
  destruct (scoped_cluster user _); [done|]. rewrite bool_decide_false by done. eauto.
Qed.

(** The keys of the bundle whose row was written last. *)
Definition last_manifest (s : Spoke (L:=L)) : list text := match row s with Some r => bs_manifest r | None => [] end.

(** What a cycle without faults brings about from any joint state. *)
Lemma quiet_cycle Q user hub_now spoke_now delivered h s :
  Quiet Q -> Q (loader s) -> joint_ok h s -> authorised user = true -> signing_key <> [] ->
  rfc3339_z hub_now <= spoke_now <= rfc3339_z (hub_now + ttl) ->
  exists c s', clusters h !! cluster_id = Some c /\ (cycle user no_faults hub_now spoke_now delivered h s).2 = s' /\
    agrees (resolve_for_cluster (policies h) c) s' /\
    (s' = s \/ exists p, pl_policies p = resolve_for_cluster (policies h) c /\ in_force saved_by (normalized p) s s' /\
       forall k, untouched (normalized p) s k -> enforced (loader s') !! k = enforced (loader s) !! k).
Proof.
  intros Qu Ql J Au Sk Ti. assert (O : row_ok s) by (by destruct J as (? & _ & _ & ? & _)).
  destruct (get_bundle_serves user hub_now h) with (c := default (mkCluster [] [] [] [] [] [] 0 false [] 0) (clusters h !! cluster_id)) as (h' & body & G); [done..| |].
  { by destruct J as (c & -> & _). }
  unfold cycle. rewrite G. destruct (served _ _ _ s _ _ J G) as (c & c' & r & R & C & -> & _ & C' & _ & _ & Ro & Dg & -> & Po & Le & A).
  set (p := mkPayload _ _ _ _ _). pose proof (served_verifies p) as V. exists c, (pull_once no_faults (sign_bundle p signing_key) spoke_now s).1.1.
  split; [done|]. split; [by destruct (pull_once _ _ _ _) as [[? ?] ?]|].
  destruct (decide (last_applied s = cl_bundle_version c')) as [E|N].
  - assert (pull_once no_faults (sign_bundle p signing_key) spoke_now s = (s, NotApplied "not_newer", None)) as ->; [|by split; [apply A|left]].
    unfold Fleet.pull_once. rewrite V, bool_decide_true by done. simpl. rewrite !(proj2 (Z.ltb_ge _ _)) by lia. by rewrite (proj2 (Z.leb_le _ _)) by lia.
  - assert (Ac : accepted cluster_id pubkey (sign_bundle p signing_key) spoke_now s (normalized p)) by (repeat split; simpl; [done|lia..]).
    pose proof (pull_applies Q _ _ _ _ Qu Ql Ac) as Ap.
    destruct (pull_once_spec cluster_id pubkey saved_by error_text no_faults (sign_bundle p signing_key) spoke_now s)
      as [o No|p' s' o rep _ _ No _ _|p' s' o rep Ac' F _ Un _]; cbn [fst snd] in *; [by destruct (No _ Ap)..|].
    destruct Ac' as (V' & _). rewrite V in V'. injection V' as <-.
    split; [by apply (in_force_agrees (policies h) c p s s' eq_refl O)|]. right. exists p. by split_and!.
Qed.

(** C34: A cycle without faults brings the cluster to what the hub resolves, whatever happened before.  From a registered cluster whose
    spoke has applied nothing or has just joined, after any pushes, retractions, heartbeats and pulls, with any failures of the
    loader, of the spoke's database and of the reports, and any order of the hub's rows: when a pull of an authorised puller
    meets no fault, the manifest of the row is that of the resolved policies, each of them is in force as the hub has it, the keys
    of the manifest written last that are not among them are deleted, and every other key is as it was.  (What an earlier pull
    saved and failed to write a manifest for is such another key.) *)
Theorem fleet_cycle_converges Q user hub_now spoke_now delivered h0 s0 h s :
  fresh h0 s0 -> rtc step (h0, s0) (h, s) ->
  Quiet Q -> Q (loader s) -> authorised user = true -> signing_key <> [] ->
  rfc3339_z hub_now <= spoke_now <= rfc3339_z (hub_now + ttl) ->
  let s' := (cycle user no_faults hub_now spoke_now delivered h s).2 in
  exists c, clusters h !! cluster_id = Some c /\ let R := resolve_for_cluster (policies h) c in
    agrees R s' /\
    (forall t, t ∈ last_manifest s -> t ∉ manifest_of R -> is_reserved_scope (unkey t).2 = false -> enforced (loader s') !! unkey t = None) /\
    (forall k, (forall q, q ∈ R -> bp_key q <> k) ->
       (forall t, t ∈ last_manifest s -> t ∉ manifest_of R -> is_reserved_scope (unkey t).2 = false -> unkey t <> k) ->
       enforced (loader s') !! k = enforced (loader s) !! k).
Proof.
  intros Fr St Qu Ql Au Sk Ti s'. pose proof (steps_ok _ _ St (fresh_ok _ _ Fr)) as J. simpl in J.
  destruct (quiet_cycle Q user hub_now spoke_now delivered h s Qu Ql J Au Sk Ti) as (c & s'' & C & E & Ag & W). subst s'. rewrite E.
  exists c. split; [done|]. cbv zeta. split; [done|]. destruct W as [->|(p & Ep & (_ & _ & De) & Un)].
  - split; [|done]. intros t It Nt Rt. destruct Ag as [Ag _]. unfold last_manifest in It. rewrite Ag in It. done.
  - assert (Dk : forall t, t ∈ dropped_keys (manifest_of (applicable (normalized p))) s <-> t ∉ manifest_of (resolve_for_cluster (policies h) c) /\ t ∈ last_manifest s).
    { intros t. unfold dropped_keys. rewrite list_elem_of_filter, (manifest_perm _ _ (applicable_resolved (policies h) c p Ep)). done. }
    split; [intros t It Nt Rt; apply De; [by apply Dk|done]|]. intros k Nq Nt. apply Un. split.
    + intros q Iq. apply Nq. by rewrite <- (applicable_resolved (policies h) c p Ep).
    + intros t [N I]%Dk Rt. by apply Nt.
Qed.
End Joint.

(** ** An instance, and runs of it *)
Module FleetRun.

#[global] Instance BundlePolicy_eq_dec : EqDecision BundlePolicy.
Proof. solve_decision. Defined.
#[global] Instance BundlePolicy_countable : Countable BundlePolicy.
Proof.
  refine (inj_countable' (fun p => (bp_namespace p, bp_agent_class p, bp_rego_source p, bp_priority p, bp_enforcement_mode p, bp_version p))
    (fun '(a, b, c, d, e, f) => mkBundlePolicy a b c d e f) _). by intros [].
Defined.
#[global] Instance Payload_eq_dec : EqDecision Payload.
Proof. solve_decision. Defined.
#[global] Instance Payload_countable : Countable Payload.
Proof.
  refine (inj_countable' (fun p => (pl_cluster_id p, pl_bundle_version p, pl_not_before p, pl_expires_at p, pl_policies p))
    (fun '(a, b, c, d, e) => mkPayload a b c d e) _). by intros [].
Defined.

Definition nothing : Payload := mkPayload [] 0 0 0 [].

(** Numbers for bytes; a token is the length of the key and the bytes. *)
#[global] Instance signing : Signing := {
  canonical_bytes p := [Z.pos (encode (normalized p))];
  loads t := match t with [Z.pos n] => default nothing (decode n) | _ => nothing end;
  jws_encode key bytes := Z.of_nat (length key) :: bytes;
  jws_decode key token := match token with n :: bytes => if n =? Z.of_nat (length key) then Some bytes else None | [] => None end;
}.

Definition key : text := points "key".
Definition digest (R : list BundlePolicy) : text := [Z.pos (encode R)].

Lemma digest_inj R R' : digest R = digest R' -> R = R'.
Proof. unfold digest. intros [= E]. by apply encode_inj in E. Qed.

#[global] Instance laws : SigningLaws key key.
Proof.
  split; [done|done| |].
  - intros bytes. simpl. done.
  - intros p. cbn -[encode decode normalized]. by rewrite decode_encode.
Qed.

(** A loader with what its next calls do: whether they raise, and whether they take effect. *)
Record Loader := mkLoader { held : gmap Key Policy; coming : list (bool * bool) }.
Definition call_loader (f : gmap Key Policy -> gmap Key Policy) (l : Loader) : Loader * bool :=
  match coming l with
  | [] => (mkLoader (f (held l)) [], true)
  | (false, _) :: rest => (mkLoader (f (held l)) rest, true)
  | (true, effect) :: rest => (mkLoader (if effect then f (held l) else held l) rest, false)
  end.
#[global, refine] Instance loader_impl : PolicyLoader Loader := {
  enforced l k := held l !! k;
  create_policy k p := call_loader (fun m => <[k := p]> m);
  remove_policy k := call_loader (fun m => delete k m);
}.
Proof.
  all: assert (Sp : forall k p (m : gmap Key Policy) k', <[k := p]> m !! k' = if bool_decide (k' = k) then Some p else m !! k')
    by (intros; case_bool_decide; subst; [apply lookup_insert_eq|by apply lookup_insert_ne]).
  all: assert (Sd : forall k (m : gmap Key Policy) k', delete k m !! k' = if bool_decide (k' = k) then None else m !! k')
    by (intros; case_bool_decide; subst; [apply lookup_delete_eq|by apply lookup_delete_ne]).
  all: intros; unfold call_loader, set_policy, lookup, in_force_lookup in *;
    destruct (coming l) as [|[[] []] rest]; cbn in *; try done; first [intros; apply Sp|intros; apply Sd|right; intros; apply Sp|right; intros; apply Sd|by left].
Defined.

Definition quiet (l : Loader) : Prop := coming l = [].
Lemma quiet_quiet : Quiet quiet.
Proof. split; intros; simpl; unfold call_loader, quiet in *; by rewrite H. Qed.

Definition c1 : text := points "c1".
Definition admin : Claims := Callers.caller "admin" "" "" "".
Definition saved_by (v : Z) : text := points "fleet:bundle:" ++ [48 + v].
Definition refused : text := points "refused".
Definition rules (name ns cls : string) (sel : list (text * text)) : PolicyAuthorBody :=
  mkAuthorBody (points name) (points ns) (points cls) (points "allow") 100 (points "block") sel true.

Definition run1 := act (L:=Loader) digest key key c1 3600000000 saved_by refused.
Definition run (acts : list Act) (hs : Hub * Spoke) : Hub * Spoke := foldl (fun hs a => run1 a hs) hs acts.
Lemma run_steps acts : forall hs, rtc (step (L:=Loader) digest key key c1 3600000000 saved_by refused) hs (run acts hs).
Proof. induction acts as [|a acts IH]; intros hs; simpl; [done|]. eapply rtc_l; [apply step_act|apply IH]. Qed.

Definition start (l : Loader) : Hub * Spoke :=
  ((heartbeat admin c1 (mkHeartbeat c1 [] [] [(points "env", points "prod")] false [] []) 5000000 (mkHub [] ∅ ∅)).1, mkSpoke l None).

(** Three pushes, one of them for this cluster alone; a pull that fails at the second save, one that is applied, a retraction. *)
Definition history : list Act :=
  [Author admin (rules "all" "shop" "bot" []); Author admin (rules "mine" "shop" "bot" [(CLUSTER_ID, c1)]);
   Author admin (rules "prod" "shop" "clerk" [(points "env", points "prod")]);
   Cycle admin no_faults 5500000 5600000 true; Cycle admin no_faults 6500000 6600000 true; Retract admin (points "prod")].
Definition before : Hub * Spoke := run history (start (mkLoader ∅ [(false, true); (true, true)])).

Lemma fleet_cycle_converges_witness :
  let s' := (cycle (L:=Loader) digest key key c1 3600000000 saved_by refused admin no_faults 7500000 7600000 true before.1 before.2).2 in
  last_applied before.2 = 2 /\
  exists c, clusters before.1 !! c1 = Some c /\ let R := resolve_for_cluster (policies before.1) c in
    agrees saved_by R s' /\
    (forall t, t ∈ last_manifest before.2 -> t ∉ manifest_of R -> is_reserved_scope (unkey t).2 = false -> enforced (loader s') !! unkey t = None) /\
    (forall k, (forall q, q ∈ R -> bp_key q <> k) ->
       (forall t, t ∈ last_manifest before.2 -> t ∉ manifest_of R -> is_reserved_scope (unkey t).2 = false -> unkey t <> k) ->
       enforced (loader s') !! k = enforced (loader before.2) !! k).
Proof.
  split; [vm_compute; reflexivity|].
  apply (fleet_cycle_converges digest key key c1 3600000000 saved_by refused digest_inj (fun R => ltac:(done)) quiet admin 7500000 7600000 true
    (start (mkLoader ∅ [(false, true); (true, true)])).1 (start (mkLoader ∅ [(false, true); (true, true)])).2).
  - eexists. split; [vm_compute; reflexivity|done].
  - rewrite <- !surjective_pairing. exact (run_steps history (start (mkLoader ∅ [(false, true); (true, true)]))).
  - exact quiet_quiet.
  - vm_compute. reflexivity.
  - vm_compute. reflexivity.
  - done.
  - vm_compute. split; discriminate.
Defined.
(** Two pulls that are applied and reported, with nothing changed between them: the report has replaced the digest, so the second
    serves a new version and applies everything again. *)
Example unchanged_set_new_version :
  let pulls n := run (Author admin (rules "all" "shop" "bot" []) :: repeat (Cycle admin no_faults 5500000 5600000 true) n) (start (mkLoader ∅ [])) in
  map (fun n => (last_applied (pulls n).2, policies (pulls n).1)) [1; 2; 3]%nat =
  map (fun v => (v, policies (pulls 1%nat).1)) [1; 2; 3].
Proof. vm_compute. reflexivity. Qed.

(** A bundle whose row is not written, and a retraction before the next pull: the policy stays enforced, in no manifest. *)
Example orphan_stays :
  let hs := run [Author admin (rules "all" "shop" "bot" []); Cycle admin (mkFaults true true Unwritten) 5500000 5600000 true;
                 Retract admin (points "all"); Cycle admin no_faults 6500000 6600000 true] (start (mkLoader ∅ [])) in
  policies hs.1 = [] /\ row hs.2 = Some (mkState 2 []) /\ is_Some (enforced (loader hs.2) !! (points "shop", points "bot")).
Proof. vm_compute. eauto. Qed.
End FleetRun.
