(* ===== verification/FleetLoader.v ===== *)
(** * The loader behind the puller ([fleet_puller.py] over [engine/policy_loader.py])

    The fleet puller is verified against an interface: saving and deleting a policy changes one key or, when it raises, nothing
    or that key.  Here the loader's own [create] and [delete], as modelled in [Loader], are shown to keep it, with the rows of the
    policies table, and the author of the row's version, as what is in force: whatever fails between the commit and the end of
    the operation, and whatever is pruned. *)

From S2P Require Import Prelude Text ModuleText Config Decisions InprocCache Effects Trust World Loader Fleet.

Section Rows.
Context `{Externals} (keep_count : nat) (keep_us : Z).
(** How the texts of a bundle are carried as the strings of the tables; different texts are different strings. *)
Context (enc : text -> string) (dec : string -> text) (dec_enc : forall t, dec (enc t) = t).

Definition row_key (k : Key) : string * string := (enc k.1, enc k.2).

(** The author of the version a row is at. *)
Definition author (w : World) (k : string * string) (r : World.Row) : string :=
  match last (filter (fun v => pv_version v = row_version r) (default [] (dbv w !! k))) with Some v => pv_saved_by v | None => "" end.

Definition stored (w : World) : InForce := fun k =>
  (fun r => mkPolicy (row_rego r) (stored_priority (row_priority r)) (dec (default "" (row_mode r))) (dec (author w (row_key k) r))) <$> db w !! row_key k.

Definition ended {A} (r : World * (exc + A)) : World * bool := (r.1, match r.2 with inl _ => false | inr _ => true end).

Definition save (k : Key) (p : Policy) (w : World) : World * bool :=
  ended (create keep_count keep_us (enc k.1) (enc k.2) (po_rego_source p) (enc (po_saved_by p)) (po_priority p) (enc (po_enforcement_mode p)) w).
Definition drop_key (k : Key) (w : World) : World * bool := ended (delete_policy (enc k.1) (enc k.2) w).

Lemma row_key_inj k k' : row_key k = row_key k' -> k = k'.
Proof.
  destruct k as [a b], k' as [a' b']. unfold row_key. cbn. intros E. injection E as Ea Eb.
  apply (f_equal dec) in Ea, Eb. rewrite !dec_enc in Ea, Eb. congruence.
Qed.

(** The two tables agree on every key but this one. *)
Definition elsewhere (k : string * string) (w w' : World) : Prop :=
  forall k', k' <> k -> db w' !! k' = db w !! k' /\ dbv w' !! k' = dbv w !! k'.

Lemma stored_elsewhere k w w' k' : elsewhere (row_key k) w w' -> k' <> k -> stored w' !! k' = stored w !! k'.
Proof.
  intros El N. destruct (El (row_key k')) as [E1 E2]; [intros E; by apply N, row_key_inj|]. unfold lookup, in_force_lookup, stored, author. by rewrite E1, E2.
Qed.

(** The row and the version a save writes. *)
Definition written (k : string * string) (rego : text) (by_ : string) (p : Z) (mode : string) (w' : World) : Prop :=
  exists r v, db w' !! k = Some r /\ row_rego r = rego /\ row_priority r = Some p /\ row_mode r = Some mode /\
    last (filter (fun v => pv_version v = row_version r) (default [] (dbv w' !! k))) = Some v /\ pv_saved_by v = by_.

Lemma stored_written k p w w' : elsewhere (row_key k) w w' ->
  written (row_key k) (po_rego_source p) (enc (po_saved_by p)) (po_priority p) (enc (po_enforcement_mode p)) w' ->
  forall k', stored w' !! k' = set_policy k (Some p) (stored w) !! k'.
Proof.
  intros El (r & v & D & Er & Ep & Em & Lv & Ev) k'. destruct (decide (k' = k)) as [->|N]; [|by rewrite set_policy_ne; [apply (stored_elsewhere k)|]].
  rewrite set_policy_eq. unfold lookup, in_force_lookup, stored, author. rewrite D. cbn [fmap option_fmap option_map].
  rewrite Lv, Er, Ep, Em, Ev. cbn [default stored_priority id]. rewrite !dec_enc. by destruct p.
Qed.

(** Filtering the versions by something the current one has keeps the last of the current ones. *)
Lemma last_filter_keep {A} (P Q : A -> Prop) `{!forall x, Decision (P x)} `{!forall x, Decision (Q x)} (l : list A) :
  (forall x, P x -> Q x) -> filter P (filter Q l) = filter P l.
Proof.
  intros PQ. induction l as [|x l IH]; [done|]. destruct (decide (Q x)) as [q|q].
  - rewrite (filter_cons_True Q) by done. destruct (decide (P x)); [rewrite !(filter_cons_True P) by done|rewrite !(filter_cons_False P) by done]; by rewrite IH.
  - rewrite (filter_cons_False Q) by done. rewrite (filter_cons_False P) by auto. done.
Qed.

Definition same_tables (w w' : World) : Prop := db w' = db w /\ dbv w' = dbv w.

(** Pruning changes the versions of this key only, and keeps those of the current one. *)
Lemma wp_prune_written kc ku ns cls rego by_ p mode (Q : unit -> World -> Prop) E w0 w :
  elsewhere (ns, cls) w0 w -> written (ns, cls) rego by_ p mode w ->
  (forall w', elsewhere (ns, cls) w0 w' -> written (ns, cls) rego by_ p mode w' -> Q tt w') ->
  wp (prune_versions kc ku ns cls) Q E w.
Proof.
  intros El Wr K.
  assert (Sm : forall w', same_tables w w' -> Q tt w').
  { intros w' [E1 E2]. apply K; [intros k' N; rewrite E1, E2; by apply El|]. unfold written. by rewrite E1, E2. }
  unfold prune_versions. wp_steps; subst; [|by apply Sm].
  destruct (db _ !! _) as [row|] eqn:Ed; [|by apply Sm]. destruct (dbv _ !! _) as [vs|] eqn:Ev; [|by apply Sm].
  change (db w !! (ns, cls) = Some row) in Ed. change (dbv w !! (ns, cls) = Some vs) in Ev. apply K.
  - intros k' N. world_cbn. rewrite lookup_insert_ne by done. by apply El.
  - destruct Wr as (r & v & D & Er & Ep & Em & Lv & Eb). rewrite Ed in D. injection D as ->. exists r, v. world_cbn. rewrite lookup_insert_eq, Ed.
    split_and!; try done. cbn [default id]. rewrite Ev in Lv. cbn [default id] in Lv. rewrite last_filter_keep; [done|]. intros x Ex. by left.
Qed.

Lemma wp_create_rows ns cls rego by_ p mode w :
  wp (create keep_count keep_us ns cls rego by_ p mode)
     (fun _ w' => elsewhere (ns, cls) w w' /\ written (ns, cls) rego by_ p mode w')
     (fun _ w' => same_tables w w' \/ elsewhere (ns, cls) w w' /\ written (ns, cls) rego by_ p mode w') w.
Proof.
  assert (Up : forall v t w1 w', v = match db w !! (ns, cls) with Some r => row_version r + 1 | None => 1 end -> same_tables w w1 ->
    db w' = <[(ns, cls) := mkRow rego (Some p) (Some mode) v (Some t)]> (db w1) ->
    dbv w' = <[(ns, cls) := default [] (dbv w1 !! (ns, cls)) ++ [mkVersion v rego p mode by_ t]]> (dbv w1) ->
    elsewhere (ns, cls) w w' /\ written (ns, cls) rego by_ p mode w').
  { intros v t w1 w' _ [S1 S2] D1 D2. split.
    - intros k' N. by rewrite D1, D2, !lookup_insert_ne, S1, S2.
    - exists (mkRow rego (Some p) (Some mode) v (Some t)), (mkVersion v rego p mode by_ t). rewrite D1, D2, !lookup_insert_eq. split_and!; try done. cbn [default id]. rewrite filter_app, filter_cons_True, filter_nil, last_snoc by done. done. }
  unfold create, db_upsert, mark_applied, update_memory, invalidate_eval_for_policy_scope, invalidate_eval_scope, on_eval_invalidated, load_policy.
  wp_steps; try (left; split; by world_simpl); try (right; eapply Up; [reflexivity|split; reflexivity|by world_simpl|by world_simpl]).
  eapply wp_prune_written; [..|intros ? ? ?; wp_steps; by split];
    (edestruct Up as [U1 U2]; [reflexivity|split; reflexivity| | |first [exact U1|exact U2]]); by world_simpl.
Qed.

Lemma wp_delete_rows ns cls w :
  wp (delete_policy ns cls)
     (fun _ w' => elsewhere (ns, cls) w w' /\ db w' !! (ns, cls) = None)
     (fun _ w' => same_tables w w' \/ elsewhere (ns, cls) w w' /\ db w' !! (ns, cls) = None) w.
Proof.
  assert (De : forall w', db w' = delete (ns, cls) (db w) -> dbv w' = delete (ns, cls) (dbv w) -> elsewhere (ns, cls) w w' /\ db w' !! (ns, cls) = None).
  { intros w' E1 E2. split; [|rewrite E1; apply lookup_delete_eq]. intros k' N. by rewrite E1, E2, !lookup_delete_ne. }
  unfold delete_policy, unload_policy, invalidate_eval_for_policy_scope, invalidate_eval_scope, on_eval_invalidated.
  wp_steps; try (left; split; by world_simpl). destruct (_ && _); wp_steps; try right; apply De; by world_simpl.
Qed.

Lemma stored_same w w' : same_tables w w' -> forall k, stored w' !! k = stored w !! k.
Proof. intros [E1 E2] k. unfold lookup, in_force_lookup, stored, author. by rewrite E1, E2. Qed.

Lemma stored_gone k w w' : elsewhere (row_key k) w w' -> db w' !! row_key k = None -> forall k', stored w' !! k' = set_policy k None (stored w) !! k'.
Proof.
  intros El D k'. destruct (decide (k' = k)) as [->|N]; [|by rewrite set_policy_ne; [apply (stored_elsewhere k)|]].
  rewrite set_policy_eq. unfold lookup, in_force_lookup, stored. by rewrite D.
Qed.

Lemma save_spec k p w :
  (forall k', stored (save k p w).1 !! k' = set_policy k (Some p) (stored w) !! k') \/
  (save k p w).2 = false /\ (forall k', stored (save k p w).1 !! k' = stored w !! k').
Proof.
  unfold save, ended. pose proof (wp_create_rows (enc k.1) (enc k.2) (po_rego_source p) (enc (po_saved_by p)) (po_priority p) (enc (po_enforcement_mode p)) w) as C.
  unfold wp in C. destruct (create _ _ _ _ _ _ _ _ w) as [w' [e|v]]; cbn [fst snd].
  - destruct C as [S|[El Wr]]; [right; split; [done|by apply stored_same]|left; by apply stored_written].
  - destruct C as [El Wr]. left. by apply stored_written.
Qed.

Lemma drop_key_spec k w :
  (forall k', stored (drop_key k w).1 !! k' = set_policy k None (stored w) !! k') \/
  (drop_key k w).2 = false /\ (forall k', stored (drop_key k w).1 !! k' = stored w !! k').
Proof.
  unfold drop_key, ended. pose proof (wp_delete_rows (enc k.1) (enc k.2) w) as C. unfold wp in C. destruct (delete_policy _ _ w) as [w' [e|v]]; cbn [fst snd].
  - destruct C as [S|[El D]]; [right; split; [done|by apply stored_same]|left; by apply stored_gone].
  - destruct C as [El D]. left. by apply stored_gone.
Qed.

(** The loader of the source keeps what the puller is verified against. *)
#[refine] Definition source_loader : PolicyLoader World := {| enforced := stored; create_policy := save; remove_policy := drop_key |}.
Proof.
  - intros k p w E. destruct (save_spec k p w) as [S|[F _]]; [done|congruence].
  - intros k p w _. destruct (save_spec k p w) as [S|[_ S]]; auto.
  - intros k w E. destruct (drop_key_spec k w) as [S|[F _]]; [done|congruence].
  - intros k w _. destruct (drop_key_spec k w) as [S|[_ S]]; auto.
Defined.

(** Without faults of PostgreSQL and Redis no save and no deletion raises. *)
Lemma wp_create_quiet ns cls rego by_ p mode w : faults w = [] ->
  wp (create keep_count keep_us ns cls rego by_ p mode) (fun _ w' => faults w' = []) (fun _ _ => False) w.
Proof.
  intros F. unfold create, db_upsert, mark_applied, update_memory, invalidate_eval_for_policy_scope, invalidate_eval_scope, on_eval_invalidated, load_policy, prune_versions.
  wp_ok. all: try (by world_simpl). all: repeat case_match; wp_ok; by world_simpl.
Qed.

Lemma wp_delete_quiet ns cls w : faults w = [] -> wp (delete_policy ns cls) (fun _ w' => faults w' = []) (fun _ _ => False) w.
Proof.
  intros F. unfold delete_policy, unload_policy, invalidate_eval_for_policy_scope, invalidate_eval_scope, on_eval_invalidated.
  wp_ok. destruct (_ && _); wp_ok; by world_simpl.
Qed.

Lemma source_quiet : Quiet (PolicyLoader0 := source_loader) (fun w => faults w = []).
Proof.
  split.
  - intros k p w F. cbn. unfold save, ended.
    pose proof (wp_create_quiet (enc k.1) (enc k.2) (po_rego_source p) (enc (po_saved_by p)) (po_priority p) (enc (po_enforcement_mode p)) w F) as C.
    unfold wp in C. by destruct (create _ _ _ _ _ _ _ _ w) as [w' [e|v]].
  - intros k w F. cbn. unfold drop_key, ended. pose proof (wp_delete_quiet (enc k.1) (enc k.2) w F) as C. unfold wp in C.
    by destruct (delete_policy _ _ w) as [w' [e|v]].
Qed.
End Rows.

(** ** A run *)
Module LoaderRun.

(** Texts as strings of digits. *)
Definition digit0 : Ascii.ascii := Ascii.ascii_of_nat 48.
Definition digit1 : Ascii.ascii := Ascii.ascii_of_nat 49.
Fixpoint bits (p : positive) : string :=
  match p with xH => "" | xO p => String digit0 (bits p) | xI p => String digit1 (bits p) end.
Fixpoint of_bits (s : string) : positive :=
  match s with EmptyString => xH | String c s => if Ascii.eqb c digit0 then xO (of_bits s) else xI (of_bits s) end.
Definition enc (t : text) : string := bits (encode t).
Definition dec (s : string) : text := default [] (decode (of_bits s)).

Lemma dec_enc t : dec (enc t) = t.
Proof.
  assert (B : forall p, of_bits (bits p) = p) by (induction p as [p IH|p IH|]; cbn; [by rewrite IH..|done]). unfold dec, enc. by rewrite B, decode_encode.
Qed.

Definition bot : Key := (points "shop", points "bot").
Definition rules : Policy := mkPolicy (points "allow") 100 (points "block") (points "fleet:bundle:1").
Definition loader1 : PolicyLoader World := source_loader (H := demo) 5 0 enc dec dec_enc.

(** A save is in force although the mirror in Redis failed after it; a deletion ends it. *)
Example saved_with_fault :
  let r := create_policy (PolicyLoader := loader1) bot rules (set_faults [None; Some EOther] empty_world) in
  r.2 = false /\ enforced (PolicyLoader := loader1) r.1 !! bot = Some rules /\
  enforced (PolicyLoader := loader1) (remove_policy (PolicyLoader := loader1) bot (set_faults [] r.1)).1 !! bot = None.
Proof. vm_compute. done. Qed.
End LoaderRun.
