(* ===== verification/FleetEnroll.v ===== *)
(** * Enrolment of a cluster in a fleet ([fleet/join_token.py], [fleet/routers/fleet.py], [api/routers/fleet_enroll.py])

    The hub mints a token that names a cluster and carries the trust root of its bundles; the spoke verifies
    it, claims it at the hub, and from then on pulls as that cluster; on leaving it sheds what bundles brought.
    The theorems: what is minted verifies, and only what is signed does; a token is claimed once, whatever the
    claims that run at the same time and the clusters that are removed; leaving undoes what the manifests
    record; and after joining one cycle without faults brings the spoke to what the hub resolves, also where
    the hub counts its versions anew. *)

From stdpp Require Import sorting.
From S2P Require Import Prelude Text Json JsonParse Base64 Auth Ssrf Correlate Fleet.

(** ** [fleet/join_token.py] *)

(** [base64.urlsafe_b64encode(raw).rstrip(b"=")] and back. *)
Definition url_char (c : Z) : Z := if c =? 43 then 45 else if c =? 47 then 95 else c.
Definition std_char (c : Z) : Z := if c =? 45 then 43 else if c =? 95 then 47 else c.
Definition rstrip_pads (t : text) : text := reverse (drop_while (fun c => c =? 61) (reverse t)).
Definition b64 (raw : list Z) : text := rstrip_pads (map url_char (b64encode raw)).
Definition unb64 (s : text) : option (list Z) :=
  let s := s ++ repeat 61 (Z.to_nat (- Z.of_nat (length s) mod 4)) in
  if is_ascii s then b64decode (map std_char s) else None.

Lemma drop_while_app (p : Z -> bool) a b : Forall (fun c => p c = true) a -> drop_while p (a ++ b) = drop_while p b.
Proof. induction 1 as [|c a C _ IH]; [done|]. simpl. by rewrite C. Qed.

Lemma rstrip_pads_spec u p : Forall (fun c => c <> 61) u -> rstrip_pads (u ++ repeat 61 p) = u.
Proof.
  intros N. unfold rstrip_pads. rewrite reverse_app, drop_while_app.
  - assert (N' : Forall (fun c => c <> 61) (reverse u)) by by apply Forall_reverse. destruct (reverse u) as [|c v] eqn:E.
    + simpl. apply (f_equal reverse) in E. by rewrite reverse_involutive in E.
    + apply Forall_cons in N' as [Nc _]. cbn [drop_while]. rewrite (proj2 (Z.eqb_neq c 61)) by done. by rewrite <- E, reverse_involutive.
  - apply Forall_reverse, Forall_forall. intros c I. apply list_elem_of_In, repeat_spec in I. by apply Z.eqb_eq.
Qed.

(** The characters of an encoding, and its padding. *)
Lemma b64encode_padded bs : Forall is_byte bs -> exists u p, b64encode bs = u ++ repeat 61 p /\ Forall (fun c => c <> 61) u /\
  Z.of_nat p = - Z.of_nat (length u) mod 4.
Proof.
  assert (D : forall v, 0 <= v < 64 -> digit64 v <> 61) by (intros v V; destruct (digit64_sextet v V) as [_ E]; by apply Z.eqb_neq).
  induction bs as [|a|a b|a b c r IH] using triples_ind; intros F; repeat (apply Forall_cons in F as [? F]); unfold is_byte in *; cbn [b64encode].
  - by exists [], 0%nat.
  - exists [digit64 (a / 4); digit64 (a mod 4 * 16)], 2%nat. split_and!; [done| |done].
    repeat (apply Forall_cons; split; [apply D; Z.div_mod_to_equations; lia|]). by apply Forall_nil.
  - exists [digit64 (a / 4); digit64 (a mod 4 * 16 + b / 16); digit64 (b mod 16 * 4)], 1%nat. split_and!; [done| |done].
    repeat (apply Forall_cons; split; [apply D; Z.div_mod_to_equations; lia|]). by apply Forall_nil.
  - destruct (IH F) as (u & p & -> & N & L). eexists (_ :: _ :: _ :: _ :: u), p. split_and!; [done| |].
    + repeat (apply Forall_cons; split; [apply D; Z.div_mod_to_equations; lia|]). done.
    + rewrite L. cbn [length]. Z.div_mod_to_equations; lia.
Qed.

Lemma url_std c : in_alphabet c = true -> std_char (url_char c) = c /\ url_char c < 128 /\ (c <> 61 -> url_char c <> 61).
Proof.
  intros A. assert (R : c = 43 \/ c = 47 \/ (c <> 43 /\ c <> 47 /\ c <> 45 /\ c <> 95 /\ c < 128)).
  { unfold in_alphabet, is_alnum, is_upper, is_lower, is_num in A. lia. }
  destruct R as [->|[->|(? & ? & ? & ? & ?)]]; [done..|]. unfold url_char, std_char.
  rewrite !(proj2 (Z.eqb_neq c _)) by done. done.
Qed.

Lemma unb64_b64 raw : Forall is_byte raw -> unb64 (b64 raw) = Some raw.
Proof.
  intros F. destruct (b64encode_padded raw F) as (u & p & E & N & L). pose proof (b64encode_alphabet raw F) as A. rewrite E, Forall_app in A.
  destruct A as [A Ap]. assert (B : b64 raw = map url_char u).
  { unfold b64. rewrite E, map_app. replace (map url_char (repeat 61 p)) with (repeat 61 p) by (by rewrite map_repeat).
    apply rstrip_pads_spec. rewrite Forall_fmap. rewrite Forall_forall in A, N |- *. intros c I. apply url_std; auto. }
  unfold unb64. rewrite B, length_map, <- L, Nat2Z.id. rewrite map_app, map_repeat, map_map.
  assert (As : is_ascii (map url_char u ++ repeat 61 p) = true).
  { unfold is_ascii. rewrite forallb_app, andb_true_iff. split; apply forallb_forall; intros c I.
    - apply in_map_iff in I as (d & <- & I). rewrite Forall_forall in A. apply Z.ltb_lt, url_std, A. by apply list_elem_of_In.
    - apply repeat_spec in I. by subst. }
  rewrite As. rewrite (map_ext_in _ id), map_id.
  - change (std_char 61) with 61. rewrite <- E. by apply b64_roundtrip.
  - intros c I. rewrite Forall_forall in A. apply url_std, A. by apply list_elem_of_In.
Qed.

Definition TYP : text := points "nrvq-join".
Definition VERSION : Z := 1.

(** The claims of a token, in the order [sort_keys] gives them. *)
Definition join_claims (jti hub_url cluster_id bundle_pubkey name region : text) (labels : value) (now ttl_s : Z) : list (text * value) :=
  [(points "v", VInt VERSION); (points "typ", VStr TYP); (points "jti", VStr jti); (points "hub", VStr hub_url); (points "cid", VStr cluster_id);
   (points "pub", VStr bundle_pubkey); (points "name", VStr name); (points "region", VStr region); (points "labels", labels);
   (points "iat", VInt now); (points "exp", VInt (now + ttl_s))].

(** How [verify_join_token] ends without a payload: with the [ValueError] it promises, or with another exception. *)
Inductive Refusal := ValueError | OtherError.

(** [v == 1], as Python compares. *)
Definition is_version (v : option value) : bool :=
  match v with
  | Some (VInt n) => n =? VERSION
  | Some (VBool b) => b
  | Some (VFloat d) => is_integer d && (int_of d =? VERSION)
  | _ => false
  end.

Section Token.
Context `{JsonFloat} (decimal : Z -> option Z).
Context (hmac_sha256 : text -> text -> list Z).       (* key, message *)

(** [int(v)]. *)
Definition int_of_value (v : value) : Refusal + Z :=
  match v with
  | VInt n => inr n
  | VBool b => inr (if b then 1 else 0)
  | VFloat d => inr (if is_integer d then int_of d else (if neg d then -1 else 1) * (mant d / 2 ^ (- expo d)))
  | VStr s => match py_int decimal s with Some n => inr n | None => inl ValueError end
  | _ => inl OtherError
  end.

Definition signature (secret body : text) : text := b64 (hmac_sha256 secret body).

Definition mint_join_token (secret : text) (payload : value) : text :=
  let body := b64 (dump (sort_keys payload)) in body ++ 46 :: signature secret body.

(** [verify_join_token] at the second [now].  [hmac.compare_digest] raises [TypeError] on text that is not ASCII. *)
Definition verify_join_token (token secret : text) (now : Z) : Refusal + list (text * value) :=
  match Text.partition 46 (tstrip token) with
  | (_, None) => inl ValueError
  | (body, Some sig) =>
      if negb (is_ascii sig) then inl OtherError
      else if negb (bool_decide (sig = signature secret body)) then inl ValueError
      else match raw ← unb64 body; t ← utf8_strict raw; JsonParse.loads float_of (fun _ => true) t with
      | None => inl ValueError
      | Some (VObj payload) =>
          if negb (match field (points "typ") payload with Some (VStr t) => bool_decide (t = TYP) | _ => false end
                   && is_version (field (points "v") payload)) then inl ValueError
          else match int_of_value (default (VInt 0) (field (points "exp") payload)) with
          | inl e => inl e
          | inr exp =>
              if exp <? now then inl ValueError
              else if forallb (fun k => truthy (default VNull (field (points k) payload))) ["hub"; "cid"; "pub"; "jti"] then inr payload
              else inl ValueError
          end
      | Some _ => inl OtherError
      end
  end.

(** *** Sorting keeps what can be read back *)

Lemma ints_fit_sort v : ints_fit (sort_keys v) = ints_fit v.
Proof.
  induction v as [|b|n|d|s|l IH|fs IH] using value_ind'; try done.
  - cbn [sort_keys ints_fit]. induction IH as [|v l E _ IH]; [done|]. simpl. by rewrite E, IH.
  - rewrite sort_keys_obj. cbn [ints_fit]. transitivity (forallb (fun f => ints_fit f.2) (map sort_field fs)).
    + apply eq_true_iff_eq. rewrite !forallb_all. by rewrite merge_sort_Permutation.
    + induction IH as [|f fs E _ IH]; [done|]. simpl. by rewrite E, IH.
Qed.

Lemma readable_sort v : readable (fun _ => true) v = true -> readable (fun _ => true) (sort_keys v) = true.
Proof.
  unfold readable. rewrite any_objects, !andb_true_iff, any_objects, ints_fit_sort. intros [[O F] _]. split; [|done]. split; [|done]. by apply sort_keys_ok.
Qed.

(** *** The characters of a token *)

Lemma b64_chars raw : Forall is_byte raw -> Forall (fun c => is_white c = false /\ c <> 46 /\ 0 <= c < 128) (b64 raw).
Proof.
  intros F. pose proof (b64encode_alphabet raw F) as A. unfold b64, rstrip_pads. apply Forall_reverse, drop_while_keeps, Forall_reverse.
  rewrite Forall_fmap. eapply Forall_impl; [exact A|]. intros c C. simpl. unfold in_alphabet, is_alnum, is_upper, is_lower, is_num in C.
  unfold url_char, is_white. destruct (c =? 43) eqn:E1, (c =? 47) eqn:E2; bool_prop; subst; try done; lia.
Qed.

Lemma partition_join body sig : 46 ∉ body -> Text.partition 46 (body ++ 46 :: sig) = (body, Some sig).
Proof.
  induction body as [|c body IH]; intros N; [done|]. simpl. apply not_elem_of_cons in N as [Nc N].
  rewrite (proj2 (Z.eqb_neq c 46)) by done. by rewrite IH.
Qed.

Lemma strip_plain t : Forall (fun c => is_white c = false) t -> tstrip t = t.
Proof.
  intros F. apply strip_of_id; [by destruct F|]. destruct (last t) as [c|] eqn:E; [|done]. apply last_Some_elem_of in E.
  rewrite Forall_forall in F. by apply F.
Qed.

Context (hmac_bytes : forall key message, Forall is_byte (hmac_sha256 key message)).

Lemma minted_parts secret payload : readable (fun _ => true) payload = true ->
  let body := b64 (dump (sort_keys payload)) in let token := mint_join_token secret payload in
  Text.partition 46 (tstrip token) = (body, Some (signature secret body)) /\ is_ascii (signature secret body) = true /\
  (raw ← unb64 body; t ← utf8_strict raw; JsonParse.loads float_of (fun _ => true) t) = Some (sort_keys payload).
Proof.
  intros Rd body token. apply readable_sort in Rd. pose proof (readable_ok _ _ Rd) as O. pose proof (dump_printable _ O) as A0.
  set (text_ := dump (sort_keys payload)) in *. assert (A : Forall (fun c => 0 <= c < 128) text_) by (eapply Forall_impl; [exact A0|]; simpl; lia).
  assert (Ab : Forall is_byte text_) by (eapply Forall_impl; [exact A|]; unfold is_byte; simpl; lia).
  pose proof (b64_chars text_ Ab) as Cb. pose proof (b64_chars _ (hmac_bytes secret body)) as Cs. fold (signature secret body) in Cs. split_and!.
  - assert (St : tstrip token = token).
    { apply strip_plain. unfold token, mint_join_token. fold text_. fold body. apply Forall_app. split; [|apply Forall_cons; split; [done|]];
        (eapply Forall_impl; [eassumption|]); naive_solver. }
    rewrite St. unfold token, mint_join_token. fold text_. fold body. apply partition_join. intros I. rewrite Forall_forall in Cb. by apply Cb in I as (_ & ? & _).
  - unfold is_ascii. rewrite forallb_all. eapply Forall_impl; [exact Cs|]. simpl. lia.
  - unfold body. rewrite unb64_b64 by done. unfold mbind, option_bind. rewrite utf8_ascii by done. by apply loads_dump.
Qed.

(** A token the hub mints is accepted by the spoke until it expires, as the claims that went in: whatever the names, the labels and
    the key are, the encodings on the two sides fit.  And what is accepted was signed: its second part is the signature of the first
    under the shared secret. *)
Theorem join_token_roundtrip secret jti hub cid pub name region labels now ttl now' :
  hub <> [] -> cid <> [] -> pub <> [] -> jti <> [] ->
  readable (fun _ => true) (VObj (join_claims jti hub cid pub name region labels now ttl)) = true -> now' <= now + ttl ->
  let payload := join_claims jti hub cid pub name region labels now ttl in
  (exists claims, verify_join_token (mint_join_token secret (VObj payload)) secret now' = inr claims /\
     VObj claims = sort_keys (VObj payload) /\
     forall k v, (k, v) ∈ [("hub", hub); ("cid", cid); ("pub", pub); ("jti", jti)] -> field (points k) claims = Some (VStr v)) /\
  forall token at_ claims, verify_join_token token secret at_ = inr claims ->
    exists body, tstrip token = body ++ 46 :: signature secret body.
Proof.
  intros Nh Nc Np Nj Rd Ti payload. split.
  - destruct (minted_parts secret (VObj payload) Rd) as (P & As & Dc).
    assert (So : sort_keys (VObj payload) = VObj [(points "cid", VStr cid); (points "exp", VInt (now + ttl)); (points "hub", VStr hub);
      (points "iat", VInt now); (points "jti", VStr jti); (points "labels", sort_keys labels); (points "name", VStr name); (points "pub", VStr pub);
      (points "region", VStr region); (points "typ", VStr TYP); (points "v", VInt VERSION)]) by reflexivity.
    match type of So with _ = VObj ?fs => set (claims := fs) in So end. exists claims.
    assert (Fs : forall k v, (k, v) ∈ [("hub", hub); ("cid", cid); ("pub", pub); ("jti", jti)] -> field (points k) claims = Some (VStr v)).
    { intros k v I. repeat (apply elem_of_cons in I as [[= -> ->]|I]; [reflexivity|]). by apply elem_of_nil in I. }
    split; [|by split]. unfold verify_join_token. rewrite P, As. rewrite bool_decide_true by done. cbn [negb]. rewrite Dc, So.
    assert (field (points "typ") claims = Some (VStr TYP)) as -> by reflexivity.
    assert (field (points "v") claims = Some (VInt VERSION)) as -> by reflexivity.
    assert (field (points "exp") claims = Some (VInt (now + ttl))) as -> by reflexivity.
    rewrite bool_decide_true by done. change (is_version (Some (VInt VERSION))) with true. cbn [negb andb].
    change (int_of_value (default (VInt 0) (Some (VInt (now + ttl))))) with (inr (A := Refusal) (now + ttl)). cbv iota.
    rewrite (proj2 (Z.ltb_ge (now + ttl) now')) by done. cbn [forallb]. rewrite (Fs "hub" hub), (Fs "cid" cid), (Fs "pub" pub), (Fs "jti" jti) by (rewrite !elem_of_cons; auto 8).
    assert (T : forall v, v <> [] -> truthy (default VNull (Some (VStr v))) = true) by (intros v N; simpl; by rewrite bool_decide_false).
    by rewrite !T.
  - intros token at_ claims. unfold verify_join_token. destruct (Text.partition 46 (tstrip token)) as [body [sig|]] eqn:P; [|done].
    destruct (is_ascii sig); [|done]. cbn [negb]. case_bool_decide as E; [|done]. intros _. exists body. rewrite <- E.
    clear -P. revert body P. induction (tstrip token) as [|c t IH]; intros body P; [done|]. simpl in P. destruct (c =? 46) eqn:E.
    + bool_prop. injection P as <- <-. by subst.
    + destruct (Text.partition 46 t) as [a b]. injection P as <- ->. simpl. f_equal. by apply IH.
Qed.

End Token.

(** ** Tokens at the hub *)

(** A row of [UsedJoinToken]; times in seconds here, the clock's in microseconds. *)
Record JoinTokenRow := mkTokenRow { jt_cluster_id : text; jt_expires_at : Z; jt_claimed : bool }.
Notation Tokens := (gmap text JoinTokenRow).

Record JoinTokenBody := mkJoinBody { jb_cluster_id : text; jb_hub_url : text; jb_name : text; jb_region : text; jb_labels : value; jb_ttl_s : Z }.

(** [claim_join_token]: the checks, and the conditional update with the number of rows it changed.  [now] in microseconds. *)
Definition claim_checks (user : Claims) (jti cluster_id : text) (now : Z) (ts : Tokens) : R unit :=
  require_admin_or_service user ;;
  match ts !! jti with
  | None => inl (Http 404 "unknown join token")
  | Some row =>
      if negb (bool_decide (jt_cluster_id row = cluster_id)) then inl (Http 403 "join token is not scoped to this cluster")
      else if jt_expires_at row * 1000000 <? now then inl (Http 410 "join token expired")
      else inr tt
  end.
Definition claim_update (jti : text) (ts : Tokens) : Tokens * R unit :=
  match ts !! jti with
  | Some (mkTokenRow cluster_id expires_at false) => (<[jti := mkTokenRow cluster_id expires_at true]> ts, inr tt)
  | _ => (ts, inl (Http 409 "join token already used"))
  end.

(** [remove_cluster] on the table of tokens. *)
Definition remove_tokens (cluster_id : text) (ts : Tokens) : Tokens := filter (fun kv => jt_cluster_id kv.2 <> cluster_id) ts.

(** The table with the claims that have passed their checks, and what happened so far: the tokens minted, the claims answered with success. *)
Record Claiming := mkClaiming {
  tokens : Tokens;
  checked : list (text * text);             (* jti and cluster id *)
  minted : list (text * text * Z);          (* with the second it expires *)
  succeeded : list (text * text);
}.

Section Hub.
Context (signing_key pubkey fleet_api_url : text).                    (* [pubkey]: [derive_bundle_pubkey(signing_key)] *)
Context (safe_url_check : text -> bool).                              (* [assert_safe_url_async] does not raise *)

(** [mint_cluster_join_token] at the second [now], with the [uuid4] drawn: the claims that are signed, and the table. *)
Definition mint_cluster_join_token (user : Claims) (body : JoinTokenBody) (jti : text) (now : Z) (ts : Tokens) : Tokens * R value :=
  match require_admin user with
  | inl e => (ts, inl e)
  | inr _ =>
      if bool_decide (signing_key = []) then (ts, inl (Http 503 "hub signing key not configured"))
      else
        let hub_url := if bool_decide (jb_hub_url body = []) then fleet_api_url else jb_hub_url body in
        if bool_decide (hub_url = []) then (ts, inl (Http 400 "hub_url required"))
        else if negb (safe_url_check hub_url) then (ts, inl (Http 400 "hub_url failed the SSRF safety check"))
        else
          (<[jti := mkTokenRow (jb_cluster_id body) (now + jb_ttl_s body) false]> ts,
           inr (VObj (join_claims jti hub_url (jb_cluster_id body) pubkey (jb_name body) (jb_region body) (jb_labels body) now (jb_ttl_s body))))
  end.
(** Any number of processes serve claims: the checks of one and its update are separate transactions. *)
Inductive claiming : Claiming -> Claiming -> Prop :=
  | cl_mint user body jti now claims ts st : jti ∉ (minted st).*1.*1 -> mint_cluster_join_token user body jti now (tokens st) = (ts, inr claims) ->
      claiming st (mkClaiming ts (checked st) ((jti, jb_cluster_id body, now + jb_ttl_s body) :: minted st) (succeeded st))
  | cl_check user jti cluster_id now st : claim_checks user jti cluster_id now (tokens st) = inr tt ->
      claiming st (mkClaiming (tokens st) ((jti, cluster_id) :: checked st) (minted st) (succeeded st))
  | cl_update jti cluster_id before after st : checked st = before ++ (jti, cluster_id) :: after ->
      claiming st (mkClaiming (claim_update jti (tokens st)).1 (before ++ after) (minted st)
        (match (claim_update jti (tokens st)).2 with inr _ => (jti, cluster_id) :: succeeded st | inl _ => succeeded st end))
  | cl_remove cluster_id st : claiming st (mkClaiming (remove_tokens cluster_id (tokens st)) (checked st) (minted st) (succeeded st)).

Definition no_tokens : Claiming := mkClaiming ∅ [] [] [].

Record claiming_ok (st : Claiming) : Prop := {
  rows_minted : forall jti row, tokens st !! jti = Some row -> (jti, jt_cluster_id row, jt_expires_at row) ∈ minted st;
  checked_minted : forall jti cid, (jti, cid) ∈ checked st -> exists e, (jti, cid, e) ∈ minted st;
  succeeded_minted : forall jti cid, (jti, cid) ∈ succeeded st -> exists e, (jti, cid, e) ∈ minted st;
  succeeded_spent : forall jti row, jti ∈ (succeeded st).*1 -> tokens st !! jti = Some row -> jt_claimed row = true;
  succeeded_once : NoDup (succeeded st).*1;
}.

Lemma mint_spec user body jti now ts ts' claims : mint_cluster_join_token user body jti now ts = (ts', inr claims) ->
  ts' = <[jti := mkTokenRow (jb_cluster_id body) (now + jb_ttl_s body) false]> ts.
Proof. unfold mint_cluster_join_token. repeat (case_match; try done); by intros [= <- _]. Qed.

Lemma checks_spec user jti cid now ts : claim_checks user jti cid now ts = inr tt ->
  exists row, ts !! jti = Some row /\ jt_cluster_id row = cid /\ now <= jt_expires_at row * 1000000.
Proof.
  unfold claim_checks. destruct (require_admin_or_service user); [done|]. simpl. destruct (ts !! jti) as [row|]; [|done].
  case_bool_decide; [|done]. simpl. destruct (_ <? now) eqn:E; [done|]. intros _. bool_prop. exists row. split_and!; [done..|lia].
Qed.

Lemma succeeded_was_minted st jti : claiming_ok st -> jti ∈ (succeeded st).*1 -> jti ∈ (minted st).*1.*1.
Proof.
  intros O I. apply list_elem_of_fmap in I as ([j c] & -> & I). destruct (succeeded_minted st O j c I) as [e M].
  apply list_elem_of_fmap. exists (j, c). split; [done|]. apply list_elem_of_fmap. by exists (j, c, e).
Qed.

Lemma claiming_keeps st st' : claiming st st' -> claiming_ok st -> claiming_ok st'.
Proof.
  intros [user body jti now claims ts s0 Fr ->%mint_spec|user jti cid now s0 C|jti cid before after s0 E|cid s0] O; destruct O as [Rm Cm Sm Ss So] eqn:EO; clear EO.
  - split; cbn [tokens checked minted succeeded]; [| | | |done].
    + intros j row [[<- <-]|[_ L]]%lookup_insert_Some; [by left|right; by apply Rm].
    + intros j c I. destruct (Cm j c I) as [e M]. exists e. by right.
    + intros j c I. destruct (Sm j c I) as [e M]. exists e. by right.
    + intros j row I [[<- _]|[_ L]]%lookup_insert_Some; [|by eapply Ss]. destruct Fr. by apply succeeded_was_minted.
  - apply checks_spec in C as (row & L & <- & _). split; try done. intros j c [[= -> ->]|I]%elem_of_cons; [eauto|by apply Cm].
  - assert (Ch : forall j c, (j, c) ∈ before ++ after -> (j, c) ∈ checked s0).
    { intros j c. rewrite E, !elem_of_app, elem_of_cons. tauto. }
    assert (Mj : exists e, (jti, cid, e) ∈ minted s0) by (apply Cm; rewrite E, elem_of_app, elem_of_cons; auto).
    unfold claim_update. destruct (tokens s0 !! jti) as [[c' e' []]|] eqn:L; [split; cbn; eauto..| |split; cbn; eauto].
    split; cbn [tokens checked minted succeeded fst snd]; [|by eauto| | |].
    + intros j row [[<- <-]|[_ L']]%lookup_insert_Some; [by apply (Rm _ _ L)|by apply Rm].
    + intros j c [[= -> ->]|I]%elem_of_cons; [done|by apply Sm].
    + rewrite fmap_cons. intros j row I [[_ <-]|[N L']]%lookup_insert_Some; [done|]. apply elem_of_cons in I as [->|I]; [done|by eapply Ss].
    + rewrite fmap_cons. apply NoDup_cons. split; [|done]. intros I. by specialize (Ss _ _ I L).
  - split; try done; cbn [tokens succeeded]; unfold remove_tokens; [intros j row [L _]%map_lookup_filter_Some|intros j row I [L _]%map_lookup_filter_Some]; eauto.
Qed.

(** C36: A join token is claimed at most once, and only for the cluster it was minted for.  Claims run at the same time, the checks of one
    between the checks and the update of another, tokens are minted and clusters removed and enrolled again: no two claims of one token
    are answered with success, and each that is was minted by an administrator for that cluster. *)
Theorem token_claimed_once st :
  rtc claiming no_tokens st ->
  NoDup (succeeded st).*1 /\ forall jti cid, (jti, cid) ∈ succeeded st -> exists e, (jti, cid, e) ∈ minted st.
Proof.
  intros R. assert (O : claiming_ok st); [|destruct O; eauto]. assert (O0 : claiming_ok no_tokens).
  { split; cbn; [intros j row L; by rewrite lookup_empty in L|set_solver..|apply NoDup_nil_2]. }
  induction R as [|a b c S _ IH]; [done|]. apply IH. by eapply claiming_keeps.
Qed.
End Hub.

(** ** The spoke ([api/routers/fleet_enroll.py]) *)

Record FleetJoinState := mkJoinState { js_enabled : bool; js_cluster_id : text; js_hub_url : text; js_bundle_pubkey : text }.

(** The settings that joining changes. *)
Record FleetSettings := mkFleetSettings { fleet_enabled : bool; st_cluster_id : text; fleet_api_url : text; fleet_bundle_pubkey : text }.

(** The claims of a token that joining uses; what the hub mints has them as text. *)
Record JoinClaims := mkJoinClaims { jc_cid : text; jc_hub : text; jc_pub : text; jc_jti : text }.
Definition read_claims (payload : list (text * value)) : option JoinClaims :=
  match field (points "cid") payload, field (points "hub") payload, field (points "pub") payload, field (points "jti") payload with
  | Some (VStr cid), Some (VStr hub), Some (VStr pub), Some (VStr jti) => Some (mkJoinClaims cid hub pub jti)
  | _, _, _, _ => None
  end.

(** What the hub answers to the claim. *)
Inductive ClaimAnswer := Answered (status : Z) | Unreachable | ClaimRaises.

(** How an operation ends: with its answer, with an error of the API, or with an exception. *)
Inductive Ended (A : Type) := Done (a : A) | Refused (e : HttpError) | Exception.
Arguments Done {A} a.
Arguments Refused {A} e.
Arguments Exception {A}.

Section Spoke.
Context {L : Type} `{!PolicyLoader L}.

(** The tables of the spoke, its loader and its puller. *)
Record Enrolment := mkEnrolment {
  join_state : option FleetJoinState;
  bundle_rows : gmap text BundleState;
  policy_loader : L;
  fleet_settings : FleetSettings;
  puller_running : bool;
}.

(** [FleetPolicyPuller.start]. *)
Definition starts (cfg : FleetSettings) : bool :=
  fleet_enabled cfg && negb (bool_decide (fleet_api_url cfg = [])) && negb (bool_decide (st_cluster_id cfg = []))
  && negb (bool_decide (fleet_bundle_pubkey cfg = [])).

(** [configure_from_join_state], when the process starts with the settings of its environment. *)
Definition configure_from_join_state (env : FleetSettings) (s : Enrolment) : FleetSettings * bool :=
  match join_state s with
  | None => (env, false)
  | Some j => (mkFleetSettings (js_enabled j) (js_cluster_id j) (js_hub_url j) (js_bundle_pubkey j), js_enabled j)
  end.
Definition restart (env : FleetSettings) (s : Enrolment) : Enrolment :=
  let cfg := (configure_from_join_state env s).1 in mkEnrolment (join_state s) (bundle_rows s) (policy_loader s) cfg (starts cfg).

(** [fleet_join], with what the verification and the check of the address come to, the answer of the hub and whether the commit
    succeeds. *)
Definition fleet_join (user : Claims) (verified : Refusal + JoinClaims) (address : refusal + list text) (claimed : ClaimAnswer) (committed : bool)
    (s : Enrolment) : Enrolment * Ended JoinClaims :=
  match require_admin user with
  | inl e => (s, Refused e)
  | inr _ =>
      match verified with
      | inl ValueError => (s, Refused (Http 422 "invalid join token"))
      | inl OtherError => (s, Exception)
      | inr c =>
          match address with
          | inl Blocked => (s, Refused (Http 422 "join token hub_url failed the SSRF safety check"))
          | inl Raises => (s, Exception)
          | inr _ =>
              match claimed with
              | Unreachable => (s, Refused (Http 502 "could not reach hub to claim token"))
              | ClaimRaises => (s, Exception)
              | Answered status =>
                  if negb (status =? 200) then (s, Refused (Http 409 "join token claim failed at hub"))
                  else if negb committed then (s, Exception)
                  else
                    let cfg := mkFleetSettings true (jc_cid c) (jc_hub c) (jc_pub c) in
                    (mkEnrolment (Some (mkJoinState true (jc_cid c) (jc_hub c) (jc_pub c)))
                       ((fun r => mkState 0 (bs_manifest r)) <$> bundle_rows s) (policy_loader s) cfg (puller_running s || starts cfg), Done c)
              end
          end
      end
  end.

(** The deletions of [fleet_leave]. *)
Fixpoint shed (ks : list text) (l : L) : L * bool :=
  match ks with
  | [] => (l, true)
  | k :: ks' => match remove_policy (unkey k) l with (l', true) => shed ks' l' | r => r end
  end.
Definition manifests (rows : gmap text BundleState) : list text := (map_to_list rows).*2 ≫= bs_manifest.

Definition fleet_leave (user : Claims) (committed : bool) (s : Enrolment) : Enrolment * Ended unit :=
  match require_admin user with
  | inl e => (s, Refused e)
  | inr _ =>
      let '(l, ok) := shed (manifests (bundle_rows s)) (policy_loader s) in
      if negb (ok && committed) then (mkEnrolment (join_state s) (bundle_rows s) l (fleet_settings s) (puller_running s), Exception)
      else
        (mkEnrolment (Some (match join_state s with
                            | Some j => mkJoinState false (js_cluster_id j) (js_hub_url j) (js_bundle_pubkey j)
                            | None => mkJoinState false [] [] []
                            end))
           ((fun _ => mkState 0 []) <$> bundle_rows s) l (mkFleetSettings false [] [] []) false, Done tt)
  end.

(** What the puller works on. *)
Definition spoke_of (id : text) (s : Enrolment) : Spoke := mkSpoke (policy_loader s) (bundle_rows s !! id).

Lemma shed_other ks : forall l k, (forall t, t ∈ ks -> unkey t <> k) -> enforced (shed ks l).1 !! k = enforced l !! k.
Proof.
  induction ks as [|t ks IH]; intros l k N; cbn [shed]; [done|]. pose proof (remove_step (unkey t) l k) as S.
  assert (k <> unkey t) by (intros ->; by apply (N t); [left|]).
  destruct (remove_policy _ l) as [l' []]; simpl in S; [rewrite IH by (intros u I; apply N; by right)|]; by apply S.
Qed.

Lemma shed_done ks : forall l, (shed ks l).2 = true -> forall t, t ∈ ks -> enforced (shed ks l).1 !! unkey t = None.
Proof.
  induction ks as [|u ks IH]; intros l E t I; [by apply elem_of_nil in I|]. cbn [shed] in *.
  pose proof (remove_done (unkey u) l) as D. destruct (remove_policy _ l) as [l' []]; [|done]. simpl in D.
  destruct (decide (unkey t ∈ map unkey ks)) as [(v & -> & Iv)%list_elem_of_fmap|N]; [by apply IH|].
  assert (Et : unkey t = unkey u).
  { apply elem_of_cons in I as [->|I]; [done|]. destruct N. by apply (list_elem_of_fmap_2 unkey). }
  rewrite Et, shed_other; [by rewrite D, set_policy_eq|]. intros v Iv Ev. apply N. rewrite Et, <- Ev. by apply (list_elem_of_fmap_2 unkey).
Qed.

Lemma manifests_elem rows t : t ∈ manifests rows <-> exists id r, rows !! id = Some r /\ t ∈ bs_manifest r.
Proof.
  unfold manifests. rewrite list_elem_of_bind. split.
  - intros (r & I & ([id r'] & -> & J)%list_elem_of_fmap). exists id, r'. by apply elem_of_map_to_list in J.
  - intros (id & r & Lk & I). exists r. split; [done|]. apply list_elem_of_fmap. exists (id, r). split; [done|]. by apply elem_of_map_to_list.
Qed.

(** Leaving undoes what the manifests record, and lasts: no policy that a manifest of any enrolment names stays enforced, every other
    policy stays as it is, the manifests are empty and the versions forgotten, the puller is stopped, and after a restart it does not
    start, whatever the environment says. *)
Theorem leave_sheds user committed s s' env :
  fleet_leave user committed s = (s', Done tt) ->
  (forall id r t, bundle_rows s !! id = Some r -> t ∈ bs_manifest r -> enforced (policy_loader s') !! unkey t = None) /\
  (forall k, (forall id r t, bundle_rows s !! id = Some r -> t ∈ bs_manifest r -> unkey t <> k) ->
     enforced (policy_loader s') !! k = enforced (policy_loader s) !! k) /\
  (forall id r, bundle_rows s' !! id = Some r -> r = mkState 0 []) /\
  puller_running s' = false /\ puller_running (restart env s') = false.
Proof.
  unfold fleet_leave. destruct (require_admin user); [done|]. pose proof (shed_done (manifests (bundle_rows s)) (policy_loader s)) as Sd.
  pose proof (shed_other (manifests (bundle_rows s)) (policy_loader s)) as So. destruct (shed _ _) as [l []]; [|done].
  destruct committed; [|done]. simpl in Sd, So |- *. intros [= <-]. cbn [policy_loader bundle_rows puller_running]. split_and!; try done.
  - intros id r t Lk I. apply Sd; [done|]. apply manifests_elem. eauto.
  - intros k N. apply So. intros t (id & r & Lk & I)%manifests_elem. eauto.
  - intros id r. rewrite lookup_fmap. intros (r' & _ & ->)%fmap_Some. done.
  - unfold restart, starts. simpl. by destruct (join_state s).
Qed.

(** What joining leaves: the puller works with the trust root of the token on the row of its cluster, which keeps its manifest and counts
    from 0. *)
Lemma join_spec user verified address claimed committed s s' c :
  fleet_join user verified address claimed committed s = (s', Done c) ->
  verified = inr c /\ claimed = Answered 200 /\ fleet_settings s' = mkFleetSettings true (jc_cid c) (jc_hub c) (jc_pub c) /\
  spoke_of (jc_cid c) s' = mkSpoke (policy_loader s) ((fun r => mkState 0 (bs_manifest r)) <$> bundle_rows s !! jc_cid c).
Proof.
  unfold fleet_join. destruct (require_admin user); [done|]. destruct verified as [[]|c']; [done..|]. destruct address as [[]|]; [done..|].
  destruct claimed as [status| |]; [|done..]. destruct (status =? 200) eqn:St; [|done]. destruct committed; [|done]. simpl. intros [= <- <-].
  bool_prop. subst. split_and!; [done..|]. unfold spoke_of. cbn [policy_loader bundle_rows]. by rewrite lookup_fmap.
Qed.

(** After joining, one cycle without faults brings the spoke to what the hub resolves for it: also where the hub counts its versions
    anew and is below what the spoke had applied before, and what the manifest of an earlier enrolment as this cluster names and the hub
    does not resolve is deleted. *)
Theorem rejoin_converges `{Signing} digest signing_key ttl saved_by error_text Q
    user verified address claimed committed s s' c h hub_user hub_now spoke_now delivered k :
  fleet_join user verified address claimed committed s = (s', Done c) ->
  SigningLaws signing_key (jc_pub c) -> (forall R R', digest R = digest R' -> R = R') -> (forall R, digest R <> []) ->
  Forall (fun t => 58 ∈ t) (manifests (bundle_rows s)) ->
  clusters h !! jc_cid c = Some k -> 0 <= cl_bundle_version k ->
  Quiet Q -> Q (policy_loader s) -> authorised (jc_cid c) hub_user = true -> signing_key <> [] ->
  rfc3339_z hub_now <= spoke_now <= rfc3339_z (hub_now + ttl) ->
  let after := (cycle digest signing_key (jc_pub c) (jc_cid c) ttl saved_by error_text hub_user no_faults hub_now spoke_now delivered h (spoke_of (jc_cid c) s')).2 in
  agrees saved_by (resolve_for_cluster (policies h) k) after /\
  forall old t, bundle_rows s !! jc_cid c = Some old -> t ∈ bs_manifest old -> t ∉ manifest_of (resolve_for_cluster (policies h) k) ->
    is_reserved_scope (unkey t).2 = false -> enforced (loader after) !! unkey t = None.
Proof.
  intros Jn Sl Di Dg Co Ck Vk Qu Ql Au Sk Ti after. destruct (join_spec _ _ _ _ _ _ _ _ Jn) as (_ & _ & _ & Sp).
  assert (Ok : row_ok (spoke_of (jc_cid c) s')).
  { rewrite Sp. unfold row_ok. cbn [row]. destruct (bundle_rows s !! jc_cid c) as [r|] eqn:Lk; [|done]. simpl. rewrite Forall_forall in Co |- *.
    intros t I. apply Co, manifests_elem. eauto. }
  assert (Fr : fresh (jc_cid c) h (spoke_of (jc_cid c) s')).
  { exists k. split_and!; try done. rewrite Sp. unfold last_applied. simpl. by destruct (bundle_rows s !! jc_cid c). }
  destruct (quiet_cycle digest signing_key (jc_pub c) (jc_cid c) ttl saved_by error_text Q hub_user hub_now spoke_now delivered h (spoke_of (jc_cid c) s'))
    as (k' & s'' & Ck' & E & Ag & W); try done; [by rewrite Sp|by apply fresh_ok|].
  rewrite Ck in Ck'. injection Ck' as <-. subst after. rewrite E. split; [done|]. intros old t Lk It Nt Rt.
  destruct W as [->|(p & Ep & (_ & _ & De) & _)].
  - destruct Ag as [Ag _]. rewrite Sp, Lk in Ag. simpl in Ag. injection Ag as Em. by rewrite Em in It.
  - apply De; [|done]. unfold dropped_keys. rewrite Sp, Lk. simpl. apply list_elem_of_filter. split; [|done].
    by rewrite (manifest_perm _ _ (applicable_resolved (policies h) k p Ep)).
Qed.
End Spoke.

(** ** Runs *)
Module EnrolRun.
Import FleetRun LiteralFloat.

Definition mac (key message : text) : list Z := map (fun c => c mod 256) (key ++ message).
Lemma mac_bytes key message : Forall is_byte (mac key message).
Proof. unfold mac. rewrite Forall_fmap. apply Forall_forall. intros c _. unfold is_byte. simpl. apply Z.mod_pos_bound. lia. Qed.

Definition hub_url : text := points "https://hub.example.com".

Lemma join_token_roundtrip_witness :
  let payload := join_claims (points "j1") hub_url c1 key (points "Ørsted") [] (VObj [(points "env", VStr (points "prod"))]) 1000 600 in
  exists claims, verify_join_token (fun _ => None) mac (mint_join_token mac (points "s3cret") (VObj payload)) (points "s3cret") 1600 = inr claims /\
    VObj claims = sort_keys (VObj payload).
Proof.
  intros payload.
  destruct (join_token_roundtrip (fun _ => None) mac mac_bytes (points "s3cret") (points "j1") hub_url c1 key (points "Ørsted") []
    (VObj [(points "env", VStr (points "prod"))]) 1000 600 1600) as [(claims & V & E & _) _]; [done..|vm_compute; reflexivity|lia|].
  exists claims. split; [exact V|exact E].
Defined.

(** Two claims of one token, each checked before either updates. *)
Definition body1 : JoinTokenBody := mkJoinBody c1 hub_url [] [] (VObj []) 600.
Definition after_two : Claiming :=
  mkClaiming {[points "j1" := mkTokenRow c1 1600 true]} [] [(points "j1", c1, 1600)] [(points "j1", c1)].

Lemma token_claimed_once_witness :
  NoDup (succeeded after_two).*1 /\ forall jti cid, (jti, cid) ∈ succeeded after_two -> exists e, (jti, cid, e) ∈ minted after_two.
Proof.
  apply (token_claimed_once key key [] (fun _ => true)).
  eapply rtc_l; [eapply (cl_mint _ _ _ _ admin body1 (points "j1") 1000 _ _ no_tokens); [apply not_elem_of_nil|reflexivity]|].
  eapply rtc_l; [apply (cl_check _ _ _ _ admin (points "j1") c1 1500000000); vm_compute; reflexivity|].
  eapply rtc_l; [apply (cl_check _ _ _ _ admin (points "j1") c1 1500000000); vm_compute; reflexivity|].
  eapply rtc_l; [apply (cl_update _ _ _ _ (points "j1") c1 [] [(points "j1", c1)]); reflexivity|].
  eapply rtc_l; [apply (cl_update _ _ _ _ (points "j1") c1 [] []); reflexivity|].
  vm_compute. apply rtc_refl.
Defined.

Definition claims1 (cid : text) : JoinClaims := mkJoinClaims cid hub_url key (points "j1").
Definition joined (cid : text) (s : Enrolment (L:=Loader)) : Enrolment (L:=Loader) := (fleet_join admin (inr (claims1 cid)) (inr []) (Answered 200) true s).1.

(** An enrolment that had applied version 7 of a bundle with two policies; a third policy is the cluster's own. *)
Definition own : Policy := mkPolicy (points "own") 1 (points "block") (points "admin").
Definition bot : Key := (points "shop", points "bot").
Definition clerk : Key := (points "shop", points "clerk").
Definition enrolled : Enrolment (L:=Loader) :=
  mkEnrolment (Some (mkJoinState true c1 hub_url key)) {[c1 := mkState 7 [key_text bot; key_text clerk]]}
    (mkLoader {[bot := own; clerk := own; (points "shop", points "audit") := own]} []) (mkFleetSettings true c1 hub_url key) true.

Lemma leave_sheds_witness :
  let s' := (fleet_leave admin true enrolled).1 in
  enforced (policy_loader s') !! bot = None /\ enforced (policy_loader s') !! (points "shop", points "audit") = Some own.
Proof.
  intros s'. assert (E : fleet_leave admin true enrolled = (s', Done tt)) by (unfold s'; vm_compute; reflexivity).
  destruct (leave_sheds admin true enrolled s' (mkFleetSettings true c1 hub_url key) E) as (Sh & Ot & _). split.
  - apply (Sh c1 (mkState 7 [key_text bot; key_text clerk]) (key_text bot)); [vm_compute; reflexivity|by left].
  - rewrite Ot; [vm_compute; reflexivity|]. intros id r t Lk I Ek. unfold enrolled in Lk. cbn [bundle_rows] in Lk. apply lookup_singleton_Some in Lk as [_ <-].
    apply elem_of_cons in I as [->|I]; [by vm_compute in Ek|]. apply elem_of_cons in I as [->|I]; [by vm_compute in Ek|by apply elem_of_nil in I].
Defined.

(** The hub has forgotten the cluster and counts from 0; the spoke had applied version 7. *)
Definition hub1 : Hub := (run [Author admin (rules "all" "shop" "bot" [])] (start (mkLoader ∅ []))).1.

Lemma rejoin_converges_witness :
  let after := (cycle digest key key c1 3600000000 saved_by refused admin no_faults 7500000 7600000 true hub1 (spoke_of c1 (joined c1 enrolled))).2 in
  exists k, clusters hub1 !! c1 = Some k /\ agrees saved_by (resolve_for_cluster (policies hub1) k) after /\ enforced (loader after) !! clerk = None.
Proof.
  intros after. eexists. split; [vm_compute; reflexivity|].
  match goal with |- agrees _ (resolve_for_cluster _ ?k) _ /\ _ =>
    destruct (rejoin_converges digest key 3600000000 saved_by refused quiet admin (inr (claims1 c1)) (inr []) (Answered 200) true enrolled
      (joined c1 enrolled) (claims1 c1) hub1 admin 7500000 7600000 true k) as [Ag De]
  end.
  - vm_compute. reflexivity.
  - exact laws.
  - exact digest_inj.
  - done.
  - vm_compute. repeat constructor; repeat (apply elem_of_list_here || apply elem_of_list_further).
  - vm_compute. reflexivity.
  - vm_compute. discriminate.
  - exact quiet_quiet.
  - vm_compute. reflexivity.
  - vm_compute. reflexivity.
  - done.
  - vm_compute. split; discriminate.
  - split; [exact Ag|]. apply (De (mkState 7 [key_text bot; key_text clerk]) (key_text clerk)); [vm_compute; reflexivity|right; by left| |vm_compute; reflexivity].
    apply (proj1 (bool_decide_eq_false (key_text clerk ∈ _))). vm_compute. reflexivity.
Defined.

(** The deletions of a departure do not pass over the scopes the cluster manages itself, as those of a pull do. *)
Example leave_deletes_managed_scope :
  let k : Key := (points "shop", points "__baseline__") in
  let s := mkEnrolment None {[c1 := mkState 1 [key_text k]]} (mkLoader {[k := own]} []) (mkFleetSettings true c1 hub_url key) true in
  enforced (policy_loader (fleet_leave admin true s).1) !! k = None /\ enforced (remove_all [key_text k] (policy_loader s)).1 !! k = Some own.
Proof. vm_compute. done. Qed.

(** Joining as another cluster without leaving first: the manifest of the earlier cluster id is no longer read, so its policies stay. *)
Example other_cluster_keeps_policies :
  let c2 := points "c2" in
  let h := (heartbeat admin c2 (mkHeartbeat c2 [] [] [] false [] []) 5000000 (mkHub [] ∅ ∅)).1 in
  let after := (cycle digest key key c2 3600000000 saved_by refused admin no_faults 7500000 7600000 true h (spoke_of c2 (joined c2 enrolled))).2 in
  row after = Some (mkState 1 []) /\ enforced (loader after) !! bot = Some own.
Proof. vm_compute. done. Qed.
(** A departure sheds first and stops the puller last: a pull that has passed its checks goes on saving after the deletions. *)
Example pull_survives_leave :
  let s := (fleet_leave admin true enrolled).1 in
  let bundle := [mkBundlePolicy (points "shop") (points "bot") (points "allow") 100 (points "block") 1] in
  fleet_enabled (fleet_settings s) = false /\ enforced (policy_loader s) !! bot = None /\
  is_Some (enforced (create_all saved_by 8 bundle (policy_loader s)).1 !! bot).
Proof. vm_compute. eauto. Qed.

(** A signature with a character outside ASCII ends the verification with an exception that is no [ValueError]. *)
Example strange_signature_raises : verify_join_token (fun _ => None) mac (points "body." ++ [233]) (points "s3cret") 1000 = inl OtherError.
Proof. vm_compute. reflexivity. Qed.
End EnrolRun.
