(* ===== verification/FleetRollup.v ===== *)
(** * What the hub shows of its fleet ([fleet/routers/ingest.py], [fleet/routers/fleet.py], [fleet_relay.py], the reads of [fleet_policy.py])

    Each spoke's relay counts its audit records of the last two hours by hour and decision and posts the counts with
    its agents; the hub stores them by overwriting, and the console reads them per cluster.  The theorems: what a
    cycle of the relay leaves in every counter, and that repeating one changes nothing; that every read of a caller
    bound to a cluster is of that cluster; and that the token of the drill-down goes only to an address that passed
    the check, for an administrator, for a cluster that lets its records out. *)

From stdpp Require Import sorting.
From S2P Require Import Prelude Text Json Auth Ssrf Fleet FleetEnroll.

(** ** The tables *)

Record AgentRollup := mkAgentRollup {
  ar_namespace : text; ar_agent_class : text; ar_trust_score : double; ar_trust_category : text; ar_last_seen : Z;
}.
(** The key of a counter: namespace, hour and decision. *)
Notation Bucket := (text * Z * text)%type.

Record Store := mkStore {
  hub : Hub;
  agent_rollups : gmap (text * text) AgentRollup;          (* by cluster and SPIFFE id *)
  audit_rollups : gmap (text * Bucket) Z;                  (* by cluster and counter *)
  join_tokens : gmap text JoinTokenRow;
}.

(** ** Ingest *)

Record AgentRollupIn := mkAgentIn {
  ai_spiffe_id : text; ai_namespace : text; ai_agent_class : text; ai_trust_score : double; ai_trust_category : text; ai_last_seen : option Z;
}.
Record RollupBody := mkRollupBody { rb_agents : list AgentRollupIn; rb_audit : list (Bucket * Z) }.

Definition upsert_agents (cluster_id : text) (now : Z) (agents : list AgentRollupIn) (t : gmap (text * text) AgentRollup) :=
  foldl (fun t a => <[(cluster_id, ai_spiffe_id a) :=
    mkAgentRollup (ai_namespace a) (ai_agent_class a) (ai_trust_score a) (ai_trust_category a) (default now (ai_last_seen a))]> t) t agents.
Definition upsert_audit (cluster_id : text) (audit : list (Bucket * Z)) (t : gmap (text * Bucket) Z) :=
  foldl (fun t r => <[(cluster_id, r.1) := r.2]> t) t audit.

Definition rollup (user : Claims) (cluster_id : text) (body : RollupBody) (now : Z) (s : Store) : Store * R unit :=
  match require_admin_or_service user, scoped_cluster user (VStr cluster_id) with
  | inl e, _ | _, inl e => (s, inl e)
  | inr _, inr _ =>
      (mkStore (hub s) (upsert_agents cluster_id now (rb_agents body) (agent_rollups s)) (upsert_audit cluster_id (rb_audit body) (audit_rollups s))
         (join_tokens s), inr tt)
  end.

(** [remove_cluster]. *)
Definition remove_cluster (user : Claims) (cluster_id : text) (s : Store) : Store * R unit :=
  match require_admin user with
  | inl e => (s, inl e)
  | inr _ =>
      match clusters (hub s) !! cluster_id with
      | None => (s, inl (Http 404 "cluster not registered"))
      | Some _ =>
          (mkStore (mkHub (policies (hub s)) (delete cluster_id (clusters (hub s))) (delete cluster_id (rollouts (hub s))))
             (filter (fun kv => kv.1.1 <> cluster_id) (agent_rollups s)) (filter (fun kv => kv.1.1 <> cluster_id) (audit_rollups s))
             (remove_tokens cluster_id (join_tokens s)), inr tt)
      end
  end.

(** ** The relay *)

Record AuditRecord := mkAuditRecord { au_namespace : text; au_timestamp : Z; au_decision : text }.

Definition HOUR : Z := 3600 * 1000000.
Definition AUDIT_WINDOW_HOURS : Z := 2.

(** [date_trunc('hour', timestamp_utc)], in microseconds. *)
Definition hour_of (t : Z) : Z := t - t mod HOUR.
Definition bucket_of (r : AuditRecord) : Bucket := (au_namespace r, hour_of (au_timestamp r), au_decision r).
Definition counted (b : Bucket) (log : list AuditRecord) : Z := Z.of_nat (length (filter (fun r => bucket_of r = b) log)).

(** The counts of [_aggregate]: the records of the window, grouped. *)
Definition since (now : Z) : Z := now - AUDIT_WINDOW_HOURS * HOUR.
Definition windowed (now : Z) (log : list AuditRecord) : list AuditRecord := filter (fun r => since now <= au_timestamp r) log.
Definition aggregate_audit (now : Z) (log : list AuditRecord) : list (Bucket * Z) :=
  let w := windowed now log in map (fun b => (b, counted b w)) (remove_dups (map bucket_of w)).

(** A cycle: the heartbeat and the rollup, each of which the hub may refuse; without the heartbeat nothing is posted. *)
Definition relay_once (user : Claims) (cluster_id : text) (hb : HeartbeatBody) (agents : list AgentRollupIn) (log : list AuditRecord)
    (spoke_now hub_now : Z) (s : Store) : Store :=
  match heartbeat user cluster_id hb hub_now (hub s) with
  | (_, inl _) => s
  | (h, inr _) =>
      (rollup user cluster_id (mkRollupBody agents (aggregate_audit spoke_now log)) hub_now
         (mkStore h (agent_rollups s) (audit_rollups s) (join_tokens s))).1
  end.

Lemma upsert_audit_lookup cid audit key : NoDup audit.*1 -> forall t,
  upsert_audit cid audit t !! key = match list_find (fun r => (cid, r.1) = key) audit with Some (_, r) => Some r.2 | None => t !! key end.
Proof.
  unfold upsert_audit. induction audit as [|r audit IH]; intros ND t; [done|]. rewrite fmap_cons in ND. apply NoDup_cons in ND as [Nr ND].
  cbn [foldl]. rewrite IH by done. cbn [list_find]. destruct (decide ((cid, r.1) = key)) as [<-|N].
  - assert (list_find (fun r0 => (cid, r0.1) = (cid, r.1)) audit = None) as ->; [|by rewrite lookup_insert_eq].
    apply list_find_None, Forall_forall. intros r' I [= E]. apply Nr. rewrite <- E. by apply (list_elem_of_fmap_2 fst).
  - destruct (list_find _ audit) as [[i r']|]; [done|]. simpl. by rewrite lookup_insert_ne.
Qed.

Lemma aggregate_keys now log : (aggregate_audit now log).*1 = remove_dups (map bucket_of (windowed now log)).
Proof. unfold aggregate_audit. rewrite <- list_fmap_compose. rewrite (list_fmap_ext _ id); [by rewrite list_fmap_id|done]. Qed.

(** A counter after the counts of a window are stored. *)
Lemma aggregate_stored cid now log key t :
  upsert_audit cid (aggregate_audit now log) t !! key =
  if bool_decide (key.1 = cid /\ key.2 ∈ map bucket_of (windowed now log)) then Some (counted key.2 (windowed now log)) else t !! key.
Proof.
  rewrite upsert_audit_lookup by (rewrite aggregate_keys; apply NoDup_remove_dups). destruct key as [c b]. cbn [fst snd].
  case_bool_decide as E.
  - destruct E as [-> I]. destruct (list_find _ _) as [[i r]|] eqn:F.
    + apply list_find_Some in F as (Lk & [= <-] & _). apply list_elem_of_lookup_2 in Lk. unfold aggregate_audit in Lk.
      by apply list_elem_of_fmap in Lk as (b' & -> & _).
    + apply list_find_None in F. rewrite Forall_forall in F. destruct (F (b, counted b (windowed now log))); [|done].
      unfold aggregate_audit. apply list_elem_of_fmap. exists b. split; [done|]. by apply elem_of_remove_dups.
  - destruct (list_find _ _) as [[i r]|] eqn:F; [|done]. destruct E. apply list_find_Some in F as (Lk & [= <- <-] & _). split; [done|].
    apply list_elem_of_lookup_2 in Lk. unfold aggregate_audit in Lk. apply list_elem_of_fmap in Lk as (b' & -> & I). by apply elem_of_remove_dups.
Qed.

Lemma relay_audit user cid hb agents log now hub_now s : authorised cid user = true ->
  audit_rollups (relay_once user cid hb agents log now hub_now s) = upsert_audit cid (aggregate_audit now log) (audit_rollups s).
Proof.
  unfold authorised, relay_once, heartbeat, rollup. intros A. destruct (require_admin_or_service user); [done|].
  by destruct (scoped_cluster user (VStr cid)).
Qed.

Lemma counted_all now log b : since now <= b.1.2 -> counted b (windowed now log) = counted b log.
Proof.
  intros Le. unfold counted, windowed. do 2 f_equal. rewrite list_filter_filter. apply list_filter_iff. intros r. split; [tauto|].
  intros <-. split; [done|]. simpl in Le. unfold hour_of in Le. pose proof (Z.mod_pos_bound (au_timestamp r) HOUR). unfold HOUR in *. lia.
Qed.

Lemma windowed_bucket now log b : b ∈ map bucket_of (windowed now log) <-> exists r, r ∈ log /\ bucket_of r = b /\ since now <= au_timestamp r.
Proof. rewrite list_elem_of_fmap. unfold windowed. setoid_rewrite list_elem_of_filter. naive_solver. Qed.

(** C37: What a cycle of the relay leaves in the hub's counters.  Every counter of an hour that the window covers in full has exactly the
    count of the cluster's records of that namespace, hour and verdict, whatever was stored for it before; a counter of another
    cluster, or without a record in the window, is as it was; and a cycle that is repeated changes nothing, so no record is
    counted twice. *)
Theorem relay_counts user cid hb agents log now hub_now s :
  authorised cid user = true ->
  let s' := relay_once user cid hb agents log now hub_now s in
  (forall b, since now <= b.1.2 -> b ∈ map bucket_of log -> audit_rollups s' !! (cid, b) = Some (counted b log)) /\
  (forall key, key.1 <> cid \/ key.2 ∉ map bucket_of (windowed now log) -> audit_rollups s' !! key = audit_rollups s !! key) /\
  audit_rollups (relay_once user cid hb agents log now hub_now s') = audit_rollups s'.
Proof.
  intros A s'. subst s'. rewrite !relay_audit by done. split_and!.
  - intros b Le I. rewrite aggregate_stored, bool_decide_true; [by rewrite counted_all|]. split; [done|]. apply windowed_bucket.
    apply list_elem_of_fmap in I as (r & -> & I). exists r. split_and!; [done..|]. simpl in Le. unfold hour_of in Le.
    pose proof (Z.mod_pos_bound (au_timestamp r) HOUR). unfold HOUR in *. lia.
  - intros key N. rewrite aggregate_stored, bool_decide_false; [done|]. tauto.
  - apply map_eq. intros key. rewrite aggregate_stored. case_bool_decide as E; [|done]. by rewrite aggregate_stored, bool_decide_true.
Qed.

(** ** Reads *)

(** [cluster not in (None, "", "*")]: the cluster the rows are restricted to. *)
Definition only_cluster (v : value) : option text :=
  match v with VStr t => if bool_decide (t = []) || bool_decide (t = points "*") then None else Some t | _ => None end.
Definition shown (only : option text) (cluster_id : text) : bool := match only with Some c => bool_decide (cluster_id = c) | None => true end.

Section Reads.
Context (stale_after : Z).       (* microseconds *)

Definition list_clusters (user : Claims) (now : Z) (s : Store) : R (list (text * Cluster * bool)) :=
  only ← scoped_cluster user VNull;
  mret (map (fun kv => (kv, now - cl_last_heartbeat kv.2 <=? stale_after))
         (filter (fun kv => shown (only_cluster only) kv.1 = true) (map_to_list (clusters (hub s))))).

Definition list_agents (user : Claims) (cluster : value) (s : Store) : R (list (text * text * AgentRollup)) :=
  c ← scoped_cluster user cluster; mret (filter (fun kv => shown (only_cluster c) kv.1.1 = true) (map_to_list (agent_rollups s))).

(** The counters from [since] on, and their sums per cluster and decision; a cluster's total is the sum of them all. *)
Definition audit_rows (user : Claims) (cluster : value) (hours now : Z) (s : Store) : R (list (text * Bucket * Z)) :=
  c ← scoped_cluster user cluster;
  mret (filter (fun kv => now - hours * HOUR <= kv.1.2.1.2 /\ shown (only_cluster c) kv.1.1 = true) (map_to_list (audit_rollups s))).
Definition sum_of (cluster_id decision : text) (rows : list (text * Bucket * Z)) : Z :=
  foldr Z.add 0 (map snd (filter (fun kv => kv.1.1 = cluster_id /\ kv.1.2.2 = decision) rows)).
Definition total_of (cluster_id : text) (rows : list (text * Bucket * Z)) : Z := foldr Z.add 0 (map snd (filter (fun kv => kv.1.1 = cluster_id) rows)).

(** [audit_summary]: an entry per cluster with rows. *)
Definition audit_summary (user : Claims) (cluster : value) (hours now : Z) (s : Store) : R (list (text * (text -> Z) * Z)) :=
  rows ← audit_rows user cluster hours now s;
  mret (map (fun cid => (cid, fun d => sum_of cid d rows, total_of cid rows)) (remove_dups (map (fun kv => kv.1.1) rows))).

(** [trust_distribution]: the agents of each cluster by category. *)
Definition trust_distribution (user : Claims) (cluster : value) (s : Store) : R (list (text * (text -> nat) * nat)) :=
  c ← scoped_cluster user cluster;
  let rows := filter (fun kv => shown (only_cluster c) kv.1.1 = true) (map_to_list (agent_rollups s)) in
  mret (map (fun cid => (cid, fun cat => length (filter (fun kv => kv.1.1 = cid /\ ar_trust_category kv.2 = cat) rows),
                         length (filter (fun kv => kv.1.1 = cid) rows)))
         (remove_dups (map (fun kv => kv.1.1) rows))).

Definition list_rollout (user : Claims) (s : Store) : R (list (text * PolicyRollout)) :=
  c ← scoped_cluster user VNull; mret (filter (fun kv => shown (only_cluster c) kv.1 = true) (map_to_list (rollouts (hub s)))).

(** [list_policies]: a policy for one cluster is shown to that cluster, any other to all; by name. *)
Definition name_le (p q : FleetPolicy) : Prop := text_le (fp_name p) (fp_name q).
#[local] Instance name_le_dec : RelDecision name_le.
Proof. intros p q. unfold name_le. apply _. Defined.
Definition offered (only : option text) (p : FleetPolicy) : bool :=
  match only, field CLUSTER_ID (fp_target_selector p) with Some c, Some t => bool_decide (t = c) | _, _ => true end.
Definition list_policies (user : Claims) (cluster : value) (s : Store) : R (list FleetPolicy) :=
  require_admin_or_service user ;;
  c ← scoped_cluster user cluster;
  mret (merge_sort name_le (filter (fun p => offered (only_cluster c) p = true) (policies (hub s)))).

(** A caller bound to a cluster is answered for that cluster, or not at all. *)
Lemma bound_scope user requested c v :
  is_role "admin" user = false -> c_cluster user = c -> c <> [] -> c <> points "*" -> scoped_cluster user requested = inr v -> only_cluster v = Some c.
Proof.
  intros Na <- Ne Ns. unfold scoped_cluster. rewrite Na, (bool_decide_false _ Ns), (bool_decide_false _ Ne). cbn [orb negb andb].
  destruct (truthy requested && true && _); [done|]. intros [= <-]. unfold or_requested. rewrite (bool_decide_false _ Ne). simpl.
  by rewrite (bool_decide_false _ Ne), (bool_decide_false _ Ns).
Qed.

Lemma shown_only c cid : shown (Some c) cid = true -> cid = c.
Proof. simpl. by intros ?%bool_decide_eq_true. Qed.

(** Every read of a caller that is not an administrator and whose token names a cluster shows rows of that cluster alone: its entry in
    the list, its agents, its counts, its rollout, and of the policies for one cluster only its own. *)
Theorem reads_scoped user c requested hours now s :
  is_role "admin" user = false -> c_cluster user = c -> c <> [] -> c <> points "*" ->
  (forall l, list_clusters user now s = inr l -> forall r, r ∈ l -> r.1.1 = c) /\
  (forall l, list_agents user requested s = inr l -> forall r, r ∈ l -> r.1.1 = c) /\
  (forall l, audit_summary user requested hours now s = inr l -> forall r, r ∈ l -> r.1.1 = c) /\
  (forall l, trust_distribution user requested s = inr l -> forall r, r ∈ l -> r.1.1 = c) /\
  (forall l, list_rollout user s = inr l -> forall r, r ∈ l -> r.1 = c) /\
  (forall l, list_policies user requested s = inr l -> forall p, p ∈ l -> forall t, field CLUSTER_ID (fp_target_selector p) = Some t -> t = c).
Proof.
  intros Na Ec Ne Ns. pose proof (fun q v => bound_scope user q c v Na Ec Ne Ns) as B. split_and!; intros l.
  - unfold list_clusters. destruct (scoped_cluster user VNull) as [|v] eqn:E; [done|]. intros [= <-] r (kv & -> & I)%list_elem_of_fmap.
    apply list_elem_of_filter in I as [Sh _]. rewrite (B _ _ E) in Sh. by apply shown_only.
  - unfold list_agents. destruct (scoped_cluster user requested) as [|v] eqn:E; [done|]. intros [= <-] r I.
    apply list_elem_of_filter in I as [Sh _]. rewrite (B _ _ E) in Sh. by apply shown_only.
  - unfold audit_summary, audit_rows. destruct (scoped_cluster user requested) as [|v] eqn:E; [done|]. simpl. intros [= <-] r (cid & -> & I)%list_elem_of_fmap.
    apply elem_of_remove_dups, list_elem_of_fmap in I as (kv & -> & I). apply list_elem_of_filter in I as [[_ Sh] _]. rewrite (B _ _ E) in Sh. by apply shown_only.
  - unfold trust_distribution. destruct (scoped_cluster user requested) as [|v] eqn:E; [done|]. simpl. intros [= <-] r (cid & -> & I)%list_elem_of_fmap.
    apply elem_of_remove_dups, list_elem_of_fmap in I as (kv & -> & I). apply list_elem_of_filter in I as [Sh _]. rewrite (B _ _ E) in Sh. by apply shown_only.
  - unfold list_rollout. destruct (scoped_cluster user VNull) as [|v] eqn:E; [done|]. intros [= <-] r I.
    apply list_elem_of_filter in I as [Sh _]. rewrite (B _ _ E) in Sh. by apply shown_only.
  - unfold list_policies. destruct (require_admin_or_service user); [done|]. simpl. destruct (scoped_cluster user requested) as [|v] eqn:E; [done|].
    simpl. intros [= <-] p I t Ft. rewrite (merge_sort_Permutation name_le) in I. apply list_elem_of_filter in I as [Of _].
    rewrite (B _ _ E) in Of. unfold offered in Of. rewrite Ft in Of. by apply bool_decide_eq_true in Of.
Qed.

(** The totals of a summary are the sums over its decisions: each row counts once. *)
Lemma total_is_sum cid rows ds : NoDup ds -> (forall kv, kv ∈ rows -> kv.1.1 = cid -> kv.1.2.2 ∈ ds) ->
  total_of cid rows = foldr Z.add 0 (map (fun d => sum_of cid d rows) ds).
Proof.
  intros ND Cv. unfold total_of, sum_of. induction rows as [|kv rows IH].
  { clear. induction ds as [|d ds IH]; [done|]. cbn [map foldr]. rewrite <- IH. done. }
  assert (Cv' : forall kv', kv' ∈ rows -> kv'.1.1 = cid -> kv'.1.2.2 ∈ ds) by (intros; apply Cv; [by right|done]). specialize (IH Cv').
  destruct (decide (kv.1.1 = cid)) as [E|N].
  - rewrite filter_cons_True by done. cbn [map foldr]. rewrite IH. pose proof (Cv kv (list_elem_of_here _ _) E) as Id. clear IH Cv Cv'.
    assert (Step : forall ds', NoDup ds' ->
      foldr Z.add 0 (map (fun d => foldr Z.add 0 (map snd (filter (fun kv => kv.1.1 = cid /\ kv.1.2.2 = d) (kv :: rows)))) ds') =
      (if bool_decide (kv.1.2.2 ∈ ds') then kv.2 else 0) +
      foldr Z.add 0 (map (fun d => foldr Z.add 0 (map snd (filter (fun kv => kv.1.1 = cid /\ kv.1.2.2 = d) rows))) ds')).
    { induction ds' as [|d ds' IHd]; intros ND'; [done|]. apply NoDup_cons in ND' as [Nd ND']. cbn [map foldr]. rewrite IHd by done.
      destruct (decide (kv.1.2.2 = d)) as [<-|Nk].
      - rewrite filter_cons_True by done. cbn [map foldr]. rewrite (bool_decide_false _ Nd), bool_decide_true by (by left). lia.
      - rewrite filter_cons_False by tauto. case_bool_decide; [rewrite bool_decide_true by (by right)|rewrite bool_decide_false by (by apply not_elem_of_cons)]; lia. }
    rewrite Step, bool_decide_true by done. done.
  - rewrite filter_cons_False by done. rewrite IH. f_equal. apply map_ext. intros d. by rewrite filter_cons_False by tauto.
Qed.
End Reads.

(** ** The drill-down *)

(** A cluster's own answer to the drill-down's request, if it is one. *)
Inductive Drilled := ResidencyBlocked | NoEndpoint | FailedCheck | CouldNotReach | Records (rows : list value).

(** The request that carries the token: the address dialled, the URL and the cluster the token is for. *)
Record Dial := mkDial { d_address : text; d_url : text; d_cluster : text; d_role : string; d_lifetime : Z }.

Definition rstrip_slash (t : text) : text := reverse (drop_while (fun c => c =? 47) (reverse t)).

Section Drilldown.
Context (nfkc : text -> text) (resolve : text -> resolution).
Context (answer : Dial -> option value).       (* [None]: the request fails *)

Definition drilldown (user : Claims) (cluster_id range limit : text) (h : Hub) : list Dial * Ended Drilled :=
  match require_admin user, scoped_cluster user (VStr cluster_id) with
  | inl e, _ | _, inl e => ([], Refused e)
  | inr _, inr _ =>
      match clusters h !! cluster_id with
      | None => ([], Refused (Http 404 "cluster not registered"))
      | Some c =>
          if cl_residency c then ([], Done ResidencyBlocked)
          else if bool_decide (cl_endpoint c = []) then ([], Done NoEndpoint)
          else match resolve_and_pin nfkc resolve (cl_endpoint c) with
          | inl Blocked => ([], Done FailedCheck)
          | inl Raises => ([], Exception)
          | inr addr =>
              let d := mkDial addr (rstrip_slash (cl_endpoint c) ++ points "/api/v1/audit/records?range=" ++ range ++ points "&limit=" ++ limit)
                         cluster_id "admin" 120 in
              ([d], Done (match answer d with
                          | None => CouldNotReach
                          | Some (VArr rows) => Records rows
                          | Some _ => Records []
                          end))
          end
      end
  end.

(** The administrator's token of the drill-down leaves the hub only for an administrator's request, towards a registered cluster that
    does not keep its records, at the address that passed the check of that cluster's endpoint; it is for that cluster, and there is at
    most one request. *)
Theorem drilldown_guarded user cluster_id range limit h :
  forall d, d ∈ (drilldown user cluster_id range limit h).1 ->
  is_role "admin" user = true /\ (drilldown user cluster_id range limit h).1 = [d] /\ d_cluster d = cluster_id /\
  exists c, clusters h !! cluster_id = Some c /\ cl_residency c = false /\ cl_endpoint c <> [] /\
    resolve_and_pin nfkc resolve (cl_endpoint c) = inr (d_address d).
Proof.
  intros d. unfold drilldown, require_admin. destruct (is_role "admin" user) eqn:Ad; [|by intros ?%elem_of_nil]. cbn [mret R_ret].
  destruct (scoped_cluster user _); [by intros ?%elem_of_nil|]. destruct (clusters h !! cluster_id) as [c|]; [|by intros ?%elem_of_nil].
  destruct (cl_residency c) eqn:Rs; [by intros ?%elem_of_nil|]. case_bool_decide; [by intros ?%elem_of_nil|].
  destruct (resolve_and_pin nfkc resolve (cl_endpoint c)) as [[]|addr] eqn:P; [by intros ?%elem_of_nil..|].
  cbn [fst]. intros ->%list_elem_of_singleton. split_and!; try done. by exists c.
Qed.
End Drilldown.

(** ** Runs *)
Module RollupRun.
Import FleetRun.

Definition service (cluster : text) : Claims :=
  {| c_sub := points "norviq-relay"; c_role := points "service"; c_namespace := []; c_cluster := cluster; c_agent_class := []; c_spiffe_id := [];
     c_workload := []; c_must_change := false; c_exp := 0; c_iat := 0 |}.
Definition hb : HeartbeatBody := mkHeartbeat c1 (points "https://c1.example.com/") [] [] false [] [].
Definition empty_store : Store := mkStore (mkHub [] ∅ ∅) ∅ ∅ ∅.

(** Minutes after eight. *)
Definition at_min (m : Z) : Z := 8 * HOUR + m * 60000000.
Definition rec (m : Z) : AuditRecord := mkAuditRecord (points "shop") (at_min m) (points "block").
Definition log : list AuditRecord := [rec 10; rec 30; rec 50].
Definition eight : Bucket := (points "shop", 8 * HOUR, points "block").
Definition relay (m : Z) (s : Store) : Store := relay_once (service c1) c1 hb [] log (at_min m) (at_min m) s.

Lemma relay_counts_witness :
  audit_rollups (relay 60 empty_store) !! (c1, eight) = Some 3 /\ audit_rollups (relay 60 (relay 60 empty_store)) = audit_rollups (relay 60 empty_store).
Proof.
  destruct (relay_counts (service c1) c1 hb [] log (at_min 60) (at_min 60) empty_store) as (Ex & _ & Re); [vm_compute; reflexivity|].
  split; [|exact Re]. unfold relay. rewrite Ex; [vm_compute; reflexivity|vm_compute; discriminate|by left].
Defined.

(** An hour whose count was right is overwritten as the window moves past it: three blocked calls become one, and stay one. *)
Example settled_hour_loses_counts :
  let totals ms := map (fun row => row.2) (match audit_summary admin VNull 24 (at_min 300) (foldl (fun s m => relay m s) empty_store ms) with inr l => l | inl _ => [] end) in
  totals [60] = [3] /\ totals [60; 140] = [2] /\ totals [60; 140; 160; 240; 300] = [1].
Proof. vm_compute. done. Qed.

(** A second cluster with an agent. *)
Definition c2 : text := points "c2".
Definition agent (id : string) : AgentRollupIn := mkAgentIn (points id) (points "shop") (points "bot") (Double false 1 0) (points "High") None.
Definition two : Store := relay_once (service c2) c2 hb [agent "b"] log (at_min 60) (at_min 60) (relay_once (service c1) c1 hb [agent "a"] log (at_min 60) (at_min 60) empty_store).

Lemma reads_scoped_witness :
  (exists l, list_agents (service c1) VNull two = inr l /\ length l = 1%nat /\ forall r, r ∈ l -> r.1.1 = c1) /\
  exists l, list_agents admin VNull two = inr l /\ length l = 2%nat.
Proof.
  split.
  - destruct (list_agents (service c1) VNull two) as [e|l] eqn:E; [vm_compute in E; discriminate|]. exists l. split; [done|]. split.
    + vm_compute in E. injection E as <-. reflexivity.
    + destruct (reads_scoped 0 (service c1) c1 VNull 24 0 two) as (_ & Ag & _); [vm_compute; reflexivity|reflexivity|done|done|]. by apply Ag.
  - eexists. split; vm_compute; reflexivity.
Defined.

Definition named (_ : text) : resolution := Addresses [points "93.184.216.34"].
Lemma drilldown_guarded_witness :
  exists d, d ∈ (drilldown id named (fun _ => None) admin c1 (points "24h") (points "50") (hub two)).1 /\ d_address d = points "93.184.216.34" /\
    exists c, clusters (hub two) !! c1 = Some c /\ resolve_and_pin id named (cl_endpoint c) = inr (d_address d).
Proof.
  eexists. assert (I : mkDial (points "93.184.216.34") (points "https://c1.example.com/api/v1/audit/records?range=24h&limit=50") c1 "admin" 120
    ∈ (drilldown id named (fun _ => None) admin c1 (points "24h") (points "50") (hub two)).1).
  { assert ((drilldown id named (fun _ => None) admin c1 (points "24h") (points "50") (hub two)).1 =
      [mkDial (points "93.184.216.34") (points "https://c1.example.com/api/v1/audit/records?range=24h&limit=50") c1 "admin" 120]) as ->
      by (vm_compute; reflexivity). by left. }
  split; [exact I|]. split; [reflexivity|].
  destruct (drilldown_guarded id named (fun _ => None) admin c1 (points "24h") (points "50") (hub two) _ I) as (_ & _ & _ & c & Lk & _ & _ & P).
  exists c. split; [exact Lk|exact P].
Defined.

(** A cluster that is removed while its relay still runs is registered again at the next heartbeat, with its count of versions at 0. *)
Example removed_cluster_returns :
  let s := (remove_cluster admin c1 two).1 in
  clusters (hub s) !! c1 = None /\ is_Some (clusters (hub (relay 61 s)) !! c1) /\ join_tokens s = ∅.
Proof. vm_compute. eauto. Qed.

(** A token that names no cluster reads every cluster. *)
Example unbound_reads_all : match list_agents (service []) VNull two with inr l => length l | inl _ => 0%nat end = 2%nat.
Proof. vm_compute. reflexivity. Qed.
End RollupRun.
