(* ===== verification/RegoGate.v ===== *)
(** * The gate in front of submitted Rego ([api/routers/policies.py]: [validate_rego_source])

    Every entry point that takes a policy text from a caller runs it through this gate before OPA sees it: bounds on
    its size, builtins and data it may not name, and the shape that makes its [decision] defined on every input.  The
    patterns are those of the source, over the matcher of [Regex].  The theorems say what an accepted text has and
    has not; the examples show what the gate does not see. *)

From S2P Require Import Prelude Text Json Auth Regex.

(** Text with an apostrophe for each double quote. *)
Definition quoted (s : string) : text := map (fun c => if c =? 39 then 34 else c) (points s).

(** ** The patterns *)
Open Scope re.

Notation ws := (Chr is_white).
Definition dq : regex := Chr (Z.eqb 34).
Definition word_to (s : list string) : regex := alts (map lit s).
Definition pkg_char (c : Z) : bool := is_alnum c || (c =? 95) || (c =? 46).
Definition low_char (c : Z) : bool := is_lower c || (c =? 95).

(** [default decision = "..."] with one of these verdicts. *)
Definition default_decision (verdicts : list string) : regex :=
  Bound ⋅ lit "default" ⋅ ws⁺ ⋅ lit "decision" ⋅ ws∗ ⋅ Chr (Z.eqb 61) ⋅ ws∗ ⋅ dq ⋅ word_to verdicts ⋅ dq.
Definition DEFAULT_DECISION : regex := default_decision ["allow"; "block"; "escalate"; "audit"].
Definition DEFAULT_ENFORCES : regex := default_decision ["block"; "escalate"].

Definition ENFORCING_RULE : regex :=
  lit "decision" ⋅ ws∗ ⋅ Chr (Z.eqb 61) ⋅ ws∗ ⋅ dq ⋅ Cap 1 (word_to ["block"; "escalate"]) ⋅ dq ⋅ ws∗ ⋅ Chr (Z.eqb 123).
Definition PARTIAL_SET : regex := Bound ⋅ Cap 1 (word_to ["blocks"; "escalates"; "audits"]) ⋅ ws∗ ⋅ Chr (Z.eqb 91).
Definition RULE_BODY : regex :=
  lit "decision" ⋅ ws∗ ⋅ Chr (Z.eqb 61) ⋅ ws∗ ⋅ dq ⋅ word_to ["block"; "escalate"] ⋅ dq ⋅ ws∗ ⋅ Chr (Z.eqb 123) ⋅
  Cap 1 ((Chr (fun c => negb (c =? 125)))∗) ⋅ Chr (Z.eqb 125).

Definition FORBIDDEN_REGO_TOKENS : list regex :=
  [Bound ⋅ lit "http.send" ⋅ Bound;
   Bound ⋅ lit "opa.runtime" ⋅ Bound;
   Bound ⋅ lit "net." ⋅ (Chr low_char)⁺ ⋅ Bound;
   Bound ⋅ lit "io." ⋅ (Chr low_char)⁺ ⋅ Bound;
   Bound ⋅ lit "rego.parse_module" ⋅ Bound;
   Bound ⋅ lit "trace" ⋅ ws∗ ⋅ Chr (Z.eqb 40);
   Bound ⋅ lit "data" ⋅ ws∗ ⋅ Chr (Z.eqb 46) ⋅ ws∗ ⋅ lit "norviq" ⋅ ws∗ ⋅ Chr (Z.eqb 46) ⋅ ws∗ ⋅ lit "managed" ⋅ Bound].

(** [^\s*package\s+([A-Za-z0-9_.]+)] at the start of a line. *)
Definition PACKAGE : regex := NotAfter (fun c => negb (c =? 10)) ⋅ ws∗ ⋅ lit "package" ⋅ ws⁺ ⋅ Cap 1 ((Chr pkg_char)⁺).
Definition DATA_REF : regex := Bound ⋅ lit "data." ⋅ Cap 1 ((Chr pkg_char)∗).

Definition REGEX_OP : regex := Bound ⋅ lit "regex." ⋅ (Chr (fun c => is_alnum c || (c =? 95)))⁺ ⋅ Bound.
Definition RE_MATCH : regex := Bound ⋅ lit "re_match" ⋅ ws∗ ⋅ Chr (Z.eqb 40).
Definition STRING_LITERAL : regex :=
  dq ⋅ (((Chr (Z.eqb 92) ⋅ Chr (fun c => negb (c =? 10))) ∣ Chr (fun c => negb ((c =? 34) || (c =? 92))))∗) ⋅ dq.
Close Scope re.

(** ** The checks *)

Definition strip_rego_comments (rego : text) : text :=
  join [10] (filter (fun line => tstarts (points "#") (tstrip line) = false) (splitlines rego)).

Section Gate.
Context (wordc : Z -> bool).        (* [\w] *)

Definition strip_string_literals (rego : text) : text := re_sub wordc STRING_LITERAL [34; 34] rego.

Definition assert_decision_resolver (cleaned : text) : R unit :=
  if found wordc DEFAULT_ENFORCES cleaned then mret tt
  else if found wordc ENFORCING_RULE cleaned then
    if found wordc DEFAULT_DECISION cleaned then mret tt else inl (Http 422 "rego_source must declare a default decision")
  else if found wordc PARTIAL_SET cleaned then inl (Http 422 "partial-set rules but no decision resolver")
  else inl (Http 422 "rego_source must include block or escalate decision").

(** The package a text declares, and a reference to it or below it. *)
Definition own_package (dequoted : text) : option text := match matches wordc PACKAGE dequoted with (_, g) :: _ => group 1 g | [] => None end.
Definition own_reference (own : option text) (ref : text) : bool :=
  match own with Some p => bool_decide (ref = p) || tstarts (p ++ [46]) ref | None => false end.

Definition reject_forbidden_rego (dequoted : text) : R unit :=
  if existsb (fun r => found wordc r dequoted) FORBIDDEN_REGO_TOKENS then inl (Http 422 "forbidden builtin/cross-package data")
  else if forallb (fun m => own_reference (own_package dequoted) (default [] (group 1 m.2))) (matches wordc DATA_REF dequoted) then mret tt
  else inl (Http 422 "forbidden builtin/cross-package data").

Definition MAX_LENGTH : Z := 65536.
Definition MAX_LINES : Z := 650.
Definition MAX_REGEX_OPS : Z := 25.

Definition source_lines (cleaned : text) : Z := Z.of_nat (length (filter (fun line => tstrip line <> []) (splitlines cleaned))).
Definition regex_ops (dequoted : text) : Z := Z.of_nat (length (findall wordc REGEX_OP dequoted) + length (findall wordc RE_MATCH dequoted)).
Definition unreachable (cleaned : text) : bool :=
  let bodies := map (fun m => default [] (group 1 m.2)) (matches wordc RULE_BODY cleaned) in
  negb (bool_decide (bodies = [])) && forallb (fun b => bool_decide (tstrip b = points "false")) bodies.

Definition validate_rego_source (rego : text) (enforcement_mode : string) : R unit :=
  if negb (bool_decide (enforcement_mode ∈ ["block"; "audit"; "escalate"])) then inl (Http 422 "invalid enforcement_mode")
  else
    let cleaned := strip_rego_comments rego in
    let dequoted := strip_string_literals cleaned in
    if MAX_LENGTH <? Z.of_nat (length rego) then inl (Http 422 "rego_source exceeds max length")
    else if MAX_LINES <? source_lines cleaned then inl (Http 422 "rego_source exceeds line limit")
    else if MAX_REGEX_OPS <? regex_ops dequoted then inl (Http 422 "too many regex operations")
    else
      reject_forbidden_rego dequoted;;
      assert_decision_resolver cleaned;;
      if unreachable cleaned then inl (Http 422 "rego_source enforcement rule must be reachable")
      else if forallb (fun w => found wordc (Cat (Cat Bound (lit w)) Bound) (lower cleaned)) ["decision"; "rule_id"; "reason"] then mret tt
      else inl (Http 422 "rego_source must include decision, rule_id and reason").

(** *** What an accepted text has *)

Notation blank t := (Forall (fun c => is_white c = true) t).

(** A text declares a default decision with this verdict, or has a rule for it. *)
Definition declares_default (verdict : string) (t : text) : Prop :=
  exists a w1 w2 w3 b, t = a ++ points "default" ++ w1 ++ points "decision" ++ w2 ++ [61] ++ w3 ++ [34] ++ points verdict ++ [34] ++ b /\
    w1 <> [] /\ blank w1 /\ blank w2 /\ blank w3.
Definition has_rule (verdict : string) (t : text) : Prop :=
  exists a w1 w2 w3 b, t = a ++ points "decision" ++ w1 ++ [61] ++ w2 ++ [34] ++ points verdict ++ [34] ++ w3 ++ [123] ++ b /\
    blank w1 /\ blank w2 /\ blank w3.

Lemma lang_word_to ws t : lang (word_to ws) t -> exists w, w ∈ ws /\ t = points w.
Proof.
  unfold word_to. assert (G : forall rs r, lang (foldl Alt r rs) t -> lang r t \/ exists r', r' ∈ rs /\ lang r' t).
  { induction rs as [|r' rs IH]; intros r L; simpl in L; [by left|]. apply IH in L as [[L|L]|(r'' & I & L)]; [by left|right..].
    - exists r'. split; [by left|done].
    - exists r''. split; [by right|done]. }
  destruct ws as [|w ws]; simpl; [by intros (c & _ & [=])|]. intros [L|(r' & I & L)]%G.
  - apply lang_lit_of in L as ->. exists w. split; [by left|done].
  - apply list_elem_of_fmap in I as (w' & -> & I). apply lang_lit_of in L as ->. exists w'. split; [by right|done].
Qed.

Ltac split_lang := repeat match goal with
  | H : lang (Cat _ _) _ |- _ => destruct H as (? & ? & -> & ? & ?)
  | H : lang Bound _ |- _ => simpl in H; subst
  | H : lang (Cap _ ?a) ?t |- _ => change (lang a t) in H
  | H : lang (lit _) _ |- _ => apply lang_lit_of in H; subst
  | H : lang dq _ |- _ => destruct H as (? & -> & <-%Z.eqb_eq)
  | H : lang (Chr (Z.eqb _)) _ |- _ => destruct H as (? & -> & <-%Z.eqb_eq)
  | H : lang (word_to _) _ |- _ => apply lang_word_to in H as (? & ? & ->)
  | H : lang (Rep _ _ _) _ |- _ => apply lang_class in H as [? ?]
  end.

Lemma default_found verdicts t : found wordc (default_decision verdicts) t = true -> exists v, v ∈ verdicts /\ declares_default v t.
Proof.
  intros (a & u & b & -> & Lu)%found_lang. unfold default_decision in Lu. split_lang. unfold declares_default. rewrite <- !app_assoc. cbn [app].
  match goal with |- context [a ++ points "default" ++ ?w1 ++ points "decision" ++ ?w2 ++ 61 :: ?w3 ++ 34 :: points ?v ++ 34 :: b] =>
    exists v; split; [assumption|]; exists a, w1, w2, w3, b end.
  split; [reflexivity|]. split_and!; try assumption. intros ->. simpl in *. lia.
Qed.

Lemma rule_found t : found wordc ENFORCING_RULE t = true -> exists v, v ∈ ["block"; "escalate"] /\ has_rule v t.
Proof.
  intros (a & u & b & -> & Lu)%found_lang. unfold ENFORCING_RULE in Lu. split_lang. unfold has_rule. rewrite <- !app_assoc. cbn [app].
  match goal with |- context [a ++ points "decision" ++ ?w1 ++ 61 :: ?w2 ++ 34 :: points ?v ++ 34 :: ?w3 ++ 123 :: b] =>
    exists v; split; [assumption|]; exists a, w1, w2, w3, b end.
  split; [reflexivity|]. split_and!; assumption.
Qed.

(** *** What it has not *)

Context (ascii_words : forall c, 0 <= c < 128 -> wordc c = is_word c).

(** A name that stands alone: no word goes on before it or after it; a call: none goes on before it. *)
Definition stands_alone (name t : text) : Prop :=
  exists a b, t = a ++ name ++ b /\ after_word wordc (last a) = false /\ starts_word wordc b = false.
Definition called (call t : text) : Prop := exists a b, t = a ++ call ++ b /\ after_word wordc (last a) = false.

(** What a policy may not name: the builtins that reach the network, the environment or the compiler, every member of [net] and
    [io], and the packages of other policies, however spaced. *)
Inductive forbidden_name : text -> Prop :=
  | forbidden_builtin name : name ∈ ["http.send"; "opa.runtime"; "rego.parse_module"] -> forbidden_name (points name)
  | forbidden_member family m : family ∈ ["net."; "io."] -> m <> [] -> Forall (fun c => low_char c = true) m -> forbidden_name (points family ++ m)
  | forbidden_managed w1 w2 w3 w4 : blank w1 -> blank w2 -> blank w3 -> blank w4 ->
      forbidden_name (points "data" ++ w1 ++ [46] ++ w2 ++ points "norviq" ++ w3 ++ [46] ++ w4 ++ points "managed").

(** And may not call. *)
Inductive forbidden_call : text -> Prop :=
  | forbidden_trace w : blank w -> forbidden_call (points "trace" ++ w ++ [40]).

Lemma after_last a : after_word wordc (last_of None a) = after_word wordc (last a).
Proof. unfold last_of. by destruct (last a). Qed.

Lemma word_ascii c : is_word c = true -> wordc c = true.
Proof.
  intros W. rewrite ascii_words; [done|]. unfold is_word, is_alnum, is_upper, is_lower, is_num in W. rewrite !orb_true_iff, !andb_true_iff, !Z.leb_le, !Z.eqb_eq in W. lia.
Qed.

Lemma low_word c : low_char c = true -> is_word c = true.
Proof. unfold low_char, is_word, is_alnum. intros [->| ->]%orb_true_iff; [|apply orb_true_r]. by rewrite orb_true_r. Qed.

(** The patterns on the texts they are for, a piece at a time. *)
Section Pieces.
Context {A : Type} (k : option Z -> text -> Groups -> option A).

Lemma run_cat a b p t g : run wordc (Cat a b) p t g k = run wordc a p t g (fun p' t' g' => run wordc b p' t' g' k).
Proof. done. Qed.

Lemma run_begin p c t g : after_word wordc p = false -> is_word c = true -> is_Some (k p (c :: t) g) -> is_Some (run wordc Bound p (c :: t) g k).
Proof. intros Pw W K. cbn [run starts_word]. by rewrite Pw, (word_ascii c W). Qed.

Lemma run_end p c t g : is_word c = true -> p = Some c -> starts_word wordc t = false -> is_Some (k p t g) -> is_Some (run wordc Bound p t g k).
Proof. intros W -> Bw K. cbn [run after_word]. by rewrite Bw, (word_ascii c W). Qed.

Lemma run_lit u p t g : is_Some (k (last_of p u) t g) -> is_Some (run wordc (lit_of u) p (u ++ t) g k).
Proof.
  revert p k. induction u as [|c u IH]; intros p k' K; [exact K|]. cbn [lit_of app]. cbn [run]. rewrite Z.eqb_refl. apply IH. by rewrite <- last_of_cons with (p := p).
Qed.

Lemma run_rep_class f lo p a t g : Forall (fun c => f c = true) a -> match t with c :: _ => f c = false | [] => True end ->
  (lo <= length a)%nat -> is_Some (k (last_of p a) t g) -> is_Some (run wordc (Rep lo None (Chr f)) p (a ++ t) g k).
Proof. intros F Stop L [x K]. exists x. by apply rep_class. Qed.

Lemma run_char c p t g : is_Some (k (Some c) t g) -> is_Some (run wordc (Chr (Z.eqb c)) p (c :: t) g k).
Proof. intros K. by rewrite run_chr, Z.eqb_refl. Qed.
End Pieces.

Lemma builtin_matched (name : string) c u d p b : points name = (c :: u) ++ [d] -> is_word c = true -> is_word d = true ->
  after_word wordc p = false -> starts_word wordc b = false -> is_Some (match_from wordc (Bound ⋅ lit name ⋅ Bound)%re p (points name ++ b)).
Proof.
  intros E Wc Wd Pw Bw. unfold match_from, lit. rewrite E, !run_cat, <- app_assoc. cbn [app]. apply run_begin; [done|done|].
  change (c :: u ++ d :: b) with ((c :: u) ++ [d] ++ b). rewrite app_assoc. apply run_lit.
  apply (run_end _ _ d); [done| |done|by eexists]. unfold last_of. by rewrite last_snoc.
Qed.

Lemma member_matched (family : string) c u m p b : points family = c :: u -> is_word c = true -> m <> [] -> Forall (fun c => low_char c = true) m ->
  after_word wordc p = false -> starts_word wordc b = false ->
  is_Some (match_from wordc (Bound ⋅ lit family ⋅ (Chr low_char)⁺ ⋅ Bound)%re p ((points family ++ m) ++ b)).
Proof.
  intros E Wc Nm Fm Pw Bw. unfold match_from, lit. rewrite E, !run_cat, <- app_assoc. cbn [app]. apply run_begin; [done|done|].
  change (c :: u ++ m ++ b) with ((c :: u) ++ m ++ b). apply run_lit. apply run_rep_class; [done| |destruct m; [done|cbn; lia]|].
  - destruct b as [|d b]; [done|]. destruct (low_char d) eqn:Ld; [|done]. cbn in Bw. by rewrite (word_ascii d (low_word d Ld)) in Bw.
  - destruct m as [|d m _] using rev_ind; [done|]. apply Forall_app in Fm as [_ Fd]. apply Forall_cons in Fd as [Fd _].
    apply (run_end _ _ d); [by apply low_word| |done|by eexists]. unfold last_of. by rewrite last_snoc.
Qed.

Lemma trace_matched w p b : blank w -> after_word wordc p = false ->
  is_Some (match_from wordc (Bound ⋅ lit "trace" ⋅ ws∗ ⋅ Chr (Z.eqb 40))%re p ((points "trace" ++ w ++ [40]) ++ b)).
Proof.
  intros Bl Pw. unfold match_from, lit. rewrite !run_cat, <- !app_assoc. apply run_begin; [done|done|].
  apply (run_lit _ (points "trace")). apply run_rep_class; [done|done|lia|]. apply run_char. by eexists.
Qed.

Lemma managed_matched w1 w2 w3 w4 p b : blank w1 -> blank w2 -> blank w3 -> blank w4 -> after_word wordc p = false -> starts_word wordc b = false ->
  is_Some (match_from wordc
    (Bound ⋅ lit "data" ⋅ ws∗ ⋅ Chr (Z.eqb 46) ⋅ ws∗ ⋅ lit "norviq" ⋅ ws∗ ⋅ Chr (Z.eqb 46) ⋅ ws∗ ⋅ lit "managed" ⋅ Bound)%re p
    ((points "data" ++ w1 ++ [46] ++ w2 ++ points "norviq" ++ w3 ++ [46] ++ w4 ++ points "managed") ++ b)).
Proof.
  intros B1 B2 B3 B4 Pw Bw. unfold match_from, lit. rewrite !run_cat, <- !app_assoc. apply run_begin; [done|done|].
  apply (run_lit _ (points "data")). apply run_rep_class; [done|done|lia|]. apply run_char.
  apply run_rep_class; [done|done|lia|]. apply (run_lit _ (points "norviq")).
  apply run_rep_class; [done|done|lia|]. apply run_char.
  apply run_rep_class; [done|done|lia|]. apply (run_lit _ (points "managed")).
  apply (run_end _ _ 100); [done| |done|by eexists]. unfold last_of. done.
Qed.

Lemma names_matched name p b : forbidden_name name -> after_word wordc p = false -> starts_word wordc b = false ->
  exists r, r ∈ FORBIDDEN_REGO_TOKENS /\ is_Some (match_from wordc r p (name ++ b)).
Proof.
  intros [n I|family m I Nm Fm|w1 w2 w3 w4 B1 B2 B3 B4] Pw Bw.
  - repeat (apply elem_of_cons in I as [->|I]); [| | |by apply elem_of_nil in I].
    + exists (Bound ⋅ lit "http.send" ⋅ Bound)%re. split; [by left|]. by apply (builtin_matched "http.send" 104 (points "ttp.sen") 100).
    + exists (Bound ⋅ lit "opa.runtime" ⋅ Bound)%re. split; [right; by left|]. by apply (builtin_matched "opa.runtime" 111 (points "pa.runtim") 101).
    + exists (Bound ⋅ lit "rego.parse_module" ⋅ Bound)%re. split; [do 4 right; by left|]. by apply (builtin_matched "rego.parse_module" 114 (points "ego.parse_modul") 101).
  - repeat (apply elem_of_cons in I as [->|I]); [| |by apply elem_of_nil in I].
    + eexists. split; [do 2 right; by left|]. by apply (member_matched "net." 110 (points "et.")).
    + eexists. split; [do 3 right; by left|]. by apply (member_matched "io." 105 (points "o.")).
  - eexists. split; [do 6 right; by left|]. by apply managed_matched.
Qed.

(** A pattern that was not found matches nowhere. *)
Lemma unmatched dequoted r a t : existsb (fun r => found wordc r dequoted) FORBIDDEN_REGO_TOKENS = false -> r ∈ FORBIDDEN_REGO_TOKENS ->
  dequoted = a ++ t -> t <> [] -> ~ is_Some (match_from wordc r (last_of None a) t).
Proof.
  intros Fb I E Nt [x M]. assert (F : found wordc r dequoted = false).
  { destruct (found wordc r dequoted) eqn:F; [|done]. exfalso. revert Fb. apply not_false_iff_true. apply existsb_exists. exists r. by split; [apply list_elem_of_In|]. }
  by rewrite (found_false wordc r dequoted F a t E Nt) in M.
Qed.

Lemma forbidden_nonempty name b : forbidden_name name -> name ++ b <> [].
Proof.
  intros [n I|family m I|]; [| |done].
  - repeat (apply elem_of_cons in I as [->|I]; [done|]). by apply elem_of_nil in I.
  - repeat (apply elem_of_cons in I as [->|I]; [done|]). by apply elem_of_nil in I.
Qed.

(** A word that was found stands alone somewhere. *)
Lemma word_found (w : string) c u d t : points w = (c :: u) ++ [d] -> is_word c = true -> is_word d = true ->
  found wordc (Cat (Cat Bound (lit w)) Bound) t = true -> stands_alone (points w) t.
Proof.
  intros E Wc Wd. unfold found, matches. intros F%negb_true_iff%bool_decide_eq_false.
  destruct (finditer_some wordc (Cat (Cat Bound (lit w)) Bound) t 0 None) as (a & b & -> & [x M]); [intros N; by rewrite N in F|].
  unfold match_from in M. rewrite !run_cat in M. cbn [run] in M. destruct (xorb _ _) eqn:X in M; [|done].
  apply run_sound in M as (v & b' & g & -> & Lv & M). apply lang_lit_of in Lv as ->. destruct (xorb _ _) eqn:Y in M; [|done].
  exists a, b'. split; [done|]. rewrite after_last in X. rewrite E in X, Y. cbn [app starts_word] in X. rewrite (word_ascii c Wc) in X.
  split; [by destruct (after_word wordc (last a))|]. unfold last_of in Y. rewrite last_snoc in Y. cbn [after_word] in Y. rewrite (word_ascii d Wd) in Y.
  by destruct (starts_word wordc b').
Qed.

(** If the rules that enforce are not unreachable, the body of one is not the word false. *)
Lemma some_body_runs cleaned : unreachable cleaned = false -> forall m, m ∈ matches wordc RULE_BODY cleaned ->
  exists m', m' ∈ matches wordc RULE_BODY cleaned /\ tstrip (default [] (group 1 m'.2)) <> points "false".
Proof.
  unfold unreachable. generalize (matches wordc RULE_BODY cleaned). intros ms U m I. apply andb_false_iff in U as [U|U].
  - apply negb_false_iff, bool_decide_eq_true in U. destruct ms; [by apply elem_of_nil in I|done].
  - clear m I. induction ms as [|m ms IH]; [done|]. cbn [map forallb] in U. apply andb_false_iff in U as [U|U].
    + exists m. split; [by left|]. by apply bool_decide_eq_false in U.
    + destruct (IH U) as (m' & I & N). exists m'. split; [by right|done].
Qed.

(** C27: What the gate in front of submitted Rego accepts.  With the lines that are comments removed ([cleaned]), the text contains the
    declaration of a default decision, and a rule for block or escalate unless that default is one; not every such rule's body is the
    word false; and the words decision, rule_id and reason stand in it.  With the string literals emptied as well ([dequoted]), no
    name of [http.send], [opa.runtime], [rego.parse_module], of a member of [net] or [io], or of the managed packages stands in it,
    [trace] is not called, and every [data.] reference the scan finds is to the text's own package.  It has at most 65536
    characters, 650 lines that are not blank and 25 uses of regular expressions.  The gate reads texts, not Rego: a declaration
    in the comment at the end of a line counts. *)
Theorem accepted_rego rego mode : validate_rego_source rego mode = inr tt ->
  let cleaned := strip_rego_comments rego in let dequoted := strip_string_literals cleaned in
  ((exists v, v ∈ ["block"; "escalate"] /\ declares_default v cleaned) \/
   (exists v, v ∈ ["allow"; "block"; "escalate"; "audit"] /\ declares_default v cleaned) /\ exists v, v ∈ ["block"; "escalate"] /\ has_rule v cleaned) /\
  (forall m, m ∈ matches wordc RULE_BODY cleaned -> exists m', m' ∈ matches wordc RULE_BODY cleaned /\ tstrip (default [] (group 1 m'.2)) <> points "false") /\
  (forall w, w ∈ ["decision"; "rule_id"; "reason"] -> stands_alone (points w) (lower cleaned)) /\
  (forall name, forbidden_name name -> ~ stands_alone name dequoted) /\
  (forall call, forbidden_call call -> ~ called call dequoted) /\
  (forall m, m ∈ matches wordc DATA_REF dequoted -> own_reference (own_package dequoted) (default [] (group 1 m.2)) = true) /\
  Z.of_nat (length rego) <= MAX_LENGTH /\ source_lines cleaned <= MAX_LINES /\ regex_ops dequoted <= MAX_REGEX_OPS.
Proof.
  unfold validate_rego_source. case_bool_decide; [|done]. cbn [negb]. set (cleaned := strip_rego_comments rego). set (dequoted := strip_string_literals cleaned).
  destruct (MAX_LENGTH <? _) eqn:Ln; [done|]. destruct (MAX_LINES <? _) eqn:Li; [done|]. destruct (MAX_REGEX_OPS <? _) eqn:Ro; [done|]. bool_prop.
  unfold reject_forbidden_rego. destruct (existsb _ FORBIDDEN_REGO_TOKENS) eqn:Fb; [done|]. destruct (forallb _ (matches wordc DATA_REF dequoted)) eqn:Dr; [|done].
  cbn [mbind R_bind mret R_ret]. destruct (assert_decision_resolver cleaned) as [|[]] eqn:Ar; [done|].
  destruct (unreachable cleaned) eqn:Un; [done|]. destruct (forallb _ ["decision"; "rule_id"; "reason"]) eqn:Wd; [|done].
  intros _. cbv zeta. split_and!; [| | | | | |lia..].
  - unfold assert_decision_resolver in Ar. destruct (found wordc DEFAULT_ENFORCES cleaned) eqn:De; [left; by apply default_found|right].
    destruct (found wordc ENFORCING_RULE cleaned) eqn:Er; [|by destruct (found wordc PARTIAL_SET cleaned)].
    destruct (found wordc DEFAULT_DECISION cleaned) eqn:Dd; [|done]. split; [by apply default_found|by apply rule_found].
  - intros m I. by apply (some_body_runs cleaned Un m).
  - intros w I. rewrite forallb_forall in Wd. specialize (Wd w (proj1 (list_elem_of_In _ _) I)).
    repeat (apply elem_of_cons in I as [->|I]); [| | |by apply elem_of_nil in I].
    + by apply (word_found "decision" 100 (points "ecisio") 110).
    + by apply (word_found "rule_id" 114 (points "ule_i") 100).
    + by apply (word_found "reason" 114 (points "easo") 110).
  - intros name N (a & b & E & Aw & Bw). destruct (names_matched name (last_of None a) b N) as (r & Ir & M); [by rewrite after_last|done|].
    by apply (unmatched dequoted r a (name ++ b) Fb Ir E (forbidden_nonempty name b N)) in M.
  - intros call [w Bl] (a & b & E & Aw). eapply (unmatched dequoted _ a _ Fb); [do 5 right; by left|exact E|done|].
    apply trace_matched; [done|by rewrite after_last].
  - intros m I. rewrite forallb_forall in Dr. apply Dr. by apply list_elem_of_In.
Qed.
End Gate.

(** ** Examples *)
Module GateRun.
Definition nl : text := [10].
Definition lines (ls : list string) : text := join nl (map quoted ls).
Definition gate (ls : list string) : bool := match validate_rego_source is_word (lines ls) "block" with inr _ => true | inl _ => false end.

Definition plain : list string :=
  ["package norviq.custom"; "default decision = 'allow'"; "decision = 'block' { input.tool_name == 'rm' }"; "rule_id = 'no_rm'"; "reason = 'no rm'"].

Example plain_accepted : gate plain = true /\ gate (plain ++ ["x { http.send({}) }"]) = false /\ gate (plain ++ ["x { net.lookup_ip_addr('h') }"]) = false
  /\ gate (plain ++ ["x { io.jwt.decode(t) }"]) = false /\ gate (plain ++ ["x { trace ('h') }"]) = false /\ gate (plain ++ repeat "x = 1" 646) = false /\ gate (plain ++ ["x { data.norviq.managed.a.decision }"]) = false
  /\ gate (plain ++ ["# http.send"; "x = 'http.send' { data.norviq.custom.rule_id }"]) = true.
Proof. vm_compute. done. Qed.
Lemma accepted_rego_witness :
  validate_rego_source is_word (lines plain) "block" = inr tt /\
  (forall name, forbidden_name name -> ~ stands_alone is_word name (strip_string_literals is_word (strip_rego_comments (lines plain)))).
Proof.
  assert (E : validate_rego_source is_word (lines plain) "block" = inr tt) by (vm_compute; reflexivity). split; [exact E|].
  destruct (accepted_rego is_word (fun c _ => eq_refl) (lines plain) "block" E) as (_ & _ & _ & N & _). exact N.
Defined.

(** Raw strings are not literals to the gate: two of them with a quote in each hide the code between them. *)
Example raw_string_hides_builtin : gate (plain ++ ["x = `'`"; "y { http.send({}) }"; "z = `'`"]) = true.
Proof. vm_compute. reflexivity. Qed.

(** So do two comments at the end of lines. *)
Example trailing_comment_hides_builtin : gate (plain ++ ["x = 1 # '"; "y { http.send({}) }"; "z = 1 # '"]) = true.
Proof. vm_compute. reflexivity. Qed.

(** A reference in brackets is none to the gate: the text of another tenant's policy can be read. *)
Example bracket_reads_other_tenant : gate (plain ++ ["reason2 = data['norviq']['managed']['other']['reason']"]) = true.
Proof. vm_compute. reflexivity. Qed.

(** A default in the comment at the end of a line counts as declared: a text without any decision is accepted. *)
Example commented_default_accepted : gate ["package norviq.custom"; "rule_id = 'a' # default decision = 'block'"; "reason = 'b'"] = true.
Proof. vm_compute. reflexivity. Qed.
End GateRun.
