(* ===== verification/Remediation.v ===== *)
(** * Compliance remediation overlays ([api/threat_intent.py])

    Applying a compliance control adds block rules to one module per agent class, the overlay.  The module carries a
    manifest of the controls it encodes in a comment, and the next application reads the manifest back, adds its
    controls and writes the module anew.  The theorems: the manifest of a generated overlay reads back as the controls
    it was generated from, and any sequence of reverts and of drafts the gate accepts, generated or not, does on the text
    what it does on the list of controls; the examples show which control ids break this. *)

From S2P Require Import Prelude Text Json JsonParse Auth RegoGate.

(** Text with a tilde for each double quote. *)
Definition raw (s : string) : text := map (fun c => if c =? 126 then 34 else c) (points s).

Definition REMEDIATION_RULES : list (string * (list text * text)) :=
  [("llm06_excessive_agency", ([raw "rem_destructive_tools := {~delete_record~, ~drop_table~, ~truncate~}"],
     raw "rem_destructive_tools[input.tool_name]"));
   ("llm05_supply_chain", ([raw "rem_supply_chain_tools := {~load_plugin~, ~download_script~, ~eval~, ~install_package~}"],
     raw "rem_supply_chain_tools[input.tool_name]"));
   ("llm02_data_leakage", ([raw "rem_secret_read_tools := {~read_env~, ~getenv~, ~get_secret~, ~read_secret~, ~fetch_secret~}"],
     raw "rem_secret_read_tools[input.tool_name]"));
   ("cross_tenant_access", ([raw "rem_cross_tenant { input.tool_params.tenant_id; input.tool_params.tenant_id != input.agent.namespace }";
     raw "rem_cross_tenant { input.tool_params.namespace; input.tool_params.namespace != input.agent.namespace }"],
     raw "rem_cross_tenant"));
   ("deny_shell_execution", ([raw "rem_shell_patterns := [~; ~, ~&&~, ~$(~, ~`~, ~| ~, ~|| ~]";
     raw "rem_shell_hit { walk(input.tool_params, [_, v]); is_string(v); contains(v, rem_shell_patterns[_]) }"],
     raw "rem_shell_hit"));
   ("deny_sql_injection", ([raw "rem_sql_patterns := [~OR 1=1~, ~DROP TABLE~, ~UNION SELECT~, ~; --~, ~' OR '~]";
     raw "rem_sql_hit { input.tool_name == ~execute_sql~; walk(input.tool_params, [_, v]); is_string(v); contains(upper(v), rem_sql_patterns[_]) }"],
     raw "rem_sql_hit"));
   ("llm01_prompt_injection", ([raw "rem_injection_patterns := [~ignore previous~, ~ignore all previous~, ~disregard the above~, ~system prompt~]";
     raw "rem_injection_hit { walk(input.tool_params, [_, v]); is_string(v); contains(lower(v), rem_injection_patterns[_]) }"],
     raw "rem_injection_hit"));
   ("base64_decoded_threat", ([raw "rem_b64_candidate[v] { walk(input.tool_params, [_, v]); is_string(v); regex.match(`^[A-Za-z0-9+/]{16,}={0,2}$`, v) }";
     raw "rem_b64_tokens := [~drop table~, ~union select~, ~rm -rf~, ~$(~, ~; --~]";
     raw "rem_b64_hit { d := lower(base64.decode(rem_b64_candidate[_])); contains(d, rem_b64_tokens[_]) }"],
     raw "rem_b64_hit"))].

Definition rule_ids : list text := map (fun r => points r.1) REMEDIATION_RULES.
Definition rule_body (rid : text) : option (list text * text) :=
  snd <$> find (fun r => bool_decide (points r.1 = rid)) REMEDIATION_RULES.

Record Control := mkControl { k_framework : text; k_control_id : text; k_control_name : text; k_rule_ids : list text }.

(** [remediation_generatable_rules]: the known ones, each once. *)
Fixpoint known_rules (seen rids : list text) : list text :=
  match rids with
  | [] => seen
  | rid :: rids' => known_rules (if bool_decide (rid ∈ rule_ids) && negb (bool_decide (rid ∈ seen)) then seen ++ [rid] else seen) rids'
  end.
Definition remediation_generatable_rules : list text -> list text := known_rules [].

(** ** The manifest *)

Definition MANIFEST_TAG : text := points "nrvq:remediation-manifest".
Definition manifest_prefix : text := points "# " ++ MANIFEST_TAG ++ [32].
Definition or_else (a b : text) : text := if bool_decide (a = []) then b else a.

Definition entry_of (c : Control) : value :=
  VObj [(points "fw", VStr (k_framework c)); (points "id", VStr (k_control_id c)); (points "name", VStr (or_else (k_control_name c) (k_control_id c)));
        (points "rules", VArr (map VStr (remediation_generatable_rules (k_rule_ids c))))].

Section Overlay.
Context `{JsonFloat} (str_of : value -> text).       (* [str()] of a value that is no text *)

Definition manifest_line (cs : list Control) : text := manifest_prefix ++ dump (VArr (map entry_of cs)).

(** [str(v or "")]. *)
Definition text_of (v : option value) : text := match v with Some v => if truthy v then match v with VStr s => s | _ => str_of v end else [] | None => [] end.

(** [list(v or [])] as rule ids; [None]: it raises, or looking one of them up does. *)
Definition rule_of (v : value) : option text :=
  match v with VStr s => Some s | VArr _ | VObj _ => None | _ => Some [] end.
Definition rules_of (v : option value) : option (list text) :=
  match v with
  | Some v =>
      if negb (truthy v) then Some []
      else match v with
           | VArr l => mapM rule_of l
           | VStr s => Some (map (fun c => [c]) s)
           | VObj fs => Some fs.*1
           | _ => None
           end
  | None => Some []
  end.

(** A control of a manifest; [None]: it raises, [Some None]: it is passed over. *)
Definition read_control (v : value) : option (option Control) :=
  match v with
  | VObj fs =>
      rids ← rules_of (field (points "rules") fs);
      let rules := remediation_generatable_rules rids in
      let cid := text_of (field (points "id") fs) in
      if bool_decide (cid = []) || bool_decide (rules = []) then Some None
      else Some (Some (mkControl (text_of (field (points "fw") fs)) cid (or_else (text_of (field (points "name") fs)) cid) rules))
  | _ => None
  end.

(** [parse_remediation_controls]. *)
Fixpoint manifest_of_lines (ls : list text) : option value :=
  match ls with
  | [] => None
  | l :: ls' =>
      let s := tstrip l in
      if tstarts manifest_prefix s then JsonParse.loads float_of (fun _ => true) (drop (length manifest_prefix) s) else manifest_of_lines ls'
  end.
Definition parse_remediation_controls (rego : text) : option (list Control) :=
  match manifest_of_lines (splitlines rego) with
  | Some (VArr l) => omap id <$> mapM read_control l
  | _ => Some []
  end.

(** ** The union *)

Definition k_key (c : Control) : text * text := (k_framework c, k_control_id c).

(** The last control of each key, in the place of the first. *)
Fixpoint put_control (c : Control) (cs : list Control) : list Control :=
  match cs with
  | [] => [c]
  | d :: cs' => if bool_decide (k_key d = k_key c) then c :: cs' else d :: put_control c cs'
  end.
Definition union_remediation_controls (existing incoming : list Control) : list Control :=
  foldl (fun cs c => put_control c cs) [] (existing ++ incoming).

(** ** The module *)

Definition token_char (c : Z) : bool := is_lower c || is_num c || (c =? 95).
Definition framework_token (framework : text) : text :=
  or_else (map (fun c => if token_char c then c else 95) (lower (tstrip (or_else framework (points "fw"))))) (points "fw").
Definition control_token (control_id : text) : text :=
  let token := map (fun c => if token_char c || is_upper c then c else 95) (lower (tstrip (or_else control_id (points "control")))) in
  match token with c :: _ => if is_lower c || is_upper c || (c =? 95) then token else points "c_" ++ token | [] => points "c_" end.

(** [_rego_comment] and [_rego_string]. *)
Definition rego_comment (t : text) : text := map (fun c => if (c <? 32) || (c =? 127) then 65533 else c) t.
Definition rego_string (t : text) : text := dump_str t.

Definition normal_controls (cs : list Control) : list Control :=
  omap (fun c => let rules := remediation_generatable_rules (k_rule_ids c) in
                 if bool_decide (rules = []) then None
                 else Some (mkControl (k_framework c) (k_control_id c) (or_else (k_control_name c) (k_control_id c)) rules)) cs.

Fixpoint once (seen ls : list text) : list text :=
  match ls with
  | [] => seen
  | l :: ls' => once (if bool_decide (l ∈ seen) then seen else seen ++ [l]) ls'
  end.
Definition helper_lines (cs : list Control) : list text :=
  once [] (cs ≫= fun c => k_rule_ids c ≫= fun rid => match rule_body rid with Some (hs, _) => hs | None => [] end).
Definition block_lines (cs : list Control) : list text :=
  cs ≫= fun c => k_rule_ids c ≫= fun rid =>
    match rule_body rid with
    | Some (_, cond) => [raw "blocks[~remediation:" ++ framework_token (k_framework c) ++ [58] ++ k_control_id c ++ [58] ++ rid ++
                         raw "~] { is_remediation_class; " ++ cond ++ raw " }"]
    | None => []
    end.

Definition head_lines (agent_class : text) (cs : list Control) : list text :=
  let safe_class := map (fun c => if c =? 34 then 39 else c) agent_class in
  [points "package norviq.remediation.overlay." ++ control_token agent_class;
   [];
   raw "# COMPLIANCE remediation OVERLAY for agent class ~" ++ rego_comment safe_class ++ raw "~ " ++ [8212] ++ raw " GENERATED, DRY-RUN until applied.";
   raw "# Accumulates the UNION of every applied compliance control (one block per control " ++ [215] ++ raw " mapped rule); applying";
   raw "# another control UNIONS into this same overlay instead of replacing it. TIGHTEN-ONLY at";
   raw "# baseline priority (most-restrictive tie-break) " ++ [8212] ++ raw " only ADDS denials, never weakens a baseline block.";
   raw "# Controls: " ++ join (points ", ") (map (fun c => k_framework c ++ [32] ++ k_control_id c) cs)].
Definition tail_lines (agent_class : text) (cs : list Control) : list text :=
  let safe_class := map (fun c => if c =? 34 then 39 else c) agent_class in
  [[]; raw "default decision = ~allow~"; raw "default rule_id  = ~remediation_noop~"; raw "default reason   = ~Allowed~"; [];
   raw "is_remediation_class { input.agent.agent_class == " ++ rego_string safe_class ++ raw " }"; []] ++
  helper_lines cs ++ [[]] ++ block_lines cs ++
  [[]; raw "block_fired { blocks[_] }"; raw "decision = ~block~ { block_fired }"; raw "rule_id = sort([id | blocks[id]])[0] { block_fired }";
   raw "reason = sprintf(~compliance remediation block: %s~, [sort([id | blocks[id]])[0]]) { block_fired }"; []].

(** [generate_remediation_overlay_rego]; [None]: it raises [ValueError]. *)
Definition generate_remediation_overlay_rego (agent_class : text) (controls : list Control) : option text :=
  let cs := normal_controls controls in
  if bool_decide (cs = []) then None
  else Some (join [10] (head_lines agent_class cs ++ manifest_line cs :: tail_lines agent_class cs)).

(** [generate_remediation_rego]: the draft of one control, which the operator reviews and applies. *)
Definition rego_inner (t : text) : text := let s := drop 1 (dump_str t) in take (length s - 1) s.
Definition draft_head (c : Control) (agent_class : text) (usable : list text) : list text :=
  let safe_name := map (fun c => if c =? 34 then 39 else c) (or_else (k_control_name c) (k_control_id c)) in
  [points "package norviq.remediation." ++ framework_token (k_framework c) ++ [46] ++ control_token (k_control_id c);
   [];
   raw "# CONTROL-SPECIFIC remediation for " ++ rego_comment (k_framework c) ++ [32; 183; 32] ++ rego_comment (k_control_id c) ++ [32] ++
     rego_comment safe_name ++ [32; 8212] ++ raw " GENERATED, DRY-RUN DRAFT.";
   raw "# Closes the runtime gap by asserting this control's mapped block rule(s) for agent class ~" ++ rego_comment agent_class ++ raw "~.";
   raw "# TIGHTEN-ONLY at baseline priority (most-restrictive tie-break) " ++ [8212] ++ raw " only ADDS denials, never weakens a";
   raw "# baseline block. NEVER auto-enforces " ++ [8212] ++ raw " the operator reviews + applies via the gated Policies flow.";
   raw "# Mapped rules: " ++ join (points ", ") usable].
Definition draft_tail (c : Control) (agent_class : text) : list text :=
  let safe_name := map (fun c => if c =? 34 then 39 else c) (or_else (k_control_name c) (k_control_id c)) in
  [[]; raw "default decision = ~allow~"; raw "default rule_id  = ~remediation_noop~"; raw "default reason   = ~Allowed~"; [];
   raw "is_remediation_class { input.agent.agent_class == " ++ rego_string agent_class ++ raw " }"; []] ++
  helper_lines [c] ++ [[]] ++ block_lines [c] ++
  [[]; raw "block_fired { blocks[_] }"; raw "decision = ~block~ { block_fired }"; raw "rule_id = sort([id | blocks[id]])[0] { block_fired }";
   raw "reason = ~" ++ rego_inner (k_framework c) ++ [32] ++ rego_inner (k_control_id c) ++ [32] ++ rego_inner safe_name ++ [32; 8212] ++
     raw " remediation block~ { block_fired }"; []].
Definition generate_remediation_rego (c : Control) (agent_class : text) : option text :=
  let usable := remediation_generatable_rules (k_rule_ids c) in
  if bool_decide (usable = []) then None
  else let c' := mkControl (k_framework c) (k_control_id c) (k_control_name c) usable in
       Some (join [10] (draft_head c agent_class usable ++ manifest_line [c'] :: draft_tail c' agent_class)).

(** ** Reading back *)

Lemma known_rules_spec rids : forall seen, NoDup seen -> Forall (fun r => r ∈ rule_ids) seen ->
  NoDup (known_rules seen rids) /\ Forall (fun r => r ∈ rule_ids) (known_rules seen rids).
Proof.
  induction rids as [|rid rids IH]; intros seen ND F; simpl; [done|]. apply IH.
  - case_bool_decide; [|done]. case_bool_decide; [done|]. simpl. apply NoDup_app. split_and!; [done|set_solver|apply NoDup_singleton].
  - case_bool_decide; [|done]. case_bool_decide; [done|]. simpl. apply Forall_app. split; [done|]. by apply Forall_singleton.
Qed.

Lemma known_rules_id rids : forall seen, NoDup (seen ++ rids) -> Forall (fun r => r ∈ rule_ids) rids -> known_rules seen rids = seen ++ rids.
Proof.
  induction rids as [|rid rids IH]; intros seen ND F; simpl; [by rewrite app_nil_r|]. apply Forall_cons in F as [Fr F].
  rewrite bool_decide_true by done. rewrite bool_decide_false.
  - simpl. rewrite IH by (by rewrite <- ?app_assoc). by rewrite <- app_assoc.
  - apply NoDup_app in ND as (_ & D & _). intros I. by apply (D rid I); left.
Qed.

Lemma generatable_twice rids : remediation_generatable_rules (remediation_generatable_rules rids) = remediation_generatable_rules rids.
Proof.
  unfold remediation_generatable_rules. destruct (known_rules_spec rids [] NoDup_nil_2 (Forall_nil_2 _)). by rewrite (known_rules_id _ []).
Qed.

(** A control as an overlay holds it: with rules, all known and once each, a name and an id; one line, and text that JSON carries. *)
Record held (c : Control) : Prop := {
  held_rules : remediation_generatable_rules (k_rule_ids c) = k_rule_ids c;
  held_some : k_rule_ids c <> [];
  held_id : k_control_id c <> [];
  held_name : k_control_name c <> [];
  held_lines : unbroken (k_framework c) /\ unbroken (k_control_id c);
  held_text : str_ok (k_framework c) = true /\ str_ok (k_control_id c) = true /\ str_ok (k_control_name c) = true;
}.

Lemma or_else_id a b : a <> [] -> or_else a b = a.
Proof. intros N. unfold or_else. by rewrite bool_decide_false. Qed.

Lemma normal_held cs : Forall held cs -> normal_controls cs = cs.
Proof.
  induction 1 as [|c cs Hc _ IH]; [done|]. unfold normal_controls in *. cbn [omap list_omap]. rewrite (held_rules c Hc), bool_decide_false by apply Hc.
  rewrite or_else_id by apply Hc. rewrite IH. by destruct c.
Qed.

Lemma rule_ids_ok : Forall (fun r => str_ok r = true) rule_ids.
Proof. apply forallb_all. vm_compute. reflexivity. Qed.

Lemma held_rules_ok c : held c -> Forall (fun r => str_ok r = true) (k_rule_ids c).
Proof.
  intros Hc. rewrite <- (held_rules c Hc). destruct (known_rules_spec (k_rule_ids c) [] NoDup_nil_2 (Forall_nil_2 _)) as [_ F].
  eapply Forall_impl; [exact F|]. intros r I. pose proof rule_ids_ok as R. rewrite Forall_forall in R. by apply R.
Qed.

Lemma mapM_rules rs : mapM rule_of (map VStr rs) = Some rs.
Proof. induction rs as [|r rs IH]; [done|]. simpl in *. by rewrite IH. Qed.

Lemma entry_fields c : held c -> entry_of c = VObj [(points "fw", VStr (k_framework c)); (points "id", VStr (k_control_id c)); (points "name", VStr (k_control_name c));
  (points "rules", VArr (map VStr (k_rule_ids c)))].
Proof. intros Hc. unfold entry_of. by rewrite (held_rules c Hc), or_else_id by apply Hc. Qed.

Lemma read_entry c : held c -> read_control (entry_of c) = Some (Some c).
Proof.
  intros Hc. rewrite entry_fields by done. unfold read_control.
  match goal with |- context [field (points "rules") ?fs] => set (F := fs) end.
  assert (field (points "rules") F = Some (VArr (map VStr (k_rule_ids c)))) as -> by reflexivity.
  assert (field (points "id") F = Some (VStr (k_control_id c))) as -> by reflexivity.
  assert (field (points "fw") F = Some (VStr (k_framework c))) as -> by reflexivity.
  assert (field (points "name") F = Some (VStr (k_control_name c))) as -> by reflexivity.
  assert (Te : forall t, text_of (Some (VStr t)) = t).
  { intros t. unfold text_of. simpl. case_bool_decide; simpl; [by subst|done]. }
  assert (rules_of (Some (VArr (map VStr (k_rule_ids c)))) = Some (k_rule_ids c)) as ->.
  { unfold rules_of. rewrite mapM_rules. destruct (negb _) eqn:E; [|done]. simpl in E. rewrite negb_involutive, length_map in E.
    apply bool_decide_eq_true, length_zero_iff_nil in E. by destruct (held_some c Hc). }
  rewrite !Te. cbn [mbind option_bind]. rewrite (held_rules c Hc), !bool_decide_false by apply Hc. cbn [orb]. rewrite or_else_id by apply Hc. by destruct c.
Qed.

Lemma entries_readable cs : Forall held cs -> readable (fun _ => true) (VArr (map entry_of cs)) = true.
Proof.
  intros F. unfold readable. rewrite any_objects, andb_true_r. apply andb_true_iff. cbn [value_ok ints_fit].
  split; apply forallb_all; rewrite Forall_fmap; (eapply Forall_impl; [exact F|]); intros c Hc; unfold compose.
  - rewrite entry_fields by done. destruct (held_text c Hc) as (Tf & Ti & Tn). cbn [value_ok forallb fst snd]. rewrite Tf, Ti, Tn.
    assert (forallb value_ok (map VStr (k_rule_ids c)) = true) as ->; [|vm_compute; reflexivity].
    apply forallb_all. rewrite Forall_fmap. by apply held_rules_ok.
  - rewrite entry_fields by done. cbn [ints_fit forallb snd]. rewrite andb_true_r. apply forallb_all. rewrite Forall_fmap. by apply Forall_forall.
Qed.

(** *** Lines *)

Lemma splitlines_join pre m post : Forall unbroken pre -> unbroken m -> post <> [] ->
  splitlines (join [10] (pre ++ m :: post)) = pre ++ m :: splitlines (join [10] post).
Proof.
  intros F U N. unfold splitlines. induction F as [|l pre Ul F IH].
  - destruct post as [|p post]; [done|]. change (join [10] ([] ++ m :: p :: post)) with (m ++ 10 :: join [10] (p :: post)).
    by rewrite splitlines_step.
  - cbn [app]. assert (E : join [10] (l :: pre ++ m :: post) = l ++ 10 :: join [10] (pre ++ m :: post)) by (by destruct pre).
    rewrite E, splitlines_step, IH by done. done.
Qed.

(** A line that starts with something else than the manifest's start does so when it is stripped. *)
Lemma strip_start q l : match l with c :: _ => is_white c = false | [] => True end -> tstarts q l = false -> tstarts q (tstrip l) = false.
Proof.
  intros Hd N. destruct (tstarts q (tstrip l)) eqn:E; [|done]. exfalso. destruct (strip_of_split is_white l) as (a & b & El & Fa & _). fold tstrip in El.
  destruct a as [|c a].
  - simpl in El. apply tstarts_iff in E as [r E]. rewrite El, E in N. by rewrite <- app_assoc, tstarts_app in N.
  - destruct l; [done|]. injection El as <- _. apply Forall_cons in Fa as [Fa _]. congruence.
Qed.

Lemma unbroken_app a b : unbroken a -> unbroken b -> unbroken (a ++ b).
Proof. intros A B. apply Forall_app. by split. Qed.

Lemma unbroken_map f t : (forall c, is_break c = false -> is_break (f c) = false) -> unbroken t -> unbroken (map f t).
Proof. intros Hf U. unfold unbroken. rewrite Forall_fmap. eapply Forall_impl; [exact U|]. intros c. apply Hf. Qed.

Lemma token_char_unbroken c : token_char c || is_upper c = true -> is_break c = false.
Proof. unfold token_char, is_break, is_lower, is_num, is_upper. intros T. bool_prop. lia. Qed.

Lemma control_token_unbroken t : unbroken (control_token t).
Proof.
  unfold control_token. set (tok := map _ _). assert (U : unbroken tok).
  { unfold unbroken, tok. rewrite Forall_fmap. apply Forall_forall. intros c _. unfold compose.
    destruct (token_char c || is_upper c) eqn:E; [by apply token_char_unbroken|done]. }
  assert (C : unbroken (points "c_")) by (apply Forall_forall; intros c I; repeat (apply elem_of_cons in I as [->|I]; [done|]); by apply elem_of_nil in I).
  clearbody tok. destruct tok as [|c tok]; [done|]. destruct (is_lower c || is_upper c || (c =? 95)); [done|]. by apply unbroken_app.
Qed.

Lemma comment_unbroken t : unbroken t -> unbroken (rego_comment (map (fun c => if c =? 34 then 39 else c) t)).
Proof.
  intros U. apply unbroken_map; [|apply unbroken_map; [|done]]; intros c Hc.
  - by destruct ((c <? 32) || (c =? 127)).
  - by destruct (c =? 34).
Qed.

Lemma join_unbroken sep ts : unbroken sep -> Forall unbroken ts -> unbroken (join sep ts).
Proof.
  intros S F. induction F as [|t ts U F IH]; [by apply Forall_nil|]. destruct ts as [|u ts]; [done|].
  change (join sep (t :: u :: ts)) with (t ++ sep ++ join sep (u :: ts)). by repeat apply unbroken_app.
Qed.

Lemma unbroken_bool t : forallb (fun c => negb (is_break c)) t = true -> unbroken t.
Proof. rewrite forallb_all. intros F. eapply Forall_impl; [exact F|]. intros c. apply negb_true_iff. Qed.

Lemma head_lines_spec agent_class cs : unbroken agent_class -> Forall held cs ->
  Forall unbroken (head_lines agent_class cs) /\ Forall (fun l => tstarts manifest_prefix (tstrip l) = false) (head_lines agent_class cs).
Proof.
  intros U F. split; unfold head_lines; rewrite !Forall_cons, Forall_nil; split_and!; try exact I.
  - apply unbroken_app; [apply unbroken_bool; vm_compute; reflexivity|apply control_token_unbroken].
  - by apply Forall_nil.
  - repeat apply unbroken_app; try (apply unbroken_bool; vm_compute; reflexivity). by apply comment_unbroken.
  - apply unbroken_bool; vm_compute; reflexivity.
  - apply unbroken_bool; vm_compute; reflexivity.
  - apply unbroken_bool; vm_compute; reflexivity.
  - apply unbroken_app; [apply unbroken_bool; vm_compute; reflexivity|]. apply join_unbroken; [apply unbroken_bool; vm_compute; reflexivity|].
    rewrite Forall_fmap. eapply Forall_impl; [exact F|]. intros c Hc. unfold compose. destruct (held_lines c Hc).
    repeat apply unbroken_app; [done|apply unbroken_bool; vm_compute; reflexivity|done].
  - by apply strip_start.
  - done.
  - by apply strip_start.
  - by apply strip_start.
  - by apply strip_start.
  - by apply strip_start.
  - by apply strip_start.
Qed.

Lemma manifest_skip pre ls : Forall (fun l => tstarts manifest_prefix (tstrip l) = false) pre -> manifest_of_lines (pre ++ ls) = manifest_of_lines ls.
Proof. induction 1 as [|l pre E _ IH]; [done|]. cbn [app manifest_of_lines]. by rewrite E. Qed.

(** The manifest of a text is read wherever it stands, if the lines before it are lines and none is a manifest. *)
Lemma manifest_reads_back hd cs tl : Forall unbroken hd -> Forall (fun l => tstarts manifest_prefix (tstrip l) = false) hd -> tl <> [] -> Forall held cs ->
  parse_remediation_controls (join [10] (hd ++ manifest_line cs :: tl)) = Some cs.
Proof.
  intros Hu Hs Nt F. pose proof (entries_readable cs F) as Rd. pose proof (readable_ok _ _ Rd) as Ok.
  pose proof (dump_printable _ Ok) as Pr. set (d := dump (VArr (map entry_of cs))) in *.
  assert (Um : unbroken (manifest_line cs)).
  { apply unbroken_app; [apply unbroken_bool; vm_compute; reflexivity|]. eapply Forall_impl; [exact Pr|]. intros c C. cbn beta in C. unfold is_break. lia. }
  assert (Sm : tstrip (manifest_line cs) = manifest_line cs).
  { apply strip_of_id; [done|]. unfold manifest_line. fold d. unfold d. cbn [dump]. rewrite app_comm_cons, app_assoc, last_snoc. done. }
  unfold parse_remediation_controls. rewrite splitlines_join by done. rewrite manifest_skip by done. cbn [manifest_of_lines]. rewrite Sm.
  unfold manifest_line at 1. rewrite tstarts_app. unfold manifest_line. rewrite drop_app_length. fold d. unfold d. rewrite loads_dump by done.
  assert (M : mapM read_control (map entry_of cs) = Some (map Some cs)).
  { clear -F. induction F as [|c cs Hc F IH]; [done|]. cbn [map mapM]. rewrite read_entry by done. cbn [mbind option_bind]. by rewrite IH. }
  rewrite M. cbn [fmap option_fmap option_map]. f_equal. clear. induction cs as [|c cs IH]; [done|]. cbn [map omap list_omap id]. by rewrite IH.
Qed.

Lemma overlay_reads_back agent_class cs t : unbroken agent_class -> Forall held cs ->
  generate_remediation_overlay_rego agent_class cs = Some t -> parse_remediation_controls t = Some cs.
Proof.
  intros U F. unfold generate_remediation_overlay_rego. rewrite normal_held by done. case_bool_decide as Ne; [done|]. intros Et. apply (inj Some) in Et as <-.
  destruct (head_lines_spec agent_class cs U F). by apply manifest_reads_back.
Qed.

Lemma framework_token_unbroken t : unbroken (framework_token t).
Proof.
  unfold framework_token, or_else. case_bool_decide; [apply unbroken_bool; vm_compute; reflexivity|].
  unfold unbroken. rewrite Forall_fmap. apply Forall_forall. intros c _. unfold compose. destruct (token_char c) eqn:E; [|done].
  apply token_char_unbroken. by rewrite E.
Qed.

Lemma rules_unbroken rids : unbroken (join (points ", ") (remediation_generatable_rules rids)).
Proof.
  apply join_unbroken; [apply unbroken_bool; vm_compute; reflexivity|].
  destruct (known_rules_spec rids [] NoDup_nil_2 (Forall_nil_2 _)) as [_ F].
  assert (R : Forall unbroken rule_ids) by (apply (Forall_impl (fun t => forallb (fun c => negb (is_break c)) t = true)); [apply forallb_all; vm_compute; reflexivity|apply unbroken_bool]).
  eapply Forall_impl; [exact F|]. intros r I. rewrite Forall_forall in R. by apply R.
Qed.

Lemma plain_comment_unbroken t : unbroken t -> unbroken (rego_comment t).
Proof. intros U. apply unbroken_map; [|done]. intros c Hc. by destruct ((c <? 32) || (c =? 127)). Qed.

Lemma draft_head_spec c agent_class usable : unbroken agent_class -> held c -> unbroken (k_control_name c) -> unbroken (join (points ", ") usable) ->
  Forall unbroken (draft_head c agent_class usable) /\ Forall (fun l => tstarts manifest_prefix (tstrip l) = false) (draft_head c agent_class usable).
Proof.
  intros U Hc Un Ur. destruct (held_lines c Hc) as [Uf Ui].
  split; unfold draft_head; rewrite or_else_id by apply Hc; rewrite !Forall_cons, Forall_nil; split_and!; try exact I; try (by apply strip_start).
  2: by apply Forall_nil.
  all: repeat apply unbroken_app; try (apply unbroken_bool; vm_compute; reflexivity); try done;
    auto using framework_token_unbroken, control_token_unbroken, plain_comment_unbroken, comment_unbroken.
Qed.

(** So the draft of a control is recognized as that control when it is applied. *)
Lemma draft_reads_back c agent_class t : unbroken agent_class -> held c -> unbroken (k_control_name c) ->
  generate_remediation_rego c agent_class = Some t -> parse_remediation_controls t = Some [c].
Proof.
  intros U Hc Un. unfold generate_remediation_rego. case_bool_decide as Ne; [done|]. intros Et. apply (inj Some) in Et as <-.
  destruct (draft_head_spec c agent_class (remediation_generatable_rules (k_rule_ids c)) U Hc Un (rules_unbroken _)).
  rewrite (held_rules c Hc) in *. replace (mkControl _ _ _ _) with c by (by destruct c). apply manifest_reads_back; [done|done|done|by apply Forall_singleton].
Qed.

(** ** Applying and reverting *)

(** The union on controls. *)
Lemma put_control_keys c cs : map k_key (put_control c cs) = if bool_decide (k_key c ∈ map k_key cs) then map k_key cs else map k_key cs ++ [k_key c].
Proof.
  induction cs as [|d cs IH]; [done|]. cbn [put_control map]. destruct (decide (k_key d = k_key c)) as [E|E].
  - rewrite (bool_decide_true (k_key d = k_key c)) by done. cbn [map]. rewrite bool_decide_true by (rewrite E; by left). by rewrite E.
  - rewrite (bool_decide_false (k_key d = k_key c)) by done. cbn [map]. rewrite IH.
    destruct (decide (k_key c ∈ map k_key cs)) as [I|I].
    + rewrite (bool_decide_true _ I), bool_decide_true by (by right). done.
    + rewrite (bool_decide_false _ I), bool_decide_false; [done|]. intros [J|J]%elem_of_cons; [by symmetry in J|done].
Qed.

Lemma put_control_elem c cs d : NoDup (map k_key cs) -> d ∈ put_control c cs <-> d = c \/ (d ∈ cs /\ k_key d <> k_key c).
Proof.
  induction cs as [|e cs IH]; intros ND; cbn [put_control]; [set_solver|]. cbn [map] in ND. apply NoDup_cons in ND as [Ne ND]. case_bool_decide as E.
  - assert (N : forall x, x ∈ cs -> k_key x <> k_key c) by (intros x I Ex; apply Ne; rewrite E, <- Ex; by apply (list_elem_of_fmap_2 k_key)).
    rewrite !elem_of_cons. split; [intros [->|I]; [by left|right; auto]|]. intros [->|[[->|I] Nk]]; [by left|done|by right].
  - rewrite !elem_of_cons, IH by done. split; [intros [->|[->|[I Nk]]]; auto|]. intros [->|[[->|I] Nk]]; auto.
Qed.

(** The controls of an overlay: one per key. *)
Definition overlay_ok (cs : list Control) : Prop := Forall held cs /\ NoDup (map k_key cs).

Lemma union_acc incoming : forall acc, overlay_ok acc -> Forall held incoming ->
  let u := foldl (fun cs c => put_control c cs) acc incoming in
  overlay_ok u /\ (acc <> [] \/ incoming <> [] -> u <> []).
Proof.
  induction incoming as [|c incoming IH]; intros acc [Fa ND] F; cbn [foldl]; [split; [done|tauto]|]. apply Forall_cons in F as [Hc F].
  assert (Ok : overlay_ok (put_control c acc)).
  { split.
    - apply Forall_forall. intros d [->|[I _]]%put_control_elem; [done| |done]. rewrite Forall_forall in Fa. by apply Fa.
    - rewrite put_control_keys. case_bool_decide as Ic; [done|]. apply NoDup_app. split_and!; [done| |apply NoDup_singleton].
      intros k Ik ->%list_elem_of_singleton. done. }
  destruct (IH _ Ok F) as [O N]. split; [done|]. intros _. apply N. left. destruct acc; simpl; [done|]. by case_bool_decide.
Qed.

Lemma union_ok existing incoming : overlay_ok existing -> Forall held incoming -> incoming <> [] ->
  overlay_ok (union_remediation_controls existing incoming) /\ union_remediation_controls existing incoming <> [].
Proof.
  intros [Fe _] Fi Ne. unfold union_remediation_controls. destruct (union_acc (existing ++ incoming) []) as [O N].
  - split; [by apply Forall_nil|apply NoDup_nil_2].
  - by apply Forall_app.
  - split; [done|]. apply N. right. by destruct existing.
Qed.

(** On the stored text, as the two routes do it under their lock; [None]: no overlay.

    [create_policy], once its guards passed: the gate checks the draft and the combined text, and nothing is stored when it refuses one or
    something raises.  A draft without a manifest is stored as it is. *)
Definition apply_draft (gate : text -> bool) (agent_class rego : text) (stored : option text) : option text :=
  if negb (gate rego) then stored
  else match parse_remediation_controls rego with
       | None => stored
       | Some [] => Some rego
       | Some incoming =>
           match parse_remediation_controls (default [] stored) with
           | None => stored
           | Some existing =>
               match generate_remediation_overlay_rego agent_class (union_remediation_controls existing incoming) with
               | Some t => if gate t then Some t else stored
               | None => stored
               end
           end
       end.

(** [delete_policy] with a control id: an unknown id is refused, and the last control takes the overlay with it. *)
Definition revert_control (agent_class control_id : text) (stored : option text) : option text :=
  match parse_remediation_controls (default [] stored) with
  | None => stored
  | Some existing =>
      if negb (existsb (fun c => bool_decide (k_control_id c = control_id)) existing) then stored
      else match filter (fun c => k_control_id c <> control_id) existing with
           | [] => None
           | remaining => match generate_remediation_overlay_rego agent_class remaining with Some t => Some t | None => stored end
           end
  end.

Inductive OverlayOp := ApplyDraft (rego : text) | RevertControl (control_id : text).
Definition text_op (gate : text -> bool) (agent_class : text) (op : OverlayOp) : option text -> option text :=
  match op with ApplyDraft rego => apply_draft gate agent_class rego | RevertControl control_id => revert_control agent_class control_id end.

(** On the list of controls: a draft puts the controls its manifest names in their places, a revert takes those with its id away.  The gate
    may refuse the draft or the combined text. *)
Definition list_op (gate : text -> bool) (agent_class : text) (op : OverlayOp) (cs : list Control) : list Control :=
  match op with
  | ApplyDraft rego =>
      let u := foldl (fun cs c => put_control c cs) cs (default [] (parse_remediation_controls rego)) in
      if gate rego && gate (default [] (generate_remediation_overlay_rego agent_class u)) then u else cs
  | RevertControl cid => filter (fun c => k_control_id c <> cid) cs
  end.

Definition stores (agent_class : text) (cs : list Control) (stored : option text) : Prop :=
  overlay_ok cs /\ stored = generate_remediation_overlay_rego agent_class cs.

(** A control whose framework and id are one line each, and whose text JSON carries. *)
Record one_line (c : Control) : Prop := {
  ol_lines : unbroken (k_framework c) /\ unbroken (k_control_id c);
  ol_text : str_ok (k_framework c) = true /\ str_ok (k_control_id c) = true /\ str_ok (k_control_name c) = true;
}.

(** A draft the gate accepts, if its manifest can be read, names controls, and such ones. *)
Definition op_ok (gate : text -> bool) (op : OverlayOp) : Prop :=
  match op with
  | ApplyDraft rego => gate rego = true -> forall cs, parse_remediation_controls rego = Some cs -> cs <> [] /\ Forall one_line cs
  | RevertControl _ => True
  end.

Lemma read_held v c : read_control v = Some (Some c) -> one_line c -> held c.
Proof.
  intros R [L T]. destruct v as [|b|n|d|t|l|fs]; try done. cbn [read_control] in R. destruct (rules_of _) as [rids|]; [|done]. cbn [mbind option_bind] in R.
  destruct (bool_decide (text_of _ = [])) eqn:Ei; [done|]. destruct (bool_decide (remediation_generatable_rules rids = [])) eqn:Er; [done|].
  apply bool_decide_eq_false in Ei, Er. cbn [orb] in R. injection R as <-. split; try done; cbn [k_rule_ids k_control_name].
  - apply generatable_twice.
  - unfold or_else. by case_bool_decide.
Qed.

(** Whatever a manifest says, the controls it is read as have known rules, once each, an id and a name. *)
Lemma parse_held rego cs : parse_remediation_controls rego = Some cs -> Forall one_line cs -> Forall held cs.
Proof.
  unfold parse_remediation_controls. destruct (manifest_of_lines _) as [[|b|n|d|t|l|fs]|]; try (by intros [= <-]).
  destruct (mapM read_control l) as [rs|] eqn:M; [|done]. intros [= <-] F. rewrite Forall_forall in F |- *. intros c I.
  pose proof (F c I) as O. apply list_elem_of_omap in I as (r & Ir & Er). unfold id in Er. subst r.
  apply mapM_Some in M. apply list_elem_of_lookup in Ir as [i Hi]. destruct (Forall2_lookup_r _ _ _ _ _ M Hi) as (v & _ & R). by apply (read_held v).
Qed.

Lemma generate_some agent_class cs : Forall held cs -> cs <> [] -> exists t, generate_remediation_overlay_rego agent_class cs = Some t.
Proof. intros F N. unfold generate_remediation_overlay_rego. rewrite normal_held, bool_decide_false by done. eauto. Qed.

Lemma parse_nothing : parse_remediation_controls [] = Some [].
Proof. reflexivity. Qed.

Lemma stored_reads agent_class cs stored : unbroken agent_class -> stores agent_class cs stored -> parse_remediation_controls (default [] stored) = Some cs.
Proof.
  intros U [[F _] ->]. destruct cs as [|c cs]; [apply parse_nothing|]. destruct (generate_some agent_class (c :: cs) F) as [t E]; [done|].
  rewrite E. by apply (overlay_reads_back agent_class).
Qed.

(** The union with the controls of an overlay puts each incoming control in its place. *)
Lemma foldl_distinct l : forall acc, NoDup (map k_key (acc ++ l)) -> foldl (fun cs c => put_control c cs) acc l = acc ++ l.
Proof.
  induction l as [|d l IH]; intros acc NDa; cbn [foldl]; [by rewrite app_nil_r|].
  assert (P : put_control d acc = acc ++ [d]).
  { rewrite map_app in NDa. apply NoDup_app in NDa as (_ & D & _). clear -D. induction acc as [|e acc IHa]; [done|]. cbn [put_control].
    rewrite bool_decide_false.
    - rewrite IHa; [done|]. intros x Ix. apply D. by right.
    - intros Ek. apply (D (k_key e)); [by left|]. rewrite Ek. by left. }
  rewrite P, IH by (by rewrite <- app_assoc). by rewrite <- app_assoc.
Qed.

Lemma union_put cs incoming : overlay_ok cs -> union_remediation_controls cs incoming = foldl (fun cs c => put_control c cs) cs incoming.
Proof. intros [_ ND]. unfold union_remediation_controls. by rewrite foldl_app, (foldl_distinct cs []). Qed.

Lemma op_refines gate agent_class op cs stored : unbroken agent_class -> op_ok gate op -> stores agent_class cs stored ->
  stores agent_class (list_op gate agent_class op cs) (text_op gate agent_class op stored).
Proof.
  intros U O St. pose proof (stored_reads _ _ _ U St) as P. pose proof St as [Ok Et]. destruct op as [rego|cid]; unfold text_op, list_op, apply_draft, revert_control.
  - destruct (gate rego) eqn:Gr; [|done]. cbn [negb andb]. specialize (O Gr). destruct (parse_remediation_controls rego) as [incoming|] eqn:Pr.
    2: { assert (foldl (fun cs c => put_control c cs) cs (default [] None) = cs) as -> by done. by destruct (gate (default [] _)). }
    destruct (O _ eq_refl) as [Ne Fo]. pose proof (parse_held _ _ Pr Fo) as Fh. cbn [default id].
    destruct (union_ok cs incoming Ok Fh Ne) as [Uo Nu]. rewrite union_put in Uo, Nu by done.
    destruct (generate_some agent_class _ (proj1 Uo) Nu) as [t Eg]. destruct incoming as [|c incoming]; [done|].
    rewrite P, union_put, Eg by done. simpl default. destruct (gate t); [split; [done|by rewrite Eg]|done].
  - rewrite P.
    destruct (existsb _ cs) eqn:Ex; cbn [negb].
    + assert (Fo : overlay_ok (filter (fun c => k_control_id c <> cid) cs)).
      { destruct Ok as [F ND]. split.
        - apply Forall_forall. intros c [_ I]%list_elem_of_filter. rewrite Forall_forall in F. by apply F.
        - apply (sublist_NoDup _ (map k_key cs)); [done|]. apply (fmap_sublist k_key), sublist_filter. }
      destruct (filter (fun c => k_control_id c <> cid) cs) as [|c cs'] eqn:Ef; [by split|]. destruct (generate_some agent_class (c :: cs') (proj1 Fo)) as [t Eg]; [done|].
      rewrite Eg. split; [done|by rewrite Eg].
    + assert (filter (fun c => k_control_id c <> cid) cs = cs) as ->; [|done]. clear -Ex. induction cs as [|c cs IH]; [done|]. simpl in Ex.
      apply orb_false_iff in Ex as [Ec Ex]. apply bool_decide_eq_false in Ec. rewrite filter_cons_True by done. by rewrite IH.
Qed.

(** With distinct ids, a revert takes one control away. *)
Lemma revert_one gate agent_class cs c : NoDup (map k_control_id cs) -> c ∈ cs ->
  forall d, d ∈ list_op gate agent_class (RevertControl (k_control_id c)) cs <-> d ∈ cs /\ d <> c.
Proof.
  intros ND I d. cbn [list_op]. rewrite list_elem_of_filter. split; [intros [N J]; split; [done|by intros ->]|]. intros [J N]. split; [|done].
  intros E. apply N. clear N. induction cs as [|e cs IH]; [by apply elem_of_nil in I|]. cbn [map] in ND. apply NoDup_cons in ND as [Ne ND].
  apply elem_of_cons in I as [->|I], J as [->|J]; [done| | |by apply IH].
  - destruct Ne. rewrite <- E. by apply (list_elem_of_fmap_2 k_control_id).
  - destruct Ne. rewrite E. by apply (list_elem_of_fmap_2 k_control_id).
Qed.

(** C31: The overlay of a class follows the list of its controls.  Through any sequence of drafts and reverts for a class whose name is
    one line, each draft the gate accepts naming in its manifest at least one control, with a framework and an id of one line:
    the stored module is the one generated from the list, and its manifest reads back as the list, one control per framework and
    id.  A draft adds the controls it names, or takes their places, and loses none; the draft generated for a control names that
    control.  A revert removes the controls with its id and no others: one control where the ids in force are distinct. *)
Theorem overlay_refines gate agent_class ops : unbroken agent_class -> Forall (op_ok gate) ops ->
  let cs := foldl (fun cs op => list_op gate agent_class op cs) [] ops in
  let stored := foldl (fun t op => text_op gate agent_class op t) None ops in
  stored = generate_remediation_overlay_rego agent_class cs /\ parse_remediation_controls (default [] stored) = Some cs /\ NoDup (map k_key cs) /\
  (forall c draft, held c -> unbroken (k_control_name c) -> generate_remediation_rego c agent_class = Some draft ->
     op_ok gate (ApplyDraft draft) /\ parse_remediation_controls draft = Some [c]) /\
  (forall c, NoDup (map k_control_id cs) -> c ∈ cs ->
     forall d, d ∈ list_op gate agent_class (RevertControl (k_control_id c)) cs <-> d ∈ cs /\ d <> c).
Proof.
  intros U F cs stored. assert (St : stores agent_class cs stored).
  { subst cs stored. assert (S0 : stores agent_class [] None) by (split; [split; [by apply Forall_nil|apply NoDup_nil_2]|done]).
    revert S0. generalize (@nil Control) as c0, (@None text) as t0. induction F as [|op ops O _ IH]; intros c0 t0 S0; [done|]. cbn [foldl]. apply IH. by apply op_refines. }
  split_and!; [apply St|by apply (stored_reads agent_class)|apply St| |].
  - intros c draft Hc Un Ed. pose proof (draft_reads_back c agent_class draft U Hc Un Ed) as Rd. split; [|done].
    intros _ cs' E. rewrite Rd in E. injection E as <-. split; [done|]. apply Forall_singleton. split; apply Hc.
  - intros c ND I. by apply revert_one.
Qed.

End Overlay.

(** ** Runs *)

Module OverlayRun.
Import LiteralFloat.

Definition no_str (v : value) : text := [].
Definition gate (t : text) : bool := match validate_rego_source is_word t "block" with inr _ => true | inl _ => false end.
Definition apply_all (cls : string) (ops : list OverlayOp) : option text := foldl (fun t op => text_op no_str gate (points cls) op t) None ops.
Definition in_force (t : option text) : list (text * text) := map k_key (default [] (parse_remediation_controls no_str (default [] t))).

Definition supply : Control := mkControl (points "owasp-llm") (points "LLM05:2025") (points "Supply chain") [points "llm05_supply_chain"].
Definition agency : Control := mkControl (points "owasp-llm") (points "LLM06:2025") (points "Excessive agency") [points "llm06_excessive_agency"; points "deny_shell_execution"].
Definition eu_agency : Control := mkControl (points "eu-ai-act") (points "LLM06:2025") (points "Oversight") [points "llm06_excessive_agency"].

Lemma is_held c : forallb (fun t => forallb (fun x => negb (is_break x)) t && str_ok t) [k_framework c; k_control_id c; k_control_name c] &&
    negb (bool_decide (k_control_id c = [])) && negb (bool_decide (k_control_name c = [])) && negb (bool_decide (k_rule_ids c = [])) &&
    bool_decide (remediation_generatable_rules (k_rule_ids c) = k_rule_ids c) = true -> held c.
Proof.
  cbn [forallb]. rewrite andb_true_r. intros B. repeat (apply andb_true_iff in B as [B ?]). rewrite ?negb_true_iff, ?bool_decide_eq_false, ?bool_decide_eq_true in *.
  repeat match goal with X : _ && _ = true |- _ => apply andb_true_iff in X as [? ?] end.
  split; auto using unbroken_bool.
Qed.

(** The draft of a control for the class, as the console offers it. *)
Definition draft (c : Control) : OverlayOp := ApplyDraft (default [] (generate_remediation_rego c (points "report-gen"))).

Definition a_run : list OverlayOp := [draft supply; draft agency; RevertControl (k_control_id supply)].

Lemma overlay_refines_witness : apply_all "report-gen" a_run = generate_remediation_overlay_rego (points "report-gen") [agency].
Proof.
  assert (D : forall d cs, parse_remediation_controls no_str d = Some cs -> cs <> [] -> Forall held cs -> op_ok no_str gate (ApplyDraft d)).
  { intros d cs E N Fh _ cs' E'. rewrite E in E'. injection E' as <-. split; [done|]. eapply Forall_impl; [exact Fh|]. intros c Hc. split; apply Hc. }
  assert (F : Forall (op_ok no_str gate) a_run).
  { repeat (apply Forall_cons; split); [eapply (D _ [supply])|eapply (D _ [agency])|exact I|by apply Forall_nil];
      first [vm_compute; reflexivity|done|apply Forall_singleton, is_held; vm_compute; reflexivity]. }
  assert (U : unbroken (points "report-gen")) by (apply unbroken_bool; vm_compute; reflexivity).
  destruct (overlay_refines no_str gate (points "report-gen") _ U F) as [E _].
  refine (eq_trans E _). vm_compute. reflexivity.
Defined.

Example applied_controls : in_force (apply_all "report-gen" [draft supply; draft agency]) = [k_key supply; k_key agency].
Proof. vm_compute. reflexivity. Qed.

(** A revert names the id only: it removes the controls with that id of every framework. *)
Example revert_crosses_frameworks :
  in_force (apply_all "report-gen" [draft supply; draft agency; draft eu_agency]) = [k_key supply; k_key agency; k_key eu_agency] /\
  in_force (apply_all "report-gen" [draft supply; draft agency; draft eu_agency; RevertControl (k_control_id agency)]) = [k_key supply].
Proof. split; vm_compute; reflexivity. Qed.

(** The ids go into the comment of the overlay as they are: one with a line separator (which ends a line for
    [splitlines], and neither a comment nor a string for Rego) writes a manifest of its own before the real one. *)
Definition forged : Control :=
  mkControl (points "x") (points "a" ++ [8232] ++ raw "# nrvq:remediation-manifest []") (points "n") [points "llm06_excessive_agency"].
Definition forged_draft : text := manifest_line [forged] ++ [10] ++
  join [10] [raw "package norviq.custom"; raw "default decision = ~allow~"; raw "decision = ~block~ { input.tool_name == ~rm~ }"; raw "rule_id = ~no_rm~"; raw "reason = ~no rm~"].
Example forged_manifest :
  in_force (apply_all "report-gen" [draft supply; ApplyDraft forged_draft]) = [] /\
  in_force (apply_all "report-gen" [draft supply; ApplyDraft forged_draft; draft agency]) = [k_key agency].
Proof. split; vm_compute; reflexivity. Qed.
End OverlayRun.
